(* ===== verification/_CoqProject ===== *)
-Q . S2P
Prelude.v
GoStrings.v
NetAddr.v
FakeIP.v
DepStart.v
Lifecycle.v
Managers.v
Box.v
Stages.v
RuleContext.v
RuleItems.v
RuleMatch.v
RuleSpec.v
RuleBuild.v
Bytes.v
Srs.v
SrsRoundtrip.v
SrsCompile.v
DnsActions.v
DnsWalk.v
DnsLive.v
DnsSeq.v
DnsMode.v
DnsRouter.v
DnsCache.v
DnsClient.v
DnsLegacy.v
Slices.v
Ja3.v
Quic.v
Sniff.v
RouteAction.v
Route.v
RouteProofs.v
Groups.v
GroupProofs.v
References.v
ReferenceProofs.v
Float64.v
Api.v
Version.v
SspanelParse.v
SspanelClient.v
Authenticator.v
PanelUsers.v
Controller.v
UserSync.v
ControllerInv.v
Accounting.v
Ticks.v
Reload.v
AnytlsInbound.v
NaiveInbound.v
Hysteria2Inbound.v
ReloadRetry.v
Periodic.v
Panel.v
Startup.v
RoutedConn.v
