(* ===== verification/Prelude.v ===== *)
(** * A verification development of SingR

    SingR is sing-box driven by an SSPanel web panel: the panel says on which
    port and SNI a node listens, who its users are, how fast and from how many
    devices they may connect and which destinations are forbidden; the node
    reports traffic, online addresses and audit hits back.  The development
    models that panel logic (poet/, the panel-driven inbounds under protocol/,
    and the start-up code of cmd/sing-box), and of the sing-box core below it the
    rules (route/rule), the router with its protocol sniffers, the binary
    rule-set format, the DNS router with its client and caches, the fake-IP
    store, the managers and the life cycle of the box, and proves what makes them
    correct.

    ** The parts and how they interact

    - The panel client (poet/api, poet/api/sspanel) turns HTTP answers into
      nodes, users and audit rules and sends reports.  [Api] has its data and
      the interface [PanelAPI] the controller uses, [Version] compareVersion,
      [SspanelParse] the response parsers, [SspanelClient] the requests, ETags
      and reports.  [GoStrings] and [Float64] have what they use of strings,
      strconv and float64.
    - Users (poet/controller/user.go): [Authenticator] has the counters, the
      device table, the shared limiter and the authenticator's tables, with Go
      pointers as indices into a store.
    - User tables of the inbounds (naive/singr_users.go and the pinbound.go
      files): [PanelUsers] has the three implementations and the contract
      [UserInboundSpec] they meet.
    - The controller (poet/controller): [Controller] has every operation: user
      synchronisation, limits, audit, both monitors, Start and the entry point
      of connections, each tick as one function.  [UserSync], [ControllerInv]
      and [Accounting] prove its properties against the interfaces [PanelAPI],
      [PanelInbound] and [PanelUsers], which [ReloadRetry] discharges for the
      three inbounds.  [Ticks] splits start and ticks into the steps at which
      the other tick and the connections can get in between, and proves that
      without interruption they are the functions of [Controller].
    - Hot reload of the inbounds: [Reload] has sockets, TLS configurations and
      what a machine may answer, [AnytlsInbound], [NaiveInbound] and
      [Hysteria2Inbound] the three life cycles.
    - The periodic task (poet/common/task/periodic.go): [Periodic], a
      transition system of critical sections, goroutines and timers.
    - The process (poet/shortcuts, poet/panel, poet.go, cmd_run.go): [Panel] has
      the tables, the panel and Start/Stop, [Startup] the choice of inbounds and
      default certificates, [RoutedConn] the wrappers around connections.

    - Rules (route/rule): [RuleContext] has the metadata of a request and the
      mutable match state in it, [RuleItems] the conditions, their constructors
      and texts, [RuleMatch] the matching of default, logical, headless and DNS
      rules and of rule-sets, [RuleSpec] the documented logic and the proofs that
      matching computes it, [RuleBuild] the constructors and the metadata of
      rule-sets.  [NetAddr] has what they use of net/netip.
    - Binary rule-sets (common/srs, rule-set compile, rule_set_local.go): [Bytes]
      has the readers and writers of the standard library the format uses, [Srs]
      Read, Write, compilation and loading, [SrsRoundtrip] and [SrsCompile] the
      proofs that a written file is read back and means what its source means.
    - The DNS router (dns/router.go, the DNS part of rule_action.go and
      rule_dns.go): [DnsActions] has messages, query options and actions,
      [DnsWalk] the walk over the rules with its futures, armed rules and
      suspensions, over a clock that may advance at every look at a future;
      [DnsLive] proves that it ends, [DnsSeq] that it computes the sequential
      reading of the rules.  [DnsMode] has the validation of the rules and the
      choice between the legacy and the response-matching mode, [DnsRouter] the
      router's Initialize, Start, Close and rule-set updates.
    - The DNS client (dns/client.go, extension_edns0_subnet.go): [DnsCache] has
      the keys and the contents of the two caches and what is done to a response,
      [DnsClient] the exchanges as a transition system of goroutines with the
      locks of the questions and the background refreshes.  [DnsLegacy] has the
      legacy mode of the router, its lookups and its entry points.
    - Sniffers (common/sniff, common/ja3): [Slices] has Go's indexing and slicing
      with their panics, [Ja3] the parser of TLS client hellos, [Quic] the QUIC
      sniffer with its decryption and reassembly, [Sniff] the other sniffers and
      the functions that try them on packets and streams.
    - The router (route/route.go): [RouteAction] has the options and actions of
      route rules and the rules built from them, [Route] the walks over the rules
      for connections and for packets without one, sniffing, resolving and what
      is done with the outcome; [RouteProofs] its properties.  It uses [RuleMatch]
      for the rules, [Sniff] for the sniffers and the start order of [DepStart]
      for the groups of outbounds.
    - Groups of outbounds (protocol/group, common/urltest, common/interrupt):
      [Groups] has selectors and URL-test groups with the history of measurements
      and the connections they may interrupt, [GroupProofs] their properties and
      what the router assumes of them.
    - References (route/reference.go, reference_rule.go): [References] has what
      is known of a rule without a request, the outbounds and DNS servers the
      rules refer to, the search from there and the calls an update makes;
      [ReferenceProofs] compares it with what [Route] does with a connection.
    - Fake-IP addresses (dns/transport/fakeip): [FakeIP], the store against the
      storage interface, with the in-memory storage as its instance.
    - The box (box.go, adapter/lifecycle.go, the managers, option/options.go):
      [Lifecycle] has start stages and scopes, [DepStart] the loop that starts
      components after their dependencies, [Managers] the six managers, [Box]
      the box's New, Start and Close, [Stages] the order of the stages.

    ** How code becomes definitions

    Definitions keep the source's names.  A Go function returning (T, error) is
    a [result T], whose third case is a run-time panic.  State is passed
    explicitly; integers are Z with the conversions of the code written out;
    maps are gmaps, and a range over a map goes through [RangeOrder], so the
    theorems hold for every order.  What is outside the repository is an
    argument: the network answers (a function from requests to outcomes), the
    JSON decoder, regular expressions, the Unicode tables, the limiter's wait,
    the QUIC and AnyTLS user services, mergo, the counting connections of sing;
    classes name what is assumed of them, and instances show it can hold.

    ** What the theorems show

    - Synchronisation: for passwords no two users share, a successful sync that
      starts with table and map in step installs exactly the panel's list in the
      inbound and the authenticator, and a failed one is retried until it does;
      in every reachable controller a name, or one of its aliases, loads the user
      the map has for it (UserSync, ControllerInv).  The authenticator refines a
      finite map from names to users (Authenticator).
    - Accounting: in every interleaving of ticks and connections each counted
      byte is in a report the panel accepted, in one it did not accept, in a
      report being collected, still in a user object, or was dropped with a
      deleted user, which only happens when it is counted between the drain and
      the deletion; a routed connection counts each byte once and asks a limited
      user's bucket for it; audit hits are reported once per period (Ticks,
      RoutedConn, Accounting).
    - Limits: a tick gives every user the limiter the panel's numbers ask for,
      unless a failed sync before it left stale ones; the device table respects its bound (ControllerInv, Authenticator).
    - Reload: anytls and naive reloads are atomic and leak nothing, hysteria2
      says exactly when it is down, and with a working machine every inbound
      that is serving, or down with other options than the node's, reaches the node the panel asked for (the reload files, ReloadRetry).
    - Process: restarts leave exactly the active panel's controllers launched
      and not closed (what the tasks of a controller do in between is Periodic's
      subject, close_can_be_lost included), every configured node with an inbound is served, calls of a periodic task
      do not overlap (Panel, Startup, Periodic).
    - Parsing: node addresses survive printing and parsing, the version order is
      that of the dotted components, ETags are committed only with their data
      (SspanelParse, SspanelClient, Version).
    - Rules: matching computes the documented logic, groups, inversion, nested
      rules and merged rule-sets included, for rules whose rule-set flags reach
      the sub-rules they are documented for ([flags_reach]; in logical rules the
      code loses them, which [spec_match] follows); the DNS pre-match, which knows no
      address yet, never rejects a rule that the response would satisfy, except
      in one case that is stated; skipping the second match for rules without
      address conditions changes nothing; every item a constructor makes lands
      in its group and in the list of all items (RuleSpec, RuleBuild).
    - Binary rule-sets: the reader ends on every file without a panic; what the
      writer wrote is read back, up to the forms the format normalises; the
      compiler picks the least version that can hold the rules; a compiled file
      with rules nested at most a hundred deep matches the same requests as its
      source (Srs, SrsRoundtrip, SrsCompile).
    - DNS rules: every query returns, with no lost wake-up and no exchange left
      running; the callback variant answers as the blocking one; a configuration
      accepted for the response-matching mode is answered as its rules read in
      order when no response arrives between two looks at it and nothing is
      cancelled, and one accepted for the legacy mode has nothing that mode
      ignores; accepted rule-set updates that do not overlap keep a running
      router's mode right (DnsLive, DnsSeq, DnsRouter).
    - DNS client: exchanges do not wait for each other forever when the queries
      a transport makes itself go to transports below it, and every lock is given
      back; an answer is the response of the query's own transport to the same
      question with the same subnet; the legacy mode asks the servers its rules
      name in order, and what it returns meets the conditions of the rule that
      asked, or is the empty answer to a question the strategy excludes
      (DnsClient, DnsLegacy).
    - Sniffing: no packet makes a sniffer panic or loop; a client hello sent in
      QUIC packets in any order and cut in any way is put together and read
      (Sniff, Quic, Ja3).
    - Routing: routing a stream never panics, and with at most one sniff rule the
      outbound reads the stream as the client sent it; a verdict on the first
      packet of a flow is what the routing of its connection does, a rejection
      of a fake destination without an address of the packet's family apart;
      following groups of outbounds ends (RouteProofs).
    - Groups: a group selects one of its members whatever is done with it, and
      following selections ends at a plain outbound; a test of plain members ends
      with the use of one within the tolerance of the fastest, for delays above 0
      that do not wrap; a choice survives a restart; an open group has one
      testing goroutine per ticker (GroupProofs).
    - References: after an update every outbound the router may send a
      connection to, and every member the groups from there select, keeps its
      idle connections; the search ends and finds what can be reached
      (ReferenceProofs).
    - Fake IP: in a range of at least four addresses they are handed out in order, stay in the range, come back
      to their domain, and repeat only after the whole range (FakeIP).
    - Box: outbounds, endpoints and DNS servers start after their dependencies,
      the loop ends on every configuration and succeeds exactly on the good
      ones; a start takes every component through the four stages once; whatever
      was registered is released exactly once, also when the start fails
      (DepStart, Managers, Box, Stages).
    - Defects: theorems that state what the code does where that is not what it
      means to do (a lost node change, a monitor that stops for good, a device
      limit that is not enforced, a password table that locks a user out, two
      reload corner cases, a parser panic, a dialect without a port, a rule the
      pre-match loses, an option that logical rules drop, a fake-IP range too
      small for its addresses, a panic on a tag used twice, rule-sets that
      compile but cannot be loaded, a DNS response that is skipped when it
      arrives at the wrong moment, options the legacy mode loses, a persisted
      refusal, a question class the cache file ignores, a query that waits for
      itself, a second OPT record, protocols a DNS sniffer hides, a QUIC hello
      spoilt by a repeated piece, sniffed bytes and packets handed on in the
      wrong order, flows to the address of another domain, a route rule without
      an outbound, a call that hangs after an error, delays that wrap or count
      as none, a measurement of a failing group that is kept, a connection that
      outlives the choice it was made by, a ticker left after a close, bytes
      counted while their user is being deleted, rule-set updates that overlap
      each other or a start of the DNS router, an inverted rule without
      conditions whose outbound counts as unused).

    ** Fuel

    Loops that are not structural take fuel equal to a measure of their input:
    compareVersion the summed lengths (each round consumes a byte), TrimSpace
    the length, waitChunked the number of bytes (each chunk is at least one),
    the dependency loop one more than the number of components (each pass but
    the last starts one) and its search for a cycle as much (each step visits a
    new tag).  The loops of the rule-set reader run at most as often as bytes are
    left (each round consumes one), its recursion at most two deeper than the
    limit the code has; the DNS walk turns at most [4 * rules + 5] times (each
    turn passes a rule, settles a future or fires an armed rule).  The legacy
    exchange starts at most once more than there are rules; the loops over QUIC
    frames, fragments and the extensions of a hello run at most once per byte or
    fragment; a stream is peeked at until its buffer is full (each read gives a
    byte); a chain of groups is at most as long as the list of outbounds, which
    were started in the order of their dependencies.  A search for references
    takes as many rounds as its queue and all lists of references have entries
    (each round takes one, and a list is appended once); the steps of a tick are
    bounded by the users it goes through.
    The theorems about them state the result, not only that it is right if it
    arrives.

    ** Not modelled, and next

    Logging, configuration file reading, the data path inside the protocols,
    TLS and QUIC libraries, and of upstream sing-box the dialing and copying of
    connections (route/conn.go), the network manager, the search for processes
    and neighbours, remote rule-sets, transports and other protocols, the
    experimental APIs and the platform bindings.  Next would be the connection
    manager of route/conn.go. *)

From stdpp Require Export prelude gmap strings list fin_maps fin_map_dom pretty.
From Stdlib Require Export ZArith Lia.

#[export] Set Default Goal Selector "!".

(** ** Results of Go calls

    A Go function that returns [(T, error)] is modelled by a value of
    [result T].  [Panic] is the third outcome Go has: a run-time panic (an
    index out of range), which is not an [error] value the caller sees. *)

Inductive error : Type :=
  | ENew (msg : string)                 (* errors.New / E.New with a constant text *)
  | EFmt (format : string) (args : list string)  (* fmt.Errorf, arguments as text *)
  | EWrap (format : string) (cause : error)      (* %w / E.Cause around another error *)
  | EStd (what : string).               (* an error value made by a library call *)

#[export] Instance error_eq_dec : EqDecision error.
Proof.
  intros x; induction x as [m|f a|f c IH|w]; intros [m'|f' a'|f' c'|w'];
    try (right; discriminate).
  - destruct (decide (m = m')); [left|right]; congruence.
  - destruct (decide (f = f')), (decide (a = a')); (left + right); congruence.
  - destruct (decide (f = f')), (IH c'); (left + right); congruence.
  - destruct (decide (w = w')); [left|right]; congruence.
Defined.

Inductive result (A : Type) : Type :=
  | Ok (a : A)
  | Err (e : error)
  | Panic (why : string).
Arguments Ok {A} a.
Arguments Err {A} e.
Arguments Panic {A} why.

#[export] Instance result_ret : MRet result := @Ok.
#[export] Instance result_bind : MBind result := λ A B f r,
  match r with Ok a => f a | Err e => Err e | Panic w => Panic w end.

(** [err.Error() == text] for the sentinel texts the panel client returns with
    [errors.New].  Every formatted error of the client starts with a literal
    word ("request", "ret", "unmarshal", "parse", ...) that no sentinel has. *)
Definition is_text (e : error) (text : string) : bool :=
  match e with ENew m => bool_decide (m = text) | _ => false end.

Definition is_ok {A} (r : result A) : bool :=
  match r with Ok _ => true | _ => false end.
Definition is_panic {A} (r : result A) : bool :=
  match r with Panic _ => true | _ => false end.

Lemma result_bind_Ok {A B} (r : result A) (f : A → result B) b :
  (r ≫= f) = Ok b ↔ ∃ a, r = Ok a ∧ f a = Ok b.
Proof. destruct r; cbn; naive_solver. Qed.

(** ** Machine integers: Go's conversions between widths *)

Definition u8  (z : Z) : Z := z `mod` 2^8.
Definition u16 (z : Z) : Z := z `mod` 2^16.
Definition u32 (z : Z) : Z := z `mod` 2^32.
Definition u64 (z : Z) : Z := z `mod` 2^64.
Definition i32 (z : Z) : Z := (z + 2^31) `mod` 2^32 - 2^31.
Definition i64 (z : Z) : Z := (z + 2^63) `mod` 2^64 - 2^63.

Definition in_i64 (z : Z) : Prop := (- 2^63 ≤ z < 2^63)%Z.
Definition in_u64 (z : Z) : Prop := (0 ≤ z < 2^64)%Z.

Lemma u16_small z : (0 ≤ z < 2^16)%Z → u16 z = z.
Proof. intros; unfold u16; apply Z.mod_small; lia. Qed.
Lemma u32_small z : (0 ≤ z < 2^32)%Z → u32 z = z.
Proof. intros; unfold u32; apply Z.mod_small; lia. Qed.
Lemma i32_small z : (- 2^31 ≤ z < 2^31)%Z → i32 z = z.
Proof. intros; unfold i32; rewrite Z.mod_small; lia. Qed.
Lemma i64_small z : in_i64 z → i64 z = z.
Proof. unfold in_i64, i64; intros; rewrite Z.mod_small; lia. Qed.
Lemma i64_range z : in_i64 (i64 z).
Proof. unfold in_i64, i64. pose proof (Z.mod_pos_bound (z + 2^63) (2^64)); lia. Qed.
Lemma i64_mod z : (i64 z `mod` 2^64 = z `mod` 2^64)%Z.
Proof.
  unfold i64. rewrite Zminus_mod, Z.mod_mod, <- Zminus_mod by lia.
  f_equal; lia.
Qed.
Lemma i64_eq_mod x y : (x `mod` 2^64 = y `mod` 2^64)%Z → i64 x = i64 y.
Proof. intros H. unfold i64. rewrite Zplus_mod, H, <- Zplus_mod. done. Qed.
Lemma i64_add x y : i64 (i64 x + y) = i64 (x + y).
Proof. apply i64_eq_mod. rewrite Zplus_mod, i64_mod, <- Zplus_mod. done. Qed.

(** ** Automation shared by the components *)

Create HintDb singr discriminated.
#[export] Hint Resolve u16_small u32_small i32_small i64_small i64_range : singr.

(** [case_all] splits every [if]/[match] of the goal and hypotheses and keeps
    the cases that survive [simplify_eq]. *)
Ltac case_all := repeat (case_match || case_decide || case_bool_decide); simplify_eq/=.
Ltac go := try done; try lia; eauto with singr.

(** ** Lists and maps *)

Section lists.
Context {A B : Type}.

Lemma omap_ext_in (f g : A → option B) (l : list A) :
  (∀ x, x ∈ l → f x = g x) → omap f l = omap g l.
Proof.
  induction l as [|x l IH]; intros H; [done|]; cbn.
  rewrite (H x) by left. rewrite IH; [done|]. intros; apply H; by right.
Qed.

Lemma foldl_inv (P : A → Prop) (f : A → B → A) (l : list B) a :
  P a → (∀ a b, b ∈ l → P a → P (f a b)) → P (foldl f a l).
Proof.
  revert a; induction l as [|b l IH]; intros a Ha Hf; [done|]; cbn.
  apply IH; [apply Hf; [left|done]|]. intros; apply Hf; [by right|done].
Qed.
End lists.

(** Go's [for k, v := range m]: every entry once, in an unspecified order.
    The theorems hold for every enumeration; [range_canonical] is the one the
    examples evaluate with. *)
Class RangeOrder := {
  range : ∀ {V : Type}, gmap string V → list (string * V);
  range_perm : ∀ {V : Type} (m : gmap string V), range m ≡ₚ map_to_list m;
}.
#[export] Program Instance range_canonical : RangeOrder | 100 :=
  {| range V m := map_to_list m |}.
Next Obligation. done. Qed.

Lemma elem_of_range `{RangeOrder} {V} (m : gmap string V) k v :
  (k, v) ∈ range m ↔ m !! k = Some v.
Proof. rewrite range_perm. apply elem_of_map_to_list. Qed.

Lemma NoDup_range_fst `{RangeOrder} {V} (m : gmap string V) : NoDup (range m).*1.
Proof. rewrite range_perm. apply NoDup_fst_map_to_list. Qed.

(** Booleans over lists. *)
Lemma existsb_ext_in {A} (f g : A → bool) l : (∀ x, x ∈ l → f x = g x) → existsb f l = existsb g l.
Proof. induction l as [|x l IH]; cbn; intros Hl; [done|]. rewrite Hl, IH by set_solver. done. Qed.
Lemma forallb_ext_in {A} (f g : A → bool) l : (∀ x, x ∈ l → f x = g x) → forallb f l = forallb g l.
Proof. induction l as [|x l IH]; cbn; intros Hl; [done|]. rewrite Hl, IH by set_solver. done. Qed.
Lemma forallb_in {A} (f : A → bool) l x : forallb f l = true → x ∈ l → f x = true.
Proof. intros Hf Hx. rewrite forallb_forall in Hf. by apply Hf, list_elem_of_In. Qed.

#[export] Hint Resolve NoDup_range_fst : singr.
