(* ===== verification/GoStrings.v ===== *)
(** * Go strings, as the panel client uses them

    Go strings are byte strings, so [string] (a list of 8-bit characters) is
    the type.  This file models the functions of packages [strings] and
    [strconv] that SingR calls and proves the laws its parsers rely on:
    [Split]/[Join] are inverse, [TrimSpace] and [ToLower] leave plain text
    alone, and [ParseInt] reads back what [Itoa] prints. *)

From S2P Require Import Prelude.
From Stdlib Require Import Ascii.


(** The Unicode case tables are data of package [unicode]: they only matter
    for strings with a byte above 127, and the model takes them as given. *)
Class UnicodeTables := {
  uni_lower : string → string;
  uni_fold : string → string → bool;
}.
#[export] Instance unicode_identity : UnicodeTables | 100 :=
  {| uni_lower s := s; uni_fold s t := bool_decide (s = t) |}.

(** ** Bytes and byte classes *)

Definition byte_of (n : nat) : ascii := ascii_of_nat n.
Definition code (c : ascii) : nat := nat_of_ascii c.
Fixpoint bytes (l : list nat) : string :=
  match l with [] => "" | n :: l => String (byte_of n) (bytes l) end.

Fixpoint all_chars (p : ascii → bool) (s : string) : bool :=
  match s with "" => true | String c s => p c && all_chars p s end.

Definition is_ascii (c : ascii) : bool := bool_decide (code c < 128).
Definition is_upper (c : ascii) : bool := bool_decide (65 ≤ code c ≤ 90).
Definition is_digit (c : ascii) : bool := bool_decide (48 ≤ code c ≤ 57).
(** Printable ASCII without the space. *)
Definition is_graphic (c : ascii) : bool := bool_decide (33 ≤ code c ≤ 126).
(** Graphic and not an upper-case letter: left alone by [ToLower] too. *)
Definition is_plain (c : ascii) : bool := is_graphic c && negb (is_upper c).

Definition lacks (sep : ascii) (s : string) : bool :=
  all_chars (λ c, negb (bool_decide (c = sep))) s.

(** ** strings.Split (one-byte separator) and strings.Join *)

Fixpoint Split (sep : ascii) (s : string) : list string :=
  match s with
  | "" => [""]
  | String c s =>
      if bool_decide (c = sep) then "" :: Split sep s
      else match Split sep s with
           | w :: ws => String c w :: ws
           | [] => [String c ""]
           end
  end.

Fixpoint Join (sep : string) (l : list string) : string :=
  match l with
  | [] => ""
  | [w] => w
  | w :: ws => w +:+ sep +:+ Join sep ws
  end.

Lemma string_app_cons c a b : String c a +:+ b = String c (a +:+ b).
Proof. done. Qed.
Lemma string_app_nil_l s : "" +:+ s = s.
Proof. done. Qed.
Lemma string_app_nil_r s : s +:+ "" = s.
Proof. induction s as [|c s IH]; [done|]. by rewrite string_app_cons, IH. Qed.
Lemma string_app_assoc a b c : (a +:+ b) +:+ c = a +:+ (b +:+ c).
Proof. induction a as [|x a IH]; [done|]. by rewrite !string_app_cons, IH. Qed.
Lemma string_length_app a b : String.length (a +:+ b) = (String.length a + String.length b)%nat.
Proof.
  induction a as [|c a IH]; [done|]. rewrite string_app_cons. cbn [String.length]. by rewrite IH.
Qed.

Lemma Split_cons sep s : ∃ w ws, Split sep s = w :: ws.
Proof.
  destruct s as [|c s]; cbn; [by do 2 eexists|].
  case_bool_decide; [by do 2 eexists|].
  destruct (Split sep s); by do 2 eexists.
Qed.

Lemma Split_lacks sep s : lacks sep s = true → Split sep s = [s].
Proof.
  unfold lacks. induction s as [|c s IH]; cbn; [done|].
  intros [H1 H2]%andb_true_iff. rewrite (IH H2).
  case_bool_decide; done.
Qed.

Lemma Split_app sep a b :
  lacks sep a = true → Split sep (a +:+ String sep b) = a :: Split sep b.
Proof.
  unfold lacks. induction a as [|c a IH]; intros H.
  - rewrite string_app_nil_l. cbn. by rewrite bool_decide_eq_true_2.
  - cbn in H. apply andb_true_iff in H as [H1 H2].
    rewrite string_app_cons. cbn. rewrite (IH H2).
    case_bool_decide; done.
Qed.

(** Joining the pieces gives the string back: [Split] loses nothing. *)
Lemma Join_Split sep s : Join (String sep "") (Split sep s) = s.
Proof.
  induction s as [|c s IH]; [done|]. cbn.
  destruct (Split_cons sep s) as (w & ws & E). rewrite E in IH |- *.
  case_bool_decide as Hc; [subst c|].
  - cbn [Join]. rewrite string_app_nil_l, string_app_cons, string_app_nil_l. by f_equal.
  - rewrite <- IH. cbn [Join]. destruct ws; done.
Qed.

Lemma Split_Join sep l :
  l ≠ [] → Forall (λ w, lacks sep w = true) l →
  Split sep (Join (String sep "") l) = l.
Proof.
  induction l as [|w l IH]; intros Hne Hl; [done|].
  apply Forall_cons in Hl as [Hw Hl].
  destruct l as [|w' l]; [by apply Split_lacks|].
  cbn [Join]. rewrite string_app_cons, string_app_nil_l, Split_app by done. f_equal.
  by apply IH.
Qed.

(** ** strings.TrimSpace *)

(** The UTF-8 encodings of the runes [unicode.IsSpace] accepts. *)
Definition space_runes : list string :=
  bytes <$> ([[9]; [10]; [11]; [12]; [13]; [32]; [194; 133]; [194; 160]; [225; 154; 128]]
    ++ ((λ k, [226; 128; 128 + k]) <$> seq 0 11)
    ++ [[226; 128; 168]; [226; 128; 169]; [226; 128; 175]; [226; 129; 159]; [227; 128; 128]])%nat.

Fixpoint strip_prefix (p s : string) : option string :=
  match p, s with
  | "", _ => Some s
  | String a p, String b s => if bool_decide (a = b) then strip_prefix p s else None
  | _, _ => None
  end.

Fixpoint strip_any (ps : list string) (s : string) : option string :=
  match ps with
  | [] => None
  | p :: ps => match strip_prefix p s with Some s' => Some s' | None => strip_any ps s end
  end.

Fixpoint trim_left (fuel : nat) (ps : list string) (s : string) : string :=
  match fuel with
  | O => s
  | S fuel => match strip_any ps s with Some s' => trim_left fuel ps s' | None => s end
  end.

(** Every encoding has at least one byte, so the string's length is fuel enough. *)
Definition TrimSpace (s : string) : string :=
  let l := trim_left (String.length s) space_runes s in
  String.rev (trim_left (String.length l) (String.rev <$> space_runes) (String.rev l)).

(** strings.TrimPrefix, strings.HasPrefix *)
Definition TrimPrefix (s p : string) : string :=
  match strip_prefix p s with Some s' => s' | None => s end.

Lemma strip_any_graphic ps c s :
  forallb (λ p, match p with String a _ => negb (is_graphic a) | "" => false end) ps = true →
  is_graphic c = true → strip_any ps (String c s) = None.
Proof.
  induction ps as [|p ps IH]; intros Hp Hc; [done|].
  cbn in Hp |- *. apply andb_true_iff in Hp as [Ha Hps].
  destruct p as [|a p]; [done|]. cbn.
  case_bool_decide; subst; [by rewrite Hc in Ha|]. by apply IH.
Qed.

Lemma trim_left_graphic fuel ps s :
  forallb (λ p, match p with String a _ => negb (is_graphic a) | "" => false end) ps = true →
  (match s with "" => True | String c _ => is_graphic c = true end) →
  trim_left fuel ps s = s.
Proof.
  intros Hps Hs. destruct fuel as [|fuel]; cbn; [done|]. destruct s as [|c s].
  - replace (strip_any ps "") with (@None string); [done|]. clear fuel.
    induction ps as [|[|a p] ps IH]; cbn in *; [done|done|].
    apply andb_true_iff in Hps as [_ Hps]. by apply IH.
  - by rewrite strip_any_graphic.
Qed.

Lemma rev_app_spec s t : String.rev_app s t = String.rev s +:+ t.
Proof.
  unfold String.rev. revert t. induction s as [|c s IH]; intros t; [done|]. cbn.
  rewrite IH, (IH (String c "")), string_app_assoc. done.
Qed.
Lemma rev_cons c s : String.rev (String c s) = String.rev s +:+ String c "".
Proof. unfold String.rev at 1. cbn. apply rev_app_spec. Qed.
Lemma rev_app_distr s t : String.rev (s +:+ t) = String.rev t +:+ String.rev s.
Proof.
  induction s as [|c s IH].
  - change (String.rev "") with "". by rewrite string_app_nil_l, string_app_nil_r.
  - rewrite string_app_cons, !rev_cons, IH, string_app_assoc. done.
Qed.
Lemma rev_involutive s : String.rev (String.rev s) = s.
Proof. induction s as [|c s IH]; [done|]. rewrite rev_cons, rev_app_distr, IH. done. Qed.

Lemma all_chars_app p a b : all_chars p (a +:+ b) = all_chars p a && all_chars p b.
Proof.
  induction a as [|c a IH]; [done|]. rewrite string_app_cons. cbn.
  by rewrite IH, andb_assoc.
Qed.
Lemma all_chars_rev p s : all_chars p (String.rev s) = all_chars p s.
Proof.
  induction s as [|c s IH]; [done|]. rewrite rev_cons, all_chars_app, IH. cbn.
  by rewrite andb_true_r, andb_comm.
Qed.
Lemma all_chars_mono (p q : ascii → bool) s :
  (∀ c, p c = true → q c = true) → all_chars p s = true → all_chars q s = true.
Proof.
  intros H. induction s as [|c s IH]; cbn; [done|].
  rewrite !andb_true_iff. naive_solver.
Qed.

(** Text of graphic characters has nothing to trim. *)
Lemma TrimSpace_graphic s : all_chars is_graphic s = true → TrimSpace s = s.
Proof.
  intros H. unfold TrimSpace.
  assert (∀ f t, all_chars is_graphic t = true → trim_left f space_runes t = t) as Hl.
  { intros f t Ht. apply trim_left_graphic; [by vm_compute|].
    destruct t; [done|]. cbn in Ht. by apply andb_true_iff in Ht as [? _]. }
  rewrite Hl by done. rewrite trim_left_graphic.
  - apply rev_involutive.
  - by vm_compute.
  - assert (all_chars is_graphic (String.rev s) = true) as Hr by (by rewrite all_chars_rev).
    destruct (String.rev s); [done|]. cbn in Hr. by apply andb_true_iff in Hr as [? _].
Qed.

(** ** strings.ToLower and strings.EqualFold *)

Definition lower_char (c : ascii) : ascii :=
  if is_upper c then byte_of (code c + 32) else c.
Fixpoint map_chars (f : ascii → ascii) (s : string) : string :=
  match s with "" => "" | String c s => String (f c) (map_chars f s) end.

Definition ToLower `{UnicodeTables} (s : string) : string :=
  if all_chars is_ascii s then map_chars lower_char s else uni_lower s.

Definition EqualFold `{UnicodeTables} (s t : string) : bool :=
  if all_chars is_ascii s && all_chars is_ascii t
  then bool_decide (map_chars lower_char s = map_chars lower_char t)
  else uni_fold s t.

Lemma is_graphic_ascii c : is_graphic c = true → is_ascii c = true.
Proof. unfold is_graphic, is_ascii. rewrite !bool_decide_eq_true. lia. Qed.
Lemma is_plain_graphic c : is_plain c = true → is_graphic c = true.
Proof. unfold is_plain. by intros [? _]%andb_true_iff. Qed.
#[export] Hint Resolve is_graphic_ascii is_plain_graphic : singr.

Lemma ToLower_plain `{UnicodeTables} s : all_chars is_plain s = true → ToLower s = s.
Proof.
  intros Hs. unfold ToLower.
  rewrite (all_chars_mono is_plain is_ascii s) by (eauto with singr).
  induction s as [|c s IH]; cbn in *; [done|].
  apply andb_true_iff in Hs as [Hc Hs]. rewrite IH by done.
  unfold is_plain in Hc. apply andb_true_iff in Hc as [_ Hc].
  unfold lower_char. by destruct (is_upper c).
Qed.

Lemma TrimSpace_plain s : all_chars is_plain s = true → TrimSpace s = s.
Proof. intros; apply TrimSpace_graphic; eauto using all_chars_mono with singr. Qed.

(** ** strconv: decimal integers *)

Definition digit_val (c : ascii) : N := N.of_nat (code c - 48).
Fixpoint digits_go (acc : N) (s : string) : option N :=
  match s with
  | "" => Some acc
  | String c s => if is_digit c then digits_go (acc * 10 + digit_val c)%N s else None
  end.
Definition parse_digits (s : string) : option N :=
  match s with "" => None | _ => digits_go 0 s end.

(** strconv.ParseUint(s, 10, bits): digits only, value below [2^bits]. *)
Definition ParseUint (s : string) (bits : Z) : result Z :=
  match parse_digits s with
  | Some n => if bool_decide (Z.of_N n < 2 ^ bits)%Z then Ok (Z.of_N n) else Err (EStd "strconv")
  | None => Err (EStd "strconv")
  end.

(** strconv.ParseInt(s, 10, bits): an optional sign, digits, signed range. *)
Definition ParseInt (s : string) (bits : Z) : result Z :=
  let '(neg, body) :=
    match s with
    | String "-" t => (true, t)
    | String "+" t => (false, t)
    | _ => (false, s)
    end in
  match parse_digits body with
  | None => Err (EStd "strconv")
  | Some un =>
      let cutoff := (2 ^ (bits - 1))%Z in
      if neg
      then if bool_decide (cutoff < Z.of_N un)%Z then Err (EStd "strconv") else Ok (- Z.of_N un)%Z
      else if bool_decide (cutoff ≤ Z.of_N un)%Z then Err (EStd "strconv") else Ok (Z.of_N un)
  end.

Definition Itoa (z : Z) : string := pretty z.

Lemma pretty_digit x : (x < 10)%N →
  is_digit (pretty_N_char x) = true ∧ digit_val (pretty_N_char x) = x.
Proof.
  intros Hx.
  assert (x = 0 ∨ x = 1 ∨ x = 2 ∨ x = 3 ∨ x = 4 ∨ x = 5 ∨ x = 6 ∨ x = 7 ∨ x = 8 ∨ x = 9)%N by lia.
  destruct_or!; subst; done.
Qed.

Lemma digits_pretty_go x s : digits_go 0 (pretty_N_go x s) = digits_go x s.
Proof.
  revert s. induction (N.lt_wf_0 x) as [x _ IH]; intros s.
  assert (x = 0 ∨ 0 < x)%N as [->|Hx] by lia; [by rewrite pretty_N_go_0|].
  rewrite pretty_N_go_step by done.
  rewrite IH by (by apply N.div_lt). cbn [digits_go].
  destruct (pretty_digit (x `mod` 10)) as [-> ->]; [by apply N.mod_lt|].
  f_equal. pose proof (N.div_mod x 10). lia.
Qed.

Lemma pretty_go_digits x s :
  all_chars is_digit s = true → all_chars is_digit (pretty_N_go x s) = true.
Proof.
  revert s. induction (N.lt_wf_0 x) as [x _ IH]; intros s Hs.
  assert (x = 0 ∨ 0 < x)%N as [->|Hx] by lia; [by rewrite pretty_N_go_0|].
  rewrite pretty_N_go_step by done. apply IH; [by apply N.div_lt|]. cbn.
  destruct (pretty_digit (x `mod` 10)) as [-> _]; [by apply N.mod_lt|]. done.
Qed.

Lemma pretty_N_digits (n : N) : all_chars is_digit (pretty n) = true.
Proof.
  unfold pretty, pretty_N. case_decide; [done|]. by apply pretty_go_digits.
Qed.

Lemma pretty_go_ne_nil x s : s ≠ "" → pretty_N_go x s ≠ "".
Proof.
  revert s. induction (N.lt_wf_0 x) as [x _ IH]; intros s Hs.
  assert (x = 0 ∨ 0 < x)%N as [->|Hx] by lia; [by rewrite pretty_N_go_0|].
  rewrite pretty_N_go_step by done. apply IH; [by apply N.div_lt|done].
Qed.

Lemma parse_digits_pretty (n : N) : parse_digits (pretty n) = Some n.
Proof.
  assert (pretty n ≠ "" ∧ digits_go 0 (pretty n) = Some n) as [Hne Hv].
  { unfold pretty, pretty_N. case_decide as Hz; [by subst|].
    rewrite digits_pretty_go. split; [|done].
    rewrite pretty_N_go_step by lia. by apply pretty_go_ne_nil. }
  unfold parse_digits. by destruct (pretty n).
Qed.

Lemma Itoa_nonneg z : (0 ≤ z)%Z → Itoa z = pretty (Z.to_N z).
Proof. intros Hz. unfold Itoa. destruct z; try done; lia. Qed.

Lemma Itoa_digits z : (0 ≤ z)%Z → all_chars is_digit (Itoa z) = true.
Proof. intros. rewrite Itoa_nonneg by done. apply pretty_N_digits. Qed.

Lemma ParseUint_Itoa z bits : (0 ≤ z < 2 ^ bits)%Z → ParseUint (Itoa z) bits = Ok z.
Proof.
  intros Hz. unfold ParseUint. rewrite Itoa_nonneg, parse_digits_pretty by lia.
  rewrite bool_decide_eq_true_2; [f_equal|]; lia.
Qed.

Lemma ParseInt_Itoa z bits : (0 ≤ z < 2 ^ (bits - 1))%Z → ParseInt (Itoa z) bits = Ok z.
Proof.
  intros Hz. unfold ParseInt.
  pose proof (Itoa_digits z (proj1 Hz)) as Hd.
  assert (parse_digits (Itoa z) = Some (Z.to_N z)) as Hp
    by (rewrite Itoa_nonneg by lia; apply parse_digits_pretty).
  assert ((match Itoa z with
           | String "-" t => (true, t) | String "+" t => (false, t)
           | _ => (false, Itoa z) end) = (false, Itoa z)) as ->.
  { destruct (Itoa z) as [|c s]; [done|]. cbn in Hd. apply andb_true_iff in Hd as [Hc _].
    destruct c as [[][][][][][][][]]; try done; by vm_compute in Hc. }
  rewrite Hp, bool_decide_eq_false_2; [f_equal|]; lia.
Qed.

Lemma digit_plain c : is_digit c = true → is_plain c = true.
Proof.
  unfold is_digit, is_plain, is_graphic, is_upper.
  rewrite bool_decide_eq_true, andb_true_iff, negb_true_iff, bool_decide_eq_true, bool_decide_eq_false.
  lia.
Qed.
Lemma Itoa_plain z : (0 ≤ z)%Z → all_chars is_plain (Itoa z) = true.
Proof. intros; eapply all_chars_mono; [apply digit_plain|by apply Itoa_digits]. Qed.

Lemma lacks_plain sep s p :
  (∀ c, p c = true → c ≠ sep) → all_chars p s = true → lacks sep s = true.
Proof.
  intros H. apply all_chars_mono. intros c Hc. apply negb_true_iff, bool_decide_eq_false. auto.
Qed.
Lemma Itoa_lacks sep z : is_digit sep = false → (0 ≤ z)%Z → lacks sep (Itoa z) = true.
Proof.
  intros Hsep Hz. apply (lacks_plain _ _ is_digit); [|by apply Itoa_digits].
  intros c Hc ->. congruence.
Qed.
#[export] Hint Resolve Itoa_plain Itoa_lacks TrimSpace_plain : singr.
Create Rewrite HintDb gostr.
#[export] Hint Rewrite @Split_lacks @Split_app @TrimSpace_plain @ToLower_plain
  using (solve [assumption | reflexivity | eauto with singr]) : gostr.
#[global] Arguments TrimSpace : simpl never.
#[global] Arguments ToLower {_} _ : simpl never.
#[global] Arguments EqualFold {_} _ _ : simpl never.
