(* ===== verification/NetAddr.v ===== *)
(** * IP addresses and prefixes of package [net/netip]

    The routing rules, the fake-IP store and the DNS code compute with
    [netip.Addr] and [netip.Prefix] of Go's standard library.  An address is
    its family and its value as an unsigned integer of 32 or 128 bits (with
    the zone of an IPv6 address); the zero [Addr] is a constructor of its own.
    The operations below are the ones the sources call. *)

From S2P Require Import Prelude.

Local Open Scope Z_scope.

Inductive Addr :=
  | AddrZero
  | Addr4 (v : Z)
  | Addr6 (v : Z) (zone : string).

#[export] Instance Addr_eq_dec : EqDecision Addr.
Proof. solve_decision. Defined.
#[export] Instance Addr_countable : Countable Addr.
Proof.
  refine (inj_countable'
    (λ a, match a with
          | AddrZero => inl ()
          | Addr4 v => inr (inl v)
          | Addr6 v z => inr (inr (v, z)) end : () + (Z + Z * string))
    (λ x, match x with
          | inl _ => AddrZero
          | inr (inl v) => Addr4 v
          | inr (inr (v, z)) => Addr6 v z end) _).
  by intros [].
Defined.

(** Values in the range of their width. *)
Definition addr_wf (a : Addr) : Prop :=
  match a with
  | AddrZero => True
  | Addr4 v => 0 ≤ v < 2^32
  | Addr6 v _ => 0 ≤ v < 2^128
  end.

Definition BitLen (a : Addr) : Z :=
  match a with AddrZero => 0 | Addr4 _ => 32 | Addr6 _ _ => 128 end.
Definition addr_IsValid (a : Addr) : bool :=
  match a with AddrZero => false | _ => true end.
Definition Is4 (a : Addr) : bool :=
  match a with Addr4 _ => true | _ => false end.
Definition Is6 (a : Addr) : bool :=
  match a with Addr6 _ _ => true | _ => false end.
Definition Is4In6 (a : Addr) : bool :=
  match a with Addr6 v _ => bool_decide (Z.shiftr v 32 = 0xffff) | _ => false end.
Definition addr_val (a : Addr) : Z :=
  match a with AddrZero => 0 | Addr4 v => v | Addr6 v _ => v end.
Definition hasZone (a : Addr) : bool :=
  match a with Addr6 _ z => negb (bool_decide (z = ""%string)) | _ => false end.
Definition withoutZone (a : Addr) : Addr :=
  match a with Addr6 v _ => Addr6 v ""%string | _ => a end.
Definition Unmap (a : Addr) : Addr :=
  match a with
  | Addr6 v _ => if Is4In6 a then Addr4 (v `mod` 2^32) else a
  | _ => a
  end.

(** [Next]: the zero [Addr] when there is none. *)
Definition addr_Next (a : Addr) : Addr :=
  match a with
  | AddrZero => AddrZero
  | Addr4 v => if bool_decide (v + 1 = 2^32) then AddrZero else Addr4 (v + 1)
  | Addr6 v z => if bool_decide (v + 1 = 2^128) then AddrZero else Addr6 (v + 1) z
  end.

(** A prefix keeps [bitsPlusOne]: 0 marks an invalid prefix. *)
Record Prefix := MkPrefix { prefix_addr : Addr; bitsPlusOne : Z }.
#[export] Instance Prefix_eq_dec : EqDecision Prefix.
Proof. solve_decision. Defined.
Definition PrefixZero : Prefix := MkPrefix AddrZero 0.

Definition prefix_IsValid (p : Prefix) : bool := bool_decide (0 < bitsPlusOne p).
Definition prefix_Bits (p : Prefix) : Z := bitsPlusOne p - 1.
Definition PrefixFrom (ip : Addr) (bits : Z) : Prefix :=
  MkPrefix (withoutZone ip)
    (if addr_IsValid ip && bool_decide (0 ≤ bits ≤ BitLen ip) then bits + 1 else 0).

(** The top [bits] of [w] bits. *)
Definition netmask (w bits : Z) : Z := Z.shiftl (Z.ones bits) (w - bits).

Definition prefix_Contains (p : Prefix) (ip : Addr) : bool :=
  if negb (prefix_IsValid p) || hasZone ip then false
  else
    let f1 := BitLen (prefix_addr p) in
    let f2 := BitLen ip in
    if bool_decide (f1 = 0) || bool_decide (f2 = 0) || negb (bool_decide (f1 = f2)) then false
    else if Is4 ip
    then bool_decide (Z.shiftr (Z.lxor (addr_val ip) (addr_val (prefix_addr p)))
                        (32 - prefix_Bits p) = 0)
    else bool_decide (Z.land (Z.lxor (addr_val ip) (addr_val (prefix_addr p)))
                        (netmask 128 (prefix_Bits p)) = 0).

Definition masked (a : Addr) (bits : Z) : Addr :=
  match a with
  | AddrZero => AddrZero
  | Addr4 v => Addr4 (Z.land v (netmask 32 bits))
  | Addr6 v _ => Addr6 (Z.land v (netmask 128 bits)) ""%string
  end.

Definition prefix_Overlaps (p o : Prefix) : bool :=
  if negb (prefix_IsValid p) || negb (prefix_IsValid o) then false
  else if bool_decide (p = o) then true
  else if negb (bool_decide (Is4 (prefix_addr p) = Is4 (prefix_addr o))) then false
  else
    let minBits := Z.min (prefix_Bits p) (prefix_Bits o) in
    if bool_decide (minBits = 0) then true
    else bool_decide (masked (prefix_addr p) minBits = masked (prefix_addr o) minBits).

(** ** Containment as an interval of values *)

Lemma shiftr_lxor_zero a b n :
  0 ≤ n → Z.shiftr (Z.lxor a b) n = 0 ↔ Z.shiftr a n = Z.shiftr b n.
Proof. intros Hn. rewrite Z.shiftr_lxor. apply Z.lxor_eq_0_iff. Qed.

Lemma land_netmask_zero w bits x :
  0 ≤ bits ≤ w → 0 ≤ x < 2^w →
  Z.land x (netmask w bits) = 0 ↔ Z.shiftr x (w - bits) = 0.
Proof.
  intros Hb Hx. unfold netmask. split; intros H.
  - apply Z.bits_inj'. intros i Hi. rewrite Z.shiftr_spec, Z.bits_0 by lia.
    destruct (decide (i < bits)).
    + assert (Z.testbit (Z.land x (Z.shiftl (Z.ones bits) (w - bits))) (i + (w - bits)) = false)
        as Hz by (rewrite H; apply Z.bits_0).
      rewrite Z.land_spec, Z.shiftl_spec, Z.ones_spec_low, andb_true_r in Hz by lia. done.
    + destruct (decide (x = 0)) as [->|]; [apply Z.bits_0|].
      apply Z.bits_above_log2; [lia|]. apply Z.log2_lt_pow2; [lia|].
      eapply Z.lt_le_trans; [apply Hx|]. apply Z.pow_le_mono_r; lia.
  - apply Z.bits_inj'. intros i Hi. rewrite Z.land_spec, Z.bits_0, Z.shiftl_spec by lia.
    destruct (decide (i < w - bits)).
    + rewrite (Z.testbit_neg_r _ (i - (w - bits))) by lia. apply andb_false_r.
    + assert (Z.testbit (Z.shiftr x (w - bits)) (i - (w - bits)) = false)
        as Hz by (rewrite H; apply Z.bits_0).
      rewrite Z.shiftr_spec in Hz by lia. replace (i - (w - bits) + (w - bits)) with i in Hz by lia.
      by rewrite Hz.
Qed.

Lemma lxor_bound w a b : 0 ≤ w → 0 ≤ a < 2^w → 0 ≤ b < 2^w → 0 ≤ Z.lxor a b < 2^w.
Proof.
  intros Hw Ha Hb. assert (0 ≤ Z.lxor a b) as H0 by (apply Z.lxor_nonneg; lia).
  split; [done|]. destruct (decide (Z.lxor a b = 0)) as [->|]; [lia|].
  apply Z.log2_lt_pow2; [lia|].
  assert (∀ x, 0 ≤ x < 2^w → x = 0 ∨ Z.log2 x < w) as Hl.
  { intros x Hx. destruct (decide (x = 0)); [by left|right]. apply Z.log2_lt_pow2; lia. }
  pose proof (Z.log2_lxor a b ltac:(lia) ltac:(lia)).
  destruct (Hl a Ha) as [->|], (Hl b Hb) as [->|]; [done| | |lia].
  - rewrite Z.lxor_0_l. lia.
  - rewrite Z.lxor_0_r. lia.
Qed.

(** A valid prefix contains an address of its family exactly when the address
    lies in the block of [2^(w - bits)] values the prefix names. *)
Definition block_base (p : Prefix) : Z :=
  let n := BitLen (prefix_addr p) - prefix_Bits p in
  addr_val (prefix_addr p) / 2^n * 2^n.
Definition block_size (p : Prefix) : Z := 2 ^ (BitLen (prefix_addr p) - prefix_Bits p).

Definition prefix_wf (p : Prefix) : Prop :=
  addr_wf (prefix_addr p) ∧ 0 ≤ prefix_Bits p ≤ BitLen (prefix_addr p) ∧
  addr_IsValid (prefix_addr p) = true.

Lemma div_block a b m : 0 < m → a / m = b / m ↔ b / m * m ≤ a < b / m * m + m.
Proof.
  intros Hm. split.
  - intros <-. pose proof (Z.div_mod a m). pose proof (Z.mod_pos_bound a m). lia.
  - intros H. symmetry. apply (Z.div_unique_pos a m (b / m) (a - b / m * m)); lia.
Qed.

Lemma prefix_Contains_block p ip :
  prefix_wf p → addr_wf ip → hasZone ip = false → BitLen ip = BitLen (prefix_addr p) →
  prefix_Contains p ip = true ↔ block_base p ≤ addr_val ip < block_base p + block_size p.
Proof.
  intros (Hwf & Hb & Hv) Hip Hz Hl. unfold prefix_Contains, prefix_IsValid. rewrite Hz, Hl.
  unfold block_base, block_size. set (n := BitLen (prefix_addr p) - prefix_Bits p).
  rewrite (bool_decide_eq_true_2 (0 < bitsPlusOne p)) by (unfold prefix_Bits in Hb; lia). cbn.
  rewrite <- div_block by (apply Z.pow_pos_nonneg; subst n; lia).
  destruct (prefix_addr p) as [|w|w z] eqn:Ea; cbn in *; [done| |];
    destruct ip as [|v|v z']; cbn in *; try discriminate.
  - change (bool_decide (Z.shiftr (Z.lxor v w) n = 0) = true ↔ v / 2^n = w / 2^n).
    rewrite bool_decide_eq_true, shiftr_lxor_zero, !Z.shiftr_div_pow2 by lia. done.
  - change (bool_decide (Z.land (Z.lxor v w) (netmask 128 (prefix_Bits p)) = 0) = true
            ↔ v / 2^n = w / 2^n).
    rewrite bool_decide_eq_true, land_netmask_zero by (try apply lxor_bound; lia).
    rewrite shiftr_lxor_zero, !Z.shiftr_div_pow2 by lia. done.
Qed.

Lemma block_in_family p :
  prefix_wf p → 0 ≤ block_base p ∧ block_base p + block_size p ≤ 2 ^ BitLen (prefix_addr p).
Proof.
  intros (Hwf & Hb & Hv). unfold block_base, block_size.
  set (n := BitLen (prefix_addr p) - prefix_Bits p) in *.
  assert (0 ≤ addr_val (prefix_addr p) < 2 ^ BitLen (prefix_addr p)) as Hr
    by (destruct (prefix_addr p); cbn in *; done || lia).
  assert (2 ^ BitLen (prefix_addr p) = 2 ^ prefix_Bits p * 2 ^ n) as Hpow
    by (rewrite <- Z.pow_add_r by lia; f_equal; lia).
  assert (0 < 2^n) by (apply Z.pow_pos_nonneg; lia).
  assert (addr_val (prefix_addr p) / 2^n < 2 ^ prefix_Bits p)
    by (apply Z.div_lt_upper_bound; nia).
  pose proof (Z.div_pos (addr_val (prefix_addr p)) (2^n) ltac:(lia) ltac:(lia)).
  split; nia.
Qed.

Lemma contains_same_family p a :
  prefix_Contains p a = true → BitLen a = BitLen (prefix_addr p) ∧ hasZone a = false.
Proof.
  unfold prefix_Contains. destruct (hasZone a); [by rewrite orb_true_r|].
  destruct (negb _); [done|]. cbn. case_bool_decide; [done|]. case_bool_decide; [done|]. cbn.
  case_bool_decide; [done|]. done.
Qed.
