(* ===== verification/FakeIP.v ===== *)
(** * Fake-IP addresses: [src/dns/transport/fakeip]

    The fake-IP DNS transport answers a query with an address of a private
    range and remembers which domain the address stands for.  [Store] hands
    the addresses out one after the other and starts over at the end of the
    range; the table of assignments is behind the interface
    [adapter.FakeIPStorage], of which [MemoryStorage] is the implementation
    used when no cache file is configured.

    - [broadcastAddress] is proved to be the last address of its prefix;
    - the storage interface is a class of operations with the laws the store
      relies on ([FakeIPStorageSpec]); [MemoryStorage] discharges them;
    - [Create] stays inside the range, keeps the two directions of the table
      inverse to each other, and repeats an address only after the whole range
      has been handed out. *)

From S2P Require Import Prelude NetAddr.

Local Open Scope Z_scope.

(** ** [As16], [AddrFrom16] and [broadcastAddress] *)

Definition byte_at (v : Z) (k : nat) : Z := Z.land (Z.shiftr v (8 * (15 - Z.of_nat k))) 255.
Definition as16_val (a : Addr) : Z :=
  match a with AddrZero => 0 | Addr4 v => Z.shiftl 0xffff 32 + v | Addr6 v _ => v end.
(** [Addr.As16]: the address as 16 bytes, an IPv4 address as [::ffff:v]. *)
Definition As16 (a : Addr) : list Z := byte_at (as16_val a) <$> seq 0 16.
Definition from_bytes (l : list Z) : Z := foldl (λ acc b, acc * 256 + b) 0 l.
Definition AddrFrom4 (l : list Z) : Addr := Addr4 (from_bytes l).
Definition AddrFrom16 (l : list Z) : Addr := Addr6 (from_bytes l) ""%string.

(** [raw[i/8] |= 1 << (7 - i%8)]. *)
Definition set_bit (raw : list Z) (i : nat) : list Z :=
  alter (λ b, Z.lor b (Z.shiftl 1 (7 - Z.of_nat (i `mod` 8)))) (i / 8)%nat raw.

Definition broadcastAddress (prefix : Prefix) : Addr :=
  let addr := prefix_addr prefix in
  let bits := if Is4 addr then prefix_Bits prefix + 96 else prefix_Bits prefix in
  let from := Z.to_nat bits in
  let raw := foldl set_bit (As16 addr) (seq from (128 - from)) in
  if Is4 addr then AddrFrom4 (drop 12 raw) else AddrFrom16 raw.

Section bytes.

Definition is_byte (b : Z) : Prop := 0 ≤ b < 2^8.

Lemma testbit_add_byte x b i :
  is_byte b → 0 ≤ i →
  Z.testbit (x * 256 + b) i = if decide (i < 8) then Z.testbit b i else Z.testbit x (i - 8).
Proof.
  intros Hb Hi. change 256 with (2^8).
  replace (x * 2^8 + b) with (b + x * 2^8) by lia.
  case_decide as Hlt.
  - rewrite <- (Z.mod_pow2_bits_low _ 8 i), Z.mod_add, Z.mod_small by (try apply Hb; lia). done.
  - replace i with ((i - 8) + 8) at 1 by lia.
    rewrite <- Z.div_pow2_bits, Z.div_add, Z.div_small by (try apply Hb; lia).
    done.
Qed.

(** Bit [i] of a big-endian number is bit [i mod 8] of byte [i / 8] from the end. *)
Lemma from_bytes_bits l i :
  Forall is_byte l → 0 ≤ i →
  Z.testbit (from_bytes l) i =
    if decide (i < 8 * Z.of_nat (length l))
    then Z.testbit (l !!! (length l - 1 - Z.to_nat (i / 8))%nat) (i `mod` 8) else false.
Proof.
  revert i; induction l as [|b l IH] using rev_ind; intros i Hl Hi.
  { cbn. rewrite decide_False by lia. apply Z.bits_0. }
  apply Forall_app in Hl as [Hl Hb]. apply Forall_cons_1 in Hb as [Hb _].
  unfold from_bytes in *. rewrite foldl_app, length_app. cbn -[Z.mul decide].
  rewrite testbit_add_byte by done. case_decide as H8.
  - rewrite decide_True, Z.div_small, Z.mod_small by lia. f_equal.
    rewrite lookup_total_app_r by (cbn; lia).
    by replace (length l + 1 - 1 - Z.to_nat 0 - length l)%nat with 0%nat by (cbn; lia).
  - rewrite IH by (done || lia).
    assert (i / 8 = (i - 8) / 8 + 1) as ->
      by (rewrite <- Z.div_add by lia; f_equal; lia).
    assert (i `mod` 8 = (i - 8) `mod` 8) as ->
      by (rewrite <- (Z.mod_add (i - 8) 1 8) by lia; f_equal; lia).
    pose proof (Z.div_pos (i - 8) 8 ltac:(lia) ltac:(lia)).
    repeat case_decide; try lia; try done.
    f_equal. pose proof (Z.div_lt_upper_bound (i - 8) 8 (Z.of_nat (length l))).
    rewrite lookup_total_app_l by lia. f_equal. lia.
Qed.

Lemma byte_at_bits v k j :
  (k < 16)%nat → 0 ≤ j < 8 →
  Z.testbit (byte_at v k) j = Z.testbit v (8 * (15 - Z.of_nat k) + j).
Proof.
  intros Hk Hj. unfold byte_at. rewrite Z.land_spec, Z.shiftr_spec by lia.
  change 255 with (Z.ones 8). rewrite Z.ones_spec_low, andb_true_r by lia. f_equal. lia.
Qed.

Lemma is_byte_land x : is_byte (Z.land x 255).
Proof. change 255 with (Z.ones 8). rewrite Z.land_ones by lia. apply Z.mod_pos_bound. lia. Qed.

Lemma is_byte_lor a b : is_byte a → is_byte b → is_byte (Z.lor a b).
Proof.
  unfold is_byte. intros Ha Hb. assert (0 ≤ Z.lor a b) as H0 by (apply Z.lor_nonneg; lia).
  split; [done|]. destruct (decide (Z.lor a b = 0)) as [->|]; [lia|].
  apply Z.log2_lt_pow2; [lia|]. rewrite Z.log2_lor by lia.
  destruct (decide (a = 0)) as [->|], (decide (b = 0)) as [->|];
    apply Z.max_lub_lt; try (cbn; lia); apply Z.log2_lt_pow2; lia.
Qed.

(** The bytes of [raw] after the loop has set the bits [l]: bit [7 - j] of byte
    [k] is bit number [8 * k + j] in the order of the loop. *)
Lemma set_bits_spec l raw k j :
  length raw = 16%nat → Forall (λ i, (i < 128)%nat) l → (k < 16)%nat → (j < 8)%nat →
  Z.testbit (foldl set_bit raw l !!! k) (7 - Z.of_nat j) =
    Z.testbit (raw !!! k) (7 - Z.of_nat j) || bool_decide ((8 * k + j)%nat ∈ l).
Proof.
  intros Hlen Hl Hk Hj. revert raw Hlen; induction Hl as [|i l Hi Hl IH]; intros raw Hlen.
  { change (foldl set_bit raw []) with raw. by rewrite bool_decide_eq_false_2, orb_false_r by set_solver. }
  change (foldl set_bit raw (i :: l)) with (foldl set_bit (set_bit raw i) l).
  rewrite IH by (by unfold set_bit; rewrite length_alter).
  assert (i / 8 < 16)%nat as Hdiv by (apply Nat.Div0.div_lt_upper_bound; lia).
  pose proof (Nat.div_mod_eq i 8). pose proof (Nat.mod_upper_bound i 8 ltac:(lia)).
  assert (Z.testbit (set_bit raw i !!! k) (7 - Z.of_nat j) =
          Z.testbit (raw !!! k) (7 - Z.of_nat j) || bool_decide ((8 * k + j)%nat = i)) as ->.
  { unfold set_bit. destruct (decide (k = (i / 8)%nat)) as [->|Hne].
    - destruct (lookup_lt_is_Some_2 raw (i / 8)%nat ltac:(lia)) as [b Hb].
      rewrite !list_lookup_total_alt, list_lookup_alter_eq, Hb. cbn -[Z.sub Z.shiftl Nat.modulo Nat.div Nat.mul].
      rewrite Z.lor_spec. f_equal. rewrite Z.shiftl_spec by lia.
      destruct (decide (j = i `mod` 8)%nat) as [->|].
      + rewrite bool_decide_eq_true_2 by lia. by rewrite Z.sub_diag.
      + rewrite bool_decide_eq_false_2 by lia.
        destruct (decide (7 - Z.of_nat j - (7 - Z.of_nat (i `mod` 8)) < 0)).
        * by apply Z.testbit_neg_r.
        * apply Z.bits_above_log2; [lia|change (Z.log2 1) with 0; lia].
    - rewrite !list_lookup_total_alt, list_lookup_alter_ne by done.
      rewrite (bool_decide_eq_false_2 (_ = i)) by (intros <-; lia). by rewrite orb_false_r. }
  rewrite <- orb_assoc. f_equal. repeat case_bool_decide; set_solver.
Qed.

Lemma set_bits_wf l raw :
  Forall is_byte raw → Forall is_byte (foldl set_bit raw l) ∧ length (foldl set_bit raw l) = length raw.
Proof.
  intros Hr. apply (foldl_inv (λ r, Forall is_byte r ∧ length r = length raw)); [done|].
  intros r i _ [Hf Hlen]. split; [|unfold set_bit; by rewrite length_alter].
  unfold set_bit. apply Forall_alter; [done|]. intros b Hb Hbb. apply is_byte_lor; [done|].
  rewrite Z.shiftl_mul_pow2 by (pose proof (Nat.mod_upper_bound i 8 ltac:(lia)); lia).
  pose proof (Nat.mod_upper_bound i 8 ltac:(lia)). unfold is_byte. split; [lia|].
  rewrite Z.mul_1_l. apply Z.pow_lt_mono_r; lia.
Qed.

Lemma As16_wf a : Forall is_byte (As16 a) ∧ length (As16 a) = 16%nat.
Proof.
  split; [|done]. unfold As16. apply Forall_fmap, Forall_true. intros. apply is_byte_land.
Qed.

Lemma As16_lookup a k : (k < 16)%nat → As16 a !!! k = byte_at (as16_val a) k.
Proof.
  intros Hk. unfold As16. rewrite list_lookup_total_alt, list_lookup_fmap, lookup_seq_lt by lia. done.
Qed.

(** Bit [i] of the raw value once the bits from [from] on are set. *)
Lemma broadcast_raw_bits a from d i :
  (from ≤ 128)%nat → (d ≤ 16)%nat → 0 ≤ i < 8 * Z.of_nat (16 - d) →
  Z.testbit (from_bytes (drop d (foldl set_bit (As16 a) (seq from (128 - from))))) i =
    Z.testbit (as16_val a) i || bool_decide (i < 128 - Z.of_nat from).
Proof.
  intros Hf Hd Hi. destruct (As16_wf a) as [Hb Hlen].
  destruct (set_bits_wf (seq from (128 - from)) _ Hb) as [Hb' Hlen'].
  rewrite Hlen in Hlen'. rewrite from_bytes_bits by (auto using Forall_drop; lia).
  rewrite length_drop, Hlen', decide_True by lia.
  pose proof (Z.div_pos i 8 ltac:(lia) ltac:(lia)).
  pose proof (Z.div_lt_upper_bound i 8 (Z.of_nat (16 - d)) ltac:(lia) ltac:(lia)).
  pose proof (Z.mod_pos_bound i 8 ltac:(lia)). pose proof (Z.div_mod i 8 ltac:(lia)).
  rewrite list_lookup_total_alt, lookup_drop, <- list_lookup_total_alt.
  set (k := (d + (16 - d - 1 - Z.to_nat (i / 8)))%nat). assert (k < 16)%nat by lia.
  set (j := Z.to_nat (7 - i `mod` 8)).
  replace (i `mod` 8) with (7 - Z.of_nat j) by lia.
  rewrite set_bits_spec;
    [|done|apply Forall_forall; intros x Hx%elem_of_seq; lia|lia|lia].
  rewrite As16_lookup, byte_at_bits by lia.
  f_equal; [f_equal; lia|]. apply bool_decide_ext. rewrite elem_of_seq. lia.
Qed.
End bytes.

Lemma lor_ones_block v n :
  0 ≤ n → Z.lor v (Z.ones n) = v / 2^n * 2^n + (2^n - 1).
Proof.
  intros Hn.
  assert (Z.land (Z.shiftl (Z.shiftr v n) n) (Z.ones n) = 0) as Hz.
  { rewrite Z.land_ones, Z.shiftl_mul_pow2 by lia. apply Z.mod_mul. lia. }
  assert (Z.lor v (Z.ones n) = Z.lor (Z.shiftl (Z.shiftr v n) n) (Z.ones n)) as ->.
  { apply Z.bits_inj'. intros i Hi. rewrite !Z.lor_spec. destruct (decide (i < n)).
    - rewrite !Z.ones_spec_low, !orb_true_r by lia. done.
    - rewrite !Z.ones_spec_high, !orb_false_r, Z.shiftl_spec, Z.shiftr_spec by lia. f_equal. lia. }
  rewrite <- Z.lxor_lor, <- Z.add_nocarry_lxor by done.
  rewrite Z.shiftl_mul_pow2, Z.shiftr_div_pow2, Z.ones_equiv by lia. lia.
Qed.

Definition last_address (p : Prefix) : Addr :=
  match prefix_addr p with
  | AddrZero => AddrZero
  | Addr4 _ => Addr4 (block_base p + block_size p - 1)
  | Addr6 _ _ => Addr6 (block_base p + block_size p - 1) ""%string
  end.

Lemma broadcast_value a from d v n :
  (from ≤ 128)%nat → (d ≤ 16)%nat → n = 128 - Z.of_nat from → n ≤ 8 * Z.of_nat (16 - d) →
  0 ≤ v < 2 ^ (8 * Z.of_nat (16 - d)) →
  (∀ i, 0 ≤ i < 8 * Z.of_nat (16 - d) → Z.testbit (as16_val a) i = Z.testbit v i) →
  from_bytes (drop d (foldl set_bit (As16 a) (seq from (128 - from)))) = v / 2^n * 2^n + 2^n - 1.
Proof.
  intros Hf Hd Hn Hnd Hv Hbits.
  transitivity (Z.lor v (Z.ones n)); [|rewrite lor_ones_block by lia; lia].
  apply Z.bits_inj'. intros i Hi.
  destruct (decide (i < 8 * Z.of_nat (16 - d))) as [Hlt|Hge].
  - rewrite broadcast_raw_bits, Hbits, Z.lor_spec by lia. f_equal.
    case_bool_decide; [rewrite Z.ones_spec_low by lia|rewrite Z.ones_spec_high by lia]; done.
  - destruct (As16_wf a) as [Hb Hlen].
    destruct (set_bits_wf (seq from (128 - from)) _ Hb) as [Hb' Hlen'].
    rewrite from_bytes_bits, length_drop, Hlen', Hlen, decide_False by (auto using Forall_drop; lia).
    rewrite Z.lor_spec, Z.ones_spec_high, orb_false_r by lia. symmetry.
    destruct (decide (v = 0)) as [->|]; [apply Z.bits_0|].
    apply Z.bits_above_log2; [lia|]. apply Z.log2_lt_pow2; [lia|].
    eapply Z.lt_le_trans; [apply Hv|]. apply Z.pow_le_mono_r; lia.
Qed.

(** The byte loop of [broadcastAddress] computes the last address of the
    prefix, for every prefix of either family. *)
Theorem broadcastAddress_last p : prefix_wf p → broadcastAddress p = last_address p.
Proof.
  intros (Hwf & Hb & Hv). unfold broadcastAddress, last_address, block_base, block_size.
  destruct (prefix_addr p) as [|v|v z] eqn:Ea; cbn [BitLen Is4 addr_val] in *; [done| |].
  - unfold AddrFrom4. f_equal. apply broadcast_value; [lia|lia|lia|lia|done|].
    intros i Hi. cbn [as16_val].
    rewrite <- (Z.mod_pow2_bits_low _ 32 i), Z.shiftl_mul_pow2 by lia.
    rewrite Z.add_comm, Z.mod_add by lia. rewrite Z.mod_small by done. done.
  - unfold AddrFrom16. f_equal. rewrite <- (drop_0 (foldl _ _ _)).
    apply broadcast_value; [lia|lia|lia|lia|done|]. done.
Qed.

(** ** The storage interface *)

Record FakeIPMetadata := MkFakeIPMetadata {
  Inet4Range : Prefix;
  Inet6Range : Prefix;
  Inet4Current : Addr;
  Inet6Current : Addr;
}.

Class FakeIPStorage (S : Type) := {
  FakeIPMetadataOf : S → option FakeIPMetadata * S;
  FakeIPSaveMetadata : FakeIPMetadata → S → result () * S;
  FakeIPSaveMetadataAsync : FakeIPMetadata → S → S;
  FakeIPStore : Addr → string → S → result () * S;
  FakeIPLoad : Addr → S → option string;
  FakeIPLoadDomain : string → bool → S → option Addr;
  FakeIPReset : S → result () * S;
}.

(** The table a domain of either family is looked up in belongs to the family
    of the address. *)
Definition family6 (a : Addr) : bool := negb (Is4 a).

(** What [Store] relies on.  [storage_ok] is the representation invariant of
    the implementation; a successful [FakeIPStore] for a domain without an
    address of that family re-assigns the address and nothing else. *)
Class FakeIPStorageSpec (S : Type) `{FakeIPStorage S} := {
  storage_ok : S → Prop;
  load_domain_family s d v6 a :
    storage_ok s → FakeIPLoadDomain d v6 s = Some a → family6 a = v6;
  load_domain_load s d v6 a :
    storage_ok s → FakeIPLoadDomain d v6 s = Some a → FakeIPLoad a s = Some d;
  store_ok s a d s' :
    storage_ok s → FakeIPLoadDomain d (family6 a) s = None → FakeIPStore a d s = (Ok tt, s') →
    storage_ok s' ∧
    (∀ a', FakeIPLoad a' s' = if decide (a' = a) then Some d else FakeIPLoad a' s) ∧
    (∀ d' v6, FakeIPLoadDomain d' v6 s' =
       if decide (d' = d ∧ v6 = family6 a) then Some a
       else b ← FakeIPLoadDomain d' v6 s; if decide (b = a) then None else Some b);
  save_ok s m s' :
    storage_ok s → s' = FakeIPSaveMetadataAsync m s →
    storage_ok s' ∧ (∀ a, FakeIPLoad a s' = FakeIPLoad a s) ∧
    (∀ d v6, FakeIPLoadDomain d v6 s' = FakeIPLoadDomain d v6 s);
  reset_ok s s' :
    FakeIPReset s = (Ok tt, s') →
    storage_ok s' ∧ (∀ a, FakeIPLoad a s' = None) ∧ (∀ d v6, FakeIPLoadDomain d v6 s' = None);
}.

(** ** MemoryStorage *)

Record MemoryStorage := MkMemoryStorage {
  addressCache : gmap Addr string;
  domainCache4 : gmap string Addr;
  domainCache6 : gmap string Addr;
}.

Definition NewMemoryStorage : MemoryStorage := MkMemoryStorage ∅ ∅ ∅.

Definition Memory_FakeIPStore (address : Addr) (domain : string) (s : MemoryStorage)
  : result () * MemoryStorage :=
  let s1 :=
    match addressCache s !! address with
    | Some oldDomain =>
        if Is4 address
        then MkMemoryStorage (addressCache s) (delete oldDomain (domainCache4 s)) (domainCache6 s)
        else MkMemoryStorage (addressCache s) (domainCache4 s) (delete oldDomain (domainCache6 s))
    | None => s
    end in
  let cache := <[address := domain]> (addressCache s1) in
  (Ok tt,
   if Is4 address
   then MkMemoryStorage cache (<[domain := address]> (domainCache4 s1)) (domainCache6 s1)
   else MkMemoryStorage cache (domainCache4 s1) (<[domain := address]> (domainCache6 s1))).

Definition Memory_FakeIPLoad (address : Addr) (s : MemoryStorage) : option string :=
  addressCache s !! address.

Definition Memory_FakeIPLoadDomain (domain : string) (isIPv6 : bool) (s : MemoryStorage) : option Addr :=
  if negb isIPv6 then domainCache4 s !! domain else domainCache6 s !! domain.

Definition Memory_FakeIPReset (s : MemoryStorage) : result () * MemoryStorage :=
  (Ok tt, NewMemoryStorage).

#[export] Instance MemoryStorage_storage : FakeIPStorage MemoryStorage := {|
  FakeIPMetadataOf s := (None, s);
  FakeIPSaveMetadata _ s := (Ok tt, s);
  FakeIPSaveMetadataAsync _ s := s;
  FakeIPStore := Memory_FakeIPStore;
  FakeIPLoad := Memory_FakeIPLoad;
  FakeIPLoadDomain := Memory_FakeIPLoadDomain;
  FakeIPReset := Memory_FakeIPReset;
|}.

(** The two directions of the table agree. *)
Definition memory_ok (s : MemoryStorage) : Prop :=
  ∀ a d, addressCache s !! a = Some d ↔
         Memory_FakeIPLoadDomain d (family6 a) s = Some a.
Definition memory_families (s : MemoryStorage) : Prop :=
  ∀ d v6 a, Memory_FakeIPLoadDomain d v6 s = Some a → family6 a = v6.

(** Every lookup by domain after a store, in terms of the one before. *)
Lemma Memory_FakeIPStore_domain s a d d' v6 :
  memory_ok s → memory_families s → Memory_FakeIPLoadDomain d (family6 a) s = None →
  Memory_FakeIPLoadDomain d' v6 (Memory_FakeIPStore a d s).2 =
    if decide (d' = d ∧ v6 = family6 a) then Some a
    else b ← Memory_FakeIPLoadDomain d' v6 s; if decide (b = a) then None else Some b.
Proof.
  intros Hok Hfam Hnew.
  destruct (decide (v6 = family6 a)) as [->|Hv].
  - assert (Memory_FakeIPLoadDomain d' (family6 a) (Memory_FakeIPStore a d s).2 =
            if decide (d' = d) then Some a
            else if decide (addressCache s !! a = Some d') then None
            else Memory_FakeIPLoadDomain d' (family6 a) s) as ->.
    { unfold Memory_FakeIPStore, Memory_FakeIPLoadDomain, family6.
      destruct (addressCache s !! a) as [old|], (Is4 a); cbn;
        destruct (decide (d' = d)) as [->|];
        rewrite ?lookup_insert_eq, ?lookup_insert_ne by done; try done;
        case_decide; simplify_eq; rewrite ?lookup_delete_eq, ?lookup_delete_ne by congruence; done. }
    destruct (decide (d' = d)) as [->|]; [by rewrite decide_True|].
    rewrite (decide_False (P := _ ∧ _)) by naive_solver.
    case_decide as Ha; [apply Hok in Ha; rewrite Ha; cbn; by rewrite decide_True|].
    destruct (Memory_FakeIPLoadDomain d' (family6 a) s) as [b|] eqn:Eb; [|done]; cbn.
    case_decide; [subst|done]. by apply Hok in Eb.
  - rewrite decide_False by naive_solver.
    assert (Memory_FakeIPLoadDomain d' v6 (Memory_FakeIPStore a d s).2 =
            Memory_FakeIPLoadDomain d' v6 s) as ->.
    { unfold Memory_FakeIPStore, Memory_FakeIPLoadDomain, family6 in *.
      destruct (addressCache s !! a) as [old|], (Is4 a), v6; done. }
    destruct (Memory_FakeIPLoadDomain d' v6 s) as [b|] eqn:Eb; [|done]; cbn.
    case_decide; [subst|done]. by apply Hfam in Eb.
Qed.

Lemma Memory_FakeIPStore_load s a d a' :
  Memory_FakeIPLoad a' (Memory_FakeIPStore a d s).2 =
    if decide (a' = a) then Some d else Memory_FakeIPLoad a' s.
Proof.
  unfold Memory_FakeIPStore, Memory_FakeIPLoad.
  destruct (addressCache s !! a) as [old|] eqn:E, (Is4 a); cbn;
    (case_decide; [subst; by rewrite lookup_insert_eq|by rewrite lookup_insert_ne]).
Qed.

Lemma Memory_FakeIPStore_ok s a d :
  memory_ok s → memory_families s → Memory_FakeIPLoadDomain d (family6 a) s = None →
  memory_ok (Memory_FakeIPStore a d s).2 ∧ memory_families (Memory_FakeIPStore a d s).2.
Proof.
  intros Hok Hfam Hnew. split.
  - intros a' d'.
    pose proof (Memory_FakeIPStore_load s a d a') as Hl. unfold Memory_FakeIPLoad in Hl.
    rewrite Hl, Memory_FakeIPStore_domain by done.
    pose proof (Hok a' d') as Ha'. unfold Memory_FakeIPLoad in *.
    destruct (decide (a' = a)) as [->|].
    + case_decide as Hd; [naive_solver|]. split; [naive_solver|].
      destruct (Memory_FakeIPLoadDomain d' (family6 a) s); cbn; [case_decide|]; naive_solver.
    + rewrite Ha'. case_decide as Hd.
      * destruct Hd as [-> Hf]. rewrite Hf, Hnew. naive_solver.
      * destruct (Memory_FakeIPLoadDomain d' (family6 a') s); cbn; [case_decide|]; naive_solver.
  - intros d' v6 b. rewrite Memory_FakeIPStore_domain by done. case_decide as Hd; [naive_solver|].
    destruct (Memory_FakeIPLoadDomain d' v6 s) eqn:Eb; cbn; [|done].
    case_decide; [done|]. intros; simplify_eq. by apply Hfam in Eb.
Qed.

#[export] Program Instance MemoryStorage_spec : FakeIPStorageSpec MemoryStorage :=
  {| storage_ok s := memory_ok s ∧ memory_families s |}.
Next Obligation. intros s d v6 a [_ Hf]. apply Hf. Qed.
Next Obligation.
  intros s d v6 a [Hok Hf] Hd. apply Hok. by rewrite (Hf _ _ _ Hd).
Qed.
Next Obligation.
  intros s a d s' [Hok Hf] Hn Hs. change (Memory_FakeIPStore a d s = (Ok tt, s')) in Hs.
  assert (s' = (Memory_FakeIPStore a d s).2) as -> by (by rewrite Hs).
  split; [by apply Memory_FakeIPStore_ok|]. split.
  - intros a'. apply Memory_FakeIPStore_load.
  - intros d' v6. by apply Memory_FakeIPStore_domain.
Qed.
Next Obligation. intros s m s' Hok ->. done. Qed.
Next Obligation.
  intros s s' [= <-]. split; [|by split; [|intros ? []]].
  split; [intros a d; unfold Memory_FakeIPLoadDomain; destruct (negb _); cbn;
          rewrite !lookup_empty; naive_solver|].
  intros d [] a; cbn; by rewrite lookup_empty.
Qed.

(** ** Store *)

Section store.
Context {S : Type} `{FakeIPStorage S}.

Record Store := MkStore {
  inet4Range : Prefix;
  inet6Range : Prefix;
  inet4Last : Addr;
  inet6Last : Addr;
  storage : option S;
  inet4Current : Addr;
  inet6Current : Addr;
}.

Definition NewStore (inet4 inet6 : Prefix) : Store :=
  MkStore inet4 inet6
    (if prefix_IsValid inet4 then broadcastAddress inet4 else AddrZero)
    (if prefix_IsValid inet6 then broadcastAddress inet6 else AddrZero)
    None AddrZero AddrZero.

(** [Start]: [cacheFile] is the cache file of the context when there is one
    and it stores fake-IP entries, [memory] the new in-memory storage that
    replaces it otherwise.  Both are values of the storage interface. *)
Definition Start (cacheFile : option S) (memory : S) (s : Store) : result () * Store :=
  let st0 := match cacheFile with Some c => c | None => memory end in
  let '(metadata, st) := FakeIPMetadataOf st0 in
  let fresh :=
    (Ok tt,
     MkStore (inet4Range s) (inet6Range s) (inet4Last s) (inet6Last s)
       (Some (FakeIPReset st).2)
       (if prefix_IsValid (inet4Range s) then addr_Next (prefix_addr (inet4Range s)) else inet4Current s)
       (if prefix_IsValid (inet6Range s) then addr_Next (prefix_addr (inet6Range s)) else inet6Current s)) in
  match metadata with
  | Some metadata =>
      if bool_decide (Inet4Range metadata = inet4Range s) &&
         bool_decide (Inet6Range metadata = inet6Range s)
      then (Ok tt,
            MkStore (inet4Range s) (inet6Range s) (inet4Last s) (inet6Last s) (Some st)
              (Inet4Current metadata) (Inet6Current metadata))
      else fresh
  | None => fresh
  end.

Definition Contains (address : Addr) (s : Store) : bool :=
  prefix_Contains (inet4Range s) address || prefix_Contains (inet6Range s) address.

Definition metadata_of (s : Store) : FakeIPMetadata :=
  MkFakeIPMetadata (inet4Range s) (inet6Range s) (inet4Current s) (inet6Current s).

Definition with_storage (st : S) (s : Store) : Store :=
  MkStore (inet4Range s) (inet6Range s) (inet4Last s) (inet6Last s) (Some st)
    (inet4Current s) (inet6Current s).

Definition Close (s : Store) : result () * Store :=
  match storage s with
  | None => (Ok tt, s)
  | Some st => let '(r, st') := FakeIPSaveMetadata (metadata_of s) st in (r, with_storage st' s)
  end.

(** The address after [current]: back to the start behind the broadcast
    address or the end of the range. *)
Definition nextAddress (range : Prefix) (last current : Addr) : Addr :=
  let next := addr_Next current in
  if bool_decide (next = last) || negb (prefix_Contains range next)
  then addr_Next (addr_Next (prefix_addr range)) else next.

Definition rangeOf (isIPv6 : bool) (s : Store) : Prefix :=
  if isIPv6 then inet6Range s else inet4Range s.
Definition lastOf (isIPv6 : bool) (s : Store) : Addr :=
  if isIPv6 then inet6Last s else inet4Last s.
Definition currentOf (isIPv6 : bool) (s : Store) : Addr :=
  if isIPv6 then inet6Current s else inet4Current s.
Definition with_current (isIPv6 : bool) (a : Addr) (s : Store) : Store :=
  MkStore (inet4Range s) (inet6Range s) (inet4Last s) (inet6Last s) (storage s)
    (if isIPv6 then inet4Current s else a) (if isIPv6 then a else inet6Current s).

Definition Create (domain : string) (isIPv6 : bool) (s : Store) : result Addr * Store :=
  match storage s with
  | None => (Panic "nil storage", s)
  | Some st =>
      match FakeIPLoadDomain domain isIPv6 st with
      | Some address => (Ok address, s)
      | None =>
          (* the lock is taken here, and the lookup repeated *)
          match FakeIPLoadDomain domain isIPv6 st with
          | Some address => (Ok address, s)
          | None =>
              if negb (addr_IsValid (currentOf isIPv6 s))
              then (Err (ENew (if isIPv6 then "missing IPv6 fakeip address range"
                               else "missing IPv4 fakeip address range")), s)
              else
                let address := nextAddress (rangeOf isIPv6 s) (lastOf isIPv6 s) (currentOf isIPv6 s) in
                let s1 := with_current isIPv6 address s in
                let st1 := (FakeIPStore address domain st).2 in
                let st2 := FakeIPSaveMetadataAsync (metadata_of s1) st1 in
                (Ok address, with_storage st2 s1)
          end
      end
  end.

Definition Lookup (address : Addr) (s : Store) : result (option string) :=
  match storage s with None => Panic "nil storage" | Some st => Ok (FakeIPLoad address st) end.

Definition Reset (s : Store) : result () * Store :=
  match storage s with
  | None => (Panic "nil storage", s)
  | Some st => let '(r, st') := FakeIPReset st in (r, with_storage st' s)
  end.

End store.
Arguments Store S : clear implicits.

(** ** The addresses handed out *)

(** Address number [k] (from 0) of the usable part of a range: the network
    address, the address after it and the last address are not handed out. *)
Definition addr_plus (a : Addr) (n : Z) : Addr :=
  match a with
  | AddrZero => AddrZero
  | Addr4 v => Addr4 (v + n)
  | Addr6 v z => Addr6 (v + n) z
  end.
Definition pool_size (p : Prefix) : Z := block_size p - 3.
Definition pool_address (p : Prefix) (k : Z) : Addr := addr_plus (prefix_addr p) (2 + k `mod` pool_size p).

(** A range the transport can use: a network address with at least two host
    bits. *)
Definition range_ok (p : Prefix) : Prop :=
  prefix_wf p ∧ block_base p = addr_val (prefix_addr p) ∧ 4 ≤ block_size p ∧
  hasZone (prefix_addr p) = false.

Lemma range_ok_block p :
  range_ok p → 0 ≤ addr_val (prefix_addr p) ∧
  addr_val (prefix_addr p) + block_size p ≤ 2 ^ BitLen (prefix_addr p).
Proof.
  intros (Hp & Hbase & Hs & _). rewrite <- Hbase. by apply block_in_family.
Qed.

Lemma addr_Next_plus p n :
  range_ok p → 0 ≤ n < block_size p - 1 →
  addr_Next (addr_plus (prefix_addr p) n) = addr_plus (prefix_addr p) (n + 1).
Proof.
  intros Hp Hn. destruct (range_ok_block p Hp). destruct Hp as ((_ & _ & Hv) & _).
  destruct (prefix_addr p); cbn in *; [done| |]; rewrite bool_decide_eq_false_2 by lia; f_equal; lia.
Qed.

Lemma addr_plus_contains p n :
  range_ok p → 0 ≤ n → n < block_size p →
  prefix_Contains p (addr_plus (prefix_addr p) n) = true.
Proof.
  intros Hp Hn0 Hn. destruct (range_ok_block p Hp). pose proof Hp as (Hwf & Hb & _ & Hz).
  apply prefix_Contains_block; [done| | | |]; rewrite ?Hb.
  - destruct Hwf as (? & _). destruct (prefix_addr p); cbn in *; lia || done.
  - by destruct (prefix_addr p).
  - by destruct (prefix_addr p).
  - destruct Hwf as (_ & _ & ?). destruct (prefix_addr p); cbn in *; lia || done.
Qed.

Lemma addr_plus_inj p m n :
  range_ok p → addr_plus (prefix_addr p) m = addr_plus (prefix_addr p) n → m = n.
Proof. intros ((_ & _ & Hv) & _). destruct (prefix_addr p); cbn in *; [done| |]; intros [=]; lia. Qed.

Lemma last_address_plus p :
  range_ok p → last_address p = addr_plus (prefix_addr p) (block_size p - 1).
Proof.
  intros (_ & Hb & _ & Hz). unfold last_address. rewrite Hb.
  destruct (prefix_addr p) as [|v|v z]; cbn in *; [done|f_equal; lia|].
  apply negb_false_iff, bool_decide_eq_true in Hz as ->. f_equal; lia.
Qed.

Lemma nextAddress_offset p o :
  range_ok p → 1 ≤ o ≤ block_size p - 2 →
  nextAddress p (broadcastAddress p) (addr_plus (prefix_addr p) o) =
    addr_plus (prefix_addr p) (if decide (o + 1 = block_size p - 1) then 2 else o + 1).
Proof.
  intros Hp Ho. unfold nextAddress.
  rewrite broadcastAddress_last, last_address_plus by (done || apply Hp).
  rewrite addr_Next_plus, addr_plus_contains, orb_false_r by (done || lia).
  assert (addr_Next (addr_Next (prefix_addr p)) = addr_plus (prefix_addr p) 2) as Htwo.
  { replace (prefix_addr p) with (addr_plus (prefix_addr p) 0) at 1
      by (destruct (prefix_addr p); cbn; f_equal; lia).
    pose proof Hp as (_ & _ & ? & _). by rewrite !addr_Next_plus by (done || lia). }
  case_decide as Hd.
  - rewrite bool_decide_eq_true_2 by (f_equal; done). done.
  - rewrite bool_decide_eq_false_2; [done|]. by intros ?%addr_plus_inj.
Qed.

Lemma nextAddress_pool p k :
  range_ok p → 0 ≤ k →
  nextAddress p (broadcastAddress p) (pool_address p k) = pool_address p (k + 1).
Proof.
  intros Hp Hk. unfold pool_address. pose proof Hp as (_ & _ & Hs & _).
  assert (0 < pool_size p) as Hm by (unfold pool_size; lia).
  pose proof (Z.mod_pos_bound k (pool_size p) Hm).
  rewrite nextAddress_offset by (unfold pool_size in *; done || lia). f_equal.
  rewrite <- (Z.add_mod_idemp_l k 1) by lia.
  case_decide as Hd.
  - replace (k `mod` pool_size p + 1) with (pool_size p) by (unfold pool_size in *; lia).
    rewrite Z.mod_same by lia. lia.
  - rewrite (Z.mod_small (k `mod` pool_size p + 1)) by (unfold pool_size in *; lia). lia.
Qed.

Lemma nextAddress_first p :
  range_ok p → nextAddress p (broadcastAddress p) (addr_Next (prefix_addr p)) = pool_address p 0.
Proof.
  intros Hp. pose proof Hp as (_ & _ & Hs & _).
  replace (prefix_addr p) with (addr_plus (prefix_addr p) 0) at 1
    by (destruct (prefix_addr p); cbn; f_equal; lia).
  rewrite addr_Next_plus, nextAddress_offset by (done || lia).
  unfold pool_address. rewrite Z.mod_0_l by (unfold pool_size; lia). f_equal.
  case_decide; lia.
Qed.

Lemma pool_address_eq p i j :
  range_ok p → pool_address p i = pool_address p j ↔ i `mod` pool_size p = j `mod` pool_size p.
Proof.
  intros Hp. unfold pool_address. split; [|by intros ->]. intros ?%addr_plus_inj; [lia|done].
Qed.

Lemma pool_address_family p k : range_ok p → family6 (pool_address p k) = family6 (prefix_addr p).
Proof. intros ((_ & _ & Hv) & _). unfold pool_address. by destruct (prefix_addr p). Qed.

Lemma pool_address_contains p k : range_ok p → prefix_Contains p (pool_address p k) = true.
Proof.
  intros Hp. pose proof Hp as (_ & _ & Hs & _).
  pose proof (Z.mod_pos_bound k (pool_size p)). unfold pool_address, pool_size in *.
  apply addr_plus_contains; [done|lia|lia].
Qed.

Lemma mod_window i n m :
  0 < m → n - m ≤ i < n → i `mod` m = n `mod` m ↔ i = n - m.
Proof.
  intros Hm Hi. split.
  - intros He. pose proof (Z.div_mod i m ltac:(lia)). pose proof (Z.div_mod n m ltac:(lia)).
    assert (n - i = m * (n / m - i / m)) as Hq by nia. set (q := n / m - i / m) in *.
    assert (0 < q) by nia. assert (q < 2) by nia. assert (q = 1) as -> by lia. lia.
  - intros ->. rewrite <- (Z.mod_add (n - m) 1 m) by lia. f_equal. lia.
Qed.

(** ** The table as a window over the domains created *)

Section window.
Context {S : Type} `{FakeIPStorageSpec S}.
Hypothesis store_succeeds : ∀ a d (st : S), ∃ st', FakeIPStore a d st = (Ok tt, st').

(** Domain by domain, the [Create] calls of one family. *)
Fixpoint Creates (ds : list string) (isIPv6 : bool) (s : Store S) : list (result Addr) * Store S :=
  match ds with
  | [] => ([], s)
  | d :: ds =>
      let '(r, s1) := Create d isIPv6 s in
      let '(rs, s2) := Creates ds isIPv6 s1 in (r :: rs, s2)
  end.

(** After the distinct domains [ds] have been created: number [i] holds the
    address number [i] of the pool when it is one of the last [pool_size]. *)
Record window (isIPv6 : bool) (ds : list string) (s : Store S) : Prop := MkWindow {
  window_range : range_ok (rangeOf isIPv6 s);
  window_family : family6 (prefix_addr (rangeOf isIPv6 s)) = isIPv6;
  window_last : lastOf isIPv6 s = broadcastAddress (rangeOf isIPv6 s);
  window_current : currentOf isIPv6 s =
    match length ds with
    | O => addr_Next (prefix_addr (rangeOf isIPv6 s))
    | Datatypes.S n => pool_address (rangeOf isIPv6 s) (Z.of_nat n)
    end;
  window_storage : ∃ st, storage s = Some st ∧ storage_ok st ∧
    (∀ i d, ds !! i = Some d → FakeIPLoadDomain d isIPv6 st =
       if decide (Z.of_nat (length ds) - pool_size (rangeOf isIPv6 s) ≤ Z.of_nat i)
       then Some (pool_address (rangeOf isIPv6 s) (Z.of_nat i)) else None) ∧
    (∀ d, d ∉ ds → FakeIPLoadDomain d isIPv6 st = None);
}.

Lemma window_next v6 ds s :
  window v6 ds s →
  nextAddress (rangeOf v6 s) (lastOf v6 s) (currentOf v6 s) =
    pool_address (rangeOf v6 s) (Z.of_nat (length ds)).
Proof.
  intros W. rewrite (window_last _ _ _ W), (window_current _ _ _ W).
  destruct (length ds) as [|n]; [by apply nextAddress_first, W|].
  rewrite nextAddress_pool by (apply W || lia). f_equal. lia.
Qed.

Lemma window_current_valid v6 ds s : window v6 ds s → addr_IsValid (currentOf v6 s) = true.
Proof.
  intros W. rewrite (window_current _ _ _ W). pose proof (window_range _ _ _ W) as Hr.
  pose proof Hr as ((_ & _ & Hv) & _ & Hs & _). destruct (length ds).
  - replace (prefix_addr (rangeOf v6 s)) with (addr_plus (prefix_addr (rangeOf v6 s)) 0)
      by (destruct (prefix_addr (rangeOf v6 s)); cbn; f_equal; lia).
    rewrite addr_Next_plus by (done || lia). by destruct (prefix_addr (rangeOf v6 s)).
  - unfold pool_address. by destruct (prefix_addr (rangeOf v6 s)).
Qed.

(** One [Create] of a new domain: the next address of the pool, and the domain
    that held it loses it. *)
Lemma Create_window v6 ds s d :
  window v6 ds s → d ∉ ds →
  ∃ s', Create d v6 s = (Ok (pool_address (rangeOf v6 s) (Z.of_nat (length ds))), s') ∧
        window v6 (ds ++ [d]) s' ∧ rangeOf v6 s' = rangeOf v6 s.
Proof.
  intros W Hd. pose proof (window_next _ _ _ W) as Hnext.
  pose proof (window_current_valid _ _ _ W) as Hvalid.
  pose proof (window_range _ _ _ W) as Hr.
  destruct (window_storage _ _ _ W) as (st & Hst & Hok & Hin & Hout).
  set (a := pool_address (rangeOf v6 s) (Z.of_nat (length ds))) in *.
  assert (family6 a = v6) as Hfam
    by (subst a; rewrite pool_address_family by done; apply W).
  destruct (store_succeeds a d st) as [st1 Hst1].
  set (s1 := with_current v6 a s).
  destruct (store_ok st a d st1 Hok) as (Hok1 & _ & Hdom1); [rewrite Hfam; by apply Hout|done|].
  destruct (save_ok st1 (metadata_of s1) _ Hok1 eq_refl) as (Hok2 & _ & Hdom2).
  exists (with_storage (FakeIPSaveMetadataAsync (metadata_of s1) st1) s1). split.
  { unfold Create. rewrite Hst, (Hout d Hd), Hvalid, Hnext. cbn. rewrite Hst1. done. }
  assert (rangeOf v6 (with_storage (FakeIPSaveMetadataAsync (metadata_of s1) st1) s1) = rangeOf v6 s)
    as Hrange by (by destruct v6).
  split; [|done]. split; rewrite ?Hrange; [done|apply W| | |].
  - rewrite <- (window_last _ _ _ W). by destruct v6.
  - rewrite length_app, Nat.add_1_r. by destruct v6.
  - eexists. split; [done|]. split; [done|].
    assert (0 < pool_size (rangeOf v6 s)) as Hm by (unfold pool_size; destruct Hr as (_&_&?&_); lia).
    rewrite length_app. cbn [length]. split.
    + intros i d' Hi. rewrite Hdom2, Hdom1, Hfam.
      apply lookup_app_Some in Hi as [Hi|[Hge Hi]].
      * assert (d' ≠ d) by (intros ->; by apply Hd, list_elem_of_lookup; eauto).
        rewrite (decide_False (P := _ ∧ _)) by naive_solver.
        rewrite (Hin i d' Hi). apply lookup_lt_Some in Hi.
        case_decide as Hw; cbn; [|rewrite decide_False by lia; done].
        pose proof (mod_window (Z.of_nat i) (Z.of_nat (length ds)) _ Hm ltac:(lia)) as Hmod.
        rewrite <- (pool_address_eq (rangeOf v6 s)) in Hmod by done.
        fold a in Hmod.
        destruct (decide (Z.of_nat i = Z.of_nat (length ds) - pool_size (rangeOf v6 s))).
        { rewrite (decide_True (P := _ = a)) by (by apply Hmod). rewrite decide_False by lia. done. }
        rewrite (decide_False (P := _ = a)) by (by rewrite Hmod). rewrite decide_True by lia. done.
      * assert (i = length ds) as -> by (destruct (i - length ds)%nat eqn:E; [lia|done]).
        rewrite Nat.sub_diag in Hi. injection Hi as <-.
        rewrite !decide_True by (done || lia). done.
    + intros d' [Hd1 Hd2]%not_elem_of_app. rewrite Hdom2, Hdom1.
      rewrite decide_False by set_solver. by rewrite (Hout d' Hd1).
Qed.

Lemma Creates_window v6 ds0 ds s :
  window v6 ds0 s → NoDup (ds0 ++ ds) →
  ∃ s', Creates ds v6 s =
          (imap (λ i _, Ok (pool_address (rangeOf v6 s) (Z.of_nat (length ds0 + i)))) ds, s') ∧
        window v6 (ds0 ++ ds) s' ∧ rangeOf v6 s' = rangeOf v6 s.
Proof.
  revert ds0 s; induction ds as [|d ds IH]; intros ds0 s W Hnd.
  { exists s. rewrite app_nil_r. done. }
  assert (d ∉ ds0) as Hd by (apply NoDup_app in Hnd as (_ & Hx & _); intros ?; eapply Hx; [done|left]).
  destruct (Create_window v6 ds0 s d W Hd) as (s1 & Hc & W1 & Hr1).
  destruct (IH (ds0 ++ [d]) s1 W1) as (s2 & Hcs & W2 & Hr2); [by rewrite <- app_assoc|].
  exists s2. cbn [Creates imap]. rewrite Hc, Hcs, Hr1, Nat.add_0_r.
  rewrite <- app_assoc in W2. rewrite Hr2, Hr1. split; [|done]. f_equal. f_equal.
  apply imap_ext. intros i d' _. cbn. rewrite length_app. cbn. do 3 f_equal. lia.
Qed.

(** The domains of the window are found in both directions, and asking again
    changes nothing. *)
Lemma window_lookup v6 ds s i d :
  window v6 ds s → ds !! i = Some d →
  Z.of_nat (length ds) - pool_size (rangeOf v6 s) ≤ Z.of_nat i →
  Lookup (pool_address (rangeOf v6 s) (Z.of_nat i)) s = Ok (Some d) ∧
  Create d v6 s = (Ok (pool_address (rangeOf v6 s) (Z.of_nat i)), s).
Proof.
  intros W Hi Hw. destruct (window_storage _ _ _ W) as (st & Hst & Hok & Hin & _).
  pose proof (Hin i d Hi) as Hd. rewrite decide_True in Hd by done.
  unfold Lookup, Create. rewrite Hst, Hd. split; [|done].
  f_equal. by eapply load_domain_load.
Qed.

(** [Start] on a storage without metadata for these ranges begins with an empty
    window in each family that has a range. *)
Lemma Start_window v6 inet4 inet6 cacheFile memory :
  let s0 := NewStore (S := S) inet4 inet6 in
  let st := match cacheFile with Some c => c | None => memory end in
  range_ok (rangeOf v6 s0) → family6 (prefix_addr (rangeOf v6 s0)) = v6 →
  (FakeIPMetadataOf st).1 = None → (FakeIPReset (FakeIPMetadataOf st).2).1 = Ok tt →
  window v6 [] (Start cacheFile memory s0).2 ∧ rangeOf v6 (Start cacheFile memory s0).2 = rangeOf v6 s0.
Proof.
  intros s0 st Hr Hf Hm Hreset. unfold Start. fold st.
  destruct (FakeIPMetadataOf st) as [m st1]. cbn in Hm, Hreset. subst m.
  assert (prefix_IsValid (rangeOf v6 s0) = true) as Hv.
  { destruct Hr as ((_ & Hb & _) & _). unfold prefix_IsValid, prefix_Bits in *.
    apply bool_decide_eq_true. lia. }
  destruct (FakeIPReset st1) as [r st'] eqn:Er. cbn in Hreset; subst r.
  destruct (reset_ok _ _ Er) as (Hok & _ & Hdom).
  split; [|by destruct v6]. split.
  - by destruct v6.
  - by destruct v6.
  - subst s0. destruct v6; cbn in *; by rewrite Hv.
  - subst s0. destruct v6; cbn in *; by rewrite Hv.
  - exists st'. split; [done|]. split; [done|]. split; [done|]. intros; apply Hdom.
Qed.
End window.
Arguments Creates {S _} ds isIPv6 s : assert.

(** ** Claims *)

Definition cached {S} (cacheFile : option S) (memory : S) : S :=
  match cacheFile with Some c => c | None => memory end.

(** (C31) The fake-IP store hands its addresses out as a queue over the range.
    Take a range given by its first address, with at least four addresses (in a
    smaller one the store leaves it: fakeip_small_range_escapes), and a storage that behaves like its
    tables, whose writes succeed and which has nothing saved and can be reset.
    After [NewStore] and [Start], creating the distinct domains [ds] of one
    family returns the pool addresses in order, all inside the range; each of
    the last [pool_size] domains is still found from its address, and asking for
    it again returns the same address and changes nothing.  So no assignment is
    overwritten before the whole range has been used. *)
Theorem fakeip_queue {S} `{FakeIPStorageSpec S} inet4 inet6 cacheFile (memory : S) (v6 : bool) ds :
  (∀ a d (st : S), ∃ st', FakeIPStore a d st = (Ok tt, st')) →
  range_ok (if v6 then inet6 else inet4) → family6 (prefix_addr (if v6 then inet6 else inet4)) = v6 →
  (FakeIPMetadataOf (cached cacheFile memory)).1 = None →
  (FakeIPReset (FakeIPMetadataOf (cached cacheFile memory)).2).1 = Ok tt →
  NoDup ds →
  let p := if v6 then inet6 else inet4 in
  let '(rs, s) := Creates ds v6 (Start cacheFile memory (NewStore inet4 inet6)).2 in
  rs = imap (λ i _, Ok (pool_address p (Z.of_nat i))) ds ∧
  (∀ i, prefix_Contains p (pool_address p i) = true) ∧
  (∀ i d, ds !! i = Some d → Z.of_nat (length ds) - pool_size p ≤ Z.of_nat i →
     Lookup (pool_address p (Z.of_nat i)) s = Ok (Some d) ∧
     Create d v6 s = (Ok (pool_address p (Z.of_nat i)), s)).
Proof.
  intros Hstore Hr Hf Hm Hreset Hnd p.
  assert (rangeOf v6 (NewStore (S := S) inet4 inet6) = p) as Hp by (by destruct v6).
  destruct (Start_window v6 inet4 inet6 cacheFile memory) as [W Hrange]; [by rewrite Hp..|done|done|].
  rewrite Hp in Hrange.
  destruct (Creates_window Hstore v6 [] ds _ W Hnd) as (s & -> & W' & Hr'). cbn [app] in W'.
  rewrite Hrange in Hr'. rewrite Hrange. split; [done|]. split.
  - intros i. by apply pool_address_contains.
  - intros i d Hi Hw. rewrite <- Hr'. eapply window_lookup; [done|done|by rewrite Hr'].
Qed.

Definition range24 : Prefix := MkPrefix (Addr4 3323068416) 25.

Lemma fakeip_queue_witness :
  let s := (Start None NewMemoryStorage (NewStore range24 PrefixZero)).2 in
  (Creates ["a"; "b"]%string false s).1 = [Ok (Addr4 3323068418); Ok (Addr4 3323068419)].
Proof.
  cbv zeta. pose proof (fakeip_queue range24 PrefixZero None NewMemoryStorage false ["a"; "b"]%string) as Hq.
  destruct (Creates ["a"; "b"]%string false (Start None NewMemoryStorage (NewStore range24 PrefixZero)).2)
    as [rs s] eqn:E.
  destruct Hq as [Hrs _].
  - intros a d st. eexists. reflexivity.
  - repeat split; by vm_compute.
  - done.
  - done.
  - done.
  - by apply (bool_decide_unpack _).
  - cbn [fst]. rewrite Hrs. reflexivity.
Defined.


(** [broadcastAddress] sets the host bits one by one in a byte array; the
    result is the last address of the prefix, for every prefix of either
    family, and no address above it is in the prefix. *)
Theorem broadcastAddress_correct p :
  prefix_wf p → hasZone (prefix_addr p) = false →
  broadcastAddress p = last_address p ∧ prefix_Contains p (broadcastAddress p) = true ∧
  (∀ a, addr_wf a → prefix_Contains p a = true → addr_val a ≤ addr_val (broadcastAddress p)).
Proof.
  intros Hp Hz. rewrite broadcastAddress_last by done. split; [done|].
  pose proof (block_in_family p Hp) as [Hlo Hhi].
  assert (addr_val (last_address p) = block_base p + block_size p - 1) as Hval
    by (unfold last_address; destruct Hp as (_ & _ & Hv); by destruct (prefix_addr p)).
  assert (0 < block_size p) by (apply Z.pow_pos_nonneg; [lia|destruct Hp as (_ & ? & _); lia]).
  split.
  - apply prefix_Contains_block; [done| | | |rewrite Hval; lia];
      unfold last_address in *; destruct Hp as (_ & _ & Hv); destruct (prefix_addr p); cbn in *; done || lia.
  - intros a Ha Hc. rewrite Hval. pose proof (contains_same_family p a Hc) as [Hl Hza].
    apply prefix_Contains_block in Hc; [lia|done..].
Qed.

Lemma broadcastAddress_correct_witness :
  broadcastAddress range24 = Addr4 3323068671.
Proof.
  destruct (broadcastAddress_correct range24) as [-> _]; [repeat split; by vm_compute|done|].
  reflexivity.
Defined.

(** A range with a single host bit has no usable address, and [Create]
    does not notice: the address it returns and stores is outside the range,
    so [Contains] denies the store's own answer. *)
Theorem fakeip_small_range_escapes v d :
  0 ≤ v → v + 2 < 2^32 → v `mod` 2 = 0 →
  let p := PrefixFrom (Addr4 v) 31 in
  let '(r, s) := Create d false (Start None NewMemoryStorage (NewStore p PrefixZero)).2 in
  r = Ok (Addr4 (v + 2)) ∧ Lookup (Addr4 (v + 2)) s = Ok (Some d) ∧ Contains (Addr4 (v + 2)) s = false.
Proof.
  intros Hv Hmax Hev p. set (s0 := (Start None NewMemoryStorage (NewStore p PrefixZero)).2).
  assert (prefix_wf p) as Hp.
  { split; [cbn; lia|]. split; [|done]. change (prefix_Bits p) with 31. cbn; lia. }
  assert (block_base p = v) as Hbase.
  { unfold block_base. change (BitLen (prefix_addr p) - prefix_Bits p) with 1. cbn [addr_val].
    change (prefix_addr p) with (Addr4 v). cbn [addr_val].
    pose proof (Z.div_mod v 2 ltac:(lia)). change (2^1) with 2. lia. }
  assert (prefix_Contains p (Addr4 (v + 2)) = false) as Hout.
  { apply not_true_iff_false. rewrite prefix_Contains_block by (done || cbn; lia).
    rewrite Hbase. change (block_size p) with 2. cbn [addr_val]. lia. }
  assert (nextAddress p (broadcastAddress p) (Addr4 (v + 1)) = Addr4 (v + 2)) as Hnext.
  { unfold nextAddress. cbn [addr_Next].
    rewrite (bool_decide_eq_false_2 (v + 1 + 1 = 2^32)) by lia.
    replace (v + 1 + 1) with (v + 2) by lia. rewrite Hout, orb_true_r.
    change (prefix_addr p) with (Addr4 v). cbn [addr_Next].
    rewrite (bool_decide_eq_false_2 (v + 1 = 2^32)) by lia. cbn [addr_Next].
    rewrite (bool_decide_eq_false_2 (v + 1 + 1 = 2^32)) by lia. f_equal. lia. }
  assert (inet4Current s0 = Addr4 (v + 1)) as Hcur.
  { subst s0. cbn. by rewrite bool_decide_eq_false_2 by lia. }
  unfold Create. change (storage s0) with (Some NewMemoryStorage).
  change (currentOf false s0) with (inet4Current s0). change (rangeOf false s0) with p.
  change (lastOf false s0) with (broadcastAddress p). rewrite Hcur, Hnext.
  change (FakeIPLoadDomain d false NewMemoryStorage) with ((∅ : gmap string Addr) !! d).
  rewrite lookup_empty. cbn [addr_IsValid negb]. split; [done|]. split.
  - unfold Lookup. cbn. by rewrite lookup_insert_eq.
  - unfold Contains. cbn [inet4Range inet6Range with_storage with_current].
    change (inet4Range s0) with p. rewrite Hout. by vm_compute.
Qed.

Lemma fakeip_small_range_escapes_witness :
  (Create "a" false (Start None NewMemoryStorage (NewStore (PrefixFrom (Addr4 167772160) 31) PrefixZero)).2).1
    = Ok (Addr4 167772162).
Proof.
  pose proof (fakeip_small_range_escapes 167772160 "a" ltac:(lia) ltac:(lia) ltac:(reflexivity)) as Hw.
  cbv zeta in Hw. destruct (Create _ _ _) as [r s]. apply Hw.
Defined.
