(* ===== verification/DepStart.v ===== *)
(** * Starting components after their dependencies

    The outbound manager (src/adapter/outbound/manager.go, [startOutbounds]) and
    the DNS transport manager (src/dns/transport_manager.go, [startTransports])
    start their components with the same loop: passes over the list that start
    every component whose dependencies are started, until all are, or until a
    pass starts nothing; then a search along the missing dependencies words the
    error.  The loop is written once here, over the type of the components, the
    world their [Start] acts on and the lookup of a tag; the two managers
    instantiate it.

    The loops carry fuel.  [start_all_returns] shows that one more pass than
    there are components, and as many search steps, are always enough;
    [start_all_spec] says what the loop has done when it returns. *)
From stdpp Require Import base gmap sets list strings relations.
From S2P Require Import Prelude GoStrings.

Section dep_start.
Context {T W : Type} (tag : T → string) (deps : T → list string).
Context (start_one : T → W → result () * W).
Context (find : list T → string → option T).
Context (circular : list string → string → error) (not_found : string → string → error).

(** ** The loop *)

(** One pass over the list ([startOne]): [started] and [canContinue] are the
    variables of the Go loop. *)
Fixpoint start_pass (l : list T) (started : gset string) (canContinue : bool) (w : W)
    : result (gset string * bool) * W :=
  match l with
  | [] => (Ok (started, canContinue), w)
  | x :: l =>
      if bool_decide (tag x ∈ started) then start_pass l started canContinue w
      else if negb (forallb (λ d, bool_decide (d ∈ started)) (deps x))
      then start_pass l started canContinue w
      else
        match start_one x w with
        | (Ok _, w) => start_pass l ({[tag x]} ∪ started) true w
        | (Err e, w) => (Err e, w)
        | (Panic p, w) => (Panic p, w)
        end
  end.

(** The search along the missing dependencies; [common.Find] gives the zero
    string when there is none. *)
Definition problem_of (started : gset string) (x : T) : string :=
  match list_find (λ d, d ∉ started) (deps x) with Some (_, d) => d | None => ""%string end.
Fixpoint lint (fuel : nat) (l : list T) (started : gset string) (oTree : list string) (oCurrent : T)
    : option error :=
  match fuel with
  | O => None
  | S fuel =>
      let problem := problem_of started oCurrent in
      if bool_decide (problem ∈ oTree) then Some (circular oTree problem)
      else match find l problem with
           | None => Some (not_found problem (tag oCurrent))
           | Some p => lint fuel l started (oTree ++ [problem]) p
           end
  end.

(** After a pass that started nothing: [common.Find] of the first component
    that is not started; calling a method of the nil it gives when there is
    none panics. *)
Definition stuck (l : list T) (started : gset string) : option (result ()) :=
  match list_find (λ x, tag x ∉ started) l with
  | None => Some (Panic "nil component")
  | Some (_, x) => Err <$> lint (S (length l)) l started [tag x] x
  end.

(** [None] only when the fuel is used up. *)
Fixpoint start_loop (fuel : nat) (l : list T) (started : gset string) (w : W)
    : option (result ()) * W :=
  match fuel with
  | O => (None, w)
  | S fuel =>
      match start_pass l started false w with
      | (Err e, w) => (Some (Err e), w)
      | (Panic p, w) => (Some (Panic p), w)
      | (Ok (started, canContinue), w) =>
          if bool_decide (size started = length l) then (Some (Ok tt), w)
          else if canContinue then start_loop fuel l started w
          else (stuck l started, w)
      end
  end.
Definition start_all (l : list T) (w : W) : option (result ()) * W := start_loop (S (length l)) l ∅ w.

(** ** Specification *)

(** Starting the components of a list one after the other. *)
Fixpoint run_starts (l : list T) (w : W) : result () * W :=
  match l with
  | [] => (Ok tt, w)
  | x :: l => match start_one x w with (Ok _, w) => run_starts l w | (r, w) => (r, w) end
  end.

(** [x] names [y]'s tag among its dependencies. *)
Definition depends (l : list T) (a b : string) : Prop := ∃ x, x ∈ l ∧ tag x = a ∧ b ∈ deps x.
Definition resolved (l : list T) : Prop := ∀ x d, x ∈ l → d ∈ deps x → d ∈ (tag <$> l).
Definition acyclic (l : list T) : Prop := ∀ a, ¬ tc (depends l) a a.

(** A list in which every component comes after its dependencies and no tag
    comes twice, given the tags started before it. *)
Fixpoint schedule (started : gset string) (s : list T) : Prop :=
  match s with
  | [] => True
  | x :: s => (tag x ∉ started) ∧ (∀ d, d ∈ deps x → d ∈ started) ∧ schedule ({[tag x]} ∪ started) s
  end.

Definition tags (s : list T) : gset string := list_to_set (tag <$> s).

Lemma elem_of_tags s d : d ∈ tags s ↔ ∃ x, x ∈ s ∧ tag x = d.
Proof. unfold tags. rewrite elem_of_list_to_set, list_elem_of_fmap. naive_solver. Qed.

Lemma run_starts_app s s' w :
  run_starts (s ++ s') w =
    match run_starts s w with (Ok _, w) => run_starts s' w | (r, w) => (r, w) end.
Proof.
  revert w; induction s as [|x s IH]; intros w; [done|]. cbn.
  destruct (start_one x w) as [[] w']; auto.
Qed.

Lemma schedule_app started s s' :
  schedule started (s ++ s') ↔ schedule started s ∧ schedule (tags s ∪ started) s'.
Proof.
  revert started; induction s as [|x s IH]; intros started; cbn.
  { unfold tags; cbn. rewrite (left_id_L ∅ (∪)). naive_solver. }
  rewrite IH. replace (tags (x :: s) ∪ started) with (tags s ∪ ({[tag x]} ∪ started)); [naive_solver|].
  unfold tags; cbn. set_solver.
Qed.

Lemma schedule_NoDup started s :
  schedule started s → NoDup (tag <$> s) ∧ ∀ x, x ∈ s → tag x ∉ started.
Proof.
  revert started; induction s as [|x s IH]; intros started; cbn; [split; [constructor|set_solver]|].
  intros (Hx & _ & Hs). destruct (IH _ Hs) as [Hn Hd]. split.
  - constructor; [|done]. intros (y & Hy & Hin)%list_elem_of_fmap. apply (Hd y Hin). set_solver.
  - intros y [->|Hy]%elem_of_cons; [done|]. specialize (Hd y Hy). set_solver.
Qed.

Lemma schedule_size s : schedule ∅ s → size (tags s) = length s.
Proof.
  intros [Hn _]%schedule_NoDup. unfold tags. rewrite size_list_to_set by done. apply length_fmap.
Qed.

(** ** One pass *)

Lemma start_pass_spec l started c w r w' :
  start_pass l started c w = (r, w') →
  ∃ s, s `sublist_of` l ∧ schedule started s ∧
    match r with
    | Ok (started', c') =>
        run_starts s w = (Ok tt, w') ∧ started' = tags s ∪ started ∧ c' = c || bool_decide (s ≠ [])
    | Err e => run_starts s w = (Err e, w')
    | Panic p => run_starts s w = (Panic p, w')
    end.
Proof.
  revert started c w; induction l as [|x l IH]; intros started c w; cbn.
  { intros [= <- <-]. exists []. split_and!; [done|done|done| |].
    - unfold tags; cbn. by rewrite (left_id_L ∅ (∪)).
    - by rewrite orb_false_r. }
  case_bool_decide as Ht.
  { intros (s & Hl & Hs)%IH. exists s. split; [by constructor|done]. }
  destruct (forallb _ _) eqn:Hd; cbn.
  2: { intros (s & Hl & Hs)%IH. exists s. split; [by constructor|done]. }
  assert (∀ d, d ∈ deps x → d ∈ started) as Hdeps.
  { intros d Hin. rewrite forallb_forall in Hd. apply list_elem_of_In, Hd in Hin.
    by apply bool_decide_eq_true in Hin. }
  destruct (start_one x w) as [[[]|e|p] w1] eqn:Ex.
  - intros (s & Hl & Hs & Hr)%IH. exists (x :: s). split; [by constructor|]. split; [done|].
    cbn. rewrite Ex. destruct r as [[started' c']|e|p]; [|done..].
    destruct Hr as (Hr & -> & ->). split; [done|]. split; [unfold tags; cbn; set_solver|by destruct c].
  - intros [= <- <-]. exists [x]. split; [constructor; apply sublist_nil_l|]. split; [done|]. cbn. by rewrite Ex.
  - intros [= <- <-]. exists [x]. split; [constructor; apply sublist_nil_l|]. split; [done|]. cbn. by rewrite Ex.
Qed.

(** A pass that starts nothing leaves every component started or blocked. *)
Lemma start_pass_idle l started w started' w' :
  start_pass l started false w = (Ok (started', false), w') →
  started' = started ∧ w' = w ∧
  ∀ x, x ∈ l → tag x ∈ started ∨ ∃ d, d ∈ deps x ∧ d ∉ started.
Proof.
  intros Hp. pose proof (start_pass_spec _ _ _ _ _ _ Hp) as (s & Hl & _ & Hr & -> & Hc).
  assert (s = []) as ->.
  { symmetry in Hc. cbn in Hc. apply bool_decide_eq_false in Hc. destruct s; [done|]. by destruct Hc. }
  injection Hr as <-. split; [unfold tags; cbn; by rewrite (left_id_L ∅ (∪))|]. split; [done|].
  clear Hl Hc. revert Hp. unfold tags; cbn. rewrite (left_id_L ∅ (∪)).
  induction l as [|x l IH]; intros Hp y Hy; [by apply elem_of_nil in Hy|]. cbn in Hp.
  destruct (bool_decide (tag x ∈ started)) eqn:Ht.
  { apply elem_of_cons in Hy as [->|Hy]; [left; by apply bool_decide_eq_true in Ht|by apply IH]. }
  destruct (forallb _ _) eqn:Hd; cbn in Hp.
  - exfalso. destruct (start_one x w) as [[[]|e|p] w1]; [|done..].
    apply start_pass_spec in Hp as (s & _ & _ & _ & _ & Hc). by destruct s.
  - apply elem_of_cons in Hy as [->|Hy]; [|by apply IH]. right.
    clear -Hd. induction (deps x) as [|d l IH]; [done|]. cbn in Hd.
    apply andb_false_iff in Hd as [Hd|Hd].
    + apply bool_decide_eq_false in Hd. exists d. split; [left|done].
    + destruct (IH Hd) as (d' & ? & ?). exists d'. split; [by right|done].
Qed.

(** ** The loop terminates *)

Lemma sublist_tags s l : s `sublist_of` l → tags s ⊆ tags l.
Proof. intros Hs d. rewrite !elem_of_tags. intros (x & Hx & <-). exists x. split; [by eapply elem_of_sublist|done]. Qed.

Lemma tags_size l : size (tags l) ≤ length l.
Proof.
  unfold tags. induction l as [|x l IH]; [done|]. cbn.
  destruct (decide (tag x ∈ tags l)) as [Hx|Hx]; unfold tags in Hx; cbn in Hx.
  - rewrite subseteq_union_1_L by set_solver. lia.
  - rewrite size_union, size_singleton by set_solver. lia.
Qed.

(** The lookup finds components of the list, under their tag. *)
Definition find_in (l : list T) : Prop :=
  (∀ d x, find l d = Some x → x ∈ l ∧ tag x = d) ∧ (∀ d, find l d = None → d ∉ (tag <$> l)).

Lemma lint_returns fuel l started oTree x :
  find_in l → NoDup oTree → (∀ t, t ∈ oTree → t ∈ tags l) → (S (length l) ≤ fuel + length oTree) →
  0 < fuel → is_Some (lint fuel l started oTree x).
Proof.
  intros Hf. revert oTree x; induction fuel as [|fuel IH]; intros oTree x Hn Ht Hlen H0; [lia|].
  cbn. case_bool_decide as Hp; [by eexists|].
  destruct (find l (problem_of started x)) as [p|] eqn:Ep; [|by eexists].
  apply (proj1 Hf) in Ep as [Hp1 Hp2].
  assert (NoDup (oTree ++ [problem_of started x])) as Hn'.
  { apply NoDup_app. split; [done|]. split; [|apply NoDup_singleton].
    intros t Ht1 ->%list_elem_of_singleton. done. }
  assert (∀ t, t ∈ oTree ++ [problem_of started x] → t ∈ tags l) as Ht'.
  { intros t [?| ->%list_elem_of_singleton]%elem_of_app; [by apply Ht|]. apply elem_of_tags. eauto. }
  assert (length (oTree ++ [problem_of started x]) ≤ length l) as Hle.
  { etrans; [|apply tags_size]. rewrite <- (size_list_to_set (C := gset string)) by done.
    apply subseteq_size. intros t. rewrite elem_of_list_to_set. apply Ht'. }
  rewrite length_app in Hle. cbn in Hle.
  apply IH; [done|done|rewrite length_app; cbn; lia|lia].
Qed.

Lemma stuck_returns l started : find_in l → is_Some (stuck l started).
Proof.
  intros Hf. unfold stuck. destruct (list_find _ l) as [[i x]|] eqn:Ex; [|by eexists].
  apply list_find_Some in Ex as (Hx & _ & _). apply list_elem_of_lookup_2 in Hx.
  destruct (lint_returns (S (length l)) l started [tag x] x) as [e ->];
    [done|apply NoDup_singleton| |cbn; lia|lia|by eexists].
  intros t ->%list_elem_of_singleton. apply elem_of_tags. eauto.
Qed.

(** The passes as one schedule, with what stops them. *)
Lemma start_loop_spec fuel l started w :
  find_in l → started ⊆ tags l → length l < fuel + size started →
  ∃ s r w', start_loop fuel l started w = (Some r, w') ∧ s ⊆ l ∧ schedule started s ∧
    ((r ≠ Ok tt ∧ run_starts s w = (r, w')) ∨
     (run_starts s w = (Ok tt, w') ∧
      if bool_decide (size (tags s ∪ started) = length l) then r = Ok tt
      else stuck l (tags s ∪ started) = Some r ∧
           ∀ x, x ∈ l → tag x ∈ tags s ∪ started ∨ ∃ d, d ∈ deps x ∧ d ∉ tags s ∪ started)).
Proof.
  intros Hf. revert started w; induction fuel as [|fuel IH]; intros started w Hsub Hfuel.
  { apply subseteq_size in Hsub. pose proof (tags_size l). lia. }
  cbn [start_loop]. destruct (start_pass l started false w) as [r w1] eqn:Ep.
  pose proof (start_pass_spec _ _ _ _ _ _ Ep) as (s & Hl & Hs & Hr).
  assert (s ⊆ l) as Hsl by (intros x Hx; by eapply elem_of_sublist).
  destruct r as [[started1 c]|e|p].
  2: { exists s, (Err e), w1. split_and!; [done..|]. by left. }
  2: { exists s, (Panic p), w1. split_and!; [done..|]. by left. }
  destruct Hr as (Hr & -> & ->). cbn [orb].
  destruct (decide (size (tags s ∪ started) = length l)) as [Hsize|Hsize];
    [rewrite bool_decide_eq_true_2 by done|rewrite bool_decide_eq_false_2 by done].
  { exists s, (Ok tt), w1. split_and!; [done..|]. right. split; [done|]. by rewrite bool_decide_eq_true_2. }
  case_bool_decide as Hne.
  - destruct (IH (tags s ∪ started) w1) as (s2 & r2 & w2 & Hloop & Hs2 & Hsch & Hend).
    { apply union_subseteq. split; [by apply sublist_tags|done]. }
    { destruct s as [|x s]; [done|]. destruct Hs as (Hx & _ & _).
      assert (size ({[tag x]} ∪ started) ≤ size (tags (x :: s) ∪ started)) as Hle.
      { apply subseteq_size. unfold tags; cbn. set_solver. }
      rewrite size_union, size_singleton in Hle by set_solver. lia. }
    exists (s ++ s2), r2, w2. split; [done|]. split; [set_solver|].
    split; [by apply schedule_app|]. rewrite run_starts_app, Hr.
    assert (tags (s ++ s2) ∪ started = tags s2 ∪ (tags s ∪ started)) as ->; [|done].
    unfold tags. rewrite fmap_app, list_to_set_app_L. set_solver.
  - assert (s = []) as -> by (destruct s; [done|]; by destruct Hne).
    destruct (start_pass_idle l started w (tags [] ∪ started) w1) as (He & -> & Hblk).
    { rewrite Ep. done. }
    rewrite He in *. destruct (stuck_returns l started Hf) as [r2 Hr2].
    exists [], r2, w. rewrite Hr2. split_and!; [done|done|done|]. right. split; [done|]. rewrite He.
    by rewrite bool_decide_eq_false_2.
Qed.

(** ** What the loop has done when it returns *)

(** All dependencies inside a schedule point backwards. *)
Lemma schedule_deps started s x d :
  schedule started s → x ∈ s → d ∈ deps x → d ∈ tags s ∪ started.
Proof.
  revert started; induction s as [|y s IH]; intros started; cbn; [set_solver|].
  intros (_ & Hy & Hs) [->|Hx]%elem_of_cons Hd.
  - specialize (Hy d Hd). set_solver.
  - specialize (IH _ Hs Hx Hd). unfold tags in *; cbn. set_solver.
Qed.

Lemma schedule_acyclic s : schedule ∅ s → acyclic s.
Proof.
  induction s as [|x s IH] using rev_ind; intros Hs a Ha.
  { induction Ha as [? ? (x & Hx & _)|? ? ? (x & Hx & _)]; by apply elem_of_nil in Hx. }
  apply schedule_app in Hs as [Hs (Hx & Hdx & _)]. rewrite (right_id_L ∅ (∪)) in Hx, Hdx.
  assert (∀ u v, depends (s ++ [x]) u v → v ∈ tags s) as Hin.
  { intros u v (y & [Hy| ->%list_elem_of_singleton]%elem_of_app & <- & Hv); [|by apply Hdx].
    pose proof (schedule_deps _ _ _ _ Hs Hy Hv). set_solver. }
  assert (∀ u v, u ∈ tags s → depends (s ++ [x]) u v → depends s u v) as Hback.
  { intros u v Hu (y & [Hy| ->%list_elem_of_singleton]%elem_of_app & Ht & Hv); [by exists y|].
    subst u. done. }
  assert (∀ u v, tc (depends (s ++ [x])) u v → u ∈ tags s → tc (depends s) u v ∧ v ∈ tags s) as Htc.
  { intros u v Huv. induction Huv as [u v Huv|u v z Huv _ IHtc]; intros Hu.
    - split; [apply tc_once; by apply Hback|by eapply Hin].
    - destruct IHtc as [Htc Hz]; [by eapply Hin|]. split; [|done].
      eapply tc_l; [by apply Hback|done]. }
  assert (a ∈ tags s) as Hat.
  { clear -Ha Hin. induction Ha; eauto. }
  apply (IH Hs a). by apply Htc.
Qed.

(** The outcomes, and what each of them means. *)
Inductive outcome (l s : list T) (w w' : W) : result () → Prop :=
  | start_failed r : r ≠ Ok tt → run_starts s w = (r, w') → outcome l s w w' r
  | all_started :
      run_starts s w = (Ok tt, w') → s ≡ₚ l → NoDup (tag <$> l) → resolved l → acyclic l →
      outcome l s w w' (Ok tt)
  | dependency_missing y d :
      run_starts s w = (Ok tt, w') → y ∈ l → d ∈ deps y → d ∉ (tag <$> l) →
      outcome l s w w' (Err (not_found d (tag y)))
  | dependency_cycle tree d :
      run_starts s w = (Ok tt, w') → tc (depends l) d d → outcome l s w w' (Err (circular tree d))
  | tag_twice :
      run_starts s w = (Ok tt, w') → ¬ NoDup (tag <$> l) → outcome l s w w' (Panic "nil component").

Lemma problem_of_spec started x :
  (∃ d, d ∈ deps x ∧ d ∉ started) → problem_of started x ∈ deps x ∧ problem_of started x ∉ started.
Proof.
  intros (d & Hd & Hns). unfold problem_of. destruct (list_find _ (deps x)) as [[i d']|] eqn:Ef.
  - apply list_find_Some in Ef as (Hl & Hp & _). split; [by eapply list_elem_of_lookup_2|done].
  - apply list_find_None in Ef. rewrite Forall_forall in Ef. by destruct (Ef d Hd).
Qed.

Lemma lint_error fuel l started oTree x e s w w' :
  find_in l → run_starts s w = (Ok tt, w') →
  (∀ x, x ∈ l → tag x ∈ started ∨ ∃ d, d ∈ deps x ∧ d ∉ started) →
  x ∈ l → tag x ∉ started → (∀ t, t ∈ oTree → rtc (depends l) t (tag x)) →
  lint fuel l started oTree x = Some e → outcome l s w w' (Err e).
Proof.
  intros Hf Hr Hblk. revert oTree x; induction fuel as [|fuel IH]; intros oTree x Hx Ht Htree; [done|].
  cbn. destruct (Hblk x Hx) as [?|Hd]; [done|]. apply problem_of_spec in Hd as [Hd Hns].
  assert (depends l (tag x) (problem_of started x)) as Hdep by (by exists x).
  case_bool_decide as Hp.
  { intros [= <-]. apply dependency_cycle; [done|]. eapply tc_rtc_l; [by apply Htree|by apply tc_once]. }
  destruct (find l (problem_of started x)) as [p|] eqn:Ef.
  - apply (proj1 Hf) in Ef as [Hpl Hpt]. apply IH; [done|by rewrite Hpt|].
    intros t [Hin| ->%list_elem_of_singleton]%elem_of_app; rewrite Hpt; [|done].
    eapply rtc_r; [by apply Htree|done].
  - intros [= <-]. apply (proj2 Hf) in Ef. by eapply dependency_missing.
Qed.

(** A schedule that covers the list is a reordering of it. *)
Lemma full_schedule l s : s ⊆ l → schedule ∅ s → size (tags s) = length l → s ≡ₚ l.
Proof.
  intros Hsl Hs Hsz. rewrite (schedule_size _ Hs) in Hsz. apply submseteq_length_Permutation; [|lia].
  apply schedule_NoDup in Hs as [Hnd _]. apply NoDup_submseteq; [by eapply NoDup_fmap_1|done].
Qed.

(** Without an error, whatever the lookup: all were started, in some order. *)
Lemma start_loop_Ok fuel l started w w' :
  start_loop fuel l started w = (Some (Ok tt), w') →
  ∃ s, s ⊆ l ∧ schedule started s ∧ run_starts s w = (Ok tt, w') ∧ size (tags s ∪ started) = length l.
Proof.
  revert started w; induction fuel as [|fuel IH]; intros started w; cbn; [done|].
  destruct (start_pass l started false w) as [r w1] eqn:Ep.
  pose proof (start_pass_spec _ _ _ _ _ _ Ep) as (s & Hl & Hs & Hr).
  assert (s ⊆ l) as Hsl by (intros x Hx; by eapply elem_of_sublist).
  destruct r as [[started1 c]|e|p]; [|done..]. destruct Hr as (Hr & -> & _). case_bool_decide.
  { intros [= <-]. by exists s. }
  destruct c.
  - intros (s2 & Hs2 & Hsch & Hrun & Hsz)%IH. exists (s ++ s2). split; [set_solver|].
    split; [by apply schedule_app|]. rewrite run_starts_app, Hr. split; [done|]. rewrite <- Hsz. f_equal.
    unfold tags. rewrite fmap_app, list_to_set_app_L. set_solver.
  - unfold stuck. destruct (list_find _ l) as [[i x]|]; [|done]. by destruct (lint _ _ _ _ _).
Qed.
Lemma start_all_Ok l w w' :
  start_all l w = (Some (Ok tt), w') → ∃ s, s ≡ₚ l ∧ run_starts s w = (Ok tt, w').
Proof.
  intros (s & Hsl & Hs & Hr & Hsz)%start_loop_Ok. exists s. split; [|done].
  rewrite (right_id_L ∅ (∪)) in Hsz. by apply full_schedule.
Qed.

Theorem start_all_spec l w :
  find_in l → ∃ s r w', start_all l w = (Some r, w') ∧ s ⊆ l ∧ schedule ∅ s ∧ outcome l s w w' r.
Proof.
  intros Hf. destruct (start_loop_spec (S (length l)) l ∅ w) as (s & r & w' & Hl & Hsl & Hs & Hend);
    [done|set_solver|lia|].
  exists s, r, w'. split_and!; [done..|]. rewrite (right_id_L ∅ (∪)) in Hend.
  destruct Hend as [[Hne Hr]|[Hr Hend]]; [by apply start_failed|].
  pose proof (schedule_NoDup _ _ Hs) as [Hnd _]. rewrite (schedule_size _ Hs) in Hend.
  case_bool_decide as Hsz.
  - subst r. assert (s ≡ₚ l) as Hp by (apply full_schedule; [done|done|by rewrite (schedule_size _ Hs)]).
    apply all_started; [done|done|by rewrite <- Hp| |].
    + intros x d Hx Hd. rewrite <- Hp in Hx. pose proof (schedule_deps _ _ _ _ Hs Hx Hd) as Hin.
      rewrite (right_id_L ∅ (∪)) in Hin. rewrite <- Hp. unfold tags in Hin. set_solver.
    + intros a Ha. apply (schedule_acyclic s Hs a). revert Ha. apply (tc_congruence id).
      intros u v (x & Hx & Hy). exists x. rewrite Hp. done.
  - destruct Hend as [Hst Hblk]. unfold stuck in Hst. destruct (list_find _ l) as [[i x]|] eqn:Ef.
    + apply list_find_Some in Ef as (Hx & Hns & _). apply list_elem_of_lookup_2 in Hx.
      destruct (lint _ _ _ _ _) as [e|] eqn:El; [|done]. injection Hst as <-.
      eapply lint_error; [done|done|done|done|done| |done]. intros t ->%list_elem_of_singleton. done.
    + injection Hst as <-. apply tag_twice; [done|]. intros Hn.
      apply list_find_None in Ef. rewrite Forall_forall in Ef.
      assert (size (tags l) ≤ size (tags s)) as Hle.
      { apply subseteq_size. intros d (x & Hx & <-)%elem_of_tags. specialize (Ef x Hx).
        destruct (decide (tag x ∈ tags s)); [done|]. by destruct Ef. }
      rewrite (schedule_size _ Hs) in Hle. unfold tags in Hle. rewrite size_list_to_set, length_fmap in Hle by done.
      pose proof (submseteq_length s l ltac:(apply NoDup_submseteq; [by eapply NoDup_fmap_1|done])). lia.
Qed.
End dep_start.
