(* ===== verification/Managers.v ===== *)
(** * The managers: [src/adapter/{outbound,endpoint,inbound,service,certificate}]
    and [src/dns/transport_manager.go]

    Each manager keeps a list of components and a table of them by tag, and is
    itself a component of the box: its [Start] starts its components, stage by
    stage.  The inbound, service and certificate-provider managers start theirs
    in the order of the list; the outbound manager starts outbounds and endpoints
    together, after their dependencies ([startOutbounds]), and the DNS transport
    manager does the same with its servers ([startTransports]).

    What a component does when it is started is a parameter: the functions it
    registers in its scope at each stage, and whether it fails. *)
From stdpp Require Import base gmap sets list strings relations.
From S2P Require Import Prelude GoStrings DepStart Lifecycle.

(** An outbound may be an endpoint, another component with a lifecycle, or a
    plain object without one. *)
Inductive Kind := KEndpoint | KLifecycle | KPlain.
Record Item := MkItem {
  i_id : component;
  i_type : string;
  i_tag : string;
  i_deps : list string;
  i_kind : Kind;
}.

Record OutboundManager := MkOutboundManager {
  om_defaultTag : string;
  outbounds : list Item;
  outboundByTag : gmap string Item;
  defaultOutbound : option Item;
}.
Record EndpointManager := MkEndpointManager {
  em_scope : option path;
  endpoints : list Item;
  endpointByTag : gmap string Item;
}.
(** The inbound manager also tells the panel about every inbound it creates. *)
Record InboundManager := MkInboundManager {
  inbounds : list Item;
  inboundByTag : gmap string Item;
  poetInbounds : gmap string component;
}.
Record ServiceManager := MkServiceManager { services : list Item; serviceByTag : gmap string Item }.
Record TransportManager := MkTransportManager {
  tm_defaultTag : string;
  transports : list Item;
  transportByTag : gmap string Item;
  defaultTransport : option Item;
  fakeIPTransport : option Item;
}.
Record managers := MkManagers { om : OutboundManager; em : EndpointManager; tm : TransportManager }.

Definition NewOutboundManager (defaultTag : string) : OutboundManager :=
  MkOutboundManager defaultTag [] ∅ None.
Definition NewEndpointManager : EndpointManager := MkEndpointManager None [] ∅.
Definition NewInboundManager : InboundManager := MkInboundManager [] ∅ ∅.
Definition NewServiceManager : ServiceManager := MkServiceManager [] ∅.
Definition NewTransportManager (defaultTag : string) : TransportManager :=
  MkTransportManager defaultTag [] ∅ None None.

(** ** Create

    The registry makes the component, or fails; [created] is its answer. *)
Definition ErrInvalid : error := EStd "invalid argument".
Definition OutboundManager_Create (tag : string) (created : result Item) (m : OutboundManager)
    : result () * OutboundManager :=
  if bool_decide (tag = ""%string) then (Err ErrInvalid, m)
  else match created with
       | Err e => (Err e, m)
       | Panic p => (Panic p, m)
       | Ok outbound =>
           if bool_decide (is_Some (outboundByTag m !! tag))
           then (Err (EFmt "duplicate outbound tag: " [tag]), m)
           else (Ok tt,
                 MkOutboundManager (om_defaultTag m) (outbounds m ++ [outbound])
                   (<[tag := outbound]> (outboundByTag m))
                   (if bool_decide (tag = om_defaultTag m) ||
                       (bool_decide (om_defaultTag m = ""%string) && bool_decide (defaultOutbound m = None))
                    then Some outbound else defaultOutbound m))
       end.
Definition EndpointManager_Create (tag : string) (created : result Item) (m : EndpointManager)
    : result () * EndpointManager :=
  match created with
  | Err e => (Err e, m)
  | Panic p => (Panic p, m)
  | Ok endpoint =>
      if bool_decide (is_Some (endpointByTag m !! tag))
      then (Err (EFmt "duplicate endpoint tag: " [tag]), m)
      else (Ok tt, MkEndpointManager (em_scope m) (endpoints m ++ [endpoint])
                     (<[tag := endpoint]> (endpointByTag m)))
  end.
Definition InboundManager_Create (tag : string) (created : result Item) (m : InboundManager)
    : result () * InboundManager :=
  match created with
  | Err e => (Err e, m)
  | Panic p => (Panic p, m)
  | Ok inbound =>
      if bool_decide (is_Some (inboundByTag m !! tag))
      then (Err (EFmt "duplicate inbound tag: " [tag]), m)
      else (Ok tt, MkInboundManager (inbounds m ++ [inbound]) (<[tag := inbound]> (inboundByTag m))
                     (<[tag := i_id inbound]> (poetInbounds m)))
  end.
Definition ServiceManager_Create (tag : string) (created : result Item) (m : ServiceManager)
    : result () * ServiceManager :=
  match created with
  | Err e => (Err e, m)
  | Panic p => (Panic p, m)
  | Ok service =>
      if bool_decide (is_Some (serviceByTag m !! tag))
      then (Err (EFmt "duplicate service tag: " [tag]), m)
      else (Ok tt, MkServiceManager (services m ++ [service]) (<[tag := service]> (serviceByTag m)))
  end.
Definition DNSTypeFakeIP : string := "fakeip".
Definition TransportManager_Create (tag : string) (created : result Item) (m : TransportManager)
    : result () * TransportManager :=
  if bool_decide (tag = ""%string) then (Err ErrInvalid, m)
  else match created with
       | Err e => (Err e, m)
       | Panic p => (Panic p, m)
       | Ok transport =>
           if bool_decide (is_Some (transportByTag m !! tag))
           then (Err (EFmt "duplicate DNS server tag: " [tag]), m)
           else
             let isFakeIP := bool_decide (i_type transport = DNSTypeFakeIP) in
             let isDefault := bool_decide (tag = tm_defaultTag m) ||
               (bool_decide (tm_defaultTag m = ""%string) && bool_decide (defaultTransport m = None)) in
             let l := transports m ++ [transport] in
             let byTag := <[tag := transport]> (transportByTag m) in
             if isDefault && isFakeIP
             then (Err (ENew "default server cannot be fakeip"),
                   MkTransportManager (tm_defaultTag m) l byTag (defaultTransport m) (fakeIPTransport m))
             else
               let dflt := if isDefault then Some transport else defaultTransport m in
               if isFakeIP
               then match fakeIPTransport m with
                    | Some _ => (Err (ENew "multiple fakeip server are not supported"),
                                 MkTransportManager (tm_defaultTag m) l byTag dflt (fakeIPTransport m))
                    | None => (Ok tt, MkTransportManager (tm_defaultTag m) l byTag dflt (Some transport))
                    end
               else (Ok tt, MkTransportManager (tm_defaultTag m) l byTag dflt (fakeIPTransport m))
       end.

(** ** Lookups *)

Definition EndpointManager_Get (tag : string) (m : EndpointManager) : option Item := endpointByTag m !! tag.
Definition OutboundManager_Outbound (tag : string) (m : OutboundManager) (e : EndpointManager) : option Item :=
  match outboundByTag m !! tag with Some outbound => Some outbound | None => EndpointManager_Get tag e end.
Definition InboundManager_Get (tag : string) (m : InboundManager) (e : EndpointManager) : option Item :=
  match inboundByTag m !! tag with Some inbound => Some inbound | None => EndpointManager_Get tag e end.

(** ** Start *)

Definition item_name (kind : string) (it : Item) : string :=
  kind +:+ "/" +:+ i_type it +:+ "[" +:+ i_tag it +:+ "]".

Section start.
(** What a component registers in its scope and returns when it is started. *)
Context (leaf : component → StartStage → list function * result ()).
(** The constructors of the default outbound and the default DNS server. *)
Context (directFallback localFallback : result Item).

Definition leaf_start (c : component) (stage : StartStage) (p : path) : ST managers () :=
  for_each (Scope_Add p) (leaf c stage).1 ≫= λ _, lift (leaf c stage).2.
Definition start_item (kind : string) (p : path) (stage : StartStage) (it : Item) : ST managers () :=
  Scope_Start p (item_name kind it) (i_id it) stage (leaf_start (i_id it) stage).

(** The inbound, service and certificate-provider managers. *)
Definition start_list (kind : string) (l : list Item) (stage : StartStage) (p : path) : ST managers () :=
  for_each (start_item kind p stage) l.

Definition EndpointManager_Start (stage : StartStage) (p : path) : ST managers () :=
  (if bool_decide (stage = StartStateInitialize)
   then modify (λ x, MkManagers (om x) (MkEndpointManager (Some p) (endpoints (em x)) (endpointByTag (em x))) (tm x))
   else mret tt) ≫= λ _,
  if bool_decide (stage = StartStateStart) then mret tt
  else get ≫= λ x, for_each (start_item "endpoint" p stage) (endpoints (em x)).

(** [StartEndpoint] uses the scope the endpoint manager was given when it was
    initialised; before that the pointer is nil. *)
Definition StartEndpoint (endpoint : Item) : ST managers () :=
  get ≫= λ x,
  match em_scope (em x) with
  | None => lift (Panic "nil scope")
  | Some p => start_item "endpoint" p StartStateStart endpoint
  end.

(** *** Outbounds *)

Definition set_om (f : OutboundManager → OutboundManager) : ST managers () :=
  modify (λ x, MkManagers (f (om x)) (em x) (tm x)).
Definition set_default (o : Item) : ST managers () :=
  set_om (λ m, MkOutboundManager (om_defaultTag m) (outbounds m) (outboundByTag m) (Some o)).
Definition OutboundManager_initialize : ST managers () :=
  get ≫= λ x,
  (if negb (bool_decide (om_defaultTag (om x) = ""%string)) && bool_decide (defaultOutbound (om x) = None)
   then match EndpointManager_Get (om_defaultTag (om x)) (em x) with
        | None => throw (EFmt "default outbound not found: " [om_defaultTag (om x)])
        | Some e => set_default e
        end
   else mret tt) ≫= λ _,
  get ≫= λ x,
  match defaultOutbound (om x) with
  | Some _ => mret tt
  | None =>
      match directFallback with
      | Err e => throw (EWrap "create direct outbound for fallback" e)
      | Panic w => lift (Panic w)
      | Ok o => set_om (λ m, MkOutboundManager (om_defaultTag m) (outbounds m ++ [o])
                               (<[i_tag o := o]> (outboundByTag m)) (Some o))
      end
  end.

Definition start_outbound (p : path) (it : Item) : ST managers () :=
  match i_kind it with
  | KEndpoint => StartEndpoint it
  | KLifecycle => start_item "outbound" p StartStateStart it
  | KPlain => mret tt
  end.
Definition find_item (l : list Item) (tag : string) : option Item :=
  match list_find (λ it, i_tag it = tag) l with Some (_, it) => Some it | None => None end.
Definition circular_outbound (oTree : list string) (problem : string) : error :=
  EFmt "circular outbound dependency: " [Join " -> " oTree; problem].
Definition outbound_not_found (problem current : string) : error :=
  EFmt "dependency[] not found for outbound[]" [problem; current].
Definition out_of_fuel : error := EStd "out of fuel".
Definition returned (r : option (result ()) * world managers) : result () * world managers :=
  match r with (Some r, w) => (r, w) | (None, w) => (Err out_of_fuel, w) end.
Definition startOutbounds (p : path) (l : list Item) : ST managers () := λ w,
  returned (start_all i_tag i_deps (start_outbound p) find_item circular_outbound outbound_not_found l w).

Definition has_lifecycle (it : Item) : bool := match i_kind it with KPlain => false | _ => true end.
Definition OutboundManager_Start (stage : StartStage) (p : path) : ST managers () :=
  (if bool_decide (stage = StartStateInitialize) then OutboundManager_initialize else mret tt) ≫= λ _,
  get ≫= λ x,
  if bool_decide (stage = StartStateStart)
  then startOutbounds p (outbounds (om x) ++ endpoints (em x))
  else for_each (λ it, if has_lifecycle it then start_item "outbound" p stage it else mret tt) (outbounds (om x)).

(** *** DNS servers *)

Definition circular_server (oTree : list string) (problem : string) : error :=
  EFmt "circular server dependency: " [Join " -> " oTree; problem].
Definition server_not_found (problem current : string) : error :=
  EFmt "dependency[] not found for server[]" [problem; current].
Definition startTransports (p : path) (l : list Item) : ST managers () := λ w,
  returned (start_all i_tag i_deps (start_item "dns" p StartStateStart)
              (λ _ tag, transportByTag (tm (state w)) !! tag) circular_server server_not_found l w).

Definition TransportManager_initialize : ST managers () :=
  get ≫= λ x,
  if negb (bool_decide (tm_defaultTag (tm x) = ""%string)) && bool_decide (defaultTransport (tm x) = None)
  then throw (EFmt "default DNS server not found: " [tm_defaultTag (tm x)])
  else match defaultTransport (tm x) with
       | Some _ => mret tt
       | None =>
           match localFallback with
           | Err e => throw (EWrap "default DNS server fallback" e)
           | Panic w => lift (Panic w)
           | Ok t => modify (λ x, MkManagers (om x) (em x)
                       (let m := tm x in
                        MkTransportManager (tm_defaultTag m) (transports m ++ [t])
                          (<[i_tag t := t]> (transportByTag m)) (Some t) (fakeIPTransport m)))
           end
       end.
Definition TransportManager_Start (stage : StartStage) (p : path) : ST managers () :=
  (if bool_decide (stage = StartStateInitialize) then TransportManager_initialize else mret tt) ≫= λ _,
  get ≫= λ x,
  if bool_decide (stage = StartStateStart) then startTransports p (transports (tm x))
  else for_each (start_item "dns" p stage) (transports (tm x)).
End start.

(** ** Starting is only starting *)

(** The pointer the endpoint manager keeps is valid. *)
Definition scope_ok (w : world managers) : Prop :=
  ∀ q, em_scope (em (state w)) = Some q → live q (root w).
Lemma scope_ok_stable w w' : grows w w' → state w' = state w → scope_ok w → scope_ok w'.
Proof. intros [Hl _] He Hw q Hq. apply Hl, Hw. by rewrite <- He. Qed.

Section starting.
Context (leaf : component → StartStage → list function * result ()).
Context (directFallback localFallback : result Item).

Lemma leaf_starts p c stage : starts scope_ok p (leaf_start leaf c stage p).
Proof.
  apply starts_bind; [|intros; apply starts_lift].
  apply starts_for_each. intros f. apply starts_Add, scope_ok_stable.
Qed.
Lemma item_starts kind p stage it : starts scope_ok p (start_item leaf kind p stage it).
Proof. apply starts_Start; [apply scope_ok_stable|auto|apply leaf_starts]. Qed.
Lemma list_starts kind l p stage : starts scope_ok p (start_list leaf kind l stage p).
Proof. apply starts_for_each. intros it. apply item_starts. Qed.

Lemma StartEndpoint_starts p it : starts scope_ok p (StartEndpoint leaf it).
Proof.
  intros w Hp Hi. change (StartEndpoint leaf it w) with
    (match em_scope (em (state w)) with
     | None => lift (Panic "nil scope")
     | Some p => start_item leaf "endpoint" p StartStateStart it
     end w).
  destruct (em_scope (em (state w))) as [q|] eqn:Hq; [|by apply (starts_lift scope_ok p)].
  apply (item_starts "endpoint" q StartStateStart it w); [by apply Hi|done].
Qed.

(** A loop of starts is a sequence of starts. *)
Lemma start_pass_grows {T} tag deps (start_one : T → ST managers ()) p l started c :
  (∀ x, starts scope_ok p (start_one x)) → starts scope_ok p (start_pass tag deps start_one l started c).
Proof.
  intros Hs. revert started c; induction l as [|x l IH]; intros started c w Hp Hi; cbn; [by split|].
  case_bool_decide; [by apply IH|]. destruct (negb _); [by apply IH|].
  specialize (Hs x w Hp Hi). destruct (start_one x w) as [[[]|e|q] w1]; cbn in *; [|done..].
  destruct Hs as [Hg Hi1]. destruct (IH ({[tag x]} ∪ started) true w1) as [Hg' Hi']; [by apply Hg|done|].
  split; [by etrans|done].
Qed.
Lemma start_loop_grows {T} tag deps (start_one : T → ST managers ()) find circular not_found p fuel l started w :
  (∀ x, starts scope_ok p (start_one x)) → live p (root w) → scope_ok w →
  let w' := (start_loop tag deps start_one find circular not_found fuel l started w).2 in
  grows w w' ∧ scope_ok w'.
Proof.
  intros Hs. revert started w; induction fuel as [|fuel IH]; intros started w Hp Hi; cbn; [by split|].
  pose proof (start_pass_grows tag deps start_one p l started false Hs w Hp Hi) as Hg.
  destruct (start_pass tag deps start_one l started false w) as [[[st c]|e|q] w1]; cbn in *; [|done..].
  destruct Hg as [Hg Hi1]. case_bool_decide; [done|]. destruct c; [|done].
  destruct (IH st w1) as [Hg' Hi']; [by apply Hg|done|]. split; [by etrans|done].
Qed.
Lemma start_all_starts {T} tag deps (start_one : T → ST managers ()) find circular not_found p (l : list T) w :
  (∀ x, starts scope_ok p (start_one x)) → live p (root w) → scope_ok w →
  let w' := (returned (start_all tag deps start_one find circular not_found l w)).2 in
  grows w w' ∧ scope_ok w'.
Proof.
  intros Hs Hp Hi. pose proof (start_loop_grows tag deps start_one find circular not_found p
    (S (length l)) l ∅ w Hs Hp Hi) as Hg. unfold start_all. by destruct (start_loop _ _ _ _ _ _ _ _ _ _) as [[r|] w'].
Qed.

Lemma start_outbound_starts p it : starts scope_ok p (start_outbound leaf p it).
Proof.
  unfold start_outbound. destruct (i_kind it); [apply StartEndpoint_starts|apply item_starts|apply starts_ret].
Qed.
Lemma startOutbounds_starts p l : starts scope_ok p (startOutbounds leaf p l).
Proof. intros w. apply start_all_starts. intros x. apply start_outbound_starts. Qed.
Lemma startTransports_starts p l : starts scope_ok p (startTransports leaf p l).
Proof. intros w. apply start_all_starts. intros x. apply item_starts. Qed.

Lemma modify_starts p f : (∀ x, em (f x) = em x) → starts scope_ok p (modify f).
Proof. intros Hf. apply starts_modify. intros w _ Hi q. cbn. rewrite Hf. apply Hi. Qed.

Lemma OutboundManager_starts stage p : starts scope_ok p (OutboundManager_Start leaf directFallback stage p).
Proof.
  apply starts_bind.
  - case_bool_decide; [|apply starts_ret]. apply starts_bind; [apply starts_get|]. intros x. apply starts_bind.
    + destruct (_ && _); [|apply starts_ret].
      destruct (EndpointManager_Get _ _); [by apply modify_starts|apply starts_lift].
    + intros _. apply starts_bind; [apply starts_get|]. intros y.
      destruct (defaultOutbound _); [apply starts_ret|].
      destruct directFallback; [by apply modify_starts|apply starts_lift..].
  - intros _. apply starts_bind; [apply starts_get|]. intros x.
    case_bool_decide; [apply startOutbounds_starts|]. apply starts_for_each. intros it.
    destruct (has_lifecycle it); [apply item_starts|apply starts_ret].
Qed.
Lemma EndpointManager_starts stage p : starts scope_ok p (EndpointManager_Start leaf stage p).
Proof.
  apply starts_bind.
  - case_bool_decide; [|apply starts_ret]. apply starts_modify. cbn. intros w Hp _ q [= <-]. done.
  - intros _. case_bool_decide; [apply starts_ret|]. apply starts_bind; [apply starts_get|]. intros x.
    apply starts_for_each. intros it. apply item_starts.
Qed.
Lemma TransportManager_starts stage p : starts scope_ok p (TransportManager_Start leaf localFallback stage p).
Proof.
  apply starts_bind.
  - case_bool_decide; [|apply starts_ret]. apply starts_bind; [apply starts_get|]. intros x.
    destruct (_ && _); [apply starts_lift|]. destruct (defaultTransport _); [apply starts_ret|].
    destruct localFallback; [by apply modify_starts|apply starts_lift..].
  - intros _. apply starts_bind; [apply starts_get|]. intros x.
    case_bool_decide; [apply startTransports_starts|]. apply starts_for_each. intros it. apply item_starts.
Qed.
End starting.

(** ** Dependencies *)

Lemma find_item_in l : find_in i_tag find_item l.
Proof.
  unfold find_item. split.
  - intros d x. destruct (list_find _ l) as [[i y]|] eqn:Ef; [|done]. intros [= <-].
    apply list_find_Some in Ef as (Hl & Ht & _). split; [by eapply list_elem_of_lookup_2|done].
  - intros d. destruct (list_find _ l) as [[i y]|] eqn:Ef; [done|]. intros _ (x & -> & Hx)%list_elem_of_fmap.
    apply list_find_None in Ef. rewrite Forall_forall in Ef. by apply (Ef x Hx).
Qed.

(** The tables of a manager agree with its list. *)
Definition table_ok (l : list Item) (byTag : gmap string Item) : Prop :=
  NoDup (i_tag <$> l) ∧ ∀ tag it, byTag !! tag = Some it ↔ it ∈ l ∧ i_tag it = tag.

Lemma table_find l byTag : table_ok l byTag → find_in i_tag (λ _ tag, byTag !! tag) l.
Proof.
  intros [_ Ht]. split.
  - intros d x. apply Ht.
  - intros d Hd (x & -> & Hx)%list_elem_of_fmap. pose proof (proj2 (Ht (i_tag x) x) (conj Hx eq_refl)). by rewrite Hd in *.
Qed.

(** Adding a component under a new tag. *)
Lemma table_insert l byTag tag it :
  table_ok l byTag → byTag !! tag = None → i_tag it = tag → table_ok (l ++ [it]) (<[tag := it]> byTag).
Proof.
  intros [Hn Ht] Hnew <-.
  assert (∀ x, x ∈ l → i_tag x ≠ i_tag it) as Hfresh.
  { intros x Hx He. pose proof (proj2 (Ht (i_tag x) x) (conj Hx eq_refl)) as Hl. rewrite He, Hnew in Hl. done. }
  split.
  - rewrite fmap_app. apply NoDup_app. split; [done|]. split; [|apply NoDup_singleton].
    intros t (x & -> & Hx)%list_elem_of_fmap Hin. apply list_elem_of_singleton in Hin. by apply (Hfresh x).
  - intros t x. rewrite lookup_insert_Some, Ht, elem_of_app, list_elem_of_singleton. split.
    + intros [[<- ->]|[Hne [Hx <-]]]; auto.
    + intros [[Hx| ->] <-]; [right|left; auto]. split; [|auto]. by apply not_eq_sym, Hfresh.
Qed.

Section dependencies.
Context (leaf : component → StartStage → list function * result ()).

(** Whether every component that is started comes up. *)
Definition leaves_start : Prop := ∀ c st, (leaf c st).2 = Ok tt.

Lemma for_each_Add p fs (w : world managers) :
  ∃ w', for_each (Scope_Add p) fs w = (Ok tt, w') ∧ state w' = state w ∧ ∀ c, stages_of c (trace w') = stages_of c (trace w).
Proof.
  revert w; induction fs as [|f fs IH]; intros w; [by eexists|]. cbn. unfold mbind, ST_bind. cbn.
  match goal with |- context [for_each _ _ ?w1] => destruct (IH w1) as (w' & -> & Hs & Hc) end.
  exists w'. split; [done|]. split; [done|]. intros c. rewrite Hc. cbn [trace emit]. rewrite stages_of_app.
  apply (right_id_L [] (++)).
Qed.

(** The one event of a component that is started. *)
Definition one (id : component) (stage : StartStage) (c : component) : list StartStage :=
  if bool_decide (id = c) then [stage] else [].

Lemma start_item_result kind p stage it w :
  live p (root w) →
  ∃ w', start_item leaf kind p stage it w =
          (match (leaf (i_id it) stage).2 with
           | Err e => Err (EWrap (StartStage_String stage +:+ " " +:+ item_name kind it) e)
           | r => r
           end, w') ∧
        state w' = state w ∧ ∀ c, stages_of c (trace w') = stages_of c (trace w) ++ one (i_id it) stage c.
Proof.
  intros [l Hp]. unfold start_item, Scope_Start. rewrite Hp. unfold leaf_start, mbind, ST_bind.
  match goal with |- context [for_each _ _ ?w1] =>
    destruct (for_each_Add (p ++ [i_id it]) (leaf (i_id it) stage).1 w1) as (w' & -> & Hs & Hc) end.
  unfold lift. exists w'. split; [by destruct (leaf (i_id it) stage).2|]. split; [done|].
  intros c. rewrite Hc. cbn [trace emit]. rewrite stages_of_app. f_equal. unfold one. cbn. by case_bool_decide.
Qed.

(** With the scopes valid and the endpoint manager initialised, nothing fails. *)
Definition ready (p : path) (w : world managers) : Prop :=
  live p (root w) ∧ scope_ok w ∧ em_scope (em (state w)) ≠ None.

Lemma StartEndpoint_at q it w :
  em_scope (em (state w)) = Some q → StartEndpoint leaf it w = start_item leaf "endpoint" q StartStateStart it w.
Proof. intros Hq. unfold StartEndpoint, get, mbind, ST_bind. by rewrite Hq. Qed.

Lemma start_outbound_ready p it w :
  leaves_start → ready p w →
  ∃ w', start_outbound leaf p it w = (Ok tt, w') ∧ ready p w'.
Proof.
  intros Hleaf (Hp & Hi & Hs). destruct (start_outbound_starts leaf p it w Hp Hi) as [[Hg _] Hi'].
  unfold start_outbound in *. destruct (i_kind it).
  - destruct (em_scope (em (state w))) as [q|] eqn:Hq; [|done]. rewrite (StartEndpoint_at q) in * by done.
    destruct (start_item_result "endpoint" q StartStateStart it w) as (w' & He & Hst & _); [by apply Hi|].
    rewrite He, Hleaf in *. exists w'. split; [done|]. split_and!; [by apply Hg|done|]. by rewrite Hst, Hq.
  - destruct (start_item_result "outbound" p StartStateStart it w) as (w' & He & Hst & _); [done|].
    rewrite He, Hleaf in *. exists w'. split; [done|]. split_and!; [by apply Hg|done|]. by rewrite Hst.
  - by exists w.
Qed.

Lemma run_starts_ready p s w :
  leaves_start → ready p w → ∃ w', run_starts (start_outbound leaf p) s w = (Ok tt, w').
Proof.
  intros Hleaf. revert w; induction s as [|it s IH]; intros w Hr; [by eexists|]. cbn.
  destruct (start_outbound_ready p it w Hleaf Hr) as (w' & -> & Hr'). by apply IH.
Qed.
End dependencies.

(** ** Claims *)

(** Starting the outbounds terminates: for every list of outbounds and
    endpoints, with cycles, missing dependencies and repeated tags included, the
    passes and the search for the error return, whatever the components do; and
    so does starting the DNS servers of a manager whose table agrees with its
    list. *)
Theorem start_terminates leaf p l w :
  is_Some (start_all i_tag i_deps (start_outbound leaf p) find_item circular_outbound outbound_not_found l w).1 ∧
  (table_ok (transports (tm (state w))) (transportByTag (tm (state w))) →
   is_Some (start_all i_tag i_deps (start_item leaf "dns" p StartStateStart)
              (λ _ tag, transportByTag (tm (state w)) !! tag) circular_server server_not_found
              (transports (tm (state w))) w).1).
Proof.
  split; [|intros Ht%table_find].
  - destruct (start_all_spec i_tag i_deps (start_outbound leaf p) find_item circular_outbound
                outbound_not_found l w (find_item_in l)) as (s & r & w' & -> & _). by eexists.
  - destruct (start_all_spec i_tag i_deps (start_item leaf "dns" p StartStateStart)
                (λ _ tag, transportByTag (tm (state w)) !! tag) circular_server server_not_found
                (transports (tm (state w))) w Ht) as (s & r & w' & -> & _). by eexists.
Qed.

(** (C25) What [startOutbounds] does with the outbounds and endpoints: it starts
    them one after the other in an order [s] in which each comes after all its
    dependencies and none comes twice.  When it returns without error, [s] is
    the whole list, and the tags are distinct, all dependencies exist and there
    is no cycle.  Otherwise the first failing start ended it, or the error names
    a dependency that does not exist, or one that lies on a cycle, or it
    panicked because a tag is there twice. *)
Theorem startOutbounds_order leaf p l w :
  ∃ s r w', startOutbounds leaf p l w = (r, w') ∧ s ⊆ l ∧ schedule i_tag i_deps ∅ s ∧
    outcome i_tag i_deps (start_outbound leaf p) circular_outbound outbound_not_found l s w w' r.
Proof.
  destruct (start_all_spec i_tag i_deps (start_outbound leaf p) find_item circular_outbound
              outbound_not_found l w (find_item_in l)) as (s & r & w' & Hs & Hrest).
  exists s, r, w'. split; [|done]. unfold startOutbounds. by rewrite Hs.
Qed.

(** With no component failing, the outcome depends on the tags and the
    dependencies only. *)
Lemma startOutbounds_iff leaf p l w :
  leaves_start leaf → ready p w →
  ((startOutbounds leaf p l w).1 = Ok tt ↔
     NoDup (i_tag <$> l) ∧ resolved i_tag i_deps l ∧ acyclic i_tag i_deps l) ∧
  (¬ NoDup (i_tag <$> l) → resolved i_tag i_deps l → acyclic i_tag i_deps l →
     is_panic (startOutbounds leaf p l w).1 = true).
Proof.
  intros Hleaf Hready.
  destruct (start_all_spec i_tag i_deps (start_outbound leaf p) find_item circular_outbound
              outbound_not_found l w (find_item_in l)) as (s & r & w' & Hs & _ & _ & Ho).
  unfold startOutbounds. rewrite Hs. cbn.
  destruct (run_starts_ready leaf p s w Hleaf Hready) as [w1 Hrun].
  destruct Ho as [r Hne Hr|Hr Hp Hn Hres Hac|y d Hr Hy Hd Hnf|tree d Hr Hcyc|Hr Hdup].
  - rewrite Hrun in Hr. by injection Hr as <- _.
  - done.
  - assert (¬ resolved i_tag i_deps l) by (intros Hres; apply Hnf; by eapply Hres). split; [split; [done|]|]; tauto.
  - assert (¬ acyclic i_tag i_deps l) by (intros Hac; by apply (Hac d)). split; [split; [done|]|]; tauto.
  - split; [split; [done|]|]; [tauto|done].
Qed.

(** (C40) When no component fails to start, [startOutbounds] succeeds exactly
    when the tags are distinct, every dependency exists and there is no cycle;
    and when only the tags are not distinct it panics. *)
Theorem startOutbounds_exact leaf p l w :
  leaves_start leaf → ready p w →
  ((startOutbounds leaf p l w).1 = Ok tt ↔
     NoDup (i_tag <$> l) ∧ resolved i_tag i_deps l ∧ acyclic i_tag i_deps l) ∧
  (¬ NoDup (i_tag <$> l) → resolved i_tag i_deps l → acyclic i_tag i_deps l →
     is_panic (startOutbounds leaf p l w).1 = true).
Proof. apply startOutbounds_iff. Qed.

(** ** Examples *)

(** Components that register their own number and never fail; an outbound
    behind another one, an endpoint both depend on, and a DNS server. *)
Definition leaf0 (c : component) (stage : StartStage) : list function * result () := ([c], Ok tt).
Definition item_a : Item := MkItem 1 "vless" "a" ["b"; "e"]%string KLifecycle.
Definition item_b : Item := MkItem 2 "direct" "b" ["e"]%string KPlain.
Definition item_e : Item := MkItem 3 "wireguard" "e" [] KEndpoint.
Definition item_d : Item := MkItem 4 "local" "d" [] KLifecycle.
Definition managers0 : managers :=
  MkManagers (MkOutboundManager "" [item_a; item_b] ∅ (Some item_a)) (MkEndpointManager (Some []) [item_e] ∅)
    (MkTransportManager "" [item_d] (<["d"%string := item_d]> ∅) (Some item_d) None).
Definition world0 : world managers := MkWorld NewScope [] managers0.

Lemma start_terminates_witness :
  is_Some (start_all i_tag i_deps (start_outbound leaf0 []) find_item circular_outbound outbound_not_found
             [MkItem 1 "vless" "a" ["a"%string] KLifecycle] world0).1 ∧
  is_Some (start_all i_tag i_deps (start_item leaf0 "dns" [] StartStateStart)
             (λ _ tag, transportByTag (tm (state world0)) !! tag) circular_server server_not_found
             (transports (tm (state world0))) world0).1.
Proof.
  destruct (start_terminates leaf0 [] [MkItem 1 "vless" "a" ["a"%string] KLifecycle] world0) as [H1 H2].
  split; [exact H1|]. apply H2. apply (table_insert [] ∅ "d" item_d); [|reflexivity|reflexivity].
  split; [constructor|]. intros tag it. rewrite lookup_empty. split; [discriminate|].
  intros [Hin _]. by apply elem_of_nil in Hin.
Defined.

Lemma startOutbounds_exact_witness :
  acyclic i_tag i_deps [item_a; item_b; item_e] ∧ resolved i_tag i_deps [item_a; item_b; item_e].
Proof.
  destruct (startOutbounds_exact leaf0 [] [item_a; item_b; item_e] world0) as [[H1 _] _].
  - intros c st. reflexivity.
  - split; [by eexists|]. split; [|discriminate]. intros q [= <-]. by eexists.
  - destruct H1 as (_ & Hr & Ha); [vm_compute; reflexivity|]. split; [exact Ha|exact Hr].
Defined.
