(* ===== verification/Box.v ===== *)
(** * The box: [src/box.go], tags of [src/option/options.go]

    [New] creates the components of a configuration in their managers (an
    untagged one gets its index as tag), after [checkOutbounds] has refused
    repeated tags; [Start] starts everything in four stages, through one scope,
    and closes that scope when anything fails; [Close] stops the panel and
    closes the scope.

    The components that are not managers (router, network, services, ...) are
    parameters with the same interface as the items of the managers. *)
From stdpp Require Import base gmap sets list strings relations.
From S2P Require Import Prelude GoStrings DepStart Lifecycle Managers.

(** ** Tags *)

Definition tag_of (i : nat) (tag : string) : string :=
  if bool_decide (tag = ""%string) then Itoa (Z.of_nat i) else tag.

(** The two loops of [checkOutbounds] share the set of tags seen. *)
Fixpoint check_tags (i : nat) (l : list string) (seen : gset string) : result (gset string) :=
  match l with
  | [] => Ok seen
  | t :: l =>
      let tag := tag_of i t in
      if bool_decide (tag ∈ seen) then Err (EFmt "duplicate outbound/endpoint tag: " [tag])
      else check_tags (S i) l ({[tag]} ∪ seen)
  end.
Definition checkOutbounds (outbounds endpoints : list string) : result () :=
  seen ← check_tags 0 outbounds ∅; _ ← check_tags 0 endpoints seen; Ok tt.

(** ** New: the loops that create the components *)

Section create.
Context {M : Type} (create : string → result Item → M → result () * M).
Context (registry : string → string → result Item) (kind : string).

(** The entries are the configured tag and type. *)
Fixpoint create_loop (i : nat) (l : list (string * string)) (m : M) : result () * M :=
  match l with
  | [] => (Ok tt, m)
  | (t, type) :: l =>
      let tag := tag_of i t in
      match create tag (registry tag type) m with
      | (Ok _, m) => create_loop (S i) l m
      | (Err e, m) => (Err (EWrap ("initialize " +:+ kind +:+ "[" +:+ Itoa (Z.of_nat i) +:+ "]") e), m)
      | (Panic p, m) => (Panic p, m)
      end
  end.
End create.

(** ** Start and Close *)

Record Box := MkBox {
  internalService : list (string * component);
  httpClientService : string * component;
  network : component;
  dnsTransport : component;
  dnsRouter : component;
  connection : component;
  router : component;
  outbound : component;
  endpoint : component;
  certificateProvider : component;
  inbound : component;
  service : component;
  box_inbounds : list Item;
  box_services : list Item;
  box_providers : list Item;
}.

Section box.
Context (leaf : component → StartStage → list function * result ()).
Context (directFallback localFallback : result Item).
Context (cleanup_error : function → option error).
Context (expand : error → list error) (join : list error → option error) (ignorable : error → bool).
(** The logger, the panel, the debug server and the time service. *)
Context (log_start : result ()) (log_close : function) (panel_start : result ()).
Context (debug_http : result (option function)) (ntp : option (result () * function)).
Context (b : Box).

Definition wrap {A} (msg : string) (r : result A) : result A :=
  match r with Err e => Err (EWrap msg e) | _ => r end.

(** The [Start] of the component [c] of the box. *)
Definition body (c : component) (stage : StartStage) (p : path) : ST managers () :=
  if bool_decide (c = dnsTransport b) then TransportManager_Start leaf localFallback stage p
  else if bool_decide (c = outbound b) then OutboundManager_Start leaf directFallback stage p
  else if bool_decide (c = endpoint b) then EndpointManager_Start leaf stage p
  else if bool_decide (c = certificateProvider b) then start_list leaf "certificate-provider" (box_providers b) stage p
  else if bool_decide (c = inbound b) then start_list leaf "inbound" (box_inbounds b) stage p
  else if bool_decide (c = service b) then start_list leaf "service" (box_services b) stage p
  else leaf_start leaf c stage p.

Definition startComponents (stage : StartStage) (l : list (string * component)) : ST managers () :=
  for_each (λ '(name, c), Scope_Start [] name c stage (body c stage)) l.
Definition startInternalServices (stage : StartStage) : ST managers () :=
  startComponents stage (internalService b).

Definition emitting (l : list Event) : ST managers () := λ w, (Ok tt, emit l w).
Definition preStart (startPanel : bool) : ST managers () :=
  lift (wrap "start logger" log_start) ≫= λ _,
  Scope_Add [] log_close ≫= λ _,
  (if startPanel
   then lift (wrap "start panel" panel_start) ≫= λ _, emitting [EPanel true]
   else mret tt) ≫= λ _,
  lift debug_http ≫= λ close,
  match close with Some f => Scope_Add [] f | None => mret tt end ≫= λ _,
  startInternalServices StartStateInitialize ≫= λ _,
  startComponents StartStateInitialize
    [httpClientService b; ("network"%string, network b); ("dns-transport"%string, dnsTransport b);
     ("dns-router"%string, dnsRouter b); ("connection"%string, connection b); ("router"%string, router b);
     ("outbound"%string, outbound b); ("endpoint"%string, endpoint b);
     ("certificate-provider"%string, certificateProvider b); ("inbound"%string, inbound b);
     ("service"%string, service b)] ≫= λ _,
  startComponents StartStateStart
    [("outbound"%string, outbound b); ("dns-transport"%string, dnsTransport b); ("network"%string, network b);
     ("connection"%string, connection b); httpClientService b; ("router"%string, router b);
     ("dns-router"%string, dnsRouter b)].

Definition start_ntp : ST managers () :=
  match ntp with
  | Some (r, close) => lift (wrap "start ntp service" r) ≫= λ _, Scope_Add [] close
  | None => mret tt
  end.
Definition start : ST managers () :=
  preStart true ≫= λ _,
  startInternalServices StartStateStart ≫= λ _,
  start_ntp ≫= λ _,
  startComponents StartStateStart
    [("endpoint"%string, endpoint b); ("certificate-provider"%string, certificateProvider b);
     ("inbound"%string, inbound b); ("service"%string, service b)] ≫= λ _,
  startComponents StartStatePostStart
    [("outbound"%string, outbound b); ("network"%string, network b); ("dns-transport"%string, dnsTransport b);
     ("dns-router"%string, dnsRouter b); ("connection"%string, connection b); ("router"%string, router b);
     ("endpoint"%string, endpoint b); ("certificate-provider"%string, certificateProvider b);
     ("inbound"%string, inbound b); ("service"%string, service b)] ≫= λ _,
  startInternalServices StartStatePostStart ≫= λ _,
  startComponents StartStateStarted
    [("network"%string, network b); ("dns-transport"%string, dnsTransport b); ("dns-router"%string, dnsRouter b);
     ("connection"%string, connection b); ("router"%string, router b); ("outbound"%string, outbound b);
     ("endpoint"%string, endpoint b); ("certificate-provider"%string, certificateProvider b);
     ("inbound"%string, inbound b); ("service"%string, service b)] ≫= λ _,
  startInternalServices StartStateStarted.

Definition Box_Close (w : world managers) : option error * world managers :=
  Scope_Close cleanup_error expand join ignorable (emit [EPanel false] w).
Definition closing (r : result () * world managers) : result () * world managers :=
  match r with (Err e, w) => (Err e, (Box_Close w).2) | _ => r end.
Definition Box_PreStart (w : world managers) : result () * world managers := closing (preStart false w).
Definition Box_Start (w : world managers) : result () * world managers := closing (start w).

(** ** Everything that was opened is closed *)

Lemma body_starts c stage p : starts scope_ok p (body c stage p).
Proof.
  unfold body.
  case_bool_decide; [apply TransportManager_starts|]. case_bool_decide; [apply OutboundManager_starts|].
  case_bool_decide; [apply EndpointManager_starts|]. case_bool_decide; [apply list_starts|].
  case_bool_decide; [apply list_starts|]. case_bool_decide; [apply list_starts|]. apply leaf_starts.
Qed.
Lemma startComponents_starts stage l : starts scope_ok [] (startComponents stage l).
Proof.
  apply starts_for_each. intros [name c]. apply starts_Start; [apply scope_ok_stable|auto|apply body_starts].
Qed.
Lemma emitting_starts v p : starts scope_ok p (emitting [EPanel v]).
Proof.
  intros w Hp Hi. split; [|done]. split; [done|]. exists [EPanel v]. cbn. by rewrite !(right_id_L [] (++)).
Qed.

Lemma preStart_starts startPanel : starts scope_ok [] (preStart startPanel).
Proof.
  repeat (apply startComponents_starts || (apply starts_bind; [|intros ?]));
    try apply starts_lift; try (apply starts_Add; apply scope_ok_stable).
  - destruct startPanel; [apply starts_bind; [apply starts_lift|intros _; apply emitting_starts]|apply starts_ret].
  - destruct a2; [apply starts_Add, scope_ok_stable|apply starts_ret].
Qed.
Lemma start_starts : starts scope_ok [] start.
Proof.
  repeat (apply preStart_starts || apply startComponents_starts || (apply starts_bind; [|intros ?])).
  unfold start_ntp. destruct ntp as [[r f]|]; [|apply starts_ret].
  apply starts_bind; [apply starts_lift|intros _; apply starts_Add, scope_ok_stable].
Qed.

(** What [Close] leaves after the world [w]. *)
Definition released (w w' : world managers) : Prop :=
  root w' = MkScope true [] ∧
  ∃ evs, trace w' = trace w ++ [EPanel false] ++ evs ∧ ran evs ≡ₚ added (trace w).

Lemma Box_Close_released w0 w :
  w0 = MkWorld NewScope [] (state w0) → grows w0 w → released w (Box_Close w).2.
Proof.
  intros -> [_ (evs & Ht & Hs & Hf)]. cbn in Ht, Hf. unfold Box_Close.
  pose proof (Scope_Close_spec cleanup_error expand join ignorable (emit [EPanel false] w)) as Hc.
  destruct (Scope_Close _ _ _ _ _) as [r w']. destruct Hc as [Hr (evs' & Ht' & Hran)].
  cbn [snd]. split; [done|]. exists evs'. rewrite Ht'. cbn [trace emit]. rewrite <- (assoc_L (++)). split; [done|].
  rewrite Hran, reverse_Permutation. cbn [root emit]. by rewrite Hf, Ht.
Qed.
End box.

(** A box before it is started. *)
Definition fresh (x : managers) : world managers := MkWorld NewScope [] x.

(** (C26) The box releases what it opened.  Whatever the components do: a start
    that succeeds has run none of the functions they registered, and closing
    the box then stops the panel first and runs every one of them exactly once;
    a start that fails has done all that by itself before it returns.  After
    that the scope is closed and empty. *)
Theorem box_releases leaf directFallback localFallback cleanup_error expand join ignorable log_start log_close
    panel_start debug_http ntp b x :
  em_scope (em x) = None →
  let close := Box_Close cleanup_error expand join ignorable in
  match Box_Start leaf directFallback localFallback cleanup_error expand join ignorable log_start log_close
          panel_start debug_http ntp b (fresh x) with
  | (Ok _, w) => ran (trace w) = [] ∧ released w (close w).2
  | (Err _, w') => ∃ w, ran (trace w) = [] ∧ released w w'
  | (Panic _, _) => True
  end.
Proof.
  intros Hx close. unfold Box_Start, closing.
  destruct (start_starts leaf directFallback localFallback log_start log_close panel_start debug_http ntp b (fresh x))
    as [Hg _]; [by eexists|by intros q; cbn; rewrite Hx|].
  assert (∀ w, grows (fresh x) w → ran (trace w) = []) as Hran.
  { intros w [_ (evs & Ht & Hs & _)]. cbn in Ht. rewrite Ht. by apply ran_start. }
  destruct (start _ _ _ _ _ _ _ _ _ (fresh x)) as [[[]|e|p] w]; cbn in Hg.
  - split; [by apply Hran|]. by apply (Box_Close_released cleanup_error expand join ignorable (fresh x)).
  - exists w. split; [by apply Hran|]. by apply (Box_Close_released cleanup_error expand join ignorable (fresh x)).
  - done.
Qed.

(** ** Tags of a configuration *)

Fixpoint tags_from (i : nat) (l : list string) : list string :=
  match l with [] => [] | t :: l => tag_of i t :: tags_from (S i) l end.

Lemma check_tags_spec i l seen :
  match check_tags i l seen with
  | Ok seen' => NoDup (tags_from i l) ∧ (∀ t, t ∈ tags_from i l → t ∉ seen) ∧ seen' = list_to_set (tags_from i l) ∪ seen
  | Err _ => ¬ (NoDup (tags_from i l) ∧ ∀ t, t ∈ tags_from i l → t ∉ seen)
  | Panic _ => False
  end.
Proof.
  revert i seen; induction l as [|t l IH]; intros i seen; cbn [check_tags tags_from].
  { split_and!; [constructor|set_solver|set_solver]. }
  case_bool_decide as Hin; [intros [_ Hd]; by apply (Hd (tag_of i t)); [left|]|].
  specialize (IH (S i) ({[tag_of i t]} ∪ seen)). destruct (check_tags _ _ _) as [seen'|e|p]; [| |done].
  - destruct IH as (Hn & Hd & ->). split_and!.
    + constructor; [|done]. intros Ht. apply (Hd _ Ht). set_solver.
    + intros u [->|Hu]%elem_of_cons; [done|]. specialize (Hd u Hu). set_solver.
    + cbn. set_solver.
  - intros [[Ht Hn]%NoDup_cons Hd]. apply IH. split; [done|]. intros u Hu.
    assert (u ≠ tag_of i t) by (intros ->; done). assert (u ∉ seen) by (apply Hd; by right). set_solver.
Qed.

(** [checkOutbounds] accepts exactly the configurations with distinct tags. *)
Lemma checkOutbounds_spec outs eps :
  checkOutbounds outs eps = Ok tt ↔ NoDup (tags_from 0 outs ++ tags_from 0 eps).
Proof.
  unfold checkOutbounds. pose proof (check_tags_spec 0 outs ∅) as H1.
  destruct (check_tags 0 outs ∅) as [seen|e|p]; cbn; [|split; [done|]|done].
  2: { intros [Hn _]%NoDup_app. destruct H1. split; [done|set_solver]. }
  destruct H1 as (Hn1 & _ & ->). pose proof (check_tags_spec 0 eps (list_to_set (tags_from 0 outs) ∪ ∅)) as H2.
  destruct (check_tags 0 eps _) as [seen|e|p]; cbn; rewrite NoDup_app; [| |done].
  - destruct H2 as (Hn2 & Hd & _). split; [intros _|done]. split_and!; [done| |done].
    intros t Ht Ht2. apply (Hd t Ht2). set_solver.
  - split; [done|]. intros (_ & Hd & Hn2). destruct H2. split; [done|]. intros t Ht Hin.
    apply (Hd t); [set_solver|done].
Qed.

Lemma tag_of_nonempty i t : tag_of i t ≠ ""%string.
Proof.
  unfold tag_of. case_bool_decide as Ht; [|done]. intros He.
  assert (0 ≤ Z.of_nat i < 2 ^ (Z.of_nat i + 1))%Z as Hi.
  { split; [lia|]. pose proof (Z.pow_gt_lin_r 2 (Z.of_nat i + 1)). lia. }
  apply (ParseUint_Itoa _ (Z.of_nat i + 1)) in Hi. by rewrite He in Hi.
Qed.

Section created.
Context (registry : string → string → result Item).
(** Every configured component can be made, and carries the tag it is given. *)
Context (registry_total : ∀ tag type, ∃ it, registry tag type = Ok it ∧ i_tag it = tag).

(** The configured default outbound, or the first one. *)
Definition om_ok (m : OutboundManager) : Prop :=
  table_ok (outbounds m) (outboundByTag m) ∧
  defaultOutbound m = (if bool_decide (om_defaultTag m = ""%string) then head (outbounds m)
                       else outboundByTag m !! om_defaultTag m).

Lemma OutboundManager_Create_ok tag it m :
  tag ≠ ""%string → i_tag it = tag → om_ok m → outboundByTag m !! tag = None →
  ∃ m', OutboundManager_Create tag (Ok it) m = (Ok tt, m') ∧ om_ok m' ∧
        outbounds m' = outbounds m ++ [it] ∧ om_defaultTag m' = om_defaultTag m ∧
        outboundByTag m' = <[tag := it]> (outboundByTag m).
Proof.
  intros Ht Hit [Htab Hdef] Hnew. unfold OutboundManager_Create. rewrite bool_decide_eq_false_2 by done.
  rewrite (bool_decide_eq_false_2 (is_Some _)) by (rewrite Hnew; by intros [? ?]).
  eexists. split; [done|]. split; [|done]. split; [cbn; by apply table_insert|]. cbn. rewrite Hdef.
  destruct (decide (om_defaultTag m = ""%string)) as [He|He].
  - rewrite !(bool_decide_eq_true_2 (om_defaultTag m = _)) by done. cbn.
    rewrite bool_decide_eq_false_2 by congruence. by destruct (outbounds m).
  - rewrite !(bool_decide_eq_false_2 (om_defaultTag m = _)) by done. cbn. rewrite orb_false_r.
    destruct (decide (tag = om_defaultTag m)) as [<-|Hne].
    + rewrite bool_decide_eq_true_2 by done. by rewrite lookup_insert_eq.
    + rewrite bool_decide_eq_false_2 by done. by rewrite lookup_insert_ne.
Qed.

(** A tag that is not used yet is not in the table. *)
Lemma table_fresh l byTag tag : table_ok l byTag → tag ∉ (i_tag <$> l) → byTag !! tag = None.
Proof.
  intros [_ Ht] Hn. destruct (byTag !! tag) as [it|] eqn:Hl; [|done]. apply Ht in Hl as [Hin <-].
  destruct Hn. by apply list_elem_of_fmap_2.
Qed.
Lemma fresh_head (l : list string) tag l' : NoDup (l ++ tag :: l') → (tag ∉ l) ∧ NoDup ((l ++ [tag]) ++ l').
Proof.
  intros Hn. split; [|by rewrite <- (assoc_L (++))]. apply NoDup_app in Hn as (_ & Hd & _).
  intros Hin. apply (Hd tag Hin). left.
Qed.

Lemma create_outbounds_ok i l m :
  om_ok m → NoDup ((i_tag <$> outbounds m) ++ tags_from i l.*1) →
  ∃ m', create_loop OutboundManager_Create registry "outbound" i l m = (Ok tt, m') ∧ om_ok m' ∧
        om_defaultTag m' = om_defaultTag m ∧ (i_tag <$> outbounds m') = (i_tag <$> outbounds m) ++ tags_from i l.*1.
Proof.
  revert i m; induction l as [|[t type] l IH]; intros i m Hm Hn.
  { exists m. cbn. by rewrite (right_id_L [] (++)). }
  cbn [create_loop fmap list_fmap tags_from fst] in *. apply fresh_head in Hn as [Hnew Hn].
  destruct (registry_total (tag_of i t) type) as (it & -> & Hit).
  destruct (OutboundManager_Create_ok (tag_of i t) it m) as (m1 & -> & Hm1 & Ho & Hd & _);
    [apply tag_of_nonempty|done|done|by eapply table_fresh; [apply Hm|]|].
  destruct (IH (S i) m1 Hm1) as (m2 & -> & Hm2 & Hd2 & Ho2).
  { by rewrite Ho, fmap_app, <- Hit in *. }
  exists m2. split_and!; [done|done|congruence|]. rewrite Ho2, Ho, fmap_app, <- (assoc_L (++)). cbn. by rewrite Hit.
Qed.

Lemma create_endpoints_ok i l m :
  table_ok (endpoints m) (endpointByTag m) → NoDup ((i_tag <$> endpoints m) ++ tags_from i l.*1) →
  ∃ m', create_loop EndpointManager_Create registry "endpoint" i l m = (Ok tt, m') ∧
        table_ok (endpoints m') (endpointByTag m') ∧ em_scope m' = em_scope m ∧
        (i_tag <$> endpoints m') = (i_tag <$> endpoints m) ++ tags_from i l.*1.
Proof.
  revert i m; induction l as [|[t type] l IH]; intros i m Hm Hn.
  { exists m. cbn. by rewrite (right_id_L [] (++)). }
  cbn [create_loop fmap list_fmap tags_from fst] in *. apply fresh_head in Hn as [Hnew Hn].
  destruct (registry_total (tag_of i t) type) as (it & -> & Hit).
  pose proof (table_fresh _ _ _ Hm Hnew) as Hl. unfold EndpointManager_Create at 1. rewrite Hl.
  rewrite (bool_decide_eq_false_2 (is_Some None)) by (by intros [? ?]).
  match goal with |- context [create_loop _ _ _ _ _ ?m1] => destruct (IH (S i) m1) as (m2 & -> & Hm2 & Hd2 & Ho2) end.
  { cbn. by apply table_insert. }
  { cbn. by rewrite fmap_app, <- Hit in *. }
  exists m2. split_and!; [done|done|done|]. rewrite Ho2. cbn. rewrite fmap_app, <- (assoc_L (++)). cbn. by rewrite Hit.
Qed.
End created.

(** What [New] builds from a configuration that [checkOutbounds] accepts,
    when every component can be made: no [Create] fails, the tables of both
    managers agree with their lists, no tag is shared between an outbound and an
    endpoint, and the default outbound is the one the route options name, or the
    first one when they name none.  And [checkOutbounds] accepts exactly the
    configurations without repeated tags. *)
Theorem configured_managers registryO registryE final outs eps :
  (∀ tag type, ∃ it, registryO tag type = Ok it ∧ i_tag it = tag) →
  (∀ tag type, ∃ it, registryE tag type = Ok it ∧ i_tag it = tag) →
  (checkOutbounds outs.*1 eps.*1 = Ok tt ↔ NoDup (tags_from 0 outs.*1 ++ tags_from 0 eps.*1)) ∧
  (checkOutbounds outs.*1 eps.*1 = Ok tt →
   ∃ m e, create_loop OutboundManager_Create registryO "outbound" 0 outs (NewOutboundManager final) = (Ok tt, m) ∧
     create_loop EndpointManager_Create registryE "endpoint" 0 eps NewEndpointManager = (Ok tt, e) ∧
     table_ok (outbounds m) (outboundByTag m) ∧ table_ok (endpoints e) (endpointByTag e) ∧
     NoDup (i_tag <$> outbounds m ++ endpoints e) ∧
     defaultOutbound m = (if bool_decide (final = ""%string) then head (outbounds m) else outboundByTag m !! final)).
Proof.
  intros HO HE. split; [apply checkOutbounds_spec|]. intros Hc%checkOutbounds_spec.
  pose proof Hc as (Hn1 & _ & Hn2)%NoDup_app.
  assert (∀ tag it, (∅ : gmap string Item) !! tag = Some it ↔ it ∈ [] ∧ i_tag it = tag) as H0.
  { intros tag it. rewrite lookup_empty. split; [done|]. by intros [?%elem_of_nil _]. }
  destruct (create_outbounds_ok registryO HO 0 outs (NewOutboundManager final)) as (m & Hm & [Htab Hd] & Hf & Ht);
    [split; [by split; [constructor|]|by case_bool_decide]|done|].
  destruct (create_endpoints_ok registryE HE 0 eps NewEndpointManager) as (e & He & Htab' & _ & Ht');
    [by split; [constructor|]|done|].
  exists m, e. rewrite Hf in Hd. split_and!; [done..| |done]. by rewrite fmap_app, Ht, Ht'.
Qed.

(** The default outbound made when none is configured has the tag "direct"
    without a look at the endpoints.  A configuration with no outbound and an
    endpoint of that tag passes [checkOutbounds], and then starting panics: the
    set of started tags never gets as large as the list, and the outbound that
    is not started yet, looked for to word the error, is nil. *)
Theorem fallback_tag_clash leaf directFallback o e p w :
  leaves_start leaf → ready p w →
  outbounds (om (state w)) = [o] → endpoints (em (state w)) = [e] →
  i_tag o = i_tag e → i_deps o = [] → i_deps e = [] →
  checkOutbounds [] [i_tag e] = Ok tt ∧
  is_panic (OutboundManager_Start leaf directFallback StartStateStart p w).1 = true.
Proof.
  intros Hl Hr Ho He Ht Hdo Hde. split; [apply checkOutbounds_spec, NoDup_singleton|].
  unfold OutboundManager_Start. rewrite (bool_decide_eq_false_2 (StartStateStart = StartStateInitialize)) by done.
  unfold mbind, ST_bind, mret, ST_ret, get. rewrite (bool_decide_eq_true_2 (StartStateStart = StartStateStart)) by done.
  rewrite Ho, He. cbn [app].
  assert (∀ it, it ∈ [o; e] → i_deps it = []) as Hd by set_solver.
  apply (startOutbounds_iff leaf p [o; e] w Hl Hr).
  - cbn. rewrite Ht. intros [Hn _]%NoDup_cons. apply Hn. left.
  - intros x d Hx Hin. rewrite (Hd x Hx) in Hin. by apply elem_of_nil in Hin.
  - intros a Ha. induction Ha as [? ? (x & Hx & _ & Hin)|? ? ? (x & Hx & _ & Hin)];
      rewrite (Hd x Hx) in Hin; by apply elem_of_nil in Hin.
Qed.

(** ** Examples *)

(** An endpoint called "direct" and no outbound. *)
Definition direct_endpoint : Item := MkItem 20 "wireguard" "direct" [] KEndpoint.
Definition direct_outbound : Item := MkItem 21 "direct" "direct" [] KPlain.
Definition endpoint_only : managers :=
  MkManagers (NewOutboundManager "") (MkEndpointManager None [direct_endpoint] {["direct"%string := direct_endpoint]})
    (NewTransportManager "").
(** The world after the initialise stage of both managers. *)
Definition clash_world : world managers :=
  (EndpointManager_Start leaf0 StartStateInitialize []
     (OutboundManager_Start leaf0 (Ok direct_outbound) StartStateInitialize [] (fresh endpoint_only)).2).2.

Lemma fallback_tag_clash_witness :
  is_panic (OutboundManager_Start leaf0 (Ok direct_outbound) StartStateStart [] clash_world).1 = true.
Proof.
  apply (fallback_tag_clash leaf0 (Ok direct_outbound) direct_outbound direct_endpoint [] clash_world);
    try reflexivity.
  - intros c st. reflexivity.
  - split; [by eexists|]. split; [|discriminate]. intros q [= <-]. by eexists.
Defined.

Definition registry0 (tag type : string) : result Item := Ok (MkItem 1 type tag [] KLifecycle).
Lemma configured_managers_witness :
  ∃ m e, create_loop OutboundManager_Create registry0 "outbound" 0 [("a", "t"); ("", "t")]%string
           (NewOutboundManager "1") = (Ok tt, m) ∧
         create_loop EndpointManager_Create registry0 "endpoint" 0 [("b", "t")]%string NewEndpointManager = (Ok tt, e) ∧
         NoDup (i_tag <$> outbounds m ++ endpoints e) ∧ defaultOutbound m = outboundByTag m !! "1"%string.
Proof.
  assert (∀ tag type, ∃ it, registry0 tag type = Ok it ∧ i_tag it = tag) as Hr.
  { intros tag type. exists (MkItem 1 type tag [] KLifecycle). split; reflexivity. }
  destruct (configured_managers registry0 registry0 "1" [("a", "t"); ("", "t")]%string [("b", "t")]%string Hr Hr)
    as [_ Hc].
  destruct Hc as (m & e & Hm & He & _ & _ & Hn & Hd); [reflexivity|].
  exists m, e. split_and!; [exact Hm|exact He|exact Hn|exact Hd].
Defined.

(** A box with one inbound, started and closed. *)
Definition box0 : Box :=
  MkBox [("cache-file"%string, 30)] ("http-client"%string, 31) 32 33 34 35 36 37 38 39 40 41
    [MkItem 1 "anytls" "in" [] KLifecycle] [] [].
Definition managers1 : managers :=
  MkManagers (MkOutboundManager "" [MkItem 2 "direct" "out" [] KPlain] ∅ (Some (MkItem 2 "direct" "out" [] KPlain)))
    (MkEndpointManager None [MkItem 3 "wireguard" "wg" ["out"%string] KEndpoint] ∅)
    (MkTransportManager "" [MkItem 4 "local" "dns" [] KLifecycle] ∅ (Some (MkItem 4 "local" "dns" [] KLifecycle)) None).
Definition start0 (log : result ()) : result () * world managers :=
  Box_Start leaf0 (Err ErrInvalid) (Err ErrInvalid) (λ _, None) (λ e, [e]) head (λ _, false) log 50
    (Ok tt) (Ok None) None box0 (fresh managers1).

Lemma box_releases_witness :
  ran (trace (start0 (Ok tt)).2) = [] ∧
  released (start0 (Ok tt)).2 (Box_Close (λ _, None) (λ e, [e]) head (λ _, false) (start0 (Ok tt)).2).2.
Proof.
  pose proof (box_releases leaf0 (Err ErrInvalid) (Err ErrInvalid) (λ _, None) (λ e, [e]) head (λ _, false) (Ok tt) 50
    (Ok tt) (Ok None) None box0 managers1 eq_refl) as Hb.
  cbn zeta in Hb. fold (start0 (Ok tt)) in Hb.
  destruct (start0 (Ok tt)) as [r w] eqn:Es. assert (r = Ok tt) as -> by (change r with (r, w).1; rewrite <- Es; vm_compute; reflexivity).
  exact Hb.
Defined.
