(* ===== verification/Stages.v ===== *)
(** * The stages of a start

    [box_stages]: when [Box.Start] (src/box.go) succeeds, every component was
    started once per stage, in the order of the stages, although the components
    go through four calls of four managers in an order that changes from stage
    to stage, and endpoints are started by the outbound manager. *)
From stdpp Require Import base gmap sets list strings relations.
From S2P Require Import Prelude GoStrings DepStart Lifecycle Managers Box.

(** [m], from managers [x], leaves managers [x'] and starts the component [c]
    in the stages [g c], unless it fails. *)
Definition emits {A} (m : ST managers A) (x x' : managers) (g : component → list StartStage) : Prop :=
  ∀ w a w', state w = x → m w = (Ok a, w') →
    state w' = x' ∧ ∀ c, stages_of c (trace w') = stages_of c (trace w) ++ g c.

Definition hits (ids : list component) (stage : StartStage) (c : component) : list StartStage :=
  ids ≫= λ id, one id stage c.
Definition ids_of (l : list Item) : list component := i_id <$> l.
(** The outbounds that have a lifecycle. *)
Definition lids_of (l : list Item) : list component := i_id <$> base.filter (λ it, has_lifecycle it = true) l.

Section emits.

Lemma emits_ret {A} (a : A) x : emits (mret a) x x (λ _, []).
Proof. intros w a' w' Hx [= <- <-]. split; [done|]. intros c. by rewrite (right_id_L [] (++)). Qed.
Lemma emits_lift {A} (r : result A) x : emits (lift r) x x (λ _, []).
Proof. intros w a' w' Hx [= _ <-]. split; [done|]. intros c. by rewrite (right_id_L [] (++)). Qed.
Lemma emits_modify f x : emits (modify f) x (f x) (λ _, []).
Proof. intros w a' w' <- [= <- <-]. split; [done|]. intros c. by rewrite (right_id_L [] (++)). Qed.
Lemma emits_get {A} (f : managers → ST managers A) x x' g : emits (f x) x x' g → emits (get ≫= f) x x' g.
Proof. intros Hf w a w' <- Hm. by eapply Hf. Qed.
Lemma emits_Add p f x : emits (Scope_Add p f) x x (λ _, []).
Proof.
  intros w a w' Hx [= _ <-]. split; [done|]. intros c. cbn [trace emit]. by rewrite stages_of_app.
Qed.
Lemma emits_panel v x : emits (emitting [EPanel v]) x x (λ _, []).
Proof.
  intros w a w' Hx [= _ <-]. split; [done|]. intros c. cbn [trace emit]. by rewrite stages_of_app.
Qed.

Lemma emits_bind {A B} (m : ST managers A) (f : A → ST managers B) x y z g h :
  emits m x y g → (∀ a, emits (f a) y z h) → emits (m ≫= f) x z (λ c, g c ++ h c).
Proof.
  intros Hm Hf w b w' Hx. unfold mbind, ST_bind. destruct (m w) as [[a|e|p] w1] eqn:Em; [|done..].
  intros Hf'. destruct (Hm w a w1 Hx Em) as [Hs Hg]. destruct (Hf a w1 b w' Hs Hf') as [Hs' Hh].
  split; [done|]. intros c. by rewrite Hh, Hg, (assoc_L (++)).
Qed.
Lemma emits_for_each {A} (f : A → ST managers ()) (l : list A) x (g : A → component → list StartStage) :
  (∀ a, emits (f a) x x (g a)) → emits (for_each f l) x x (λ c, l ≫= λ a, g a c).
Proof.
  intros Hf. induction l as [|a l IH]; [apply emits_ret|]. cbn. by eapply emits_bind.
Qed.

Lemma emits_Start p name c stage body x x' g :
  emits (body (p ++ [c])) x x' g → emits (Scope_Start p name c stage body) x x' (λ d, hits [c] stage d ++ g d).
Proof.
  intros Hb w a w' Hx. unfold Scope_Start. destruct (scope_at p (root w)) as [l|]; [|done].
  set (w1 := emit _ _). destruct (body (p ++ [c]) w1) as [[b|e|q] w2] eqn:Eb; [|done..].
  intros [= -> <-]. destruct (Hb w1 a w2 Hx Eb) as [Hs Hg]. split; [done|]. intros d.
  rewrite Hg. unfold w1. cbn [trace emit]. rewrite stages_of_app, <- (assoc_L (++)). f_equal. f_equal.
  unfold hits, one. cbn. by case_bool_decide.
Qed.

Lemma emits_ext {A} (m : ST managers A) x x' g g' : emits m x x' g → (∀ c, g c = g' c) → emits m x x' g'.
Proof. intros Hm Hg w a w' Hx Hw. destruct (Hm w a w' Hx Hw) as [Hs Hc]. split; [done|]. intros c. by rewrite Hc, Hg. Qed.

Lemma hits_single i st c : hits [i] st c = one i st c.
Proof. unfold hits. cbn. apply (right_id_L [] (++)). Qed.
Lemma hits_app l l' st c : hits (l ++ l') st c = hits l st c ++ hits l' st c.
Proof. unfold hits. apply bind_app. Qed.
Lemma hits_bind {A} (ids : A → list component) (l : list A) st c :
  (l ≫= λ a, hits (ids a) st c) = hits (l ≫= ids) st c.
Proof.
  induction l as [|a l IH]; [done|].
  change ((a :: l) ≫= λ a, hits (ids a) st c) with (hits (ids a) st c ++ (l ≫= λ a, hits (ids a) st c)).
  change ((a :: l) ≫= ids) with (ids a ++ (l ≫= ids)). by rewrite IH, hits_app.
Qed.
Lemma bind_ids (l : list Item) : (l ≫= λ it, [i_id it]) = ids_of l.
Proof. induction l as [|it l IH]; [done|]. cbn. by f_equal. Qed.
(** How often a component is started does not depend on the order. *)
Definition cnt (c : component) (l : list component) : nat := length (base.filter (λ i, i = c) l).
Lemma cnt_app c l l' : cnt c (l ++ l') = cnt c l + cnt c l'.
Proof. unfold cnt. by rewrite filter_app, length_app. Qed.
Lemma cnt_cons c i l : cnt c (i :: l) = cnt c [i] + cnt c l.
Proof. apply (cnt_app c [i] l). Qed.
Lemma cnt_in c l : NoDup l → cnt c l = if bool_decide (c ∈ l) then 1 else 0.
Proof.
  induction l as [|i l IH]; [done|]. intros [Hi Hn]%NoDup_cons. rewrite cnt_cons, (IH Hn). unfold cnt.
  rewrite filter_cons. destruct (decide (i = c)) as [->|Hne]; cbn.
  - rewrite bool_decide_eq_false_2 by done. rewrite bool_decide_eq_true_2 by set_solver. done.
  - assert (bool_decide (c ∈ i :: l) = bool_decide (c ∈ l)) as ->; [|by case_bool_decide].
    apply bool_decide_ext. set_solver.
Qed.
Lemma hits_cnt l st c : hits l st c = replicate (cnt c l) st.
Proof.
  induction l as [|i l IH]; [done|]. change (hits (i :: l) st c) with (one i st c ++ hits l st c).
  rewrite IH, cnt_cons. unfold one, cnt. rewrite (filter_cons _ i []). by destruct (decide (i = c)) as [->|Hne];
    [rewrite bool_decide_eq_true_2 by done|rewrite bool_decide_eq_false_2 by done].
Qed.
Lemma hits_perm l l' st c : l ≡ₚ l' → hits l st c = hits l' st c.
Proof. intros Hp. rewrite !hits_cnt. unfold cnt. by rewrite Hp. Qed.
End emits.

(** ** The managers *)

Section managers.
Context (leaf : component → StartStage → list function * result ()).
Context (directFallback localFallback : result Item).

Lemma leaf_emits c stage p x : emits (leaf_start leaf c stage p) x x (λ _, []).
Proof.
  intros w a w' Hx. unfold leaf_start, mbind, ST_bind.
  destruct (for_each_Add p (leaf c stage).1 w) as (w1 & -> & Hs & Hc). intros [= _ <-].
  split; [congruence|]. intros d. by rewrite Hc, (right_id_L [] (++)).
Qed.
Lemma item_emits kind p stage it x : emits (start_item leaf kind p stage it) x x (hits [i_id it] stage).
Proof.
  eapply emits_ext; [apply emits_Start, leaf_emits|]. intros c. cbn. by rewrite (right_id_L [] (++)).
Qed.
Lemma list_emits kind l stage p x : emits (start_list leaf kind l stage p) x x (hits (ids_of l) stage).
Proof.
  eapply emits_ext; [apply (emits_for_each _ _ _ (λ it, hits [i_id it] stage)); intros it; apply item_emits|].
  intros c. etrans; [apply (hits_bind (λ it, [i_id it]))|by rewrite bind_ids].
Qed.

(** The state after the initialise stage of each manager. *)
Definition endpoint_initialized (p : path) (x : managers) : managers :=
  MkManagers (om x) (MkEndpointManager (Some p) (endpoints (em x)) (endpointByTag (em x))) (tm x).
Definition outbound_initialized (x : managers) : managers :=
  match (OutboundManager_initialize directFallback (fresh x)).1 with
  | Ok _ => state (OutboundManager_initialize directFallback (fresh x)).2
  | _ => x
  end.
Definition transport_initialized (x : managers) : managers :=
  match (TransportManager_initialize localFallback (fresh x)).1 with
  | Ok _ => state (TransportManager_initialize localFallback (fresh x)).2
  | _ => x
  end.

(** The list of a manager, read from its state. *)
Lemma get_list_emits kind (f : managers → list Item) stage p x :
  emits (get ≫= λ x, for_each (start_item leaf kind p stage) (f x)) x x (hits (ids_of (f x)) stage).
Proof. apply emits_get. apply (list_emits kind). Qed.

Lemma endpoint_emits stage p x :
  emits (EndpointManager_Start leaf stage p) x
    (if bool_decide (stage = StartStateInitialize) then endpoint_initialized p x else x)
    (λ c, if bool_decide (stage = StartStateStart) then [] else hits (ids_of (endpoints (em x))) stage c).
Proof.
  destruct stage; unfold EndpointManager_Start; cbn [bool_decide decide StartStage_eq_dec].
  - eapply emits_ext; [eapply emits_bind; [apply emits_modify|intros _]|].
    + apply (get_list_emits "endpoint" (λ x, endpoints (em x))).
    + done.
  - eapply emits_ext; [eapply emits_bind; [apply emits_ret|intros _; apply emits_ret]|done].
  - eapply emits_ext; [eapply emits_bind; [apply emits_ret|intros _]|].
    + apply (get_list_emits "endpoint" (λ x, endpoints (em x))).
    + done.
  - eapply emits_ext; [eapply emits_bind; [apply emits_ret|intros _]|].
    + apply (get_list_emits "endpoint" (λ x, endpoints (em x))).
    + done.
Qed.

(** A computation on the state alone. *)
Definition silent (m : ST managers ()) : Prop :=
  ∀ w, let r := m w in
    r.1 = (m (fresh (state w))).1 ∧ state r.2 = state (m (fresh (state w))).2 ∧ trace r.2 = trace w.
Lemma silent_ret : silent (mret tt).
Proof. done. Qed.
Lemma silent_lift r : silent (lift r).
Proof. done. Qed.
Lemma silent_modify f : silent (modify f).
Proof. done. Qed.
Lemma silent_get f : (∀ x, silent (f x)) → silent (get ≫= f).
Proof. intros Hf w. apply Hf. Qed.
Lemma silent_bind m f : silent m → silent (f tt) → silent (m ≫= f).
Proof.
  intros Hm Hf w. specialize (Hm w). cbn in Hm. unfold mbind, ST_bind.
  destruct (m w) as [r w1], (m (fresh (state w))) as [r' w2]. cbn in Hm. destruct Hm as (<- & Hs & Ht).
  destruct r as [[]|e|p]; cbn; [|done..].
  pose proof (Hf w1) as H1. pose proof (Hf w2) as H2. cbn in H1, H2. rewrite Hs in H1.
  destruct H1 as (-> & -> & ->), H2 as (-> & -> & _). done.
Qed.
Lemma silent_emits m x :
  silent m → emits m x (match (m (fresh x)).1 with Ok _ => state (m (fresh x)).2 | _ => x end) (λ _, []).
Proof.
  intros Hm w a w' <- Hw. destruct (Hm w) as (Hr & Hs & Ht). rewrite Hw in *. cbn in Hr, Hs, Ht.
  rewrite <- Hr, Hs. split; [done|]. intros c. by rewrite Ht, (right_id_L [] (++)).
Qed.

Lemma outbound_silent : silent (OutboundManager_initialize directFallback).
Proof.
  apply silent_get. intros x. apply silent_bind.
  - destruct (_ && _); [|apply silent_ret]. destruct (EndpointManager_Get _ _); [apply silent_modify|apply silent_lift].
  - apply silent_get. intros y. destruct (defaultOutbound _); [apply silent_ret|].
    destruct directFallback; [apply silent_modify|apply silent_lift..].
Qed.
Lemma transport_silent : silent (TransportManager_initialize localFallback).
Proof.
  apply silent_get. intros x. destruct (_ && _); [apply silent_lift|].
  destruct (defaultTransport _); [apply silent_ret|]. destruct localFallback; [apply silent_modify|apply silent_lift..].
Qed.

(** Dependency order starts each component once. *)
Lemma run_starts_for_each {T} (start_one : T → ST managers ()) l w :
  run_starts start_one l w = for_each start_one l w.
Proof.
  revert w; induction l as [|x l IH]; intros w; [done|]. cbn. unfold mbind, ST_bind.
  destruct (start_one x w) as [[[]|e|p] w1]; auto.
Qed.
Lemma start_all_emits (start_one : Item → ST managers ()) ids find circular not_found l x :
  (∀ it, emits (start_one it) x x (hits (ids it) StartStateStart)) →
  emits (λ w, returned (start_all i_tag i_deps start_one (find w) circular not_found l w)) x x
    (hits (l ≫= ids) StartStateStart).
Proof.
  intros Ho w a w' Hx. destruct (start_all _ _ _ _ _ _ l w) as [[r|] w1] eqn:Es; [|done].
  cbn. intros [= -> <-]. destruct a. apply start_all_Ok in Es as (s & Hp & Hr).
  rewrite run_starts_for_each in Hr.
  destruct (emits_for_each start_one s x (λ it, hits (ids it) StartStateStart) Ho w tt w1 Hx Hr) as [Hs Hc].
  split; [done|]. intros c. rewrite Hc. f_equal. rewrite <- (hits_perm (s ≫= ids)) by (by rewrite Hp).
  apply hits_bind.
Qed.

Definition lid (it : Item) : list component := if has_lifecycle it then [i_id it] else [].
Lemma bind_lid l : (l ≫= lid) = lids_of l.
Proof.
  induction l as [|it l IH]; [done|]. unfold lids_of. rewrite filter_cons.
  change ((it :: l) ≫= lid) with (lid it ++ (l ≫= lid)). rewrite IH. unfold lid.
  destruct (has_lifecycle it); by destruct (decide _).
Qed.

Lemma start_outbound_emits p it x : emits (start_outbound leaf p it) x x (hits (lid it) StartStateStart).
Proof.
  unfold start_outbound, lid, has_lifecycle. destruct (i_kind it); [|apply item_emits|apply emits_ret].
  apply emits_get. destruct (em_scope (em x)) as [q|]; [apply item_emits|].
  intros w a w' _ Hw. by inversion Hw.
Qed.

Lemma outbound_emits stage p x :
  let x' := if bool_decide (stage = StartStateInitialize) then outbound_initialized x else x in
  emits (OutboundManager_Start leaf directFallback stage p) x x'
    (hits (lids_of (if bool_decide (stage = StartStateStart) then outbounds (om x') ++ endpoints (em x')
                    else outbounds (om x'))) stage).
Proof.
  intros x'. unfold OutboundManager_Start. eapply (emits_bind _ _ x x' _ (λ _, [])).
  { unfold x'. case_bool_decide; [apply silent_emits, outbound_silent|apply emits_ret]. }
  intros _. apply emits_get. rewrite <- bind_lid. case_bool_decide as Hst.
  - subst stage. apply (start_all_emits _ lid (λ _, find_item)). intros it. apply start_outbound_emits.
  - eapply emits_ext; [apply (emits_for_each _ _ _ (λ it, hits (lid it) stage))|intros c; apply hits_bind].
    intros it. unfold lid. destruct (has_lifecycle it); [apply item_emits|apply emits_ret].
Qed.
Lemma transport_emits stage p x :
  let x' := if bool_decide (stage = StartStateInitialize) then transport_initialized x else x in
  emits (TransportManager_Start leaf localFallback stage p) x x' (hits (ids_of (transports (tm x'))) stage).
Proof.
  intros x'. unfold TransportManager_Start. eapply (emits_bind _ _ x x' _ (λ _, [])).
  { unfold x'. case_bool_decide; [apply silent_emits, transport_silent|apply emits_ret]. }
  intros _. apply emits_get. case_bool_decide as Hst; [|apply (list_emits "dns")].
  subst stage. rewrite <- bind_ids. unfold startTransports.
  apply (start_all_emits _ (λ it, [i_id it]) (λ w _ tag, transportByTag (tm (state w)) !! tag)).
  intros it. apply item_emits.
Qed.
End managers.

(** ** The box *)

Section box.
Context (leaf : component → StartStage → list function * result ()).
Context (directFallback localFallback : result Item) (b : Box).

(** The managers after the stage of a component of the box, and the components
    it starts itself. *)
Definition next (c : component) (stage : StartStage) (x : managers) : managers :=
  if bool_decide (stage = StartStateInitialize)
  then if bool_decide (c = dnsTransport b) then transport_initialized localFallback x
       else if bool_decide (c = outbound b) then outbound_initialized directFallback x
       else if bool_decide (c = endpoint b) then endpoint_initialized [c] x
       else x
  else x.
Definition members (c : component) (stage : StartStage) (x : managers) : list component :=
  if bool_decide (c = dnsTransport b) then ids_of (transports (tm x))
  else if bool_decide (c = outbound b)
  then lids_of (if bool_decide (stage = StartStateStart) then outbounds (om x) ++ endpoints (em x) else outbounds (om x))
  else if bool_decide (c = endpoint b)
  then if bool_decide (stage = StartStateStart) then [] else ids_of (endpoints (em x))
  else if bool_decide (c = certificateProvider b) then ids_of (box_providers b)
  else if bool_decide (c = inbound b) then ids_of (box_inbounds b)
  else if bool_decide (c = service b) then ids_of (box_services b)
  else [].
(** The components a list of starts reaches. *)
Fixpoint walk (stage : StartStage) (l : list (string * component)) (x : managers) : managers * list component :=
  match l with
  | [] => (x, [])
  | (_, c) :: l =>
      let '(x', ids) := walk stage l (next c stage x) in
      (x', c :: members c stage (next c stage x) ++ ids)
  end.

Lemma body_emits c stage x :
  emits (body leaf directFallback localFallback b c stage [c]) x (next c stage x)
    (hits (members c stage (next c stage x)) stage).
Proof.
  unfold body, next, members.
  case_bool_decide; [pose proof (transport_emits leaf localFallback stage [c] x); by destruct stage|].
  case_bool_decide; [pose proof (outbound_emits leaf directFallback stage [c] x); by destruct stage|].
  case_bool_decide; [pose proof (endpoint_emits leaf stage [c] x); by destruct stage|].
  assert ((if bool_decide (stage = StartStateInitialize) then x else x) = x) as -> by (by case_bool_decide).
  case_bool_decide; [apply list_emits|]. case_bool_decide; [apply list_emits|].
  case_bool_decide; [apply list_emits|apply leaf_emits].
Qed.

Lemma components_emits stage l x :
  emits (startComponents leaf directFallback localFallback b stage l) x (walk stage l x).1
    (hits (walk stage l x).2 stage).
Proof.
  revert x; induction l as [|[name c] l IH]; intros x; [apply emits_ret|]. cbn [walk].
  specialize (IH (next c stage x)). destruct (walk stage l (next c stage x)) as [x' ids]. cbn [fst snd] in *.
  eapply emits_ext; [eapply emits_bind; [apply emits_Start, body_emits|intros _; exact IH]|].
  intros d. cbv beta. change (c :: members c stage (next c stage x) ++ ids) with
    ([c] ++ members c stage (next c stage x) ++ ids). by rewrite !hits_app, (assoc_L (++)).
Qed.

(** Decides the comparisons of identities the hypotheses settle. *)
Ltac compare_ids :=
  repeat match goal with
         | |- context [bool_decide (?c = ?d)] =>
             first [rewrite (bool_decide_eq_true_2 (c = d)) by done
                   |rewrite (bool_decide_eq_false_2 (c = d)) by congruence]
         end.

(** *** Which components the box starts *)

Definition managers_of : list component :=
  [dnsTransport b; outbound b; endpoint b; certificateProvider b; inbound b; service b].
Definition plain_of : list component := [network b; dnsRouter b; connection b; router b].
Definition all_ids (x : managers) : list component :=
  (internalService b).*2 ++ plain_of ++ managers_of ++
  ids_of (transports (tm x)) ++ lids_of (outbounds (om x)) ++ ids_of (endpoints (em x)) ++
  ids_of (box_providers b) ++ ids_of (box_inbounds b) ++ ids_of (box_services b).

(** The state is settled once the endpoint manager is initialised. *)
Definition settled (x : managers) : managers :=
  endpoint_initialized [endpoint b] (outbound_initialized directFallback (transport_initialized localFallback x)).

Lemma outbound_initialized_rest x :
  em (outbound_initialized directFallback x) = em x ∧ tm (outbound_initialized directFallback x) = tm x.
Proof.
  unfold outbound_initialized, OutboundManager_initialize, get, mbind, ST_bind, mret, ST_ret, throw, lift, set_default, set_om, modify.
  cbn. repeat (case_match; simplify_eq/=; try done).
Qed.

(** The components of the box are different objects. *)
Context (Hnd : NoDup ((httpClientService b).2 :: managers_of ++ plain_of ++ (internalService b).*2)).

Lemma box_distinct :
  NoDup managers_of ∧ NoDup plain_of ∧ ((httpClientService b).2 ∉ managers_of) ∧
  (∀ c, c ∈ plain_of → c ∉ managers_of) ∧ (∀ c, c ∈ (internalService b).*2 → c ∉ managers_of).
Proof.
  apply NoDup_cons in Hnd as [Hh Hn]. apply NoDup_app in Hn as (Hm & Hd & Hn).
  apply NoDup_app in Hn as (Hp & _ & _). split_and!; [done|done|set_solver| |];
    intros c Hc Hin; apply (Hd c Hin); set_solver.
Qed.

(** A component that is not a manager starts nothing else. *)
Lemma plain_next c stage x : c ∉ managers_of → next c stage x = x ∧ members c stage x = [].
Proof.
  intros Hc. unfold managers_of in Hc. rewrite !not_elem_of_cons in Hc. destruct Hc as (?&?&?&?&?&?&_).
  unfold next, members. rewrite !(bool_decide_eq_false_2 (c = _)) by done. by case_bool_decide.
Qed.
Lemma plain_walk stage l x : (∀ c, c ∈ l.*2 → c ∉ managers_of) → walk stage l x = (x, l.*2).
Proof.
  revert x; induction l as [|[name c] l IH]; intros x Hl; [done|]. cbn.
  destruct (plain_next c stage x) as [-> ->]; [apply Hl; left|].
  rewrite IH; [done|]. intros d Hd. apply Hl. by right.
Qed.

Lemma members_managers stage x :
  members (dnsTransport b) stage x = ids_of (transports (tm x)) ∧
  members (outbound b) stage x =
    lids_of (if bool_decide (stage = StartStateStart) then outbounds (om x) ++ endpoints (em x) else outbounds (om x)) ∧
  members (endpoint b) stage x =
    (if bool_decide (stage = StartStateStart) then [] else ids_of (endpoints (em x))) ∧
  members (certificateProvider b) stage x = ids_of (box_providers b) ∧
  members (inbound b) stage x = ids_of (box_inbounds b) ∧
  members (service b) stage x = ids_of (box_services b).
Proof.
  destruct box_distinct as (Hm & _). unfold managers_of in Hm. rewrite !NoDup_cons, !not_elem_of_cons in Hm.
  destruct Hm as ((?&?&?&?&?&_)&(?&?&?&?&_)&(?&?&?&_)&(?&?&_)&(?&_)&_).
  unfold members. split_and!; compare_ids; done.
Qed.
Lemma next_managers x :
  next (dnsTransport b) StartStateInitialize x = transport_initialized localFallback x ∧
  next (outbound b) StartStateInitialize x = outbound_initialized directFallback x ∧
  next (endpoint b) StartStateInitialize x = endpoint_initialized [endpoint b] x ∧
  next (certificateProvider b) StartStateInitialize x = x ∧
  next (inbound b) StartStateInitialize x = x ∧ next (service b) StartStateInitialize x = x.
Proof.
  destruct box_distinct as (Hm & _). unfold managers_of in Hm. rewrite !NoDup_cons, !not_elem_of_cons in Hm.
  destruct Hm as ((?&?&?&?&?&_)&(?&?&?&?&_)&(?&?&?&_)&(?&?&_)&(?&_)&_).
  unfold next. split_and!; compare_ids; done.
Qed.
Lemma next_later c stage x : stage ≠ StartStateInitialize → next c stage x = x.
Proof. intros Hs. unfold next. by rewrite bool_decide_eq_false_2. Qed.

Lemma plain_facts stage x :
  Forall (λ c, next c stage x = x ∧ members c stage x = []) ((httpClientService b).2 :: plain_of).
Proof.
  destruct box_distinct as (_ & _ & Hh & Hp & _). constructor; [by apply plain_next|].
  apply Forall_forall. intros c Hc. by apply plain_next, Hp.
Qed.

Lemma lids_endpoints l : Forall (λ it, i_kind it = KEndpoint) l → lids_of l = ids_of l.
Proof.
  intros Hl. rewrite <- bind_lid, <- bind_ids. induction Hl as [|it l Hit _ IH]; [done|].
  cbn. unfold lid at 1, has_lifecycle. by rewrite Hit, IH.
Qed.
Lemma lids_app l l' : lids_of (l ++ l') = lids_of l ++ lids_of l'.
Proof. unfold lids_of. by rewrite filter_app, fmap_app. Qed.

Lemma plain_eqs :
  (∀ st x, next (httpClientService b).2 st x = x ∧ members (httpClientService b).2 st x = []) ∧
  (∀ st x, next (network b) st x = x ∧ members (network b) st x = []) ∧
  (∀ st x, next (dnsRouter b) st x = x ∧ members (dnsRouter b) st x = []) ∧
  (∀ st x, next (connection b) st x = x ∧ members (connection b) st x = []) ∧
  (∀ st x, next (router b) st x = x ∧ members (router b) st x = []).
Proof.
  split_and!; intros st x; pose proof (plain_facts st x) as Hf; unfold plain_of in Hf; rewrite !Forall_cons in Hf;
    naive_solver.
Qed.

(** The components below the box, without the internal services. *)
Definition rest_ids (x : managers) : list component :=
  plain_of ++ managers_of ++
  ids_of (transports (tm x)) ++ lids_of (outbounds (om x)) ++ ids_of (endpoints (em x)) ++
  ids_of (box_providers b) ++ ids_of (box_inbounds b) ++ ids_of (box_services b).

Lemma walk_cons stage name c l x :
  walk stage ((name, c) :: l) x =
    ((walk stage l (next c stage x)).1,
     c :: members c stage (next c stage x) ++ (walk stage l (next c stage x)).2).
Proof. cbn. by destruct (walk stage l (next c stage x)). Qed.

Ltac walk_all :=
  destruct plain_eqs as (Hp1 & Hp2 & Hp3 & Hp4 & Hp5);
  repeat (rewrite walk_cons ||
          match goal with
          | Hp : ∀ st x, next ?c st x = x ∧ members ?c st x = [] |- context [next ?c ?st ?x] =>
              rewrite (proj1 (Hp st x))
          | Hp : ∀ st x, next ?c st x = x ∧ members ?c st x = [] |- context [members ?c ?st ?x] =>
              rewrite (proj2 (Hp st x))
          end); cbn [fst snd].

Ltac count_ids :=
  compare_ids; rewrite ?lids_app;
  repeat match goal with
         | |- context [cnt ?c []] => change (cnt c []) with 0
         | |- context [cnt ?c (?l ++ ?l')] => rewrite (cnt_app c l l')
         | |- context [cnt ?c (?i :: ?l)] =>
             lazymatch l with [] => fail | _ => rewrite (cnt_cons c i l) end
         end; lia.

Definition initialize_list : list (string * component) :=
  [((httpClientService b).1, (httpClientService b).2); ("network"%string, network b);
   ("dns-transport"%string, dnsTransport b); ("dns-router"%string, dnsRouter b); ("connection"%string, connection b); ("router"%string, router b);
   ("outbound"%string, outbound b); ("endpoint"%string, endpoint b);
   ("certificate-provider"%string, certificateProvider b); ("inbound"%string, inbound b);
   ("service"%string, service b)].

Lemma walk_initialize x :
  (walk StartStateInitialize initialize_list x).1 = settled x ∧
  ∀ c, cnt c (walk StartStateInitialize initialize_list x).2 =
       cnt c ((httpClientService b).2 :: rest_ids (settled x)).
Proof.
  unfold initialize_list. walk_all.
  pose proof next_managers as Hn. pose proof (members_managers StartStateInitialize) as Hm. cbn in Hm.
  rewrite !(λ x, proj1 (Hn x)), !(λ x, proj1 (proj2 (Hn x))), !(λ x, proj1 (proj2 (proj2 (Hn x)))).
  destruct (Hn (endpoint_initialized [endpoint b] (outbound_initialized directFallback
    (transport_initialized localFallback x)))) as (_ & _ & _ & Hn4 & Hn5 & Hn6).
  fold (settled x) in *. rewrite !Hn4, !Hn5, !Hn6. split; [done|]. intros c.
  destruct (Hm (transport_initialized localFallback x)) as (-> & _).
  destruct (Hm (outbound_initialized directFallback (transport_initialized localFallback x))) as (_ & -> & _).
  destruct (Hm (settled x)) as (_ & _ & -> & -> & -> & ->).
  unfold rest_ids, plain_of, managers_of. cbn [app walk snd].
  replace (tm (settled x)) with (tm (transport_initialized localFallback x))
    by (symmetry; apply outbound_initialized_rest).
  change (om (settled x)) with (om (outbound_initialized directFallback (transport_initialized localFallback x))).
  count_ids.
Qed.

(** The later stages, with the managers settled. *)
Definition start_list_1 : list (string * component) :=
  [("outbound"%string, outbound b); ("dns-transport"%string, dnsTransport b); ("network"%string, network b);
   ("connection"%string, connection b); ((httpClientService b).1, (httpClientService b).2);
   ("router"%string, router b); ("dns-router"%string, dnsRouter b)].
Definition start_list_2 : list (string * component) :=
  [("endpoint"%string, endpoint b); ("certificate-provider"%string, certificateProvider b);
   ("inbound"%string, inbound b); ("service"%string, service b)].
Definition post_start_list : list (string * component) :=
  [("outbound"%string, outbound b); ("network"%string, network b); ("dns-transport"%string, dnsTransport b);
   ("dns-router"%string, dnsRouter b); ("connection"%string, connection b); ("router"%string, router b);
   ("endpoint"%string, endpoint b); ("certificate-provider"%string, certificateProvider b);
   ("inbound"%string, inbound b); ("service"%string, service b)].
Definition started_list : list (string * component) :=
  [("network"%string, network b); ("dns-transport"%string, dnsTransport b); ("dns-router"%string, dnsRouter b);
   ("connection"%string, connection b); ("router"%string, router b); ("outbound"%string, outbound b);
   ("endpoint"%string, endpoint b); ("certificate-provider"%string, certificateProvider b);
   ("inbound"%string, inbound b); ("service"%string, service b)].

Lemma walk_state stage l x : stage ≠ StartStateInitialize → (walk stage l x).1 = x.
Proof.
  intros Hs. induction l as [|[name c] l IH]; [done|]. rewrite walk_cons, next_later by done. exact IH.
Qed.

Ltac walk_later stage x :=
  walk_all; rewrite !next_later by done;
  let Hm := fresh in pose proof (members_managers stage x) as Hm; cbn in Hm; destruct Hm as (Hm1 & Hm2 & Hm3 & Hm4 & Hm5 & Hm6);
  rewrite ?Hm1, ?Hm2, ?Hm3, ?Hm4, ?Hm5, ?Hm6; unfold rest_ids, plain_of, managers_of; cbn [app walk snd]; count_ids.

Lemma walk_start x c :
  Forall (λ it, i_kind it = KEndpoint) (endpoints (em x)) →
  cnt c (walk StartStateStart start_list_1 x).2 + cnt c (walk StartStateStart start_list_2 x).2 =
  cnt c ((httpClientService b).2 :: rest_ids x).
Proof.
  intros He. unfold start_list_1, start_list_2, rest_ids. rewrite <- (lids_endpoints _ He).
  walk_later StartStateStart x.
Qed.
Lemma walk_post_start x c : cnt c (walk StartStatePostStart post_start_list x).2 = cnt c (rest_ids x).
Proof. unfold post_start_list. walk_later StartStatePostStart x. Qed.
Lemma walk_started x c : cnt c (walk StartStateStarted started_list x).2 = cnt c (rest_ids x).
Proof. unfold started_list. walk_later StartStateStarted x. Qed.

(** *** The whole start *)

Context (log_start : result ()) (log_close : function) (panel_start : result ()).
Context (debug_http : result (option function)) (ntp : option (result () * function)).

Lemma list_emits_as stage l l' x :
  l = l' → emits (startComponents leaf directFallback localFallback b stage l) x (walk stage l' x).1
             (hits (walk stage l' x).2 stage).
Proof. intros ->. apply components_emits. Qed.
Lemma internal_emits stage x :
  emits (startInternalServices leaf directFallback localFallback b stage) x x (hits (internalService b).*2 stage).
Proof.
  pose proof (components_emits stage (internalService b) x) as Hc.
  rewrite plain_walk in Hc by (destruct box_distinct as (_ & _ & _ & _ & Hi); exact Hi). exact Hc.
Qed.

Lemma preStart_emits x :
  emits (preStart leaf directFallback localFallback log_start log_close panel_start debug_http b true) x (settled x)
    (λ c, hits (internalService b).*2 StartStateInitialize c ++
          hits (walk StartStateInitialize initialize_list x).2 StartStateInitialize c ++
          hits (walk StartStateStart start_list_1 (settled x)).2 StartStateStart c).
Proof.
  unfold preStart.
  eapply (emits_bind _ _ x x _ (λ _, [])); [apply emits_lift|intros _].
  eapply (emits_bind _ _ x x _ (λ _, [])); [apply emits_Add|intros _].
  eapply (emits_bind _ _ x x _ (λ _, [])); [|intros _].
  { eapply (emits_bind _ _ x x _ (λ _, []) (λ _, [])); [apply emits_lift|intros _; apply emits_panel]. }
  eapply (emits_bind _ _ x x _ (λ _, [])); [apply emits_lift|intros close].
  eapply (emits_bind _ _ x x _ (λ _, [])); [destruct close; [apply emits_Add|apply emits_ret]|intros _].
  eapply emits_bind; [apply internal_emits|intros _].
  eapply (emits_bind _ _ x (settled x)); [|intros _].
  { rewrite <- (proj1 (walk_initialize x)). apply list_emits_as. unfold initialize_list. f_equal. apply surjective_pairing. }
  pose proof (list_emits_as StartStateStart
    [("outbound"%string, outbound b); ("dns-transport"%string, dnsTransport b); ("network"%string, network b);
     ("connection"%string, connection b); httpClientService b; ("router"%string, router b);
     ("dns-router"%string, dnsRouter b)] start_list_1 (settled x)) as Hl.
  rewrite walk_state in Hl by done. apply Hl. unfold start_list_1. do 5 f_equal. apply surjective_pairing.
Qed.
Lemma start_ntp_emits x : emits (start_ntp ntp) x x (λ _, []).
Proof.
  unfold start_ntp. destruct ntp as [[r f]|]; [|apply emits_ret].
  eapply (emits_bind _ _ x x _ (λ _, []) (λ _, [])); [apply emits_lift|intros _; apply emits_Add].
Qed.

Lemma later_emits stage l x :
  stage ≠ StartStateInitialize →
  emits (startComponents leaf directFallback localFallback b stage l) x x (hits (walk stage l x).2 stage).
Proof. intros Hs. rewrite <- (walk_state stage l x Hs) at 2. apply components_emits. Qed.

Lemma start_emits x :
  Forall (λ it, i_kind it = KEndpoint) (endpoints (em (settled x))) →
  emits (start leaf directFallback localFallback log_start log_close panel_start debug_http ntp b) x (settled x)
    (λ c, replicate (cnt c ((httpClientService b).2 :: all_ids (settled x))) StartStateInitialize ++
          replicate (cnt c ((httpClientService b).2 :: all_ids (settled x))) StartStateStart ++
          replicate (cnt c (all_ids (settled x))) StartStatePostStart ++
          replicate (cnt c (all_ids (settled x))) StartStateStarted).
Proof.
  intros He. eapply emits_ext.
  - unfold start. eapply emits_bind; [apply preStart_emits|intros _].
    eapply emits_bind; [apply internal_emits|intros _].
    eapply (emits_bind _ _ (settled x) (settled x) _ (λ _, [])); [apply start_ntp_emits|intros _].
    eapply emits_bind; [by apply (later_emits StartStateStart start_list_2)|intros _].
    eapply emits_bind; [by apply (later_emits StartStatePostStart post_start_list)|intros _].
    eapply emits_bind; [apply internal_emits|intros _].
    eapply emits_bind; [by apply (later_emits StartStateStarted started_list)|intros _; apply internal_emits].
  - intros c. cbv beta. rewrite !hits_cnt.
    pose proof (proj2 (walk_initialize x) c) as H1. pose proof (walk_start (settled x) c He) as H2.
    pose proof (walk_post_start (settled x) c) as H3. pose proof (walk_started (settled x) c) as H4.
    rewrite (cnt_cons c (httpClientService b).2 (rest_ids _)) in H1, H2.
    rewrite (cnt_cons c (httpClientService b).2 (all_ids _)).
    change (all_ids (settled x)) with ((internalService b).*2 ++ rest_ids (settled x)). rewrite cnt_app, H1, H3, H4.
    set (n := cnt c (internalService b).*2) in *. set (r := cnt c (rest_ids (settled x))) in *.
    set (h := cnt c [(httpClientService b).2]) in *.
    set (s1 := cnt c (walk StartStateStart start_list_1 (settled x)).2) in *.
    set (s2 := cnt c (walk StartStateStart start_list_2 (settled x)).2) in *.
    replace (replicate (h + (n + r)) StartStateStart) with (replicate (s1 + (n + s2)) StartStateStart)
      by (f_equal; lia).
    replace (h + (n + r)) with (n + (h + r)) by lia. rewrite (Nat.add_comm n r).
    rewrite !(replicate_add _ _ StartStateInitialize), !(replicate_add _ _ StartStateStart),
      !(replicate_add _ _ StartStatePostStart), !(replicate_add _ _ StartStateStarted).
    by rewrite <- !(assoc_L (++)).
Qed.
End box.

Lemma box_NoDup b x :
  NoDup ((httpClientService b).2 :: all_ids b x) →
  NoDup ((httpClientService b).2 :: managers_of b ++ plain_of b ++ (internalService b).*2).
Proof.
  intros [Hh Hn]%NoDup_cons. unfold all_ids in Hh, Hn.
  assert (managers_of b ++ plain_of b ++ (internalService b).*2 ≡ₚ
          (internalService b).*2 ++ plain_of b ++ managers_of b) as Hp by solve_Permutation.
  rewrite Hp. apply NoDup_cons. split; [set_solver|].
  rewrite !(assoc_L (++)) in Hn. do 6 apply NoDup_app in Hn as (Hn & _ & _).
  by rewrite <- (assoc_L (++)) in Hn.
Qed.

(** (C32) When the box starts, every component it has (internal services, the
    box's own components, the managers and everything the managers hold, the
    default outbound and DNS server included) was started exactly once in each
    of the four stages, in their order; the HTTP client service takes part in
    the first two only, and nothing else was started. *)
Theorem box_stages leaf directFallback localFallback cleanup_error expand join ignorable log_start log_close
    panel_start debug_http ntp b x w :
  NoDup ((httpClientService b).2 :: all_ids b (settled directFallback localFallback b x)) →
  Forall (λ it, i_kind it = KEndpoint) (endpoints (em (settled directFallback localFallback b x))) →
  Box_Start leaf directFallback localFallback cleanup_error expand join ignorable log_start log_close
    panel_start debug_http ntp b (fresh x) = (Ok tt, w) →
  state w = settled directFallback localFallback b x ∧
  (∀ c, c ∈ all_ids b (state w) → stages_of c (trace w) = ListStartStages) ∧
  stages_of (httpClientService b).2 (trace w) = [StartStateInitialize; StartStateStart] ∧
  (∀ c, c ∉ (httpClientService b).2 :: all_ids b (state w) → stages_of c (trace w) = []).
Proof.
  intros Hnd He Hs.
  assert (start leaf directFallback localFallback log_start log_close panel_start debug_http ntp b (fresh x)
          = (Ok tt, w)) as Hok.
  { unfold Box_Start, closing in Hs. by destruct (start _ _ _ _ _ _ _ _ _ _) as [[[]|e|q] w']. }
  pose proof Hnd as [Hh Hn]%NoDup_cons.
  destruct (start_emits leaf directFallback localFallback b (box_NoDup _ _ Hnd) log_start log_close panel_start
              debug_http ntp x He (fresh x) tt w eq_refl Hok) as [Hst Hc].
  rewrite Hst. cbn [trace fresh] in Hc. change (stages_of ?c []) with (@nil StartStage) in Hc. split; [done|].
  split; [|split]; [intros c Hin| |intros c Hout]; rewrite Hc, !cnt_in by done.
  - by rewrite !bool_decide_eq_true_2 by (done || by right).
  - rewrite bool_decide_eq_true_2 by left. by rewrite bool_decide_eq_false_2.
  - pose proof Hout as [_ Hout']%not_elem_of_cons. by rewrite !bool_decide_eq_false_2.
Qed.

Lemma box_stages_witness :
  stages_of 1 (trace (start0 (Ok tt)).2) = ListStartStages.
Proof.
  destruct (box_stages leaf0 (Err ErrInvalid) (Err ErrInvalid) (λ _, None) (λ e, [e]) head (λ _, false) (Ok tt) 50
    (Ok tt) (Ok None) None box0 managers1 (start0 (Ok tt)).2) as (_ & Hall & _).
  - apply (bool_decide_unpack _). vm_compute. reflexivity.
  - repeat constructor.
  - vm_compute. reflexivity.
  - apply Hall. apply (bool_decide_unpack _). vm_compute. reflexivity.
Defined.
