(* ===== verification/RuleContext.v ===== *)
(** * What a routing rule looks at: [src/adapter/inbound.go], [src/route/rule/match_state.go]

    A rule is matched against the metadata of one connection or DNS query.
    [InboundContext] is split in two: [Request] are the fields rules only read,
    [RuleCache] the fields the matching code writes ("rule cache" in the
    source).  [RuleEnv] gathers what rules read from elsewhere: functions of
    other modules ([sing], [miekg/dns], [netipx], regular expressions) and the
    state of the network manager and of the clash API. *)

From S2P Require Import Prelude GoStrings NetAddr.

Local Open Scope Z_scope.

(** ** Data *)

(** [M.Socksaddr]. *)
Record Socksaddr := MkSocksaddr { s_Addr : Addr; s_Port : Z; s_Fqdn : string }.

(** DNS resource records and messages, as far as the code tells them apart. *)
Inductive SVCBValue :=
  | SVCBIPv4Hint (hint : list (list Z))
  | SVCBIPv6Hint (hint : list (list Z))
  | SVCBOther (code : Z).
Inductive EDNS0 :=
  | EDNS0_SUBNET (family sourceNetmask : Z) (address : list Z)
  | EDNS0_PADDING
  | EDNS0_Other (code : Z).
Inductive RR :=
  | RR_A (ip : list Z)
  | RR_AAAA (ip : list Z)
  | RR_HTTPS (value : list SVCBValue)
  | RR_SOA (minttl : Z) (id : Z)
  | RR_OPT (class : Z) (options : list EDNS0)
  | RR_Other (id : Z).
#[export] Instance SVCBValue_eq_dec : EqDecision SVCBValue.
Proof. solve_decision. Defined.
#[export] Instance EDNS0_eq_dec : EqDecision EDNS0.
Proof. solve_decision. Defined.
#[export] Instance RR_eq_dec : EqDecision RR.
Proof. solve_decision. Defined.
Record Msg := MkMsg { Rcode : Z; Answer : list RR; Ns : list RR; Extra : list RR }.
Definition RcodeSuccess : Z := 0.

Record ConnectionOwner := MkConnectionOwner {
  ProcessID : Z;
  UserId : Z;
  UserName : string;
  ProcessPath : string;
  AndroidPackageNames : list string;
}.

(** [control.Interface] and [adapter.NetworkInterface]. *)
Record Interface := MkInterface { if_Name : string; if_Addresses : list Prefix }.
Record NetworkInterface := MkNetworkInterface {
  ni_Interface : Interface;
  ni_Type : Z;
  Expensive : bool;
  Constrained : bool;
}.
Record WIFIState := MkWIFIState { SSID : string; BSSID : string }.

Record Request := MkRequest {
  md_Inbound : string;
  md_IPVersion : Z;
  md_Network : string;
  md_Source : Socksaddr;
  md_Destination : Socksaddr;
  md_User : string;
  md_Outbound : string;
  md_Protocol : string;
  md_Domain : string;
  md_Client : string;
  md_DestinationAddresses : list Addr;
  md_DNSResponse : option Msg;
  md_NamedDNSResponses : gmap string Msg;
  md_DestinationAddressMatchFromResponse : bool;
  md_ProcessInfo : option ConnectionOwner;
  md_SourceMACAddress : option (list Z);
  md_SourceHostname : string;
  md_QueryType : Z;
  md_QueryClientSubnet : Prefix;
  md_QueryDNSSEC : bool;
  md_PreMatch : bool;
}.

Record RuleCache := MkRuleCache {
  IPCIDRMatchSource : bool;
  IPCIDRAcceptEmpty : bool;
  SourceAddressMatch : bool;
  SourcePortMatch : bool;
  DestinationAddressMatch : bool;
  DestinationPortMatch : bool;
  DeferredIPCIDRMatchGroups : Z;
  IgnoreDestinationIPCIDRMatch : bool;
}.

Record InboundContext := MkContext { request : Request; cache : RuleCache }.

(** ** The environment of a rule *)

Record RuleEnv := MkRuleEnv {
  (* github.com/sagernet/sing *)
  env_IsIP : Socksaddr → bool;
  env_IsIPv6 : Socksaddr → bool;
  env_IsPublicAddr : Addr → bool;
  env_AddrFromIP : list Z → Addr;
  (* github.com/miekg/dns *)
  env_IsDuplicate : RR → RR → bool;
  env_CanonicalName : string → string;
  (* the network manager and the clash API *)
  env_DefaultNetworkInterface : option NetworkInterface;
  env_NetworkInterfaces : list NetworkInterface;
  env_Interfaces : list Interface;
  env_MyInterfaces : list string;
  env_DefaultInterface : option Interface;
  env_WIFIState : WIFIState;
  env_ClashMode : option string;
  env_IsAndroid : bool;
}.

(** ** The rule cache *)

Definition ResetRuleMatchCache (m : InboundContext) : InboundContext :=
  let c := cache m in
  MkContext (request m)
    (MkRuleCache (IPCIDRMatchSource c) (IPCIDRAcceptEmpty c) false false false false 0
       (IgnoreDestinationIPCIDRMatch c)).

Definition ResetRuleCache (m : InboundContext) : InboundContext :=
  let c := cache m in
  ResetRuleMatchCache
    (MkContext (request m)
       (MkRuleCache false false (SourceAddressMatch c) (SourcePortMatch c)
          (DestinationAddressMatch c) (DestinationPortMatch c) (DeferredIPCIDRMatchGroups c)
          (IgnoreDestinationIPCIDRMatch c))).

Definition set_deferred (d : Z) (m : InboundContext) : InboundContext :=
  let c := cache m in
  MkContext (request m)
    (MkRuleCache (IPCIDRMatchSource c) (IPCIDRAcceptEmpty c) (SourceAddressMatch c)
       (SourcePortMatch c) (DestinationAddressMatch c) (DestinationPortMatch c) d
       (IgnoreDestinationIPCIDRMatch c)).
Definition set_cidr (source acceptEmpty : bool) (m : InboundContext) : InboundContext :=
  let c := cache m in
  MkContext (request m)
    (MkRuleCache source acceptEmpty (SourceAddressMatch c) (SourcePortMatch c)
       (DestinationAddressMatch c) (DestinationPortMatch c) (DeferredIPCIDRMatchGroups c)
       (IgnoreDestinationIPCIDRMatch c)).
Definition set_ignore (b : bool) (m : InboundContext) : InboundContext :=
  let c := cache m in
  MkContext (request m)
    (MkRuleCache (IPCIDRMatchSource c) (IPCIDRAcceptEmpty c) (SourceAddressMatch c)
       (SourcePortMatch c) (DestinationAddressMatch c) (DestinationPortMatch c)
       (DeferredIPCIDRMatchGroups c) b).
Definition deferred (m : InboundContext) : Z := DeferredIPCIDRMatchGroups (cache m).
Definition ignoring (m : InboundContext) : bool := IgnoreDestinationIPCIDRMatch (cache m).
Definition match_source (m : InboundContext) : bool := IPCIDRMatchSource (cache m).

(** [ruleMatchSnapshot]: the part of the cache nested matching overwrites. *)
Record ruleMatchSnapshot := MkSnapshot {
  snap_ipCidrMatchSource : bool;
  snap_ipCidrAcceptEmpty : bool;
  snap_deferredIPCIDRMatchGroups : Z;
}.
Definition snapshotRuleMatch (m : InboundContext) : ruleMatchSnapshot :=
  MkSnapshot (IPCIDRMatchSource (cache m)) (IPCIDRAcceptEmpty (cache m)) (deferred m).
Definition restore (s : ruleMatchSnapshot) (m : InboundContext) : InboundContext :=
  set_deferred (snap_deferredIPCIDRMatchGroups s)
    (set_cidr (snap_ipCidrMatchSource s) (snap_ipCidrAcceptEmpty s) m).

(** ** Groups of conditions

    [ruleMatchState] is a [uint8] bit set. *)
Definition ruleMatchSourceAddress : Z := 1.
Definition ruleMatchSourcePort : Z := 2.
Definition ruleMatchDestinationAddress : Z := 4.
Definition ruleMatchDestinationPort : Z := 8.

Record ruleGroupMatch := MkGroups { required : Z; satisfied : Z }.
(** Go's [a &^ b]. *)
Definition and_not (a b : Z) : Z := Z.ldiff a b.
Definition group_done (g : ruleGroupMatch) : bool := bool_decide (and_not (required g) (satisfied g) = 0).
Definition mergeWith (g other : ruleGroupMatch) : ruleGroupMatch :=
  MkGroups (Z.lor (required g) (required other)) (Z.lor (satisfied g) (satisfied other)).
Definition has (s target : Z) : bool := negb (bool_decide (Z.land s target = 0)).

(** ** Addresses of a DNS response *)

Section response.
Context (E : RuleEnv).

Definition valid_addrs (l : list Addr) : list Addr := filter (λ a, addr_IsValid a = true) l.
Definition svcb_addresses (v : SVCBValue) : list Addr :=
  match v with
  | SVCBIPv4Hint hint => valid_addrs (Unmap ∘ env_AddrFromIP E <$> hint)
  | SVCBIPv6Hint hint => valid_addrs (env_AddrFromIP E <$> hint)
  | SVCBOther _ => []
  end.
Definition record_addresses (r : RR) : list Addr :=
  match r with
  | RR_A ip | RR_AAAA ip => valid_addrs [env_AddrFromIP E ip]
  | RR_HTTPS value => value ≫= svcb_addresses
  | RR_SOA _ _ | RR_OPT _ _ | RR_Other _ => []
  end.
Definition DNSResponseAddresses (response : option Msg) : list Addr :=
  match response with
  | None => []
  | Some msg =>
      if negb (bool_decide (Rcode msg = RcodeSuccess)) then []
      else Answer msg ≫= record_addresses
  end.
Definition DNSResponseAddressesForMatch (m : InboundContext) : list Addr :=
  DNSResponseAddresses (md_DNSResponse (request m)).
End response.
