(* ===== verification/RuleItems.v ===== *)
(** * The conditions of a rule: [src/route/rule/rule_item_*.go]

    One constructor of [RuleItem] per item type of the source, with the fields
    [Match] and [String] read; [RuleItem_Match] and [RuleItem_String] are the
    two methods of the [RuleItem] interface, one branch per type, and the
    [New...] functions the constructors, with their errors.  A [map[K]bool]
    filled with [true] is the set of its keys.  Matchers, IP sets and regular
    expressions made by other packages are the predicate they decide. *)

From S2P Require Import Prelude GoStrings NetAddr RuleContext.
From Stdlib Require Import Ascii.

Local Open Scope Z_scope.

(** A DNS outbound's or transport's preference, [adapter.OutboundWithPreferredRoutes]
    and [adapter.DNSTransportWithPreferredDomain].  The implementations look at
    the request, never at the rule cache. *)
Record PreferredRoutes := MkPreferredRoutes {
  PreferredDomain : Request → string → bool;
  PreferredAddress : Request → Addr → bool;
}.

Definition IPSet := Addr → bool.
Definition Matcher := string → bool.

Record rangeItem := MkRange { range_start : Z; range_end : Z }.
#[export] Instance rangeItem_eq_dec : EqDecision rangeItem.
Proof. solve_decision. Defined.

Inductive RuleItem :=
  | InboundItem (inbounds : list string) (inboundMap : gset string)
  | IPVersionItem (isIPv6 : bool)
  | NetworkItem (networks : list string) (networkMap : gset string)
  | AuthUserItem (users : list string) (userMap : gset string)
  | ProtocolItem (protocols : list string) (protocolMap : gset string)
  | ClientItem (clients : list string) (clientMap : gset string)
  | DomainItem (matcher : Matcher) (description : string)
  | DomainKeywordItem (keywords : list string)
  | DomainRegexItem (matchers : list Matcher) (description : string)
  | AdGuardDomainItem (matcher : Matcher)
  | IPCIDRItem (ipSet : IPSet) (isSource : bool) (description : string)
  | IPIsPrivateItem (isSource : bool)
  | IPAcceptAnyItem
  | PortItem (ports : list Z) (portMap : gset Z) (isSource : bool)
  | PortRangeItem (isSource : bool) (portRanges : list string) (portRangeList : list rangeItem)
  | ProcessItem (processes : list string) (processMap : gset string)
  | ProcessPathItem (processes : list string) (processMap : gset string)
  | ProcessPathRegexItem (matchers : list Matcher) (description : string)
  | PackageNameItem (packageNames : list string) (packageMap : gset string)
  | PackageNameRegexItem (matchers : list Matcher) (description : string)
  | UserItem (users : list string) (userMap : gset string)
  | UserIdItem (userIds : list Z) (userIdMap : gset Z)
  | ClashModeItem (started : bool) (mode : string)
  | OutboundItem (outbounds : list string) (outboundMap : gset string) (matchAny : bool)
  | NetworkTypeItem (networkType : list Z)
  | NetworkIsExpensiveItem
  | NetworkIsConstrainedItem
  | WIFISSIDItem (ssidList : list string) (ssidMap : gset string)
  | WIFIBSSIDItem (bssidList : list string) (bssidMap : gset string)
  | InterfaceAddressItem (interfaceAddresses : list (string * list Prefix)) (description : string)
  | NetworkInterfaceAddressItem (interfaceAddresses : list (Z * list Prefix)) (description : string)
  | DefaultInterfaceAddressItem (interfaceAddresses : list Prefix)
  | SourceMACAddressItem (addresses : list string) (addressMap : gset string)
  | SourceHostnameItem (hostnames : list string) (hostnameMap : gset string)
  | PreferredByItem (outboundTags : list string) (outbounds : list PreferredRoutes)
  | PreferredByDNSItem (transportTags : list string) (transports : list Matcher)
  | QueryTypeItem (typeList : list Z) (typeMap : gset Z)
  | QueryClientSubnetItem (prefixes : list Prefix)
  | QueryDNSSECItem
  | DNSResponseRCodeItem (rcode : Z)
  | DNSResponseRecordItem (field : string) (records : list (option RR)) (selector : Msg → list RR).

(** ** Helpers of the standard library *)

Definition in_map {K} `{Countable K} (m : gset K) (k : K) : bool := bool_decide (k ∈ m).

(** strings.Contains and strings.Index for a one-byte separator. *)
Fixpoint has_prefix (p s : string) : bool :=
  match p, s with
  | ""%string, _ => true
  | String a p, String b s => bool_decide (a = b) && has_prefix p s
  | _, _ => false
  end.
Fixpoint str_contains (s sub : string) : bool :=
  has_prefix sub s || match s with ""%string => false | String _ s => str_contains s sub end.

(** filepath.Base of a non-empty path: trailing slashes removed, then what
    follows the last one; a path of slashes only is the root. *)
Fixpoint strip_slashes (l : list string) : list string :=
  match l with ""%string :: l => strip_slashes l | _ => l end.
Definition filepath_Base (path : string) : string :=
  match strip_slashes (reverse (Split "/" path)) with
  | [] => "/"%string
  | w :: _ => w
  end.

(** net.HardwareAddr.String: two hexadecimal digits per byte. *)
Definition hex_digit (n : Z) : ascii :=
  byte_of (Z.to_nat (if bool_decide (n < 10) then 48 + n else 87 + n)).
Definition HardwareAddr_String (mac : list Z) : string :=
  Join ":" ((λ b, String (hex_digit (b / 16)) (String (hex_digit (b `mod` 16)) ""%string)) <$> mac).

Definition domain_host (m : InboundContext) : string :=
  if negb (bool_decide (md_Domain (request m) = ""%string)) then md_Domain (request m)
  else s_Fqdn (md_Destination (request m)).

(** ** Match *)

Section match_item.
Context `{UnicodeTables} (E : RuleEnv).

Definition match_domain (f : string → bool) (m : InboundContext) : bool :=
  let domainHost := domain_host m in
  if bool_decide (domainHost = ""%string) then false else f (ToLower domainHost).

Definition IPCIDRItem_Match (ipSet : IPSet) (isSource : bool) (m : InboundContext) : bool :=
  if isSource || IPCIDRMatchSource (cache m) then ipSet (s_Addr (md_Source (request m)))
  else if md_DestinationAddressMatchFromResponse (request m)
  then
    let addresses := DNSResponseAddressesForMatch E m in
    if bool_decide (length addresses = 0%nat) then IPCIDRAcceptEmpty (cache m)
    else existsb ipSet addresses
  else if env_IsIP E (md_Destination (request m)) then ipSet (s_Addr (md_Destination (request m)))
  else if negb (bool_decide (length (md_DestinationAddresses (request m)) = 0%nat))
  then existsb ipSet (md_DestinationAddresses (request m))
  else IPCIDRAcceptEmpty (cache m).

Definition IPIsPrivateItem_Match (isSource : bool) (m : InboundContext) : bool :=
  let private a := negb (env_IsPublicAddr E a) in
  if isSource then private (s_Addr (md_Source (request m)))
  else if md_DestinationAddressMatchFromResponse (request m)
  then existsb private (DNSResponseAddressesForMatch E m)
  else if addr_IsValid (s_Addr (md_Destination (request m)))
  then private (s_Addr (md_Destination (request m)))
  else existsb private (md_DestinationAddresses (request m)).

Definition IPAcceptAnyItem_Match (m : InboundContext) : bool :=
  if md_DestinationAddressMatchFromResponse (request m)
  then bool_decide (0 < length (DNSResponseAddressesForMatch E m))%nat
  else bool_decide (0 < length (md_DestinationAddresses (request m)))%nat.

Definition IPVersionItem_Match (isIPv6 : bool) (m : InboundContext) : bool :=
  (negb (bool_decide (md_IPVersion (request m) = 0)) &&
   Bool.eqb (bool_decide (md_IPVersion (request m) = 6)) isIPv6) ||
  (env_IsIP E (md_Destination (request m)) && Bool.eqb (env_IsIPv6 E (md_Destination (request m))) isIPv6).

Definition port_of (isSource : bool) (m : InboundContext) : Z :=
  if isSource then s_Port (md_Source (request m)) else s_Port (md_Destination (request m)).
Definition PortRangeItem_Match (isSource : bool) (l : list rangeItem) (m : InboundContext) : bool :=
  let port := port_of isSource m in
  existsb (λ r, bool_decide (range_start r ≤ port) && bool_decide (port ≤ range_end r)) l.

Definition with_process (f : ConnectionOwner → bool) (m : InboundContext) : bool :=
  match md_ProcessInfo (request m) with None => false | Some p => f p end.
Definition with_process_path (f : string → bool) : InboundContext → bool :=
  with_process (λ p, if bool_decide (ProcessPath p = ""%string) then false else f (ProcessPath p)).
Definition ProcessPathItem_Match (processMap : gset string) : InboundContext → bool :=
  with_process (λ p,
    if negb (bool_decide (ProcessPath p = ""%string)) && in_map processMap (ProcessPath p) then true
    else if env_IsAndroid E then existsb (in_map processMap) (AndroidPackageNames p) else false).

Definition with_interface (f : NetworkInterface → bool) : bool :=
  match env_DefaultNetworkInterface E with None => false | Some i => f i end.

(** [common.Find] returns the zero interface when none has the name. *)
Definition find_interface (name : string) : Interface :=
  match list_find (λ i, if_Name i = name) (env_Interfaces E) with
  | Some (_, i) => i
  | None => MkInterface ""%string []
  end.
Definition InterfaceAddressItem_Match (l : list (string * list Prefix)) : bool :=
  forallb (λ '(ifName, addresses),
    let iface := find_interface ifName in
    if bool_decide (if_Name iface = ""%string) then false
    else negb (forallb (λ address,
                 forallb (λ it, negb (prefix_Overlaps address it)) (if_Addresses iface)) addresses)) l.
Definition NetworkInterfaceAddressItem_Match (l : list (Z * list Prefix)) : bool :=
  forallb (λ '(ifType, addresses),
    existsb (λ networkInterface,
      if bool_decide (if_Name (ni_Interface networkInterface) ∈ env_MyInterfaces E) then false
      else if negb (bool_decide (ni_Type networkInterface = ifType)) then false
      else existsb (λ it, existsb (λ prefix, prefix_Overlaps prefix it) addresses)
             (if_Addresses (ni_Interface networkInterface))) (env_NetworkInterfaces E)) l.
Definition DefaultInterfaceAddressItem_Match (l : list Prefix) : bool :=
  match env_DefaultInterface E with
  | None => false
  | Some defaultInterface =>
      forallb (λ address,
        negb (forallb (λ it, negb (prefix_Overlaps address it)) (if_Addresses defaultInterface))) l
  end.

Definition PreferredByItem_Match (outbounds : list PreferredRoutes) (m : InboundContext) : bool :=
  let host := domain_host m in
  if negb (bool_decide (host = ""%string)) && existsb (λ o, PreferredDomain o (request m) host) outbounds then true
  else if env_IsIP E (md_Destination (request m)) &&
          existsb (λ o, PreferredAddress o (request m) (s_Addr (md_Destination (request m)))) outbounds then true
  else existsb (λ address, existsb (λ o, PreferredAddress o (request m) address) outbounds)
         (md_DestinationAddresses (request m)).

Definition QueryClientSubnetItem_Match (prefixes : list Prefix) (m : InboundContext) : bool :=
  let clientSubnet := md_QueryClientSubnet (request m) in
  if negb (prefix_IsValid clientSubnet) then false
  else existsb (λ prefix, bool_decide (prefix_Bits prefix ≤ prefix_Bits clientSubnet) &&
                          prefix_Contains prefix (prefix_addr clientSubnet)) prefixes.

(** [DNSRecordOptions.Match]: the configured record against one of the message. *)
Definition DNSRecordOptions_Match (o : option RR) (record : RR) : bool :=
  match o with None => false | Some rr => env_IsDuplicate E rr record end.
Definition DNSResponseRecordItem_Match (records : list (option RR)) (selector : Msg → list RR)
    (m : InboundContext) : bool :=
  match md_DNSResponse (request m) with
  | None => false
  | Some response =>
      existsb (λ expected, existsb (DNSRecordOptions_Match expected) (selector response)) records
  end.

Definition InboundItem_Match (inboundMap : gset string) (m : InboundContext) : bool :=
  in_map inboundMap (md_Inbound (request m)).
Definition NetworkItem_Match (networkMap : gset string) (m : InboundContext) : bool :=
  in_map networkMap (md_Network (request m)).
Definition AuthUserItem_Match (userMap : gset string) (m : InboundContext) : bool :=
  in_map userMap (md_User (request m)).
Definition ProtocolItem_Match (protocolMap : gset string) (m : InboundContext) : bool :=
  in_map protocolMap (md_Protocol (request m)).
Definition ClientItem_Match (clientMap : gset string) (m : InboundContext) : bool :=
  in_map clientMap (md_Client (request m)).
Definition DomainItem_Match (matcher : Matcher) (m : InboundContext) : bool := match_domain matcher m.
Definition AdGuardDomainItem_Match (matcher : Matcher) (m : InboundContext) : bool := match_domain matcher m.
Definition DomainKeywordItem_Match (keywords : list string) (m : InboundContext) : bool :=
  match_domain (λ host, existsb (str_contains host) keywords) m.
Definition DomainRegexItem_Match (matchers : list Matcher) (m : InboundContext) : bool :=
  match_domain (λ host, existsb (λ r, r host) matchers) m.
Definition PortItem_Match (portMap : gset Z) (isSource : bool) (m : InboundContext) : bool :=
  in_map portMap (port_of isSource m).
Definition ProcessItem_Match (processMap : gset string) (m : InboundContext) : bool :=
  with_process_path (λ p, in_map processMap (filepath_Base p)) m.
Definition ProcessPathRegexItem_Match (matchers : list Matcher) (m : InboundContext) : bool :=
  with_process_path (λ p, existsb (λ r, r p) matchers) m.
Definition PackageNameItem_Match (packageMap : gset string) (m : InboundContext) : bool :=
  with_process (λ p, existsb (in_map packageMap) (AndroidPackageNames p)) m.
Definition PackageNameRegexItem_Match (matchers : list Matcher) (m : InboundContext) : bool :=
  with_process (λ p, existsb (λ r, existsb r (AndroidPackageNames p)) matchers) m.
Definition UserItem_Match (userMap : gset string) (m : InboundContext) : bool :=
  with_process (λ p, if bool_decide (UserName p = ""%string) then false
                     else in_map userMap (UserName p)) m.
Definition UserIdItem_Match (userIdMap : gset Z) (m : InboundContext) : bool :=
  with_process (λ p, if bool_decide (UserId p = -1) then false else in_map userIdMap (UserId p)) m.
Definition ClashModeItem_Match (started : bool) (mode : string) : bool :=
  if negb started then false
  else match env_ClashMode E with None => false | Some current => EqualFold current mode end.
Definition OutboundItem_Match (outboundMap : gset string) (matchAny : bool) (m : InboundContext) : bool :=
  if matchAny then negb (bool_decide (md_Outbound (request m) = ""%string))
  else in_map outboundMap (md_Outbound (request m)).
Definition NetworkTypeItem_Match (networkType : list Z) : bool :=
  with_interface (λ i, bool_decide (ni_Type i ∈ networkType)).
Definition NetworkIsExpensiveItem_Match : bool := with_interface Expensive.
Definition NetworkIsConstrainedItem_Match : bool := with_interface Constrained.
Definition WIFISSIDItem_Match (ssidMap : gset string) : bool := in_map ssidMap (SSID (env_WIFIState E)).
Definition WIFIBSSIDItem_Match (bssidMap : gset string) : bool := in_map bssidMap (BSSID (env_WIFIState E)).
Definition SourceMACAddressItem_Match (addressMap : gset string) (m : InboundContext) : bool :=
  match md_SourceMACAddress (request m) with
  | None => false
  | Some mac => in_map addressMap (HardwareAddr_String mac)
  end.
Definition SourceHostnameItem_Match (hostnameMap : gset string) (m : InboundContext) : bool :=
  if bool_decide (md_SourceHostname (request m) = ""%string) then false
  else in_map hostnameMap (md_SourceHostname (request m)).
Definition PreferredByDNSItem_Match (transports : list Matcher) (m : InboundContext) : bool :=
  let host := domain_host m in
  if bool_decide (host = ""%string) then false
  else existsb (λ t, t (env_CanonicalName E host)) transports.
Definition QueryTypeItem_Match (typeMap : gset Z) (m : InboundContext) : bool :=
  if bool_decide (md_QueryType (request m) = 0) then false
  else in_map typeMap (md_QueryType (request m)).
Definition QueryDNSSECItem_Match (m : InboundContext) : bool := md_QueryDNSSEC (request m).
Definition DNSResponseRCodeItem_Match (rcode : Z) (m : InboundContext) : bool :=
  match md_DNSResponse (request m) with
  | None => false
  | Some response => bool_decide (Rcode response = rcode)
  end.

Definition RuleItem_Match (i : RuleItem) (m : InboundContext) : bool :=
  match i with
  | InboundItem _ inboundMap => InboundItem_Match inboundMap m
  | IPVersionItem isIPv6 => IPVersionItem_Match isIPv6 m
  | NetworkItem _ networkMap => NetworkItem_Match networkMap m
  | AuthUserItem _ userMap => AuthUserItem_Match userMap m
  | ProtocolItem _ protocolMap => ProtocolItem_Match protocolMap m
  | ClientItem _ clientMap => ClientItem_Match clientMap m
  | DomainItem matcher _ => DomainItem_Match matcher m
  | AdGuardDomainItem matcher => AdGuardDomainItem_Match matcher m
  | DomainKeywordItem keywords => DomainKeywordItem_Match keywords m
  | DomainRegexItem matchers _ => DomainRegexItem_Match matchers m
  | IPCIDRItem ipSet isSource _ => IPCIDRItem_Match ipSet isSource m
  | IPIsPrivateItem isSource => IPIsPrivateItem_Match isSource m
  | IPAcceptAnyItem => IPAcceptAnyItem_Match m
  | PortItem _ portMap isSource => PortItem_Match portMap isSource m
  | PortRangeItem isSource _ l => PortRangeItem_Match isSource l m
  | ProcessItem _ processMap => ProcessItem_Match processMap m
  | ProcessPathItem _ processMap => ProcessPathItem_Match processMap m
  | ProcessPathRegexItem matchers _ => ProcessPathRegexItem_Match matchers m
  | PackageNameItem _ packageMap => PackageNameItem_Match packageMap m
  | PackageNameRegexItem matchers _ => PackageNameRegexItem_Match matchers m
  | UserItem _ userMap => UserItem_Match userMap m
  | UserIdItem _ userIdMap => UserIdItem_Match userIdMap m
  | ClashModeItem started mode => ClashModeItem_Match started mode
  | OutboundItem _ outboundMap matchAny => OutboundItem_Match outboundMap matchAny m
  | NetworkTypeItem networkType => NetworkTypeItem_Match networkType
  | NetworkIsExpensiveItem => NetworkIsExpensiveItem_Match
  | NetworkIsConstrainedItem => NetworkIsConstrainedItem_Match
  | WIFISSIDItem _ ssidMap => WIFISSIDItem_Match ssidMap
  | WIFIBSSIDItem _ bssidMap => WIFIBSSIDItem_Match bssidMap
  | InterfaceAddressItem l _ => InterfaceAddressItem_Match l
  | NetworkInterfaceAddressItem l _ => NetworkInterfaceAddressItem_Match l
  | DefaultInterfaceAddressItem l => DefaultInterfaceAddressItem_Match l
  | SourceMACAddressItem _ addressMap => SourceMACAddressItem_Match addressMap m
  | SourceHostnameItem _ hostnameMap => SourceHostnameItem_Match hostnameMap m
  | PreferredByItem _ outbounds => PreferredByItem_Match outbounds m
  | PreferredByDNSItem _ transports => PreferredByDNSItem_Match transports m
  | QueryTypeItem _ typeMap => QueryTypeItem_Match typeMap m
  | QueryClientSubnetItem prefixes => QueryClientSubnetItem_Match prefixes m
  | QueryDNSSECItem => QueryDNSSECItem_Match m
  | DNSResponseRCodeItem rcode => DNSResponseRCodeItem_Match rcode m
  | DNSResponseRecordItem _ records selector => DNSResponseRecordItem_Match records selector m
  end.
End match_item.

(** ** Constructors *)

(** Functions of other packages the constructors call. *)
Record BuildEnv := MkBuildEnv {
  regexp_Compile : string → result Matcher;
  domain_NewMatcher : list string → list string → bool → Matcher;
  domain_NewAdGuardMatcher : list string → Matcher;
  netip_ParsePrefix : string → result Prefix;
  netip_ParseAddr : string → result Addr;
  netipx_IPSet : list (Prefix + Addr) → result IPSet;
  net_ParseMAC : string → option (list Z);
  dns_TypeToString : Z → option string;
  dns_RcodeToString : Z → string;
  rr_String : RR → string;
  prefix_String : Prefix → string;
}.

(** "x" for one element, "[x y z]" otherwise. *)
Definition bracket (l : list string) : string :=
  match l with [x] => x | _ => ("[" +:+ Join " " l +:+ "]")%string end.
(** The same, cut after three elements. *)
Definition bracket3 (ellipsis : string) (l : list string) : string :=
  if bool_decide (3 < length l)%nat then ("[" +:+ Join " " (take 3 l) +:+ ellipsis +:+ "]")%string
  else bracket l.

Definition set_of (l : list string) : gset string := list_to_set l.
Definition zset_of (l : list Z) : gset Z := list_to_set l.

Definition NewInboundRule (l : list string) : RuleItem := InboundItem l (set_of l).
Definition NewNetworkItem (l : list string) : RuleItem := NetworkItem l (set_of l).
Definition NewAuthUserItem (l : list string) : RuleItem := AuthUserItem l (set_of l).
Definition NewProtocolItem (l : list string) : RuleItem := ProtocolItem l (set_of l).
Definition NewClientItem (l : list string) : RuleItem := ClientItem l (set_of l).
Definition NewProcessItem (l : list string) : RuleItem := ProcessItem l (set_of l).
Definition NewProcessPathItem (l : list string) : RuleItem := ProcessPathItem l (set_of l).
Definition NewPackageNameItem (l : list string) : RuleItem := PackageNameItem l (set_of l).
Definition NewUserItem (l : list string) : RuleItem := UserItem l (set_of l).
Definition NewUserIDItem (l : list Z) : RuleItem := UserIdItem l (zset_of l).
Definition NewPortItem (isSource : bool) (l : list Z) : RuleItem := PortItem l (zset_of l) isSource.
Definition NewWIFISSIDItem (l : list string) : RuleItem := WIFISSIDItem l (set_of l).
Definition NewSourceHostnameItem (l : list string) : RuleItem := SourceHostnameItem l (set_of l).
Definition NewQueryTypeItem (l : list Z) : RuleItem :=
  let typeList := u16 <$> l in QueryTypeItem typeList (zset_of typeList).
Definition NewOutboundRule (l : list string) : RuleItem :=
  OutboundItem l (set_of (filter (λ o, o ≠ "any"%string) l)) (bool_decide ("any"%string ∈ l)).

Section constructors.
Context (B : BuildEnv).

Fixpoint map_result {A C} (f : nat → A → result C) (i : nat) (l : list A) : result (list C) :=
  match l with
  | [] => Ok []
  | x :: l => y ← f i x; ys ← map_result f (S i) l; Ok (y :: ys)
  end.

(** The loop of the three regular-expression items. *)
Definition compile_all (expressions : list string) : result (list Matcher) :=
  map_result (λ i regex,
    match regexp_Compile B regex with
    | Ok m => Ok m
    | Err e => Err (EWrap ("parse expression " +:+ Itoa (Z.of_nat i)) e)
    | Panic w => Panic w
    end) 0 expressions.
Definition NewDomainRegexItem (expressions : list string) : result RuleItem :=
  matchers ← compile_all expressions;
  Ok (DomainRegexItem matchers ("domain_regex=" +:+ bracket3 "" expressions)).
Definition NewProcessPathRegexItem (expressions : list string) : result RuleItem :=
  matchers ← compile_all expressions;
  Ok (ProcessPathRegexItem matchers ("process_path_regex=" +:+ bracket3 "" expressions)).
Definition NewPackageNameRegexItem (expressions : list string) : result RuleItem :=
  matchers ← compile_all expressions;
  Ok (PackageNameRegexItem matchers ("package_name_regex=" +:+ bracket3 "" expressions)).

Definition NewDomainItem (domains domainSuffixes : list string) : result RuleItem :=
  if bool_decide (""%string ∈ domains) then Err (ENew "domain: empty item is not allowed")
  else if bool_decide (""%string ∈ domainSuffixes) then Err (ENew "domain_suffix: empty item is not allowed")
  else
    let d1 := if bool_decide (0 < length domains)%nat
              then ("domain=" +:+ bracket3 "..." domains)%string else ""%string in
    let d2 := if bool_decide (0 < length domainSuffixes)%nat
              then ((if bool_decide (d1 = ""%string) then ""%string else " "%string) +:+
                    "domain_suffix=" +:+ bracket3 "..." domainSuffixes)%string
              else ""%string in
    Ok (DomainItem (domain_NewMatcher B domains domainSuffixes false) (d1 +:+ d2)).
Definition NewRawDomainItem (matcher : Matcher) : RuleItem :=
  DomainItem matcher "domain/domain_suffix=<binary>".
Definition NewAdGuardDomainItem (ruleLines : list string) : RuleItem :=
  AdGuardDomainItem (domain_NewAdGuardMatcher B ruleLines).

Definition parse_prefix_or_addr (i : nat) (s : string) : result (Prefix + Addr) :=
  match netip_ParsePrefix B s with
  | Ok prefix => Ok (inl prefix)
  | Panic w => Panic w
  | Err err =>
      match netip_ParseAddr B s with
      | Ok addr => Ok (inr addr)
      | Panic w => Panic w
      | Err _ => Err (EWrap ("parse [" +:+ Itoa (Z.of_nat i) +:+ "]") err)
      end
  end.
Definition cidr_key (isSource : bool) : string :=
  if isSource then "source_ip_cidr="%string else "ip_cidr="%string.
Definition NewIPCIDRItem (isSource : bool) (prefixStrings : list string) : result RuleItem :=
  l ← map_result parse_prefix_or_addr 0 prefixStrings;
  ipSet ← netipx_IPSet B l;
  Ok (IPCIDRItem ipSet isSource (cidr_key isSource +:+ bracket3 "..." prefixStrings)).
Definition NewRawIPCIDRItem (isSource : bool) (ipSet : IPSet) : RuleItem :=
  IPCIDRItem ipSet isSource (cidr_key isSource +:+ "<binary>").

(** One entry of a port range list: "a:b", ":b", "a:" or ":". *)
Fixpoint index_colon (s : string) : option nat :=
  match s with
  | ""%string => None
  | String c s => if bool_decide (c = ":"%char) then Some 0%nat else S <$> index_colon s
  end.
Definition bad_port_range (portRange : string) : error := EFmt "bad port range" [portRange].
Definition parse_port_range (portRange : string) : result rangeItem :=
  match index_colon portRange with
  | None => Err (bad_port_range portRange)
  | Some subIndex =>
      let cause {A} (r : result A) :=
        match r with Err e => Err (EWrap ("bad port range" +:+ portRange) e) | _ => r end in
      start ← (if bool_decide (0 < subIndex)%nat
               then cause (ParseUint (String.substring 0 subIndex portRange) 16) else Ok 0);
      stop ← (if bool_decide (subIndex = String.length portRange - 1)%nat then Ok 0xFFFF
              else cause (ParseUint (String.substring (subIndex + 1) (String.length portRange) portRange) 16));
      Ok (MkRange (u16 start) (u16 stop))
  end.
Definition NewPortRangeItem (isSource : bool) (rangeList : list string) : result RuleItem :=
  l ← map_result (λ _, parse_port_range) 0 rangeList;
  Ok (PortRangeItem isSource rangeList l).

Definition NewSourceMACAddressItem (addressList : list string) : RuleItem :=
  SourceMACAddressItem addressList
    (set_of ((λ a, match net_ParseMAC B a with Some mac => HardwareAddr_String mac | None => a end)
             <$> addressList)).

(** hex.DecodeString. *)
Definition hex_value (c : ascii) : option Z :=
  let n := Z.of_nat (code c) in
  if bool_decide (48 ≤ n ≤ 57) then Some (n - 48)
  else if bool_decide (97 ≤ n ≤ 102) then Some (n - 87)
  else if bool_decide (65 ≤ n ≤ 70) then Some (n - 55) else None.
Fixpoint hex_DecodeString (s : string) : option (list Z) :=
  match s with
  | ""%string => Some []
  | String a (String b s) =>
      x ← hex_value a; y ← hex_value b; l ← hex_DecodeString s; Some (x * 16 + y :: l)
  | _ => None
  end.
Definition NormalizeWIFIBSSID (bssid : string) : string :=
  let bssid := TrimSpace bssid in
  let try_hex :=
    if bool_decide (String.length bssid = 12)%nat
    then match hex_DecodeString bssid with
         | Some decoded => HardwareAddr_String decoded
         | None => bssid
         end
    else bssid in
  if bool_decide (bssid = ""%string) then ""%string
  else match net_ParseMAC B bssid with
       | Some parsed => if bool_decide (length parsed = 6)%nat then HardwareAddr_String parsed else try_hex
       | None => try_hex
       end.
Definition NewWIFIBSSIDItem (l : list string) : RuleItem :=
  WIFIBSSIDItem l (set_of (NormalizeWIFIBSSID <$> l)).

Definition InterfaceType_String (t : Z) : string :=
  if bool_decide (t = 0) then "wifi"%string else if bool_decide (t = 1) then "cellular"%string
  else if bool_decide (t = 2) then "ethernet"%string else if bool_decide (t = 3) then "other"%string
  else Itoa t.
Definition entry_description (key : string) (prefixes : list Prefix) : string :=
  (key +:+ "=" +:+ Join "," (prefix_String B <$> prefixes))%string.
Definition NewInterfaceAddressItem (l : list (string * list Prefix)) : RuleItem :=
  InterfaceAddressItem l
    ("interface_address=[" +:+ Join " " ((λ '(k, ps), entry_description k ps) <$> l) +:+ "]").
Definition NewNetworkInterfaceAddressItem (l : list (Z * list Prefix)) : RuleItem :=
  NetworkInterfaceAddressItem l
    ("network_interface_address=[" +:+
     Join " " ((λ '(k, ps), entry_description (InterfaceType_String k) ps) <$> l) +:+ "]").

(** ** String *)

Definition DNSQueryTypeToString (queryType : Z) : string :=
  match dns_TypeToString B queryType with Some name => name | None => Itoa queryType end.

Definition InboundItem_String (l : list string) : string := ("inbound=" +:+ bracket l)%string.
Definition IPVersionItem_String (isIPv6 : bool) : string :=
  ("ip_version=" +:+ (if isIPv6 then "6" else "4"))%string.
Definition NetworkItem_String (l : list string) : string := ("network=" +:+ bracket l)%string.
Definition AuthUserItem_String (l : list string) : string := ("auth_user=" +:+ bracket l)%string.
Definition ProtocolItem_String (l : list string) : string := ("protocol=" +:+ bracket l)%string.
Definition ClientItem_String (l : list string) : string := ("client=" +:+ bracket l)%string.
Definition DomainItem_String (description : string) : string := description.
Definition DomainRegexItem_String (description : string) : string := description.
Definition IPCIDRItem_String (description : string) : string := description.
Definition ProcessPathRegexItem_String (description : string) : string := description.
Definition PackageNameRegexItem_String (description : string) : string := description.
Definition InterfaceAddressItem_String (description : string) : string := description.
Definition NetworkInterfaceAddressItem_String (description : string) : string := description.
Definition DomainKeywordItem_String (l : list string) : string := ("domain_keyword=" +:+ bracket3 "..." l)%string.
Definition AdGuardDomainItem_String : string := "!adguard_domain_rules=<binary>"%string.
Definition IPIsPrivateItem_String (isSource : bool) : string :=
  (if isSource then "source_ip_is_private=true" else "ip_is_private=true")%string.
Definition IPAcceptAnyItem_String : string := "ip_accept_any=true"%string.
Definition PortItem_String (l : list Z) (isSource : bool) : string :=
  ((if isSource then "source_port=" else "port=") +:+ bracket (Itoa <$> l))%string.
Definition PortRangeItem_String (isSource : bool) (l : list string) : string :=
  ((if isSource then "source_port_range=" else "port_range=") +:+ bracket l)%string.
Definition ProcessItem_String (l : list string) : string := ("process_name=" +:+ bracket l)%string.
Definition ProcessPathItem_String (l : list string) : string := ("process_path=" +:+ bracket l)%string.
Definition PackageNameItem_String (l : list string) : string := ("package_name=" +:+ bracket l)%string.
Definition UserItem_String (l : list string) : string := ("user=" +:+ bracket l)%string.
Definition UserIdItem_String (l : list Z) : string := ("user_id=" +:+ bracket (Itoa <$> l))%string.
Definition ClashModeItem_String (mode : string) : string := ("clash_mode=" +:+ mode)%string.
Definition OutboundItem_String (l : list string) : string := ("outbound=" +:+ bracket l)%string.
Definition NetworkTypeItem_String (l : list Z) : string :=
  ("network_type=" +:+ bracket (InterfaceType_String <$> l))%string.
Definition NetworkIsExpensiveItem_String : string := "network_is_expensive=true"%string.
Definition NetworkIsConstrainedItem_String : string := "network_is_expensive=true"%string.
Definition WIFISSIDItem_String (l : list string) : string := ("wifi_ssid=" +:+ bracket l)%string.
Definition WIFIBSSIDItem_String (l : list string) : string := ("wifi_bssid=" +:+ bracket l)%string.
Definition DefaultInterfaceAddressItem_String (l : list Prefix) : string :=
  ("default_interface_address=" +:+ bracket3 "..." (prefix_String B <$> l))%string.
Definition SourceMACAddressItem_String (l : list string) : string := ("source_mac_address=" +:+ bracket l)%string.
Definition SourceHostnameItem_String (l : list string) : string := ("source_hostname=" +:+ bracket l)%string.
Definition PreferredByItem_String (l : list string) : string := ("preferred_by=" +:+ bracket l)%string.
Definition PreferredByDNSItem_String (l : list string) : string := ("preferred_by=" +:+ bracket l)%string.
Definition QueryTypeItem_String (l : list Z) : string :=
  ("query_type=" +:+ bracket (DNSQueryTypeToString <$> l))%string.
Definition QueryClientSubnetItem_String (l : list Prefix) : string :=
  ("query_client_subnet=" +:+ bracket (prefix_String B <$> l))%string.
Definition QueryDNSSECItem_String : string := "query_dnssec=true"%string.
Definition DNSResponseRCodeItem_String (rcode : Z) : string :=
  ("response_rcode=" +:+ dns_RcodeToString B rcode)%string.
Definition DNSResponseRecordItem_String (field : string) (records : list (option RR)) : string :=
  (field +:+ "=[" +:+ Join " " (rr_String B <$> omap id records) +:+ "]")%string.

Definition RuleItem_String (i : RuleItem) : string :=
  match i with
  | InboundItem l _ => InboundItem_String l
  | IPVersionItem isIPv6 => IPVersionItem_String isIPv6
  | NetworkItem l _ => NetworkItem_String l
  | AuthUserItem l _ => AuthUserItem_String l
  | ProtocolItem l _ => ProtocolItem_String l
  | ClientItem l _ => ClientItem_String l
  | DomainItem _ description => DomainItem_String description
  | DomainRegexItem _ description => DomainRegexItem_String description
  | IPCIDRItem _ _ description => IPCIDRItem_String description
  | ProcessPathRegexItem _ description => ProcessPathRegexItem_String description
  | PackageNameRegexItem _ description => PackageNameRegexItem_String description
  | InterfaceAddressItem _ description => InterfaceAddressItem_String description
  | NetworkInterfaceAddressItem _ description => NetworkInterfaceAddressItem_String description
  | DomainKeywordItem l => DomainKeywordItem_String l
  | AdGuardDomainItem _ => AdGuardDomainItem_String
  | IPIsPrivateItem isSource => IPIsPrivateItem_String isSource
  | IPAcceptAnyItem => IPAcceptAnyItem_String
  | PortItem l _ isSource => PortItem_String l isSource
  | PortRangeItem isSource l _ => PortRangeItem_String isSource l
  | ProcessItem l _ => ProcessItem_String l
  | ProcessPathItem l _ => ProcessPathItem_String l
  | PackageNameItem l _ => PackageNameItem_String l
  | UserItem l _ => UserItem_String l
  | UserIdItem l _ => UserIdItem_String l
  | ClashModeItem _ mode => ClashModeItem_String mode
  | OutboundItem l _ _ => OutboundItem_String l
  | NetworkTypeItem l => NetworkTypeItem_String l
  | NetworkIsExpensiveItem => NetworkIsExpensiveItem_String
  | NetworkIsConstrainedItem => NetworkIsConstrainedItem_String
  | WIFISSIDItem l _ => WIFISSIDItem_String l
  | WIFIBSSIDItem l _ => WIFIBSSIDItem_String l
  | DefaultInterfaceAddressItem l => DefaultInterfaceAddressItem_String l
  | SourceMACAddressItem l _ => SourceMACAddressItem_String l
  | SourceHostnameItem l _ => SourceHostnameItem_String l
  | PreferredByItem l _ => PreferredByItem_String l
  | PreferredByDNSItem l _ => PreferredByDNSItem_String l
  | QueryTypeItem l _ => QueryTypeItem_String l
  | QueryClientSubnetItem l => QueryClientSubnetItem_String l
  | QueryDNSSECItem => QueryDNSSECItem_String
  | DNSResponseRCodeItem rcode => DNSResponseRCodeItem_String rcode
  | DNSResponseRecordItem field records _ => DNSResponseRecordItem_String field records
  end%string.
End constructors.

(** ** Port ranges *)

Section port_ranges.

Lemma lacks_colon_index a b :
  lacks ":" a = true → index_colon (a +:+ String ":" b) = Some (String.length a).
Proof.
  induction a as [|c a IH]; intros Ha; [done|].
  cbn in Ha. apply andb_true_iff in Ha as [Hc Ha].
  rewrite string_app_cons. cbn [index_colon String.length].
  destruct (bool_decide (c = ":"%char)); [done|]. by rewrite IH.
Qed.

Lemma index_colon_Some s n :
  index_colon s = Some n → ∃ a b, s = a +:+ String ":" b ∧ lacks ":" a = true ∧ n = String.length a.
Proof.
  revert n; induction s as [|c s IH]; intros n; cbn; [done|].
  case_bool_decide as Hc; [intros [= <-]; subst c; by exists "", s|].
  destruct (index_colon s) as [k|]; [|done]. cbn. intros [= <-].
  destruct (IH k eq_refl) as (a & b & -> & Ha & ->). exists (String c a), b.
  split; [done|]. split; [|done]. cbn. rewrite bool_decide_eq_false_2 by done. done.
Qed.

Lemma substring_app_l a b : String.substring 0 (String.length a) (a +:+ b) = a.
Proof.
  induction a as [|c a IH]; [by destruct b|].
  rewrite string_app_cons. cbn [String.length String.substring]. by rewrite IH.
Qed.

Lemma substring_all b n : (String.length b ≤ n)%nat → String.substring 0 n b = b.
Proof.
  revert n; induction b as [|c b IH]; intros n Hn; cbn in *; [by destruct n|].
  destruct n; [lia|]. by rewrite IH by lia.
Qed.

Lemma substring_app_r a c b n :
  (String.length b ≤ n)%nat → String.substring (String.length a + 1) n (a +:+ String c b) = b.
Proof.
  intros Hn. induction a as [|x a IH]; [by apply substring_all|].
  rewrite string_app_cons. cbn [String.length Nat.add String.substring]. done.
Qed.

(** The two sides of the colon, each parsed on its own. *)
Lemma parse_port_range_split a b :
  lacks ":" a = true →
  parse_port_range (a +:+ String ":" b) =
    (let cause {A} (r : result A) :=
       match r with Err e => Err (EWrap ("bad port range" +:+ (a +:+ String ":" b)) e) | _ => r end in
     start ← (if bool_decide (a = ""%string) then Ok 0 else cause (ParseUint a 16));
     stop ← (if bool_decide (b = ""%string) then Ok 0xFFFF else cause (ParseUint b 16));
     Ok (MkRange (u16 start) (u16 stop))).
Proof.
  intros Ha. unfold parse_port_range. rewrite lacks_colon_index by done.
  rewrite substring_app_l, substring_app_r by (rewrite string_length_app; cbn; lia).
  assert (bool_decide (0 < String.length a)%nat = negb (bool_decide (a = ""%string))) as ->.
  { destruct a; [done|]. by rewrite bool_decide_eq_true_2 by (cbn; lia). }
  assert (bool_decide (String.length a = String.length (a +:+ String ":" b) - 1)%nat =
          bool_decide (b = ""%string)) as ->.
  { apply bool_decide_ext. rewrite string_length_app. cbn. destruct b; cbn; split; intros; lia || done. }
  by destruct (bool_decide (a = "")).
Qed.

(** A successful parse is a range of 16-bit ports. *)
Lemma ParseUint_range s bits v : ParseUint s bits = Ok v → 0 ≤ v < 2 ^ bits.
Proof.
  unfold ParseUint. destruct (parse_digits s) as [n|]; [|done]. case_bool_decide; [|done].
  intros [= <-]. lia.
Qed.
End port_ranges.

(** Port ranges are read back as they are written: "a:b", "a:" and ":b"
    with 16-bit bounds give exactly the items that match the ports from [a]
    (or 0) to [b] (or 65535). *)
Theorem port_range_roundtrip a b isSource m :
  0 ≤ a < 2^16 → 0 ≤ b < 2^16 →
  parse_port_range (Itoa a +:+ ":" +:+ Itoa b) = Ok (MkRange a b) ∧
  parse_port_range (Itoa a +:+ ":") = Ok (MkRange a 65535) ∧
  parse_port_range (":" +:+ Itoa b) = Ok (MkRange 0 b) ∧
  (PortRangeItem_Match isSource [MkRange a b] m = true ↔ a ≤ port_of isSource m ≤ b).
Proof.
  intros Ha Hb.
  assert (∀ z, 0 ≤ z < 2^16 → bool_decide (Itoa z = ""%string) = false ∧ ParseUint (Itoa z) 16 = Ok z)
    as Hz.
  { intros z Hz. split; [|by apply ParseUint_Itoa].
    apply bool_decide_eq_false. intros He. pose proof (ParseUint_Itoa z 16 ltac:(lia)) as Hp.
    by rewrite He in Hp. }
  assert (lacks ":" (Itoa a) = true) as Hl by (apply Itoa_lacks; [done|lia]).
  destruct (Hz a Ha) as [Hna Hpa], (Hz b Hb) as [Hnb Hpb].
  split_and!.
  - change (":" +:+ Itoa b) with (String ":" (Itoa b)).
    rewrite parse_port_range_split, Hna, Hnb, Hpa, Hpb by done. cbn. by rewrite !u16_small by lia.
  - change ":"%string with (String ":" ""). rewrite parse_port_range_split, Hna, Hpa by done. cbn.
    by rewrite !u16_small by lia.
  - change (":" +:+ Itoa b) with ("" +:+ String ":" (Itoa b)).
    rewrite parse_port_range_split, Hnb, Hpb by done. cbn. by rewrite !u16_small by lia.
  - unfold PortRangeItem_Match. cbn. rewrite orb_false_r, andb_true_iff, !bool_decide_eq_true. done.
Qed.

Definition socks0 : Socksaddr := MkSocksaddr AddrZero 0 ""%string.
Definition request0 : Request :=
  MkRequest "" 0 "" socks0 socks0 "" "" "" "" "" [] None ∅ false None None "" 0 PrefixZero false false.
Definition cache0 : RuleCache := MkRuleCache false false false false false false 0 false.
Definition context0 : InboundContext := MkContext request0 cache0.

Lemma port_range_roundtrip_witness :
  parse_port_range "1000:2000" = Ok (MkRange 1000 2000).
Proof.
  apply (port_range_roundtrip 1000 2000 false context0); lia.
Defined.

(** Without a colon there is no range. *)
Lemma parse_port_range_no_colon s : lacks ":" s = true → parse_port_range s = Err (bad_port_range s).
Proof.
  intros Hs. unfold parse_port_range. destruct (index_colon s) eqn:E; [|done].
  apply index_colon_Some in E as (a & b & -> & _ & _). exfalso. clear -Hs. unfold lacks in Hs.
  rewrite all_chars_app in Hs. cbn in Hs. by rewrite andb_false_r in Hs.
Qed.
