(* ===== verification/RuleMatch.v ===== *)
(** * Matching rules: [src/route/rule/rule_abstract.go], [rule_item_rule_set.go]

    A default rule is a conjunction of groups of conditions; the source
    address, source port, destination address and destination port groups are
    disjunctions, kept as bit sets ([ruleGroupMatch]) so that the single rule
    of a rule-set can be merged into the rule that refers to it.  A logical
    rule is a conjunction or disjunction of rules.  Every rule can be inverted.

    The matching functions write the rule cache of the metadata, so they return
    the changed context next to the answer.  [DeferredIPCIDRMatchGroups]
    records the groups whose IP conditions wait for a DNS response. *)

From S2P Require Import Prelude GoStrings NetAddr RuleContext RuleItems.

Local Open Scope Z_scope.
Local Set Warnings "-register-all".

(** ** Rules *)

Record RuleSetMetadata := MkRuleSetMetadata {
  ContainsProcessRule : bool;
  ContainsWIFIRule : bool;
  ContainsIPCIDRRule : bool;
  ContainsDNSQueryTypeRule : bool;
  ContainsNonIPCIDRRule : bool;
}.

(** A loaded rule-set, local or remote: both match with the same code. *)
Record RuleSet (R : Type) := MkRuleSet { rs_rules : list R; rs_metadata : RuleSetMetadata }.
Record RuleSetItem (R : Type) := MkRuleSetItem {
  tagList : list string;
  setList : list (RuleSet R);
  ipCidrMatchSource : bool;
  ipCidrAcceptEmpty : bool;
}.
(** [allItems] lists the items of all groups; the rule-set item, which the
    source also appends to it, is the field [ruleSetItem]. *)
Record abstractDefaultRule (R : Type) := MkDefaultRule {
  items : list RuleItem;
  sourceAddressItems : list RuleItem;
  sourcePortItems : list RuleItem;
  destinationAddressItems : list RuleItem;
  destinationIPCIDRItems : list RuleItem;
  destinationPortItems : list RuleItem;
  allItems : list RuleItem;
  ruleSetItem : option (RuleSetItem R);
  d_invert : bool;
}.
Inductive LogicalType := LogicalTypeAnd | LogicalTypeOr.
Record abstractLogicalRule (R : Type) := MkLogicalRule {
  l_rules : list R;
  l_mode : LogicalType;
  l_invert : bool;
}.

Arguments rs_rules {R}. Arguments rs_metadata {R}. Arguments MkRuleSet {R}.
Arguments tagList {R}. Arguments setList {R}. Arguments ipCidrMatchSource {R}.
Arguments ipCidrAcceptEmpty {R}. Arguments MkRuleSetItem {R}.
Arguments items {R}. Arguments sourceAddressItems {R}. Arguments sourcePortItems {R}.
Arguments destinationAddressItems {R}. Arguments destinationIPCIDRItems {R}.
Arguments destinationPortItems {R}. Arguments allItems {R}. Arguments ruleSetItem {R}.
Arguments d_invert {R}. Arguments MkDefaultRule {R}.
Arguments l_rules {R}. Arguments l_mode {R}. Arguments l_invert {R}. Arguments MkLogicalRule {R}.

(** The rule types of the package: headless rules make up rule-sets, the others
    are the rules of the router and of the DNS router. *)
Inductive Rule :=
  | DefaultHeadlessRule (r : abstractDefaultRule Rule)
  | DefaultRule (r : abstractDefaultRule Rule)
  | DefaultDNSRule (r : abstractDefaultRule Rule) (matchResponse : bool) (matchResponseTag : string)
  | LogicalRule (l : abstractLogicalRule Rule).

Definition default_rule := abstractDefaultRule Rule.
Definition logical_rule := abstractLogicalRule Rule.

Section matching.
Context `{UnicodeTables} (E : RuleEnv).

(** ** Default rules without their rule-sets *)

Definition matchAnyItem (l : list RuleItem) (m : InboundContext) : bool :=
  existsb (λ it, RuleItem_Match E it m) l.
Definition matchAllItems (l : list RuleItem) (m : InboundContext) : bool :=
  forallb (λ it, RuleItem_Match E it m) l.
Definition nonempty {A} (l : list A) : bool := negb (bool_decide (length l = 0%nat)).

Definition destinationIPCIDRMatchesSource (r : default_rule) (m : InboundContext) : bool :=
  IPCIDRMatchSource (cache m) && nonempty (destinationIPCIDRItems r).
Definition destinationIPCIDRMatchesDestination (r : default_rule) (m : InboundContext) : bool :=
  negb (IgnoreDestinationIPCIDRMatch (cache m)) && negb (IPCIDRMatchSource (cache m)) &&
  nonempty (destinationIPCIDRItems r).

Definition require (bit : Z) (g : ruleGroupMatch) : ruleGroupMatch :=
  MkGroups (Z.lor (required g) bit) (satisfied g).
Definition satisfy (bit : Z) (g : ruleGroupMatch) : ruleGroupMatch :=
  MkGroups (required g) (Z.lor (satisfied g) bit).

Definition evaluateGroups (r : default_rule) (m : InboundContext) : ruleGroupMatch * InboundContext :=
  let g := MkGroups 0 0 in
  let g := if nonempty (sourceAddressItems r)
           then let g := require ruleMatchSourceAddress g in
                if matchAnyItem (sourceAddressItems r) m then satisfy ruleMatchSourceAddress g else g
           else g in
  let g := if destinationIPCIDRMatchesSource r m
           then let g := require ruleMatchSourceAddress g in
                if negb (has (satisfied g) ruleMatchSourceAddress) &&
                   matchAnyItem (destinationIPCIDRItems r) m
                then satisfy ruleMatchSourceAddress g else g
           else g in
  let g := if nonempty (sourcePortItems r)
           then let g := require ruleMatchSourcePort g in
                if matchAnyItem (sourcePortItems r) m then satisfy ruleMatchSourcePort g else g
           else g in
  let g := if nonempty (destinationAddressItems r)
           then let g := require ruleMatchDestinationAddress g in
                if matchAnyItem (destinationAddressItems r) m then satisfy ruleMatchDestinationAddress g else g
           else g in
  let g := if destinationIPCIDRMatchesDestination r m
           then let g := require ruleMatchDestinationAddress g in
                if negb (has (satisfied g) ruleMatchDestinationAddress) &&
                   matchAnyItem (destinationIPCIDRItems r) m
                then satisfy ruleMatchDestinationAddress g else g
           else g in
  let g := if nonempty (destinationPortItems r)
           then let g := require ruleMatchDestinationPort g in
                if matchAnyItem (destinationPortItems r) m then satisfy ruleMatchDestinationPort g else g
           else g in
  let m' := if IgnoreDestinationIPCIDRMatch (cache m) && negb (IPCIDRMatchSource (cache m)) &&
               nonempty (destinationIPCIDRItems r) && negb (nonempty (destinationAddressItems r))
            then set_deferred (Z.lor (deferred m) ruleMatchDestinationAddress) m else m in
  (g, m').

(** [(groups, true)], or no groups when one of the other items fails. *)
Definition evaluateForMerge (r : default_rule) (m : InboundContext)
  : option ruleGroupMatch * InboundContext :=
  let '(groups, m) := evaluateGroups r m in
  (if matchAllItems (items r) m then Some groups else None, m).

(** ** Rule-sets *)

Definition mergeableRuleIn (rules : list Rule) : option default_rule :=
  match rules with
  | [DefaultHeadlessRule r] =>
      if d_invert r || match ruleSetItem r with Some _ => true | None => false end then None else Some r
  | _ => None
  end.

Definition prepareNestedMatch (i : RuleSetItem Rule) (m : InboundContext) : InboundContext :=
  set_cidr (ipCidrMatchSource i) (ipCidrAcceptEmpty i) (ResetRuleMatchCache m).

Section nested.
Variable rule_Match : Rule → InboundContext → bool * InboundContext.

(** The common end of the loops below. *)
Definition finish (snapshot : ruleMatchSnapshot) (matched : bool) (deferredGroups : Z)
    (m : InboundContext) : bool * InboundContext :=
  let m := restore snapshot m in
  (matched, if matched then set_deferred (Z.lor (deferred m) deferredGroups) m else m).

Definition any_loop (snapshot : ruleMatchSnapshot) :=
  fix any_loop (rules : list Rule) (matched : bool) (deferredGroups : Z) (m : InboundContext)
    {struct rules} : bool * InboundContext :=
  match rules with
  | [] => finish snapshot matched deferredGroups m
  | rule :: rules =>
      let '(b, m) := rule_Match rule (ResetRuleMatchCache m) in
      if b then
        if bool_decide (deferred m = 0) then (true, restore snapshot m)
        else any_loop rules true (Z.lor deferredGroups (deferred m)) m
      else any_loop rules matched deferredGroups m
  end.
Definition matchAnyHeadlessRule (rules : list Rule) (m : InboundContext) : bool * InboundContext :=
  any_loop (snapshotRuleMatch m) rules false 0 m.

Definition RuleSet_Match (s : RuleSet Rule) (m : InboundContext) : bool * InboundContext :=
  matchAnyHeadlessRule (rs_rules s) m.
Definition mergeableRule (s : RuleSet Rule) : option default_rule := mergeableRuleIn (rs_rules s).

Definition set_loop (i : RuleSetItem Rule) (snapshot : ruleMatchSnapshot) (outerGroups : ruleGroupMatch) :=
  fix set_loop (sets : list (RuleSet Rule)) (matched : bool) (deferredGroups : Z) (m : InboundContext)
    {struct sets} : bool * InboundContext :=
  match sets with
  | [] => finish snapshot matched deferredGroups m
  | ruleSet :: sets =>
      let m := prepareNestedMatch i m in
      match mergeableRule ruleSet with
      | Some branch =>
          let '(branchGroups, m) := evaluateForMerge branch m in
          match branchGroups with
          | Some branchGroups =>
              let merged := mergeWith outerGroups branchGroups in
              if group_done merged then
                let branchDeferredGroups := and_not (deferred m) (satisfied merged) in
                if bool_decide (branchDeferredGroups = 0)
                then let m := restore snapshot m in
                     (true, set_deferred (and_not (deferred m) (satisfied merged)) m)
                else set_loop sets true (Z.lor deferredGroups branchDeferredGroups) m
              else set_loop sets matched deferredGroups m
          | None => set_loop sets matched deferredGroups m
          end
      | None =>
          if group_done outerGroups then
            let '(b, m) := RuleSet_Match ruleSet m in
            if b then
              if bool_decide (deferred m = 0) then (true, restore snapshot m)
              else set_loop sets true (Z.lor deferredGroups (deferred m)) m
            else set_loop sets matched deferredGroups m
          else set_loop sets matched deferredGroups m
      end
  end.
Definition matchWithOuterGroups (i : RuleSetItem Rule) (outerGroups : ruleGroupMatch)
    (m : InboundContext) : bool * InboundContext :=
  set_loop i (snapshotRuleMatch m) outerGroups (setList i) false 0 m.

(** [RuleSetItem.Match], the item on its own. *)
Definition item_loop (i : RuleSetItem Rule) (snapshot : ruleMatchSnapshot) :=
  fix item_loop (sets : list (RuleSet Rule)) (m : InboundContext) {struct sets} : bool * InboundContext :=
  match sets with
  | [] => (false, restore snapshot m)
  | ruleSet :: sets =>
      let '(b, m) := RuleSet_Match ruleSet (prepareNestedMatch i m) in
      if b then (true, restore snapshot m) else item_loop sets m
  end.
Definition RuleSetItem_Match (i : RuleSetItem Rule) (m : InboundContext) : bool * InboundContext :=
  item_loop i (snapshotRuleMatch m) (setList i) m.

(** ** Default rules *)

Definition matchInner (r : default_rule) (m : InboundContext) : bool * InboundContext :=
  let '(groups, m) := evaluateGroups r m in
  if negb (matchAllItems (items r) m) then (false, m)
  else
    let '(matched, m) :=
      match ruleSetItem r with
      | Some i => matchWithOuterGroups i groups m
      | None => (group_done groups, m)
      end in
    (matched, if matched then set_deferred (and_not (deferred m) (satisfied groups)) m else m).

Definition default_Match (r : default_rule) (m : InboundContext) : bool * InboundContext :=
  if negb (nonempty (allItems r)) && match ruleSetItem r with Some _ => false | None => true end
  then (true, m)
  else
    let '(matched, m) := matchInner r m in
    if d_invert r then
      if negb matched then (true, set_deferred 0 m)
      else (negb (bool_decide (deferred m = 0)), m)
    else (matched, m).

(** ** Logical rules *)

Definition and_loop :=
  fix and_loop (rules : list Rule) (deferredGroups : Z) (m : InboundContext) {struct rules}
    : bool * Z * InboundContext :=
  match rules with
  | [] => (true, deferredGroups, m)
  | rule :: rules =>
      let '(b, m) := rule_Match rule (ResetRuleCache m) in
      if negb b then (false, 0, m) else and_loop rules (Z.lor deferredGroups (deferred m)) m
  end.
Definition or_loop :=
  fix or_loop (rules : list Rule) (matched : bool) (deferredGroups : Z) (m : InboundContext) {struct rules}
    : bool * Z * InboundContext :=
  match rules with
  | [] => (matched, deferredGroups, m)
  | rule :: rules =>
      let '(b, m) := rule_Match rule (ResetRuleCache m) in
      if b then
        if bool_decide (deferred m = 0) then (true, 0, m)
        else or_loop rules true (Z.lor deferredGroups (deferred m)) m
      else or_loop rules matched deferredGroups m
  end.

Definition logical_Match (l : logical_rule) (m : InboundContext) : bool * InboundContext :=
  let snapshot := snapshotRuleMatch m in
  let '(matched, deferredGroups, m) :=
    match l_mode l with
    | LogicalTypeAnd => and_loop (l_rules l) 0 m
    | LogicalTypeOr => or_loop (l_rules l) false 0 m
    end in
  let m := restore snapshot m in
  let m := if matched then set_deferred (Z.lor (deferred m) deferredGroups) m else m in
  if l_invert l
  then (if negb matched then true else negb (bool_decide (deferredGroups = 0)), m)
  else (matched, m).

(** [DefaultDNSRule.matchForMatch]: a rule with [match_response] is evaluated on
    a copy of the metadata that carries the response. *)
Definition with_response (response : option Msg) (fromResponse : bool) (q : Request) : Request :=
  MkRequest (md_Inbound q) (md_IPVersion q) (md_Network q) (md_Source q) (md_Destination q) (md_User q)
    (md_Outbound q) (md_Protocol q) (md_Domain q) (md_Client q) (md_DestinationAddresses q)
    response (md_NamedDNSResponses q) fromResponse (md_ProcessInfo q)
    (md_SourceMACAddress q) (md_SourceHostname q) (md_QueryType q) (md_QueryClientSubnet q)
    (md_QueryDNSSEC q) (md_PreMatch q).
Definition set_response (response : option Msg) (m : InboundContext) : InboundContext :=
  MkContext (with_response response true (request m)) (cache m).

Definition matchForMatch (r : default_rule) (matchResponse : bool) (tag : string) (m : InboundContext)
  : bool * InboundContext :=
  if matchResponse then
    let response := if bool_decide (tag = ""%string) then md_DNSResponse (request m)
                    else md_NamedDNSResponses (request m) !! tag in
    match response with
    | None => (d_invert r, m)
    | Some _ => ((default_Match r (set_response response m)).1, m)
    end
  else default_Match r m.
End nested.

Fixpoint rule_Match (rule : Rule) (m : InboundContext) {struct rule} : bool * InboundContext :=
  match rule with
  | DefaultHeadlessRule r | DefaultRule r => default_Match rule_Match r m
  | DefaultDNSRule r matchResponse tag => matchForMatch rule_Match r matchResponse tag m
  | LogicalRule l => logical_Match rule_Match l m
  end.

(** ** DNS rules: pre-matching and the address limit *)

(** [LegacyPreMatch] of the two DNS rule types: the conditions on the addresses
    of the destination are put off. *)
Definition ignoring_match (f : InboundContext → bool * InboundContext) (m : InboundContext)
  : bool * InboundContext :=
  let '(b, m) := f (set_ignore true m) in (b, set_ignore false m).
Definition LegacyPreMatch (rule : Rule) (m : InboundContext) : bool * InboundContext :=
  match rule with
  | DefaultDNSRule r matchResponse _ =>
      if matchResponse then (false, m) else ignoring_match (default_Match rule_Match r) m
  | LogicalRule l => ignoring_match (logical_Match rule_Match l) m
  | DefaultHeadlessRule _ | DefaultRule _ => (false, m)   (* not DNS rules *)
  end.

(** [MatchAddressLimit] works on a copy of the metadata. *)
Definition MatchAddressLimit (rule : Rule) (m : InboundContext) (response : option Msg) : bool :=
  let m' := set_response response (ResetRuleCache m) in
  match rule with
  | DefaultDNSRule r _ _ => (default_Match rule_Match r m').1
  | LogicalRule l => (logical_Match rule_Match l m').1
  | DefaultHeadlessRule _ | DefaultRule _ => false        (* not DNS rules *)
  end.

Definition ContainsDestinationIPCIDRRule (i : RuleSetItem Rule) : bool :=
  if ipCidrMatchSource i then false
  else existsb (λ s, ContainsIPCIDRRule (rs_metadata s)) (setList i).
Fixpoint WithAddressLimit (rule : Rule) : bool :=
  match rule with
  | DefaultDNSRule r _ _ =>
      if nonempty (destinationIPCIDRItems r) then true
      else match ruleSetItem r with Some i => ContainsDestinationIPCIDRRule i | None => false end
  | LogicalRule l => existsb WithAddressLimit (l_rules l)
  | DefaultHeadlessRule _ | DefaultRule _ => false
  end.
End matching.
