(* ===== verification/RuleSpec.v ===== *)
(** * What rule matching means: the documented semantics and its implementation

    [doc_match] is the matching logic as the documentation of DNS and route
    rules states it: the destination address, destination port, source address
    and source port conditions are disjunctions, everything else is a
    conjunction; the single, not inverted default rule of a rule-set is merged
    into the rule that refers to it, any other rule-set is a condition of its
    own, several rule-sets are a disjunction, and the ip_cidr flags of a
    rule-set reference hold for all rules of the set.  [spec_match] differs in
    one place: the sub-rules of a logical rule in a rule-set do not see the
    flags.  That is what the code does (match_source_lost_in_logical_rule);
    [flags_reach] says of a rule that it has no such place, and for those rules
    the two agree.

    The theorems relate the cache-passing code of [RuleMatch] to them: matching
    without deferral computes [spec_match] always and [doc_match] where
    [flags_reach] holds; the pre-match that puts off the address conditions of
    the destination is a sound approximation of [spec_match] for every DNS
    response. *)

From S2P Require Import Prelude GoStrings NetAddr RuleContext RuleItems RuleMatch.

Local Open Scope Z_scope.

(** ** Induction over rules *)

(** The rules a rule calls: sub-rules, or the rules of its rule-sets. *)
Definition subrules (rule : Rule) : list Rule :=
  match rule with
  | DefaultHeadlessRule r | DefaultRule r | DefaultDNSRule r _ _ =>
      match ruleSetItem r with Some i => setList i ≫= rs_rules | None => [] end
  | LogicalRule l => l_rules l
  end.

Lemma Rule_deep_ind (P : Rule → Prop) :
  (∀ rule, Forall P (subrules rule) → P rule) → ∀ rule, P rule.
Proof.
  intros Hstep. fix IH 1. intros rule. apply Hstep.
  assert (∀ r : abstractDefaultRule Rule,
            (∀ i, ruleSetItem r = Some i → Forall P (setList i ≫= rs_rules)) →
            Forall P (match ruleSetItem r with Some i => setList i ≫= rs_rules | None => [] end))
    as Hopt by (intros r Hr; destruct (ruleSetItem r); [by apply Hr|constructor]).
  destruct rule as [r|r|r mr tag|l]; cbn.
  1-3: apply Hopt; clear Hopt; destruct r as [? ? ? ? ? ? ? [[tags sets src acc]|] inv]; cbn;
       intros i [= <-]; cbn; clear -IH;
       induction sets as [|s sets IHs]; cbn; [constructor|];
       apply Forall_app; split; [|exact IHs];
       destruct s as [rules md]; cbn; clear -IH;
       induction rules as [|rule rules IHr]; constructor; [apply IH|exact IHr].
  destruct l as [rules mode inv]; cbn. clear -IH.
  induction rules as [|rule rules IHr]; constructor; [apply IH|exact IHr].
Qed.

(** ** The documented semantics *)

(** The context items are evaluated in: the request and the two flags a
    rule-set reference sets. *)
Definition ctx (q : Request) (src acc : bool) : InboundContext :=
  MkContext q (MkRuleCache src acc false false false false 0 false).
Definition view (m : InboundContext) : InboundContext :=
  ctx (request m) (IPCIDRMatchSource (cache m)) (IPCIDRAcceptEmpty (cache m)).

(** Conditions on one group: none, or whether one of them holds. *)
Definition opt_or (a b : option bool) : option bool :=
  match a, b with
  | None, x => x
  | x, None => x
  | Some x, Some y => Some (x || y)
  end.
Record conds := MkConds {
  c_sa : option bool;
  c_sp : option bool;
  c_da : option bool;
  c_dp : option bool;
}.
Definition holds1 (o : option bool) : bool := match o with None => true | Some b => b end.
Definition holds (g : conds) : bool :=
  holds1 (c_sa g) && holds1 (c_sp g) && holds1 (c_da g) && holds1 (c_dp g).
Definition merge (g h : conds) : conds :=
  MkConds (opt_or (c_sa g) (c_sa h)) (opt_or (c_sp g) (c_sp h))
    (opt_or (c_da g) (c_da h)) (opt_or (c_dp g) (c_dp h)).

Section doc.
Context `{UnicodeTables} (E : RuleEnv).

Definition cond (l : list RuleItem) (c : InboundContext) : option bool :=
  if nonempty l then Some (matchAnyItem E l c) else None.

(** [skip]: without the conditions on destination addresses. *)
Definition doc_groups (skip : bool) (r : default_rule) (c : InboundContext) : conds :=
  let src := IPCIDRMatchSource (cache c) in
  MkConds
    (opt_or (cond (sourceAddressItems r) c) (if src then cond (destinationIPCIDRItems r) c else None))
    (cond (sourcePortItems r) c)
    (opt_or (cond (destinationAddressItems r) c)
       (if src || skip then None else cond (destinationIPCIDRItems r) c))
    (cond (destinationPortItems r) c).

Definition no_conditions (r : default_rule) : bool :=
  negb (nonempty (allItems r)) && match ruleSetItem r with Some _ => false | None => true end.

Section doc_nested.
Variable spec_match : Rule → Request → bool → bool → bool.

Definition doc_set (q : Request) (i : RuleSetItem Rule) (g : conds) (s : RuleSet Rule) : bool :=
  let c := ctx q (ipCidrMatchSource i) (ipCidrAcceptEmpty i) in
  match mergeableRule s with
  | Some branch => matchAllItems E (items branch) c && holds (merge g (doc_groups false branch c))
  | None => holds g && existsb (λ rule, spec_match rule q (ipCidrMatchSource i) (ipCidrAcceptEmpty i)) (rs_rules s)
  end.
Definition doc_inner (r : default_rule) (q : Request) (src acc : bool) : bool :=
  let c := ctx q src acc in
  let g := doc_groups false r c in
  matchAllItems E (items r) c &&
  match ruleSetItem r with
  | Some i => existsb (doc_set q i g) (setList i)
  | None => holds g
  end.
Definition doc_default (r : default_rule) (q : Request) (src acc : bool) : bool :=
  if no_conditions r then true else xorb (d_invert r) (doc_inner r q src acc).
(** A logical rule asks its sub-rules without the flags of the rule-set it is in. *)
Definition spec_logical (l : logical_rule) (q : Request) : bool :=
  xorb (l_invert l)
    match l_mode l with
    | LogicalTypeAnd => forallb (λ rule, spec_match rule q false false) (l_rules l)
    | LogicalTypeOr => existsb (λ rule, spec_match rule q false false) (l_rules l)
    end.
End doc_nested.

Fixpoint spec_match (rule : Rule) (q : Request) (src acc : bool) {struct rule} : bool :=
  match rule with
  | DefaultHeadlessRule r | DefaultRule r => doc_default spec_match r q src acc
  | DefaultDNSRule r matchResponse tag =>
      if matchResponse then
        match (if bool_decide (tag = ""%string) then md_DNSResponse q else md_NamedDNSResponses q !! tag) with
        | None => d_invert r
        | Some response => doc_default spec_match r (with_response (Some response) true q) src acc
        end
      else doc_default spec_match r q src acc
  | LogicalRule l => spec_logical spec_match l q
  end.

(** The documentation makes no exception for logical rules. *)
Definition doc_logical (doc_match : Rule → Request → bool → bool → bool) (l : logical_rule) (q : Request)
    (src acc : bool) : bool :=
  xorb (l_invert l)
    match l_mode l with
    | LogicalTypeAnd => forallb (λ rule, doc_match rule q src acc) (l_rules l)
    | LogicalTypeOr => existsb (λ rule, doc_match rule q src acc) (l_rules l)
    end.
Fixpoint doc_match (rule : Rule) (q : Request) (src acc : bool) {struct rule} : bool :=
  match rule with
  | DefaultHeadlessRule r | DefaultRule r => doc_default doc_match r q src acc
  | DefaultDNSRule r matchResponse tag =>
      if matchResponse then
        match (if bool_decide (tag = ""%string) then md_DNSResponse q else md_NamedDNSResponses q !! tag) with
        | None => d_invert r
        | Some response => doc_default doc_match r (with_response (Some response) true q) src acc
        end
      else doc_default doc_match r q src acc
  | LogicalRule l => doc_logical doc_match l q src acc
  end.

(** [flags_reach flagged rule]: no logical rule in [rule] is asked under one of
    the two ip_cidr flags of a rule-set reference. *)
Definition sets_reach (reach : bool → Rule → bool) (r : default_rule) : bool :=
  match ruleSetItem r with
  | Some i => forallb (λ s, forallb (reach (ipCidrMatchSource i || ipCidrAcceptEmpty i)) (rs_rules s)) (setList i)
  | None => true
  end.
Fixpoint flags_reach (flagged : bool) (rule : Rule) {struct rule} : bool :=
  match rule with
  | DefaultHeadlessRule r | DefaultRule r | DefaultDNSRule r _ _ => sets_reach flags_reach r
  | LogicalRule l => negb flagged && forallb (flags_reach false) (l_rules l)
  end.
End doc.

(** ** Groups as bit sets *)

Definition bit_required (bit : Z) (o : option bool) : Z := match o with Some _ => bit | None => 0 end.
Definition bit_satisfied (bit : Z) (o : option bool) : Z := match o with Some true => bit | _ => 0 end.
Definition lor4 (a b c d : Z) : Z := Z.lor a (Z.lor b (Z.lor c d)).
Definition enc (g : conds) : ruleGroupMatch :=
  MkGroups
    (lor4 (bit_required ruleMatchSourceAddress (c_sa g)) (bit_required ruleMatchSourcePort (c_sp g))
       (bit_required ruleMatchDestinationAddress (c_da g)) (bit_required ruleMatchDestinationPort (c_dp g)))
    (lor4 (bit_satisfied ruleMatchSourceAddress (c_sa g)) (bit_satisfied ruleMatchSourcePort (c_sp g))
       (bit_satisfied ruleMatchDestinationAddress (c_da g)) (bit_satisfied ruleMatchDestinationPort (c_dp g))).

Lemma lor4_lor a b c d a' b' c' d' :
  Z.lor (lor4 a b c d) (lor4 a' b' c' d') = lor4 (Z.lor a a') (Z.lor b b') (Z.lor c c') (Z.lor d d').
Proof.
  unfold lor4. apply Z.bits_inj'. intros i _. rewrite !Z.lor_spec.
  destruct (Z.testbit a i), (Z.testbit b i), (Z.testbit c i), (Z.testbit d i),
    (Z.testbit a' i), (Z.testbit b' i), (Z.testbit c' i), (Z.testbit d' i); reflexivity.
Qed.

Lemma bit_required_or bit a b :
  Z.lor (bit_required bit a) (bit_required bit b) = bit_required bit (opt_or a b).
Proof. destruct a, b; cbn; by rewrite ?Z.lor_diag, ?Z.lor_0_r. Qed.
Lemma bit_satisfied_or bit a b :
  Z.lor (bit_satisfied bit a) (bit_satisfied bit b) = bit_satisfied bit (opt_or a b).
Proof. destruct a as [[]|], b as [[]|]; cbn; by rewrite ?Z.lor_diag, ?Z.lor_0_r. Qed.

Lemma mergeWith_enc g h : mergeWith (enc g) (enc h) = enc (merge g h).
Proof.
  unfold mergeWith, enc. cbn [required satisfied c_sa c_sp c_da c_dp merge].
  by rewrite !lor4_lor, !bit_required_or, !bit_satisfied_or.
Qed.

Lemma group_done_enc g : group_done (enc g) = holds g.
Proof. by destruct g as [[[]|] [[]|] [[]|] [[]|]]. Qed.

(** Deferred groups are none or the destination addresses. *)
Definition dbits (d : Z) : Prop := d = 0 ∨ d = ruleMatchDestinationAddress.

Lemma and_not_enc d g :
  dbits d → and_not d (satisfied (enc g)) = (if bool_decide (c_da g = Some true) then 0 else d).
Proof. intros [->| ->]; destruct g as [[[]|] [[]|] [[]|] [[]|]]; reflexivity. Qed.

Lemma dbits_lor d d' : dbits d → dbits d' → dbits (Z.lor d d').
Proof. intros [->| ->] [->| ->]; cbv; auto. Qed.
Lemma dbits_lor_0 d d' : dbits d → dbits d' → Z.lor d d' = 0 ↔ d = 0 ∧ d' = 0.
Proof. intros [->| ->] [->| ->]; cbv; intuition discriminate. Qed.
Lemma dbits_0 : dbits 0.
Proof. by left. Qed.
#[export] Hint Resolve dbits_lor dbits_0 : singr.

(** One step of [evaluateGroups]. *)
Lemma step_enc (c t : bool) bit g :
  (if c then let g := require bit g in if t then satisfy bit g else g else g) =
  MkGroups (Z.lor (required g) (bit_required bit (if c then Some t else None)))
           (Z.lor (satisfied g) (bit_satisfied bit (if c then Some t else None))).
Proof. destruct g, c, t; cbn; by rewrite ?Z.lor_0_r. Qed.

(** The second test of a group is skipped once the group is satisfied. *)
Lemma satisfied_again s k (t : bool) :
  0 ≤ k →
  Z.lor s (bit_satisfied (2^k) (Some (negb (has s (2^k)) && t))) = Z.lor s (bit_satisfied (2^k) (Some t)).
Proof.
  intros Hk. unfold has. destruct t; [|by rewrite andb_false_r].
  case_bool_decide as Hz; [done|]. cbn. rewrite Z.lor_0_r.
  assert (Z.testbit s k = true) as Hs.
  { apply not_false_iff_true. intros Hf. apply Hz. apply Z.bits_inj'. intros i Hi.
    rewrite Z.land_spec, Z.bits_0, Z.pow2_bits_eqb by lia.
    destruct (Z.eqb_spec k i); [subst; by rewrite Hf|by rewrite andb_false_r]. }
  apply Z.bits_inj'. intros i Hi. rewrite Z.lor_spec, Z.pow2_bits_eqb by lia.
  destruct (Z.eqb_spec k i); [subst; by rewrite Hs|by rewrite orb_false_r].
Qed.

Section items.
Context `{UnicodeTables} (E : RuleEnv).

(** Items read the request and the two flags, nothing else of the cache. *)
Lemma item_view it m : RuleItem_Match E it m = RuleItem_Match E it (view m).
Proof. by destruct it. Qed.
Lemma matchAnyItem_view l m : matchAnyItem E l m = matchAnyItem E l (view m).
Proof. unfold matchAnyItem. induction l as [|it l IH]; cbn; [done|]. by rewrite item_view, IH. Qed.
Lemma matchAllItems_view l m : matchAllItems E l m = matchAllItems E l (view m).
Proof. unfold matchAllItems. induction l as [|it l IH]; cbn; [done|]. by rewrite item_view, IH. Qed.

(** Whether [evaluateGroups] puts off the destination addresses. *)
Definition defers (r : default_rule) (m : InboundContext) : bool :=
  ignoring m && negb (match_source m) && nonempty (destinationIPCIDRItems r) &&
  negb (nonempty (destinationAddressItems r)).

Lemma cond_def l m : (if nonempty l then Some (matchAnyItem E l m) else None) = cond E l (view m).
Proof. unfold cond. by rewrite matchAnyItem_view. Qed.

Lemma evaluateGroups_doc r m :
  evaluateGroups E r m =
    (enc (doc_groups E (ignoring m) r (view m)),
     if defers r m then set_deferred (Z.lor (deferred m) ruleMatchDestinationAddress) m else m).
Proof.
  unfold evaluateGroups. rewrite !step_enc. cbn [required satisfied require]. f_equal. unfold enc.
  change ruleMatchSourceAddress with (2^0). change ruleMatchDestinationAddress with (2^2).
  unfold destinationIPCIDRMatchesSource, destinationIPCIDRMatchesDestination.
  assert (∀ s k (c t : bool), 0 ≤ k →
            Z.lor s (bit_satisfied (2^k) (if c then Some (negb (has s (2^k)) && t) else None)) =
            Z.lor s (bit_satisfied (2^k) (if c then Some t else None))) as Hagain.
  { intros s k [] t Hk; [by apply satisfied_again|done]. }
  rewrite !Hagain by lia. clear Hagain.
  assert (∀ bit (c x t : bool), bit_required bit (if c then Some (x && t) else None) =
            bit_required bit (if c then Some t else None)) as Hreq by (by intros ? []).
  rewrite !Hreq. clear Hreq. rewrite !cond_def.
  assert (∀ b : bool, (if b && nonempty (destinationIPCIDRItems r)
                then Some (matchAnyItem E (destinationIPCIDRItems r) m) else None) =
            if b then cond E (destinationIPCIDRItems r) (view m) else None) as Hcidr.
  { intros []; [apply cond_def|done]. }
  rewrite !Hcidr. clear Hcidr. unfold doc_groups. cbn [c_sa c_sp c_da c_dp].
  rewrite <- !bit_required_or, <- !bit_satisfied_or.
  change (IPCIDRMatchSource (cache (view m))) with (IPCIDRMatchSource (cache m)).
  change (ignoring m) with (IgnoreDestinationIPCIDRMatch (cache m)).
  rewrite <- negb_orb, (orb_comm (IgnoreDestinationIPCIDRMatch _)).
  rewrite !Z.lor_0_l. unfold lor4. rewrite !Z.lor_assoc.
  by destruct (IPCIDRMatchSource (cache m) || IgnoreDestinationIPCIDRMatch (cache m)).
Qed.

(** ** Items that do not look at the DNS response *)

Definition response_free (it : RuleItem) : bool :=
  match it with
  | IPCIDRItem _ isSource _ | IPIsPrivateItem isSource => isSource
  | IPAcceptAnyItem | DNSResponseRCodeItem _ | DNSResponseRecordItem _ _ _ | PreferredByItem _ _ => false
  | _ => true
  end.
Definition is_cidr (it : RuleItem) : bool :=
  match it with IPCIDRItem _ _ _ => true | _ => false end.

Lemma response_free_match it q src acc response :
  response_free it = true →
  RuleItem_Match E it (ctx (with_response response true q) src acc) = RuleItem_Match E it (ctx q src acc).
Proof. destruct it; cbn; try done; intros ->; done. Qed.
Lemma is_cidr_match it q acc response :
  is_cidr it = true →
  RuleItem_Match E it (ctx (with_response response true q) true acc) = RuleItem_Match E it (ctx q true acc).
Proof. destruct it; cbn; try done. intros _. unfold IPCIDRItem_Match. cbn. by rewrite orb_true_r. Qed.

Lemma matchAnyItem_ext l c c' :
  (∀ it, it ∈ l → RuleItem_Match E it c = RuleItem_Match E it c') → matchAnyItem E l c = matchAnyItem E l c'.
Proof.
  unfold matchAnyItem. induction l as [|it l IH]; cbn; intros Hl; [done|].
  rewrite Hl, IH; [done|set_solver|set_solver].
Qed.
Lemma matchAllItems_ext l c c' :
  (∀ it, it ∈ l → RuleItem_Match E it c = RuleItem_Match E it c') → matchAllItems E l c = matchAllItems E l c'.
Proof.
  unfold matchAllItems. induction l as [|it l IH]; cbn; intros Hl; [done|].
  rewrite Hl, IH; [done|set_solver|set_solver].
Qed.

Lemma forallb_elem (f : RuleItem → bool) l it : forallb f l = true → it ∈ l → f it = true.
Proof. intros Hf Hin. apply forallb_forall with (x := it) in Hf; [done|]. by apply list_elem_of_In. Qed.

(** The conditions of a rule that can be evaluated before the response. *)
Definition early_items (r : default_rule) : bool :=
  forallb response_free (items r) && forallb response_free (sourceAddressItems r) &&
  forallb response_free (sourcePortItems r) && forallb response_free (destinationAddressItems r) &&
  forallb response_free (destinationPortItems r).
Definition early_cidr (src : bool) (r : default_rule) : bool :=
  negb src || forallb is_cidr (destinationIPCIDRItems r).

Lemma doc_groups_response r q src acc response :
  early_items r = true → early_cidr src r = true →
  let c := ctx q src acc in
  let c' := ctx (with_response response true q) src acc in
  matchAllItems E (items r) c' = matchAllItems E (items r) c ∧
  doc_groups E false r c' =
    let g := doc_groups E true r c in
    MkConds (c_sa g) (c_sp g)
      (opt_or (c_da g) (if src then None else cond E (destinationIPCIDRItems r) c')) (c_dp g).
Proof.
  intros He Hs c c'. unfold early_items in He. rewrite !andb_true_iff in He.
  destruct He as ((((Hi & Hsa) & Hsp) & Hda) & Hdp).
  assert (∀ l, forallb response_free l = true → cond E l c' = cond E l c) as Hc.
  { intros l Hl. unfold cond. erewrite matchAnyItem_ext; [done|].
    intros it Hit. apply response_free_match. by apply (forallb_elem _ l). }
  split.
  - apply matchAllItems_ext. intros it Hit. apply response_free_match. by apply (forallb_elem _ (items r)).
  - unfold doc_groups. cbn [c_sa c_sp c_da c_dp].
    rewrite (Hc _ Hsa), (Hc _ Hsp), (Hc _ Hda), (Hc _ Hdp).
    change (IPCIDRMatchSource (cache c')) with src. change (IPCIDRMatchSource (cache c)) with src.
    rewrite orb_false_r, orb_true_r. f_equal; [|by destruct src, (cond E (destinationAddressItems r) c)].
    destruct src; [|done]. f_equal. unfold cond. erewrite matchAnyItem_ext; [done|].
    intros it Hit. apply is_cidr_match. unfold early_cidr in Hs. cbn in Hs. by apply (forallb_elem _ (destinationIPCIDRItems r)).
Qed.
End items.

(** ** Contexts that differ in the bookkeeping only *)

Definition keeps (m m' : InboundContext) : Prop := view m' = view m ∧ ignoring m' = ignoring m.

Lemma keeps_request m m' : keeps m m' → request m' = request m.
Proof. intros [Hv _]. unfold view, ctx in Hv. by injection Hv. Qed.
Lemma keeps_source m m' : keeps m m' → match_source m' = match_source m.
Proof. intros [Hv _]. unfold view, ctx, match_source in *. by injection Hv. Qed.
Lemma keeps_accept m m' : keeps m m' → IPCIDRAcceptEmpty (cache m') = IPCIDRAcceptEmpty (cache m).
Proof. intros [Hv _]. unfold view, ctx in *. by injection Hv. Qed.
#[export] Instance keeps_preorder : PreOrder keeps.
Proof.
  split; [done|]. intros a b c [H1 H2] [H3 H4]. split; [by rewrite H3|by rewrite H4].
Qed.

Lemma keeps_set_deferred d m : keeps m (set_deferred d m).
Proof. done. Qed.
Lemma keeps_reset m : keeps m (ResetRuleMatchCache m).
Proof. done. Qed.
Lemma keeps_restore m0 m m' :
  keeps m0 m → keeps m m' → keeps m0 (restore (snapshotRuleMatch m0) m').
Proof.
  intros Ha Hb. pose proof (keeps_request _ _ Ha) as Hq. pose proof (keeps_request _ _ Hb) as Hq'.
  destruct Ha as [_ Hi], Hb as [_ Hi']. split; [|by rewrite <- Hi, <- Hi'].
  unfold view, restore, snapshotRuleMatch. cbn. by rewrite Hq', Hq.
Qed.
(** After a nested match with other flags. *)
Lemma keeps_restore_nested m0 m :
  request m = request m0 → ignoring m = ignoring m0 → keeps m0 (restore (snapshotRuleMatch m0) m).
Proof.
  intros Hq Hi. split; [|done]. unfold view, restore, snapshotRuleMatch. cbn. by rewrite Hq.
Qed.
Lemma deferred_restore m0 m : deferred (restore (snapshotRuleMatch m0) m) = deferred m0.
Proof. done. Qed.
#[export] Hint Resolve keeps_set_deferred keeps_reset : singr.

(** ** Soundness of the approximation *)

(** The request as the final match sees it: with the response, when the
    destination addresses were put off. *)
Definition final (m : InboundContext) (response : option Msg) : Request :=
  if ignoring m then with_response response true (request m) else request m.

(** [b] with [d] groups deferred approximates the final answer [v]: no means
    no, yes without deferral means yes. *)
Definition approx (b : bool) (d : Z) (v : bool) : Prop :=
  (b = false → v = false) ∧ (b = true → d = 0 → v = true).

Section sound.
Context `{UnicodeTables} (E : RuleEnv).

(** Rules that never wait for the response. *)
Section free_nested.
Variable ip_free : bool → Rule → bool.
Definition set_ip_free (i : RuleSetItem Rule) (s : RuleSet Rule) : bool :=
  forallb (ip_free (ipCidrMatchSource i)) (rs_rules s).
Definition default_ip_free (src : bool) (r : default_rule) : bool :=
  (src || negb (nonempty (destinationIPCIDRItems r))) &&
  match ruleSetItem r with Some i => forallb (set_ip_free i) (setList i) | None => true end.
End free_nested.
Fixpoint ip_free (src : bool) (rule : Rule) {struct rule} : bool :=
  match rule with
  | DefaultHeadlessRule r | DefaultRule r => default_ip_free ip_free src r
  | DefaultDNSRule r matchResponse _ => matchResponse || default_ip_free ip_free src r
  | LogicalRule l => forallb (ip_free false) (l_rules l)
  end.

(** Rules whose pre-match is meaningful: domain conditions and conditions on
    destination addresses are not alternatives of one group, neither in one
    rule nor between a rule and the rule-sets it refers to. *)
Definition set_dom_free (s : RuleSet Rule) : bool :=
  match mergeableRule s with Some b => negb (nonempty (destinationAddressItems b)) | None => true end.
Section separated_nested.
Variable separated : bool → Rule → bool.
Definition default_separated (src : bool) (r : default_rule) : bool :=
  early_items r && early_cidr src r &&
  (src || negb (nonempty (destinationAddressItems r) && nonempty (destinationIPCIDRItems r))) &&
  match ruleSetItem r with
  | None => true
  | Some i =>
      forallb (λ s, forallb (separated (ipCidrMatchSource i)) (rs_rules s)) (setList i) &&
      (negb (nonempty (destinationAddressItems r)) || forallb (set_ip_free ip_free i) (setList i)) &&
      (negb (nonempty (destinationIPCIDRItems r)) || forallb set_dom_free (setList i))
  end.
End separated_nested.
Fixpoint separated (src : bool) (rule : Rule) {struct rule} : bool :=
  match rule with
  | DefaultHeadlessRule r | DefaultRule r => default_separated separated src r
  | DefaultDNSRule r matchResponse _ => negb matchResponse && default_separated separated src r
  | LogicalRule l => forallb (separated false) (l_rules l)
  end.

(** Nothing is deferred outside the pre-match, or by rules that never wait. *)
Definition exact (m : InboundContext) (free : bool) : bool := negb (ignoring m) || free.

Record sound_result (m m' : InboundContext) (b v free : bool) : Prop := MkSound {
  sound_keeps : keeps m m';
  sound_dbits : dbits (deferred m');
  sound_exact : exact m free = true → b = true → deferred m' = 0;
  sound_approx : approx b (deferred m') v;
}.

Definition rule_sound (rule : Rule) : Prop :=
  ∀ m response, deferred m = 0 → (ignoring m = true → separated (match_source m) rule = true) →
  let '(b, m') := rule_Match E rule m in
  sound_result m m' b
    (spec_match E rule (final m response) (match_source m) (IPCIDRAcceptEmpty (cache m)))
    (ip_free (match_source m) rule).

Lemma final_keeps m m' response : keeps m m' → final m' response = final m response.
Proof. intros Hk. unfold final. rewrite (keeps_request _ _ Hk). by destruct Hk as [_ ->]. Qed.

(** The loop over the rules of a rule-set. *)
Lemma any_loop_sound response m0 rules :
  Forall rule_sound rules →
  ∀ matched dg m, keeps m0 m → dbits (deferred m0) → dbits dg → (matched = true → dg ≠ 0) →
  (ignoring m0 = true → forallb (separated (match_source m0)) rules = true) →
  let v rule := spec_match E rule (final m0 response) (match_source m0) (IPCIDRAcceptEmpty (cache m0)) in
  let '(b, m') := any_loop (rule_Match E) (snapshotRuleMatch m0) rules matched dg m in
  keeps m0 m' ∧ dbits (deferred m') ∧
  (b = false → matched = false ∧ existsb v rules = false) ∧
  (b = true → deferred m' = 0 → existsb v rules = true) ∧
  (exact m0 (forallb (ip_free (match_source m0)) rules) = true → matched = false → b = true →
   deferred m' = deferred m0).
Proof.
  induction 1 as [|rule rules Hr _ IH]; intros matched dg m Hk Hd0 Hdg Hm Hsep v.
  { cbn [any_loop]. unfold finish. split; [destruct matched; by apply (keeps_restore m0 m m)|].
    destruct matched.
    - change (deferred (set_deferred _ _)) with (Z.lor (deferred m0) dg).
      split; [by apply dbits_lor|]. split; [done|]. split; [|done].
      intros _ [_ Hz]%dbits_lor_0; [|done..]. by apply Hm in Hz.
    - rewrite deferred_restore. split_and!; done. }
  cbn [any_loop]. specialize (Hr (ResetRuleMatchCache m) response eq_refl).
  destruct (rule_Match E rule (ResetRuleMatchCache m)) as [b1 m1].
  assert (keeps m0 (ResetRuleMatchCache m)) as Hk' by (by transitivity m).
  rewrite (final_keeps _ _ _ Hk'), (keeps_source _ _ Hk'), (keeps_accept _ _ Hk') in Hr.
  destruct Hr as [Hk1 Hd1 He1 Ha1].
  { intros Hi. destruct Hk' as [_ Hi']. rewrite Hi' in Hi. apply Hsep in Hi. cbn in Hi.
    by apply andb_true_iff in Hi as [? _]. }
  change (spec_match _ _ _ _ _) with (v rule) in Ha1.
  assert (keeps m0 m1) as Hk01 by (by transitivity (ResetRuleMatchCache m)).
  assert (ignoring m0 = true → forallb (separated (match_source m0)) rules = true) as Hsep'
    by (intros Hi; apply Hsep in Hi; cbn in Hi; by apply andb_true_iff in Hi as [_ ?]).
  assert (exact m0 (forallb (ip_free (match_source m0)) (rule :: rules)) = true →
          exact m0 (forallb (ip_free (match_source m0)) rules) = true ∧
          (b1 = true → deferred m1 = 0)) as Hex.
  { unfold exact in *. cbn [forallb]. destruct Hk' as [_ Hi'].
    destruct (ignoring m0); cbn in *; [|rewrite Hi' in He1; naive_solver].
    intros [Hf Hfs]%andb_true_iff. split; [done|]. apply He1. by rewrite Hf, orb_true_r. }
  destruct b1; [case_bool_decide as Hz|].
  - split; [by apply (keeps_restore m0 m1 m1)|]. rewrite deferred_restore. split; [done|].
    destruct Ha1 as [_ Hv]. cbn [existsb]. rewrite (Hv eq_refl Hz). split_and!; done.
  - specialize (IH true (Z.lor dg (deferred m1)) m1 Hk01 Hd0 (dbits_lor _ _ Hdg Hd1)).
    destruct (any_loop _ _ rules _ _ m1) as [b m'].
    destruct IH as (? & ? & Hf & Ht & _); [intros _ Hl; apply dbits_lor_0 in Hl; naive_solver|done|].
    split; [done|]. split; [done|]. cbn [existsb]. split; [naive_solver|]. split.
    + intros Hb Hdz. apply orb_true_iff. right. by apply Ht.
    + intros Hx _ _. apply Hex in Hx as [_ Hx]. exfalso. by apply Hz, Hx.
  - specialize (IH matched dg m1 Hk01 Hd0 Hdg Hm Hsep').
    destruct (any_loop _ _ rules _ _ m1) as [b m'].
    destruct IH as (? & ? & Hf & Ht & Hx). destruct Ha1 as [Hv _].
    cbn [existsb]. rewrite (Hv eq_refl). cbn [orb].
    split_and!; [done|done|done|done|]. intros Hex1. apply Hx. by apply Hex.
Qed.

(** ** Groups before and after the response *)

(** [gp] are the groups of the pre-match, [gf] those of the final match: the
    same, or the destination addresses were put off ([d]). *)
Record extends (gp gf : conds) (d : Z) : Prop := MkExtends {
  ext_sa : c_sa gf = c_sa gp;
  ext_sp : c_sp gf = c_sp gp;
  ext_dp : c_dp gf = c_dp gp;
  ext_da : (c_da gf = c_da gp ∧ d = 0) ∨ (c_da gp = None ∧ d = ruleMatchDestinationAddress);
}.

Lemma extends_false gp gf d : extends gp gf d → holds gp = false → holds gf = false.
Proof.
  intros [Hsa Hsp Hdp Hda]. unfold holds. rewrite Hsa, Hsp, Hdp.
  destruct Hda as [[-> _]|[-> _]]; [done|]. cbn. intros Hf.
  destruct (holds1 (c_sa gp)), (holds1 (c_sp gp)), (holds1 (c_dp gp)); cbn in *; try done;
    by rewrite ?andb_false_r.
Qed.
Lemma extends_exact gp gf : extends gp gf 0 → gf = gp.
Proof. intros [? ? ? [[? _]|[_ ?]]]; destruct gp, gf; cbn in *; [by subst|done]. Qed.
Lemma extends_dbits gp gf d : extends gp gf d → dbits d.
Proof. intros [_ _ _ [[_ ->]|[_ ->]]]; [by left|by right]. Qed.

Lemma extends_merge gp gf d bp bf db :
  extends gp gf d → extends bp bf db →
  (d ≠ 0 → c_da bp = None) → (db ≠ 0 → c_da gp = None) →
  extends (merge gp bp) (merge gf bf) (Z.lor d db).
Proof.
  intros [Ha1 Hb1 Hc1 Hd1] [Ha2 Hb2 Hc2 Hd2] Hx Hy.
  split; cbn; [by rewrite Ha1, Ha2|by rewrite Hb1, Hb2|by rewrite Hc1, Hc2|].
  destruct Hd1 as [[-> ->]|[Hn ->]], Hd2 as [[-> ->]|[Hn' ->]].
  - by left.
  - right. rewrite Hn', Hy by done. done.
  - right. rewrite Hn, Hx by done. done.
  - right. by rewrite Hn, Hn'.
Qed.

Lemma default_separated_early sep src r :
  default_separated sep src r = true →
  early_items r = true ∧ early_cidr src r = true ∧
  (src = false → nonempty (destinationAddressItems r) = true → nonempty (destinationIPCIDRItems r) = false).
Proof.
  unfold default_separated. rewrite !andb_true_iff. intros (((? & ?) & Hn) & _).
  split_and!; [done|done|]. intros -> Hd. rewrite Hd in Hn. by destruct (nonempty _).
Qed.

Definition deferral (r : default_rule) (m : InboundContext) : Z :=
  if defers r m then ruleMatchDestinationAddress else 0.

Lemma evaluate_extends r m response :
  (ignoring m = true → early_items r = true ∧ early_cidr (match_source m) r = true ∧
     (match_source m = false →
      nonempty (destinationAddressItems r) = true → nonempty (destinationIPCIDRItems r) = false)) →
  let c := ctx (final m response) (match_source m) (IPCIDRAcceptEmpty (cache m)) in
  matchAllItems E (items r) c = matchAllItems E (items r) (view m) ∧
  extends (doc_groups E (ignoring m) r (view m)) (doc_groups E false r c) (deferral r m).
Proof.
  intros Hsep c. unfold deferral, defers, final in *. destruct (ignoring m) eqn:Hi; cbn [andb].
  2: { split; [done|]. split; try done. by left. }
  destruct (Hsep eq_refl) as (He & Hc & Hx).
  destruct (doc_groups_response E r (request m) (match_source m) (IPCIDRAcceptEmpty (cache m)) response He Hc)
    as [Hall Hg].
  split; [done|]. subst c. rewrite Hg. split; [done|done|done|]. cbn [c_da].
  change (ctx (request m) (match_source m) _) with (view m).
  destruct (match_source m) eqn:Hs; cbn [negb andb].
  { left. split; [|done]. by destruct (c_da _). }
  unfold cond at 1. destruct (nonempty (destinationIPCIDRItems r)) eqn:Hip; cbn [andb].
  - destruct (nonempty (destinationAddressItems r)) eqn:Hdom; [by specialize (Hx eq_refl eq_refl)|]. right.
    split; [|done]. unfold doc_groups, cond. cbn. rewrite Hdom. cbn. by rewrite orb_true_r.
  - left. split; [|done]. by destruct (c_da _).
Qed.

Lemma mergeable_inv s b :
  mergeableRule s = Some b →
  rs_rules s = [DefaultHeadlessRule b] ∧ d_invert b = false ∧ ruleSetItem b = None.
Proof.
  unfold mergeableRule, mergeableRuleIn. destruct (rs_rules s) as [|[r|r|r mr tag|l] [|]]; try done.
  destruct (d_invert r) eqn:Hinv; cbn; [done|]. destruct (ruleSetItem r) eqn:Hrs; [done|].
  by intros [= <-].
Qed.

Lemma deferral_dbits r m : dbits (deferral r m).
Proof. unfold deferral. destruct (defers r m); [by right|by left]. Qed.
Hint Resolve deferral_dbits : singr.

(** ** The loop over the rule-sets of a rule *)

Section sets.
Variables (i : RuleSetItem Rule) (response : option Msg) (m0 : InboundContext) (gp gf : conds) (d0 : Z).
Hypothesis Hdef0 : deferred m0 = d0.
Hypothesis Hext0 : extends gp gf d0.
Let v (s : RuleSet Rule) : bool := doc_set E (spec_match E) (final m0 response) i gf s.

(** What the pre-match needs to know about one rule-set. *)
Definition set_fine (s : RuleSet Rule) : Prop :=
  Forall rule_sound (rs_rules s) ∧
  (ignoring m0 = true →
     forallb (separated (ipCidrMatchSource i)) (rs_rules s) = true ∧
     (d0 ≠ 0 → set_dom_free s = true) ∧ (c_da gp = None ∨ set_ip_free ip_free i s = true)) ∧
  (ignoring m0 = false → d0 = 0).

(** One rule-set of the loop: the answer and the groups it defers. *)
Definition set_step (s : RuleSet Rule) (m : InboundContext) : bool * Z * InboundContext :=
  let m := prepareNestedMatch i m in
  match mergeableRule s with
  | Some branch =>
      let '(branchGroups, m) := evaluateForMerge E branch m in
      match branchGroups with
      | Some branchGroups =>
          let merged := mergeWith (enc gp) branchGroups in
          (group_done merged, and_not (deferred m) (satisfied merged), m)
      | None => (false, 0, m)
      end
  | None =>
      if group_done (enc gp)
      then let '(b, m) := RuleSet_Match (rule_Match E) s m in (b, deferred m, m)
      else (false, 0, m)
  end.
(** The deferred groups an immediate success leaves of the outer ones. *)
Definition set_keep (s : RuleSet Rule) (m : InboundContext) : Z :=
  match mergeableRule s with
  | Some branch =>
      match (evaluateForMerge E branch (prepareNestedMatch i m)).1 with
      | Some branchGroups => and_not d0 (satisfied (mergeWith (enc gp) branchGroups))
      | None => d0
      end
  | None => d0
  end.

Lemma prepare_view m :
  request m = request m0 → ignoring m = ignoring m0 →
  let m2 := prepareNestedMatch i m in
  request m2 = request m0 ∧ ignoring m2 = ignoring m0 ∧ deferred m2 = 0 ∧
  match_source m2 = ipCidrMatchSource i ∧ IPCIDRAcceptEmpty (cache m2) = ipCidrAcceptEmpty i ∧
  final m2 response = final m0 response.
Proof. intros Hq Hi m2. unfold final. cbn. by rewrite Hq, <- Hi. Qed.

Record step_sound (s : RuleSet Rule) (m m' : InboundContext) (b : bool) (d : Z) : Prop := MkStep {
  step_request : request m' = request m0;
  step_ignoring : ignoring m' = ignoring m0;
  step_dbits : dbits d;
  step_keep : set_keep s m = 0 ∨ set_keep s m = d0;
  step_false : b = false → v s = false;
  step_true : b = true → d = 0 → set_keep s m = 0 → v s = true;
  step_exact : exact m0 (set_ip_free ip_free i s) = true → b = true → d = 0;
}.

(** A rule-set with a single mergeable rule. *)
Lemma set_step_merge s m branch :
  request m = request m0 → ignoring m = ignoring m0 → set_fine s → mergeableRule s = Some branch →
  let '(b, d, m') := set_step s m in step_sound s m m' b d.
Proof.
  intros Hq Hi (_ & Hsep & Hd0) Hb. destruct (mergeable_inv _ _ Hb) as (Hrules & _ & Hnone).
  destruct (prepare_view m Hq Hi) as (Hq2 & Hi2 & Hdf2 & Hs2 & Ha2 & Hfin2).
  unfold set_step. pose proof (eq_refl (set_keep s m)) as Hkeep. unfold set_keep in Hkeep at 2.
  rewrite Hb in *. set (m2 := prepareNestedMatch i m) in *.
  unfold evaluateForMerge in *. rewrite evaluateGroups_doc in *. rewrite Hdf2, Z.lor_0_l in *.
  set (m3 := if defers branch m2 then set_deferred ruleMatchDestinationAddress m2 else m2) in *.
  assert (view m3 = view m2 ∧ ignoring m3 = ignoring m2 ∧ deferred m3 = deferral branch m2) as (Hv3 & Hi3 & Hdf3)
    by (subst m3; unfold deferral; by destruct (defers branch m2)).
  assert (request m3 = request m0) as Hq3 by (subst m3; by destruct (defers branch m2)).
  assert (v s = matchAllItems E (items branch) (ctx (final m2 response) (match_source m2) (IPCIDRAcceptEmpty (cache m2)))
              && holds (merge gf (doc_groups E false branch
                   (ctx (final m2 response) (match_source m2) (IPCIDRAcceptEmpty (cache m2)))))) as Hv
    by (unfold v, doc_set; by rewrite Hb, Hs2, Ha2, Hfin2).
  destruct (evaluate_extends branch m2 response) as [Hall Hext].
  { rewrite Hi2, Hs2. intros Hig. destruct (Hsep Hig) as [Hsp _]. rewrite Hrules in Hsp. cbn in Hsp.
    rewrite andb_true_r in Hsp. by apply default_separated_early in Hsp. }
  rewrite Hall in Hv. rewrite (matchAllItems_view _ _ m3), Hv3 in *. clear Hall.
  destruct (matchAllItems E (items branch) (view m2)) eqn:Hall; cbn [fst] in *.
  2: { split; try done; [by rewrite Hi3, Hi2|by left|by right]. }
  rewrite mergeWith_enc, group_done_enc in *.
  set (bp := doc_groups E (ignoring m2) branch (view m2)) in *.
  set (bf := doc_groups E false branch _) in *.
  assert (extends (merge gp bp) (merge gf bf) (Z.lor d0 (deferral branch m2))) as Hm.
  { apply extends_merge; [done|done| |].
    - intros Hd. destruct (ignoring m0) eqn:Hig; [|by rewrite Hd0 in Hd].
      destruct (Hsep eq_refl) as (_ & Hdf & _). specialize (Hdf Hd). unfold set_dom_free in Hdf.
      rewrite Hb in Hdf. unfold bp, doc_groups, cond. cbn [c_da]. rewrite Hi2, orb_true_r.
      by apply negb_true_iff in Hdf as ->.
    - unfold deferral, defers. rewrite Hi2, Hs2. intros Hd.
      destruct (ignoring m0) eqn:Hig; [|done]. destruct (Hsep eq_refl) as (_ & _ & [?|Hf]); [done|].
      exfalso. unfold set_ip_free in Hf. rewrite Hrules in Hf. cbn in Hf. unfold default_ip_free in Hf.
      rewrite Hnone in Hf. destruct (ipCidrMatchSource i), (nonempty (destinationIPCIDRItems branch)); done. }
  split; rewrite ?Hdf3.
  - done.
  - by rewrite Hi3, Hi2.
  - rewrite and_not_enc by (auto with singr). case_bool_decide; auto with singr.
  - rewrite Hkeep, and_not_enc by (by eapply extends_dbits). case_bool_decide; auto.
  - rewrite Hv. intros Hf. cbn. by apply (extends_false _ _ _ Hm).
  - rewrite Hv, Hkeep. rewrite !and_not_enc by (auto with singr; by eapply extends_dbits).
    intros Ht Hz1 Hz2. cbn. destruct Hm as [Hsa Hsp Hdp Hda]. revert Ht. unfold holds.
    rewrite Hsa, Hsp, Hdp. destruct Hda as [[-> _]|[Hn Hl]]; [done|].
    rewrite Hn in Hz1, Hz2. rewrite bool_decide_eq_false_2 in Hz1, Hz2 by done.
    rewrite Hz1, Hz2 in Hl. done.
  - intros Hx _. rewrite and_not_enc by (auto with singr). case_bool_decide; [done|].
    unfold exact in Hx. unfold deferral, defers. rewrite Hi2, Hs2.
    destruct (ignoring m0); [|done]. cbn in Hx. unfold set_ip_free in Hx. rewrite Hrules in Hx. cbn in Hx.
    unfold default_ip_free in Hx. rewrite Hnone in Hx.
    destruct (ipCidrMatchSource i), (nonempty (destinationIPCIDRItems branch)); done.
Qed.

(** Any other rule-set. *)
Lemma set_step_plain s m :
  request m = request m0 → ignoring m = ignoring m0 → set_fine s → mergeableRule s = None →
  let '(b, d, m') := set_step s m in step_sound s m m' b d.
Proof.
  intros Hq Hi (Hrs & Hsep & Hd0) Hb.
  destruct (prepare_view m Hq Hi) as (Hq2 & Hi2 & Hdf2 & Hs2 & Ha2 & Hfin2).
  unfold set_step. rewrite Hb. set (m2 := prepareNestedMatch i m) in *.
  assert (set_keep s m = d0) as Hkeep by (unfold set_keep; by rewrite Hb).
  assert (v s = holds gf && existsb (λ rule, spec_match E rule (final m2 response) (match_source m2)
                (IPCIDRAcceptEmpty (cache m2))) (rs_rules s)) as Hv
    by (unfold v, doc_set; by rewrite Hb, Hs2, Ha2, Hfin2).
  rewrite group_done_enc. destruct (holds gp) eqn:Hgp.
  2: { split; try done; [by left|by right|]. intros _. rewrite Hv.
       by rewrite (extends_false _ _ _ Hext0 Hgp). }
  pose proof (any_loop_sound response m2 (rs_rules s) Hrs false 0 m2) as Hloop.
  unfold RuleSet_Match, matchAnyHeadlessRule.
  destruct (any_loop (rule_Match E) (snapshotRuleMatch m2) (rs_rules s) false 0 m2) as [b m3].
  destruct Hloop as (Hk & Hdb & Hf & Ht & Hx);
    [done|rewrite Hdf2; auto with singr|auto with singr|done| |].
  { rewrite Hi2, Hs2. intros Hig. by apply Hsep. }
  split; rewrite ?Hkeep.
  - by rewrite (keeps_request _ _ Hk).
  - destruct Hk as [_ ->]. done.
  - done.
  - by right.
  - intros Hb0. rewrite Hv. destruct (Hf Hb0) as [_ ->]. apply andb_false_r.
  - intros Hb1 Hd1 Hz. rewrite Hv, (Ht Hb1 Hd1), andb_true_r.
    pose proof Hext0 as Hx0. rewrite Hz in Hx0. by rewrite (extends_exact _ _ Hx0).
  - intros Hex Hb1. rewrite <- Hdf2. apply Hx; [|done|done].
    unfold exact, set_ip_free in *. by rewrite Hi2, Hs2.
Qed.

Lemma set_step_sound s m :
  request m = request m0 → ignoring m = ignoring m0 → set_fine s →
  let '(b, d, m') := set_step s m in step_sound s m m' b d.
Proof.
  intros Hq Hi Hs. destruct (mergeableRule s) as [b|] eqn:E0.
  - by eapply set_step_merge.
  - by apply set_step_plain.
Qed.

Lemma set_loop_step s sets matched dg m :
  set_loop E (rule_Match E) i (snapshotRuleMatch m0) (enc gp) (s :: sets) matched dg m =
  let '(b, d, m1) := set_step s m in
  if b then
    if bool_decide (d = 0) then (true, set_deferred (set_keep s m) (restore (snapshotRuleMatch m0) m1))
    else set_loop E (rule_Match E) i (snapshotRuleMatch m0) (enc gp) sets true (Z.lor dg d) m1
  else set_loop E (rule_Match E) i (snapshotRuleMatch m0) (enc gp) sets matched dg m1.
Proof.
  cbn [set_loop]. unfold set_step, set_keep. destruct (mergeableRule s) as [branch|].
  - destruct (evaluateForMerge E branch (prepareNestedMatch i m)) as [[g|] m1]; cbn [fst]; [|done].
    destruct (group_done _); [|done]. rewrite deferred_restore, Hdef0. done.
  - destruct (group_done (enc gp)); [|done].
    destruct (RuleSet_Match (rule_Match E) s (prepareNestedMatch i m)) as [[] m1]; [|done].
    case_bool_decide; [|done]. unfold restore. cbn [snapshotRuleMatch snap_deferredIPCIDRMatchGroups].
    by rewrite <- Hdef0.
Qed.

Lemma set_loop_sound sets :
  Forall set_fine sets →
  ∀ matched dg m, request m = request m0 → ignoring m = ignoring m0 → dbits dg →
  (matched = true → dg ≠ 0) →
  let '(b, m') := set_loop E (rule_Match E) i (snapshotRuleMatch m0) (enc gp) sets matched dg m in
  keeps m0 m' ∧ dbits (deferred m') ∧
  (b = false → matched = false ∧ existsb v sets = false) ∧
  (b = true → deferred m' = 0 → existsb v sets = true) ∧
  (exact m0 (forallb (set_ip_free ip_free i) sets) = true → matched = false → b = true →
   deferred m' = 0 ∨ deferred m' = d0).
Proof.
  pose proof (extends_dbits _ _ _ Hext0) as Hd0.
  induction 1 as [|s sets Hs _ IH]; intros matched dg m Hq Hi Hdg Hm.
  { cbn [set_loop]. unfold finish.
    assert (keeps m0 (restore (snapshotRuleMatch m0) m)) as Hk by (by apply keeps_restore_nested).
    split; [by destruct matched|]. destruct matched.
    - change (deferred (set_deferred _ _)) with (Z.lor (deferred m0) dg). rewrite Hdef0.
      split; [by apply dbits_lor|]. split; [done|]. split; [|done].
      intros _ [_ Hz]%dbits_lor_0; [|done..]. by apply Hm in Hz.
    - rewrite deferred_restore, Hdef0. split_and!; done. }
  rewrite set_loop_step. pose proof (set_step_sound s m Hq Hi Hs) as Hstep.
  destruct (set_step s m) as [[b d] m1]. destruct Hstep as [Hq1 Hi1 Hdb Hkeep Hf Ht Hx].
  assert (exact m0 (forallb (set_ip_free ip_free i) (s :: sets)) = true →
          exact m0 (set_ip_free ip_free i s) = true ∧
          exact m0 (forallb (set_ip_free ip_free i) sets) = true) as Hex.
  { unfold exact. cbn [forallb]. destruct (ignoring m0); cbn; [|done]. by intros ?%andb_true_iff. }
  destruct b; [case_bool_decide as Hz|]; cbn [existsb].
  - split; [by apply keeps_restore_nested|]. change (deferred (set_deferred ?x _)) with x.
    split; [by destruct Hkeep as [->| ->]; auto with singr|]. split; [done|]. split.
    + intros _ Hk. by rewrite Ht.
    + intros _ _ _. done.
  - specialize (IH true (Z.lor dg d) m1 Hq1 Hi1 (dbits_lor _ _ Hdg Hdb)).
    destruct (set_loop _ _ _ _ _ sets _ _ m1) as [b m'].
    destruct IH as (? & ? & Hf' & Ht' & _); [intros _ Hl; apply dbits_lor_0 in Hl; naive_solver|].
    split; [done|]. split; [done|]. split; [intros Hb; by destruct (Hf' Hb)|]. split.
    + intros Hb Hd. by rewrite (Ht' Hb Hd), orb_true_r.
    + intros Hx' _ _. exfalso. apply Hex in Hx' as [Hx' _]. by apply Hz, Hx.
  - specialize (IH matched dg m1 Hq1 Hi1 Hdg Hm).
    destruct (set_loop _ _ _ _ _ sets _ _ m1) as [b m']. destruct IH as (? & ? & Hf' & Ht' & Hx').
    rewrite (Hf eq_refl). cbn [orb]. split_and!; try done. intros Hex1. apply Hx'. by apply Hex.
Qed.
End sets.

(** ** Default rules *)

Definition sets_sound (r : default_rule) : Prop :=
  ∀ i, ruleSetItem r = Some i → Forall (λ s, Forall rule_sound (rs_rules s)) (setList i).

Lemma sets_fine r i m m1 :
  sets_sound r → ruleSetItem r = Some i → ignoring m1 = ignoring m →
  (ignoring m = true → default_separated separated (match_source m) r = true) →
  Forall (set_fine i m1 (doc_groups E (ignoring m) r (view m)) (deferral r m)) (setList i).
Proof.
  intros Hs Hi Him Hsep. specialize (Hs i Hi). rewrite Forall_forall in *. intros s Hin.
  split; [by apply Hs|]. rewrite Him. split.
  - intros Hig. specialize (Hsep Hig). unfold default_separated in Hsep. rewrite Hi in Hsep.
    rewrite !andb_true_iff in Hsep. destruct Hsep as ((_ & Hx) & ((Ha & Hb) & Hc)).
    rewrite forallb_forall in Ha. apply list_elem_of_In in Hin. split; [by apply Ha|]. split.
    + intros Hd. unfold deferral, defers in Hd. rewrite orb_true_iff in Hc. destruct Hc as [Hc|Hc].
      * apply negb_true_iff in Hc. rewrite Hc, andb_false_r in Hd. done.
      * rewrite forallb_forall in Hc. by apply Hc.
    + rewrite orb_true_iff in Hb. destruct Hb as [Hb|Hb].
      * left. unfold doc_groups, cond. cbn [c_da]. rewrite Hig, orb_true_r.
        by apply negb_true_iff in Hb as ->.
      * right. rewrite forallb_forall in Hb. by apply Hb.
  - intros Hig. unfold deferral, defers. by rewrite Hig.
Qed.

Lemma default_ip_free_deferral src r m :
  match_source m = src → exact m (default_ip_free ip_free src r) = true → deferral r m = 0.
Proof.
  unfold exact, deferral, defers, default_ip_free. intros ->. destruct (ignoring m); [|done]. cbn.
  destruct src, (nonempty (destinationIPCIDRItems r)); done.
Qed.

Lemma matchInner_sound r m response :
  sets_sound r → deferred m = 0 →
  (ignoring m = true → default_separated separated (match_source m) r = true) →
  let '(b, m') := matchInner E (rule_Match E) r m in
  sound_result m m' b
    (doc_inner E (spec_match E) r (final m response) (match_source m) (IPCIDRAcceptEmpty (cache m)))
    (default_ip_free ip_free (match_source m) r).
Proof.
  intros Hsets Hdef Hsep. unfold matchInner, doc_inner. rewrite evaluateGroups_doc, Hdef, Z.lor_0_l.
  destruct (evaluate_extends r m response) as [Hall Hext].
  { intros Hig. by apply default_separated_early with (sep := separated), Hsep. }
  set (m1 := if defers r m then set_deferred ruleMatchDestinationAddress m else m).
  assert (keeps m m1) as Hk1 by (subst m1; by destruct (defers r m)).
  assert (deferred m1 = deferral r m) as Hd1 by (subst m1; unfold deferral; by destruct (defers r m)).
  rewrite Hall. rewrite (matchAllItems_view _ _ m1). destruct Hk1 as [Hv1 Hi1]. rewrite Hv1.
  destruct (matchAllItems E (items r) (view m)); cbn [negb andb].
  2: { split; [by split|rewrite Hd1; auto with singr|done|by split]. }
  pose proof (default_ip_free_deferral (match_source m) r m eq_refl) as Hfree.
  set (gp := doc_groups E (ignoring m) r (view m)) in *.
  set (gf := doc_groups E false r _) in *.
  destruct (ruleSetItem r) as [i|] eqn:Hrs.
  - pose proof (sets_fine r i m m1 Hsets Hrs Hi1 Hsep) as Hfine.
    pose proof (set_loop_sound i response m1 gp gf (deferral r m) Hd1 Hext (setList i) Hfine false 0 m1
                  eq_refl eq_refl dbits_0) as Hloop.
    unfold matchWithOuterGroups.
    destruct (set_loop E (rule_Match E) i (snapshotRuleMatch m1) (enc gp) (setList i) false 0 m1) as [b m2].
    destruct Hloop as (Hk2 & Hdb2 & Hf & Ht & Hx); [done|].
    rewrite (final_keeps m m1) in Hf, Ht by (by split).
    assert (keeps m m2) as Hk by (transitivity m1; [by split|done]).
    assert (exact m (default_ip_free ip_free (match_source m) r) = true → b = true → deferred m2 = 0) as Hex.
    { intros He Hb. rewrite <- (Hfree He). destruct (Hx) as [Hz|Hz]; [|done|done| |done].
      - unfold exact in *. rewrite Hi1. destruct (ignoring m); [|done]. cbn in *.
        unfold default_ip_free in He. rewrite Hrs in He. by apply andb_true_iff in He as [_ ?].
      - by rewrite Hz, (Hfree He). }
    destruct b; [|split; [done|done|done|split; [intros _; by apply Hf|done]]].
    rewrite and_not_enc by done. split; [by transitivity m2| | |].
    + change (deferred (set_deferred ?x _)) with x. case_bool_decide; auto with singr.
    + intros He _. change (deferred (set_deferred ?x _)) with x. case_bool_decide; [done|]. by apply Hex.
    + split; [done|]. intros _. change (deferred (set_deferred ?x _)) with x.
      case_bool_decide as Hda; [|by apply Ht]. intros _. apply Ht; [done|].
      (* a satisfied domain condition: no rule-set waits for the response *)
      assert (deferral r m = 0) as Hz by (destruct Hext as [_ _ _ [[_ ?]|[Hn _]]]; [done|by rewrite Hn in Hda]).
      destruct Hx as [?|Hx]; [|done|done|done|by rewrite Hx].
      unfold exact. rewrite Hi1. destruct (ignoring m) eqn:Hig; [|done]. cbn.
      specialize (Hsep eq_refl). unfold default_separated in Hsep. rewrite Hrs in Hsep.
      rewrite !andb_true_iff in Hsep. destruct Hsep as (_ & ((_ & Hb) & _)).
      apply orb_true_iff in Hb as [Hb|Hb]; [|done]. exfalso. revert Hda.
      unfold gp, doc_groups, cond. cbn [c_da]. rewrite orb_true_r. by apply negb_true_iff in Hb as ->.
  - rewrite group_done_enc. destruct (holds gp) eqn:Hgp.
    + rewrite Hd1, and_not_enc by auto with singr. split; [by split| | |].
      * change (deferred (set_deferred ?x _)) with x. case_bool_decide; auto with singr.
      * intros He _. change (deferred (set_deferred ?x _)) with x. by rewrite (Hfree He), Tauto.if_same.
      * split; [done|]. intros _. change (deferred (set_deferred ?x _)) with x.
        destruct Hext as [Hsa Hsp Hdp [[Hda _]|[Hn Hd]]].
        -- intros _. unfold holds in *. by rewrite Hsa, Hsp, Hdp, Hda.
        -- rewrite Hn, Hd. rewrite bool_decide_eq_false_2 by done. done.
    + split; [by split|rewrite Hd1; auto with singr|done|]. split; [|done]. intros _.
      by apply (extends_false _ _ _ Hext).
Qed.

Lemma default_sound r m response :
  sets_sound r → deferred m = 0 →
  (ignoring m = true → default_separated separated (match_source m) r = true) →
  let '(b, m') := default_Match E (rule_Match E) r m in
  sound_result m m' b
    (doc_default E (spec_match E) r (final m response) (match_source m) (IPCIDRAcceptEmpty (cache m)))
    (default_ip_free ip_free (match_source m) r).
Proof.
  intros Hsets Hdef Hsep. unfold default_Match, doc_default. fold (no_conditions r).
  destruct (no_conditions r).
  { split; [done|rewrite Hdef; auto with singr|done|done]. }
  pose proof (matchInner_sound r m response Hsets Hdef Hsep) as Hin.
  destruct (matchInner E (rule_Match E) r m) as [b m']. destruct Hin as [Hk Hd Hx [Hf Ht]].
  destruct (d_invert r).
  - destruct b; cbn [negb].
    + split; [done|done| |].
      * intros He Hb. by apply Hx.
      * split; [|by intros Hnz%negb_true_iff%bool_decide_eq_false].
        intros Hz%negb_false_iff%bool_decide_eq_true. by rewrite (Ht eq_refl Hz).
    + split; [done|auto with singr|done|]. split; [done|]. intros _ _. by rewrite (Hf eq_refl).
  - rewrite xorb_false_l. by split.
Qed.

(** ** Logical rules *)

Lemma logical_loops_sound response m0 rules :
  Forall rule_sound rules →
  (ignoring m0 = true → forallb (separated false) rules = true) →
  let v rule := spec_match E rule (final m0 response) false false in
  ∀ m, request m = request m0 → ignoring m = ignoring m0 →
  (∀ dg, dbits dg →
     let '(b, d, m') := and_loop (rule_Match E) rules dg m in
     request m' = request m0 ∧ ignoring m' = ignoring m0 ∧ dbits d ∧
     (b = false → d = 0 ∧ forallb v rules = false) ∧ (b = true → d = 0 → dg = 0 ∧ forallb v rules = true) ∧
     (exact m0 (forallb (ip_free false) rules) = true → dg = 0 → d = 0)) ∧
  (∀ matched dg, dbits dg → (matched = true → dg ≠ 0) →
     let '(b, d, m') := or_loop (rule_Match E) rules matched dg m in
     request m' = request m0 ∧ ignoring m' = ignoring m0 ∧ dbits d ∧
     (b = false → matched = false ∧ existsb v rules = false) ∧ (b = true → d = 0 → existsb v rules = true) ∧
     (exact m0 (forallb (ip_free false) rules) = true → matched = false → dg = 0 → d = 0)).
Proof.
  intros Hall Hsep v.
  induction Hall as [|rule rules Hr _ IH]; intros m Hq Hi.
  { split; [naive_solver|]. intros [] dg Hdg Hm; cbn; [|naive_solver].
    split_and!; try done. intros _ Hz. by apply Hm in Hz. }
  specialize (Hr (ResetRuleCache m) response eq_refl).
  assert (ignoring m0 = true → separated false rule = true ∧ forallb (separated false) rules = true) as Hsep2
    by (intros Hig; apply Hsep in Hig; cbn in Hig; by apply andb_true_iff in Hig).
  assert (final (ResetRuleCache m) response = final m0 response) as Hfin.
  { unfold final. change (ignoring (ResetRuleCache m)) with (ignoring m).
    change (request (ResetRuleCache m)) with (request m). by rewrite Hq, Hi. }
  cbn [and_loop or_loop].
  destruct (rule_Match E rule (ResetRuleCache m)) as [b1 m1]. rewrite Hfin in Hr.
  change (match_source (ResetRuleCache m)) with false in Hr.
  change (IPCIDRAcceptEmpty (cache (ResetRuleCache m))) with false in Hr.
  change (ignoring (ResetRuleCache m)) with (ignoring m) in Hr. rewrite Hi in Hr.
  destruct Hr as [Hk1 Hd1 Hx1 [Hf1 Ht1]]; [intros Hig; by apply Hsep2|].
  change (spec_match _ _ _ _ _) with (v rule) in Hf1, Ht1.
  assert (request m1 = request m0) as Hq1 by (by rewrite (keeps_request _ _ Hk1)).
  assert (ignoring m1 = ignoring m0) as Hi1 by (destruct Hk1 as [_ ->]; done).
  destruct (IH ltac:(intros Hig; by apply Hsep2) m1 Hq1 Hi1) as [IHa IHo]. clear IH.
  assert (exact m0 (forallb (ip_free false) (rule :: rules)) = true →
          exact m0 (forallb (ip_free false) rules) = true ∧ (b1 = true → deferred m1 = 0)) as Hex.
  { unfold exact in *. change (ignoring (ResetRuleCache m)) with (ignoring m) in Hx1. rewrite Hi in Hx1.
    cbn [forallb]. destruct (ignoring m0); cbn in *; [|naive_solver].
    intros [Hf Hfs]%andb_true_iff. split; [done|]. by apply Hx1. }
  split.
  - intros dg Hdg. destruct b1; cbn [negb].
    + specialize (IHa (Z.lor dg (deferred m1)) (dbits_lor _ _ Hdg Hd1)).
      destruct (and_loop (rule_Match E) rules _ m1) as [[b d] m'].
      destruct IHa as (? & ? & ? & Hf & Ht & Hx). cbn [forallb]. split_and!; try done.
      * intros Hb. destruct (Hf Hb) as [-> ->]. by rewrite andb_false_r.
      * intros Hb Hz. destruct (Ht Hb Hz) as [[? Hz1]%dbits_lor_0 ->]; [|done..].
        by rewrite Ht1, andb_true_r by done.
      * intros He ->. apply Hex in He as [He Hz]. apply Hx; [done|]. by rewrite Hz.
    + cbn [forallb]. rewrite Hf1 by done. split_and!; try done; by left.
  - intros matched dg Hdg Hm. destruct b1; [case_bool_decide as Hz|].
    + cbn [existsb]. rewrite Ht1 by done. split_and!; try done. by left.
    + specialize (IHo true (Z.lor dg (deferred m1)) (dbits_lor _ _ Hdg Hd1)).
      destruct (or_loop (rule_Match E) rules true _ m1) as [[b d] m'].
      destruct IHo as (? & ? & ? & Hf & Ht & Hx); [intros _ Hl; apply dbits_lor_0 in Hl; naive_solver|].
      cbn [existsb]. split_and!; try done.
      * intros Hb. by destruct (Hf Hb).
      * intros Hb Hd. by rewrite (Ht Hb Hd), orb_true_r.
      * intros He _ _. apply Hex in He as [_ He]. exfalso. by apply Hz, He.
    + specialize (IHo matched dg Hdg Hm).
      destruct (or_loop (rule_Match E) rules matched dg m1) as [[b d] m'].
      destruct IHo as (? & ? & ? & Hf & Ht & Hx). cbn [existsb]. rewrite Hf1 by done. cbn [orb].
      split_and!; try done. intros He. apply Hx. by apply Hex.
Qed.

Lemma logical_sound l m response :
  Forall rule_sound (l_rules l) → deferred m = 0 →
  (ignoring m = true → forallb (separated false) (l_rules l) = true) →
  let '(b, m') := logical_Match (rule_Match E) l m in
  sound_result m m' b (spec_logical (spec_match E) l (final m response))
    (forallb (ip_free false) (l_rules l)).
Proof.
  intros Hall Hdef Hsep. unfold logical_Match, spec_logical.
  destruct (logical_loops_sound response m (l_rules l) Hall Hsep m eq_refl eq_refl) as [Ha Ho].
  assert (∃ b d m1 v,
    match l_mode l with
    | LogicalTypeAnd => and_loop (rule_Match E) (l_rules l) 0 m
    | LogicalTypeOr => or_loop (rule_Match E) (l_rules l) false 0 m
    end = (b, d, m1) ∧
    match l_mode l with
    | LogicalTypeAnd => forallb (λ rule, spec_match E rule (final m response) false false) (l_rules l)
    | LogicalTypeOr => existsb (λ rule, spec_match E rule (final m response) false false) (l_rules l)
    end = v ∧
    request m1 = request m ∧ ignoring m1 = ignoring m ∧ dbits d ∧ approx b d v ∧
    (exact m (forallb (ip_free false) (l_rules l)) = true → b = true → d = 0))
    as (b & d & m1 & v & -> & -> & Hq & Hi & Hd & [Hf Ht] & Hx).
  { destruct (l_mode l).
    - specialize (Ha 0 dbits_0). destruct (and_loop _ _ _ _) as [[b d] m1].
      destruct Ha as (? & ? & ? & Hf & Ht & Hx). eexists b, d, m1, _. split_and!; try done.
      + split; [intros Hb; by destruct (Hf Hb)|]. intros Hb Hz. by destruct (Ht Hb Hz).
      + intros He _. by apply Hx.
    - specialize (Ho false 0 dbits_0 ltac:(done)). destruct (or_loop _ _ _ _ _) as [[b d] m1].
      destruct Ho as (? & ? & ? & Hf & Ht & Hx). eexists b, d, m1, _. split_and!; try done.
      + split; [intros Hb; by destruct (Hf Hb)|done].
      + intros He _. by apply Hx. }
  set (m2 := restore (snapshotRuleMatch m) m1).
  assert (keeps m m2) as Hk by (by apply keeps_restore_nested).
  assert (deferred m2 = 0) as Hz2 by done.
  destruct b; cbn [negb].
  - change (deferred (set_deferred ?x _)) with x. rewrite Hz2, Z.lor_0_l.
    destruct (l_invert l).
    + split; [by transitivity m2|done| |].
      * intros He _. by apply Hx.
      * split; [|by intros Hnz%negb_true_iff%bool_decide_eq_false].
        intros Hz%negb_false_iff%bool_decide_eq_true. by rewrite (Ht eq_refl Hz).
    + rewrite xorb_false_l. split; [by transitivity m2|done| |by split]. intros He _. by apply Hx.
  - rewrite (Hf eq_refl). destruct (l_invert l); (split; [done|rewrite Hz2; auto with singr|done|done]).
Qed.

(** ** All rules *)

Theorem all_rules_sound rule : rule_sound rule.
Proof.
  induction rule as [rule IH] using Rule_deep_ind.
  assert (∀ r : default_rule,
            Forall rule_sound (match ruleSetItem r with Some i => setList i ≫= rs_rules | None => [] end) →
            sets_sound r) as Hsets.
  { intros r Hr i Hi. rewrite Hi in Hr. rewrite Forall_forall in Hr. apply Forall_forall. intros s Hs.
    apply Forall_forall. intros x Hx. apply Hr. apply list_elem_of_bind. eauto. }
  intros m response Hdef Hsep.
  destruct rule as [r|r|r mr tag|l]; cbn [rule_Match spec_match ip_free separated subrules] in *.
  - apply default_sound; auto.
  - apply default_sound; auto.
  - unfold matchForMatch. destruct mr; cbn [negb andb orb] in *.
    2: { apply default_sound; auto. }
    destruct (ignoring m) eqn:Hig; [by specialize (Hsep eq_refl)|].
    unfold final. rewrite Hig. cbn [md_DNSResponse md_NamedDNSResponses].
    destruct (if bool_decide (tag = ""%string) then _ else _) as [resp|].
    2: { split; [done|rewrite Hdef; auto with singr|done|done]. }
    pose proof (default_sound r (set_response (Some resp) m) None) as Hr.
    destruct (default_Match E (rule_Match E) r (set_response (Some resp) m)) as [b m'].
    destruct Hr as [Hk Hd Hx Ha]; [auto|done|intros Hi; change (ignoring m = true) in Hi; congruence|].
    change (ignoring (set_response (Some resp) m)) with (ignoring m) in *.
    unfold final in Ha. change (ignoring (set_response (Some resp) m)) with (ignoring m) in Ha.
    rewrite Hig in Ha. cbn [fst].
    split; [done|rewrite Hdef; auto with singr|done|].
    destruct Ha as [Hf Ht]. split; [done|]. intros Hb _. apply Ht; [done|]. apply Hx; [|done].
    unfold exact. change (ignoring (set_response (Some resp) m)) with (ignoring m). by rewrite Hig.
  - apply logical_sound; auto.
Qed.
End sound.

(** An answer of the pre-match against the exact final one. *)
Lemma approx_exact m m' b v f n n' b2 f2 :
  sound_result m m' b v f → sound_result n n' b2 v f2 → ignoring n = false →
  (b = false → b2 = false) ∧ (b = true → deferred m' = 0 → b2 = true).
Proof.
  intros [_ _ _ [Hf Ht]] [_ _ Hx [Hf2 Ht2]] Hn.
  assert (b2 = true → deferred n' = 0) as Hz by (apply Hx; unfold exact; by rewrite Hn).
  destruct b2; naive_solver.
Qed.

(** Outside the pre-match the answer is exact. *)
Lemma rule_Match_exact `{UnicodeTables} (E : RuleEnv) rule m :
  deferred m = 0 → ignoring m = false →
  (rule_Match E rule m).1 = spec_match E rule (request m) (match_source m) (IPCIDRAcceptEmpty (cache m)) ∧
  ((rule_Match E rule m).1 = true → deferred (rule_Match E rule m).2 = 0) ∧ keeps m (rule_Match E rule m).2.
Proof.
  intros Hd Hi. pose proof (all_rules_sound E rule m None Hd) as Hs.
  destruct (rule_Match E rule m) as [b m']. cbn [fst snd].
  destruct Hs as [Hk _ Hx [Hf Ht]]; [by rewrite Hi|].
  assert (b = true → deferred m' = 0) as Hz by (apply Hx; unfold exact; by rewrite Hi).
  unfold final in Hf, Ht. rewrite Hi in Hf, Ht. split_and!; [|done|done].
  destruct b; symmetry; auto.
Qed.

(** ** Claims *)

Definition flags_of (m : InboundContext) : bool * bool := (match_source m, IPCIDRAcceptEmpty (cache m)).

(** Where no flag is lost, documentation and code agree. *)
Lemma doc_default_spec `{UnicodeTables} (E : RuleEnv) r q src acc :
  sets_reach flags_reach r = true →
  Forall (λ rule, ∀ q src acc, flags_reach (src || acc) rule = true → doc_match E rule q src acc = spec_match E rule q src acc)
    (match ruleSetItem r with Some i => setList i ≫= rs_rules | None => [] end) →
  doc_default E (doc_match E) r q src acc = doc_default E (spec_match E) r q src acc.
Proof.
  intros Hr IH. unfold doc_default, doc_inner. destruct (no_conditions r); [done|]. do 2 f_equal.
  unfold sets_reach in Hr. destruct (ruleSetItem r) as [i|]; [|done].
  rewrite Forall_forall in IH. rewrite forallb_forall in Hr. apply existsb_ext_in. intros s Hs.
  unfold doc_set. destruct (mergeableRule s); [done|]. f_equal. apply existsb_ext_in. intros rule Hrule.
  apply IH; [apply list_elem_of_bind; eauto|]. specialize (Hr s ltac:(by apply list_elem_of_In)).
  rewrite forallb_forall in Hr. by apply Hr, list_elem_of_In.
Qed.

Lemma doc_match_spec `{UnicodeTables} (E : RuleEnv) rule : ∀ q src acc,
  flags_reach (src || acc) rule = true → doc_match E rule q src acc = spec_match E rule q src acc.
Proof.
  induction rule as [rule IH] using Rule_deep_ind. intros q src acc Hr.
  destruct rule as [r|r|r mr tag|l]; cbn in Hr, IH |- *; [by apply doc_default_spec..| |].
  - destruct mr; [destruct (if bool_decide _ then _ else _); [|done]|]; by apply doc_default_spec.
  - apply andb_true_iff in Hr as [Hf Hr]. destruct src, acc; try done.
    rewrite Forall_forall in IH. rewrite forallb_forall in Hr. unfold doc_logical, spec_logical. f_equal.
    destruct (l_mode l); [apply forallb_ext_in|apply existsb_ext_in]; intros rule Hrule;
      apply IH; try done; by apply Hr, list_elem_of_In.
Qed.


(** (C20) The pre-match of DNS rules is sound for every response.  For a rule
    whose domain and address conditions are separate, a query the pre-match
    rejects is rejected by [MatchAddressLimit] whatever the response is, and a
    query it accepts without deferring anything is accepted whatever the
    response is. *)
Theorem prematch_sound `{UnicodeTables} (E : RuleEnv) rule m response :
  separated false rule = true → ignoring m = false →
  let '(b, m') := LegacyPreMatch E rule (ResetRuleCache m) in
  (b = false → MatchAddressLimit E rule m response = false) ∧
  (b = true → deferred m' = 0 → MatchAddressLimit E rule m response = true).
Proof.
  intros Hsep Hi.
  pose proof (all_rules_sound E rule (set_ignore true (ResetRuleCache m)) response eq_refl (λ _, Hsep)) as Hpre.
  pose proof (all_rules_sound E rule (set_response response (ResetRuleCache m)) None eq_refl) as Hfin.
  change (ignoring (set_response response (ResetRuleCache m))) with (ignoring m) in Hfin.
  assert (final (set_response response (ResetRuleCache m)) None =
          final (set_ignore true (ResetRuleCache m)) response) as Hfq.
  { unfold final. change (ignoring (set_response response (ResetRuleCache m))) with (ignoring m).
    by rewrite Hi. }
  rewrite Hfq in Hfin. clear Hfq.
  destruct rule as [r|r|r [] tag|l]; cbn [LegacyPreMatch MatchAddressLimit]; try done; unfold ignoring_match;
    cbn [rule_Match matchForMatch spec_match] in *.
  - destruct (default_Match E (rule_Match E) r (set_ignore true (ResetRuleCache m))) as [b m1].
    destruct (default_Match E (rule_Match E) r (set_response response (ResetRuleCache m))) as [b2 m2].
    eapply (approx_exact _ m1); [apply Hpre|apply Hfin; by rewrite Hi|done].
  - destruct (logical_Match (rule_Match E) l (set_ignore true (ResetRuleCache m))) as [b m1].
    destruct (logical_Match (rule_Match E) l (set_response response (ResetRuleCache m))) as [b2 m2].
    eapply (approx_exact _ m1); [apply Hpre|apply Hfin; by rewrite Hi|done].
Qed.

Lemma MatchAddressLimit_doc `{UnicodeTables} (E : RuleEnv) rule m response :
  ignoring m = false →
  match rule with DefaultDNSRule _ mr _ => mr = false | LogicalRule _ => True | _ => False end →
  MatchAddressLimit E rule m response = spec_match E rule (with_response response true (request m)) false false.
Proof.
  intros Hi Hr.
  assert (MatchAddressLimit E rule m response = (rule_Match E rule (set_response response (ResetRuleCache m))).1)
    as -> by (by destruct rule as [r|r|r [] tag|l]).
  by apply (rule_Match_exact E rule (set_response response (ResetRuleCache m))).
Qed.

(** A small environment and rules for the examples. *)
Definition env0 : RuleEnv :=
  MkRuleEnv (λ s, addr_IsValid (s_Addr s)) (λ s, Is6 (s_Addr s)) (λ _, true)
    (λ l, Addr4 (foldl (λ acc b, acc * 256 + b) 0 l)) (λ _ _, false) (λ s, s)
    None [] [] [] None (MkWIFIState "" "") None false.
Definition query0 (host : string) : InboundContext :=
  MkContext (MkRequest "" 0 "" socks0 (MkSocksaddr AddrZero 53 host) "" "" "" "" "" [] None ∅ false None
               None "" 1 PrefixZero false false) cache0.
Definition metadata0 : RuleSetMetadata := MkRuleSetMetadata false false true false false.
Definition ip_rule (p : IPSet) : Rule :=
  DefaultHeadlessRule
    (MkDefaultRule [] [] [] [] [IPCIDRItem p false ""] [] [IPCIDRItem p false ""] None false).
Definition domain_rule (matcher : Matcher) (sets : list (RuleSet Rule)) (invert : bool) : Rule :=
  DefaultDNSRule
    (MkDefaultRule [] [] [] [DomainItem matcher ""] [] [] [DomainItem matcher ""]
       (match sets with [] => None | _ => Some (MkRuleSetItem ["ip"%string] sets false false) end) invert)
    false "".
Definition is_a (s : string) : bool := bool_decide (s = "a"%string).
Definition ten (a : Addr) : bool := bool_decide (a = Addr4 10).
Definition reply (ip : list Z) : option Msg := Some (MkMsg 0 [RR_A ip] [] []).


Lemma prematch_sound_witness :
  MatchAddressLimit env0 (LogicalRule (MkLogicalRule
    [domain_rule is_a [] false; DefaultDNSRule
       (MkDefaultRule [] [] [] [] [IPCIDRItem ten false ""] [] [IPCIDRItem ten false ""] None true) false ""]
    LogicalTypeAnd false)) (query0 "b") (reply [0; 0; 0; 11]) = false.
Proof.
  pose proof (prematch_sound env0 (LogicalRule (MkLogicalRule
    [domain_rule is_a [] false; DefaultDNSRule
       (MkDefaultRule [] [] [] [] [IPCIDRItem ten false ""] [] [IPCIDRItem ten false ""] None true) false ""]
    LogicalTypeAnd false)) (query0 "b") (reply [0; 0; 0; 11]) eq_refl eq_refl) as Hw.
  destruct (LegacyPreMatch env0 _ (ResetRuleCache (query0 "b"))) as [b m'] eqn:El.
  vm_compute in El. injection El as <- _. by apply Hw.
Defined.

(** Behind a domain condition, the pre-match takes a rule-set of several IP
    rules for satisfied: [matchInner] clears the deferred destination group
    because the domain satisfied its own group, although such a rule-set is a
    condition of its own.  So the inverted rule is skipped before the lookup
    even when the response has no address of the rule-set and the rule should
    have matched. *)
Theorem prematch_skips_inverted_rule_set `{UnicodeTables} (E : RuleEnv) matcher p1 p2 m response :
  domain_host m ≠ ""%string → matcher (ToLower (domain_host m)) = true → ignoring m = false →
  DNSResponseAddresses E response ≠ [] →
  (∀ a, a ∈ DNSResponseAddresses E response → p1 a = false ∧ p2 a = false) →
  let rule := domain_rule matcher [MkRuleSet [ip_rule p1; ip_rule p2] metadata0] true in
  (LegacyPreMatch E rule (ResetRuleCache m)).1 = false ∧ MatchAddressLimit E rule m response = true.
Proof.
  intros Hh Hm Hi Ha Hp rule.
  assert (∀ m', request m' = request m → match_domain matcher m' = true) as Hdom.
  { intros m' Hq. unfold match_domain, domain_host in *. rewrite Hq.
    rewrite bool_decide_eq_false_2 by done. done. }
  assert (∀ p, (∀ a, a ∈ DNSResponseAddresses E response → p a = false) →
            existsb p (DNSResponseAddresses E response) = false) as Hex.
  { intros p Hf. induction (DNSResponseAddresses E response) as [|a l IH]; [done|]. cbn.
    rewrite Hf by left. destruct l as [|b l]; [done|].
    apply IH; [done|intros; apply Hp; by right|intros; apply Hf; by right]. }
  split.
  - unfold rule, domain_rule, LegacyPreMatch, ignoring_match, default_Match, matchInner.
    rewrite evaluateGroups_doc.
    set (g := doc_groups _ _ _ _). assert (g = MkConds None None (Some true) None) as ->.
    { unfold g, doc_groups, cond, matchAnyItem. cbn -[match_domain]. by rewrite Hdom. }
    destruct m as [q [? ? ? ? ? ? ? ign]]. reflexivity.
  - assert (∀ p, (∀ a, a ∈ DNSResponseAddresses E response → p a = false) →
              spec_match E (ip_rule p) (with_response response true (request m)) false false = false) as Hip.
    { intros p Hf. set (c := ctx (with_response response true (request m)) false false).
      transitivity (IPCIDRItem_Match E p false c).
      - change (holds1 (Some (IPCIDRItem_Match E p false c || false)) && true = IPCIDRItem_Match E p false c).
        cbn [holds1]. by rewrite orb_false_r, andb_true_r.
      - change (IPCIDRItem_Match E p false c) with
          (if bool_decide (length (DNSResponseAddresses E response) = 0%nat) then false
           else existsb p (DNSResponseAddresses E response)).
        rewrite (Hex p Hf). by case_bool_decide. }
    rewrite (MatchAddressLimit_doc E rule m response) by done.
    set (c := with_response response true (request m)) in *.
    change (xorb true ((holds1 (Some (match_domain matcher (ctx c false false) || false)) && true &&
      (spec_match E (ip_rule p1) c false false || (spec_match E (ip_rule p2) c false false || false))) || false)
      = true).
    rewrite !Hip by (intros; by apply Hp). by rewrite andb_false_r.
Qed.

Lemma prematch_skips_inverted_rule_set_witness :
  MatchAddressLimit env0 (domain_rule is_a [MkRuleSet [ip_rule ten; ip_rule (λ a, bool_decide (a = Addr4 11))] metadata0] true)
    (query0 "a") (reply [0; 0; 0; 12]) = true.
Proof.
  apply (prematch_skips_inverted_rule_set env0 is_a ten (λ a, bool_decide (a = Addr4 11)) (query0 "a")
           (reply [0; 0; 0; 12])); try reflexivity; try discriminate.
  intros a Ha. apply list_elem_of_singleton in Ha as ->. split; reflexivity.
Defined.

(** A reference to one rule-set with [rule_set_ip_cidr_match_source]. *)
Definition source_set_rule (rules : list Rule) : Rule :=
  DefaultRule (MkDefaultRule [] [] [] [] [] [] []
    (Some (MkRuleSetItem ["s"%string] [MkRuleSet rules metadata0] true false)) false).

(** [rule_set_ip_cidr_match_source] makes the [ip_cidr] conditions of a
    rule-set look at the source address, except inside a logical rule: its
    sub-rules are matched after [ResetRuleCache], which also clears the flag, so
    there the same condition looks at the destination. *)
Theorem match_source_lost_in_logical_rule `{UnicodeTables} (E : RuleEnv) p mode m :
  deferred m = 0 → ignoring m = false →
  (rule_Match E (source_set_rule [ip_rule p]) m).1 = p (s_Addr (md_Source (request m))) ∧
  (rule_Match E (source_set_rule [LogicalRule (MkLogicalRule [ip_rule p] mode false)]) m).1 =
    IPCIDRItem_Match E p false (ctx (request m) false false).
Proof.
  intros Hd Hi. set (c := ctx (request m) false false). set (q := request m).
  assert (∀ rule, (rule_Match E rule m).1 = spec_match E rule q (match_source m) (IPCIDRAcceptEmpty (cache m)))
    as Hdoc.
  { intros rule. by apply rule_Match_exact. }
  rewrite !Hdoc. destruct (match_source m).
  all: split.
  1, 3: change (((holds1 (Some (p (s_Addr (md_Source q)) || false)) && true && true && true) || false)
            = p (s_Addr (md_Source q)));
    cbn [holds1]; by rewrite !orb_false_r, !andb_true_r.
  all: destruct mode.
  1, 3: change ((((holds1 (Some (IPCIDRItem_Match E p false c || false)) && true) && true) || false) || false
              = IPCIDRItem_Match E p false c);
      cbn [holds1]; by rewrite !orb_false_r, !andb_true_r.
  all: change ((((holds1 (Some (IPCIDRItem_Match E p false c || false)) && true) || false) || false) || false
              = IPCIDRItem_Match E p false c);
      cbn [holds1]; by rewrite !orb_false_r, !andb_true_r.
Qed.

Lemma match_source_lost_in_logical_rule_witness :
  (rule_Match env0 (source_set_rule [ip_rule ten]) (query0 "a")).1 = false.
Proof.
  destruct (match_source_lost_in_logical_rule env0 ten LogicalTypeAnd (query0 "a") eq_refl eq_refl) as [-> _].
  reflexivity.
Defined.
