(* ===== verification/RuleBuild.v ===== *)
(** * Building rules from options: [rule_default.go], [rule_headless.go], [rule_dns.go], [rule_set.go]

    The constructors read an option struct field by field; every field that is
    set becomes an item, appended to one group and to [allItems].  A constructor
    is modelled as the list of its steps, run in order until one fails.  The
    theorems say that each item lands in the group of its kind, that [allItems]
    is the union of the groups, and that the metadata of a rule-set, computed
    from the options, describes the rules built from them. *)

From S2P Require Import Prelude GoStrings NetAddr RuleContext RuleItems RuleMatch RuleSpec.

Local Open Scope Z_scope.
Local Set Warnings "-register-all".

(** ** Options

    One record for the match fields of [option.RawDefaultRule],
    [option.RawDefaultDNSRule] and [option.DefaultHeadlessRule]; each
    constructor reads the fields its struct has.  Absent and empty lists are
    the same value. *)
Record MatchOptions := MkMatchOptions {
  o_Inbound : list string;
  o_IPVersion : Z;
  o_QueryType : list Z;
  o_QueryClientSubnet : list Prefix;
  o_QueryDNSSEC : bool;
  o_Network : list string;
  o_AuthUser : list string;
  o_Protocol : list string;
  o_Client : list string;
  o_Domain : list string;
  o_DomainSuffix : list string;
  o_DomainKeyword : list string;
  o_DomainRegex : list string;
  o_Geosite : list string;
  o_SourceGeoIP : list string;
  o_GeoIP : list string;
  o_SourceIPCIDR : list string;
  o_SourceIPIsPrivate : bool;
  o_IPCIDR : list string;
  o_IPIsPrivate : bool;
  o_IPAcceptAny : bool;
  o_SourcePort : list Z;
  o_SourcePortRange : list string;
  o_Port : list Z;
  o_PortRange : list string;
  o_ProcessName : list string;
  o_ProcessPath : list string;
  o_ProcessPathRegex : list string;
  o_PackageName : list string;
  o_PackageNameRegex : list string;
  o_User : list string;
  o_UserID : list Z;
  o_Outbound : list string;
  o_ClashMode : string;
  o_NetworkType : list Z;
  o_NetworkIsExpensive : bool;
  o_NetworkIsConstrained : bool;
  o_WIFISSID : list string;
  o_WIFIBSSID : list string;
  o_InterfaceAddress : list (string * list Prefix);
  o_NetworkInterfaceAddress : list (Z * list Prefix);
  o_DefaultInterfaceAddress : list Prefix;
  o_SourceMACAddress : list string;
  o_SourceHostname : list string;
  o_PreferredBy : list string;
  o_RuleSet : list string;
  o_RuleSetIPCIDRMatchSource : bool;
  o_RuleSetIPCIDRAcceptEmpty : bool;
  o_Deprecated_RulesetIPCIDRMatchSource : bool;
  o_ResponseRcode : option Z;
  o_ResponseAnswer : list (option RR);
  o_ResponseNs : list (option RR);
  o_ResponseExtra : list (option RR);
  o_Invert : bool;
  (* headless rules read from the binary format *)
  o_DomainMatcher : option Matcher;
  o_SourceIPSet : option IPSet;
  o_IPSet : option IPSet;
  o_AdGuardDomain : list string;
  o_AdGuardDomainMatcher : option Matcher;
}.

(** ** Steps *)

Inductive group := GItems | GSourceAddress | GSourcePort | GDestinationAddress | GDestinationIPCIDR | GDestinationPort.
#[export] Instance group_eq_dec : EqDecision group.
Proof. solve_decision. Defined.

Definition group_items (g : group) (r : default_rule) : list RuleItem :=
  match g with
  | GItems => items r
  | GSourceAddress => sourceAddressItems r
  | GSourcePort => sourcePortItems r
  | GDestinationAddress => destinationAddressItems r
  | GDestinationIPCIDR => destinationIPCIDRItems r
  | GDestinationPort => destinationPortItems r
  end.

(** The lists an item is appended to, one statement each: a group, or
    [allItems]. *)
Inductive dest := To (g : group) | ToAll.
#[export] Instance dest_eq_dec : EqDecision dest.
Proof. solve_decision. Defined.

(** [rule.<list> = append(rule.<list>, item)]. *)
Definition append_to (it : RuleItem) (r : default_rule) (d : dest) : default_rule :=
  let ext d' l := if decide (d = d') then l ++ [it] else l in
  MkDefaultRule (ext (To GItems) (items r)) (ext (To GSourceAddress) (sourceAddressItems r))
    (ext (To GSourcePort) (sourcePortItems r)) (ext (To GDestinationAddress) (destinationAddressItems r))
    (ext (To GDestinationIPCIDR) (destinationIPCIDRItems r)) (ext (To GDestinationPort) (destinationPortItems r))
    (ext ToAll (allItems r)) (ruleSetItem r) (d_invert r).
Definition append_into (ds : list dest) (it : RuleItem) (r : default_rule) : default_rule :=
  foldl (append_to it) r ds.

(** The statements the constructors are made of. *)
Inductive step :=
  | Add (into : list dest) (b : bool) (it : RuleItem)        (* if b { append it to each list } *)
  | AddE (into : list dest) (b : bool) (it : result RuleItem) (* the same, with err *)
  | FailIf (b : bool) (e : error)                            (* if b { return nil, e } *)
  | SetRuleSet (b : bool) (i : RuleSetItem Rule).            (* if b { rule.ruleSetItem = i } *)

Definition run_step (s : step) (r : default_rule) : result default_rule :=
  match s with
  | Add into b it => Ok (if b then append_into into it r else r)
  | AddE into b it => if b then i ← it; Ok (append_into into i r) else Ok r
  | FailIf b e => if b then Err e else Ok r
  | SetRuleSet b i =>
      Ok (if b then MkDefaultRule (items r) (sourceAddressItems r) (sourcePortItems r)
                      (destinationAddressItems r) (destinationIPCIDRItems r) (destinationPortItems r)
                      (allItems r) (Some i) (d_invert r) else r)
  end.
Fixpoint run_steps (l : list step) (r : default_rule) : result default_rule :=
  match l with [] => Ok r | s :: l => r' ← run_step s r; run_steps l r' end.

Definition empty_rule (invert : bool) : default_rule := MkDefaultRule [] [] [] [] [] [] [] None invert.

(** [E.Cause(err, key)]. *)
Definition cause {A} (key : string) (r : result A) : result A :=
  match r with Err e => Err (EWrap key e) | _ => r end.

Definition geosite_removed : error := ENew "geosite database is deprecated in sing-box 1.8.0 and removed in sing-box 1.12.0".
Definition geoip_removed : error := ENew "geoip database is deprecated in sing-box 1.8.0 and removed in sing-box 1.12.0".
Definition match_source_renamed : error :=
  ENew "rule_set_ipcidr_match_source is deprecated in sing-box 1.10.0 and removed in sing-box 1.11.0".
Definition accept_empty_removed : error := ENew "rule_set_ip_cidr_accept_empty".

Section build.
Context (B : BuildEnv).

(** Blocks of statements several constructors share. *)
Definition domain_steps (o : MatchOptions) : list step :=
  [ AddE [To GDestinationAddress; ToAll] (nonempty (o_Domain o) || nonempty (o_DomainSuffix o))
      (NewDomainItem B (o_Domain o) (o_DomainSuffix o));
    Add [To GDestinationAddress; ToAll] (nonempty (o_DomainKeyword o)) (DomainKeywordItem (o_DomainKeyword o)) ].
Definition geo_steps (o : MatchOptions) : list step :=
  [ FailIf (nonempty (o_Geosite o)) geosite_removed;
    FailIf (nonempty (o_SourceGeoIP o)) geoip_removed;
    FailIf (nonempty (o_GeoIP o)) geoip_removed ].
Definition port_steps (o : MatchOptions) : list step :=
  [ Add [To GSourcePort; ToAll] (nonempty (o_SourcePort o)) (NewPortItem true (o_SourcePort o));
    AddE [To GSourcePort; ToAll] (nonempty (o_SourcePortRange o))
      (cause "source_port_range" (NewPortRangeItem true (o_SourcePortRange o)));
    Add [To GDestinationPort; ToAll] (nonempty (o_Port o)) (NewPortItem false (o_Port o));
    AddE [To GDestinationPort; ToAll] (nonempty (o_PortRange o))
      (cause "port_range" (NewPortRangeItem false (o_PortRange o))) ].
Definition process_steps (o : MatchOptions) : list step :=
  [ Add [To GItems; ToAll] (nonempty (o_ProcessName o)) (NewProcessItem (o_ProcessName o));
    Add [To GItems; ToAll] (nonempty (o_ProcessPath o)) (NewProcessPathItem (o_ProcessPath o));
    AddE [To GItems; ToAll] (nonempty (o_ProcessPathRegex o))
      (cause "process_path_regex" (NewProcessPathRegexItem B (o_ProcessPathRegex o)));
    Add [To GItems; ToAll] (nonempty (o_PackageName o)) (NewPackageNameItem (o_PackageName o));
    AddE [To GItems; ToAll] (nonempty (o_PackageNameRegex o))
      (cause "package_name_regex" (NewPackageNameRegexItem B (o_PackageNameRegex o))) ].
Definition network_steps (o : MatchOptions) : list step :=
  [ Add [To GItems; ToAll] (nonempty (o_NetworkType o)) (NetworkTypeItem (o_NetworkType o));
    Add [To GItems; ToAll] (o_NetworkIsExpensive o) NetworkIsExpensiveItem;
    Add [To GItems; ToAll] (o_NetworkIsConstrained o) NetworkIsConstrainedItem;
    Add [To GItems; ToAll] (nonempty (o_WIFISSID o)) (NewWIFISSIDItem (o_WIFISSID o));
    Add [To GItems; ToAll] (nonempty (o_WIFIBSSID o)) (NewWIFIBSSIDItem B (o_WIFIBSSID o)) ].
Definition interface_steps (o : MatchOptions) : list step :=
  [ Add [To GItems; ToAll] (nonempty (o_NetworkInterfaceAddress o))
      (NewNetworkInterfaceAddressItem B (o_NetworkInterfaceAddress o));
    Add [To GItems; ToAll] (nonempty (o_DefaultInterfaceAddress o))
      (DefaultInterfaceAddressItem (o_DefaultInterfaceAddress o)) ].
Definition source_steps (o : MatchOptions) : list step :=
  [ Add [To GItems; ToAll] (nonempty (o_SourceMACAddress o)) (NewSourceMACAddressItem B (o_SourceMACAddress o));
    Add [To GItems; ToAll] (nonempty (o_SourceHostname o)) (NewSourceHostnameItem (o_SourceHostname o)) ].
Definition rule_set_steps (o : MatchOptions) (acceptEmpty : bool) : list step :=
  [ FailIf (nonempty (o_RuleSet o) && o_Deprecated_RulesetIPCIDRMatchSource o) match_source_renamed;
    SetRuleSet (nonempty (o_RuleSet o))
      (MkRuleSetItem (o_RuleSet o) [] (o_RuleSetIPCIDRMatchSource o) acceptEmpty) ].
Definition ip_version_steps (o : MatchOptions) : list step :=
  [ FailIf (bool_decide (0 < o_IPVersion o) && negb (bool_decide (o_IPVersion o = 4)) &&
            negb (bool_decide (o_IPVersion o = 6))) (EFmt "invalid ip version: " [Itoa (o_IPVersion o)]);
    Add [To GItems; ToAll] (bool_decide (0 < o_IPVersion o)) (IPVersionItem (bool_decide (o_IPVersion o = 6))) ].

(** [NewDefaultRule], once the action of the rule is built. *)
Definition default_rule_steps (o : MatchOptions) : list step :=
  [ Add [To GItems; ToAll] (nonempty (o_Inbound o)) (NewInboundRule (o_Inbound o)) ] ++
  ip_version_steps o ++
  [ Add [To GItems; ToAll] (nonempty (o_Network o)) (NewNetworkItem (o_Network o));
    Add [To GItems; ToAll] (nonempty (o_AuthUser o)) (NewAuthUserItem (o_AuthUser o));
    Add [To GItems; ToAll] (nonempty (o_Protocol o)) (NewProtocolItem (o_Protocol o));
    Add [To GItems; ToAll] (nonempty (o_Client o)) (NewClientItem (o_Client o)) ] ++
  domain_steps o ++
  [ AddE [To GDestinationAddress; ToAll] (nonempty (o_DomainRegex o)) (NewDomainRegexItem B (o_DomainRegex o)) ] ++
  geo_steps o ++
  [ AddE [To GSourceAddress; ToAll] (nonempty (o_SourceIPCIDR o))
      (cause "source_ip_cidr" (NewIPCIDRItem B true (o_SourceIPCIDR o)));
    Add [To GSourceAddress; ToAll] (o_SourceIPIsPrivate o) (IPIsPrivateItem true);
    AddE [To GDestinationIPCIDR; ToAll] (nonempty (o_IPCIDR o)) (cause "ipcidr" (NewIPCIDRItem B false (o_IPCIDR o)));
    Add [To GDestinationIPCIDR; ToAll] (o_IPIsPrivate o) (IPIsPrivateItem false) ] ++
  port_steps o ++ process_steps o ++
  [ Add [To GItems; ToAll] (nonempty (o_User o)) (NewUserItem (o_User o));
    Add [To GItems; ToAll] (nonempty (o_UserID o)) (NewUserIDItem (o_UserID o));
    Add [To GItems; ToAll] (negb (bool_decide (o_ClashMode o = ""%string))) (ClashModeItem false (o_ClashMode o)) ] ++
  network_steps o ++
  [ Add [To GItems; ToAll] (nonempty (o_InterfaceAddress o)) (NewInterfaceAddressItem B (o_InterfaceAddress o)) ] ++
  interface_steps o ++ source_steps o ++
  [ Add [To GItems; ToAll] (nonempty (o_PreferredBy o)) (PreferredByItem (o_PreferredBy o) []) ] ++
  rule_set_steps o false.
Definition NewDefaultRule {A} (action : result A) (o : MatchOptions) : result (A * default_rule) :=
  a ← cause "action" action;
  r ← run_steps (default_rule_steps o) (empty_rule (o_Invert o));
  Ok (a, r).

(** [NewDefaultHeadlessRule]; [networkManager] says whether the context has one. *)
Definition headless_steps (networkManager : bool) (o : MatchOptions) : list step :=
  [ Add [To GItems; ToAll] (nonempty (o_QueryType o)) (NewQueryTypeItem (o_QueryType o));
    Add [To GItems; ToAll] (nonempty (o_Network o)) (NewNetworkItem (o_Network o)) ] ++
  [ if nonempty (o_Domain o) || nonempty (o_DomainSuffix o)
    then AddE [To GDestinationAddress; ToAll] true (NewDomainItem B (o_Domain o) (o_DomainSuffix o))
    else match o_DomainMatcher o with
         | Some matcher => Add [To GDestinationAddress; ToAll] true (NewRawDomainItem matcher)
         | None => FailIf false (ENew "")
         end;
    Add [To GDestinationAddress; ToAll] (nonempty (o_DomainKeyword o)) (DomainKeywordItem (o_DomainKeyword o));
    AddE [To GDestinationAddress; ToAll] (nonempty (o_DomainRegex o))
      (cause "domain_regex" (NewDomainRegexItem B (o_DomainRegex o)));
    if nonempty (o_SourceIPCIDR o)
    then AddE [To GSourceAddress; ToAll] true (cause "source_ip_cidr" (NewIPCIDRItem B true (o_SourceIPCIDR o)))
    else match o_SourceIPSet o with
         | Some s => Add [To GSourceAddress; ToAll] true (NewRawIPCIDRItem true s)
         | None => FailIf false (ENew "")
         end;
    if nonempty (o_IPCIDR o)
    then AddE [To GDestinationIPCIDR; ToAll] true (cause "ipcidr" (NewIPCIDRItem B false (o_IPCIDR o)))
    else match o_IPSet o with
         | Some s => Add [To GDestinationIPCIDR; ToAll] true (NewRawIPCIDRItem false s)
         | None => FailIf false (ENew "")
         end ] ++
  port_steps o ++ process_steps o ++
  (if networkManager then network_steps o ++ interface_steps o else []) ++
  [ if nonempty (o_AdGuardDomain o)
    then Add [To GDestinationAddress; ToAll] true (NewAdGuardDomainItem B (o_AdGuardDomain o))
    else match o_AdGuardDomainMatcher o with
         | Some matcher => Add [To GDestinationAddress; ToAll] true (AdGuardDomainItem matcher)
         | None => FailIf false (ENew "")
         end ].
Definition NewDefaultHeadlessRule (networkManager : bool) (o : MatchOptions) : result Rule :=
  r ← run_steps (headless_steps networkManager o) (empty_rule (o_Invert o));
  Ok (DefaultHeadlessRule r).

(** [NewDefaultDNSRule]. *)
Definition dns_rule_steps (o : MatchOptions) (legacyDNSMode : bool) : list step :=
  [ Add [To GItems; ToAll] (nonempty (o_Inbound o)) (NewInboundRule (o_Inbound o)) ] ++
  ip_version_steps o ++
  [ Add [To GItems; ToAll] (nonempty (o_QueryType o)) (NewQueryTypeItem (o_QueryType o));
    Add [To GItems; ToAll] (nonempty (o_QueryClientSubnet o)) (QueryClientSubnetItem (o_QueryClientSubnet o));
    Add [To GItems; ToAll] (o_QueryDNSSEC o) QueryDNSSECItem;
    Add [To GItems; ToAll] (nonempty (o_Network o)) (NewNetworkItem (o_Network o));
    Add [To GItems; ToAll] (nonempty (o_AuthUser o)) (NewAuthUserItem (o_AuthUser o));
    Add [To GItems; ToAll] (nonempty (o_Protocol o)) (NewProtocolItem (o_Protocol o)) ] ++
  domain_steps o ++
  [ AddE [To GDestinationAddress; ToAll] (nonempty (o_DomainRegex o))
      (cause "domain_regex" (NewDomainRegexItem B (o_DomainRegex o))) ] ++
  geo_steps o ++
  [ AddE [To GSourceAddress; ToAll] (nonempty (o_SourceIPCIDR o))
      (cause "source_ip_cidr" (NewIPCIDRItem B true (o_SourceIPCIDR o)));
    AddE [To GDestinationIPCIDR; ToAll] (nonempty (o_IPCIDR o)) (cause "ip_cidr" (NewIPCIDRItem B false (o_IPCIDR o)));
    Add [To GSourceAddress; ToAll] (o_SourceIPIsPrivate o) (IPIsPrivateItem true);
    Add [To GDestinationIPCIDR; ToAll] (o_IPIsPrivate o) (IPIsPrivateItem false);
    Add [To GDestinationIPCIDR; ToAll] (o_IPAcceptAny o) IPAcceptAnyItem;
    Add [To GItems; ToAll] (match o_ResponseRcode o with Some _ => true | None => false end)
      (DNSResponseRCodeItem (default 0 (o_ResponseRcode o)));
    Add [To GItems; ToAll] (nonempty (o_ResponseAnswer o))
      (DNSResponseRecordItem "response_answer" (o_ResponseAnswer o) Answer);
    Add [To GItems; ToAll] (nonempty (o_ResponseNs o)) (DNSResponseRecordItem "response_ns" (o_ResponseNs o) Ns);
    Add [To GItems; ToAll] (nonempty (o_ResponseExtra o))
      (DNSResponseRecordItem "response_extra" (o_ResponseExtra o) Extra) ] ++
  port_steps o ++ process_steps o ++
  [ Add [To GItems; ToAll] (nonempty (o_User o)) (NewUserItem (o_User o));
    Add [To GItems; ToAll] (nonempty (o_UserID o)) (NewUserIDItem (o_UserID o));
    Add [To GItems; ToAll] (nonempty (o_Outbound o)) (NewOutboundRule (o_Outbound o));
    Add [To GItems; ToAll] (negb (bool_decide (o_ClashMode o = ""%string))) (ClashModeItem false (o_ClashMode o)) ] ++
  network_steps o ++
  [ Add [To GItems; ToAll] (nonempty (o_InterfaceAddress o)) (NewInterfaceAddressItem B (o_InterfaceAddress o)) ] ++
  interface_steps o ++ source_steps o ++
  [ Add [To GItems; ToAll] (nonempty (o_PreferredBy o)) (PreferredByDNSItem (o_PreferredBy o) []);
    FailIf (o_RuleSetIPCIDRAcceptEmpty o && negb legacyDNSMode) accept_empty_removed ] ++
  rule_set_steps o (o_RuleSetIPCIDRAcceptEmpty o).
Definition NewDefaultDNSRule (o : MatchOptions) (matchResponse : bool) (matchResponseTag : string)
    (legacyDNSMode : bool) : result Rule :=
  r ← run_steps (dns_rule_steps o legacyDNSMode) (empty_rule (o_Invert o));
  Ok (DefaultDNSRule r matchResponse matchResponseTag).

(** ** Headless rules and rule-sets *)

(** [option.HeadlessRule] by its type field: [default] or empty ([typed] tells
    which), [logical], or anything else. *)
Inductive HeadlessOptions :=
  | HeadlessDefault (typed : bool) (o : MatchOptions)
  | HeadlessLogical (mode : string) (rules : list HeadlessOptions) (invert : bool)
  | HeadlessUnknown (type : string).

Definition missing_conditions : error := ENew "missing conditions".
Definition read_mode (mode : string) : result LogicalType :=
  if bool_decide (mode = "and"%string) then Ok LogicalTypeAnd
  else if bool_decide (mode = "or"%string) then Ok LogicalTypeOr
  else Err (EFmt "unknown logical mode: " [mode]).

Definition is_set {A} (x : option A) : bool := match x with Some _ => true | None => false end.
(** Some field other than [invert] is set. *)
Definition headless_IsValid (o : MatchOptions) : bool :=
  nonempty (o_QueryType o) || nonempty (o_Network o) || nonempty (o_Domain o) || nonempty (o_DomainSuffix o) ||
  nonempty (o_DomainKeyword o) || nonempty (o_DomainRegex o) || nonempty (o_SourceIPCIDR o) ||
  nonempty (o_IPCIDR o) || nonempty (o_SourcePort o) || nonempty (o_SourcePortRange o) || nonempty (o_Port o) ||
  nonempty (o_PortRange o) || nonempty (o_ProcessName o) || nonempty (o_ProcessPath o) ||
  nonempty (o_ProcessPathRegex o) || nonempty (o_PackageName o) || nonempty (o_PackageNameRegex o) ||
  nonempty (o_NetworkType o) || o_NetworkIsExpensive o || o_NetworkIsConstrained o || nonempty (o_WIFISSID o) ||
  nonempty (o_WIFIBSSID o) || nonempty (o_NetworkInterfaceAddress o) || nonempty (o_DefaultInterfaceAddress o) ||
  is_set (o_DomainMatcher o) || is_set (o_SourceIPSet o) ||
  is_set (o_IPSet o) || nonempty (o_AdGuardDomain o) ||
  is_set (o_AdGuardDomainMatcher o).
(** [IsValid] of a rule, which panics on an unknown type. *)
Fixpoint HeadlessRule_IsValid (h : HeadlessOptions) : result bool :=
  match h with
  | HeadlessDefault _ o => Ok (headless_IsValid o)
  | HeadlessLogical _ rules _ =>
      if negb (nonempty rules) then Ok false
      else (fix all (l : list HeadlessOptions) : result bool :=
              match l with
              | [] => Ok true
              | h :: l => b ← HeadlessRule_IsValid h; if b : bool then all l else Ok false
              end) rules
  | HeadlessUnknown type => Panic ("unknown rule type: " +:+ type)
  end.

Fixpoint NewHeadlessRule (networkManager : bool) (h : HeadlessOptions) : result Rule :=
  match h with
  | HeadlessDefault _ o =>
      if negb (headless_IsValid o) then Err missing_conditions else NewDefaultHeadlessRule networkManager o
  | HeadlessLogical mode rules invert =>
      valid ← HeadlessRule_IsValid h;
      if negb valid then Err missing_conditions
      else
        m ← read_mode mode;
        subs ← (fix go (i : nat) (l : list HeadlessOptions) : result (list Rule) :=
                  match l with
                  | [] => Ok []
                  | h :: l =>
                      r ← cause ("sub rule[" +:+ Itoa (Z.of_nat i) +:+ "]") (NewHeadlessRule networkManager h);
                      rs ← go (S i) l; Ok (r :: rs)
                  end) 0%nat rules;
        Ok (LogicalRule (MkLogicalRule subs m invert))
  | HeadlessUnknown type => Err (EFmt "unknown rule type: " [type])
  end.

(** [HasHeadlessRule]: a default rule must say [default]; an empty type is
    passed over. *)
Fixpoint HasHeadlessRule (cond : MatchOptions → bool) (rule : HeadlessOptions) : bool :=
  match rule with
  | HeadlessDefault typed o => typed && cond o
  | HeadlessLogical _ rules _ => existsb (HasHeadlessRule cond) rules
  | HeadlessUnknown _ => false
  end.
Definition isProcessHeadlessRule (o : MatchOptions) : bool :=
  nonempty (o_ProcessName o) || nonempty (o_ProcessPath o) || nonempty (o_ProcessPathRegex o) ||
  nonempty (o_PackageName o) || nonempty (o_PackageNameRegex o).
Definition isWIFIHeadlessRule (o : MatchOptions) : bool := nonempty (o_WIFISSID o) || nonempty (o_WIFIBSSID o).
Definition isIPCIDRHeadlessRule (o : MatchOptions) : bool :=
  nonempty (o_IPCIDR o) || is_set (o_IPSet o).
Definition isDNSQueryTypeHeadlessRule (o : MatchOptions) : bool := nonempty (o_QueryType o).
(** Another field than [ip_cidr], [IPSet] and [invert] is set. *)
Definition without_ip (o : MatchOptions) : MatchOptions :=
  MkMatchOptions (o_Inbound o) (o_IPVersion o) (o_QueryType o) (o_QueryClientSubnet o) (o_QueryDNSSEC o)
    (o_Network o) (o_AuthUser o) (o_Protocol o) (o_Client o) (o_Domain o) (o_DomainSuffix o)
    (o_DomainKeyword o) (o_DomainRegex o) (o_Geosite o) (o_SourceGeoIP o) (o_GeoIP o) (o_SourceIPCIDR o)
    (o_SourceIPIsPrivate o) [] (o_IPIsPrivate o) (o_IPAcceptAny o) (o_SourcePort o) (o_SourcePortRange o)
    (o_Port o) (o_PortRange o) (o_ProcessName o) (o_ProcessPath o) (o_ProcessPathRegex o) (o_PackageName o)
    (o_PackageNameRegex o) (o_User o) (o_UserID o) (o_Outbound o) (o_ClashMode o) (o_NetworkType o)
    (o_NetworkIsExpensive o) (o_NetworkIsConstrained o) (o_WIFISSID o) (o_WIFIBSSID o) (o_InterfaceAddress o)
    (o_NetworkInterfaceAddress o) (o_DefaultInterfaceAddress o) (o_SourceMACAddress o) (o_SourceHostname o)
    (o_PreferredBy o) (o_RuleSet o) (o_RuleSetIPCIDRMatchSource o) (o_RuleSetIPCIDRAcceptEmpty o)
    (o_Deprecated_RulesetIPCIDRMatchSource o) (o_ResponseRcode o) (o_ResponseAnswer o) (o_ResponseNs o)
    (o_ResponseExtra o) (o_Invert o) (o_DomainMatcher o) (o_SourceIPSet o) None (o_AdGuardDomain o)
    (o_AdGuardDomainMatcher o).
Definition isNonIPCIDRHeadlessRule (o : MatchOptions) : bool := headless_IsValid (without_ip o).

Definition buildRuleSetMetadata (rules : list HeadlessOptions) : RuleSetMetadata :=
  let has c := existsb (HasHeadlessRule c) rules in
  MkRuleSetMetadata (has isProcessHeadlessRule) (has isWIFIHeadlessRule) (has isIPCIDRHeadlessRule)
    (has isDNSQueryTypeHeadlessRule) (has isNonIPCIDRHeadlessRule).

(** [LocalRuleSet.reloadRules]: the new rules and their metadata replace the
    old ones unless a rule fails or the DNS router refuses the metadata. *)
Definition reloadRules (networkManager : bool) (validate : RuleSetMetadata → result ())
    (headlessRules : list HeadlessOptions) : result (RuleSet Rule) :=
  rules ← map_result (λ i h,
            cause ("parse rule_set.rules.[" +:+ Itoa (Z.of_nat i) +:+ "]") (NewHeadlessRule networkManager h))
            0 headlessRules;
  let metadata := buildRuleSetMetadata headlessRules in
  _ ← validate metadata;
  Ok (MkRuleSet rules metadata).
End build.

(** ** Every item in the group of its kind *)

Definition kind (it : RuleItem) : group :=
  match it with
  | IPCIDRItem _ isSource _ | IPIsPrivateItem isSource => if isSource then GSourceAddress else GDestinationIPCIDR
  | IPAcceptAnyItem => GDestinationIPCIDR
  | DomainItem _ _ | DomainKeywordItem _ | DomainRegexItem _ _ | AdGuardDomainItem _ => GDestinationAddress
  | PortItem _ _ isSource | PortRangeItem isSource _ _ => if isSource then GSourcePort else GDestinationPort
  | _ => GItems
  end.

Definition groups_concat (r : default_rule) : list RuleItem :=
  items r ++ sourceAddressItems r ++ sourcePortItems r ++ destinationAddressItems r ++
  destinationIPCIDRItems r ++ destinationPortItems r.

(** The shape of a default rule: groups by kind, [allItems] their union. *)
Record well_grouped (r : default_rule) : Prop := MkGrouped {
  grouped_kind : ∀ g it, it ∈ group_items g r → kind it = g;
  grouped_all : allItems r ≡ₚ groups_concat r;
}.

Lemma append_to_groups d g it r :
  group_items g (append_to it r d) = if decide (d = To g) then group_items g r ++ [it] else group_items g r.
Proof. by destruct g. Qed.
(** One group and [allItems], as every constructor appends. *)
Lemma append_into_groups g g' it r :
  group_items g' (append_into [To g; ToAll] it r) = if decide (g = g') then group_items g' r ++ [it] else group_items g' r.
Proof.
  unfold append_into. cbn [foldl]. rewrite !append_to_groups. rewrite (decide_False (P := ToAll = To g')) by done.
  destruct (decide (g = g')) as [->|Hne]; [by rewrite decide_True|by rewrite decide_False by congruence].
Qed.
Lemma append_into_other ds it r :
  ruleSetItem (append_into ds it r) = ruleSetItem r ∧ d_invert (append_into ds it r) = d_invert r.
Proof. unfold append_into. revert r. induction ds as [|d ds IH]; intros r; [done|]. cbn. by destruct (IH (append_to it r d)) as [-> ->]. Qed.
(** Nothing is removed, and a group that is appended to is not empty. *)
Lemma append_into_keeps ds g it it' r : it ∈ group_items g r → it ∈ group_items g (append_into ds it' r).
Proof.
  unfold append_into. revert r. induction ds as [|d ds IH]; intros r Hr; [done|]. cbn. apply IH. rewrite append_to_groups.
  case_decide; set_solver.
Qed.
Lemma append_into_nonempty ds g it r :
  nonempty (group_items g (append_into ds it r)) = nonempty (group_items g r) || bool_decide (To g ∈ ds).
Proof.
  unfold append_into. revert r. induction ds as [|d ds IH]; intros r; cbn [foldl].
  { rewrite bool_decide_eq_false_2 by set_solver. by rewrite orb_false_r. }
  rewrite IH, append_to_groups. destruct (decide (d = To g)) as [Hd|Hd].
  - rewrite (bool_decide_eq_true_2 (To g ∈ d :: ds)) by (subst; by left). rewrite orb_true_r.
    by destruct (group_items g r).
  - f_equal. apply bool_decide_ext. rewrite elem_of_cons. naive_solver.
Qed.

Lemma run_steps_invert l r r' : run_steps l r = Ok r' → d_invert r' = d_invert r.
Proof.
  revert r; induction l as [|s l IH]; intros r; cbn; [by intros [= <-]|].
  intros (r1 & H1 & H2)%result_bind_Ok. rewrite (IH r1) by done. clear IH H2.
  destruct s as [g b it|g b rit|b e|b i]; cbn in *.
  - injection H1 as <-. destruct b; [apply append_into_other|done].
  - destruct b; [|by injection H1 as <-]. apply result_bind_Ok in H1 as (it & Hit & [= <-]). apply append_into_other.
  - destruct b; [done|]. by injection H1 as <-.
  - injection H1 as <-. by destruct b.
Qed.

(** [P] of every item a step can append, with its group; and the step appends
    to one group and to [allItems]. *)
Definition step_all (P : group → RuleItem → Prop) (s : step) : Prop :=
  match s with
  | Add into b it => b = true → ∃ g, into = [To g; ToAll] ∧ P g it
  | AddE into b rit => b = true → ∀ it, rit = Ok it → ∃ g, into = [To g; ToAll] ∧ P g it
  | _ => True
  end.

(** Steps that append the same item to one group and to [allItems]. *)
Lemma run_steps_union P l r r' :
  Forall (step_all P) l → allItems r ≡ₚ groups_concat r → run_steps l r = Ok r' → allItems r' ≡ₚ groups_concat r'.
Proof.
  assert (∀ g it r, allItems r ≡ₚ groups_concat r →
            allItems (append_into [To g; ToAll] it r) ≡ₚ groups_concat (append_into [To g; ToAll] it r)) as Happ.
  { intros g it r0 Ha. change (allItems (append_into [To g; ToAll] it r0)) with (allItems r0 ++ [it]). rewrite Ha.
    destruct g; unfold groups_concat; cbn; solve_Permutation. }
  intros Hl. revert r; induction Hl as [|s l Hs _ IH]; intros r Hr; cbn; [by intros [= <-]|].
  intros (r1 & H1 & H2)%result_bind_Ok. apply (IH r1); [|done]. clear IH H2.
  destruct s as [into b it|into b rit|b e|b i]; cbn [run_step step_all] in *.
  - injection H1 as <-. destruct b; [|done]. destruct (Hs eq_refl) as (g & -> & _). by apply Happ.
  - destruct b; [|by injection H1 as <-]. apply result_bind_Ok in H1 as (it & Hit & [= <-]).
    destruct (Hs eq_refl it Hit) as (g & -> & _). by apply Happ.
  - destruct b; [done|]. by injection H1 as <-.
  - injection H1 as <-. by destruct b.
Qed.

Lemma cause_Ok {A} key (r : result A) a : cause key r = Ok a ↔ r = Ok a.
Proof. by destruct r. Qed.

(** What the constructors that can fail return. *)
Section constructed.
Context (B : BuildEnv).

Lemma NewDomainItem_Ok d s it : NewDomainItem B d s = Ok it → ∃ m t, it = DomainItem m t.
Proof. unfold NewDomainItem. repeat case_bool_decide; try done; intros [= <-]; eauto. Qed.
Lemma NewDomainRegexItem_Ok l it : NewDomainRegexItem B l = Ok it → ∃ m t, it = DomainRegexItem m t.
Proof. intros (ms & _ & [= <-])%result_bind_Ok. eauto. Qed.
Lemma NewProcessPathRegexItem_Ok l it : NewProcessPathRegexItem B l = Ok it → ∃ m t, it = ProcessPathRegexItem m t.
Proof. intros (ms & _ & [= <-])%result_bind_Ok. eauto. Qed.
Lemma NewPackageNameRegexItem_Ok l it : NewPackageNameRegexItem B l = Ok it → ∃ m t, it = PackageNameRegexItem m t.
Proof. intros (ms & _ & [= <-])%result_bind_Ok. eauto. Qed.
Lemma NewIPCIDRItem_Ok src l it : NewIPCIDRItem B src l = Ok it → ∃ s t, it = IPCIDRItem s src t.
Proof. intros (ps & _ & (s & _ & [= <-])%result_bind_Ok)%result_bind_Ok. eauto. Qed.
Lemma NewPortRangeItem_Ok src l it : NewPortRangeItem src l = Ok it → ∃ rs, it = PortRangeItem src l rs.
Proof. intros (rs & _ & [= <-])%result_bind_Ok. eauto. Qed.

Lemma run_steps_all (P : group → RuleItem → Prop) l r r' :
  Forall (step_all P) l → (∀ g, Forall (P g) (group_items g r)) → run_steps l r = Ok r' →
  ∀ g, Forall (P g) (group_items g r').
Proof.
  intros Hl. revert r; induction Hl as [|s l Hs _ IH]; intros r Hr; cbn; [by intros [= <-]|].
  intros (r1 & H1 & H2)%result_bind_Ok. apply (IH r1); [|done]. clear IH H2.
  assert (∀ g it, P g it → ∀ g', Forall (P g') (group_items g' (append_into [To g; ToAll] it r))) as Happ.
  { intros g it Hp g'. rewrite append_into_groups. case_decide; [subst|done].
    apply Forall_app; split; [done|]. by constructor. }
  destruct s as [into b it|into b rit|b e|b i]; cbn [run_step step_all] in *.
  - injection H1 as <-. destruct b; [|done]. destruct (Hs eq_refl) as (g & -> & Hp). by apply Happ.
  - destruct b; [|by injection H1 as <-]. apply result_bind_Ok in H1 as (it & Hit & [= <-]).
    destruct (Hs eq_refl it Hit) as (g & -> & Hp). by apply Happ.
  - destruct b; [done|]. by injection H1 as <-.
  - injection H1 as <-. destruct b; [|done]. intros g. specialize (Hr g). by destruct g.
Qed.
End constructed.

(** Splits a list of steps and closes the steps that append a known item. *)
Ltac step_item :=
  repeat match goal with
  | H : cause _ _ = Ok _ |- _ => apply cause_Ok in H
  | H : NewDomainItem _ _ _ = Ok _ |- _ => apply NewDomainItem_Ok in H as (? & ? & ->)
  | H : NewDomainRegexItem _ _ = Ok _ |- _ => apply NewDomainRegexItem_Ok in H as (? & ? & ->)
  | H : NewProcessPathRegexItem _ _ = Ok _ |- _ => apply NewProcessPathRegexItem_Ok in H as (? & ? & ->)
  | H : NewPackageNameRegexItem _ _ = Ok _ |- _ => apply NewPackageNameRegexItem_Ok in H as (? & ? & ->)
  | H : NewIPCIDRItem _ _ _ = Ok _ |- _ => apply NewIPCIDRItem_Ok in H as (? & ? & ->)
  | H : NewPortRangeItem _ _ = Ok _ |- _ => apply NewPortRangeItem_Ok in H as (? & ->)
  end.
Ltac split_steps :=
  repeat first [apply Forall_nil_2 | apply Forall_app_2 | apply Forall_cons_2 |
                match goal with |- Forall _ (if ?b then _ else _) => destruct b end];
  repeat match goal with
  | |- step_all _ (if ?b then _ else _) => destruct b
  | |- step_all _ (match ?x with Some _ => _ | None => _ end) => destruct x
  end.

Section shapes.
Context (B : BuildEnv).

Definition of_kind (g : group) (it : RuleItem) : Prop := kind it = g.
(** Items a rule can decide before the response is known. *)
Definition early_item (g : group) (it : RuleItem) : Prop :=
  if decide (g = GDestinationIPCIDR) then is_cidr it = true else response_free it = true.

Lemma default_rule_steps_kind o : Forall (step_all of_kind) (default_rule_steps B o).
Proof. unfold default_rule_steps. split_steps; cbn; intros; step_item; first [done | eexists; split; [reflexivity|done]]. Qed.
Lemma headless_steps_kind nm o : Forall (step_all of_kind) (headless_steps B nm o).
Proof. unfold headless_steps. split_steps; cbn; intros; step_item; first [done | eexists; split; [reflexivity|done]]. Qed.
Lemma dns_rule_steps_kind o legacy : Forall (step_all of_kind) (dns_rule_steps B o legacy).
Proof. unfold dns_rule_steps. split_steps; cbn; intros; step_item; first [done | eexists; split; [reflexivity|done]]. Qed.
Lemma headless_steps_early nm o : Forall (step_all early_item) (headless_steps B nm o).
Proof. unfold headless_steps, early_item. split_steps; cbn; intros; step_item; first [done | eexists; split; [reflexivity|done]]. Qed.

Lemma run_steps_grouped l invert r :
  Forall (step_all of_kind) l → run_steps l (empty_rule invert) = Ok r → well_grouped r.
Proof.
  intros Hl Hr. split.
  - intros g it Hit. assert (Forall (of_kind g) (group_items g r)) as Hf.
    { eapply run_steps_all; [exact Hl| |exact Hr]. by intros []. }
    rewrite Forall_forall in Hf. by apply Hf.
  - by eapply run_steps_union; [exact Hl| |exact Hr].
Qed.

Lemma well_grouped_empty r :
  well_grouped r → nonempty (allItems r) = false ↔ ∀ g, group_items g r = [].
Proof.
  intros [_ Ha]. unfold nonempty. rewrite negb_false_iff, bool_decide_eq_true.
  rewrite Ha, length_zero_iff_nil. unfold groups_concat. rewrite !app_nil.
  split; [intros (? & ? & ? & ? & ? & ?) []; done|]. intros Hg.
  exact (conj (Hg GItems) (conj (Hg GSourceAddress) (conj (Hg GSourcePort)
    (conj (Hg GDestinationAddress) (conj (Hg GDestinationIPCIDR) (Hg GDestinationPort)))))).
Qed.
End shapes.

(** ** Claims *)

(** The rule a constructor returns. *)
Definition built (rule : Rule) : option default_rule :=
  match rule with
  | DefaultHeadlessRule r | DefaultRule r | DefaultDNSRule r _ _ => Some r
  | LogicalRule _ => None
  end.


(** Options with everything unset, for the examples. *)
Definition no_options : MatchOptions :=
  MkMatchOptions [] 0 [] [] false [] [] [] [] [] [] [] [] [] [] [] [] false [] false false [] [] [] []
    [] [] [] [] [] [] [] [] "" [] false false [] [] [] [] [] [] [] [] [] false false false None [] [] []
    false None None None [] None.
Definition with_port (ports : list Z) (o : MatchOptions) : MatchOptions :=
  MkMatchOptions (o_Inbound o) (o_IPVersion o) (o_QueryType o) (o_QueryClientSubnet o) (o_QueryDNSSEC o)
    (o_Network o) (o_AuthUser o) (o_Protocol o) (o_Client o) (o_Domain o) (o_DomainSuffix o)
    (o_DomainKeyword o) (o_DomainRegex o) (o_Geosite o) (o_SourceGeoIP o) (o_GeoIP o) (o_SourceIPCIDR o)
    (o_SourceIPIsPrivate o) (o_IPCIDR o) (o_IPIsPrivate o) (o_IPAcceptAny o) (o_SourcePort o)
    (o_SourcePortRange o) ports (o_PortRange o) (o_ProcessName o) (o_ProcessPath o) (o_ProcessPathRegex o)
    (o_PackageName o) (o_PackageNameRegex o) (o_User o) (o_UserID o) (o_Outbound o) (o_ClashMode o)
    (o_NetworkType o) (o_NetworkIsExpensive o) (o_NetworkIsConstrained o) (o_WIFISSID o) (o_WIFIBSSID o)
    (o_InterfaceAddress o) (o_NetworkInterfaceAddress o) (o_DefaultInterfaceAddress o) (o_SourceMACAddress o)
    (o_SourceHostname o) (o_PreferredBy o) (o_RuleSet o) (o_RuleSetIPCIDRMatchSource o)
    (o_RuleSetIPCIDRAcceptEmpty o) (o_Deprecated_RulesetIPCIDRMatchSource o) (o_ResponseRcode o)
    (o_ResponseAnswer o) (o_ResponseNs o) (o_ResponseExtra o) (o_Invert o) (o_DomainMatcher o)
    (o_SourceIPSet o) (o_IPSet o) (o_AdGuardDomain o) (o_AdGuardDomainMatcher o).
Definition build0 : BuildEnv :=
  MkBuildEnv (λ _, Err (EStd "regexp")) (λ d _ _ s, bool_decide (s ∈ d)) (λ _ _, false)
    (λ _, Err (EStd "prefix")) (λ _, Err (EStd "addr")) (λ _, Ok (λ _, false)) (λ _, None) (λ _, None)
    (λ _, ""%string) (λ _, ""%string) (λ _, ""%string).
Definition port_rule : default_rule :=
  match NewDefaultHeadlessRule build0 true (with_port [443] no_options) with
  | Ok (DefaultHeadlessRule r) => r
  | _ => empty_rule false
  end.


(** ** Rule-set metadata *)

Definition step_adds (g : group) (s : step) : bool :=
  match s with Add into b _ | AddE into b _ => bool_decide (To g ∈ into) && b | _ => false end.

Lemma nonempty_app {A} (l l' : list A) : nonempty (l ++ l') = nonempty l || nonempty l'.
Proof. by destruct l. Qed.

Lemma run_steps_nonempty g l r r' :
  run_steps l r = Ok r' →
  nonempty (group_items g r') = nonempty (group_items g r) || existsb (step_adds g) l.
Proof.
  revert r; induction l as [|s l IH]; intros r; cbn.
  { intros [= <-]. by rewrite orb_false_r. }
  intros (r1 & H1 & H2)%result_bind_Ok. rewrite (IH r1) by done. rewrite orb_assoc. f_equal. clear IH H2.
  destruct s as [into b it|into b rit|b e|b i]; cbn [run_step step_adds] in *.
  - injection H1 as <-. destruct b; [by rewrite append_into_nonempty, andb_true_r|by rewrite andb_false_r, orb_false_r].
  - destruct b; [|injection H1 as <-; by rewrite andb_false_r, orb_false_r].
    apply result_bind_Ok in H1 as (it & Hit & [= <-]). by rewrite append_into_nonempty, andb_true_r.
  - destruct b; [done|]. injection H1 as <-. by rewrite orb_false_r.
  - injection H1 as <-. rewrite orb_false_r. destruct b; by destruct g.
Qed.

Lemma headless_adds_ip B nm o :
  existsb (step_adds GDestinationIPCIDR) (headless_steps B nm o) = isIPCIDRHeadlessRule o.
Proof.
  unfold headless_steps, isIPCIDRHeadlessRule, is_set. rewrite !existsb_app. cbn.
  destruct (nonempty (o_Domain o) || nonempty (o_DomainSuffix o)), (o_DomainMatcher o),
    (nonempty (o_SourceIPCIDR o)), (o_SourceIPSet o), (nonempty (o_IPCIDR o)), (o_IPSet o), nm,
    (nonempty (o_AdGuardDomain o)), (o_AdGuardDomainMatcher o); reflexivity.
Qed.

(** A rule of a rule-set with conditions on destination addresses. *)
Fixpoint has_ip (rule : Rule) : bool :=
  match rule with
  | DefaultHeadlessRule r | DefaultRule r | DefaultDNSRule r _ _ => nonempty (destinationIPCIDRItems r)
  | LogicalRule l => existsb has_ip (l_rules l)
  end.
(** Every default rule says [default] (what the JSON and the binary decoder leave). *)
Fixpoint all_typed (h : HeadlessOptions) : bool :=
  match h with
  | HeadlessDefault typed _ => typed
  | HeadlessLogical _ rules _ => forallb all_typed rules
  | HeadlessUnknown _ => true
  end.

Lemma Headless_deep_ind (P : HeadlessOptions → Prop) :
  (∀ t o, P (HeadlessDefault t o)) → (∀ t, P (HeadlessUnknown t)) →
  (∀ mode rules invert, Forall P rules → P (HeadlessLogical mode rules invert)) → ∀ h, P h.
Proof.
  intros Hd Hu Hl. fix IH 1. intros [t o|mode rules invert|t]; [apply Hd| |apply Hu].
  apply Hl. induction rules as [|h rules IHr]; constructor; [apply IH|exact IHr].
Qed.

(** The sub-rules of a logical headless rule are built by one loop. *)
Lemma NewHeadlessRule_logical_eq B nm mode rules invert :
  NewHeadlessRule B nm (HeadlessLogical mode rules invert) =
  (valid ← HeadlessRule_IsValid (HeadlessLogical mode rules invert);
   if negb valid then Err missing_conditions
   else
     m ← read_mode mode;
     subs ← map_result (λ i h, cause ("sub rule[" +:+ Itoa (Z.of_nat i) +:+ "]") (NewHeadlessRule B nm h)) 0 rules;
     Ok (LogicalRule (MkLogicalRule subs m invert))).
Proof.
  cbn [NewHeadlessRule]. destruct (HeadlessRule_IsValid _) as [[]| |]; try done. cbn [mbind result_bind negb].
  destruct (read_mode mode); try done. cbn [mbind result_bind]. f_equal. generalize 0%nat.
  induction rules as [|h rules IH]; intros i; cbn; [done|]. by rewrite IH.
Qed.

(** The sub-rules of a logical headless rule, one by one. *)
Lemma NewHeadlessRule_logical B nm mode rules invert rule :
  NewHeadlessRule B nm (HeadlessLogical mode rules invert) = Ok rule →
  ∃ subs m, rule = LogicalRule (MkLogicalRule subs m invert) ∧
            Forall2 (λ h r, NewHeadlessRule B nm h = Ok r) rules subs.
Proof.
  cbn [NewHeadlessRule]. intros (valid & _ & Hv)%result_bind_Ok. destruct valid; cbn [negb] in Hv; [|done].
  apply result_bind_Ok in Hv as (m & _ & Hv). apply result_bind_Ok in Hv as (subs & Hs & [= <-]).
  exists subs, m. split; [done|]. revert Hs. generalize 0%nat.
  revert subs; induction rules as [|h rules IH]; intros subs i; [intros [= <-]; constructor|].
  intros (r & Hr & (rs & Hrs & [= <-])%result_bind_Ok)%result_bind_Ok.
  apply cause_Ok in Hr. constructor; [done|]. by eapply IH.
Qed.

Lemma NewHeadlessRule_ip B nm h rule :
  all_typed h = true → NewHeadlessRule B nm h = Ok rule →
  has_ip rule = HasHeadlessRule isIPCIDRHeadlessRule h.
Proof.
  revert rule; induction h as [t o|t|mode rules invert IH] using Headless_deep_ind; intros rule Ht Hn.
  - cbn [all_typed NewHeadlessRule] in Ht, Hn. subst t. destruct (headless_IsValid o); cbn [negb] in Hn; [|done].
    apply result_bind_Ok in Hn as (r & Hr & [= <-]). cbn [has_ip HasHeadlessRule andb].
    change (destinationIPCIDRItems r) with (group_items GDestinationIPCIDR r).
    by rewrite (run_steps_nonempty _ _ _ _ Hr), headless_adds_ip.
  - done.
  - apply NewHeadlessRule_logical in Hn as (subs & m & -> & Hsubs). cbn in *.
    induction Hsubs as [|h r rules subs Hr _ IHs]; [done|]. cbn in *.
    apply andb_true_iff in Ht as [Hth Ht]. inversion IH; subst. f_equal; auto.
Qed.

Lemma map_result_Forall2 {A C} (f : nat → A → result C) i l l' :
  map_result f i l = Ok l' → Forall2 (λ a c, ∃ j, f j a = Ok c) l l'.
Proof.
  revert i l'; induction l as [|a l IH]; intros i l'; cbn; [intros [= <-]; constructor|].
  intros (c & Hc & (cs & Hcs & [= <-])%result_bind_Ok)%result_bind_Ok. constructor; eauto.
Qed.

Lemma reloadRules_Ok B nm validate hs s :
  reloadRules B nm validate hs = Ok s →
  Forall2 (λ h r, NewHeadlessRule B nm h = Ok r) hs (rs_rules s) ∧ rs_metadata s = buildRuleSetMetadata hs.
Proof.
  intros (rules & Hr & ([] & _ & [= <-])%result_bind_Ok)%result_bind_Ok. split; [|done].
  apply map_result_Forall2 in Hr. eapply Forall2_impl; [exact Hr|]. by intros h r [j ?%cause_Ok].
Qed.

Lemma reloadRules_ip B nm validate hs s :
  forallb all_typed hs = true → reloadRules B nm validate hs = Ok s →
  ContainsIPCIDRRule (rs_metadata s) = existsb has_ip (rs_rules s).
Proof.
  intros Ht Hs. apply reloadRules_Ok in Hs as [Hf ->]. cbn.
  induction Hf as [|h r hs rules Hr _ IH]; [done|]. cbn in *.
  apply andb_true_iff in Ht as [Hth Ht]. f_equal; [|by apply IH].
  symmetry. by eapply NewHeadlessRule_ip.
Qed.

(** Rules as [NewHeadlessRule] builds them. *)
Fixpoint headless_ok (rule : Rule) : bool :=
  match rule with
  | DefaultHeadlessRule r =>
      early_items r && forallb is_cidr (destinationIPCIDRItems r) &&
      match ruleSetItem r with None => true | Some _ => false end
  | LogicalRule l => forallb headless_ok (l_rules l)
  | _ => false
  end.
Definition is_logical (rule : Rule) : bool := match rule with LogicalRule _ => true | _ => false end.

Lemma run_steps_no_set l r r' :
  Forall (λ s, match s with SetRuleSet _ _ => False | _ => True end) l → run_steps l r = Ok r' →
  ruleSetItem r' = ruleSetItem r.
Proof.
  intros Hl. revert r; induction Hl as [|s l Hs _ IH]; intros r; cbn; [by intros [= <-]|].
  intros (r1 & H1 & H2)%result_bind_Ok. rewrite (IH r1) by done. clear IH H2.
  destruct s as [g b it|g b rit|b e|b i]; cbn in *; [| | |done].
  - injection H1 as <-. destruct b; [apply append_into_other|done].
  - destruct b; [|by injection H1 as <-]. apply result_bind_Ok in H1 as (it & Hit & [= <-]). apply append_into_other.
  - destruct b; [done|]. by injection H1 as <-.
Qed.

Lemma headless_steps_no_set B nm o :
  Forall (λ s, match s with SetRuleSet _ _ => False | _ => True end) (headless_steps B nm o).
Proof. unfold headless_steps. split_steps; repeat case_match; done. Qed.

Lemma forallb_Forall_item (f : RuleItem → bool) l : Forall (λ it, f it = true) l → forallb f l = true.
Proof. induction 1; cbn; [done|]. by apply andb_true_iff. Qed.

Lemma NewHeadlessRule_ok B nm h rule : NewHeadlessRule B nm h = Ok rule → headless_ok rule = true.
Proof.
  revert rule; induction h as [t o|t|mode rules invert IH] using Headless_deep_ind; intros rule Hn.
  - cbn [NewHeadlessRule] in Hn. destruct (headless_IsValid o); cbn [negb] in Hn; [|done].
    apply result_bind_Ok in Hn as (r & Hr & [= <-]). cbn [headless_ok].
    assert (∀ g, Forall (early_item g) (group_items g r)) as Hg.
    { eapply run_steps_all; [apply headless_steps_early| |exact Hr]. by intros []. }
    rewrite (run_steps_no_set _ _ _ (headless_steps_no_set B nm o) Hr).
    unfold early_items. rewrite !andb_true_iff. split_and!; try done.
    + exact (forallb_Forall_item _ _ (Hg GItems)).
    + exact (forallb_Forall_item _ _ (Hg GSourceAddress)).
    + exact (forallb_Forall_item _ _ (Hg GSourcePort)).
    + exact (forallb_Forall_item _ _ (Hg GDestinationAddress)).
    + exact (forallb_Forall_item _ _ (Hg GDestinationPort)).
    + exact (forallb_Forall_item _ _ (Hg GDestinationIPCIDR)).
  - done.
  - apply NewHeadlessRule_logical in Hn as (subs & m & -> & Hsubs). cbn.
    induction Hsubs as [|h r rules subs Hr _ IHs]; [done|]. cbn. inversion IH; subst.
    apply andb_true_iff. auto.
Qed.

(** Without destination addresses, or looking at the source, nothing waits. *)
Lemma headless_free rule src :
  headless_ok rule = true → has_ip rule = false ∨ (src = true ∧ is_logical rule = false) →
  ip_free src rule = true ∧ separated src rule = true.
Proof.
  revert src; induction rule as [rule IH] using Rule_deep_ind; intros src Hok Hip.
  destruct rule as [r|r|r mr tag|l]; cbn [headless_ok] in Hok; try done.
  - rewrite !andb_true_iff in Hok. destruct Hok as ((He & Hc) & Hn).
    destruct (ruleSetItem r) eqn:Hrs; [done|]. cbn [ip_free separated has_ip] in *.
    unfold default_ip_free, default_separated, early_cidr. rewrite Hrs, He, Hc. cbn.
    destruct Hip as [->|[-> _]]; [|done]. by rewrite !andb_false_r, !orb_true_r.
  - destruct Hip as [Hip|[_ Hl]]; [|done]. cbn [ip_free separated has_ip subrules] in *.
    induction (l_rules l) as [|rule rules IHl]; [done|]. cbn in *.
    apply andb_true_iff in Hok as [Hr Hok]. apply orb_false_iff in Hip as [Hir Hip].
    inversion IH as [|? ? IHr IHrs]; subst. destruct (IHr false Hr (or_introl Hir)) as [-> ->].
    by apply IHl.
Qed.

Lemma rule_set_free B nm validate hs s src :
  forallb all_typed hs = true → reloadRules B nm validate hs = Ok s →
  ContainsIPCIDRRule (rs_metadata s) = false ∨ (src = true ∧ forallb (λ r, negb (is_logical r)) (rs_rules s) = true) →
  forallb (ip_free src) (rs_rules s) = true ∧ forallb (separated src) (rs_rules s) = true.
Proof.
  intros Ht Hs Hc. rewrite (reloadRules_ip _ _ _ _ _ Ht Hs) in Hc.
  apply reloadRules_Ok in Hs as [Hf _].
  assert (Forall (λ r, headless_ok r = true) (rs_rules s)) as Hok.
  { induction Hf; constructor; [by eapply NewHeadlessRule_ok|]. apply IHHf.
    - cbn in Ht. by apply andb_true_iff in Ht as [_ ?].
    - destruct Hc as [Hc|[? Hc]]; [left|right; split; [done|]]; cbn in Hc.
      + by apply orb_false_iff in Hc as [_ ?].
      + by apply andb_true_iff in Hc as [_ ?]. }
  clear Hf Ht. induction Hok as [|r rules Hr _ IH]; [done|]. cbn in *.
  destruct (headless_free r src Hr) as [-> ->].
  { destruct Hc as [Hc|[? Hc]]; [left|right; split; [done|]].
    - by apply orb_false_iff in Hc as [? _].
    - apply andb_true_iff in Hc as [Hc _]. by apply negb_true_iff in Hc. }
  apply IH. destruct Hc as [Hc|[? Hc]]; [left|right; split; [done|]].
  - by apply orb_false_iff in Hc as [_ ?].
  - by apply andb_true_iff in Hc as [_ ?].
Qed.

(** The router skips [MatchAddressLimit] for the rules [WithAddressLimit]
    denies, and may: for a DNS rule over rule-sets loaded by [reloadRules], when
    [WithAddressLimit] is false the answer of the pre-match is the answer of
    [MatchAddressLimit] for every response.  (A reference with
    [rule_set_ip_cidr_match_source] must not have logical rules in its sets,
    where that option is lost.) *)
Theorem address_limit_not_needed `{UnicodeTables} (E : RuleEnv) r tag i m response :
  let rule := DefaultDNSRule r false tag in
  ruleSetItem r = Some i → early_items r = true →
  (∀ s, s ∈ setList i → ∃ B nm validate hs,
     forallb all_typed hs = true ∧ reloadRules B nm validate hs = Ok s) →
  (ipCidrMatchSource i = true →
     ∀ s, s ∈ setList i → forallb (λ r, negb (is_logical r)) (rs_rules s) = true) →
  WithAddressLimit rule = false → ignoring m = false →
  (LegacyPreMatch E rule (ResetRuleCache m)).1 = MatchAddressLimit E rule m response.
Proof.
  intros rule Hi He Hload Hsrc Hw Hig. cbn in Hw. rewrite Hi in Hw.
  destruct (nonempty (destinationIPCIDRItems r)) eqn:Hip; [done|].
  assert (∀ s, s ∈ setList i →
            forallb (ip_free (ipCidrMatchSource i)) (rs_rules s) = true ∧
            forallb (separated (ipCidrMatchSource i)) (rs_rules s) = true) as Hsets.
  { intros s Hs. destruct (Hload s Hs) as (B & nm & validate & hs & Ht & Hr).
    eapply rule_set_free; [exact Ht|exact Hr|]. unfold ContainsDestinationIPCIDRRule in Hw.
    destruct (ipCidrMatchSource i); [right; auto|left].
    apply not_true_iff_false. intros Hc. apply not_true_iff_false in Hw. apply Hw, existsb_exists.
    exists s. split; [by apply list_elem_of_In|done]. }
  assert (default_ip_free ip_free false r = true) as Hfree.
  { unfold default_ip_free. rewrite Hip, Hi. cbn. apply forallb_forall. intros s Hs%list_elem_of_In.
    by apply Hsets. }
  assert (separated false rule = true) as Hsep.
  { cbn. unfold default_separated, early_cidr. rewrite He, Hip, Hi, andb_false_r. cbn.
    rewrite orb_true_intro by (right; apply forallb_forall; intros s Hs%list_elem_of_In; by apply Hsets).
    rewrite !andb_true_r. apply forallb_forall. intros s Hs%list_elem_of_In. by apply Hsets. }
  rewrite (MatchAddressLimit_doc E rule m response) by done.
  pose proof (all_rules_sound E rule (set_ignore true (ResetRuleCache m)) response eq_refl (λ _, Hsep)) as Hp.
  subst rule. cbn [LegacyPreMatch]. unfold ignoring_match. cbn [rule_Match matchForMatch] in Hp.
  destruct (default_Match E (rule_Match E) r (set_ignore true (ResetRuleCache m))) as [b m1].
  destruct Hp as [_ _ Hx [Hf Ht]]. cbn [fst].
  destruct b; symmetry; [|by apply Hf]. apply Ht; [done|]. apply Hx; [|done].
  unfold exact. apply orb_true_iff. right. exact Hfree.
Qed.

(** A rule-set with a rule on port 443, loaded by [reloadRules], and an inverted
    DNS rule that refers to it. *)
Definition loaded_set : RuleSet Rule :=
  match reloadRules build0 true (λ _, Ok tt) [HeadlessDefault true (with_port [443] no_options)] with
  | Ok s => s | _ => MkRuleSet [] metadata0 end.
Definition loaded_item : RuleSetItem Rule := MkRuleSetItem ["s"%string] [loaded_set] false false.
Definition loaded_rule : default_rule := MkDefaultRule [] [] [] [] [] [] [] (Some loaded_item) true.

Lemma address_limit_not_needed_witness :
  (LegacyPreMatch env0 (DefaultDNSRule loaded_rule false "") (ResetRuleCache (query0 "a"))).1 = true ∧
  MatchAddressLimit env0 (DefaultDNSRule loaded_rule false "") (query0 "a") (reply [0; 0; 0; 12]) = true.
Proof.
  pose proof (address_limit_not_needed env0 loaded_rule "" loaded_item (query0 "a") (reply [0; 0; 0; 12])) as Hw.
  split; [reflexivity|]. rewrite <- Hw; try reflexivity.
  - intros s ->%list_elem_of_singleton.
    exists build0, true, (λ _, Ok tt), [HeadlessDefault true (with_port [443] no_options)]. split; reflexivity.
  - discriminate.
Defined.
