(* ===== verification/Bytes.v ===== *)
(** * Byte streams: what the binary formats use of [io] and [encoding/binary]

    A reader is the bytes it still has and the error it answers with after the
    last one.  Reading is a state monad over readers with the errors of
    [result].  [consumes n m] says that [m] never panics and takes at least [n]
    bytes when it succeeds; loops whose step consumes a byte end. *)

From S2P Require Import Prelude GoStrings NetAddr.

Local Open Scope Z_scope.

Record Reader := MkReader { rd_bytes : list Z; rd_err : error }.
Definition rd_len (r : Reader) : nat := length (rd_bytes r).

Definition EOF : error := EStd "EOF".
Definition ErrUnexpectedEOF : error := EStd "unexpected EOF".
Definition ErrInvalid : error := EStd "invalid argument".
Definition errOverflow : error := EStd "binary: varint overflows a 64-bit integer".

(** ** The reading monad *)

Definition R (A : Type) : Type := Reader → result (A * Reader).
Definition r_ret {A} (a : A) : R A := λ r, Ok (a, r).
Definition r_bind {A B} (m : R A) (f : A → R B) : R B := λ r, '(a, r') ← m r; f a r'.
Definition r_fail {A} (e : error) : R A := λ _, Err e.
Definition r_panic {A} (w : string) : R A := λ _, Panic w.
(** [E.Cause(err, key)] around a read. *)
Definition r_cause {A} (key : string) (m : R A) : R A := λ r,
  match m r with Err e => Err (EWrap key e) | x => x end.

Declare Scope reader_scope.
Delimit Scope reader_scope with R.
Notation "x <- m ; k" := (r_bind m (λ x, k))
  (at level 20, m at level 100, k at level 200, right associativity) : reader_scope.
Local Open Scope reader_scope.

(** ** Bytes and integers *)

Definition is_byte (b : Z) : Prop := 0 ≤ b < 2^8.

Definition ReadByte : R Z := λ r,
  match rd_bytes r with
  | [] => Err (rd_err r)
  | b :: l => Ok (b, MkReader l (rd_err r))
  end.
(** [io.ReadFull]: an end in the middle is [ErrUnexpectedEOF]. *)
Definition ReadFull (n : nat) : R (list Z) := λ r,
  if bool_decide (n ≤ rd_len r)%nat then Ok (take n (rd_bytes r), MkReader (drop n (rd_bytes r)) (rd_err r))
  else if bool_decide (rd_bytes r = []) then Err (rd_err r)
  else Err (if bool_decide (rd_err r = EOF) then ErrUnexpectedEOF else rd_err r).

(** Big-endian integers. *)
Fixpoint be_combine (l : list Z) : Z :=
  match l with [] => 0 | b :: l => b * 2^(8 * Z.of_nat (length l)) + be_combine l end.
Fixpoint be_split (n : nat) (x : Z) : list Z :=
  match n with O => [] | S n => (x / 2^(8 * Z.of_nat n)) `mod` 2^8 :: be_split n x end.

(** [Addr.AsSlice]. *)
Definition AsSlice (a : Addr) : list Z :=
  match a with AddrZero => [] | Addr4 v => be_split 4 v | Addr6 v _ => be_split 16 v end.
(** [netip.AddrFromSlice]. *)
Definition AddrFromSlice (l : list Z) : option Addr :=
  if bool_decide (length l = 4%nat) then Some (Addr4 (be_combine l))
  else if bool_decide (length l = 16%nat) then Some (Addr6 (be_combine l) "")
  else None.

(** [binary.Read] of a [uint8], a [bool] and a [uint64]. *)
Definition ReadUint8 : R Z := l <- ReadFull 1; r_ret (be_combine l).
Definition ReadBool : R bool := l <- ReadFull 1; r_ret (negb (bool_decide (be_combine l = 0))).
Definition ReadUint64 : R Z := l <- ReadFull 8; r_ret (be_combine l).
(** [binary.Write] of a [bool]. *)
Definition bool_byte (b : bool) : list Z := [if b then 1 else 0].

(** [binary.ReadUvarint]; [i] bytes are already read, the value so far is [x]. *)
Definition MaxVarintLen64 : nat := 10.
Fixpoint uvarint_go (n i : nat) (x s : Z) : R Z := λ r,
  match n with
  | O => Err errOverflow
  | S n =>
      match rd_bytes r with
      | [] => Err (if bool_decide (0 < i)%nat && bool_decide (rd_err r = EOF) then ErrUnexpectedEOF else rd_err r)
      | b :: l =>
          let r' := MkReader l (rd_err r) in
          if bool_decide (b < 0x80) then
            if bool_decide (i = (MaxVarintLen64 - 1)%nat) && bool_decide (1 < b) then Err errOverflow
            else Ok (Z.lor x (u64 (Z.shiftl b s)), r')
          else uvarint_go n (S i) (Z.lor x (u64 (Z.shiftl (Z.land b 0x7f) s))) (s + 7) r'
      end
  end.
Definition ReadUvarint : R Z := uvarint_go MaxVarintLen64 0 0 0.
(** [binary.PutUvarint]. *)
Fixpoint put_uvarint_go (n : nat) (x : Z) : list Z :=
  match n with
  | O => [u8 x]
  | S n => if bool_decide (x < 0x80) then [u8 x] else Z.lor (u8 x) 0x80 :: put_uvarint_go n (Z.shiftr x 7)
  end.
Definition PutUvarint (x : Z) : list Z := put_uvarint_go 9 x.

Example uvarint_300 : PutUvarint 300 = [0xac; 2] ∧ ReadUvarint (MkReader [0xac; 2; 7] EOF) = Ok (300, MkReader [7] EOF).
Proof. done. Qed.
Example uvarint_max : ReadUvarint (MkReader (PutUvarint (2^64 - 1)) EOF) = Ok (2^64 - 1, MkReader [] EOF).
Proof. by vm_compute. Qed.

(** Strings as the bytes they are. *)
Fixpoint bytes_of (s : string) : list Z :=
  match s with ""%string => [] | String c s => Z.of_nat (code c) :: bytes_of s end.
Definition string_of (l : list Z) : string := bytes (Z.to_nat <$> l).

(** ** Loops *)

(** [for i := range count] around a step that returns a value; [count] may be
    any 64-bit number, so the loop is bounded by the bytes left. *)
Definition out_of_fuel : string := "out of fuel".
Fixpoint for_go {A} (fuel : nat) (i count : Z) (step : Z → R A) : R (list A) :=
  if bool_decide (count ≤ i) then r_ret []
  else match fuel with
       | O => r_panic out_of_fuel
       | S fuel => a <- step i; l <- for_go fuel (i + 1) count step; r_ret (a :: l)
       end.
Definition for_range {A} (count : Z) (step : Z → R A) : R (list A) := λ r,
  for_go (S (rd_len r)) 0 count step r.

(** ** Reads that end *)

(** [m] never panics, and a value [a] it returns took at least [size a] bytes. *)
Definition yields {A} (size : A → nat) (m : R A) : Prop := ∀ r,
  match m r with
  | Ok (a, r') => rd_err r' = rd_err r ∧ (rd_len r' + size a ≤ rd_len r)%nat
  | Err _ => True
  | Panic _ => False
  end.
Definition consumes {A} (n : nat) (m : R A) : Prop := yields (λ _, n) m.

Lemma yields_weaken {A} (f g : A → nat) (x : R A) : yields f x → (∀ a, g a ≤ f a)%nat → yields g x.
Proof.
  intros Hx Hle r. specialize (Hx r). destruct (x r) as [[a r']| |]; [|done..].
  destruct Hx; split; [done|]. specialize (Hle a). lia.
Qed.
Lemma consumes_weaken {A} n m (x : R A) : consumes n x → (m ≤ n)%nat → consumes m x.
Proof. intros Hx Hle. by eapply yields_weaken. Qed.
Lemma consumes_ret {A} (a : A) : consumes 0 (r_ret a).
Proof. intros r. cbn. split; [done|lia]. Qed.
Lemma consumes_fail {A} n e : consumes n (@r_fail A e).
Proof. by intros r. Qed.
Lemma consumes_bind {A B} n m (x : R A) (f : A → R B) :
  consumes n x → (∀ a, consumes m (f a)) → consumes (n + m) (r_bind x f).
Proof.
  intros Hx Hf r. specialize (Hx r). unfold r_bind. destruct (x r) as [[a r1]| |]; cbn; [|done..].
  specialize (Hf a r1). destruct (f a r1) as [[b r2]| |]; [|done..].
  destruct Hx as [He1 ?], Hf as [He2 ?]. split; [congruence|lia].
Qed.
Lemma consumes_bind_l {A B} n (x : R A) (f : A → R B) :
  consumes n x → (∀ a, consumes 0 (f a)) → consumes n (r_bind x f).
Proof. intros Hx Hf. eapply consumes_weaken; [by apply consumes_bind|lia]. Qed.
Lemma consumes_cause {A} n k (x : R A) : consumes n x → consumes n (r_cause k x).
Proof. intros Hx r. specialize (Hx r). unfold r_cause. by destruct (x r). Qed.
Lemma consumes_if {A} n (b : bool) (x y : R A) : consumes n x → consumes n y → consumes n (if b then x else y).
Proof. by destruct b. Qed.
Lemma consumes_ReadByte : consumes 1 ReadByte.
Proof. intros [[|b l] e]; cbn; [done|]. split; [done|]. unfold rd_len; cbn. lia. Qed.
Lemma consumes_ReadFull n : consumes n (ReadFull n).
Proof.
  intros [l e]. unfold ReadFull, rd_len. cbn. repeat case_bool_decide; try done.
  cbn. rewrite length_drop. split; [done|lia].
Qed.
Lemma consumes_ReadUint8 : consumes 1 ReadUint8.
Proof. apply consumes_bind_l; [apply consumes_ReadFull|intros; apply consumes_ret]. Qed.
Lemma consumes_ReadBool : consumes 1 ReadBool.
Proof. apply consumes_bind_l; [apply consumes_ReadFull|intros; apply consumes_ret]. Qed.
Lemma consumes_ReadUint64 : consumes 8 ReadUint64.
Proof. apply consumes_bind_l; [apply consumes_ReadFull|intros; apply consumes_ret]. Qed.
Lemma consumes_uvarint_go n i x s : consumes 1 (uvarint_go n i x s).
Proof.
  revert i x s; induction n as [|n IH]; intros i x s [l e]; [done|].
  cbn [uvarint_go rd_bytes rd_err]. destruct l as [|b l]; [done|]. case_bool_decide.
  - destruct (_ && _); [done|]. split; [done|]. unfold rd_len; cbn. lia.
  - specialize (IH (S i) (Z.lor x (u64 (Z.shiftl (Z.land b 0x7f) s))) (s + 7) (MkReader l e)).
    destruct (uvarint_go n _ _ _ _) as [[a r']| |]; [|done..].
    destruct IH as [? IH]. split; [done|]. unfold rd_len in *; cbn in *. lia.
Qed.
Lemma consumes_ReadUvarint : consumes 1 ReadUvarint.
Proof. apply consumes_uvarint_go. Qed.

(** A loop whose step consumes a byte has enough fuel in the bytes left. *)
Lemma for_go_yields {A} (size : A → nat) fuel i count (step : Z → R A) :
  (∀ i, yields size (step i)) → (∀ a, 1 ≤ size a)%nat → ∀ r, (rd_len r < fuel)%nat →
  match for_go fuel i count step r with
  | Ok (l, r') => rd_err r' = rd_err r ∧ (rd_len r' + sum_list_with size l ≤ rd_len r)%nat
  | Err _ => True
  | Panic _ => False
  end.
Proof.
  intros Hs Hp. revert i; induction fuel as [|fuel IH]; intros i r Hr; [lia|]; cbn [for_go].
  case_bool_decide; cbn; [split; [done|lia]|]. unfold r_bind at 1. pose proof (Hs i r) as H1.
  destruct (step i r) as [[a r1]| |]; cbn; [|done..]. destruct H1 as [He1 Hl1]. pose proof (Hp a).
  unfold r_bind. specialize (IH (i + 1) r1 ltac:(lia)).
  destruct (for_go fuel (i + 1) count step r1) as [[l r2]| |]; cbn; [|done..].
  destruct IH as [He2 Hl2]. split; [congruence|lia].
Qed.
Lemma yields_for_range {A} (size : A → nat) count (step : Z → R A) :
  (∀ i, yields size (step i)) → (∀ a, 1 ≤ size a)%nat → yields (sum_list_with size) (for_range count step).
Proof. intros Hs Hp r. apply (for_go_yields size (S (rd_len r)) 0 count step Hs Hp r). lia. Qed.
Lemma yields_bind {A B} n (size : B → nat) (x : R A) (f : A → R B) :
  consumes n x → (∀ a, yields (λ b, size b - n)%nat (f a)) → yields size (r_bind x f).
Proof.
  intros Hx Hf r. specialize (Hx r). unfold r_bind. destruct (x r) as [[a r1]| |]; cbn; [|done..].
  specialize (Hf a r1). destruct (f a r1) as [[b r2]| |]; [|done..].
  destruct Hx as [He1 ?], Hf as [He2 ?]. split; [congruence|lia].
Qed.
Lemma consumes_for_range {A} count (step : Z → R A) :
  (∀ i, consumes 1 (step i)) → consumes 0 (for_range count step).
Proof. intros Hs. eapply yields_weaken; [by apply yields_for_range|]. intros; lia. Qed.

Create HintDb consumes discriminated.
#[export] Hint Resolve consumes_ret consumes_fail consumes_bind_l consumes_cause consumes_if consumes_ReadByte
  consumes_ReadFull consumes_ReadUint8 consumes_ReadBool consumes_ReadUint64 consumes_ReadUvarint
  consumes_for_range : consumes.

(** ** Reading back what was written *)

(** [m] reads [l] and nothing more, as [a]. *)
Definition reads {A} (m : R A) (l : list Z) (a : A) : Prop := ∀ rest e,
  m (MkReader (l ++ rest) e) = Ok (a, MkReader rest e).

Lemma reads_ret {A} (a : A) : reads (r_ret a) [] a.
Proof. done. Qed.
Lemma reads_bind {A B} (m : R A) (f : A → R B) l1 l2 a b :
  reads m l1 a → reads (f a) l2 b → reads (r_bind m f) (l1 ++ l2) b.
Proof. intros Hm Hf rest e. unfold r_bind. rewrite <- app_assoc, Hm. cbn. apply Hf. Qed.
Lemma reads_bind_ret {A B} (m : R A) (g : A → B) l a :
  reads m l a → reads (r_bind m (λ x, r_ret (g x))) l (g a).
Proof. intros Hm. rewrite <- (app_nil_r l). by eapply reads_bind; [exact Hm|]. Qed.
Lemma reads_cause {A} k (m : R A) l a : reads m l a → reads (r_cause k m) l a.
Proof. intros Hm rest e. unfold r_cause. by rewrite Hm. Qed.
Lemma reads_byte b : reads ReadByte [b] b.
Proof. done. Qed.
Lemma reads_ReadFull l : reads (ReadFull (length l)) l l.
Proof.
  intros rest e. unfold ReadFull, rd_len. cbn. rewrite length_app, bool_decide_eq_true_2 by lia.
  by rewrite take_app_length, drop_app_length.
Qed.
Lemma reads_uint8 b : reads ReadUint8 [b] b.
Proof.
  replace b with (be_combine [b]) at 2 by (cbn; lia). apply (reads_bind_ret (ReadFull 1) be_combine).
  apply (reads_ReadFull [b]).
Qed.
Lemma reads_bool b : reads ReadBool (bool_byte b) b.
Proof. intros rest e. by destruct b. Qed.

Lemma be_split_length n x : length (be_split n x) = n.
Proof. induction n; cbn; congruence. Qed.
Lemma be_combine_split n x : be_combine (be_split n x) = x `mod` 2^(8 * Z.of_nat n).
Proof.
  induction n as [|n IH]; cbn [be_split be_combine]; [cbn; by rewrite Z.mod_1_r|].
  rewrite be_split_length, IH. set (k := 8 * Z.of_nat n).
  replace (8 * Z.of_nat (S n)) with (k + 8) by lia. rewrite Z.pow_add_r by lia.
  rewrite Z.rem_mul_r by lia. lia.
Qed.
Lemma reads_uint64 x : 0 ≤ x < 2^64 → reads ReadUint64 (be_split 8 x) x.
Proof.
  intros Hx. rewrite <- (Z.mod_small x (2^64) Hx) at 2.
  change (2^64) with (2^(8 * Z.of_nat 8)). rewrite <- (be_combine_split 8 x).
  apply (reads_bind_ret (ReadFull 8) be_combine).
  rewrite <- (be_split_length 8 x) at 1. apply reads_ReadFull.
Qed.

(** Disjoint bits add up. *)
Lemma lor_shifted x b s : 0 ≤ s → 0 ≤ x < 2^s → 0 ≤ b → Z.lor x (b * 2^s) = x + b * 2^s.
Proof.
  intros Hs Hx Hb. rewrite <- Z.shiftl_mul_pow2 by lia.
  assert (Z.land x (Z.shiftl b s) = 0) as H0.
  { apply Z.bits_inj'. intros j Hj. rewrite Z.land_spec, Z.bits_0, Z.shiftl_spec by lia.
    destruct (decide (j < s)); [rewrite (Z.testbit_neg_r b) by lia; apply andb_false_r|].
    rewrite <- (Z.mod_small x (2^s)) by lia. by rewrite Z.mod_pow2_bits_high by lia. }
  pose proof (Z.add_lor_land x (Z.shiftl b s)). lia.
Qed.

Lemma low7 y : 0 ≤ y → Z.land (Z.lor (u8 y) 0x80) 0x7f = y `mod` 2^7.
Proof.
  intros Hy. unfold u8. change 0x7f with (Z.ones 7). rewrite <- !Z.land_ones by lia.
  rewrite Z.land_lor_distr_l. change (Z.land 0x80 (Z.ones 7)) with 0. rewrite Z.lor_0_r.
  rewrite <- Z.land_assoc. by change (Z.land (Z.ones 8) (Z.ones 7)) with (Z.ones 7).
Qed.
Lemma high_bit y : 0x80 ≤ Z.lor (u8 y) 0x80.
Proof.
  assert (Forall (λ z, 0x80 ≤ Z.lor z 0x80) (seqZ 0 256)) as Hf by (apply (bool_decide_unpack _); by vm_compute).
  rewrite Forall_forall in Hf. apply Hf, elem_of_seqZ. apply Z.mod_pos_bound. lia.
Qed.

Lemma uvarint_go_cons n i x s b l e :
  uvarint_go (S n) i x s (MkReader (b :: l) e) =
  if bool_decide (b < 0x80) then
    if bool_decide (i = (MaxVarintLen64 - 1)%nat) && bool_decide (1 < b) then Err errOverflow
    else Ok (Z.lor x (u64 (Z.shiftl b s)), MkReader l e)
  else uvarint_go n (S i) (Z.lor x (u64 (Z.shiftl (Z.land b 0x7f) s))) (s + 7) (MkReader l e).
Proof. done. Qed.
Lemma reads_uvarint_go n i x y :
  (n + i = 9)%nat → 0 ≤ x < 2^(7 * Z.of_nat i) → 0 ≤ y < 2^(64 - 7 * Z.of_nat i) →
  reads (uvarint_go (S n) i x (7 * Z.of_nat i)) (put_uvarint_go n y) (x + y * 2^(7 * Z.of_nat i)).
Proof.
  revert i x y; induction n as [|n IH]; intros i x y Hi Hx Hy rest e.
  - replace i with 9%nat in * by lia. change (64 - 7 * Z.of_nat 9) with 1 in Hy.
    cbn [put_uvarint_go app]. rewrite uvarint_go_cons. unfold u8. rewrite Z.mod_small by lia.
    rewrite bool_decide_eq_true_2 by lia. rewrite (bool_decide_eq_false_2 (1 < y)), andb_false_r by lia.
    unfold u64. rewrite Z.shiftl_mul_pow2, Z.mod_small by lia.
    rewrite lor_shifted by lia. done.
  - cbn [put_uvarint_go]. assert (2^(64 - 7 * Z.of_nat i) * 2^(7 * Z.of_nat i) = 2^64) as Hp
      by (rewrite <- Z.pow_add_r by lia; f_equal; lia).
    assert (0 < 2^(7 * Z.of_nat i)) by (apply Z.pow_pos_nonneg; lia).
    case_bool_decide as Hs.
    + cbn [app]. rewrite uvarint_go_cons. unfold u8. rewrite Z.mod_small by lia.
      rewrite bool_decide_eq_true_2 by lia. rewrite (bool_decide_eq_false_2 (i = _)) by (unfold MaxVarintLen64; lia).
      cbn [andb]. unfold u64. rewrite Z.shiftl_mul_pow2, Z.mod_small by nia.
      rewrite lor_shifted by lia. done.
    + rewrite <- app_comm_cons, uvarint_go_cons.
      pose proof (high_bit y). rewrite bool_decide_eq_false_2 by lia. rewrite low7 by lia.
      pose proof (Z.mod_pos_bound y (2^7) ltac:(lia)).
      assert (y `mod` 2^7 ≤ y) by (apply Z.mod_le; lia).
      unfold u64. rewrite Z.shiftl_mul_pow2, Z.mod_small by nia. rewrite lor_shifted by lia.
      replace (7 * Z.of_nat i + 7) with (7 * Z.of_nat (S i)) by lia.
      assert (2^(7 * Z.of_nat (S i)) = 2^7 * 2^(7 * Z.of_nat i)) as Hq
        by (rewrite <- Z.pow_add_r by lia; f_equal; lia).
      assert (2^(64 - 7 * Z.of_nat i) = 2^7 * 2^(64 - 7 * Z.of_nat (S i))) as Hr
        by (rewrite <- Z.pow_add_r by lia; f_equal; lia).
      rewrite Z.shiftr_div_pow2 by lia. rewrite IH; [|lia|rewrite Hq; nia|].
      * do 2 f_equal. rewrite Hq. pose proof (Z.div_mod y (2^7)). nia.
      * split; [apply Z.div_pos; lia|]. apply Z.div_lt_upper_bound; lia.
Qed.
Lemma reads_uvarint x : 0 ≤ x < 2^64 → reads ReadUvarint (PutUvarint x) x.
Proof.
  intros Hx rest e. pose proof (reads_uvarint_go 9 0 0 x eq_refl ltac:(cbn; lia) ltac:(cbn; lia) rest e) as Hg.
  cbn [Z.of_nat Z.mul Z.add] in Hg. rewrite Z.mul_1_r in Hg. exact Hg.
Qed.

Lemma string_of_bytes_of s : string_of (bytes_of s) = s.
Proof.
  induction s as [|c s IH]; [done|]. unfold string_of in *. cbn [bytes_of fmap list_fmap bytes].
  rewrite Nat2Z.id, IH. f_equal. apply Ascii.ascii_nat_embedding.
Qed.
Lemma length_bytes_of s : length (bytes_of s) = String.length s.
Proof. induction s; cbn; congruence. Qed.
Lemma bytes_of_bytes s : Forall is_byte (bytes_of s).
Proof.
  induction s as [|c s IH]; constructor; [|done]. unfold is_byte, code.
  pose proof (Ascii.nat_ascii_bounded c). lia.
Qed.

(** A counted loop reads the concatenation of what its steps read. *)
Lemma reads_for_go {A} (step : Z → R A) fuel i (ls : list (list Z)) (l : list A) :
  Forall2 (λ bs a, bs ≠ [] ∧ ∀ i, reads (step i) bs a) ls l → (length (concat ls) < fuel)%nat →
  reads (for_go fuel i (i + Z.of_nat (length l)) step) (concat ls) l.
Proof.
  intros Hf. revert fuel i; induction Hf as [|bs a ls l [Hne Ha] _ IH]; intros fuel i Hfu.
  - destruct fuel; cbn; rewrite bool_decide_eq_true_2 by lia; apply reads_ret.
  - destruct fuel as [|fuel]; [lia|]. cbn [for_go length concat]. rewrite bool_decide_eq_false_2 by lia.
    eapply reads_bind; [apply Ha|]. replace (concat ls) with (concat ls ++ []) by apply app_nil_r.
    eapply reads_bind; [|apply reads_ret].
    replace (i + Z.of_nat (S (length l))) with (i + 1 + Z.of_nat (length l)) by lia. apply IH.
    cbn [concat] in Hfu. rewrite length_app in Hfu. destruct bs; [done|]. cbn in Hfu. lia.
Qed.
Lemma reads_for_range {A} (step : Z → R A) (ls : list (list Z)) (l : list A) :
  Forall2 (λ bs a, bs ≠ [] ∧ ∀ i, reads (step i) bs a) ls l →
  reads (for_range (Z.of_nat (length l)) step) (concat ls) l.
Proof.
  intros Hf rest e. unfold for_range, rd_len. cbn [rd_bytes].
  apply (reads_for_go step _ 0 ls l Hf). rewrite length_app. lia.
Qed.

(** A count and that many values. *)
Definition read_counted {A} (step : R A) : R (list A) := n <- ReadUvarint; for_range n (λ _, step).
Lemma reads_counted {A} (step : R A) (enc : A → list Z) w l :
  reads ReadUvarint w (Z.of_nat (length l)) →
  Forall (λ a, enc a ≠ [] ∧ reads step (enc a) a) l →
  reads (read_counted step) (w ++ concat (enc <$> l)) l.
Proof.
  intros Hw Hl. eapply reads_bind; [exact Hw|]. apply reads_for_range.
  clear Hw. induction Hl as [|a l [? ?] _ IH]; constructor; [|done]. split; [done|]. by intros.
Qed.
Lemma consumes_counted {A} (step : R A) : consumes 1 step → consumes 1 (read_counted step).
Proof. intros Hs. apply consumes_bind_l; [apply consumes_ReadUvarint|]. intros n. by apply consumes_for_range. Qed.
(** What is read as a number is not empty. *)
Lemma reads_nonempty {A} (m : R A) l a : consumes 1 m → reads m l a → l ≠ [].
Proof. intros Hc Hr ->. specialize (Hr [] EOF). specialize (Hc (MkReader [] EOF)). cbn in Hr. rewrite Hr in Hc. cbn in Hc. lia. Qed.
