(* ===== verification/Srs.v ===== *)
(** * The binary rule-set format: [common/srs]

    A rule-set file is the magic bytes, a version and a zlib stream with the
    rules.  [Write] and [Read] are modelled byte by byte, over the readers of
    [Bytes]; the writer accepts every byte.  A default rule is a sequence of
    items; reading one assigns a field of the rule, so [readDefaultRule] is the
    list of its assignments, of which the last to a field counts.  The commands
    that compile a rule-set and load it are here too.  What the code uses of
    other modules ([varbin], the matchers, [netipx], zlib) is the class
    [SrsEnv], with its laws in [SrsLaws] and an instance that has them. *)

From S2P Require Import Prelude GoStrings NetAddr RuleContext RuleItems RuleMatch RuleSpec RuleBuild Bytes.

Local Open Scope Z_scope.
Local Open Scope reader_scope.

(** ** What comes from other modules *)

(** [myIPRange]: the layout of a range of [netipx.IPSet]. *)
Record myIPRange := MkIPRange { ir_from : Addr; ir_to : Addr }.

Class SrsEnv := {
  (* github.com/sagernet/sing/common/varbin *)
  WriteUvarint : Z → list Z;
  ReadSlice8 : R (list Z);
  ReadSlice16 : R (list Z);
  (* github.com/sagernet/sing/common/domain *)
  DomainMatcher : Type;
  NewMatcher : list string → list string → bool → DomainMatcher;
  matcher_Match : DomainMatcher → Matcher;
  matcher_Write : DomainMatcher → list Z;
  ReadMatcher : R DomainMatcher;
  matcher_Dump : DomainMatcher → list string * list string;
  AdGuardMatcher : Type;
  NewAdGuardMatcher : list string → AdGuardMatcher;
  adguard_Match : AdGuardMatcher → Matcher;
  adguard_Write : AdGuardMatcher → list Z;
  ReadAdGuardMatcher : R AdGuardMatcher;
  adguard_Dump : AdGuardMatcher → list string;
  (* go4.org/netipx: a set is its ranges *)
  IPSetBuilder_IPSet : list (Prefix + Addr) → result (list myIPRange);
  ipset_Contains : list myIPRange → IPSet;
  ipset_Prefixes : list myIPRange → list Prefix;
  (* sing's metadata and ordered maps *)
  AddrFromIP : list Z → Addr;
  TypedMap_Put : list (Z * list Prefix) → Z → list Prefix → list (Z * list Prefix);
  (* compress/zlib *)
  zlib_compress : list Z → list Z;
  zlib_NewReader : list Z → result Reader;
}.

(** ** Items *)

Definition MagicBytes : list Z := [0x53; 0x52; 0x53].
Definition RuleSetVersion1 : Z := 1.
Definition RuleSetVersion2 : Z := 2.
Definition RuleSetVersion3 : Z := 3.
Definition RuleSetVersion4 : Z := 4.
Definition RuleSetVersion5 : Z := 5.
Definition RuleSetVersionCurrent : Z := RuleSetVersion5.

Definition ruleItemQueryType : Z := 0.
Definition ruleItemNetwork : Z := 1.
Definition ruleItemDomain : Z := 2.
Definition ruleItemDomainKeyword : Z := 3.
Definition ruleItemDomainRegex : Z := 4.
Definition ruleItemSourceIPCIDR : Z := 5.
Definition ruleItemIPCIDR : Z := 6.
Definition ruleItemSourcePort : Z := 7.
Definition ruleItemSourcePortRange : Z := 8.
Definition ruleItemPort : Z := 9.
Definition ruleItemPortRange : Z := 10.
Definition ruleItemProcessName : Z := 11.
Definition ruleItemProcessPath : Z := 12.
Definition ruleItemPackageName : Z := 13.
Definition ruleItemWIFISSID : Z := 14.
Definition ruleItemWIFIBSSID : Z := 15.
Definition ruleItemAdGuardDomain : Z := 16.
Definition ruleItemProcessPathRegex : Z := 17.
Definition ruleItemNetworkType : Z := 18.
Definition ruleItemNetworkIsExpensive : Z := 19.
Definition ruleItemNetworkIsConstrained : Z := 20.
Definition ruleItemNetworkInterfaceAddress : Z := 21.
Definition ruleItemDefaultInterfaceAddress : Z := 22.
Definition ruleItemPackageNameRegex : Z := 23.
Definition ruleItemFinal : Z := 0xFF.

(** The assignments of [readDefaultRule]; what only [recover] assigns is optional. *)
Inductive Field :=
  | FQueryType (l : list Z)
  | FNetwork (l : list string)
  | FDomain (matcher : Matcher) (dump : option (list string * list string))
  | FDomainKeyword (l : list string)
  | FDomainRegex (l : list string)
  | FSourceIPCIDR (s : IPSet) (prefixes : option (list string))
  | FIPCIDR (s : IPSet) (prefixes : option (list string))
  | FSourcePort (l : list Z)
  | FSourcePortRange (l : list string)
  | FPort (l : list Z)
  | FPortRange (l : list string)
  | FProcessName (l : list string)
  | FProcessPath (l : list string)
  | FProcessPathRegex (l : list string)
  | FPackageName (l : list string)
  | FPackageNameRegex (l : list string)
  | FWIFISSID (l : list string)
  | FWIFIBSSID (l : list string)
  | FAdGuardDomain (matcher : Matcher) (dump : option (list string))
  | FNetworkType (l : list Z)
  | FNetworkIsExpensive
  | FNetworkIsConstrained
  | FNetworkInterfaceAddress (m : list (Z * list Prefix))
  | FDefaultInterfaceAddress (l : list Prefix)
  | FInvert (b : bool).

(** The last assignment to a field. *)
Definition assigned {A} (get : Field → option A) (zero : A) (fs : list Field) : A :=
  default zero (last (omap get fs)).

(** The rule after the assignments, from the zero [option.DefaultHeadlessRule]. *)
Definition headless_of (fs : list Field) : MatchOptions :=
  MkMatchOptions [] 0
    (assigned (λ f, match f with FQueryType l => Some l | _ => None end) [] fs)
    [] false
    (assigned (λ f, match f with FNetwork l => Some l | _ => None end) [] fs)
    [] [] []
    (assigned (λ f, match f with FDomain _ (Some d) => Some d.1 | _ => None end) [] fs)
    (assigned (λ f, match f with FDomain _ (Some d) => Some d.2 | _ => None end) [] fs)
    (assigned (λ f, match f with FDomainKeyword l => Some l | _ => None end) [] fs)
    (assigned (λ f, match f with FDomainRegex l => Some l | _ => None end) [] fs)
    [] [] []
    (assigned (λ f, match f with FSourceIPCIDR _ (Some l) => Some l | _ => None end) [] fs)
    false
    (assigned (λ f, match f with FIPCIDR _ (Some l) => Some l | _ => None end) [] fs)
    false false
    (assigned (λ f, match f with FSourcePort l => Some l | _ => None end) [] fs)
    (assigned (λ f, match f with FSourcePortRange l => Some l | _ => None end) [] fs)
    (assigned (λ f, match f with FPort l => Some l | _ => None end) [] fs)
    (assigned (λ f, match f with FPortRange l => Some l | _ => None end) [] fs)
    (assigned (λ f, match f with FProcessName l => Some l | _ => None end) [] fs)
    (assigned (λ f, match f with FProcessPath l => Some l | _ => None end) [] fs)
    (assigned (λ f, match f with FProcessPathRegex l => Some l | _ => None end) [] fs)
    (assigned (λ f, match f with FPackageName l => Some l | _ => None end) [] fs)
    (assigned (λ f, match f with FPackageNameRegex l => Some l | _ => None end) [] fs)
    [] [] [] ""
    (assigned (λ f, match f with FNetworkType l => Some l | _ => None end) [] fs)
    (assigned (λ f, match f with FNetworkIsExpensive => Some true | _ => None end) false fs)
    (assigned (λ f, match f with FNetworkIsConstrained => Some true | _ => None end) false fs)
    (assigned (λ f, match f with FWIFISSID l => Some l | _ => None end) [] fs)
    (assigned (λ f, match f with FWIFIBSSID l => Some l | _ => None end) [] fs)
    []
    (assigned (λ f, match f with FNetworkInterfaceAddress l => Some l | _ => None end) [] fs)
    (assigned (λ f, match f with FDefaultInterfaceAddress l => Some l | _ => None end) [] fs)
    [] [] [] [] false false false None [] [] []
    (assigned (λ f, match f with FInvert b => Some b | _ => None end) false fs)
    (assigned (λ f, match f with FDomain m _ => Some (Some m) | _ => None end) None fs)
    (assigned (λ f, match f with FSourceIPCIDR s _ => Some (Some s) | _ => None end) None fs)
    (assigned (λ f, match f with FIPCIDR s _ => Some (Some s) | _ => None end) None fs)
    (assigned (λ f, match f with FAdGuardDomain _ (Some l) => Some l | _ => None end) [] fs)
    (assigned (λ f, match f with FAdGuardDomain m _ => Some (Some m) | _ => None end) None fs).

(** [option.PlainRuleSetCompat] as decoded. *)
Record PlainRuleSetCompat := MkRuleSetCompat { Version : Z; Rules : list HeadlessOptions }.

Definition maxLogicalRuleDepth : Z := 100.

Section srs.
Context `{SrsEnv} (B : BuildEnv).

(** ** Reading *)

Definition readRuleItemString : R (list string) :=
  read_counted (value <- ReadSlice8; r_ret (string_of value)).

(** The addresses of both formats: their length, 4 or 16, and their bytes. *)
Definition readIPSetAddr : R Addr :=
  addrLen <- ReadUvarint;
  if negb (addrLen =? 4) && negb (addrLen =? 16) then r_fail ErrInvalid
  else addrBytes <- ReadFull (Z.to_nat addrLen); r_ret (AddrFromIP addrBytes).
Definition readPrefix : R Prefix :=
  addrLen <- ReadUvarint;
  if negb (addrLen =? 4) && negb (addrLen =? 16) then r_fail ErrInvalid
  else
    addrBytes <- ReadFull (Z.to_nat addrLen);
    prefixBits <- ReadByte;
    r_ret (PrefixFrom (AddrFromIP addrBytes) prefixBits).

Definition readIPSet : R (list myIPRange) :=
  version <- ReadByte;
  if negb (version =? 1) then r_fail ErrInvalid
  else
    length <- ReadUint64;
    for_range length (λ _, from <- readIPSetAddr; to <- readIPSetAddr; r_ret (MkIPRange from to)).

(** The loop over the prefixes of an interface. *)
Definition read_prefixes : R (list Prefix) := read_counted readPrefix.

Definition dumped {A} (recover : bool) (a : A) : option A := if recover then Some a else None.

(** The body of the switch of [readDefaultRule]. *)
Definition read_item (recover : bool) (itemType lastItemType : Z) : R Field :=
  if itemType =? ruleItemQueryType then
    rawQueryType <- ReadSlice16; r_ret (FQueryType rawQueryType)
  else if itemType =? ruleItemNetwork then l <- readRuleItemString; r_ret (FNetwork l)
  else if itemType =? ruleItemDomain then
    matcher <- ReadMatcher;
    r_ret (FDomain (matcher_Match matcher) (dumped recover (matcher_Dump matcher)))
  else if itemType =? ruleItemDomainKeyword then l <- readRuleItemString; r_ret (FDomainKeyword l)
  else if itemType =? ruleItemDomainRegex then l <- readRuleItemString; r_ret (FDomainRegex l)
  else if itemType =? ruleItemSourceIPCIDR then
    s <- readIPSet;
    r_ret (FSourceIPCIDR (ipset_Contains s) (dumped recover (prefix_String B <$> ipset_Prefixes s)))
  else if itemType =? ruleItemIPCIDR then
    s <- readIPSet;
    r_ret (FIPCIDR (ipset_Contains s) (dumped recover (prefix_String B <$> ipset_Prefixes s)))
  else if itemType =? ruleItemSourcePort then l <- ReadSlice16; r_ret (FSourcePort l)
  else if itemType =? ruleItemSourcePortRange then l <- readRuleItemString; r_ret (FSourcePortRange l)
  else if itemType =? ruleItemPort then l <- ReadSlice16; r_ret (FPort l)
  else if itemType =? ruleItemPortRange then l <- readRuleItemString; r_ret (FPortRange l)
  else if itemType =? ruleItemProcessName then l <- readRuleItemString; r_ret (FProcessName l)
  else if itemType =? ruleItemProcessPath then l <- readRuleItemString; r_ret (FProcessPath l)
  else if itemType =? ruleItemProcessPathRegex then l <- readRuleItemString; r_ret (FProcessPathRegex l)
  else if itemType =? ruleItemPackageName then l <- readRuleItemString; r_ret (FPackageName l)
  else if itemType =? ruleItemPackageNameRegex then l <- readRuleItemString; r_ret (FPackageNameRegex l)
  else if itemType =? ruleItemWIFISSID then l <- readRuleItemString; r_ret (FWIFISSID l)
  else if itemType =? ruleItemWIFIBSSID then l <- readRuleItemString; r_ret (FWIFIBSSID l)
  else if itemType =? ruleItemAdGuardDomain then
    matcher <- ReadAdGuardMatcher;
    r_ret (FAdGuardDomain (adguard_Match matcher) (dumped recover (adguard_Dump matcher)))
  else if itemType =? ruleItemNetworkType then l <- ReadSlice8; r_ret (FNetworkType l)
  else if itemType =? ruleItemNetworkIsExpensive then r_ret FNetworkIsExpensive
  else if itemType =? ruleItemNetworkIsConstrained then r_ret FNetworkIsConstrained
  else if itemType =? ruleItemNetworkInterfaceAddress then
    entries <- read_counted (key <- ReadUint8; value <- read_prefixes; r_ret (key, value));
    r_ret (FNetworkInterfaceAddress (foldl (λ m kv, TypedMap_Put m kv.1 kv.2) [] entries))
  else if itemType =? ruleItemDefaultInterfaceAddress then
    value <- read_prefixes; r_ret (FDefaultInterfaceAddress value)
  else r_fail (EFmt "unknown rule item type" [Itoa itemType; Itoa lastItemType]).

Fixpoint read_items (fuel : nat) (recover : bool) (lastItemType : Z) : R (list Field) :=
  match fuel with
  | O => r_panic out_of_fuel
  | S fuel =>
      itemType <- ReadUint8;
      if itemType =? ruleItemFinal then invert <- ReadBool; r_ret [FInvert invert]
      else
        f <- read_item recover itemType lastItemType;
        fs <- read_items fuel recover itemType;
        r_ret (f :: fs)
  end.
Definition readDefaultRule (recover : bool) : R MatchOptions := λ r,
  (fs <- read_items (S (rd_len r)) recover 0; r_ret (headless_of fs)) r.

(** [readLogicalRule], given how to read a sub-rule. *)
Definition readLogicalRule (readSub : R HeadlessOptions) : R HeadlessOptions :=
  mode <- ReadByte;
  m <- (if mode =? 0 then r_ret "and"%string
        else if mode =? 1 then r_ret "or"%string
        else r_fail (EFmt "unknown logical mode: " [Itoa mode]));
  length <- ReadUvarint;
  rules <- for_range length (λ i, r_cause ("read logical rule [" +:+ Itoa i +:+ "]") readSub);
  invert <- ReadBool;
  r_ret (HeadlessLogical m rules invert).

(** [n] bounds the depth of the recursion, which the code bounds itself. *)
Fixpoint readRule (n : nat) (recover : bool) (depth : Z) : R HeadlessOptions :=
  match n with
  | O => r_panic out_of_fuel
  | S n =>
      if maxLogicalRuleDepth <? depth then r_fail (ENew "logical rule nested too deep")
      else
        ruleType <- ReadUint8;
        if ruleType =? 0 then o <- readDefaultRule recover; r_ret (HeadlessDefault true o)
        else if ruleType =? 1 then readLogicalRule (readRule n recover (depth + 1))
        else r_fail (EFmt "unknown rule type: " [Itoa ruleType])
  end.
Definition depth_fuel : nat := Z.to_nat (maxLogicalRuleDepth + 2).

Definition read_rules (recover : bool) : R (list HeadlessOptions) :=
  length <- ReadUvarint;
  for_range length (λ i, r_cause ("read rule[" +:+ Itoa i +:+ "]") (readRule depth_fuel recover 0)).

(** [Read] of a whole file. *)
Definition Read (file : list Z) (recover : bool) : result PlainRuleSetCompat :=
  '(magicBytes, r) ← ReadFull 3 (MkReader file EOF);
  if negb (bool_decide (magicBytes = MagicBytes)) then Err (ENew "invalid sing-box rule-set file")
  else
    '(version, r) ← ReadUint8 r;
    if RuleSetVersionCurrent <? version then Err (EFmt "unsupported version: " [Itoa version])
    else
      bReader ← zlib_NewReader (rd_bytes r);
      '(rules, _) ← read_rules recover bReader;
      Ok (MkRuleSetCompat version rules).

(** ** Writing *)

(** Writes one after the other; the first error ends it. *)
Fixpoint seq_writes (l : list (result (list Z))) : result (list Z) :=
  match l with
  | [] => Ok []
  | w :: l => a ← w; b ← seq_writes l; Ok (a ++ b)
  end.
Definition when (b : bool) (w : result (list Z)) : result (list Z) := if b then w else Ok [].
Definition since (generateVersion v : Z) (message : string) (w : result (list Z)) : result (list Z) :=
  if generateVersion <? v then Err (ENew message) else w.
Definition len {A} (l : list A) : Z := Z.of_nat (length l).

Definition writeRuleItemString (itemType : Z) (value : list string) : list Z :=
  itemType :: WriteUvarint (len value) ++
  concat ((λ s, WriteUvarint (Z.of_nat (String.length s)) ++ bytes_of s) <$> value).
Definition writeRuleItemUint8 (itemType : Z) (value : list Z) : list Z :=
  itemType :: WriteUvarint (len value) ++ value.
Definition writeRuleItemUint16 (itemType : Z) (value : list Z) : list Z :=
  itemType :: WriteUvarint (len value) ++ concat (be_split 2 <$> value).

Definition write_addr (a : Addr) : list Z := WriteUvarint (len (AsSlice a)) ++ AsSlice a.
Definition writePrefix (prefix : Prefix) : list Z :=
  write_addr (prefix_addr prefix) ++ [u8 (prefix_Bits prefix)].
Definition writeIPSet (set : list myIPRange) : list Z :=
  1 :: be_split 8 (len set) ++ concat ((λ rr, write_addr (ir_from rr) ++ write_addr (ir_to rr)) <$> set).
Definition writeRuleItemCIDR (itemType : Z) (value : list string) : result (list Z) :=
  l ← map_result (parse_prefix_or_addr B) 0 value;
  ipSet ← IPSetBuilder_IPSet l;
  Ok (itemType :: writeIPSet ipSet).
Definition write_prefixes (l : list Prefix) : list Z :=
  WriteUvarint (len l) ++ concat (writePrefix <$> l).

(** The [if]s of [writeDefaultRule], in order. *)
Definition rule_writes (rule : MatchOptions) (generateVersion : Z) : list (result (list Z)) :=
  let strings itemType l := when (nonempty l) (Ok (writeRuleItemString itemType l)) in
  let since := since generateVersion in
  [ when (nonempty (o_QueryType rule)) (Ok (writeRuleItemUint16 ruleItemQueryType (o_QueryType rule)));
    strings ruleItemNetwork (o_Network rule);
    when (nonempty (o_Domain rule) || nonempty (o_DomainSuffix rule))
      (Ok (ruleItemDomain ::
           matcher_Write (NewMatcher (o_Domain rule) (o_DomainSuffix rule) (generateVersion =? RuleSetVersion1))));
    strings ruleItemDomainKeyword (o_DomainKeyword rule);
    strings ruleItemDomainRegex (o_DomainRegex rule);
    when (nonempty (o_SourceIPCIDR rule))
      (cause "source_ip_cidr" (writeRuleItemCIDR ruleItemSourceIPCIDR (o_SourceIPCIDR rule)));
    when (nonempty (o_IPCIDR rule)) (cause "ipcidr" (writeRuleItemCIDR ruleItemIPCIDR (o_IPCIDR rule)));
    when (nonempty (o_SourcePort rule)) (Ok (writeRuleItemUint16 ruleItemSourcePort (o_SourcePort rule)));
    strings ruleItemSourcePortRange (o_SourcePortRange rule);
    when (nonempty (o_Port rule)) (Ok (writeRuleItemUint16 ruleItemPort (o_Port rule)));
    strings ruleItemPortRange (o_PortRange rule);
    strings ruleItemProcessName (o_ProcessName rule);
    strings ruleItemProcessPath (o_ProcessPath rule);
    strings ruleItemProcessPathRegex (o_ProcessPathRegex rule);
    strings ruleItemPackageName (o_PackageName rule);
    when (nonempty (o_PackageNameRegex rule))
      (since RuleSetVersion5 "`package_name_regex` rule item is only supported in version 5 or later"
         (Ok (writeRuleItemString ruleItemPackageNameRegex (o_PackageNameRegex rule))));
    when (nonempty (o_NetworkType rule))
      (since RuleSetVersion3 "`network_type` rule item is only supported in version 3 or later"
         (Ok (writeRuleItemUint8 ruleItemNetworkType (o_NetworkType rule))));
    when (o_NetworkIsExpensive rule)
      (since RuleSetVersion3 "`network_is_expensive` rule item is only supported in version 3 or later"
         (Ok [ruleItemNetworkIsExpensive]));
    when (o_NetworkIsConstrained rule)
      (since RuleSetVersion3 "`network_is_constrained` rule item is only supported in version 3 or later"
         (Ok [ruleItemNetworkIsConstrained]));
    when (nonempty (o_NetworkInterfaceAddress rule))
      (since RuleSetVersion4 "`network_interface_address` rule item is only supported in version 4 or later"
         (Ok (ruleItemNetworkInterfaceAddress :: WriteUvarint (len (o_NetworkInterfaceAddress rule)) ++
              concat ((λ entry, u8 entry.1 :: write_prefixes entry.2) <$> o_NetworkInterfaceAddress rule))));
    when (nonempty (o_DefaultInterfaceAddress rule))
      (since RuleSetVersion4 "`default_interface_address` rule item is only supported in version 4 or later"
         (Ok (ruleItemDefaultInterfaceAddress :: write_prefixes (o_DefaultInterfaceAddress rule))));
    strings ruleItemWIFISSID (o_WIFISSID rule);
    strings ruleItemWIFIBSSID (o_WIFIBSSID rule);
    when (nonempty (o_AdGuardDomain rule))
      (since RuleSetVersion2 "AdGuard rule items is only supported in version 2 or later"
         (Ok (ruleItemAdGuardDomain :: adguard_Write (NewAdGuardMatcher (o_AdGuardDomain rule))))) ].
Definition writeDefaultRule (rule : MatchOptions) (generateVersion : Z) : result (list Z) :=
  items ← seq_writes (rule_writes rule generateVersion);
  Ok (0 :: items ++ ruleItemFinal :: bool_byte (o_Invert rule)).

Definition write_mode (mode : string) : result (list Z) :=
  if bool_decide (mode = "and"%string) then Ok [0]
  else if bool_decide (mode = "or"%string) then Ok [1]
  else Panic ("unknown logical mode: " +:+ mode).
(** [writeLogicalRule], given what each sub-rule writes. *)
Definition writeLogicalRule (mode : string) (rules : list (result (list Z))) (invert : bool) : result (list Z) :=
  m ← write_mode mode;
  subs ← seq_writes rules;
  Ok (1 :: m ++ WriteUvarint (len rules) ++ subs ++ bool_byte invert).
(** [writeRule]: a type other than [default] and [logical] panics. *)
Fixpoint writeRule (generateVersion : Z) (rule : HeadlessOptions) : result (list Z) :=
  match rule with
  | HeadlessDefault true o => writeDefaultRule o generateVersion
  | HeadlessDefault false _ => Panic "unknown rule type: "
  | HeadlessLogical mode rules invert => writeLogicalRule mode (map (writeRule generateVersion) rules) invert
  | HeadlessUnknown type => Panic ("unknown rule type: " +:+ type)
  end.

Definition Write (rules : list HeadlessOptions) (generateVersion : Z) : result (list Z) :=
  body ← seq_writes (map (writeRule generateVersion) rules);
  Ok (MagicBytes ++ u8 generateVersion :: zlib_compress (WriteUvarint (len rules) ++ body)).

(** ** Compiling and loading *)

(** [downgradeRuleSetVersion] of [cmd_rule_set_compile.go]. *)
Definition uses_package_name_regex (o : MatchOptions) : bool := nonempty (o_PackageNameRegex o).
Definition uses_interface_address (o : MatchOptions) : bool :=
  nonempty (o_NetworkInterfaceAddress o) || nonempty (o_DefaultInterfaceAddress o).
Definition uses_network_type (o : MatchOptions) : bool :=
  nonempty (o_NetworkType o) || o_NetworkIsExpensive o || o_NetworkIsConstrained o.
Definition downgradeRuleSetVersion (version : Z) (rules : list HeadlessOptions) : Z :=
  let has cond := existsb (HasHeadlessRule cond) rules in
  let version := if (version =? RuleSetVersion5) && negb (has uses_package_name_regex) then RuleSetVersion4 else version in
  let version := if (version =? RuleSetVersion4) && negb (has uses_interface_address) then RuleSetVersion3 else version in
  if (version =? RuleSetVersion3) && negb (has uses_network_type) then RuleSetVersion2 else version.
(** [compileRuleSet], once the source is decoded: the bytes of the output file. *)
Definition compileRuleSet (source : PlainRuleSetCompat) : result (list Z) :=
  Write (Rules source) (downgradeRuleSetVersion (Version source) (Rules source)).

(** [PlainRuleSetCompat.Upgrade]. *)
Definition Upgrade (r : PlainRuleSetCompat) : result (list HeadlessOptions) :=
  if (RuleSetVersion1 <=? Version r) && (Version r <=? RuleSetVersion5) then Ok (Rules r)
  else Err (EFmt "unknown rule-set version: " [Itoa (Version r)]).

(** [LocalRuleSet.reloadFile]: [decoded] is the JSON decoder's answer for the
    file, [content] its bytes. *)
Definition reloadFile (networkManager : bool) (validate : RuleSetMetadata → result ()) (fileFormat : string)
    (decoded : result PlainRuleSetCompat) (content : result (list Z)) : result (RuleSet Rule) :=
  ruleSet ← (if bool_decide (fileFormat = "source"%string) || bool_decide (fileFormat = ""%string) then decoded
             else if bool_decide (fileFormat = "binary"%string) then setFile ← content; Read setFile false
             else Err (EFmt "unknown rule-set format: " [fileFormat]));
  plainRuleSet ← Upgrade ruleSet;
  reloadRules B networkManager validate plainRuleSet.
End srs.

(** ** What is assumed of the other modules *)

Definition go_len {A} (l : list A) : Prop := Z.of_nat (length l) < 2^63.
Definition go_string (s : string) : Prop := Z.of_nat (String.length s) < 2^63.
Definition go_strings (l : list string) : Prop := go_len l ∧ Forall go_string l.
Definition is_u16 (x : Z) : Prop := 0 ≤ x < 2^16.
(** Addresses that survive their bytes: in range, no zone, not IPv4 in IPv6. *)
Definition plain_addr (a : Addr) : Prop :=
  match a with
  | AddrZero => False
  | Addr4 v => 0 ≤ v < 2^32
  | Addr6 v zone => 0 ≤ v < 2^128 ∧ zone = ""%string ∧ Is4In6 (Addr6 v zone) = false
  end.

Class SrsLaws (B : BuildEnv) (S : SrsEnv) : Prop := {
  law_uvarint x : in_u64 x → reads ReadUvarint (WriteUvarint x) x;
  law_slice8 l : Forall is_byte l → go_len l → reads ReadSlice8 (WriteUvarint (len l) ++ l) l;
  law_slice16 l :
    Forall is_u16 l → go_len l → reads ReadSlice16 (WriteUvarint (len l) ++ concat (be_split 2 <$> l)) l;
  law_slice8_consumes : consumes 1 ReadSlice8;
  law_slice16_consumes : consumes 1 ReadSlice16;
  law_matcher d s legacy :
    d ++ s ≠ [] → (""%string ∉ d ++ s) → go_strings d → go_strings s →
    reads ReadMatcher (matcher_Write (NewMatcher d s legacy)) (NewMatcher d s legacy);
  law_matcher_consumes : consumes 0 ReadMatcher;
  law_matcher_match d s legacy : domain_NewMatcher B d s legacy = matcher_Match (NewMatcher d s legacy);
  law_adguard l :
    l ≠ [] → (""%string ∉ l) → go_strings l →
    reads ReadAdGuardMatcher (adguard_Write (NewAdGuardMatcher l)) (NewAdGuardMatcher l);
  law_adguard_consumes : consumes 0 ReadAdGuardMatcher;
  law_adguard_match l : domain_NewAdGuardMatcher B l = adguard_Match (NewAdGuardMatcher l);
  law_ipset l : netipx_IPSet B l = (rr ← IPSetBuilder_IPSet l; Ok (ipset_Contains rr));
  law_addr a : plain_addr a → AddrFromIP (AsSlice a) = a;
  law_put m k v : (k ∉ m.*1) → TypedMap_Put m k v = m ++ [(k, v)];
  law_zlib x : zlib_NewReader (zlib_compress x) = Ok (MkReader x EOF);
  law_zlib_no_panic x : is_panic (zlib_NewReader x) = false;
}.

(** ** Reading ends, with a value or an error *)

Section total.
Context (B : BuildEnv) `{Hlaws : SrsLaws B}.

Lemma consumes_strings : consumes 1 readRuleItemString.
Proof.
  apply consumes_counted, consumes_bind_l; [apply law_slice8_consumes|]. eauto with consumes.
Qed.
Lemma consumes_addr : consumes 1 readIPSetAddr.
Proof.
  apply consumes_bind_l; [apply consumes_ReadUvarint|]. intros n. case_match; [apply consumes_fail|].
  eapply consumes_weaken; [|apply Nat.le_0_l]. apply consumes_bind_l; eauto with consumes.
Qed.
Lemma consumes_prefix : consumes 1 readPrefix.
Proof.
  apply consumes_bind_l; [apply consumes_ReadUvarint|]. intros n. case_match; [apply consumes_fail|].
  eapply consumes_weaken; [|apply Nat.le_0_l]. apply consumes_bind_l; [apply consumes_ReadFull|]. intros l.
  eapply consumes_weaken; [|apply Nat.le_0_l]. apply consumes_bind_l; eauto with consumes.
Qed.
Lemma consumes_ipset : consumes 1 readIPSet.
Proof.
  apply consumes_bind_l; [apply consumes_ReadByte|]. intros v. case_match; [apply consumes_fail|].
  eapply consumes_weaken; [|apply Nat.le_0_l]. apply consumes_bind_l; [apply consumes_ReadUint64|]. intros n.
  apply consumes_for_range. intros i. apply consumes_bind_l; [apply consumes_addr|]. intros a.
  eapply consumes_weaken; [|apply Nat.le_0_l]. apply consumes_bind_l; [apply consumes_addr|]. eauto with consumes.
Qed.
Lemma consumes_prefixes : consumes 1 read_prefixes.
Proof. apply consumes_counted, consumes_prefix. Qed.
Lemma yields_cause {A} (size : A → nat) k (x : R A) : yields size x → yields size (r_cause k x).
Proof. intros Hx r. specialize (Hx r). unfold r_cause. by destruct (x r). Qed.
Lemma consumes_0 {A} n (x : R A) : consumes n x → consumes 0 x.
Proof. intros Hx. eapply consumes_weaken; [exact Hx|lia]. Qed.

Lemma consumes_item recover t last : consumes 0 (read_item B recover t last).
Proof.
  pose proof (consumes_0 _ _ consumes_strings). pose proof (consumes_0 _ _ consumes_ipset).
  pose proof (consumes_0 _ _ consumes_prefixes). pose proof (consumes_0 _ _ law_slice8_consumes).
  pose proof (consumes_0 _ _ law_slice16_consumes). pose proof law_matcher_consumes.
  pose proof law_adguard_consumes. unfold read_item.
  repeat match goal with |- consumes _ (if ?b then _ else _) => destruct b end;
    try (apply consumes_bind_l; [done|]; intros; apply consumes_ret);
    try apply consumes_ret; try apply consumes_fail.
  apply consumes_bind_l; [|intros; apply consumes_ret].
  eapply consumes_0, consumes_counted, consumes_bind_l; [apply consumes_ReadUint8|]. intros k.
  apply consumes_bind_l; [done|]. intros; apply consumes_ret.
Qed.

Lemma read_items_total fuel recover last r :
  (rd_len r < fuel)%nat →
  match read_items B fuel recover last r with
  | Ok (fs, r') => rd_err r' = rd_err r ∧ (rd_len r' + length fs < rd_len r)%nat
  | Err _ => True
  | Panic _ => False
  end.
Proof.
  revert last r; induction fuel as [|fuel IH]; intros last r Hr; [lia|]. cbn [read_items].
  unfold r_bind at 1. pose proof (consumes_ReadUint8 r) as H1.
  destruct (ReadUint8 r) as [[t r1]| |]; cbn; [|done..]. destruct H1 as [He1 Hl1].
  destruct (t =? ruleItemFinal).
  - unfold r_bind. pose proof (consumes_ReadBool r1) as H2.
    destruct (ReadBool r1) as [[b r2]| |]; cbn; [|done..]. destruct H2. split; [congruence|lia].
  - unfold r_bind at 1. pose proof (consumes_item recover t last r1) as H2.
    destruct (read_item B recover t last r1) as [[f r2]| |]; cbn; [|done..]. destruct H2 as [He2 Hl2].
    unfold r_bind. specialize (IH t r2 ltac:(lia)).
    destruct (read_items B fuel recover t r2) as [[fs r3]| |]; cbn; [|done..].
    destruct IH. split; [congruence|lia].
Qed.
Lemma consumes_default recover : consumes 1 (readDefaultRule B recover).
Proof.
  intros r. unfold readDefaultRule, r_bind.
  pose proof (read_items_total (S (rd_len r)) recover 0 r ltac:(lia)) as Hi.
  destruct (read_items B _ recover 0 r) as [[fs r']| |]; cbn; [|done..]. destruct Hi; split; [done|lia].
Qed.

(** The rules of a decoded tree. *)
Fixpoint rule_count (h : HeadlessOptions) : nat :=
  match h with
  | HeadlessLogical _ rules _ => S (sum_list_with rule_count rules)
  | _ => 1
  end.
Lemma rule_count_pos h : (1 ≤ rule_count h)%nat.
Proof. destruct h; cbn; lia. Qed.

Lemma yields_logical sub : yields rule_count sub → yields rule_count (readLogicalRule sub).
Proof.
  intros Hs. apply (yields_bind 1); [apply consumes_ReadByte|]. intros mode.
  apply (yields_bind 0); [eauto with consumes|]. intros m.
  apply (yields_bind 0); [eapply consumes_0, consumes_ReadUvarint|]. intros n r. unfold r_bind.
  pose proof (yields_for_range rule_count n (λ i, r_cause ("read logical rule [" +:+ Itoa i +:+ "]") sub)
    (λ i, yields_cause _ _ _ Hs) rule_count_pos r) as Hf.
  destruct (for_range n _ r) as [[rules r1]| |]; cbn; [|done..]. destruct Hf as [He1 Hl1].
  pose proof (consumes_ReadBool r1) as Hb. destruct (ReadBool r1) as [[b r2]| |]; cbn; [|done..].
  destruct Hb. split; [congruence|lia].
Qed.
Lemma yields_rule n recover depth :
  depth ≤ maxLogicalRuleDepth + 1 → maxLogicalRuleDepth + 1 - depth < Z.of_nat n →
  yields rule_count (readRule B n recover depth).
Proof.
  revert depth; induction n as [|n IH]; intros depth Hd Hn; [lia|]. cbn [readRule].
  destruct (Z.ltb_spec maxLogicalRuleDepth depth); [by intros r|].
  apply (yields_bind 0); [eapply consumes_0, consumes_ReadUint8|]. intros t.
  assert (yields rule_count (readRule B n recover (depth + 1))) as Hsub by (apply IH; lia).
  destruct (t =? 0); [|destruct (t =? 1); [|by intros r]].
  - intros r. unfold r_bind. pose proof (consumes_default recover r) as Hc.
    destruct (readDefaultRule B recover r) as [[o r1]| |]; cbn; [|done..]. destruct Hc. split; [done|lia].
  - eapply yields_weaken; [by apply yields_logical|]. intros; lia.
Qed.
Lemma yields_rules recover : yields (sum_list_with rule_count) (read_rules B recover).
Proof.
  apply (yields_bind 0); [eapply consumes_0, consumes_ReadUvarint|]. intros n.
  eapply yields_weaken; [apply (yields_for_range rule_count); [|apply rule_count_pos]|intros; lia].
  intros i. apply yields_cause, yields_rule; unfold depth_fuel, maxLogicalRuleDepth; lia.
Qed.
End total.

(** (C12) [Read] returns on every input: whatever the bytes of the file claim
    about counts and nesting, it ends with a rule-set or an error, never runs a
    loop past the input or recurses without bound, and never panics; and the
    rules it returns, nested ones counted, are at most as many as the
    decompressed bytes. *)
Theorem Read_total `{Hlaws : SrsLaws B} (file : list Z) recover :
  match Read B file recover with
  | Ok s => Version s ≤ RuleSetVersionCurrent ∧
      ∃ r, zlib_NewReader (drop 4 file) = Ok r ∧ (sum_list_with rule_count (Rules s) ≤ rd_len r)%nat
  | Err _ => True
  | Panic _ => False
  end.
Proof.
  unfold Read. destruct file as [|b0 [|b1 [|b2 file]]]; try done.
  change (ReadFull 3 _) with (Ok ([b0; b1; b2], MkReader file EOF)). cbn [mbind result_bind].
  case_bool_decide; [|done]. cbn [negb].
  destruct file as [|v file]; [done|]. change (v :: file) with ([v] ++ file) at 1. rewrite (reads_uint8 v file EOF). cbn [mbind result_bind rd_bytes].
  destruct (Z.ltb_spec RuleSetVersionCurrent v) as [|Hv]; [done|].
  change (drop 4 (b0 :: b1 :: b2 :: v :: file)) with file.
  pose proof (law_zlib_no_panic file) as Hz. destruct (zlib_NewReader file) as [r| |]; [|done..].
  cbn [mbind result_bind]. pose proof (yields_rules B recover r) as Hr.
  destruct (read_rules B recover r) as [[rules r']| |]; [|done..]. cbn. split; [done|].
  exists r. split; [done|]. lia.
Qed.
