(* ===== verification/SrsRoundtrip.v ===== *)
(** * Reading back a written rule-set

    [Read] of what [Write] wrote is the rule-set in normal form: the fields of
    a headless rule as they were, domains and addresses as the matchers built
    from them.  A rule-set compiled to the binary format builds the rules of
    its source, up to their texts. *)

From S2P Require Import Prelude GoStrings NetAddr RuleContext RuleItems RuleMatch RuleSpec RuleBuild Bytes Srs.

Local Open Scope Z_scope.
Local Open Scope reader_scope.

(** ** The laws can hold

    Matchers that are the lists they were built from, sets that are their
    ranges in the order given, and no compression. *)
Section instance.

Definition put_string (s : string) : list Z := PutUvarint (Z.of_nat (String.length s)) ++ bytes_of s.
Definition put_strings (l : list string) : list Z := PutUvarint (len l) ++ concat (put_string <$> l).
Definition get_slice8 : R (list Z) := read_counted ReadByte.
Definition get_slice16 : R (list Z) := read_counted (l <- ReadFull 2; r_ret (be_combine l)).
Definition get_strings : R (list string) := read_counted (l <- get_slice8; r_ret (string_of l)).

Definition last_of (p : Prefix) : Addr :=
  let v := block_base p + block_size p - 1 in
  match prefix_addr p with AddrZero => AddrZero | Addr4 _ => Addr4 v | Addr6 _ z => Addr6 v z end.
Definition first_of (p : Prefix) : Addr :=
  match prefix_addr p with AddrZero => AddrZero | Addr4 _ => Addr4 (block_base p) | Addr6 _ z => Addr6 (block_base p) z end.
Definition range_of (x : Prefix + Addr) : myIPRange :=
  match x with inl p => MkIPRange (first_of p) (last_of p) | inr a => MkIPRange a a end.
Definition range_has (rr : myIPRange) (a : Addr) : bool :=
  bool_decide (BitLen a = BitLen (ir_from rr)) && bool_decide (addr_val (ir_from rr) ≤ addr_val a ≤ addr_val (ir_to rr)).
Definition addr_of_bytes (l : list Z) : Addr :=
  if bool_decide (length l = 4%nat) then Addr4 (be_combine l)
  else if bool_decide (length l = 16%nat) then Addr6 (be_combine l) "" else AddrZero.
Definition map_put (m : list (Z * list Prefix)) (k : Z) (v : list Prefix) : list (Z * list Prefix) :=
  if bool_decide (k ∈ m.*1) then (λ e, if bool_decide (e.1 = k) then (k, v) else e) <$> m else m ++ [(k, v)].

Definition srs0 : SrsEnv := {|
  WriteUvarint := PutUvarint;
  ReadSlice8 := get_slice8;
  ReadSlice16 := get_slice16;
  DomainMatcher := list string * list string * bool;
  NewMatcher d s legacy := (d, s, legacy);
  matcher_Match m x := bool_decide (x ∈ m.1.1 ++ m.1.2);
  matcher_Write m := put_strings m.1.1 ++ put_strings m.1.2 ++ bool_byte m.2;
  ReadMatcher := (d <- get_strings; s <- get_strings; b <- ReadBool; r_ret (d, s, b));
  matcher_Dump m := m.1;
  AdGuardMatcher := list string;
  NewAdGuardMatcher l := l;
  adguard_Match l x := bool_decide (x ∈ l);
  adguard_Write := put_strings;
  ReadAdGuardMatcher := get_strings;
  adguard_Dump l := l;
  IPSetBuilder_IPSet l := Ok (range_of <$> l);
  ipset_Contains rs a := existsb (λ rr, range_has rr a) rs;
  ipset_Prefixes _ := [];
  AddrFromIP := addr_of_bytes;
  TypedMap_Put := map_put;
  zlib_compress x := x;
  zlib_NewReader x := Ok (MkReader x EOF);
|}.

(** Prefixes and addresses are not parsed here: "net" names 10.0.0.0/8. *)
Definition srs_build : BuildEnv :=
  MkBuildEnv (λ _, Err (EStd "regexp")) (λ d s _ x, bool_decide (x ∈ d ++ s)) (λ l x, bool_decide (x ∈ l))
    (λ s, if bool_decide (s = "net"%string) then Ok (MkPrefix (Addr4 (10 * 2^24)) 9) else Err (EStd "prefix"))
    (λ _, Err (EStd "addr"))
    (λ l, Ok (λ a, existsb (λ rr, range_has rr a) (range_of <$> l))) (λ _, None) (λ _, None)
    (λ _, ""%string) (λ _, ""%string) (λ _, ""%string).

Lemma go_len_u64 {A} (l : list A) : go_len l → in_u64 (len l).
Proof. unfold go_len, in_u64, len. lia. Qed.

Lemma concat_singletons (l : list Z) : concat ((λ a, [a]) <$> l) = l.
Proof. induction l as [|a l IH]; cbn; [done|]. by f_equal. Qed.

Lemma reads_slice8 l : go_len l → reads get_slice8 (PutUvarint (len l) ++ l) l.
Proof.
  intros Hl. rewrite <- (concat_singletons l) at 2.
  apply (reads_counted ReadByte (λ a, [a])); [by apply reads_uvarint, go_len_u64|].
  apply Forall_forall. intros a _. split; [done|apply reads_byte].
Qed.
Lemma reads_slice16 l :
  Forall is_u16 l → go_len l → reads get_slice16 (PutUvarint (len l) ++ concat (be_split 2 <$> l)) l.
Proof.
  intros Hf Hl. apply reads_counted; [by apply reads_uvarint, go_len_u64|].
  eapply Forall_impl; [exact Hf|]. intros x Hx. split; [done|].
  rewrite <- (Z.mod_small x (2^16) Hx) at 2. change (2^16) with (2^(8 * Z.of_nat 2)).
  rewrite <- (be_combine_split 2 x). apply (reads_bind_ret (ReadFull 2) be_combine).
  rewrite <- (be_split_length 2 x) at 1. apply reads_ReadFull.
Qed.
Lemma consumes_slice8 : consumes 1 get_slice8.
Proof. apply consumes_counted, consumes_ReadByte. Qed.
Lemma consumes_get_strings : consumes 1 get_strings.
Proof. apply consumes_counted, consumes_bind_l; [apply consumes_slice8|]. eauto with consumes. Qed.
Lemma reads_put_string s : go_string s → reads (l <- get_slice8; r_ret (string_of l)) (put_string s) s.
Proof.
  intros Hs. rewrite <- (string_of_bytes_of s) at 2. apply (reads_bind_ret get_slice8 string_of).
  unfold put_string. rewrite <- length_bytes_of. apply reads_slice8.
  unfold go_len. rewrite length_bytes_of. exact Hs.
Qed.
Lemma reads_put_strings l : go_strings l → reads get_strings (put_strings l) l.
Proof.
  intros [Hl Hf]. apply reads_counted; [by apply reads_uvarint, go_len_u64|].
  eapply Forall_impl; [exact Hf|]. intros s Hs. split; [|by apply reads_put_string].
  eapply (reads_nonempty (l <- get_slice8; r_ret (string_of l))); [|by apply reads_put_string].
  apply consumes_bind_l; [apply consumes_slice8|]. eauto with consumes.
Qed.
Lemma be_combine_bytes n v : 0 ≤ v < 2^(8 * Z.of_nat n) → be_combine (be_split n v) = v.
Proof. intros Hv. rewrite be_combine_split. by apply Z.mod_small. Qed.

Lemma srs0_laws : SrsLaws srs_build srs0.
Proof.
  split; try done.
  - apply reads_uvarint.
  - intros l _. apply reads_slice8.
  - apply reads_slice16.
  - apply consumes_slice8.
  - apply consumes_counted, consumes_bind_l; [eapply consumes_weaken; [apply consumes_ReadFull|lia]|].
    eauto with consumes.
  - intros d s b _ _ Hd Hs. cbn. eapply reads_bind; [by apply reads_put_strings|].
    eapply reads_bind; [by apply reads_put_strings|]. apply (reads_bind_ret ReadBool (λ b, (d, s, b))), reads_bool.
  - cbn. pose proof (consumes_weaken _ 0 _ consumes_get_strings ltac:(lia)).
    pose proof (consumes_weaken _ 0 _ consumes_ReadBool ltac:(lia)).
    repeat (apply consumes_bind_l; [done|]; intros). apply consumes_ret.
  - intros l _ _. apply reads_put_strings.
  - cbn. eapply consumes_weaken; [apply consumes_get_strings|lia].
  - intros [|v|v z] Ha; cbn in Ha; [done| |].
    + cbn [AsSlice AddrFromIP srs0]. unfold addr_of_bytes. rewrite be_split_length.
      rewrite bool_decide_eq_true_2 by done. by rewrite be_combine_bytes.
    + destruct Ha as (Hv & -> & _). cbn [AsSlice AddrFromIP srs0]. unfold addr_of_bytes. rewrite be_split_length.
      rewrite bool_decide_eq_false_2, bool_decide_eq_true_2 by done. by rewrite be_combine_bytes.
  - intros m k v Hk. cbn. unfold map_put. by rewrite bool_decide_eq_false_2.
Qed.
End instance.

(** ** The normal form *)

Section roundtrip.
Context (B : BuildEnv) {SE : SrsEnv} {Hlaws : SrsLaws B SE}.

Definition cidr_ranges (l : list string) : result (list myIPRange) :=
  x ← map_result (parse_prefix_or_addr B) 0 l; IPSetBuilder_IPSet x.
Definition cidr_set (l : list string) : list myIPRange := match cidr_ranges l with Ok rr => rr | _ => [] end.
Definition built_if {A} (b : bool) (x : A) : option A := if b then Some x else None.
Definition listed_if {A} (b : bool) (l : list A) : list A := if b then l else [].

(** The rule [Read] gives back. *)
Definition normalized (v : Z) (recover : bool) (o : MatchOptions) : MatchOptions :=
  let dom := nonempty (o_Domain o) || nonempty (o_DomainSuffix o) in
  let matcher := NewMatcher (o_Domain o) (o_DomainSuffix o) (v =? RuleSetVersion1) in
  let src := nonempty (o_SourceIPCIDR o) in
  let dst := nonempty (o_IPCIDR o) in
  let guard := nonempty (o_AdGuardDomain o) in
  let prefixes l := prefix_String B <$> ipset_Prefixes (cidr_set l) in
  MkMatchOptions [] 0 (o_QueryType o) [] false (o_Network o) [] [] []
    (listed_if (dom && recover) (matcher_Dump matcher).1) (listed_if (dom && recover) (matcher_Dump matcher).2)
    (o_DomainKeyword o) (o_DomainRegex o) [] [] []
    (listed_if (src && recover) (prefixes (o_SourceIPCIDR o))) false
    (listed_if (dst && recover) (prefixes (o_IPCIDR o))) false false
    (o_SourcePort o) (o_SourcePortRange o) (o_Port o) (o_PortRange o) (o_ProcessName o) (o_ProcessPath o)
    (o_ProcessPathRegex o) (o_PackageName o) (o_PackageNameRegex o) [] [] [] ""
    (o_NetworkType o) (o_NetworkIsExpensive o) (o_NetworkIsConstrained o) (o_WIFISSID o) (o_WIFIBSSID o)
    [] (o_NetworkInterfaceAddress o) (o_DefaultInterfaceAddress o)
    [] [] [] [] false false false None [] [] [] (o_Invert o)
    (built_if dom (matcher_Match matcher)) (built_if src (ipset_Contains (cidr_set (o_SourceIPCIDR o))))
    (built_if dst (ipset_Contains (cidr_set (o_IPCIDR o))))
    (listed_if (guard && recover) (adguard_Dump (NewAdGuardMatcher (o_AdGuardDomain o))))
    (built_if guard (adguard_Match (NewAdGuardMatcher (o_AdGuardDomain o)))).
Fixpoint normalized_rule (v : Z) (recover : bool) (h : HeadlessOptions) : HeadlessOptions :=
  match h with
  | HeadlessDefault t o => HeadlessDefault t (normalized v recover o)
  | HeadlessLogical mode rules invert => HeadlessLogical mode (map (normalized_rule v recover) rules) invert
  | HeadlessUnknown t => HeadlessUnknown t
  end.

(** Values as the Go types hold them: lengths are [int]s, ports [uint16]s, keys
    and interface types bytes; prefixes are parsed ones. *)
Definition go_prefixes (l : list Prefix) : Prop :=
  go_len l ∧ Forall (λ p, plain_addr (prefix_addr p) ∧ 0 ≤ prefix_Bits p ≤ BitLen (prefix_addr p)) l.
Definition go_cidrs (l : list string) : Prop :=
  go_len (cidr_set l) ∧ Forall (λ rr, plain_addr (ir_from rr) ∧ plain_addr (ir_to rr)) (cidr_set l).
Record encodable (o : MatchOptions) : Prop := MkEncodable {
  enc_strings : Forall go_strings
    [o_Network o; o_Domain o; o_DomainSuffix o; o_DomainKeyword o; o_DomainRegex o; o_SourcePortRange o;
     o_PortRange o; o_ProcessName o; o_ProcessPath o; o_ProcessPathRegex o; o_PackageName o;
     o_PackageNameRegex o; o_WIFISSID o; o_WIFIBSSID o; o_AdGuardDomain o];
  enc_u16 : Forall (λ l, Forall is_u16 l ∧ go_len l) [o_QueryType o; o_SourcePort o; o_Port o];
  enc_u8 : Forall is_byte (o_NetworkType o) ∧ go_len (o_NetworkType o);
  enc_domains : (""%string ∉ o_Domain o ++ o_DomainSuffix o) ∧ (""%string ∉ o_AdGuardDomain o);
  enc_cidrs : go_cidrs (o_SourceIPCIDR o) ∧ go_cidrs (o_IPCIDR o);
  enc_interfaces : go_len (o_NetworkInterfaceAddress o) ∧ NoDup (o_NetworkInterfaceAddress o).*1 ∧
    Forall (λ e, is_byte e.1 ∧ go_prefixes e.2) (o_NetworkInterfaceAddress o);
  enc_default : go_prefixes (o_DefaultInterfaceAddress o);
}.
Fixpoint encodable_rule (h : HeadlessOptions) : Prop :=
  match h with
  | HeadlessDefault _ o => encodable o
  | HeadlessLogical _ rules _ => go_len rules ∧ Forall id (map encodable_rule rules)
  | HeadlessUnknown _ => True
  end.

(** ** Primitive items *)

Lemma reads_law_uvarint {A} (l : list A) : go_len l → reads ReadUvarint (WriteUvarint (len l)) (len l).
Proof. intros Hl. by apply law_uvarint, go_len_u64. Qed.

Lemma reads_law_string s :
  go_string s →
  reads (value <- ReadSlice8; r_ret (string_of value)) (WriteUvarint (Z.of_nat (String.length s)) ++ bytes_of s) s.
Proof.
  intros Hs. rewrite <- (string_of_bytes_of s) at 3. apply (reads_bind_ret ReadSlice8 string_of).
  rewrite <- length_bytes_of. apply law_slice8; [apply bytes_of_bytes|].
  unfold go_len. rewrite length_bytes_of. exact Hs.
Qed.
Lemma reads_strings l :
  go_strings l →
  reads readRuleItemString
    (WriteUvarint (len l) ++ concat ((λ s, WriteUvarint (Z.of_nat (String.length s)) ++ bytes_of s) <$> l)) l.
Proof.
  intros [Hl Hf]. apply reads_counted; [by apply reads_law_uvarint|].
  eapply Forall_impl; [exact Hf|]. intros s Hs. split; [|by apply reads_law_string].
  eapply (reads_nonempty (value <- ReadSlice8; r_ret (string_of value))); [|by apply reads_law_string].
  apply consumes_bind_l; [apply law_slice8_consumes|]. eauto with consumes.
Qed.

Lemma plain_addr_len a : plain_addr a → len (AsSlice a) = 4 ∨ len (AsSlice a) = 16.
Proof. destruct a as [|v|v z]; cbn [plain_addr AsSlice]; [done| |]; unfold len; rewrite be_split_length; auto. Qed.
(** The common start of [readIPSetAddr] and [readPrefix]. *)
Lemma reads_addr {A} a (k : Addr → R A) l x :
  plain_addr a → reads (k a) l x →
  reads (addrLen <- ReadUvarint;
         if negb (addrLen =? 4) && negb (addrLen =? 16) then r_fail ErrInvalid
         else addrBytes <- ReadFull (Z.to_nat addrLen); k (AddrFromIP addrBytes)) (write_addr a ++ l) x.
Proof.
  intros Ha Hk. unfold write_addr. rewrite <- app_assoc. pose proof (plain_addr_len a Ha) as Hl.
  eapply reads_bind; [apply law_uvarint; unfold in_u64; lia|].
  replace (negb _ && negb _) with false by (destruct Hl as [-> | ->]; done).
  unfold len. rewrite Nat2Z.id. eapply reads_bind; [apply reads_ReadFull|]. by rewrite law_addr.
Qed.
Lemma reads_ipset_addr a : plain_addr a → reads readIPSetAddr (write_addr a) a.
Proof. intros Ha. rewrite <- (app_nil_r (write_addr a)). by apply (reads_addr a r_ret), reads_ret. Qed.
Lemma reads_prefix p :
  plain_addr (prefix_addr p) → 0 ≤ prefix_Bits p ≤ BitLen (prefix_addr p) → reads readPrefix (writePrefix p) p.
Proof.
  intros Ha Hb. unfold writePrefix, readPrefix.
  apply (reads_addr _ (λ a, prefixBits <- ReadByte; r_ret (PrefixFrom a prefixBits))); [done|].
  assert (PrefixFrom (prefix_addr p) (u8 (prefix_Bits p)) = p) as Hp.
  { unfold u8. rewrite Z.mod_small by (destruct (prefix_addr p); cbn in Hb; lia).
    destruct p as [a n]. unfold PrefixFrom, prefix_Bits in *. cbn in *.
    rewrite (bool_decide_eq_true_2 (0 ≤ n - 1 ≤ BitLen a)) by done.
    destruct a as [|w|w z]; cbn in *; [done|f_equal; lia|]. destruct Ha as (_ & -> & _). f_equal; lia. }
  rewrite <- Hp at 2. apply (reads_bind_ret ReadByte (PrefixFrom (prefix_addr p))), reads_byte.
Qed.
Lemma write_addr_nonempty a : write_addr a ≠ [].
Proof.
  assert (in_u64 (len (AsSlice a))) as Hu.
  { destruct a; unfold len, in_u64; cbn [AsSlice]; rewrite ?be_split_length; cbn; lia. }
  unfold write_addr. intros [Hn _]%app_nil.
  by eapply (reads_nonempty ReadUvarint); [apply consumes_ReadUvarint|by apply law_uvarint|].
Qed.
Lemma reads_prefixes l : go_prefixes l → reads read_prefixes (write_prefixes l) l.
Proof.
  intros [Hl Hf]. apply reads_counted; [by apply reads_law_uvarint|].
  eapply Forall_impl; [exact Hf|]. intros p [Ha Hb]. split; [|by apply reads_prefix].
  unfold writePrefix. intros [Hn _]%app_nil. by eapply write_addr_nonempty.
Qed.
Lemma reads_ipset rr :
  go_len rr → Forall (λ rr, plain_addr (ir_from rr) ∧ plain_addr (ir_to rr)) rr → reads readIPSet (writeIPSet rr) rr.
Proof.
  intros Hl Hf. unfold writeIPSet. change (1 :: ?l) with ([1] ++ l).
  eapply reads_bind; [apply reads_byte|]. cbn [Z.eqb Pos.eqb negb].
  eapply reads_bind; [apply reads_uint64, go_len_u64, Hl|].
  apply reads_for_range. clear Hl. induction Hf as [|[from to] rr [Ha Hb] _ IH]; constructor; [|done].
  split; [intros [Hn _]%app_nil; by eapply write_addr_nonempty|]. intros _. cbn in *.
  eapply reads_bind; [by apply reads_ipset_addr|].
  apply (reads_bind_ret readIPSetAddr (MkIPRange from)). by apply reads_ipset_addr.
Qed.
Lemma put_all l m :
  NoDup (m.*1 ++ l.*1) → foldl (λ m kv, TypedMap_Put m kv.1 kv.2) m l = m ++ l.
Proof.
  revert m; induction l as [|[k v] l IH]; intros m Hn; cbn; [by rewrite app_nil_r|].
  rewrite law_put.
  - rewrite IH; [by rewrite <- app_assoc|]. rewrite fmap_app, <- app_assoc. exact Hn.
  - intros Hk. apply NoDup_app in Hn as (_ & Hn & _). apply (Hn k Hk). cbn. left.
Qed.

(** ** Default rules *)

Definition field_if (b : bool) (f : Field) : list Field := if b then [f] else [].
(** What each write of [rule_writes] is read as. *)
Definition rule_fields (o : MatchOptions) (v : Z) (recover : bool) : list (list Field) :=
  let matcher := NewMatcher (o_Domain o) (o_DomainSuffix o) (v =? RuleSetVersion1) in
  let prefixes l := dumped recover (prefix_String B <$> ipset_Prefixes (cidr_set l)) in
  [ field_if (nonempty (o_QueryType o)) (FQueryType (o_QueryType o));
    field_if (nonempty (o_Network o)) (FNetwork (o_Network o));
    field_if (nonempty (o_Domain o) || nonempty (o_DomainSuffix o))
      (FDomain (matcher_Match matcher) (dumped recover (matcher_Dump matcher)));
    field_if (nonempty (o_DomainKeyword o)) (FDomainKeyword (o_DomainKeyword o));
    field_if (nonempty (o_DomainRegex o)) (FDomainRegex (o_DomainRegex o));
    field_if (nonempty (o_SourceIPCIDR o))
      (FSourceIPCIDR (ipset_Contains (cidr_set (o_SourceIPCIDR o))) (prefixes (o_SourceIPCIDR o)));
    field_if (nonempty (o_IPCIDR o)) (FIPCIDR (ipset_Contains (cidr_set (o_IPCIDR o))) (prefixes (o_IPCIDR o)));
    field_if (nonempty (o_SourcePort o)) (FSourcePort (o_SourcePort o));
    field_if (nonempty (o_SourcePortRange o)) (FSourcePortRange (o_SourcePortRange o));
    field_if (nonempty (o_Port o)) (FPort (o_Port o));
    field_if (nonempty (o_PortRange o)) (FPortRange (o_PortRange o));
    field_if (nonempty (o_ProcessName o)) (FProcessName (o_ProcessName o));
    field_if (nonempty (o_ProcessPath o)) (FProcessPath (o_ProcessPath o));
    field_if (nonempty (o_ProcessPathRegex o)) (FProcessPathRegex (o_ProcessPathRegex o));
    field_if (nonempty (o_PackageName o)) (FPackageName (o_PackageName o));
    field_if (nonempty (o_PackageNameRegex o)) (FPackageNameRegex (o_PackageNameRegex o));
    field_if (nonempty (o_NetworkType o)) (FNetworkType (o_NetworkType o));
    field_if (o_NetworkIsExpensive o) FNetworkIsExpensive;
    field_if (o_NetworkIsConstrained o) FNetworkIsConstrained;
    field_if (nonempty (o_NetworkInterfaceAddress o)) (FNetworkInterfaceAddress (o_NetworkInterfaceAddress o));
    field_if (nonempty (o_DefaultInterfaceAddress o)) (FDefaultInterfaceAddress (o_DefaultInterfaceAddress o));
    field_if (nonempty (o_WIFISSID o)) (FWIFISSID (o_WIFISSID o));
    field_if (nonempty (o_WIFIBSSID o)) (FWIFIBSSID (o_WIFIBSSID o));
    field_if (nonempty (o_AdGuardDomain o))
      (FAdGuardDomain (adguard_Match (NewAdGuardMatcher (o_AdGuardDomain o)))
         (dumped recover (adguard_Dump (NewAdGuardMatcher (o_AdGuardDomain o))))) ].

(** A write that succeeds is an item that reads as the field, or nothing. *)
Definition item_reads (recover : bool) (bs : list Z) (f : Field) : Prop := ∃ t body,
  bs = t :: body ∧ (t =? ruleItemFinal) = false ∧ ∀ last, reads (read_item B recover t last) body f.
Definition write_reads (recover : bool) (w : result (list Z)) (fs : list Field) : Prop := ∀ bs,
  w = Ok bs → (bs = [] ∧ fs = []) ∨ ∃ f, fs = [f] ∧ item_reads recover bs f.

Lemma write_reads_when recover (b : bool) w f :
  (b = true → ∀ bs, w = Ok bs → item_reads recover bs f) → write_reads recover (when b w) (field_if b f).
Proof. intros Hw bs Hb. destruct b; cbn in *; [right|left]; [eauto|]. by injection Hb as <-. Qed.
Lemma since_Ok v n m w bs : since v n m w = Ok bs → w = Ok bs.
Proof. unfold since. by case_match. Qed.

Lemma read_items_writes recover ws fss items invert fuel lastItemType :
  Forall2 (write_reads recover) ws fss → seq_writes ws = Ok items → (length items < fuel)%nat →
  reads (read_items B fuel recover lastItemType) (items ++ ruleItemFinal :: bool_byte invert)
    (concat fss ++ [FInvert invert]).
Proof.
  intros Hf. revert items fuel lastItemType; induction Hf as [|w fs ws fss Hw _ IH]; intros items fuel last Hs Hfu.
  - injection Hs as <-. destruct fuel as [|fuel]; [cbn in Hfu; lia|]. cbn [read_items app concat].
    change (ruleItemFinal :: bool_byte invert) with ([ruleItemFinal] ++ bool_byte invert).
    eapply reads_bind; [apply reads_uint8|]. rewrite Z.eqb_refl.
    apply (reads_bind_ret ReadBool (λ b, [FInvert b])), reads_bool.
  - cbn [seq_writes] in Hs. apply result_bind_Ok in Hs as (bs & Hbs & (rest & Hr & [= <-])%result_bind_Ok).
    destruct (Hw bs Hbs) as [[-> ->]|(f & -> & t & body & -> & Ht & Hread)].
    { cbn [app concat]. by apply IH. }
    rewrite length_app in Hfu. cbn in Hfu. destruct fuel as [|fuel]; [lia|]. cbn [read_items].
    cbn [app]. change (t :: ?l) with ([t] ++ l). eapply reads_bind; [apply reads_uint8|]. rewrite Ht.
    rewrite <- app_assoc. eapply reads_bind; [apply Hread|].
    apply (reads_bind_ret _ (cons f)). apply IH; [done|lia].
Qed.

(** Reading the parts of [rule_writes]. *)
Lemma cidr_item_reads recover t l g bs :
  (t =? ruleItemFinal) = false → go_cidrs l →
  (∀ last, read_item B recover t last = (s <- readIPSet; r_ret (g s))) →
  writeRuleItemCIDR B t l = Ok bs → item_reads recover bs (g (cidr_set l)).
Proof.
  intros Ht [Hl Hf] Hr Hw. unfold cidr_set, cidr_ranges in *. unfold writeRuleItemCIDR in Hw.
  apply result_bind_Ok in Hw as (x & Hx & (rr & Hrr & [= <-])%result_bind_Ok).
  rewrite Hx in *. cbn [mbind result_bind] in *. rewrite Hrr in *.
  exists t, (writeIPSet rr). split_and!; [done|done|]. intros last. rewrite Hr.
  by apply (reads_bind_ret readIPSet g), reads_ipset.
Qed.

Lemma string_item_reads recover t (g : list string → Field) l :
  (t =? ruleItemFinal) = false → (∀ last, read_item B recover t last = (l <- readRuleItemString; r_ret (g l))) →
  go_strings l → item_reads recover (writeRuleItemString t l) (g l).
Proof.
  intros Ht Hr Hl. eexists t, _. split_and!; [done|done|]. intros last. rewrite Hr.
  by apply (reads_bind_ret readRuleItemString g), reads_strings.
Qed.
Lemma u16_item_reads recover t (g : list Z → Field) l :
  (t =? ruleItemFinal) = false → (∀ last, read_item B recover t last = (l <- ReadSlice16; r_ret (g l))) →
  Forall is_u16 l ∧ go_len l → item_reads recover (writeRuleItemUint16 t l) (g l).
Proof.
  intros Ht Hr [Hf Hl]. eexists t, _. split_and!; [done|done|]. intros last. rewrite Hr.
  by apply (reads_bind_ret ReadSlice16 g), law_slice16.
Qed.
Lemma interfaces_read l :
  go_len l → Forall (λ e, is_byte e.1 ∧ go_prefixes e.2) l →
  reads (read_counted (key <- ReadUint8; value <- read_prefixes; r_ret (key, value)))
    (WriteUvarint (len l) ++ concat ((λ entry, u8 entry.1 :: write_prefixes entry.2) <$> l)) l.
Proof.
  intros Hl Hf. apply reads_counted; [by apply reads_law_uvarint|]. eapply Forall_impl; [exact Hf|].
  intros [k ps] [Hk Hp]. split; [done|]. cbn [fst snd] in *. change (?x :: ?l) with ([x] ++ l).
  unfold u8. rewrite Z.mod_small by exact Hk. eapply reads_bind; [apply reads_uint8|].
  by apply (reads_bind_ret read_prefixes (pair k)), reads_prefixes.
Qed.
Lemma nonempty_spec {A} (l : list A) : nonempty l = true ↔ l ≠ [].
Proof. by destruct l. Qed.

(** Closes the items of strings and of ports. *)
Ltac read_known :=
  match goal with
  | |- item_reads _ (writeRuleItemString ?t ?l) (?g ?l) => by apply (string_item_reads _ t g)
  | |- item_reads _ (writeRuleItemUint16 ?t ?l) (?g ?l) => by apply (u16_item_reads _ t g)
  end.

Lemma rule_writes_read o v recover :
  encodable o → Forall2 (write_reads recover) (rule_writes B o v) (rule_fields o v recover).
Proof.
  intros [Hs Hu16 [Hu8 Hl8] [Hd Hg] [Hsrc Hdst] (Hil & Hin & Hif) Hdef].
  rewrite !Forall_cons in Hs. rewrite !Forall_cons in Hu16. destruct_and!.
  unfold rule_writes, rule_fields.
  repeat (apply Forall2_cons_2 || apply Forall2_nil_2); apply write_reads_when; intros Hb bs Hw;
    repeat match goal with
    | H : since _ _ _ _ = Ok _ |- _ => apply since_Ok in H
    | H : cause _ _ = Ok _ |- _ => apply cause_Ok in H
    end; try (injection Hw as <-; try read_known).
  - eexists ruleItemDomain, _. split_and!; [done|done|]. intros last.
    apply (reads_bind_ret ReadMatcher (λ m, FDomain (matcher_Match m) (dumped recover (matcher_Dump m)))).
    apply law_matcher; [|done..]. intros [He1 He2]%app_nil. by rewrite He1, He2 in Hb.
  - by apply (cidr_item_reads recover ruleItemSourceIPCIDR _
      (λ s, FSourceIPCIDR (ipset_Contains s) (dumped recover (prefix_String B <$> ipset_Prefixes s)))).
  - by apply (cidr_item_reads recover ruleItemIPCIDR _
      (λ s, FIPCIDR (ipset_Contains s) (dumped recover (prefix_String B <$> ipset_Prefixes s)))).
  - eexists ruleItemNetworkType, _. split_and!; [done|done|]. intros last.
    by apply (reads_bind_ret ReadSlice8 FNetworkType), law_slice8.
  - eexists ruleItemNetworkIsExpensive, _. by split_and!.
  - eexists ruleItemNetworkIsConstrained, _. by split_and!.
  - eexists ruleItemNetworkInterfaceAddress, _. split_and!; [done|done|]. intros last.
    replace (FNetworkInterfaceAddress (o_NetworkInterfaceAddress o))
      with (FNetworkInterfaceAddress (foldl (λ m kv, TypedMap_Put m kv.1 kv.2) [] (o_NetworkInterfaceAddress o)))
      by (f_equal; by apply put_all).
    apply (reads_bind_ret _ (λ l, FNetworkInterfaceAddress (foldl (λ m kv, TypedMap_Put m kv.1 kv.2) [] l))).
    by apply interfaces_read.
  - eexists ruleItemDefaultInterfaceAddress, _. split_and!; [done|done|]. intros last.
    by apply (reads_bind_ret read_prefixes FDefaultInterfaceAddress), reads_prefixes.
  - eexists ruleItemAdGuardDomain, _. split_and!; [done|done|]. intros last.
    apply (reads_bind_ret ReadAdGuardMatcher (λ m, FAdGuardDomain (adguard_Match m) (dumped recover (adguard_Dump m)))).
    apply law_adguard; [|done..]. by apply nonempty_spec.
Qed.

(** The assignments of a written rule give its normal form. *)
Lemma omap_field_if {A} (get : Field → option A) b f :
  omap get (field_if b f) = listed_if b (match get f with Some a => [a] | None => [] end).
Proof. unfold field_if, listed_if. destruct b; cbn; [|done]. by destruct (get f). Qed.
Lemma last_listed {A} b (a : A) : last (listed_if b [a]) = built_if b a.
Proof. by destruct b. Qed.

Lemma listed_nil {A} b : @listed_if A b [] = [].
Proof. by destruct b. Qed.
Lemma default_nonempty {A} (l : list A) : default [] (built_if (nonempty l) l) = l.
Proof. by destruct l. Qed.
Lemma default_flag (b : bool) : default false (built_if b true) = b.
Proof. by destruct b. Qed.
Lemma default_listed {A} b (l : list A) : default [] (built_if b l) = listed_if b l.
Proof. by destruct b. Qed.
Lemma default_built {A} b (a : A) : default None (built_if b (Some a)) = built_if b a.
Proof. by destruct b. Qed.

Lemma headless_of_fields o v recover :
  headless_of (concat (rule_fields o v recover) ++ [FInvert (o_Invert o)]) = normalized v recover o.
Proof.
  unfold headless_of, normalized, rule_fields. unfold dumped. cbn [concat].
  f_equal; try reflexivity; unfold assigned; rewrite !omap_app, !omap_field_if; destruct recover;
    cbn [omap list_omap]; rewrite ?listed_nil; cbn [app]; rewrite ?app_nil_r, ?last_listed, ?andb_true_r, ?andb_false_r;
    rewrite ?default_nonempty, ?default_flag, ?default_listed, ?default_built; try reflexivity.
Qed.

Lemma reads_default o v recover bs :
  encodable o → writeDefaultRule B o v = Ok (0 :: bs) → reads (readDefaultRule B recover) bs (normalized v recover o).
Proof.
  intros He (items & Hi & [= <-])%result_bind_Ok rest e. unfold readDefaultRule, rd_len. cbn [rd_bytes].
  rewrite <- headless_of_fields.
  apply (reads_bind_ret _ headless_of). eapply read_items_writes; [by apply rule_writes_read|done|].
  rewrite !length_app. lia.
Qed.

(** ** Trees of rules *)

Fixpoint rule_depth (h : HeadlessOptions) : nat :=
  match h with
  | HeadlessLogical _ rules _ => S (foldr Nat.max 0%nat (map rule_depth rules))
  | _ => 0
  end.

Lemma seq_writes_Forall2 {A} (f : A → result (list Z)) l bs :
  seq_writes (map f l) = Ok bs → ∃ bss, bs = concat bss ∧ Forall2 (λ a b, f a = Ok b) l bss.
Proof.
  revert bs; induction l as [|a l IH]; intros bs; cbn; [intros [= <-]; exists []; by split|].
  intros (b & Hb & (bs' & Hbs & [= <-])%result_bind_Ok)%result_bind_Ok.
  destruct (IH _ Hbs) as (bss & -> & Hf). exists (b :: bss). by split; [|constructor].
Qed.
Lemma writeRule_head v h bs : writeRule B v h = Ok bs → ∃ t body, bs = t :: body ∧ (t = 0 ∨ t = 1).
Proof.
  destruct h as [[]|mode rules invert|t]; cbn; try done.
  - intros (items & _ & [= <-])%result_bind_Ok. eauto.
  - intros (m & _ & (subs & _ & [= <-])%result_bind_Ok)%result_bind_Ok. eauto.
Qed.

Lemma reads_rule v recover h n depth bs :
  encodable_rule h → writeRule B v h = Ok bs →
  depth + Z.of_nat (rule_depth h) ≤ maxLogicalRuleDepth → (rule_depth h < n)%nat →
  reads (readRule B n recover depth) bs (normalized_rule v recover h).
Proof.
  revert n depth bs; induction h as [t o|t|mode rules invert IH] using Headless_deep_ind;
    intros n depth bs He Hw Hd Hn; (destruct n as [|n]; [lia|]); cbn [readRule];
    (destruct (Z.ltb_spec maxLogicalRuleDepth depth); [lia|]).
  - destruct t; [|done]. destruct (writeRule_head _ _ _ Hw) as (t & body & -> & Ht). cbn [writeRule] in Hw.
    assert (t = 0) as -> by (by apply result_bind_Ok in Hw as (items & _ & [= <- _])).
    change (0 :: body) with ([0] ++ body). eapply reads_bind; [apply reads_uint8|]. cbn [Z.eqb].
    apply (reads_bind_ret _ (HeadlessDefault true)). by apply reads_default.
  - done.
  - cbn [writeRule encodable_rule] in *. destruct He as [Hl He].
    apply result_bind_Ok in Hw as (m & Hm & (subs & Hsubs & [= <-])%result_bind_Ok).
    change (1 :: ?l) with ([1] ++ l). eapply reads_bind; [apply reads_uint8|]. cbn [Z.eqb Pos.eqb].
    apply seq_writes_Forall2 in Hsubs as (bss & -> & Hf).
    assert (∃ b, m = [b] ∧ reads (if b =? 0 then r_ret "and"%string else if b =? 1 then r_ret "or"%string
              else r_fail (EFmt "unknown logical mode: " [Itoa b])) [] mode) as (b & -> & Hmode).
    { unfold write_mode in Hm. repeat case_bool_decide; try done; subst; injection Hm as <-; eexists; (split; [reflexivity|]); apply reads_ret. }
    eapply reads_bind; [apply reads_byte|]. rewrite <- (app_nil_l (WriteUvarint _ ++ _)).
    eapply reads_bind; [exact Hmode|]. unfold len. rewrite length_map.
    eapply reads_bind; [by apply reads_law_uvarint|].
    eapply reads_bind; [|by apply (reads_bind_ret ReadBool (HeadlessLogical mode _)), reads_bool].
    unfold len. rewrite <- (length_map (normalized_rule v recover) rules). apply reads_for_range.
    clear Hm Hmode Hl. cbn [rule_depth] in Hd, Hn.
    induction Hf as [|h bs rules bss Hb _ IHf]; cbn [map foldr] in *; [constructor|].
    inversion IH as [|? ? IHh IHr]; subst. inversion He as [|? ? Heh Her]; subst. constructor.
    + destruct (writeRule_head _ _ _ Hb) as (? & ? & -> & _). split; [done|]. intros i. apply reads_cause.
      apply IHh; [done|done|lia|lia].
    + apply IHf; first [done|lia].
Qed.
End roundtrip.

(** Reading a whole file. *)
Lemma reads_back (B : BuildEnv) (SE : SrsEnv) (Hlaws : SrsLaws B SE) rules v recover file :
  RuleSetVersion1 ≤ v ≤ RuleSetVersionCurrent → go_len rules → Forall (encodable_rule B) rules →
  Forall (λ h, Z.of_nat (rule_depth h) ≤ maxLogicalRuleDepth) rules →
  Write B rules v = Ok file →
  Read B file recover = Ok (MkRuleSetCompat v (map (normalized_rule B v recover) rules)).
Proof.
  intros Hv Hl He Hd (body & Hb & [= <-])%result_bind_Ok. unfold Read.
  change (ReadFull 3 _) with (Ok (MagicBytes, MkReader (u8 v :: zlib_compress (WriteUvarint (len rules) ++ body)) EOF)).
  cbn [mbind result_bind]. rewrite bool_decide_eq_true_2 by done. cbn [negb].
  unfold u8. rewrite Z.mod_small by (unfold RuleSetVersionCurrent, RuleSetVersion5, RuleSetVersion1 in Hv; lia).
  change (v :: ?l) with ([v] ++ l). rewrite (reads_uint8 v _ EOF). cbn [mbind result_bind rd_bytes].
  destruct (Z.ltb_spec RuleSetVersionCurrent v); [lia|]. rewrite law_zlib. cbn [mbind result_bind].
  assert (reads (read_rules B recover) (WriteUvarint (len rules) ++ body) (map (normalized_rule B v recover) rules)) as Hr.
  { eapply reads_bind; [by apply (reads_law_uvarint B)|]. apply seq_writes_Forall2 in Hb as (bss & -> & Hf).
    unfold len. rewrite <- (length_map (normalized_rule B v recover) rules). apply reads_for_range.
    clear Hl. induction Hf as [|h bs rules bss Hb _ IHf]; [constructor|].
    inversion He; subst. inversion Hd; subst. cbv beta in *. cbn [map]. constructor; [|by apply IHf].
    destruct (writeRule_head _ _ _ _ Hb) as (? & ? & -> & _). split; [done|]. intros i. apply reads_cause.
    apply reads_rule; [done|done|done|lia|]. unfold depth_fuel, maxLogicalRuleDepth in *. lia. }
  specialize (Hr [] EOF). rewrite app_nil_r in Hr. by rewrite Hr.
Qed.

(** (C10) Round trip: what [Write] wrote for a version the format knows, [Read]
    reads back as the same version and the same rules in normal form: every
    field of a headless rule unchanged, the domains and addresses as the
    matchers that were written (with their dump when [recover] is set), logical
    rules with their mode, order and inversion.  Rules may nest up to the
    limit of the reader. *)
Theorem srs_roundtrip (B : BuildEnv) (SE : SrsEnv) (Hlaws : SrsLaws B SE) rules v recover file :
  RuleSetVersion1 ≤ v ≤ RuleSetVersionCurrent → go_len rules → Forall (encodable_rule B) rules →
  Forall (λ h, Z.of_nat (rule_depth h) ≤ maxLogicalRuleDepth) rules →
  Write B rules v = Ok file →
  Read B file recover = Ok (MkRuleSetCompat v (map (normalized_rule B v recover) rules)).
Proof. apply reads_back. done. Qed.

(** A rule-set with every kind of item the instance can write: domains, an
    address block, ports, interface addresses, nested in a logical rule. *)
Definition sample_options : MatchOptions :=
  MkMatchOptions [] 0 [1; 28] [] false ["udp"%string] [] [] [] ["a.example"%string] ["b.example"%string] [] [] [] [] []
    ["net"%string] false ["net"%string] false false [53] [] [443; 8443] ["1000:2000"%string] [] [] [] [] [] [] [] [] ""
    [1; 2] true false ["home"%string] [] [] [(1, [MkPrefix (Addr4 (10 * 2^24)) 9])] [MkPrefix (Addr6 5 "") 65]
    [] [] [] [] false false false None [] [] [] true None None None ["||ads"%string] None.
Definition sample_rules : list HeadlessOptions :=
  [HeadlessLogical "or" [HeadlessDefault true sample_options; HeadlessDefault true (with_port [80] no_options)] true].
Definition sample_file : list Z := match @Write srs0 srs_build sample_rules 5 with Ok f => f | _ => [] end.

Ltac concrete := repeat first
  [ progress (unfold go_strings, go_prefixes, go_cidrs, go_len, go_string, is_u16, is_byte, prefix_Bits)
  | match goal with
    | |- _ ∧ _ => split
    | |- Forall _ [] => constructor
    | |- Forall _ (_ :: _) => constructor
    | |- NoDup _ => apply (bool_decide_unpack _); by vm_compute
    | |- ¬ _ => apply (bool_decide_unpack _); by vm_compute
    | |- context [cidr_set ?B ?l] => let x := eval vm_compute in (cidr_set (SE := srs0) B l) in change (cidr_set B l) with x
    end
  | progress cbn | lia | reflexivity ].

Lemma sample_encodable : encodable (SE := srs0) srs_build sample_options.
Proof. split; concrete. Qed.
Lemma port_encodable : encodable (SE := srs0) srs_build (with_port [80] no_options).
Proof. split; concrete. Qed.

Lemma srs_roundtrip_witness :
  length sample_file = 167%nat ∧
  @Read srs0 srs_build sample_file false =
    Ok (MkRuleSetCompat 5 (map (@normalized_rule srs_build srs0 5 false) sample_rules)).
Proof.
  split; [by vm_compute|].
  apply (srs_roundtrip srs_build srs0 srs0_laws sample_rules 5 false sample_file);
    [by vm_compute|by vm_compute| | |by vm_compute].
  - constructor; [|constructor]. cbn. split; [by vm_compute|].
    constructor; [apply sample_encodable|]. constructor; [apply port_encodable|constructor].
  - constructor; [by vm_compute|constructor].
Defined.

(** A file that claims 2^40 rules and ends. *)
Lemma Read_total_witness :
  @Read srs0 srs_build (MagicBytes ++ 5 :: PutUvarint (2^40)) false =
    Err (EWrap "read rule[0]" EOF) ∧
  match @Read srs0 srs_build sample_file true with
  | Ok s => Version s ≤ RuleSetVersionCurrent ∧
      ∃ r, @zlib_NewReader srs0 (drop 4 sample_file) = Ok r ∧ (sum_list_with rule_count (Rules s) ≤ rd_len r)%nat
  | Err _ => True
  | Panic _ => False
  end.
Proof.
  split; [by vm_compute|]. exact (@Read_total srs_build srs0 srs0_laws sample_file true).
Defined.
