(* ===== verification/SrsCompile.v ===== *)
(** * Compiled rule-sets match like their source

    [sing-box rule-set compile] writes a rule-set in the smallest version that
    can hold it; a router that loads the file matches exactly like one that
    loads the source.  The rules differ only in the texts of their items, which
    [erase_rule] forgets. *)

From S2P Require Import Prelude GoStrings NetAddr RuleContext RuleItems RuleMatch RuleSpec RuleBuild Bytes Srs SrsRoundtrip.

Local Open Scope Z_scope.

(** ** Matching does not look at texts *)

Definition erase_item (it : RuleItem) : RuleItem :=
  match it with
  | DomainItem m _ => DomainItem m ""
  | IPCIDRItem s src _ => IPCIDRItem s src ""
  | _ => it
  end.
Definition erase_default (r : default_rule) : default_rule :=
  MkDefaultRule (map erase_item (items r)) (map erase_item (sourceAddressItems r))
    (map erase_item (sourcePortItems r)) (map erase_item (destinationAddressItems r))
    (map erase_item (destinationIPCIDRItems r)) (map erase_item (destinationPortItems r))
    (map erase_item (allItems r)) (ruleSetItem r) (d_invert r).
Fixpoint erase_rule (rule : Rule) : Rule :=
  match rule with
  | DefaultHeadlessRule r => DefaultHeadlessRule (erase_default r)
  | LogicalRule l => LogicalRule (MkLogicalRule (map erase_rule (l_rules l)) (l_mode l) (l_invert l))
  | _ => rule
  end.

Section matching.
Context `{UnicodeTables} (E : RuleEnv).

Lemma erase_item_Match it m : RuleItem_Match E (erase_item it) m = RuleItem_Match E it m.
Proof. by destruct it. Qed.
Lemma erase_matchAny l m : matchAnyItem E (map erase_item l) m = matchAnyItem E l m.
Proof. induction l as [|it l IH]; cbn; [done|]. by rewrite erase_item_Match; f_equal. Qed.
Lemma erase_matchAll l m : matchAllItems E (map erase_item l) m = matchAllItems E l m.
Proof. induction l as [|it l IH]; cbn; [done|]. by rewrite erase_item_Match; f_equal. Qed.
Lemma nonempty_map {A C} (f : A → C) l : nonempty (map f l) = nonempty l.
Proof. by destruct l. Qed.

Lemma erase_groups r m : evaluateGroups E (erase_default r) m = evaluateGroups E r m.
Proof.
  unfold evaluateGroups, destinationIPCIDRMatchesSource, destinationIPCIDRMatchesDestination.
  cbn [erase_default sourceAddressItems sourcePortItems destinationAddressItems destinationIPCIDRItems
    destinationPortItems].
  by rewrite !erase_matchAny, !nonempty_map.
Qed.
Lemma erase_merge r m : evaluateForMerge E (erase_default r) m = evaluateForMerge E r m.
Proof.
  unfold evaluateForMerge. rewrite erase_groups. destruct (evaluateGroups E r m) as [g m'].
  cbn [erase_default items]. by rewrite erase_matchAll.
Qed.
Lemma erase_default_Match rm r m : default_Match E rm (erase_default r) m = default_Match E rm r m.
Proof.
  unfold default_Match, matchInner. rewrite erase_groups.
  cbn [erase_default allItems ruleSetItem d_invert items]. rewrite nonempty_map.
  destruct (evaluateGroups E r m) as [g m']. by rewrite erase_matchAll.
Qed.

(** Loops over rules that match alike. *)
Lemma any_loop_same rm snapshot f rules matched d m :
  Forall (λ r, ∀ m, rm (f r) m = rm r m) rules →
  any_loop rm snapshot (map f rules) matched d m = any_loop rm snapshot rules matched d m.
Proof.
  intros Hf. revert matched d m; induction Hf as [|r rules Hr _ IH]; intros matched d m; [done|].
  cbn. rewrite Hr. destruct (rm r _) as [[] m']; [|apply IH]. case_bool_decide; [done|apply IH].
Qed.
Lemma and_loop_same rm f rules d m :
  Forall (λ r, ∀ m, rm (f r) m = rm r m) rules → and_loop rm (map f rules) d m = and_loop rm rules d m.
Proof.
  intros Hf. revert d m; induction Hf as [|r rules Hr _ IH]; intros d m; [done|].
  cbn. rewrite Hr. destruct (rm r _) as [[] m']; cbn; [apply IH|done].
Qed.
Lemma or_loop_same rm f rules matched d m :
  Forall (λ r, ∀ m, rm (f r) m = rm r m) rules → or_loop rm (map f rules) matched d m = or_loop rm rules matched d m.
Proof.
  intros Hf. revert matched d m; induction Hf as [|r rules Hr _ IH]; intros matched d m; [done|].
  cbn. rewrite Hr. destruct (rm r _) as [[] m']; [|apply IH]. case_bool_decide; [done|apply IH].
Qed.

Lemma erase_rule_Match rule m : rule_Match E (erase_rule rule) m = rule_Match E rule m.
Proof.
  revert m; induction rule as [rule IH] using Rule_deep_ind; intros m.
  destruct rule as [r|r|r mr tag|l]; try done; cbn [erase_rule rule_Match].
  - apply erase_default_Match.
  - unfold logical_Match. cbn [l_rules l_mode l_invert]. cbn [subrules] in IH.
    by rewrite and_loop_same, or_loop_same.
Qed.

Lemma erase_mergeable rules :
  mergeableRuleIn (map erase_rule rules) = erase_default <$> mergeableRuleIn rules.
Proof.
  destruct rules as [|[r|r|r mr tag|l] [|r' rules]]; try done. cbn.
  by destruct (d_invert r || _).
Qed.

(** Two rule-sets with the same rules up to texts answer alike, wherever they
    are referred to. *)
Definition same_rules (s s' : RuleSet Rule) : Prop :=
  map erase_rule (rs_rules s) = map erase_rule (rs_rules s') ∧ rs_metadata s = rs_metadata s'.

Lemma same_RuleSet_Match s s' m :
  same_rules s s' → RuleSet_Match (rule_Match E) s m = RuleSet_Match (rule_Match E) s' m.
Proof.
  intros [Hr _]. unfold RuleSet_Match, matchAnyHeadlessRule.
  assert (∀ l, Forall (λ r, ∀ m, rule_Match E (erase_rule r) m = rule_Match E r m) l) as Hf
    by (intros l; apply Forall_forall; intros; apply erase_rule_Match).
  rewrite <- (any_loop_same _ _ _ (rs_rules s)), <- (any_loop_same _ _ _ (rs_rules s')) by apply Hf.
  by rewrite Hr.
Qed.
Lemma same_set_loop i snapshot outer pre s s' post matched d m :
  same_rules s s' →
  set_loop E (rule_Match E) i snapshot outer (pre ++ s :: post) matched d m =
  set_loop E (rule_Match E) i snapshot outer (pre ++ s' :: post) matched d m.
Proof.
  intros Hs. revert matched d m; induction pre as [|x pre IH]; intros matched d m.
  - cbn [app set_loop]. pose proof (erase_mergeable (rs_rules s)) as H1.
    pose proof (erase_mergeable (rs_rules s')) as H2. rewrite (proj1 Hs), H2 in H1. unfold mergeableRule.
    destruct (mergeableRuleIn (rs_rules s)) as [r|], (mergeableRuleIn (rs_rules s')) as [r'|]; try done; cbn in H1.
    + assert (erase_default r = erase_default r') as Heq by congruence.
      by rewrite <- (erase_merge r), <- (erase_merge r'), Heq.
    + by rewrite (same_RuleSet_Match s s').
  - rewrite <- !app_comm_cons. cbn [set_loop].
    repeat match goal with
    | |- _ = _ => reflexivity || apply IH
    | |- context [match ?x with _ => _ end] => destruct x
    end.
Qed.
End matching.

(** ** Building from the decoded rules *)

Section build.
Context (B : BuildEnv) {SE : SrsEnv} {Hlaws : SrsLaws B SE}.

(** A step builds at least what another builds, up to texts. *)
Definition step_sim (s s' : step) : Prop := ∀ r r0 r',
  erase_default r = erase_default r0 → run_step s r = Ok r' →
  ∃ r0', run_step s' r0 = Ok r0' ∧ erase_default r' = erase_default r0'.

Lemma erase_append ds it it' r r0 :
  erase_default r = erase_default r0 → erase_item it = erase_item it' →
  erase_default (append_into ds it r) = erase_default (append_into ds it' r0).
Proof.
  intros Hr Hi. unfold append_into. revert r r0 Hr. induction ds as [|d ds IH]; intros r r0 Hr; [done|]. cbn [foldl]. apply IH.
  destruct r, r0. unfold erase_default, append_to in *. cbn in *. injection Hr. intros.
  repeat case_decide; rewrite ?map_app; cbn; congruence.
Qed.
Lemma step_sim_add g b it it' : erase_item it = erase_item it' → step_sim (Add g b it) (Add g b it').
Proof.
  intros Hi r r0 r' Hr [= <-]. eexists. split; [done|]. destruct b; [by apply erase_append|done].
Qed.
Lemma step_sim_refl s : step_sim s s.
Proof.
  destruct s as [g b it|g b rit|b e|b i]; [by apply step_sim_add|..]; intros r r0 r' Hr Hs; cbn in *.
  - destruct b; [|injection Hs as <-; eauto]. destruct rit as [it| |]; cbn in *; try done.
    injection Hs as <-. eexists. split; [done|]. by apply erase_append.
  - destruct b; [done|]. injection Hs as <-. eauto.
  - injection Hs as <-. eexists. split; [done|]. destruct b; [|done].
    unfold erase_default in *. cbn. injection Hr. intros. congruence.
Qed.
Lemma step_sim_built g rit it' :
  (∀ it, rit = Ok it → erase_item it = erase_item it') → step_sim (AddE g true rit) (Add g true it').
Proof.
  intros Hi r r0 r' Hr Hs. cbn in *. destruct rit as [it| |]; cbn in *; try done.
  injection Hs as <-. eexists. split; [done|]. by apply erase_append; auto.
Qed.
Lemma run_steps_sim l l' r r0 r' :
  Forall2 step_sim l l' → erase_default r = erase_default r0 → run_steps l r = Ok r' →
  ∃ r0', run_steps l' r0 = Ok r0' ∧ erase_default r' = erase_default r0'.
Proof.
  intros Hf. revert r r0; induction Hf as [|s s' l l' Hs _ IH]; intros r r0 Hr; cbn; [intros [= <-]; eauto|].
  intros (r1 & H1 & H2)%result_bind_Ok. destruct (Hs _ _ _ Hr H1) as (r01 & -> & Hr1). cbn. eauto.
Qed.
Lemma Forall2_refl_steps l : Forall2 step_sim l l.
Proof. induction l; constructor; auto using step_sim_refl. Qed.

(** The matchers of the source are not set: the JSON decoder skips them. *)
Record from_source (o : MatchOptions) : Prop := MkFromSource {
  src_domain : o_DomainMatcher o = None;
  src_source : o_SourceIPSet o = None;
  src_ip : o_IPSet o = None;
  src_adguard : o_AdGuardDomainMatcher o = None;
}.
Fixpoint from_source_rule (h : HeadlessOptions) : Prop :=
  match h with
  | HeadlessDefault _ o => from_source o
  | HeadlessLogical _ rules _ => Forall id (map from_source_rule rules)
  | HeadlessUnknown _ => True
  end.

Lemma cidr_item_erase src l key it :
  cause key (NewIPCIDRItem B src l) = Ok it →
  erase_item it = erase_item (NewRawIPCIDRItem src (ipset_Contains (cidr_set B l))).
Proof.
  intros (x & Hx & (s & Hs & [= <-])%result_bind_Ok)%cause_Ok%result_bind_Ok. rewrite law_ipset in Hs.
  apply result_bind_Ok in Hs as (rr & Hrr & [= <-]). unfold cidr_set, cidr_ranges. rewrite Hx. cbn [mbind result_bind].
  by rewrite Hrr.
Qed.

Lemma headless_steps_sim nm v o :
  from_source o → (v =? RuleSetVersion1) = false →
  Forall2 step_sim (headless_steps B nm o) (headless_steps B nm (normalized B v false o)).
Proof.
  intros [Hd Hs Hi Ha] Hv. unfold headless_steps.
  cbn [normalized o_QueryType o_Network o_Domain o_DomainSuffix o_DomainMatcher o_DomainKeyword o_DomainRegex
    o_SourceIPCIDR o_SourceIPSet o_IPCIDR o_IPSet o_AdGuardDomain o_AdGuardDomainMatcher].
  rewrite Hd, Hs, Hi, Ha, Hv, !andb_false_r. cbn [listed_if nonempty length orb].
  repeat apply Forall2_app; try (apply Forall2_refl_steps);
    repeat (apply Forall2_cons_2 || apply Forall2_nil_2); try apply step_sim_refl.
  - destruct (nonempty (o_Domain o) || nonempty (o_DomainSuffix o)); [|apply step_sim_refl].
    apply step_sim_built. intros it Hit. unfold NewDomainItem in Hit. repeat case_bool_decide; try done;
      injection Hit as <-; cbn; by rewrite law_matcher_match.
  - destruct (nonempty (o_SourceIPCIDR o)); [|apply step_sim_refl].
    apply step_sim_built. intros it. apply cidr_item_erase.
  - destruct (nonempty (o_IPCIDR o)); [|apply step_sim_refl].
    apply step_sim_built. intros it. apply cidr_item_erase.
  - destruct (nonempty (o_AdGuardDomain o)); [|apply step_sim_refl].
    apply step_sim_add. unfold NewAdGuardDomainItem. by rewrite law_adguard_match.
Qed.

Lemma normalized_IsValid v o : from_source o → headless_IsValid (normalized B v false o) = headless_IsValid o.
Proof.
  intros [Hd Hs Hi Ha]. unfold headless_IsValid, is_set. rewrite Hd, Hs, Hi, Ha. unfold normalized. cbn.
  rewrite !andb_false_r. cbn.
  destruct (nonempty (o_Domain o)), (nonempty (o_DomainSuffix o)), (nonempty (o_SourceIPCIDR o)),
    (nonempty (o_IPCIDR o)), (nonempty (o_AdGuardDomain o)); cbn; rewrite ?orb_true_r, ?orb_false_r; done.
Qed.

Lemma normalized_rule_IsValid v h :
  from_source_rule h → HeadlessRule_IsValid (normalized_rule B v false h) = HeadlessRule_IsValid h.
Proof.
  induction h as [t o|t|mode rules invert IH] using Headless_deep_ind; intros Hs; cbn in *; [|done|].
  - by rewrite normalized_IsValid.
  - rewrite nonempty_map. destruct (negb (nonempty rules)); [done|].
    induction IH as [|h rules Hh _ IHr]; [done|]. cbn in *. inversion Hs as [|? ? Hs1 Hs2]; subst.
    rewrite Hh by exact Hs1. destruct (HeadlessRule_IsValid h) as [[]| |]; cbn; try done. by apply IHr.
Qed.

(** Rules built one by one, each like its source. *)
Lemma map_result_sim nm (key : nat → string) f rules i l :
  Forall (λ h, ∀ r, NewHeadlessRule B nm h = Ok r →
             ∃ r', NewHeadlessRule B nm (f h) = Ok r' ∧ erase_rule r' = erase_rule r) rules →
  map_result (λ i h, cause (key i) (NewHeadlessRule B nm h)) i rules = Ok l →
  ∃ l', map_result (λ i h, cause (key i) (NewHeadlessRule B nm h)) i (map f rules) = Ok l' ∧
        map erase_rule l' = map erase_rule l.
Proof.
  intros Hf. revert i l; induction Hf as [|h rules Hh _ IH]; intros i l; cbn; [intros [= <-]; by exists []|].
  intros (r & Hr%cause_Ok & (rs & Hrs & [= <-])%result_bind_Ok)%result_bind_Ok.
  destruct (Hh r Hr) as (r' & -> & He). destruct (IH _ _ Hrs) as (rs' & Hrs' & Hes).
  cbn [cause mbind result_bind]. rewrite Hrs'. exists (r' :: rs'). split; [done|]. cbn. congruence.
Qed.

(** The decoded rule builds whenever the source does, as the same rule. *)
Lemma normalized_build nm v h rule :
  (v =? RuleSetVersion1) = false → from_source_rule h → NewHeadlessRule B nm h = Ok rule →
  ∃ rule', NewHeadlessRule B nm (normalized_rule B v false h) = Ok rule' ∧ erase_rule rule' = erase_rule rule.
Proof.
  intros Hv. revert rule; induction h as [t o|t|mode rules invert IH] using Headless_deep_ind; intros rule Hs Hb; [|done|].
  - cbn [normalized_rule NewHeadlessRule from_source_rule] in *. rewrite normalized_IsValid by done.
    destruct (headless_IsValid o); cbn [negb] in *; [|done].
    apply result_bind_Ok in Hb as (r & Hr & [= <-]).
    destruct (run_steps_sim _ _ _ _ _ (headless_steps_sim nm v o Hs Hv) eq_refl Hr) as (r0 & Hr0 & He).
    exists (DefaultHeadlessRule r0). split; [|by cbn; rewrite He].
    unfold NewDefaultHeadlessRule. change (o_Invert (normalized B v false o)) with (o_Invert o).
    by rewrite Hr0.
  - cbn [normalized_rule]. rewrite NewHeadlessRule_logical_eq in *.
    change (HeadlessLogical mode (map (normalized_rule B v false) rules) invert)
      with (normalized_rule B v false (HeadlessLogical mode rules invert)).
    rewrite normalized_rule_IsValid by done.
    destruct (HeadlessRule_IsValid (HeadlessLogical mode rules invert)) as [[]| |]; try done. cbn [mbind result_bind negb] in *.
    destruct (read_mode mode) as [m| |]; [|done..]. cbn [mbind result_bind] in *.
    apply result_bind_Ok in Hb as (subs & Hsubs & [= <-]).
    edestruct (map_result_sim nm) as (subs' & Hs' & He); [|exact Hsubs|].
    { cbn in Hs. apply Forall_map in Hs. clear Hsubs. induction IH; constructor; inversion Hs; subst; eauto. }
    rewrite Hs'. eexists. split; [done|]. cbn. by rewrite He.
Qed.

(** The metadata of the decoded rules is that of the source. *)
Lemma normalized_Has cond v h :
  (∀ o, from_source o → cond (normalized B v false o) = cond o) → from_source_rule h →
  HasHeadlessRule cond (normalized_rule B v false h) = HasHeadlessRule cond h.
Proof.
  intros Hc. induction h as [t o|t|mode rules invert IH] using Headless_deep_ind; intros Hs; cbn in *; [|done|].
  - by rewrite Hc.
  - induction IH as [|h rules Hh _ IHr]; [done|]. cbn in *. inversion Hs; subst. f_equal; auto.
Qed.
Lemma normalized_without_ip v o :
  from_source o → isNonIPCIDRHeadlessRule (normalized B v false o) = isNonIPCIDRHeadlessRule o.
Proof.
  intros [Hd Hs Hi Ha]. unfold isNonIPCIDRHeadlessRule. rewrite <- (normalized_IsValid v (without_ip o)) by done.
  unfold without_ip, normalized, headless_IsValid, is_set. cbn. by rewrite !andb_false_r.
Qed.
Lemma normalized_metadata v rules :
  Forall from_source_rule rules →
  buildRuleSetMetadata (map (normalized_rule B v false) rules) = buildRuleSetMetadata rules.
Proof.
  intros Hs.
  assert (∀ cond, (∀ o, from_source o → cond (normalized B v false o) = cond o) →
            existsb (HasHeadlessRule cond) (map (normalized_rule B v false) rules) =
            existsb (HasHeadlessRule cond) rules) as Hex.
  { intros cond Hc. induction Hs as [|h rules Hh _ IH]; cbn; [done|]. by rewrite normalized_Has, IH. }
  unfold buildRuleSetMetadata. f_equal; apply Hex; try done.
  - intros o [_ _ Hi _]. unfold isIPCIDRHeadlessRule, is_set. cbn. rewrite Hi, !andb_false_r. cbn.
    by destruct (nonempty (o_IPCIDR o)).
  - intros o. apply normalized_without_ip.
Qed.

Lemma normalized_reload nm validate v rules s :
  (v =? RuleSetVersion1) = false → Forall from_source_rule rules →
  reloadRules B nm validate rules = Ok s →
  ∃ s', reloadRules B nm validate (map (normalized_rule B v false) rules) = Ok s' ∧ same_rules s s'.
Proof.
  intros Hv Hs (l & Hl & ([] & Hval & [= <-])%result_bind_Ok)%result_bind_Ok.
  unfold reloadRules. rewrite normalized_metadata by done.
  edestruct (map_result_sim nm) as (l' & -> & He); [|exact Hl|].
  { eapply Forall_impl; [exact Hs|]. intros h Hh r. by apply normalized_build. }
  cbn [mbind result_bind]. rewrite Hval. cbn. eexists. split; [done|]. by split.
Qed.
End build.

(** ** Versions *)

Section versions.
Context (B : BuildEnv) {SE : SrsEnv}.

(** The features a version must have for a rule, nested rules included. *)
Definition needs (v : Z) (rules : list HeadlessOptions) : Prop :=
  (existsb (HasHeadlessRule uses_package_name_regex) rules = true → RuleSetVersion5 ≤ v) ∧
  (existsb (HasHeadlessRule uses_interface_address) rules = true → RuleSetVersion4 ≤ v) ∧
  (existsb (HasHeadlessRule uses_network_type) rules = true → RuleSetVersion3 ≤ v).

Lemma seq_writes_mono ws ws' bs :
  Forall2 (λ w w', ∀ b, w = Ok b → w' = Ok b) ws ws' → seq_writes ws = Ok bs → seq_writes ws' = Ok bs.
Proof.
  intros Hf. revert bs; induction Hf as [|w w' ws ws' Hw _ IH]; intros bs; cbn; [done|].
  intros (b & Hb & (bs' & Hbs & [= <-])%result_bind_Ok)%result_bind_Ok.
  by rewrite (Hw _ Hb), (IH _ Hbs).
Qed.
Lemma seq_writes_in ws w bs : seq_writes ws = Ok bs → w ∈ ws → ∃ b, w = Ok b.
Proof.
  revert bs; induction ws as [|x ws IH]; intros bs; [by intros _ ?%elem_of_nil|]. cbn.
  intros (b & Hb & (bs' & Hbs & _)%result_bind_Ok)%result_bind_Ok [->|Hw]%elem_of_cons; eauto.
Qed.
Lemma when_since v v' n m b w bs :
  (b = true → n ≤ v') → when b (since v n m w) = Ok bs → when b (since v' n m w) = Ok bs.
Proof.
  intros Hn. destruct b; cbn; [|done]. intros Hw%since_Ok. unfold since.
  destruct (Z.ltb_spec v' n); [|done]. specialize (Hn eq_refl). lia.
Qed.

Lemma default_write_versions o v v' bs :
  RuleSetVersion2 ≤ v → RuleSetVersion2 ≤ v' → needs v' [HeadlessDefault true o] →
  writeDefaultRule B o v = Ok bs → writeDefaultRule B o v' = Ok bs.
Proof.
  intros Hv Hv' (Hp & Hi & Hn) (items & Hit & [= <-])%result_bind_Ok. unfold writeDefaultRule.
  cbn [existsb HasHeadlessRule andb] in *. rewrite orb_false_r in *.
  unfold uses_package_name_regex, uses_interface_address, uses_network_type in *.
  erewrite seq_writes_mono; [reflexivity| |exact Hit]. unfold rule_writes.
  replace (v =? RuleSetVersion1) with false by (unfold RuleSetVersion1, RuleSetVersion2 in *; lia).
  replace (v' =? RuleSetVersion1) with false by (unfold RuleSetVersion1, RuleSetVersion2 in *; lia).
  repeat (apply Forall2_cons_2 || apply Forall2_nil_2); try (by intros b);
    intros b; apply when_since; intros Hb; try done;
    first [apply Hp | apply Hi | apply Hn]; rewrite Hb, ?orb_true_r; done.
Qed.

Lemma needs_cons v h rules : needs v (h :: rules) ↔ needs v [h] ∧ needs v rules.
Proof.
  unfold needs. cbn [existsb]. rewrite !orb_false_r. split.
  - intros (H1 & H2 & H3). split; split_and!; intros Hx; (apply H1 || apply H2 || apply H3); rewrite Hx; done || apply orb_true_r.
  - intros [(H1 & H2 & H3) (H4 & H5 & H6)]. split_and!; intros []%orb_true_iff; auto.
Qed.
Lemma rule_write_versions h v v' bs :
  RuleSetVersion2 ≤ v → RuleSetVersion2 ≤ v' → needs v' [h] →
  writeRule B v h = Ok bs → writeRule B v' h = Ok bs.
Proof.
  intros Hv Hv'. revert bs; induction h as [t o|t|mode rules invert IH] using Headless_deep_ind; intros bs Hn Hw; [|done|].
  - destruct t; [|done]. cbn [writeRule] in *. exact (default_write_versions o v v' bs Hv Hv' Hn Hw).
  - cbn [writeRule] in *. apply result_bind_Ok in Hw as (m & Hm & (subs & Hsubs & [= <-])%result_bind_Ok).
    unfold writeLogicalRule. rewrite Hm. cbn [mbind result_bind].
    erewrite seq_writes_mono; [| |exact Hsubs]; [cbn; unfold len; by rewrite !length_map|].
    assert (needs v' rules) as Hr by (unfold needs in *; cbn in Hn; by rewrite !orb_false_r in Hn).
    clear Hsubs Hn Hm. induction IH as [|h rules Hh _ IHr]; cbn; [constructor|].
    apply needs_cons in Hr as [Hr1 Hr2]. constructor; [intros b; exact (Hh b Hr1)|exact (IHr Hr2)].
Qed.
Lemma rules_write_versions rules v v' bs :
  RuleSetVersion2 ≤ v → RuleSetVersion2 ≤ v' → needs v' rules →
  seq_writes (map (writeRule B v) rules) = Ok bs → seq_writes (map (writeRule B v') rules) = Ok bs.
Proof.
  intros Hv Hv' Hn. apply seq_writes_mono. induction rules as [|h rules IH]; cbn; [constructor|].
  apply needs_cons in Hn as [Hn1 Hn2]. constructor; [|exact (IH Hn2)]. intros b. exact (rule_write_versions h v v' b Hv Hv' Hn1).
Qed.

(** A rule that was written had its features. *)
Lemma default_write_needs o v bs : writeDefaultRule B o v = Ok bs → needs v [HeadlessDefault true o].
Proof.
  intros (items & Hi & _)%result_bind_Ok.
  assert (∀ b n m w, when b (since v n m w) ∈ rule_writes B o v → b = true → n ≤ v) as Hg.
  { intros b n m w Hin ->. destruct (seq_writes_in _ _ _ Hi Hin) as [x Hx]. cbn in Hx. unfold since in Hx.
    destruct (Z.ltb_spec v n); [done|lia]. }
  unfold needs. cbn [existsb HasHeadlessRule andb]. rewrite !orb_false_r.
  unfold uses_package_name_regex, uses_interface_address, uses_network_type.
  split_and!.
  - intros Hb. eapply Hg; [|exact Hb]. unfold rule_writes. do 15 right. left.
  - intros [Hb|Hb]%orb_true_iff; (eapply Hg; [|exact Hb]); unfold rule_writes; [do 19 right; left|do 20 right; left].
  - intros [[Hb|Hb]%orb_true_iff|Hb]%orb_true_iff; (eapply Hg; [|exact Hb]); unfold rule_writes; [do 16 right; left|do 17 right; left|do 18 right; left].
Qed.
Lemma rule_write_needs h v bs : writeRule B v h = Ok bs → needs v [h].
Proof.
  revert bs; induction h as [t o|t|mode rules invert IH] using Headless_deep_ind; intros bs Hw; [|done|].
  - destruct t; [|done]. exact (default_write_needs o v bs Hw).
  - cbn [writeRule] in Hw. apply result_bind_Ok in Hw as (m & _ & (subs & Hsubs & _)%result_bind_Ok).
    assert (needs v rules) as Hr.
    { clear m invert mode. revert subs Hsubs; induction IH as [|h rules Hh _ IHr]; cbn; intros subs.
      - by intros _.
      - intros (b & Hb & (bs' & Hbs & _)%result_bind_Ok)%result_bind_Ok. apply needs_cons.
        split; [exact (Hh b Hb)|exact (IHr bs' Hbs)]. }
    unfold needs in *. cbn [existsb HasHeadlessRule]. by rewrite !orb_false_r.
Qed.
Lemma rules_write_needs rules v bs : seq_writes (map (writeRule B v) rules) = Ok bs → needs v rules.
Proof.
  revert bs; induction rules as [|h rules IH]; intros bs; cbn; [done|].
  intros (b & Hb & (bs' & Hbs & _)%result_bind_Ok)%result_bind_Ok. apply needs_cons.
  split; [exact (rule_write_needs h v b Hb)|exact (IH bs' Hbs)].
Qed.

(** The version [downgradeRuleSetVersion] picks for rules the given version can hold. *)
Lemma downgrade_spec rules v :
  RuleSetVersion2 ≤ v ≤ RuleSetVersion5 → needs v rules →
  let v' := downgradeRuleSetVersion v rules in
  RuleSetVersion2 ≤ v' ≤ v ∧ needs v' rules ∧ ∀ w, RuleSetVersion2 ≤ w → needs w rules → v' ≤ w.
Proof.
  unfold needs, downgradeRuleSetVersion, RuleSetVersion2, RuleSetVersion3, RuleSetVersion4, RuleSetVersion5.
  intros Hv Hn. assert (v = 2 ∨ v = 3 ∨ v = 4 ∨ v = 5) as Hc by lia.
  destruct (existsb (HasHeadlessRule uses_package_name_regex) rules),
    (existsb (HasHeadlessRule uses_interface_address) rules), (existsb (HasHeadlessRule uses_network_type) rules);
    destruct Hc as [->|[->|[->| ->]]]; cbn; destruct Hn as (H1 & H2 & H3);
    repeat match goal with H : true = true → _ |- _ => specialize (H eq_refl) end; try lia;
    split_and!; try (intros; lia); intros w Hw (K1 & K2 & K3);
    repeat match goal with H : true = true → _ |- _ => specialize (H eq_refl) end; lia.
Qed.
End versions.

(** ** Claims *)

(** [downgradeRuleSetVersion] is safe and minimal: for rules that can be
    written in the version of their source, the file in the chosen version has
    the same bytes after its version, and no smaller version from 2 on can hold
    the rules. *)
Theorem compile_version_minimal (B : BuildEnv) (SE : SrsEnv) rules v file :
  RuleSetVersion2 ≤ v ≤ RuleSetVersion5 → Write B rules v = Ok file →
  let v' := downgradeRuleSetVersion v rules in
  Write B rules v' = Ok (MagicBytes ++ v' :: drop 4 file) ∧ RuleSetVersion2 ≤ v' ≤ v ∧
  ∀ w, RuleSetVersion2 ≤ w → is_ok (Write B rules w) = true → v' ≤ w.
Proof.
  intros Hv (body & Hb & [= <-])%result_bind_Ok v'.
  destruct (downgrade_spec rules v Hv (rules_write_needs B rules v body Hb)) as (Hr & Hn & Hmin).
  fold v' in Hr, Hn, Hmin. split_and!; [|apply Hr..|].
  - unfold Write. rewrite (rules_write_versions B rules v v' body ltac:(lia) ltac:(lia) Hn Hb). cbn [mbind result_bind].
    unfold u8. rewrite Z.mod_small by (unfold RuleSetVersion2, RuleSetVersion5 in *; lia). done.
  - intros w Hw Hok. apply (Hmin w Hw). unfold Write in Hok.
    destruct (seq_writes (map (writeRule B w) rules)) as [bs| |] eqn:Hs; [|done..].
    exact (rules_write_needs B rules w bs Hs).
Qed.

Definition old_rules : list HeadlessOptions := [HeadlessDefault true (with_port [443] no_options)].
Lemma compile_version_minimal_witness :
  downgradeRuleSetVersion 5 old_rules = 2 ∧
  @Write srs0 srs_build old_rules 2 = Ok [0x53; 0x52; 0x53; 2; 1; 0; 9; 1; 1; 187; 255; 0].
Proof.
  split; [by vm_compute|].
  apply (compile_version_minimal srs_build srs0 old_rules 5 [0x53; 0x52; 0x53; 5; 1; 0; 9; 1; 1; 187; 255; 0]);
    [by vm_compute|by vm_compute].
Defined.

(** (C11) A compiled rule-set is its source.  Take a source of version 2 or
    later, as the JSON decoder leaves it (lengths and numbers in the ranges of
    their Go types, no prepared matchers), whose logical rules nest at most 100
    deep (deeper ones load from the source but not from the compiled file:
    deep_rules_unreadable), with the library's domain matchers and IP sets
    keeping their contract.  When it loads, and [compileRuleSet] writes a file
    for it, that file loads too, with the same metadata, and in every rule that
    refers to it, next to whatever other rule-sets, it gives the same answer and
    leaves the same match state, for every request. *)
Theorem compiled_matches_source `{UnicodeTables} (B : BuildEnv) (SE : SrsEnv) (Hlaws : SrsLaws B SE)
    (E : RuleEnv) source file nm validate s :
  RuleSetVersion2 ≤ Version source ≤ RuleSetVersion5 → go_len (Rules source) →
  Forall (encodable_rule B) (Rules source) → Forall from_source_rule (Rules source) →
  Forall (λ h, Z.of_nat (rule_depth h) ≤ maxLogicalRuleDepth) (Rules source) →
  reloadFile B nm validate "source" (Ok source) (Err EOF) = Ok s →
  compileRuleSet B source = Ok file →
  ∃ s', reloadFile B nm validate "binary" (Err EOF) (Ok file) = Ok s' ∧ rs_metadata s' = rs_metadata s ∧
    ∀ tags pre post src acc outer m,
      matchWithOuterGroups E (rule_Match E) (MkRuleSetItem tags (pre ++ s' :: post) src acc) outer m =
      matchWithOuterGroups E (rule_Match E) (MkRuleSetItem tags (pre ++ s :: post) src acc) outer m.
Proof.
  intros Hv Hl He Hf Hd Hs Hc. unfold compileRuleSet in Hc.
  set (v' := downgradeRuleSetVersion (Version source) (Rules source)) in Hc.
  assert (RuleSetVersion2 ≤ v' ≤ RuleSetVersion5) as Hv'.
  { unfold v', downgradeRuleSetVersion, RuleSetVersion2, RuleSetVersion3, RuleSetVersion4, RuleSetVersion5 in *.
    repeat case_match; lia. }
  unfold reloadFile in *. cbn [mbind result_bind bool_decide decide orb] in *.
  change (bool_decide ("source"%string = "source"%string)) with true in Hs. cbn [orb mbind result_bind] in Hs.
  apply result_bind_Ok in Hs as (rules & Hu & Hr). unfold Upgrade in Hu.
  destruct (_ && _) in Hu; [|done]. injection Hu as <-.
  destruct (normalized_reload B nm validate v' (Rules source) s) as (s' & Hs' & Hsame); [|done|done|].
  { unfold RuleSetVersion1, RuleSetVersion2 in *. lia. }
  exists s'. split; [|split; [by destruct Hsame|]].
  - change (bool_decide ("binary"%string = "source"%string) || bool_decide ("binary"%string = ""%string)) with false.
    change (bool_decide ("binary"%string = "binary"%string)) with true. cbn [mbind result_bind].
    assert (Read B file false = Ok (MkRuleSetCompat v' (map (normalized_rule B v' false) (Rules source)))) as ->.
    { apply reads_back; try done. unfold RuleSetVersion1, RuleSetVersion2, RuleSetVersionCurrent in *. lia. }
    cbn [mbind result_bind]. unfold Upgrade. cbn [Version Rules].
    replace ((RuleSetVersion1 <=? v') && (v' <=? RuleSetVersion5)) with true; [exact Hs'|].
    symmetry. apply andb_true_iff. unfold RuleSetVersion1, RuleSetVersion2 in *. lia.
  - intros tags pre post src acc outer m. symmetry. unfold matchWithOuterGroups. cbn [setList].
    etransitivity; [by apply (same_set_loop E _ _ _ pre s s' post)|reflexivity].
Qed.

Definition sample_source : PlainRuleSetCompat := MkRuleSetCompat 5 sample_rules.
Definition compiled_file : list Z := match @compileRuleSet srs0 srs_build sample_source with Ok f => f | _ => [] end.
Definition source_set : RuleSet Rule :=
  match @reloadFile srs0 srs_build true (λ _, Ok tt) "source" (Ok sample_source) (Err EOF) with
  | Ok s => s | _ => MkRuleSet [] metadata0 end.

Lemma compiled_matches_source_witness :
  nth_error compiled_file 3 = Some 4 ∧
  ∃ s', @reloadFile srs0 srs_build true (λ _, Ok tt) "binary" (Err EOF) (Ok compiled_file) = Ok s' ∧
    rs_metadata s' = rs_metadata source_set.
Proof.
  split; [by vm_compute|].
  destruct (compiled_matches_source srs_build srs0 srs0_laws env0 sample_source compiled_file true (λ _, Ok tt) source_set)
    as (s' & Hs & Hm & _); [by vm_compute|by vm_compute| | |by vm_compute; repeat constructor|reflexivity|reflexivity|eauto].
  - constructor; [|constructor]. split; [by vm_compute|].
    constructor; [apply sample_encodable|]. constructor; [apply port_encodable|constructor].
  - constructor; [|constructor]. repeat constructor.
Defined.

(** Finding: the writer has no limit on nesting.  A rule nested 101 deep loads
    from its source and is compiled, and the file cannot be read. *)
Fixpoint nested (n : nat) : HeadlessOptions :=
  match n with
  | O => HeadlessDefault true (with_port [443] no_options)
  | S n => HeadlessLogical "and" [nested n] false
  end.
Theorem deep_rules_unreadable :
  is_ok (@reloadFile srs0 srs_build true (λ _, Ok tt) "source" (Ok (MkRuleSetCompat 2 [nested 101])) (Err EOF)) = true ∧
  ∃ file, @compileRuleSet srs0 srs_build (MkRuleSetCompat 2 [nested 101]) = Ok file ∧
    is_ok (@reloadFile srs0 srs_build true (λ _, Ok tt) "binary" (Err EOF) (Ok file)) = false.
Proof.
  split; [by vm_compute|].
  exists (match @compileRuleSet srs0 srs_build (MkRuleSetCompat 2 [nested 101]) with Ok f => f | _ => [] end).
  split; vm_compute; reflexivity.
Qed.
