(* ===== verification/DnsActions.v ===== *)
(** * DNS messages, query options and the actions of DNS rules

    [adapter/dns.go], the DNS half of [route/rule/rule_action.go] and the
    option handling of [dns/router.go].  A message is what the router looks at
    and makes: its header, question and records with their names; the rules see
    its codes and record data ([Msg] of [RuleContext]). *)

From S2P Require Import Prelude GoStrings NetAddr RuleContext RuleItems RuleMatch RuleSpec.

Local Open Scope Z_scope.

(** ** Messages *)

Record Question := MkQuestion { q_Name : string; q_Qtype : Z; q_Qclass : Z }.
Record Resource := MkResource { rr_Name : string; rr_Ttl : Z; rr_Data : RR }.
Record Message := MkMessage {
  msg_Id : Z;
  msg_Response : bool;
  msg_Authoritative : bool;
  msg_RecursionDesired : bool;
  msg_RecursionAvailable : bool;
  msg_Rcode : Z;
  msg_Question : list Question;
  msg_Answer : list Resource;
  msg_Ns : list Resource;
  msg_Extra : list Resource;
}.
Definition RcodeFormatError : Z := 1.
Definition RcodeRefused : Z := 5.
Definition TypeA : Z := 1.
Definition TypeAAAA : Z := 28.
Definition TypeSVCB : Z := 64.
Definition TypeHTTPS : Z := 65.

(** What the rules see of a response. *)
Definition seen (m : Message) : Msg :=
  MkMsg (msg_Rcode m) (rr_Data <$> msg_Answer m) (rr_Data <$> msg_Ns m) (rr_Data <$> msg_Extra m).

(** ** Transports and query options *)

Record Transport := MkTransport { tr_Tag : string; tr_Type : string }.
#[export] Instance Transport_eq_dec : EqDecision Transport.
Proof. solve_decision. Defined.
Definition is_fakeip (t : Transport) : bool := bool_decide (tr_Type t = "fakeip"%string).
(** The transport manager, as the router uses it. *)
Record TransportManager := MkTransports { tm_Transport : string → option Transport; tm_Default : Transport }.

Definition DomainStrategyAsIS : Z := 0.
Definition DomainStrategyPreferIPv4 : Z := 1.
Definition DomainStrategyPreferIPv6 : Z := 2.
Definition DomainStrategyIPv4Only : Z := 3.
Definition DomainStrategyIPv6Only : Z := 4.

Record DNSQueryOptions := MkQueryOptions {
  qo_Transport : option Transport;
  qo_Strategy : Z;
  qo_LookupStrategy : Z;
  qo_DisableCache : bool;
  qo_DisableOptimisticCache : bool;
  qo_RewriteTTL : option Z;
  qo_Timeout : Z;
  qo_ClientSubnet : Prefix;
  qo_RemoveClientSubnet : bool;
}.
Definition no_query_options : DNSQueryOptions :=
  MkQueryOptions None DomainStrategyAsIS DomainStrategyAsIS false false None 0 PrefixZero false.

(** ** Actions *)

Record RuleActionDNSRouteOptions := MkRouteOptions {
  ro_Strategy : Z;
  ro_Timeout : Z;
  ro_DisableCache : bool;
  ro_DisableOptimisticCache : bool;
  ro_RewriteTTL : option Z;
  ro_ClientSubnet : Prefix;
  ro_RemoveClientSubnet : bool;
}.
Inductive RejectMethod := RejectDefault | RejectDrop | RejectReply | RejectOther (method : string).
Inductive DNSAction :=
  | ActionDNSRoute (server : string) (speculative : bool) (o : RuleActionDNSRouteOptions)
  | ActionDNSRouteOptions (o : RuleActionDNSRouteOptions)
  | ActionEvaluate (server tag : string) (speculative : bool) (o : RuleActionDNSRouteOptions)
  | ActionRespond
  | ActionReject (method : RejectMethod) (noDrop : bool)
  | ActionPredefined (rcode : Z) (answer ns extra : list Resource).

(** [strings.HasPrefix] and [strings.HasSuffix]. *)
Definition HasPrefix (s p : string) : bool := String.prefix p s.
Definition HasSuffix (s p : string) : bool := String.prefix (String.rev p) (String.rev s).
Definition tail (s : string) : string := match s with ""%string => ""%string | String _ s => s end.

Definition rewriteRecords (records : list Resource) (question : Question) : list Resource :=
  (λ it, if HasPrefix (rr_Name it) "*" && HasSuffix (q_Name question) (tail (rr_Name it))
         then MkResource (q_Name question) (rr_Ttl it) (rr_Data it) else it) <$> records.
(** [RuleActionPredefined.Response]; a request without a question panics. *)
Definition predefined_Response (rcode : Z) (answer ns extra : list Resource) (request : Message) : result Message :=
  match msg_Question request with
  | [] => Panic "index out of range"
  | q :: _ =>
      Ok (MkMessage (msg_Id request) true true true true rcode (msg_Question request)
            (rewriteRecords answer q) (rewriteRecords ns q) (rewriteRecords extra q))
  end.
Definition dnsRefusedResponse (message : Message) : result Message :=
  match msg_Question message with
  | [] => Panic "index out of range"
  | q :: _ => Ok (MkMessage (msg_Id message) true false false false RcodeRefused [q] [] [] [])
  end.

(** ** Rejecting: [RuleActionReject.Error] *)

Definition ErrReset : error := ENew "connection reset".
Definition ErrDrop : error := ENew "packet dropped".
(** [RejectedError{cause}]. *)
Definition RejectedError (cause : error) : error := EWrap "rejected" cause.
Definition second : Z := 1000000000.
(** The counter of the action is the times of its recent rejections; the third
    argument is [time.Now]. *)
Definition reject_Error (method : RejectMethod) (noDrop : bool) (timeNow : Z) (dropCounter : list Z) :
    result (option error * list Z) :=
  match method with
  | RejectDrop => Ok (Some (RejectedError ErrDrop), dropCounter)
  | RejectReply => Ok (None, dropCounter)
  | RejectOther m => Panic ("unknown reject method: " +:+ m)
  | RejectDefault =>
      if noDrop then Ok (Some (RejectedError ErrReset), dropCounter)
      else
        let dropCounter := filter (λ t, timeNow - t ≤ 30 * second) dropCounter ++ [timeNow] in
        Ok (Some (RejectedError (if bool_decide (50 < length dropCounter)%nat then ErrDrop else ErrReset)), dropCounter)
  end.

(** ** Options of a query *)

(** The assignments the two routers share. *)
Definition apply_route_options (withStrategy withOptimistic : bool) (o : RuleActionDNSRouteOptions)
    (q : DNSQueryOptions) : DNSQueryOptions :=
  let subnet := prefix_IsValid (ro_ClientSubnet o) in
  let remove := ro_RemoveClientSubnet o in
  MkQueryOptions (qo_Transport q)
    (if withStrategy && negb (bool_decide (ro_Strategy o = DomainStrategyAsIS)) then ro_Strategy o else qo_Strategy q)
    (qo_LookupStrategy q)
    (ro_DisableCache o || qo_DisableCache q)
    (withOptimistic && ro_DisableOptimisticCache o || qo_DisableOptimisticCache q)
    (match ro_RewriteTTL o with Some _ => ro_RewriteTTL o | None => qo_RewriteTTL q end)
    (if bool_decide (0 < ro_Timeout o) then ro_Timeout o else qo_Timeout q)
    (if remove then PrefixZero else if subnet then ro_ClientSubnet o else qo_ClientSubnet q)
    (if remove then true else if subnet then false else qo_RemoveClientSubnet q).
Definition applyDNSRouteOptions (q : DNSQueryOptions) (o : RuleActionDNSRouteOptions) : DNSQueryOptions :=
  apply_route_options false true o q.
Definition set_disable_cache (q : DNSQueryOptions) : DNSQueryOptions :=
  MkQueryOptions (qo_Transport q) (qo_Strategy q) (qo_LookupStrategy q) true (qo_DisableOptimisticCache q)
    (qo_RewriteTTL q) (qo_Timeout q) (qo_ClientSubnet q) (qo_RemoveClientSubnet q).
Definition set_strategy (s : Z) (q : DNSQueryOptions) : DNSQueryOptions :=
  MkQueryOptions (qo_Transport q) s (qo_LookupStrategy q) (qo_DisableCache q) (qo_DisableOptimisticCache q)
    (qo_RewriteTTL q) (qo_Timeout q) (qo_ClientSubnet q) (qo_RemoveClientSubnet q).
Definition finalizeExchangeOptions (defaultDomainStrategy : Z) (q : DNSQueryOptions) : DNSQueryOptions :=
  if bool_decide (qo_Strategy q = DomainStrategyAsIS) then set_strategy defaultDomainStrategy q else q.

(** [resolveDNSRoute]. *)
Inductive dnsRouteStatus := RouteMissing | RouteSkipped | RouteResolved (t : Transport) (q : DNSQueryOptions).
Definition resolveDNSRoute (tm : TransportManager) (server : string) (o : RuleActionDNSRouteOptions)
    (allowFakeIP : bool) (q : DNSQueryOptions) : dnsRouteStatus :=
  match tm_Transport tm server with
  | None => RouteMissing
  | Some transport =>
      if is_fakeip transport && negb allowFakeIP then RouteSkipped
      else
        let q := applyDNSRouteOptions q o in
        RouteResolved transport (if is_fakeip transport then set_disable_cache q else q)
  end.

(** ** DNS rules *)

(** A rule with its action; [nil] is the action of a rule without one. *)
Record DNSRule := MkDNSRule { dr_rule : Rule; dr_action : option DNSAction; dr_race : bool }.

(** [common.Uniq]: the elements, each once. *)
Class UniqOrder := {
  Uniq : list string → list string;
  Uniq_elem l x : x ∈ Uniq l ↔ x ∈ l;
}.

Section bindings.
Context `{UniqOrder}.

Definition MatchResponseTag (rule : Rule) : string :=
  match rule with DefaultDNSRule _ _ tag => tag | _ => "" end.
Fixpoint MatchResponseTags (rule : Rule) : list string :=
  match rule with
  | DefaultDNSRule _ _ tag => if bool_decide (tag = ""%string) then [] else [tag]
  | LogicalRule l => Uniq (concat (map MatchResponseTags (l_rules l)))
  | DefaultHeadlessRule _ | DefaultRule _ => []                (* not DNS rules *)
  end.
Fixpoint MatchResponseAnonymous (rule : Rule) : bool :=
  match rule with
  | DefaultDNSRule _ matchResponse tag => matchResponse && bool_decide (tag = ""%string)
  | LogicalRule l => existsb MatchResponseAnonymous (l_rules l)
  | DefaultHeadlessRule _ | DefaultRule _ => false
  end.
Definition hasBindings (rule : Rule) : bool := nonempty (MatchResponseTags rule) || MatchResponseAnonymous rule.
End bindings.

(** [x] is kept from its first place on. *)
Fixpoint uniq_go (old : list string) (l : list string) : list string :=
  match l with
  | [] => []
  | x :: l => if bool_decide (x ∈ old) then uniq_go old l else x :: uniq_go (x :: old) l
  end.
Lemma uniq_go_elem old l x : x ∈ uniq_go old l ↔ x ∈ l ∧ (x ∉ old).
Proof.
  revert old; induction l as [|y l IH]; intros old; cbn.
  - split; [by intros ?%elem_of_nil|by intros [?%elem_of_nil _]].
  - case_bool_decide as Hy; rewrite ?elem_of_cons, IH, ?elem_of_cons; destruct (decide (x = y)); naive_solver.
Qed.
#[export] Program Instance uniq_first : UniqOrder | 100 := {| Uniq l := uniq_go [] l |}.
Next Obligation. intros l x. rewrite uniq_go_elem, elem_of_nil. naive_solver. Qed.
