(* ===== verification/DnsWalk.v ===== *)
(** * Evaluating DNS rules: [walkDNSRules] and its futures, in [dns/router.go]

    Outside the legacy mode the DNS router walks the rules once.  [evaluate]
    sends a query and goes on; a rule that matches on its response waits for
    it; a [race] rule is armed and commits when its responses are in; [respond]
    and the final actions end the walk.

    Time is explicit.  A future is done at a moment of the clock; between two
    looks at the futures the clock may move ([pass]), and it moves while the
    walker waits for the wake-up channel.  [net] answers the exchanges, in the
    order they are sent, each after a delay of its own.  So every interleaving of
    the walker with the exchanges is a choice of [pass] and of the delays. *)

From S2P Require Import Prelude GoStrings NetAddr RuleContext RuleItems RuleMatch RuleSpec DnsActions.

Local Open Scope nat_scope.

(** ** State *)

Record Future := MkFuture {
  f_tag : string;
  f_terminal : bool;
  f_transport : Transport;
  f_done : nat;
  f_result : result Message;
  f_settled : bool;
  f_canceled : bool;
  f_noticed : bool;
}.
Record dnsArmedRule := MkArmed {
  ar_rule : DNSRule;
  ar_futures : list nat;
  ar_anonymous : option nat;
  ar_bindsAnonymous : bool;
  ar_options : DNSQueryOptions;
}.
(** Futures are known by their place in [ws_futures].  The wake-up channel
    holds one token: it is full when a future is done whose completion no
    receive has taken yet, [f_noticed] being the ones taken. *)
Record dnsRuleWalkState := MkWalk {
  ws_ruleIndex : nat;
  ws_options : DNSQueryOptions;
  ws_anonymous : option nat;
  ws_namedFutures : gmap string nat;
  ws_namedResponses : gmap string Message;
  ws_namedTransports : gmap string Transport;
  ws_futures : list Future;
  ws_armed : list dnsArmedRule;
  ws_terminal : option (nat * nat);
  ws_metadata : InboundContext;
  ws_clock : nat;
  ws_looks : nat;
}.

Record exchangeWithRulesResult := MkExchangeResult {
  er_response : option Message;
  er_transport : option Transport;
  er_reject : option (RejectMethod * bool);
  er_err : option error;
}.
(** What a query ends with: a result, or the panic of a message without a
    question. *)
Definition exchange_result := result exchangeWithRulesResult.
Definition answer_from (response : option Message) (transport : option Transport) : exchange_result :=
  Ok (MkExchangeResult response transport None None).
Definition failed (transport : option Transport) (e : error) : exchange_result :=
  Ok (MkExchangeResult None transport None (Some e)).
Record dnsPendingExchange := MkPending {
  pe_transport : Transport;
  pe_options : DNSQueryOptions;
  pe_future : option nat;
}.
Inductive dnsWalkSuspension :=
  | SuspendAwait (future : nat)
  | SuspendDrain
  | SuspendPending (p : dnsPendingExchange).

Definition dnsRespondMissingResponseMessage : string :=
  "respond action requires an evaluated response from a preceding evaluate action".
Definition respond_missing : exchange_result := failed None (ENew dnsRespondMissingResponseMessage).
Definition ctx_err : error := EStd "context done".

(** Field updates. *)
Definition upd_index (i : nat) (s : dnsRuleWalkState) : dnsRuleWalkState :=
  MkWalk i (ws_options s) (ws_anonymous s) (ws_namedFutures s) (ws_namedResponses s) (ws_namedTransports s)
    (ws_futures s) (ws_armed s) (ws_terminal s) (ws_metadata s) (ws_clock s) (ws_looks s).
Definition upd_options (o : DNSQueryOptions) (s : dnsRuleWalkState) : dnsRuleWalkState :=
  MkWalk (ws_ruleIndex s) o (ws_anonymous s) (ws_namedFutures s) (ws_namedResponses s) (ws_namedTransports s)
    (ws_futures s) (ws_armed s) (ws_terminal s) (ws_metadata s) (ws_clock s) (ws_looks s).
Definition upd_anonymous (a : option nat) (s : dnsRuleWalkState) : dnsRuleWalkState :=
  MkWalk (ws_ruleIndex s) (ws_options s) a (ws_namedFutures s) (ws_namedResponses s) (ws_namedTransports s)
    (ws_futures s) (ws_armed s) (ws_terminal s) (ws_metadata s) (ws_clock s) (ws_looks s).
Definition upd_named (n : gmap string nat) (s : dnsRuleWalkState) : dnsRuleWalkState :=
  MkWalk (ws_ruleIndex s) (ws_options s) (ws_anonymous s) n (ws_namedResponses s) (ws_namedTransports s)
    (ws_futures s) (ws_armed s) (ws_terminal s) (ws_metadata s) (ws_clock s) (ws_looks s).
Definition upd_responses (r : gmap string Message) (t : gmap string Transport) (s : dnsRuleWalkState) : dnsRuleWalkState :=
  MkWalk (ws_ruleIndex s) (ws_options s) (ws_anonymous s) (ws_namedFutures s) r t
    (ws_futures s) (ws_armed s) (ws_terminal s) (ws_metadata s) (ws_clock s) (ws_looks s).
Definition upd_futures (l : list Future) (s : dnsRuleWalkState) : dnsRuleWalkState :=
  MkWalk (ws_ruleIndex s) (ws_options s) (ws_anonymous s) (ws_namedFutures s) (ws_namedResponses s)
    (ws_namedTransports s) l (ws_armed s) (ws_terminal s) (ws_metadata s) (ws_clock s) (ws_looks s).
Definition upd_armed (l : list dnsArmedRule) (s : dnsRuleWalkState) : dnsRuleWalkState :=
  MkWalk (ws_ruleIndex s) (ws_options s) (ws_anonymous s) (ws_namedFutures s) (ws_namedResponses s)
    (ws_namedTransports s) (ws_futures s) l (ws_terminal s) (ws_metadata s) (ws_clock s) (ws_looks s).
Definition upd_terminal (t : option (nat * nat)) (s : dnsRuleWalkState) : dnsRuleWalkState :=
  MkWalk (ws_ruleIndex s) (ws_options s) (ws_anonymous s) (ws_namedFutures s) (ws_namedResponses s)
    (ws_namedTransports s) (ws_futures s) (ws_armed s) t (ws_metadata s) (ws_clock s) (ws_looks s).
Definition upd_metadata (m : InboundContext) (s : dnsRuleWalkState) : dnsRuleWalkState :=
  MkWalk (ws_ruleIndex s) (ws_options s) (ws_anonymous s) (ws_namedFutures s) (ws_namedResponses s)
    (ws_namedTransports s) (ws_futures s) (ws_armed s) (ws_terminal s) m (ws_clock s) (ws_looks s).
Definition upd_time (clock looks : nat) (s : dnsRuleWalkState) : dnsRuleWalkState :=
  MkWalk (ws_ruleIndex s) (ws_options s) (ws_anonymous s) (ws_namedFutures s) (ws_namedResponses s)
    (ws_namedTransports s) (ws_futures s) (ws_armed s) (ws_terminal s) (ws_metadata s) clock looks.

(** The request with the responses a rule may match on. *)
Definition with_responses (response : option Message) (named : gmap string Message) (q : Request) : Request :=
  MkRequest (md_Inbound q) (md_IPVersion q) (md_Network q) (md_Source q) (md_Destination q) (md_User q)
    (md_Outbound q) (md_Protocol q) (md_Domain q) (md_Client q) (md_DestinationAddresses q)
    (seen <$> response) (seen <$> named) false (md_ProcessInfo q)
    (md_SourceMACAddress q) (md_SourceHostname q) (md_QueryType q) (md_QueryClientSubnet q)
    (md_QueryDNSSEC q) (md_PreMatch q).

(** What the router and the network are while one query is answered. *)
Record WalkEnv := MkWalkEnv {
  we_rule : RuleEnv;
  we_transports : TransportManager;
  we_strategy : Z;
  we_message : Message;
  we_allowFakeIP : bool;
  we_net : nat → Transport → DNSQueryOptions → result Message * nat;
  we_pass : nat → nat;
  we_canceled : nat → bool;
}.

Section walk.
Context `{UnicodeTables, UniqOrder} (W : WalkEnv).
Local Abbreviation S' := dnsRuleWalkState.

(** ** Looking at futures *)

(** [future.resolved()]. *)
Definition resolved (i : nat) (s : S') : bool * S' :=
  let clock := ws_clock s + we_pass W (ws_looks s) in
  let s := upd_time clock (S (ws_looks s)) s in
  (match ws_futures s !! i with Some f => bool_decide (f_done f ≤ clock) | None => false end, s).
Definition result_of (i : nat) (s : S') : option Message :=
  match ws_futures s !! i with Some f => match f_result f with Ok m => Some m | _ => None end | None => None end.
(** [future.view()]. *)
Definition future_view (i : nat) (s : S') : option Message * S' :=
  let '(b, s) := resolved i s in (if b then result_of i s else None, s).
Definition anonymousResponse (s : S') : option Message * S' :=
  match ws_anonymous s with None => (None, s) | Some i => future_view i s end.
Definition transport_of (i : nat) (s : S') : option Transport := f_transport <$> ws_futures s !! i.

(** [launchDNSEvaluate]. *)
Definition launchDNSEvaluate (tag : string) (transport : Transport) (options : DNSQueryOptions) (terminal : bool)
    (s : S') : nat * S' :=
  let id := length (ws_futures s) in
  let '(r, delay) := we_net W id transport (finalizeExchangeOptions (we_strategy W) options) in
  (id, upd_futures (ws_futures s ++ [MkFuture tag terminal transport (ws_clock s + delay) r false false false]) s).

(** [settleDNSFutures]: the responses of the futures that came in. *)
Definition set_settled (f : Future) : Future :=
  MkFuture (f_tag f) (f_terminal f) (f_transport f) (f_done f) (f_result f) true (f_canceled f) (f_noticed f).
Definition settle_one (i : nat) (s : S') : S' :=
  match ws_futures s !! i with
  | None => s
  | Some f =>
      if f_settled f then s
      else
        let '(b, s) := resolved i s in
        if negb b then s
        else
          let s := upd_futures (<[i := set_settled f]> (ws_futures s)) s in
          if bool_decide (f_tag f = ""%string) then s
          else
            let '(v, s) := future_view i s in
            upd_responses (partial_alter (λ _, v) (f_tag f) (ws_namedResponses s))
              (<[f_tag f := f_transport f]> (ws_namedTransports s)) s
  end.
Definition settleDNSFutures (s : S') : S' :=
  foldl (λ s i, settle_one i s) s (seq 0 (length (ws_futures s))).

(** [metadata.ResetRuleCache()], the responses, and [rule.Match(metadata)]. *)
Definition match_with (rule : DNSRule) (response : option Message) (s : S') : bool * S' :=
  let m := ResetRuleCache (ws_metadata s) in
  let m := MkContext (with_responses response (ws_namedResponses s) (request m)) (cache m) in
  let '(b, m) := rule_Match (we_rule W) (dr_rule rule) m in
  (b, upd_metadata m s).

(** The first of these futures that is not in. *)
Fixpoint first_unresolved (l : list nat) (s : S') : option nat * S' :=
  match l with
  | [] => (None, s)
  | i :: l => let '(b, s) := resolved i s in if b then first_unresolved l s else (Some i, s)
  end.
Fixpoint all_unresolved (l : list nat) (s : S') : list nat * S' :=
  match l with
  | [] => ([], s)
  | i :: l => let '(b, s) := resolved i s in
              let '(rest, s) := all_unresolved l s in (if b then rest else i :: rest, s)
  end.
Definition bound_futures (rule : DNSRule) (s : S') : list nat :=
  omap (λ tag, ws_namedFutures s !! tag) (MatchResponseTags (dr_rule rule)) ++
  (if MatchResponseAnonymous (dr_rule rule) then option_list (ws_anonymous s) else []).

(** ** Armed rules *)

(** What an action of a matched armed rule does: end, or let the sweep go on. *)
Inductive commit := CommitResult (r : exchange_result) | CommitPending (p : dnsPendingExchange).
Definition reject_result (method : RejectMethod) (noDrop : bool) : option exchange_result :=
  match method with
  | RejectDefault =>
      Some (m ← dnsRefusedResponse (we_message W);
            Ok (MkExchangeResult (Some m) None (Some (method, noDrop)) None))
  | RejectDrop => Some (Ok (MkExchangeResult None None (Some (method, noDrop)) (Some ErrDrop)))
  | _ => None
  end.
Definition predefined_result (rcode : Z) (answer ns extra : list Resource) : exchange_result :=
  m ← predefined_Response rcode answer ns extra (we_message W); answer_from (Some m) None.

Definition armed_respond (a : dnsArmedRule) (s : S') : exchange_result * S' :=
  let tag := MatchResponseTag (dr_rule (ar_rule a)) in
  let '(response, transport, s) :=
    if negb (bool_decide (tag = ""%string)) then (ws_namedResponses s !! tag, ws_namedTransports s !! tag, s)
    else match ar_anonymous a with
         | Some i => let '(v, s) := future_view i s in (v, transport_of i s, s)
         | None => match ws_anonymous s with
                   | Some i => let '(v, s) := anonymousResponse s in (v, transport_of i s, s)
                   | None => (None, None, s)
                   end
         end in
  (match response with None => respond_missing | Some m => answer_from (Some m) transport end, s).

Definition armed_action (a : dnsArmedRule) (s : S') : option commit * S' :=
  match dr_action (ar_rule a) with
  | Some ActionRespond => let '(r, s) := armed_respond a s in (Some (CommitResult r), s)
  | Some (ActionDNSRoute server _ o) =>
      (match resolveDNSRoute (we_transports W) server o (we_allowFakeIP W) (ar_options a) with
       | RouteResolved transport q => Some (CommitPending (MkPending transport q None))
       | _ => None
       end, s)
  | Some (ActionReject method noDrop) => (CommitResult <$> reject_result method noDrop, s)
  | Some (ActionPredefined rcode answer ns extra) => (Some (CommitResult (predefined_result rcode answer ns extra)), s)
  | _ => (None, s)
  end.

(** [sweepArmedDNSRules]: [kept] are the armed rules before the index. *)
Fixpoint sweep_go (kept todo : list dnsArmedRule) (s : S') : option commit * S' :=
  match todo with
  | [] => (None, upd_armed kept s)
  | a :: todo =>
      let '(unready, s) := first_unresolved (ar_futures a) s in
      match unready with
      | Some _ => sweep_go (kept ++ [a]) todo s
      | None =>
          let s := upd_armed (kept ++ todo) s in
          let '(response, s) :=
            if ar_bindsAnonymous a
            then match ar_anonymous a with Some i => future_view i s | None => (None, s) end
            else anonymousResponse s in
          let '(matched, s) := match_with (ar_rule a) response s in
          if negb matched then sweep_go kept todo s
          else
            let '(c, s) := armed_action a s in
            match c with
            | Some _ => (c, s)
            | None => sweep_go kept todo s
            end
      end
  end.
Definition sweepArmedDNSRules (s : S') : option commit * S' := sweep_go [] (ws_armed s) s.

(** ** The walk *)

Inductive walk_out := WalkResult (r : exchange_result) | WalkSuspend (x : dnsWalkSuspension).
(** What one rule does to the walk. *)
Inductive rule_out := RuleNext | RuleOut (o : walk_out).

(** The part of a race rule: it is armed, and swept at once when nothing is
    pending. *)
Definition race_rule (rule : DNSRule) (s : S') : rule_out * S' :=
  let tags := omap (λ tag, ws_namedFutures s !! tag) (MatchResponseTags (dr_rule rule)) in
  let '(pendingTags, s) := all_unresolved tags s in
  let bindsAnonymous := MatchResponseAnonymous (dr_rule rule) in
  let anonymousFuture := if bindsAnonymous then ws_anonymous s else None in
  let '(pendingAnonymous, s) := all_unresolved (option_list anonymousFuture) s in
  let pendingFutures := pendingTags ++ pendingAnonymous in
  let s := upd_armed (ws_armed s ++ [MkArmed rule pendingFutures anonymousFuture bindsAnonymous (ws_options s)]) s in
  if nonempty pendingFutures then (RuleNext, s)
  else
    let '(c, s) := sweepArmedDNSRules s in
    match c with
    | None => (RuleNext, s)
    | Some (CommitPending p) => (RuleOut (WalkSuspend (SuspendPending p)), upd_armed [] s)
    | Some (CommitResult r) => (RuleOut (WalkResult r), s)
    end.

(** The switch on the action of a rule that matched. *)
Definition rule_action (rule : DNSRule) (s : S') : rule_out * S' :=
  let drain := (RuleOut (WalkSuspend SuspendDrain), s) in
  match dr_action rule with
  | None => (RuleNext, s)
  | Some (ActionDNSRouteOptions o) => (RuleNext, upd_options (applyDNSRouteOptions (ws_options s) o) s)
  | Some (ActionEvaluate server tag speculative o) =>
      match tm_Transport (we_transports W) server with
      | None => (RuleNext, if bool_decide (tag = ""%string) then upd_anonymous None s else s)
      | Some transport =>
          if negb speculative && nonempty (ws_armed s) then drain
          else
            let '(id, s) := launchDNSEvaluate tag transport (applyDNSRouteOptions (ws_options s) o) false s in
            (RuleNext, if bool_decide (tag = ""%string) then upd_anonymous (Some id) s
                       else upd_named (<[tag := id]> (ws_namedFutures s)) s)
      end
  | Some ActionRespond =>
      if nonempty (ws_armed s) then drain
      else
        let tag := MatchResponseTag (dr_rule rule) in
        if negb (bool_decide (tag = ""%string)) then
          (RuleOut (WalkResult
             match ws_namedResponses s !! tag with
             | None => respond_missing
             | Some m => answer_from (Some m) (ws_namedTransports s !! tag)
             end), s)
        else
          let '(await, s) :=
            if hasBindings (dr_rule rule) then (None, s) else first_unresolved (option_list (ws_anonymous s)) s in
          match await with
          | Some i => (RuleOut (WalkSuspend (SuspendAwait i)), s)
          | None =>
              let '(response, s) := anonymousResponse s in
              (RuleOut (WalkResult
                 match response with
                 | None => respond_missing
                 | Some m => answer_from (Some m) (i ← ws_anonymous s; transport_of i s)
                 end), s)
          end
  | Some (ActionDNSRoute server speculative o) =>
      match resolveDNSRoute (we_transports W) server o (we_allowFakeIP W) (ws_options s) with
      | RouteResolved transport q =>
          if nonempty (ws_armed s) then
            match ws_terminal s with
            | None =>
                if speculative then
                  let '(id, s) := launchDNSEvaluate "" transport q true s in
                  (RuleOut (WalkSuspend SuspendDrain), upd_terminal (Some (id, ws_ruleIndex s)) s)
                else drain
            | Some _ => drain
            end
          else
            match ws_terminal s with
            | Some (id, index) =>
                if bool_decide (index = ws_ruleIndex s)
                then (RuleOut (WalkSuspend (SuspendPending
                        (MkPending (default transport (transport_of id s)) no_query_options (Some id)))), s)
                else (RuleOut (WalkSuspend (SuspendPending (MkPending transport q None))), s)
            | None => (RuleOut (WalkSuspend (SuspendPending (MkPending transport q None))), s)
            end
      | _ => (RuleNext, s)
      end
  | Some (ActionReject method noDrop) =>
      if nonempty (ws_armed s) then drain
      else match reject_result method noDrop with
           | Some r => (RuleOut (WalkResult r), s)
           | None => (RuleNext, s)
           end
  | Some (ActionPredefined rcode answer ns extra) =>
      if nonempty (ws_armed s) then drain
      else (RuleOut (WalkResult (predefined_result rcode answer ns extra)), s)
  end.

(** One turn of the loop. *)
Definition walk_rule (rule : DNSRule) (s : S') : rule_out * S' :=
  let bindings := hasBindings (dr_rule rule) in
  let s := if bindings then settleDNSFutures s else s in
  if bindings && dr_race rule then race_rule rule s
  else
    let '(await, s) := if bindings then first_unresolved (bound_futures rule s) s else (None, s) in
    match await with
    | Some i => (RuleOut (WalkSuspend (SuspendAwait i)), s)
    | None =>
        let '(response, s) := anonymousResponse s in
        let '(matched, s) := match_with rule response s in
        if matched then rule_action rule s else (RuleNext, s)
    end.

(** [rest] are the rules from [ws_ruleIndex] on. *)
Fixpoint walk_go (rest : list DNSRule) (s : S') : walk_out * S' :=
  match rest with
  | [] =>
      (if nonempty (ws_armed s) then WalkSuspend SuspendDrain
       else WalkSuspend (SuspendPending (MkPending (tm_Default (we_transports W)) (ws_options s) None)), s)
  | rule :: rest =>
      match walk_rule rule s with
      | (RuleNext, s) => walk_go rest (upd_index (S (ws_ruleIndex s)) s)
      | (RuleOut o, s) => (o, s)
      end
  end.
Definition walkDNSRules (rules : list DNSRule) (s : S') : walk_out * S' :=
  walk_go (drop (ws_ruleIndex s) rules) s.

(** ** Waiting and finishing *)

Definition set_canceled (f : Future) : Future :=
  MkFuture (f_tag f) (f_terminal f) (f_transport f) (f_done f) (f_result f) (f_settled f) true (f_noticed f).
Definition cancelDNSFutures (s : S') : S' := upd_futures (set_canceled <$> ws_futures s) s.
Definition cancel_except (keep : option nat) (s : S') : S' :=
  upd_futures (imap (λ i f, if bool_decide (keep = Some i) then f else set_canceled f) (ws_futures s)) s.

(** What an exchange that is over gives. *)
Definition exchanged (transport : Transport) (r : result Message) : exchange_result :=
  match r with
  | Ok m => answer_from (Some m) (Some transport)
  | Err e => failed (Some transport) e
  | Panic w => Panic w
  end.
(** [client.Exchange] as the last exchange of the query. *)
Definition last_exchange (transport : Transport) (options : DNSQueryOptions) (s : S') : exchange_result :=
  exchanged transport
    (we_net W (length (ws_futures s)) transport (finalizeExchangeOptions (we_strategy W) options)).1.

(** [finishPendingExchange]: wait for the future, or exchange. *)
Definition finishPendingExchange (p : dnsPendingExchange) (s : S') : exchange_result * S' :=
  let s := cancel_except (pe_future p) s in
  match pe_future p with
  | Some i =>
      if we_canceled W (ws_looks s) then (failed None ctx_err, s)
      else
        match ws_futures s !! i with
        | Some f => (exchanged (f_transport f) (f_result f), upd_time (max (ws_clock s) (f_done f)) (S (ws_looks s)) s)
        | None => (Panic "nil pointer dereference", s)
        end
  | None => (last_exchange (pe_transport p) (pe_options p) s, s)
  end.

(** [<-state.wake]: until the first completion not taken yet; when there is
    none the receive blocks for ever.  Completions that happened at the same
    time are taken as one: a second token left in the channel would only make
    the walker look again, find nothing new and wait once more. *)
Definition list_min (l : list nat) : option nat :=
  match l with [] => None | x :: l => Some (foldr min x l) end.
Definition set_noticed (clock : nat) (f : Future) : Future :=
  MkFuture (f_tag f) (f_terminal f) (f_transport f) (f_done f) (f_result f) (f_settled f) (f_canceled f)
    (f_noticed f || bool_decide (f_done f ≤ clock)).
Definition wake (s : S') : option S' :=
  t ← list_min (f_done <$> filter (λ f, f_noticed f = false) (ws_futures s));
  let clock := max (ws_clock s) t in
  Some (upd_futures (set_noticed clock <$> ws_futures s) (upd_time clock (S (ws_looks s)) s)).

(** ** The exchange *)

Inductive outcome := Returned (r : exchange_result) (s : S') | Blocked | OutOfFuel.
(** [defer cancelDNSFutures(state)]. *)
Definition return_ (x : exchange_result * S') : outcome := Returned x.1 (cancelDNSFutures x.2).

(** [resumeExchangeWithRules], one unit of fuel per turn of its loop. *)
Fixpoint resumeExchangeWithRules (fuel : nat) (rules : list DNSRule) (suspension : dnsWalkSuspension) (s : S') :
    outcome :=
  match fuel with
  | 0 => OutOfFuel
  | S fuel =>
      let '(committed, s) := sweepArmedDNSRules (settleDNSFutures s) in
      let wait s :=
        if we_canceled W (ws_looks s) then return_ (failed None ctx_err, s)
        else match wake s with
             | None => Blocked
             | Some s => resumeExchangeWithRules fuel rules suspension s
             end in
      let walk s :=
        match walkDNSRules rules s with
        | (WalkResult r, s) => return_ (r, s)
        | (WalkSuspend suspension, s) => resumeExchangeWithRules fuel rules suspension s
        end in
      match committed with
      | Some (CommitPending p) => return_ (finishPendingExchange p s)
      | Some (CommitResult r) => return_ (r, s)
      | None =>
          match suspension with
          | SuspendPending p => return_ (finishPendingExchange p s)
          | SuspendAwait i => let '(b, s) := resolved i s in if b then walk s else wait s
          | SuspendDrain => if nonempty (ws_armed s) then wait s else walk s
          end
      end
  end.

Definition walk_start (options : DNSQueryOptions) (metadata : InboundContext) : S' :=
  MkWalk 0 options None ∅ ∅ ∅ [] [] None metadata 0 0.
Definition exchangeWithRules (fuel : nat) (rules : list DNSRule) (options : DNSQueryOptions)
    (metadata : InboundContext) : outcome :=
  match walkDNSRules rules (walk_start options metadata) with
  | (WalkResult r, s) => return_ (r, s)
  | (WalkSuspend suspension, s) => resumeExchangeWithRules fuel rules suspension s
  end.

(** The same with a callback: an exchange that needs no future is sent at
    once, without the loop. *)
Definition exchangeWithRulesAsync (fuel : nat) (rules : list DNSRule) (options : DNSQueryOptions)
    (metadata : InboundContext) : outcome :=
  match walkDNSRules rules (walk_start options metadata) with
  | (WalkResult r, s) => return_ (r, s)
  | (WalkSuspend (SuspendPending (MkPending transport o None)), s) =>
      let s := cancelDNSFutures s in
      Returned (last_exchange transport o s) s
  | (WalkSuspend suspension, s) => resumeExchangeWithRules fuel rules suspension s
  end.
End walk.
