(* ===== verification/DnsLive.v ===== *)
(** * A DNS query always ends

    The walker of [DnsWalk] sleeps on a channel that holds a single wake-up.
    Whatever the rules are, race rules included, and whenever the exchanges
    complete, it never sleeps without a wake-up to come, and it runs a number of
    turns that the number of rules bounds.  When it returns, every exchange it
    started has been canceled.  The callback variant gives the same result. *)

From S2P Require Import Prelude GoStrings NetAddr RuleContext RuleItems RuleMatch RuleSpec DnsActions DnsWalk.

Local Open Scope nat_scope.

(** ** What is left to happen *)

Definition done_times (s : dnsRuleWalkState) : list nat := f_done <$> ws_futures s.
Definition noticed (s : dnsRuleWalkState) : list bool := f_noticed <$> ws_futures s.
Definition late (clock : nat) (l : list nat) : nat := length (filter (λ t, clock < t) l).
Definition unresolved (s : dnsRuleWalkState) : nat := late (ws_clock s) (done_times s).
Definition unnoticed (s : dnsRuleWalkState) : nat := length (filter (λ b, b = false) (noticed s)).

Definition b2n (b : bool) : nat := if b then 1 else 0.
Definition no_terminal (s : dnsRuleWalkState) : bool :=
  match ws_terminal s with Some _ => false | None => true end.
(** The turns that are left, at most: [R] is the number of rules. *)
Definition potential (R : nat) (s : dnsRuleWalkState) : nat :=
  2 * unnoticed s + unresolved s + b2n (nonempty (ws_armed s)) +
  4 * ((R - ws_ruleIndex s) + b2n (no_terminal s)).

(** The futures a state refers to. *)
Definition refers (s : dnsRuleWalkState) (i : nat) : Prop :=
  ws_anonymous s = Some i ∨ (∃ tag, ws_namedFutures s !! tag = Some i) ∨
  (∃ k, ws_terminal s = Some (i, k)) ∨ (∃ a, a ∈ ws_armed s ∧ i ∈ ar_futures a).
Record walk_ok (s : dnsRuleWalkState) : Prop := {
  ok_refers i : refers s i → i < length (ws_futures s);
  ok_noticed i f : ws_futures s !! i = Some f → f_noticed f = true → f_done f ≤ ws_clock s;
}.

(** [s'] is [s] after looking around: the futures are as they were, but for
    the responses taken from them, and time may have passed. *)
Record quiet (s s' : dnsRuleWalkState) : Prop := {
  q_done : done_times s' = done_times s;
  q_noticed : noticed s' = noticed s;
  q_clock : ws_clock s ≤ ws_clock s';
  q_index : ws_ruleIndex s' = ws_ruleIndex s;
  q_terminal : ws_terminal s' = ws_terminal s;
  q_anonymous : ws_anonymous s' = ws_anonymous s;
  q_named : ws_namedFutures s' = ws_namedFutures s;
  q_armed a : a ∈ ws_armed s' → a ∈ ws_armed s;
}.

Lemma nonempty_nil {A} (l : list A) : nonempty l = false ↔ l = [].
Proof. unfold nonempty. rewrite negb_false_iff, bool_decide_eq_true. apply length_zero_iff_nil. Qed.
Lemma nonempty_cons {A} (l : list A) : nonempty l = true ↔ l ≠ [].
Proof. rewrite <- not_false_iff_true, nonempty_nil. done. Qed.

Lemma late_mono c c' l : c ≤ c' → late c' l ≤ late c l.
Proof.
  intros Hc. unfold late. induction l as [|t l IH]; [done|]. rewrite !filter_cons.
  destruct (decide (c' < t)), (decide (c < t)); cbn; lia.
Qed.
Lemma late_strict c c' l t : c ≤ c' → t ∈ l → c < t → t ≤ c' → late c' l < late c l.
Proof.
  intros Hc Hin Ht Ht'. unfold late. induction l as [|u l IH]; [by apply elem_of_nil in Hin|].
  pose proof (late_mono c c' l Hc). unfold late in *. apply elem_of_cons in Hin as [<-|Hin].
  - rewrite !filter_cons. destruct (decide (c' < t)), (decide (c < t)); cbn; lia.
  - specialize (IH Hin). rewrite !filter_cons. destruct (decide (c' < u)), (decide (c < u)); cbn; lia.
Qed.

#[export] Instance quiet_preorder : PreOrder quiet.
Proof.
  split.
  - intros s. by split.
  - intros s1 s2 s3 [] []. split; try congruence; [lia|auto].
Qed.

Lemma quiet_length s s' : quiet s s' → length (ws_futures s') = length (ws_futures s).
Proof. intros [H _ _ _ _ _ _ _]. apply (f_equal length) in H. unfold done_times in H. by rewrite !length_fmap in H. Qed.

(** A future is found again, with its moment and its mark. *)
Lemma quiet_future s s' i f :
  quiet s s' → ws_futures s' !! i = Some f →
  ∃ f', ws_futures s !! i = Some f' ∧ f_done f' = f_done f ∧ f_noticed f' = f_noticed f.
Proof.
  intros Hq Hf.
  assert (done_times s !! i = Some (f_done f)) as Hd
    by (rewrite <- (q_done _ _ Hq); unfold done_times; by rewrite list_lookup_fmap, Hf).
  assert (noticed s !! i = Some (f_noticed f)) as Hn
    by (rewrite <- (q_noticed _ _ Hq); unfold noticed; by rewrite list_lookup_fmap, Hf).
  unfold done_times in Hd. unfold noticed in Hn. rewrite list_lookup_fmap in Hd. rewrite list_lookup_fmap in Hn.
  destruct (ws_futures s !! i) as [f'|]; [|done]. cbn in *. naive_solver.
Qed.

Lemma quiet_ok s s' : quiet s s' → walk_ok s → walk_ok s'.
Proof.
  intros Hq [Hr Hn]. pose proof (quiet_length _ _ Hq) as Hlen. split.
  - intros i Hi. rewrite Hlen. apply Hr. destruct Hq as [_ _ _ _ Ht Ha Hnf Har]. unfold refers in *.
    rewrite Ha, Hnf, Ht in Hi. naive_solver.
  - intros i f Hf Hb. destruct (quiet_future _ _ _ _ Hq Hf) as (f' & Hf' & Hd & Hm).
    pose proof (q_clock _ _ Hq). specialize (Hn i f' Hf'). rewrite Hm, Hd in Hn. specialize (Hn Hb). lia.
Qed.

Lemma armed_count (l l' : list dnsArmedRule) :
  (∀ a, a ∈ l' → a ∈ l) → b2n (nonempty l') ≤ b2n (nonempty l).
Proof.
  intros Hl. destruct l' as [|a l']; [apply Nat.le_0_l|].
  destruct l as [|b l]; [|done]. exfalso. apply (not_elem_of_nil a), Hl. by left.
Qed.
Lemma quiet_potential R s s' : quiet s s' → potential R s' ≤ potential R s.
Proof.
  intros [Hd Hn Hc Hi Ht _ _ Ha]. unfold potential, unnoticed, unresolved, no_terminal.
  rewrite Hd, Hn, Hi, Ht. pose proof (late_mono _ _ (done_times s) Hc). pose proof (armed_count _ _ Ha). lia.
Qed.

(** ** The operations are quiet *)

Section live.
Context `{UnicodeTables, UniqOrder} (W : WalkEnv).
#[local] Arguments resolved : simpl never.

Lemma resolved_spec i s b s' :
  resolved W i s = (b, s') →
  quiet s s' ∧ ws_armed s' = ws_armed s ∧
  (b = true ↔ ∃ f, ws_futures s' !! i = Some f ∧ f_done f ≤ ws_clock s') ∧ ws_futures s' = ws_futures s.
Proof.
  unfold resolved. intros [= <- <-]. split_and!; try done.
  - split; cbn; try done; lia.
  - cbn. destruct (ws_futures s !! i) as [f|]; [|naive_solver]. rewrite bool_decide_eq_true. naive_solver.
Qed.
Lemma future_view_quiet i s v s' : future_view W i s = (v, s') → quiet s s' ∧ ws_armed s' = ws_armed s.
Proof.
  unfold future_view. destruct (resolved W i s) as [b s1] eqn:Hr. intros [= _ <-].
  apply resolved_spec in Hr. naive_solver.
Qed.
Lemma anonymousResponse_quiet s v s' : anonymousResponse W s = (v, s') → quiet s s' ∧ ws_armed s' = ws_armed s.
Proof.
  unfold anonymousResponse. destruct (ws_anonymous s); [apply future_view_quiet|]. by intros [= _ <-].
Qed.

Lemma settle_one_quiet i s : quiet s (settle_one W i s) ∧ ws_armed (settle_one W i s) = ws_armed s.
Proof.
  unfold settle_one. destruct (ws_futures s !! i) as [f|] eqn:Hf; [|done].
  destruct (f_settled f); [done|]. destruct (resolved W i s) as [b s1] eqn:Hr.
  apply resolved_spec in Hr as (Hq & Ha & _ & Hfs).
  destruct b; cbn [negb]; [|done].
  set (s2 := upd_futures _ s1).
  assert (quiet s s2) as Hq2.
  { trans s1; [done|]. unfold s2. rewrite <- Hfs in Hf. split; try done; unfold done_times, noticed; cbn.
    - rewrite list_fmap_insert. apply list_insert_id. by rewrite list_lookup_fmap, Hf.
    - rewrite list_fmap_insert. apply list_insert_id. by rewrite list_lookup_fmap, Hf. }
  case_bool_decide; [done|]. destruct (future_view W i s2) as [v s3] eqn:Hv.
  apply future_view_quiet in Hv as [Hq3 Ha3]. split; [|cbn; by rewrite Ha3].
  trans s3; [by trans s2|]. by split.
Qed.
Lemma settle_quiet s : quiet s (settleDNSFutures W s) ∧ ws_armed (settleDNSFutures W s) = ws_armed s.
Proof.
  unfold settleDNSFutures. generalize (seq 0 (length (ws_futures s))) as l. intros l. revert s.
  induction l as [|i l IH]; intros s; cbn [foldl]; [done|].
  destruct (settle_one_quiet i s) as [Hq Ha]. destruct (IH (settle_one W i s)) as [Hq' Ha'].
  split; [by trans (settle_one W i s)|by rewrite Ha'].
Qed.
Lemma match_with_quiet rule response s b s' :
  match_with W rule response s = (b, s') → quiet s s' ∧ ws_armed s' = ws_armed s ∧ ws_futures s' = ws_futures s.
Proof.
  unfold match_with. destruct (rule_Match _ _ _) as [b' m]. intros [= _ <-]. split_and!; [by split|done..].
Qed.
Lemma upd_armed_quiet l s : (∀ a, a ∈ l → a ∈ ws_armed s) → quiet s (upd_armed l s).
Proof. intros Hl. by split. Qed.

Lemma first_unresolved_spec l s o s' :
  first_unresolved W l s = (o, s') →
  quiet s s' ∧ ws_armed s' = ws_armed s ∧ ws_futures s' = ws_futures s ∧
  ∀ i, o = Some i → i ∈ l ∧ ∀ f, ws_futures s' !! i = Some f → ws_clock s' < f_done f.
Proof.
  revert s. induction l as [|j l IH]; intros s; cbn.
  - intros [= <- <-]. naive_solver.
  - destruct (resolved W j s) as [b s1] eqn:Hr. apply resolved_spec in Hr as (Hq & Ha & Hb & Hfs). destruct b.
    + intros (Hq' & Ha' & Hf' & Hi)%IH. split_and!; [by trans s1|congruence|congruence|].
      intros i Hio. destruct (Hi i Hio). split; [by right|done].
    + intros [= <- <-]. split_and!; [done..|]. intros i [= <-]. split; [by left|].
      intros f Hf. destruct (decide (f_done f ≤ ws_clock s1)); [|lia]. naive_solver.
Qed.
Lemma all_unresolved_quiet l s o s' :
  all_unresolved W l s = (o, s') → quiet s s' ∧ ws_armed s' = ws_armed s ∧ ∀ i, i ∈ o → i ∈ l.
Proof.
  revert s o s'. induction l as [|j l IH]; intros s o s'; cbn.
  - by intros [= <- <-].
  - destruct (resolved W j s) as [b s1] eqn:Hr. apply resolved_spec in Hr as (Hq & Ha & _ & _).
    destruct (all_unresolved W l s1) as [rest s2] eqn:Hl. apply IH in Hl as (Hq' & Ha' & Hin).
    intros [= <- <-]. split_and!; [by trans s1|congruence|]. destruct b; set_solver.
Qed.

(** ** Armed rules *)

Lemma armed_action_quiet a s c s' : armed_action W a s = (c, s') → quiet s s' ∧ ws_armed s' = ws_armed s.
Proof.
  unfold armed_action, armed_respond. destruct (dr_action (ar_rule a)) as [act|]; [|by intros [= _ <-]].
  destruct act; try by intros [= _ <-].
  destruct (negb _); [by intros [= _ <-]|]. destruct (ar_anonymous a) as [i|].
  - destruct (future_view W i s) eqn:Hv. apply future_view_quiet in Hv. by intros [= _ <-].
  - destruct (ws_anonymous s); [|by intros [= _ <-]].
    destruct (anonymousResponse W s) eqn:Hv. apply anonymousResponse_quiet in Hv. by intros [= _ <-].
Qed.

(** A rule that stays armed waits for a future that has not been noticed. *)
Definition waits (s : dnsRuleWalkState) (a : dnsArmedRule) : Prop :=
  ∃ i f, i ∈ ar_futures a ∧ ws_futures s !! i = Some f ∧ f_noticed f = false.
Lemma waits_quiet s s' a : quiet s s' → waits s a → waits s' a.
Proof.
  intros Hq (i & f & Hi & Hf & Hn). exists i.
  assert (is_Some (ws_futures s' !! i)) as [f' Hf'].
  { apply lookup_lt_is_Some. rewrite (quiet_length _ _ Hq). apply lookup_lt_is_Some. eauto. }
  destruct (quiet_future _ _ _ _ Hq Hf') as (g & Hg & _ & Hm). exists f'. naive_solver.
Qed.

Lemma sweep_go_spec todo : ∀ kept s c s',
  walk_ok s → (∀ a, a ∈ kept ++ todo → a ∈ ws_armed s) → Forall (waits s) kept →
  sweep_go W kept todo s = (c, s') →
  quiet s s' ∧ (c = None → Forall (waits s') (ws_armed s')).
Proof.
  induction todo as [|a todo IH]; intros kept s c s' Hok Hsub Hk; cbn [sweep_go].
  - intros [= <- <-]. split; [apply upd_armed_quiet; intros x Hx; apply Hsub; by rewrite app_nil_r|]. intros _. done.
  - destruct (first_unresolved W (ar_futures a) s) as [u s1] eqn:Hu.
    apply first_unresolved_spec in Hu as (Hq1 & Ha1 & Hf1 & Hun).
    pose proof (quiet_ok _ _ Hq1 Hok) as Hok1.
    assert (∀ x, x ∈ kept ++ todo → x ∈ ws_armed s) as Hrest.
    { intros x [?|?]%elem_of_app; apply Hsub, elem_of_app; [by left|by right; right]. }
    destruct u as [i|].
    + intros Hgo. apply IH in Hgo as [Hq Hw]; [split; [by trans s1|done]|done|rewrite Ha1, <- app_assoc; done|].
      apply Forall_app; split; [eapply Forall_impl; [done|]; intros; by eapply waits_quiet|].
      apply Forall_singleton. destruct (Hun i eq_refl) as [Hi Hlate].
      assert (i < length (ws_futures s1)) as [f Hf]%lookup_lt_is_Some.
      { apply Hok1. right; right; right. exists a. split; [rewrite Ha1; apply Hsub, elem_of_app; right; left|done]. }
      exists i, f. split_and!; [done..|]. apply not_true_is_false. intros Hn.
      pose proof (ok_noticed _ Hok1 i f Hf Hn). specialize (Hlate f Hf). lia.
    + set (s2 := upd_armed (kept ++ todo) s1).
      assert (quiet s s2) as Hq2 by (trans s1; [done|apply upd_armed_quiet; rewrite Ha1; apply Hrest]).
      match goal with |- context [let '(_, _) := ?e in _] => destruct e as [response s3] eqn:Hresp end.
      assert (quiet s2 s3 ∧ ws_armed s3 = ws_armed s2) as [Hq3 Ha3].
      { destruct (ar_bindsAnonymous a).
        - destruct (ar_anonymous a); [by eapply future_view_quiet|]. by injection Hresp as _ <-.
        - by eapply anonymousResponse_quiet. }
      destruct (match_with W (ar_rule a) response s3) as [matched s4] eqn:Hm.
      apply match_with_quiet in Hm as (Hq4 & Ha4 & _).
      assert (quiet s s4) as Hq by (trans s3; [by trans s2|done]).
      assert (∀ s5, quiet s4 s5 → ws_armed s5 = ws_armed s4 →
                sweep_go W kept todo s5 = (c, s') → quiet s s' ∧ (c = None → Forall (waits s') (ws_armed s'))) as Hgo.
      { intros s5 Hq5 Ha5 Hgo. assert (quiet s s5) by (by trans s4).
        apply IH in Hgo as [Hq' Hw]; [split; [by trans s5|done]|by eapply quiet_ok| |].
        - rewrite Ha5, Ha4, Ha3. auto.
        - eapply Forall_impl; [done|]. intros; by eapply waits_quiet. }
      destruct matched; cbn [negb]; [|by apply Hgo].
      destruct (armed_action W a s4) as [c' s5] eqn:Hact. apply armed_action_quiet in Hact as [Hq5 Ha5].
      destruct c'; [|by apply Hgo]. intros [= <- <-]. split; [by trans s4|done].
Qed.
Lemma sweep_spec s c s' :
  walk_ok s → sweepArmedDNSRules W s = (c, s') → quiet s s' ∧ (c = None → Forall (waits s') (ws_armed s')).
Proof. intros Hok. by apply sweep_go_spec. Qed.

(** ** One rule *)

(** What a step may do: it keeps the state well formed and the index, and
    adds at most [n] to the potential. *)
Record costs (n R : nat) (s s' : dnsRuleWalkState) : Prop := {
  c_ok : walk_ok s → walk_ok s';
  c_index : ws_ruleIndex s' = ws_ruleIndex s;
  c_pot : potential R s' ≤ potential R s + n;
}.
Lemma costs_trans n n' k R s1 s2 s3 : costs n R s1 s2 → costs n' R s2 s3 → n + n' ≤ k → costs k R s1 s3.
Proof. intros [] [] Hk. split; [auto|congruence|lia]. Qed.
Lemma quiet_costs n R s s' : quiet s s' → costs n R s s'.
Proof.
  intros Hq. split; [by apply quiet_ok|apply Hq|]. pose proof (quiet_potential R _ _ Hq). lia.
Qed.
Lemma costs_weaken n n' R s s' : costs n R s s' → n ≤ n' → costs n' R s s'.
Proof. intros [] Hn. split; [done|done|lia]. Qed.

Lemma launch_spec tag transport options terminal s id s' :
  launchDNSEvaluate W tag transport options terminal s = (id, s') →
  id < length (ws_futures s') ∧ (∀ R, costs 3 R s s') ∧
  ws_armed s' = ws_armed s ∧ ws_terminal s' = ws_terminal s.
Proof.
  unfold launchDNSEvaluate. destruct (we_net _ _ _ _) as [r delay]. intros [= <- <-].
  set (f := MkFuture _ _ _ _ _ _ _ _).
  split_and!; try done; [cbn; rewrite length_app; cbn; lia|]. intros R. split; [|done|].
  - intros [Hr Hn]. split; cbn.
    + intros i Hi. rewrite length_app. cbn. pose proof (Hr i Hi). lia.
    + intros i g [Hg|[_ Hg]]%lookup_app_Some Hm; [by apply (Hn i)|].
      apply list_elem_of_lookup_2, list_elem_of_singleton in Hg as ->. done.
  - unfold potential, unresolved, unnoticed, late, done_times, noticed, no_terminal. cbn.
    rewrite !fmap_app, !filter_app, !length_app, !list_fmap_singleton.
    rewrite !filter_cons, !filter_nil. repeat case_decide; cbn [length]; lia.
Qed.

Lemma upd_anonymous_costs n R o s :
  (∀ i, o = Some i → i < length (ws_futures s)) → costs n R s (upd_anonymous o s).
Proof.
  intros Ho. split; [|done|change (potential R (upd_anonymous o s)) with (potential R s); lia].
  intros [Hr Hn]. split; [|done]. intros i [Hi|Hi]; [by apply Ho|apply Hr; by right].
Qed.
Lemma upd_named_costs n R tag i s :
  i < length (ws_futures s) → costs n R s (upd_named (<[tag := i]> (ws_namedFutures s)) s).
Proof.
  intros Hi. split; [|done|change (potential R (upd_named _ s)) with (potential R s); lia].
  intros [Hr Hn]. split; [|done]. intros j [Hj|[[t Ht]|Hj]]; [apply Hr; by left| |apply Hr; by right; right].
  cbn in Ht. apply lookup_insert_Some in Ht as [[_ <-]|[_ Ht]]; [done|]. apply Hr. right; left. eauto.
Qed.
Lemma upd_terminal_costs R i k s :
  i < length (ws_futures s) → ws_terminal s = None →
  walk_ok s → walk_ok (upd_terminal (Some (i, k)) s) ∧
  potential R (upd_terminal (Some (i, k)) s) + 4 ≤ potential R s.
Proof.
  intros Hi Ht [Hr Hn]. split.
  - split; [|done]. intros j [Hj|[Hj|[[k' [= -> _]]|Hj]]]; [apply Hr; by left|apply Hr; by right; left|done|].
    apply Hr. by right; right; right.
  - unfold potential. change (unnoticed (upd_terminal _ s)) with (unnoticed s).
    change (unresolved (upd_terminal _ s)) with (unresolved s). unfold no_terminal. rewrite Ht. cbn. lia.
Qed.

Lemma arm_costs R a s :
  (∀ i, i ∈ ar_futures a → i < length (ws_futures s)) → costs 1 R s (upd_armed (ws_armed s ++ [a]) s).
Proof.
  intros Ha. split; [|done|].
  - intros [Hr Hn]. split; [|done]. intros i [Hi|[Hi|[Hi|(b & Hb & Hi)]]].
    + apply Hr. by left.
    + apply Hr. by right; left.
    + apply Hr. by right; right; left.
    + cbn in Hb. apply elem_of_app in Hb as [Hb| ->%list_elem_of_singleton]; [|by apply Ha].
      apply Hr. right; right; right. eauto.
  - unfold potential. change (unnoticed (upd_armed _ s)) with (unnoticed s).
    change (unresolved (upd_armed _ s)) with (unresolved s). change (no_terminal (upd_armed _ s)) with (no_terminal s).
    cbn. destruct (nonempty (ws_armed s ++ [a])); cbn; lia.
Qed.

(** The futures a rule binds exist. *)
Lemma bound_lt rule s i : walk_ok s → i ∈ bound_futures rule s → i < length (ws_futures s).
Proof.
  intros [Hr _]. unfold bound_futures. rewrite elem_of_app, list_elem_of_omap. intros [(tag & _ & Ht)|Hi]; apply Hr.
  - right; left. eauto.
  - destruct (MatchResponseAnonymous _); [|by apply elem_of_nil in Hi].
    left. destruct (ws_anonymous s); [|by apply elem_of_nil in Hi]. by apply list_elem_of_singleton in Hi as ->.
Qed.

(** What a suspension promises when the walk stops with it. *)
Definition suspended (x : dnsWalkSuspension) (s : dnsRuleWalkState) : Prop :=
  match x with
  | SuspendAwait i => ∃ f, ws_futures s !! i = Some f ∧ ws_clock s < f_done f
  | SuspendDrain => ws_armed s ≠ []
  | SuspendPending _ => ws_armed s = []
  end.
Definition rule_stops (R : nat) (s : dnsRuleWalkState) (o : rule_out) (s' : dnsRuleWalkState) : Prop :=
  match o with
  | RuleNext => costs 4 R s s'
  | RuleOut (WalkResult _) => True
  | RuleOut (WalkSuspend x) => costs 0 R s s' ∧ suspended x s'
  end.
Lemma quiet_stops R s s1 o s' : quiet s s1 → rule_stops R s1 o s' → rule_stops R s o s'.
Proof.
  intros Hq. pose proof (quiet_costs 0 R _ _ Hq) as Hc. destruct o as [|[r|x]]; cbn; [|done|].
  - intros H'. by eapply costs_trans.
  - intros [H' Hs]. split; [by eapply costs_trans|done].
Qed.

Lemma race_rule_stops R rule s o s' :
  walk_ok s → race_rule W rule s = (o, s') → rule_stops R s o s'.
Proof.
  intros Hok. unfold race_rule.
  destruct (all_unresolved W _ s) as [pt s1] eqn:H1. apply all_unresolved_quiet in H1 as (Hq1 & _ & Hin1).
  set (anon := if MatchResponseAnonymous _ then ws_anonymous s1 else None).
  destruct (all_unresolved W _ s1) as [pa s2] eqn:H2. apply all_unresolved_quiet in H2 as (Hq2 & _ & Hin2).
  assert (quiet s s2) as Hq by (by trans s1).
  set (a := MkArmed _ _ _ _ _).
  assert (costs 1 R s2 (upd_armed (ws_armed s2 ++ [a]) s2)) as Harm.
  { apply arm_costs. cbn. intros i Hi. rewrite (quiet_length _ _ Hq). apply (bound_lt rule); [done|].
    unfold bound_futures. apply elem_of_app in Hi as [Hi|Hi]; apply elem_of_app; [left; by apply Hin1|right].
    apply Hin2 in Hi. unfold anon in Hi. rewrite (q_anonymous _ _ Hq1) in Hi. by destruct (MatchResponseAnonymous _). }
  set (s3 := upd_armed _ s2) in *.
  assert (costs 1 R s s3) as Hc by (eapply (costs_trans 0 1); [by apply quiet_costs|done|lia]).
  destruct (nonempty _).
  - intros [= <- <-]. by apply (costs_weaken 1); [|lia].
  - destruct (sweepArmedDNSRules W s3) as [c s4] eqn:Hs.
    apply sweep_spec in Hs as [Hq4 _]; [|by apply Hc].
    destruct c as [[r|p]|]; intros [= <- <-]; cbn; [done| |].
    + split; [|done].
      assert (quiet s (upd_armed [] s4)) as Hq'; [|by apply quiet_costs].
      trans s2; [done|]. destruct Hq4 as [H4 H5 H6 H7 H8 H9 H10 _]. split; try done. cbn. intros ? []%elem_of_nil.
    + eapply (costs_trans 1 0); [done|by apply quiet_costs|lia].
Qed.

Lemma drained s : nonempty (ws_armed s) = true → suspended SuspendDrain s.
Proof. apply nonempty_cons. Qed.

Lemma rule_action_stops R rule s o s' :
  walk_ok s → rule_action W rule s = (o, s') → rule_stops R s o s'.
Proof.
  intros Hok. unfold rule_action.
  destruct (dr_action rule) as [[server speculative ro|ro|server tag speculative ro| |method noDrop|rcode an ns ex]|].
  - destruct (resolveDNSRoute _ _ _ _ _) as [| |transport q]; try (intros [= <- <-]; by apply quiet_costs).
    destruct (nonempty (ws_armed s)) eqn:Harm.
    + destruct (ws_terminal s) as [t|] eqn:Ht; [intros [= <- <-]; split; [by apply quiet_costs|by apply drained]|].
      destruct speculative; [|intros [= <- <-]; split; [by apply quiet_costs|by apply drained]].
      destruct (launchDNSEvaluate W "" transport q true s) as [id s1] eqn:Hl.
      apply launch_spec in Hl as (Hid & Hc & Ha & Ht1). specialize (Hc R). intros [= <- <-].
      pose proof (upd_terminal_costs R id (ws_ruleIndex s1) s1 Hid) as Hu.
      rewrite Ht1 in Hu. destruct (Hu Ht (c_ok _ _ _ _ Hc Hok)) as [Hok' Hp]. destruct Hc as [_ Hi Hp1].
      split; [split; [done|done|lia]|]. apply drained. cbn. by rewrite Ha.
    + apply nonempty_nil in Harm.
      destruct (ws_terminal s) as [[id k]|]; [case_bool_decide|]; intros [= <- <-]; (split; [by apply quiet_costs|done]).
  - intros [= <- <-]. apply quiet_costs. by split.
  - destruct (tm_Transport _ _) as [transport|].
    2: { intros [= <- <-]. case_bool_decide; [by apply upd_anonymous_costs|by apply quiet_costs]. }
    destruct (negb speculative && _) eqn:Hd.
    { intros [= <- <-]. split; [by apply quiet_costs|]. apply andb_true_iff in Hd as [_ Hd]. by apply drained. }
    destruct (launchDNSEvaluate W tag transport _ false s) as [id s1] eqn:Hl.
    apply launch_spec in Hl as (Hid & Hc & _ & _). intros [= <- <-].
    eapply (costs_trans 3 0); [by apply Hc| |lia].
    case_bool_decide; [apply upd_anonymous_costs; by intros i [= <-]|by apply upd_named_costs].
  - destruct (nonempty (ws_armed s)) eqn:Harm; [intros [= <- <-]; split; [by apply quiet_costs|by apply drained]|].
    destruct (negb (bool_decide _)); [by intros [= <- <-]|].
    destruct (hasBindings _).
    { destruct (anonymousResponse W s) as [v s1]. by intros [= <- <-]. }
    destruct (first_unresolved W _ s) as [o1 s1] eqn:Hu. apply first_unresolved_spec in Hu as (Hq & _ & Hfs & Hun).
    destruct o1 as [i|]; [|destruct (anonymousResponse W s1); by intros [= <- <-]].
    intros [= <- <-]. split; [by apply quiet_costs|]. destruct (Hun i eq_refl) as [Hi Hlate].
    assert (i < length (ws_futures s1)) as [f Hf]%lookup_lt_is_Some.
    { rewrite Hfs. apply Hok. left. destruct (ws_anonymous s); [|by apply elem_of_nil in Hi].
      by apply list_elem_of_singleton in Hi as ->. }
    exists f. eauto.
  - destruct (nonempty (ws_armed s)) eqn:Harm; [intros [= <- <-]; split; [by apply quiet_costs|by apply drained]|].
    destruct (reject_result _ _ _); intros [= <- <-]; [done|by apply quiet_costs].
  - destruct (nonempty (ws_armed s)) eqn:Harm; intros [= <- <-]; [split; [by apply quiet_costs|by apply drained]|done].
  - intros [= <- <-]. by apply quiet_costs.
Qed.

Lemma walk_rule_stops R rule s o s' :
  walk_ok s → walk_rule W rule s = (o, s') → rule_stops R s o s'.
Proof.
  intros Hok. unfold walk_rule.
  set (s1 := if hasBindings (dr_rule rule) then settleDNSFutures W s else s).
  assert (quiet s s1) as Hq1 by (unfold s1; destruct (hasBindings _); [apply settle_quiet|done]).
  pose proof (quiet_ok _ _ Hq1 Hok) as Hok1.
  destruct (hasBindings (dr_rule rule) && dr_race rule).
  { intros Hr. eapply quiet_stops; [done|]. by eapply race_rule_stops. }
  match goal with |- context [let '(_, _) := ?e in _] => destruct e as [await s2] eqn:Hawait end.
  assert (quiet s1 s2 ∧ ∀ i, await = Some i → i ∈ bound_futures rule s1 ∧ ws_futures s2 = ws_futures s1 ∧
            ∀ f, ws_futures s2 !! i = Some f → ws_clock s2 < f_done f) as [Hq2 Hun].
  { destruct (hasBindings _); [|by injection Hawait as <- <-].
    apply first_unresolved_spec in Hawait as (? & _ & ? & Hu). split; [done|]. intros i Hi. destruct (Hu i Hi). done. }
  assert (quiet s s2) as Hq by (by trans s1).
  destruct await as [i|].
  - intros [= <- <-]. split; [by apply quiet_costs|]. destruct (Hun i eq_refl) as (Hi & Hfs & Hlate).
    apply bound_lt in Hi; [|done]. rewrite <- Hfs in Hi. apply lookup_lt_is_Some in Hi as [f Hf]. exists f. auto.
  - destruct (anonymousResponse W s2) as [response s3] eqn:Ha. apply anonymousResponse_quiet in Ha as [Hq3 _].
    destruct (match_with W rule response s3) as [matched s4] eqn:Hm. apply match_with_quiet in Hm as (Hq4 & _ & _).
    assert (quiet s s4) as Hq' by (trans s3; [by trans s2|done]).
    destruct matched; [|intros [= <- <-]; by apply quiet_costs].
    intros Hr. eapply quiet_stops; [done|]. eapply rule_action_stops; [by eapply quiet_ok|done].
Qed.

(** ** The walk and the loop around it *)

Lemma index_potential R s :
  ws_ruleIndex s < R → potential R (upd_index (S (ws_ruleIndex s)) s) + 4 = potential R s.
Proof.
  intros Hi. unfold potential. change (unnoticed (upd_index _ s)) with (unnoticed s).
  change (unresolved (upd_index _ s)) with (unresolved s). change (no_terminal (upd_index _ s)) with (no_terminal s).
  cbn [ws_armed upd_index ws_ruleIndex]. lia.
Qed.

(** The state between two turns of the loop. *)
Record between (R : nat) (x : dnsWalkSuspension) (s : dnsRuleWalkState) : Prop := {
  bt_ok : walk_ok s;
  bt_index : ws_ruleIndex s ≤ R;
  bt_await i : x = SuspendAwait i → i < length (ws_futures s);
}.

Lemma walk_go_stops R rest : ∀ s o s',
  walk_ok s → ws_ruleIndex s + length rest = R → walk_go W rest s = (o, s') →
  match o with
  | WalkResult _ => True
  | WalkSuspend x => between R x s' ∧ suspended x s' ∧ potential R s' ≤ potential R s
  end.
Proof.
  induction rest as [|rule rest IH]; intros s o s' Hok Hidx; cbn [walk_go].
  - destruct (nonempty (ws_armed s)) eqn:Ha; intros [= <- <-]; cbn [length] in Hidx.
    + split_and!; [split; [done|lia|done]|by apply drained|done].
    + split_and!; [split; [done|lia|done]|by apply nonempty_nil|done].
  - destruct (walk_rule W rule s) as [ro s1] eqn:Hr. apply (walk_rule_stops R) in Hr; [|done].
    cbn [length] in Hidx. destruct ro as [|[r|x]]; cbn in Hr.
    + destruct Hr as [Hok1 Hi1 Hp1]. intros Hgo. apply IH in Hgo; [| |cbn; lia].
      * destruct o; [done|]. pose proof (index_potential R s1 ltac:(lia)). naive_solver lia.
      * destruct (Hok1 Hok) as [Hr Hn]. by split.
    + by intros [= <- <-].
    + intros [= <- <-]. destruct Hr as [[Hok1 Hi1 Hp1] Hs]. split_and!; [|done|lia].
      split; [auto|lia|]. intros i ->. destruct Hs as (f & Hf & _). by eapply lookup_lt_Some.
Qed.
Lemma walk_stops rules s o s' :
  walk_ok s → ws_ruleIndex s ≤ length rules → walkDNSRules W rules s = (o, s') →
  match o with
  | WalkResult _ => True
  | WalkSuspend x => between (length rules) x s' ∧ suspended x s' ∧
                     potential (length rules) s' ≤ potential (length rules) s
  end.
Proof. intros Hok Hi. apply walk_go_stops; [done|]. rewrite length_drop. lia. Qed.

(** A wake-up comes when some future has not been noticed, and takes it. *)
Lemma list_min_in l t : list_min l = Some t → t ∈ l.
Proof.
  destruct l as [|x l]; [done|]. intros [= <-]. induction l as [|y l IH]; cbn; [by left|].
  destruct (Nat.min_dec y (foldr min x l)) as [-> | ->]; set_solver.
Qed.
Lemma unnoticed_le (f g : Future → bool) l :
  (∀ x, f x = true → g x = true) →
  length (filter (λ b, b = false) (g <$> l)) ≤ length (filter (λ b, b = false) (f <$> l)).
Proof.
  intros Hfg. induction l as [|x l IH]; [done|]. rewrite !fmap_cons, !filter_cons.
  specialize (Hfg x). repeat case_decide; cbn [length]; [lia| |lia|lia]. destruct (f x); naive_solver.
Qed.
Lemma wake_spec R s i f :
  walk_ok s → ws_futures s !! i = Some f → f_noticed f = false →
  ∃ s', wake s = Some s' ∧ walk_ok s' ∧ potential R s' + 2 ≤ potential R s ∧ ws_ruleIndex s' = ws_ruleIndex s ∧
        length (ws_futures s') = length (ws_futures s).
Proof.
  intros [Hr Hn] Hf Hb. unfold wake.
  set (l := filter (λ f, f_noticed f = false) (ws_futures s)).
  assert (f ∈ l) as Hin by (apply list_elem_of_filter; split; [done|by eapply list_elem_of_lookup_2]).
  destruct (list_min (f_done <$> l)) as [t|] eqn:Ht.
  2: { destruct l; [by apply elem_of_nil in Hin|done]. }
  apply list_min_in, list_elem_of_fmap in Ht as (g & Htg & [Hg Hgin]%list_elem_of_filter).
  eexists. split; [reflexivity|]. set (clock := max (ws_clock s) t). split_and!; [| |done|by cbn; rewrite length_fmap].
  - split; cbn.
    + intros j Hj. rewrite length_fmap. apply Hr, Hj.
    + intros j h Hh Hm. apply list_lookup_fmap_Some in Hh as (h' & -> & Hh). cbn in *.
      apply orb_true_iff in Hm as [Hm|Hm%bool_decide_eq_true]; [|done]. specialize (Hn j h' Hh Hm). lia.
  - unfold potential. cbn [ws_armed upd_futures upd_time ws_ruleIndex].
    match goal with |- context [no_terminal ?x] => change (no_terminal x) with (no_terminal s) end.
    assert (∀ l, f_done <$> (set_noticed clock <$> l) = f_done <$> l) as Hd
      by (intros l'; rewrite <- list_fmap_compose; by apply list_fmap_ext).
    unfold unresolved, done_times. cbn [ws_futures upd_futures upd_time ws_clock]. rewrite Hd.
    pose proof (late_mono (ws_clock s) clock (f_done <$> ws_futures s) ltac:(lia)).
    enough (unnoticed (upd_futures (set_noticed clock <$> ws_futures s) (upd_time clock (S (ws_looks s)) s)) <
            unnoticed s) by lia.
    unfold unnoticed, noticed. cbn [ws_futures upd_futures]. rewrite <- list_fmap_compose.
    apply list_elem_of_split in Hgin as (l1 & l2 & ->). rewrite !fmap_app, !fmap_cons, !filter_app, !filter_cons.
    rewrite !length_app. cbn [compose set_noticed f_noticed]. rewrite Hg, bool_decide_eq_true_2 by lia. cbn [orb].
    rewrite decide_False, decide_True by done. cbn [length].
    assert (∀ x, f_noticed x = true → (f_noticed ∘ set_noticed clock) x = true) as Hmono by (by cbn; intros x ->).
    pose proof (unnoticed_le _ _ l1 Hmono). pose proof (unnoticed_le _ _ l2 Hmono).
    unfold compose in *. lia.
Qed.

(** Whether the wait a suspension asks for is over. *)
Definition ticket (x : dnsWalkSuspension) (s : dnsRuleWalkState) : bool :=
  match x with
  | SuspendAwait i => match ws_futures s !! i with Some f => bool_decide (f_done f ≤ ws_clock s) | None => false end
  | SuspendDrain => negb (nonempty (ws_armed s))
  | SuspendPending _ => false
  end.
Lemma suspended_ticket x s : suspended x s → ticket x s = false.
Proof.
  destruct x as [i| |p]; cbn; [|by intros ->%nonempty_cons|done].
  intros (f & -> & Hf). apply bool_decide_eq_false. lia.
Qed.

(** A wait that ends between two looks has used up some potential. *)
Lemma await_spent R i s s' f :
  quiet s s' → ticket (SuspendAwait i) s = false → ws_futures s' !! i = Some f → f_done f ≤ ws_clock s' →
  potential R s' < potential R s.
Proof.
  intros Hq Ht Hf Hd. destruct (quiet_future _ _ _ _ Hq Hf) as (f' & Hf' & Hd' & _).
  cbn in Ht. rewrite Hf' in Ht. apply bool_decide_eq_false in Ht.
  pose proof (q_clock _ _ Hq) as Hc. pose proof (armed_count _ _ (q_armed _ _ Hq)).
  assert (unresolved s' < unresolved s).
  { unfold unresolved. rewrite (q_done _ _ Hq). apply (late_strict _ _ _ (f_done f)); [done| |lia|done].
    unfold done_times. apply list_elem_of_fmap. exists f'. split; [done|by eapply list_elem_of_lookup_2]. }
  unfold potential, unnoticed, no_terminal. rewrite (q_noticed _ _ Hq), (q_index _ _ Hq), (q_terminal _ _ Hq). lia.
Qed.
Lemma drain_spent R s s' :
  quiet s s' → ticket SuspendDrain s = false → ws_armed s' = [] → potential R s' < potential R s.
Proof.
  intros Hq Ht Ha. cbn in Ht. apply negb_false_iff in Ht.
  pose proof (late_mono _ _ (done_times s) (q_clock _ _ Hq)). unfold potential, unnoticed, unresolved, no_terminal.
  rewrite (q_noticed _ _ Hq), (q_index _ _ Hq), (q_terminal _ _ Hq), (q_done _ _ Hq), Ht, Ha.
  change (b2n (nonempty [])) with 0. change (b2n true) with 1. lia.
Qed.

Definition returns (o : outcome) : Prop :=
  match o with Returned _ s => Forall (λ f, f_canceled f = true) (ws_futures s) | _ => False end.
Lemma return_returns x : returns (return_ x).
Proof. destruct x as [r s]. cbn. apply Forall_fmap, Forall_true. done. Qed.

Section loop.
Context (rules : list DNSRule) (fuel : nat).
Local Abbreviation R := (length rules).
Hypothesis IH : ∀ x s, between R x s → potential R s + b2n (ticket x s) < fuel →
  returns (resumeExchangeWithRules W fuel rules x s).

Lemma wait_returns x s i f :
  between R x s → ws_futures s !! i = Some f → f_noticed f = false → potential R s ≤ fuel →
  returns (if we_canceled W (ws_looks s) then return_ (failed None ctx_err, s)
           else match wake s with None => Blocked | Some s => resumeExchangeWithRules W fuel rules x s end).
Proof.
  intros [Hok Hi Ha] Hf Hn Hp. destruct (we_canceled _ _); [apply return_returns|].
  destruct (wake_spec R _ _ _ Hok Hf Hn) as (s' & -> & Hok' & Hp' & Hi' & Hl'). apply IH.
  - split; [done|congruence|]. rewrite Hl'. done.
  - unfold b2n. destruct (ticket x s'); lia.
Qed.
Lemma walk_returns s :
  walk_ok s → ws_ruleIndex s ≤ R → potential R s < fuel →
  returns match walkDNSRules W rules s with
          | (WalkResult r, s) => return_ (r, s)
          | (WalkSuspend x, s) => resumeExchangeWithRules W fuel rules x s
          end.
Proof.
  intros Hok Hi Hp. destruct (walkDNSRules W rules s) as [[r|x] s'] eqn:Hw; [apply return_returns|].
  apply walk_stops in Hw as (Hb & Hs & Hp'); [|done..]. apply IH; [done|]. rewrite (suspended_ticket _ _ Hs). cbn [b2n]. lia.
Qed.
End loop.

Lemma resume_returns rules fuel : ∀ x s,
  between (length rules) x s → potential (length rules) s + b2n (ticket x s) < fuel →
  returns (resumeExchangeWithRules W fuel rules x s).
Proof.
  induction fuel as [|fuel IH]; intros x s [Hok Hidx Haw] Hfuel; [lia|]. cbn [resumeExchangeWithRules].
  destruct (settle_quiet s) as [Hq1 _]. pose proof (quiet_ok _ _ Hq1 Hok) as Hok1.
  destruct (sweepArmedDNSRules W (settleDNSFutures W s)) as [c s2] eqn:Hs.
  apply sweep_spec in Hs as [Hq2 Hw]; [|done]. pose proof (quiet_ok _ _ Hq2 Hok1) as Hok2.
  assert (quiet s s2) as Hq by (by trans (settleDNSFutures W s)).
  destruct c as [[r|p]|]; [apply return_returns..|]. specialize (Hw eq_refl).
  assert (∀ s3, quiet s s3 → walk_ok s3 → between (length rules) x s3 ∧ potential (length rules) s3 ≤ potential (length rules) s)
    as Hbt.
  { intros s3 Hq3 Hok3. split; [|by apply quiet_potential].
    split; [done|by rewrite (q_index _ _ Hq3)|rewrite (quiet_length _ _ Hq3); done]. }
  destruct x as [i| |p]; [| |apply return_returns].
  - destruct (resolved W i s2) as [b s3] eqn:Hr. apply resolved_spec in Hr as (Hq3 & _ & Hb & Hfs).
    assert (quiet s s3) as Hq' by (by trans s2). destruct (Hbt s3 Hq' (quiet_ok _ _ Hq3 Hok2)) as [Hb3 Hp3].
    pose proof (bt_await _ _ _ Hb3 i eq_refl) as [f Hf]%lookup_lt_is_Some.
    destruct b.
    + destruct (proj1 Hb eq_refl) as (f' & Hf' & Hd). apply walk_returns; [done|apply Hb3|apply Hb3|].
      destruct (ticket (SuspendAwait i) s) eqn:Ht; cbn [b2n] in Hfuel; [lia|].
      pose proof (await_spent (length rules) _ _ _ _ Hq' Ht Hf' Hd). lia.
    + eapply wait_returns; [done|done|done| |lia]. apply not_true_is_false. intros Hn.
      pose proof (ok_noticed _ (bt_ok _ _ _ Hb3) i f Hf Hn). naive_solver.
  - destruct (Hbt s2 Hq Hok2) as [Hb2 Hp2]. destruct (nonempty (ws_armed s2)) eqn:Ha.
    + apply nonempty_cons in Ha. destruct (ws_armed s2) as [|a l]; [done|].
      apply Forall_cons_1 in Hw as [(i & f & _ & Hf & Hn) _]. eapply wait_returns; [done|done|done|done|lia].
    + apply nonempty_nil in Ha. apply walk_returns; [done|done|apply Hb2|].
      destruct (ticket SuspendDrain s) eqn:Ht; cbn [b2n] in Hfuel; [lia|].
      pose proof (drain_spent (length rules) _ _ Hq Ht Ha). lia.
Qed.

Lemma walk_start_ok options metadata : walk_ok (walk_start options metadata).
Proof. split; [|done]. by intros i [Hi|[[t Ht]|[[k Hk]|(a & Ha%elem_of_nil & _)]]]. Qed.
Lemma exchange_done rules options metadata fuel :
  4 * length rules + 5 ≤ fuel → returns (exchangeWithRules W fuel rules options metadata).
Proof.
  intros Hfuel. apply walk_returns; [intros x s; apply resume_returns|apply walk_start_ok|cbn; lia|].
  change (potential (length rules) (walk_start options metadata)) with (4 * (length rules - 0 + 1)). lia.
Qed.

(** ** Theorems *)

(** (C5) A DNS query always ends.  Whatever the rules (race and speculative
    rules included), the answers of the network and the moments they arrive
    at, the exchange returns: the walker never sleeps without a wake-up to
    come, and its loop turns at most [4 * rules + 5] times.  Every exchange it
    started is canceled when it returns. *)
Theorem exchange_returns rules options metadata fuel :
  4 * length rules + 5 ≤ fuel →
  ∃ r s, exchangeWithRules W fuel rules options metadata = Returned r s ∧
         Forall (λ f, f_canceled f = true) (ws_futures s).
Proof.
  intros Hfuel%(exchange_done rules options metadata). destruct (exchangeWithRules _ _ _ _ _); [eauto|done..].
Qed.

(** A pending exchange without a future is what the callback variant sends. *)
Lemma resume_pending rules fuel transport o s :
  ws_armed s = [] →
  ∃ s', resumeExchangeWithRules W (S fuel) rules (SuspendPending (MkPending transport o None)) s =
        Returned (last_exchange W transport o (cancelDNSFutures s)) s'.
Proof.
  intros Ha. cbn [resumeExchangeWithRules]. destruct (settle_quiet s) as [Hq Ha'].
  unfold sweepArmedDNSRules. rewrite Ha', Ha. cbn [sweep_go]. unfold return_, finishPendingExchange. cbn [pe_future fst snd].
  eexists. f_equal. unfold last_exchange. cbn. by rewrite length_imap, length_fmap, (quiet_length _ _ Hq).
Qed.

(** (C24) The callback variant answers as the blocking one: it returns too, and
    what it hands to the callback is what [exchangeWithRules] returns. *)
Theorem async_same_result rules options metadata fuel :
  4 * length rules + 5 ≤ fuel →
  ∃ r s s', exchangeWithRules W fuel rules options metadata = Returned r s ∧
            exchangeWithRulesAsync W fuel rules options metadata = Returned r s' ∧
            Forall (λ f, f_canceled f = true) (ws_futures s').
Proof.
  intros Hfuel. pose proof (exchange_done rules options metadata fuel Hfuel) as Hret.
  unfold exchangeWithRules, exchangeWithRulesAsync in *.
  destruct (walkDNSRules W rules (walk_start options metadata)) as [[r|x] s] eqn:Hw.
  { eexists _, _, _. split_and!; [done|done|]. exact (return_returns (r, s)). }
  assert (∀ o, returns o → ∃ r s s', o = Returned r s ∧ o = Returned r s' ∧
            Forall (λ f, f_canceled f = true) (ws_futures s')) as Hsame by (intros []; naive_solver).
  destruct x as [i| |[transport o [i|]]]; try (by apply Hsame).
  apply walk_stops in Hw as (_ & Hs & _); [|apply walk_start_ok|cbn; lia].
  destruct fuel as [|fuel]; [lia|]. destruct (resume_pending rules fuel transport o s Hs) as [s' Hr].
  eexists _, _, _. split_and!; [done|done|]. cbn. apply Forall_fmap, Forall_true. done.
Qed.
End live.
