(* ===== verification/DnsSeq.v ===== *)
(** * Waiting for futures is invisible

    [seq_walk] is what a list of DNS rules without [race] means: the rules in
    order, each [evaluate] answered before the next rule is looked at.  The
    walker of [DnsWalk], which sends the queries of [evaluate] and goes on, gives
    the same answer; this is where the claim that a rule may only read the
    responses it binds ([match_response]) is needed.  The last section shows the
    schedule in which the walker itself breaks it. *)

From S2P Require Import Prelude GoStrings NetAddr RuleContext RuleItems RuleMatch RuleSpec DnsActions DnsWalk DnsLive.

Local Open Scope nat_scope.

(** ** Rules read the responses they bind, and no others *)

Definition item_ok (inside : bool) (it : RuleItem) : bool :=
  match it with
  | DNSResponseRCodeItem _ | DNSResponseRecordItem _ _ _ => inside
  | PreferredByItem _ _ => false                           (* not an item of DNS rules *)
  | _ => true
  end.
Section plain.
Variable plain : Rule → bool.
Definition plain_default (inside : bool) (r : default_rule) : bool :=
  forallb (item_ok inside) (items r) && forallb (item_ok inside) (sourceAddressItems r) &&
  forallb (item_ok inside) (sourcePortItems r) && forallb (item_ok inside) (destinationAddressItems r) &&
  forallb (item_ok inside) (destinationIPCIDRItems r) && forallb (item_ok inside) (destinationPortItems r) &&
  match ruleSetItem r with Some i => forallb (λ s, forallb plain (rs_rules s)) (setList i) | None => true end.
End plain.
(** The rules of rule-sets: [inside] a rule with [match_response]. *)
Fixpoint plain (inside : bool) (rule : Rule) : bool :=
  match rule with
  | DefaultHeadlessRule r | DefaultRule r => plain_default (plain inside) inside r
  | DefaultDNSRule _ _ _ => false
  | LogicalRule l => forallb (plain inside) (l_rules l)
  end.
Fixpoint scoped (rule : Rule) : bool :=
  match rule with
  | DefaultDNSRule r matchResponse _ => plain_default (plain matchResponse) matchResponse r
  | LogicalRule l => forallb scoped (l_rules l)
  | DefaultHeadlessRule _ | DefaultRule _ => plain false rule
  end.

(** Requests that differ in the responses a rule does not look at. *)
Definition strip (q : Request) : Request :=
  MkRequest (md_Inbound q) (md_IPVersion q) (md_Network q) (md_Source q) (md_Destination q) (md_User q)
    (md_Outbound q) (md_Protocol q) (md_Domain q) (md_Client q) (md_DestinationAddresses q)
    None ∅ (md_DestinationAddressMatchFromResponse q) (md_ProcessInfo q)
    (md_SourceMACAddress q) (md_SourceHostname q) (md_QueryType q) (md_QueryClientSubnet q)
    (md_QueryDNSSEC q) (md_PreMatch q).
Definition agree (inside : bool) (q q' : Request) : Prop :=
  strip q = strip q' ∧ md_DestinationAddressMatchFromResponse q = inside ∧
  (inside = true → md_DNSResponse q = md_DNSResponse q').

Section blind.
Context `{UnicodeTables} (E : RuleEnv).

Lemma item_blind inside it q q' src acc :
  agree inside q q' → item_ok inside it = true →
  RuleItem_Match E it (ctx q src acc) = RuleItem_Match E it (ctx q' src acc).
Proof.
  destruct q, q'. intros (Hs & Hf & Hr) Hi. cbn in *. unfold strip in Hs. cbn in Hs.
  injection Hs as -> -> -> -> -> -> -> -> -> -> -> -> -> -> -> -> -> ->.
  destruct inside.
  - rewrite Hr by done. by destruct it.
  - subst. by destruct it.
Qed.
Lemma any_blind inside l q q' src acc :
  agree inside q q' → forallb (item_ok inside) l = true →
  matchAnyItem E l (ctx q src acc) = matchAnyItem E l (ctx q' src acc).
Proof. intros Ha Hl. apply matchAnyItem_ext. intros it Hit. by eapply item_blind, forallb_elem. Qed.
Lemma all_blind inside l q q' src acc :
  agree inside q q' → forallb (item_ok inside) l = true →
  matchAllItems E l (ctx q src acc) = matchAllItems E l (ctx q' src acc).
Proof. intros Ha Hl. apply matchAllItems_ext. intros it Hit. by eapply item_blind, forallb_elem. Qed.
Lemma cond_blind inside l q q' src acc :
  agree inside q q' → forallb (item_ok inside) l = true → cond E l (ctx q src acc) = cond E l (ctx q' src acc).
Proof. intros Ha Hl. unfold cond. by rewrite (any_blind inside l q q'). Qed.

Lemma groups_blind p inside r q q' src acc :
  agree inside q q' → plain_default p inside r = true →
  doc_groups E false r (ctx q src acc) = doc_groups E false r (ctx q' src acc) ∧
  matchAllItems E (items r) (ctx q src acc) = matchAllItems E (items r) (ctx q' src acc).
Proof.
  intros Ha Hp. unfold plain_default in Hp. rewrite !andb_true_iff in Hp.
  destruct Hp as ((((((Hi & Hsa) & Hsp) & Hda) & Hdc) & Hdp) & _).
  split; [|by apply (all_blind inside)]. unfold doc_groups.
  rewrite (cond_blind inside _ q q' src acc Ha Hsa), (cond_blind inside _ q q' src acc Ha Hsp),
    (cond_blind inside _ q q' src acc Ha Hda), (cond_blind inside _ q q' src acc Ha Hdc),
    (cond_blind inside _ q q' src acc Ha Hdp). done.
Qed.

Lemma default_blind inside r q q' src acc :
  agree inside q q' → plain_default (plain inside) inside r = true →
  Forall (λ rule, plain inside rule = true → ∀ src acc, spec_match E rule q src acc = spec_match E rule q' src acc)
    (match ruleSetItem r with Some i => setList i ≫= rs_rules | None => [] end) →
  doc_default E (spec_match E) r q src acc = doc_default E (spec_match E) r q' src acc.
Proof.
  intros Ha Hp IH. unfold doc_default. destruct (no_conditions r); [done|]. f_equal. unfold doc_inner.
  destruct (groups_blind _ inside r q q' src acc Ha Hp) as [-> ->]. f_equal.
  unfold plain_default in Hp. rewrite !andb_true_iff in Hp. destruct Hp as [_ Hsets].
  destruct (ruleSetItem r) as [i|]; [|done]. apply existsb_ext_in. intros s Hs.
  pose proof (forallb_in _ _ _ Hsets Hs) as Hplain. cbn in Hplain.
  assert (∀ rule, rule ∈ rs_rules s → ∀ src acc, spec_match E rule q src acc = spec_match E rule q' src acc) as Hrule.
  { intros rule Hin. rewrite Forall_forall in IH. apply IH; [|by eapply forallb_in].
    apply list_elem_of_bind. eauto. }
  unfold doc_set. destruct (mergeableRule s) as [branch|] eqn:Hm.
  - apply mergeable_inv in Hm as [Hrs _].
    rewrite Hrs in Hplain. cbn [forallb] in Hplain. rewrite andb_true_r in Hplain.
    by destruct (groups_blind _ inside branch q q' (ipCidrMatchSource i) (ipCidrAcceptEmpty i) Ha Hplain) as [-> ->].
  - f_equal. apply existsb_ext_in. auto.
Qed.

Lemma plain_blind inside q q' rule :
  agree inside q q' → plain inside rule = true →
  ∀ src acc, spec_match E rule q src acc = spec_match E rule q' src acc.
Proof.
  intros Ha. induction rule as [rule IH] using Rule_deep_ind. intros Hp src acc.
  destruct rule as [r|r|r mr tag|l]; cbn in Hp |- *; [by apply (default_blind inside)..|done|].
  unfold spec_logical. f_equal. cbn in IH. rewrite Forall_forall in IH.
  destruct (l_mode l); [apply forallb_ext_in|apply existsb_ext_in]; intros rule Hin; apply IH; try done;
    by eapply forallb_in.
Qed.

(** The responses a rule binds are all it sees. *)
Definition same_bound `{UniqOrder} (rule : Rule) (q q' : Request) : Prop :=
  (MatchResponseAnonymous rule = true → md_DNSResponse q = md_DNSResponse q') ∧
  (∀ tag, tag ∈ MatchResponseTags rule → md_NamedDNSResponses q !! tag = md_NamedDNSResponses q' !! tag).
Lemma same_bound_sub `{UniqOrder} l rule q q' :
  same_bound (LogicalRule l) q q' → rule ∈ l_rules l → same_bound rule q q'.
Proof.
  intros [Ha Ht] Hin. split.
  - intros Hr. apply Ha. cbn. apply existsb_exists. exists rule. split; [by apply list_elem_of_In|done].
  - intros tag Htag. apply Ht. cbn. apply Uniq_elem, list_elem_of_In, in_concat.
    exists (MatchResponseTags rule). split; [apply List.in_map; by apply list_elem_of_In|by apply list_elem_of_In].
Qed.
Lemma bound_blind `{UniqOrder} q q' rule :
  agree false q q' → scoped rule = true → same_bound rule q q' →
  ∀ src acc, spec_match E rule q src acc = spec_match E rule q' src acc.
Proof.
  intros Ha. induction rule as [rule IH] using Rule_deep_ind. intros Hp Hb src acc.
  destruct rule as [r|r|r mr tag|l]; [by apply (plain_blind false)..| |].
  - cbn in Hp |- *. destruct mr.
    + assert ((if bool_decide (tag = ""%string) then md_DNSResponse q else md_NamedDNSResponses q !! tag) =
              (if bool_decide (tag = ""%string) then md_DNSResponse q' else md_NamedDNSResponses q' !! tag)) as ->.
      { destruct Hb as [Hx Ht]. cbn in Hx, Ht. case_bool_decide; [by apply Hx|]. apply Ht. by left. }
      destruct (if bool_decide _ then _ else _) as [response|]; [|done].
      assert (agree true (with_response (Some response) true q) (with_response (Some response) true q')) as Ha'.
      { destruct q, q', Ha as (Hs & _). unfold strip in Hs. cbn in Hs. injection Hs. intros. subst. by split. }
      apply (default_blind true); [done|done|]. apply Forall_forall. intros rule _ Hr. by apply (plain_blind true).
    + apply (default_blind false); [done|done|]. apply Forall_forall. intros rule _ Hr. by apply (plain_blind false).
  - cbn in IH, Hp |- *. unfold spec_logical. f_equal. rewrite Forall_forall in IH.
    destruct (l_mode l); [apply forallb_ext_in|apply existsb_ext_in]; intros rule Hin;
      (apply IH; [done|by eapply forallb_in|by eapply same_bound_sub]).
Qed.
End blind.

(** ** The sequential reference *)

(** What is known while the rules are walked: responses with the transport
    they came from, and the number of exchanges sent. *)
Definition answered : Type := Transport * result Message.
Definition answer_of (a : answered) : option Message := match a.2 with Ok m => Some m | _ => None end.
Record seq_state := MkSeq {
  sq_options : DNSQueryOptions;
  sq_anonymous : option answered;
  sq_named : gmap string answered;
  sq_sent : nat;
}.
Definition sq_responses (q : seq_state) : gmap string Message := omap answer_of (sq_named q).
Definition respond_with (a : option answered) : exchange_result :=
  match (x ← a; answer_of x) with
  | Some m => answer_from (Some m) (fst <$> a)
  | None => respond_missing
  end.

Section sequential.
Context `{UnicodeTables, UniqOrder} (W : WalkEnv) (request : Request).

Definition ask (q : seq_state) (transport : Transport) (options : DNSQueryOptions) : answered :=
  (transport, (we_net W (sq_sent q) transport (finalizeExchangeOptions (we_strategy W) options)).1).
Definition seq_matches (rule : DNSRule) (q : seq_state) : bool :=
  spec_match (we_rule W) (dr_rule rule)
    (with_responses (x ← sq_anonymous q; answer_of x) (sq_responses q) request) false false.

(** An action ends the walk or changes what is known. *)
Definition seq_action (rule : DNSRule) (q : seq_state) : exchange_result + seq_state :=
  match dr_action rule with
  | None => inr q
  | Some (ActionDNSRouteOptions o) =>
      inr (MkSeq (applyDNSRouteOptions (sq_options q) o) (sq_anonymous q) (sq_named q) (sq_sent q))
  | Some (ActionEvaluate server tag _ o) =>
      match tm_Transport (we_transports W) server with
      | None => inr (MkSeq (sq_options q) (if bool_decide (tag = ""%string) then None else sq_anonymous q)
                       (sq_named q) (sq_sent q))
      | Some transport =>
          let a := ask q transport (applyDNSRouteOptions (sq_options q) o) in
          inr (if bool_decide (tag = ""%string) then MkSeq (sq_options q) (Some a) (sq_named q) (S (sq_sent q))
               else MkSeq (sq_options q) (sq_anonymous q) (<[tag := a]> (sq_named q)) (S (sq_sent q)))
      end
  | Some ActionRespond =>
      let tag := MatchResponseTag (dr_rule rule) in
      inl (respond_with (if bool_decide (tag = ""%string) then sq_anonymous q else sq_named q !! tag))
  | Some (ActionDNSRoute server _ o) =>
      match resolveDNSRoute (we_transports W) server o (we_allowFakeIP W) (sq_options q) with
      | RouteResolved transport options => inl (exchanged transport (ask q transport options).2)
      | _ => inr q
      end
  | Some (ActionReject method noDrop) =>
      match reject_result W method noDrop with Some r => inl r | None => inr q end
  | Some (ActionPredefined rcode answer ns extra) => inl (predefined_result W rcode answer ns extra)
  end.
Fixpoint seq_walk (rules : list DNSRule) (q : seq_state) : exchange_result :=
  match rules with
  | [] => let transport := tm_Default (we_transports W) in exchanged transport (ask q transport (sq_options q)).2
  | rule :: rules =>
      if seq_matches rule q then
        match seq_action rule q with inl r => r | inr q => seq_walk rules q end
      else seq_walk rules q
  end.
End sequential.

(** ** The walker and the reference side by side *)

(** Looking at futures only lets time pass; none, when the clock moves in
    waits only. *)
Definition no_pass (W : WalkEnv) : Prop := ∀ n, we_pass W n = 0.
Record timed (W : WalkEnv) (s s' : dnsRuleWalkState) : Prop := {
  td_state : s' = upd_time (ws_clock s') (ws_looks s') s;
  td_clock : ws_clock s ≤ ws_clock s';
  td_calm : no_pass W → ws_clock s' = ws_clock s;
}.
#[export] Instance timed_preorder W : PreOrder (timed W).
Proof.
  split.
  - intros []. by split.
  - intros s1 s2 s3 [H12 Hc Hn] [H23 Hc' Hn']. split; [|lia|intros Hp; by rewrite Hn', Hn].
    rewrite H12 in H23. exact H23.
Qed.

Definition future_is (s : dnsRuleWalkState) (i : nat) (a : answered) : Prop :=
  ∃ f, ws_futures s !! i = Some f ∧ (f_transport f, f_result f) = a.
Definition same_future (s : dnsRuleWalkState) (o : option nat) (a : option answered) : Prop :=
  match o, a with None, None => True | Some i, Some a => future_is s i a | _, _ => False end.
(** What the responses taken so far say of a tag. *)
Definition settled_future (s : dnsRuleWalkState) (tag : string) : option Future :=
  i ← ws_namedFutures s !! tag; f ← ws_futures s !! i; if f_settled f then Some f else None.

Record sim (q0 : Request) (s : dnsRuleWalkState) (q : seq_state) : Prop := {
  sm_options : ws_options s = sq_options q;
  sm_sent : length (ws_futures s) = sq_sent q;
  sm_armed : ws_armed s = [];
  sm_terminal : ws_terminal s = None;
  sm_anonymous : same_future s (ws_anonymous s) (sq_anonymous q);
  sm_named tag : same_future s (ws_namedFutures s !! tag) (sq_named q !! tag);
  sm_tag i f : ws_futures s !! i = Some f → f_tag f ≠ ""%string → ws_namedFutures s !! f_tag f = Some i;
  sm_named_tag tag i f : ws_namedFutures s !! tag = Some i → ws_futures s !! i = Some f → f_tag f = tag ∧ tag ≠ ""%string;
  sm_responses tag :
    ws_namedResponses s !! tag = (f ← settled_future s tag; answer_of (f_transport f, f_result f));
  sm_transports tag : ws_namedTransports s !! tag = f_transport <$> settled_future s tag;
  sm_request r n : with_responses r n (request (ws_metadata s)) = with_responses r n q0;
  sm_ignoring : ignoring (ws_metadata s) = false;
}.

(** The responses a rule binds have come in, and have been taken. *)
Record ready `{UniqOrder} (rule : Rule) (s : dnsRuleWalkState) : Prop := {
  rd_anonymous i f : MatchResponseAnonymous rule = true → ws_anonymous s = Some i → ws_futures s !! i = Some f →
                     f_done f ≤ ws_clock s;
  rd_named tag i f : tag ∈ MatchResponseTags rule → ws_namedFutures s !! tag = Some i → ws_futures s !! i = Some f →
                     f_settled f = true;
}.

Section simulation.
Context `{UnicodeTables, UniqOrder} (W : WalkEnv) (q0 : Request).
#[local] Arguments resolved : simpl never.

Lemma resolved_timed i s b s' :
  resolved W i s = (b, s') → timed W s s' ∧ ∀ f, ws_futures s !! i = Some f → b = bool_decide (f_done f ≤ ws_clock s').
Proof.
  unfold resolved. intros [= <- <-]. split; [|by intros f ->]. split; [done|cbn; lia|]. intros Hp. cbn. rewrite Hp. lia.
Qed.
Lemma timed_futures s s' : timed W s s' → ws_futures s' = ws_futures s.
Proof. by intros [-> _ _]. Qed.
Lemma timed_sim s s' q : timed W s s' → sim q0 s q → sim q0 s' q.
Proof. intros [-> _ _] []. by split. Qed.
Lemma timed_ready rule s s' : timed W s s' → ready rule s → ready rule s'.
Proof.
  intros [Hs Hc _] [Ha Hn]. rewrite Hs. split; cbn; [|done]. intros i f Hm Hi Hf. specialize (Ha i f Hm Hi Hf). lia.
Qed.

Lemma future_view_timed i s v s' :
  future_view W i s = (v, s') →
  timed W s s' ∧ ∀ f, ws_futures s !! i = Some f → f_done f ≤ ws_clock s → v = answer_of (f_transport f, f_result f).
Proof.
  unfold future_view. destruct (resolved W i s) as [b s1] eqn:Hr. apply resolved_timed in Hr as [Ht Hb].
  intros [= <- <-]. split; [done|]. intros f Hf Hd. rewrite (Hb f Hf), bool_decide_eq_true_2.
  - unfold result_of. by rewrite (timed_futures _ _ Ht), Hf.
  - pose proof (td_clock _ _ _ Ht). lia.
Qed.
Lemma anonymous_timed s v s' : anonymousResponse W s = (v, s') → timed W s s'.
Proof.
  unfold anonymousResponse. destruct (ws_anonymous s); [|by intros [= _ <-]]. intros Hv.
  by apply future_view_timed in Hv as [? _].
Qed.
(** The anonymous response, once it is in. *)
Lemma anonymous_in s v s' q :
  sim q0 s q → anonymousResponse W s = (v, s') →
  (∀ i f, ws_anonymous s = Some i → ws_futures s !! i = Some f → f_done f ≤ ws_clock s) →
  v = (x ← sq_anonymous q; answer_of x).
Proof.
  intros Hs. pose proof (sm_anonymous _ _ _ Hs) as Ha. unfold anonymousResponse.
  destruct (ws_anonymous s) as [i|], (sq_anonymous q) as [a|]; try done; [|by intros [= <- _]].
  destruct Ha as (f & Hf & <-). intros Hv Hin. apply future_view_timed in Hv as [_ Hv]. cbn.
  apply (Hv f Hf). by apply (Hin i).
Qed.

Lemma first_unresolved_timed l s o s' :
  first_unresolved W l s = (o, s') →
  timed W s s' ∧ (o = None → ∀ i f, i ∈ l → ws_futures s !! i = Some f → f_done f ≤ ws_clock s').
Proof.
  revert s. induction l as [|j l IH]; intros s; cbn [first_unresolved].
  - intros [= <- <-]. split; [done|]. by intros _ i f ?%elem_of_nil.
  - destruct (resolved W j s) as [b s1] eqn:Hr. apply resolved_timed in Hr as [Ht Hb]. destruct b.
    + intros [Ht' Hl]%IH. split; [by trans s1|]. intros Ho i f [->|Hi]%elem_of_cons Hf.
      * specialize (Hb f Hf). symmetry in Hb. apply bool_decide_eq_true in Hb. pose proof (td_clock _ _ _ Ht'). lia.
      * apply (Hl Ho i f Hi). by rewrite (timed_futures _ _ Ht).
    + by intros [= <- <-].
Qed.

(** ** Taking the responses *)

(** The state after one response has been taken. *)
Section taken.
Context (i : nat) (f : Future) (s s' : dnsRuleWalkState).
Hypothesis Hf : ws_futures s !! i = Some f.
Hypothesis Hfs : ws_futures s' = <[i := set_settled f]> (ws_futures s).
Hypothesis Hnf : ws_namedFutures s' = ws_namedFutures s.

Lemma taken_settled tag :
  settled_future s' tag =
    if bool_decide (ws_namedFutures s !! tag = Some i) then Some (set_settled f) else settled_future s tag.
Proof.
  unfold settled_future. rewrite Hnf, Hfs. destruct (ws_namedFutures s !! tag) as [j|]; [|done]. cbn.
  case_bool_decide as Hj.
  - injection Hj as ->. rewrite list_lookup_insert_eq by (by eapply lookup_lt_Some). done.
  - rewrite list_lookup_insert_ne by congruence. done.
Qed.
Lemma taken_future o a : same_future s o a → same_future s' o a.
Proof.
  destruct o as [j|], a as [a|]; try done. intros (g & Hg & <-). unfold same_future, future_is. rewrite Hfs.
  destruct (decide (i = j)) as [<-|Hne].
  - exists (set_settled f). rewrite list_lookup_insert_eq by (by eapply lookup_lt_Some). by simplify_eq.
  - exists g. by rewrite list_lookup_insert_ne.
Qed.
Lemma taken_tag j g : ws_futures s' !! j = Some g → ∃ g', ws_futures s !! j = Some g' ∧ f_tag g' = f_tag g.
Proof. rewrite Hfs, list_lookup_insert_Some. intros [(<- & <- & _)|[_ Hg]]; eauto. Qed.

Lemma taken_sim q :
  sim q0 s q →
  ws_options s' = ws_options s → ws_armed s' = ws_armed s → ws_terminal s' = ws_terminal s →
  ws_anonymous s' = ws_anonymous s → ws_metadata s' = ws_metadata s →
  (∀ tag, ws_namedResponses s' !! tag = if bool_decide (ws_namedFutures s !! tag = Some i)
     then answer_of (f_transport f, f_result f) else ws_namedResponses s !! tag) →
  (∀ tag, ws_namedTransports s' !! tag = if bool_decide (ws_namedFutures s !! tag = Some i)
     then Some (f_transport f) else ws_namedTransports s !! tag) →
  sim q0 s' q.
Proof.
  intros [Ho Hl Har Hte Ha Hn Htg Hnt Hre Htr Hq Hi] Ho' Har' Hte' Ha' Hm' Hre' Htr'.
  split; [by rewrite Ho'|by rewrite Hfs, length_insert|by rewrite Har'|by rewrite Hte'|..].
  - rewrite Ha'. by apply taken_future.
  - intros tag. rewrite Hnf. by apply taken_future.
  - intros j g Hg Hne. destruct (taken_tag j g Hg) as (g' & Hg' & Heq). rewrite Hnf, <- Heq in *. by apply Htg.
  - rewrite Hnf. intros tag j g Hx Hg. destruct (taken_tag j g Hg) as (g' & Hg' & Heq). rewrite <- Heq. by apply (Hnt tag j).
  - intros tag. rewrite Hre', taken_settled, Hre. by case_bool_decide.
  - intros tag. rewrite Htr', taken_settled, Htr. by case_bool_decide.
  - by rewrite Hm'.
  - by rewrite Hm'.
Qed.
End taken.

Lemma settle_one_sim i s q : sim q0 s q → sim q0 (settle_one W i s) q.
Proof.
  intros Hs. unfold settle_one. destruct (ws_futures s !! i) as [f|] eqn:Hf; [|done].
  destruct (f_settled f) eqn:Hset; [done|]. destruct (resolved W i s) as [b s1] eqn:Hr.
  apply resolved_timed in Hr as [Ht Hb]. apply (timed_sim _ _ _ Ht) in Hs. specialize (Hb f Hf).
  rewrite <- (timed_futures _ _ Ht) in Hf. destruct b; cbn [negb]; [|done].
  symmetry in Hb. apply bool_decide_eq_true in Hb. clear Ht.
  set (s2 := upd_futures (<[i := set_settled f]> (ws_futures s1)) s1).
  assert (∀ tag, tag ≠ f_tag f ∨ f_tag f = ""%string → ws_namedFutures s1 !! tag ≠ Some i) as Hother
    by (intros tag Hne Hx; destruct (sm_named_tag _ _ _ Hs _ _ _ Hx Hf); naive_solver).
  case_bool_decide as Htag.
  - apply (taken_sim i f s1); try done; intros tag; rewrite bool_decide_eq_false_2 by auto; done.
  - destruct (future_view W i s2) as [v s3] eqn:Hv. apply future_view_timed in Hv as [Ht3 Hv].
    specialize (Hv (set_settled f)). cbn in Hv. rewrite list_lookup_insert_eq in Hv by (by eapply lookup_lt_Some).
    specialize (Hv eq_refl Hb). pose proof (sm_tag _ _ _ Hs i f Hf Htag) as Hown.
    destruct Ht3 as [Hs3 _ _]. rewrite Hs3. apply (taken_sim i f s1); try done; intros tag; cbn;
      (destruct (decide (tag = f_tag f)) as [->|Hne]; [rewrite bool_decide_eq_true_2 by done|
         rewrite bool_decide_eq_false_2 by auto]).
    + rewrite lookup_partial_alter_eq. done.
    + by rewrite lookup_partial_alter_ne.
    + by rewrite lookup_insert_eq.
    + by rewrite lookup_insert_ne.
Qed.
Lemma settle_sim s q : sim q0 s q → sim q0 (settleDNSFutures W s) q.
Proof.
  unfold settleDNSFutures. generalize (seq 0 (length (ws_futures s))) as l. intros l. revert s.
  induction l as [|i l IH]; intros s Hs; cbn [foldl]; [done|]. by apply IH, settle_one_sim.
Qed.

(** While the clock stands still, every response that is in is taken. *)
Definition calm_step (i : nat) (s s' : dnsRuleWalkState) : Prop :=
  ws_clock s' = ws_clock s ∧
  ∀ j g', ws_futures s' !! j = Some g' → ∃ g, ws_futures s !! j = Some g ∧ f_done g' = f_done g ∧
            (f_settled g = true ∨ (j = i ∧ f_done g ≤ ws_clock s) → f_settled g' = true).
Lemma settle_one_calm i s : no_pass W → calm_step i s (settle_one W i s).
Proof.
  intros Hp. unfold settle_one. destruct (ws_futures s !! i) as [f|] eqn:Hf.
  2: { split; [done|]. intros j g Hg. exists g. split_and!; [done..|]. intros [?|[-> _]]; by simplify_eq. }
  destruct (f_settled f) eqn:Hset.
  { split; [done|]. intros j g Hg. exists g. split_and!; [done..|]. intros [?|[-> _]]; by simplify_eq. }
  destruct (resolved W i s) as [b s1] eqn:Hr. apply resolved_timed in Hr as [Ht Hb]. specialize (Hb f Hf).
  pose proof (td_calm _ _ _ Ht Hp) as Hc. rewrite Hc in Hb. pose proof (timed_futures _ _ Ht) as Hfs.
  destruct b; cbn [negb]; symmetry in Hb.
  - set (s2 := upd_futures (<[i := set_settled f]> (ws_futures s1)) s1).
    assert (∀ s3, ws_futures s3 = ws_futures s2 → ws_clock s3 = ws_clock s2 → calm_step i s s3) as Hdone.
    { intros s3 Hf3 Hc3. split; [by rewrite Hc3|]. intros j g'. rewrite Hf3. cbn.
      rewrite Hfs, list_lookup_insert_Some. intros [(<- & <- & _)|[Hne Hg]]; [by eauto|].
      exists g'. split_and!; [done..|]. by intros [?|[-> _]]. }
    destruct (bool_decide (f_tag f = ""%string)); [by apply Hdone|]. destruct (future_view W i s2) as [v s3] eqn:Hv.
    apply future_view_timed in Hv as [Ht3 _]. apply Hdone; [exact (timed_futures _ _ Ht3)|exact (td_calm _ _ _ Ht3 Hp)].
  - apply bool_decide_eq_false in Hb. split; [done|]. intros j g. rewrite Hfs. intros Hg. exists g.
    split_and!; [done..|]. intros [?|[-> ?]]; [done|]. simplify_eq. lia.
Qed.
Lemma settle_calm s j g :
  no_pass W → ws_futures (settleDNSFutures W s) !! j = Some g →
  f_done g ≤ ws_clock (settleDNSFutures W s) → f_settled g = true.
Proof.
  intros Hp. unfold settleDNSFutures.
  assert (∀ l s, ws_futures (foldl (λ s i, settle_one W i s) s l) !! j = Some g →
            f_done g ≤ ws_clock (foldl (λ s i, settle_one W i s) s l) →
            ∃ g0, ws_futures s !! j = Some g0 ∧ f_done g0 ≤ ws_clock s ∧
                  (j ∈ l ∨ f_settled g0 = true → f_settled g = true)) as Hfold.
  { intros l. induction l as [|i l IH]; intros s'; cbn [foldl].
    - intros Hg Hd. exists g. split_and!; [done..|]. by intros [?%elem_of_nil|].
    - intros Hg Hd. destruct (IH _ Hg Hd) as (g1 & Hg1 & Hd1 & Hs1).
      destruct (settle_one_calm i s' Hp) as [Hc Hstep]. destruct (Hstep j g1 Hg1) as (g0 & Hg0 & Hd0 & Hs0).
      rewrite Hc, Hd0 in Hd1. exists g0. split_and!; [done..|].
      intros [[->|?]%elem_of_cons|?]; apply Hs1; auto. }
  intros Hg Hd. destruct (Hfold _ s Hg Hd) as (g0 & Hg0 & _ & Hs). apply Hs. left.
  apply elem_of_seq. apply lookup_lt_Some in Hg0. lia.
Qed.

(** ** One rule *)

(** Once the bound responses are in, the rule matches as in the reference. *)
Lemma match_seq rule response s b s' q :
  sim q0 s q → scoped (dr_rule rule) = true → ready (dr_rule rule) s →
  (MatchResponseAnonymous (dr_rule rule) = true → response = (x ← sq_anonymous q; answer_of x)) →
  match_with W rule response s = (b, s') →
  b = seq_matches W q0 rule q ∧ sim q0 s' q ∧ (∀ r, ready r s → ready r s') ∧ ws_ruleIndex s' = ws_ruleIndex s ∧
  ws_namedFutures s' = ws_namedFutures s.
Proof.
  intros Hs Hsc Hrd Hresp. unfold match_with.
  set (m := MkContext _ _). pose proof (rule_Match_exact (we_rule W) (dr_rule rule) m eq_refl) as Hex.
  change (ignoring m) with (ignoring (ws_metadata s)) in Hex. destruct (Hex (sm_ignoring _ _ _ Hs)) as (Hb & _ & Hk).
  destruct (rule_Match (we_rule W) (dr_rule rule) m) as [b' m']. cbn [fst snd] in *. intros [= <- <-]. split_and!.
  - rewrite Hb. unfold m. cbn [request cache]. unfold seq_matches.
    change (request (ResetRuleCache (ws_metadata s))) with (request (ws_metadata s)).
    rewrite (sm_request _ _ _ Hs). eapply bound_blind; [by split|done|]. split; cbn.
    + intros Ha. by rewrite Hresp.
    + intros tag Ht. rewrite !lookup_fmap. f_equal. rewrite (sm_responses _ _ _ Hs). unfold sq_responses.
      rewrite lookup_omap. unfold settled_future.
      pose proof (sm_named _ _ _ Hs tag) as Hn. pose proof (rd_named _ _ Hrd tag) as Hset.
      destruct (ws_namedFutures s !! tag) as [i|], (sq_named q !! tag) as [a|]; try done.
      destruct Hn as (f & Hf & <-). cbn. rewrite Hf. cbn. by rewrite (Hset i f Ht eq_refl Hf).
  - destruct Hs as [Ho Hl Har Hte Ha Hn Htg Hnt Hre Htr Hq Hi]. split; try done; cbn.
    + intros r n. rewrite (keeps_request _ _ Hk). cbn. apply Hq.
    + destruct Hk as [_ ->]. done.
  - intros r [Hra Hrn]. by split.
  - done.
  - done.
Qed.

(** ** Actions *)

Section launch.
Context (s s' : dnsRuleWalkState) (f : Future) (q : seq_state).
Hypothesis Hs : sim q0 s q.
Hypothesis Hfs : ws_futures s' = ws_futures s ++ [f].
Hypothesis Hset : f_settled f = false.
Hypothesis Hrest : ws_options s' = ws_options s ∧ ws_armed s' = ws_armed s ∧ ws_terminal s' = ws_terminal s ∧
  ws_namedResponses s' = ws_namedResponses s ∧ ws_namedTransports s' = ws_namedTransports s ∧
  ws_metadata s' = ws_metadata s.

Lemma launched_future o a : same_future s o a → same_future s' o a.
Proof.
  destruct o as [i|], a as [a|]; try done. intros (g & Hg & <-). exists g. rewrite Hfs. split; [|done].
  by apply lookup_app_l_Some.
Qed.
Lemma launched_new : same_future s' (Some (length (ws_futures s))) (Some (f_transport f, f_result f)).
Proof. exists f. rewrite Hfs, lookup_app_r, Nat.sub_diag by lia. done. Qed.
Lemma launched_inv i g :
  ws_futures s' !! i = Some g → ws_futures s !! i = Some g ∨ (i = length (ws_futures s) ∧ g = f).
Proof.
  rewrite Hfs. intros [?|[Hi Hg]]%lookup_app_Some; [by left|]. right.
  destruct (i - length (ws_futures s)) as [|k] eqn:Hk; [|by destruct k]. cbn in Hg. simplify_eq. split; [lia|done].
Qed.
Lemma named_lt tag i : ws_namedFutures s !! tag = Some i → i < length (ws_futures s).
Proof.
  intros Hi. pose proof (sm_named _ _ _ Hs tag) as Hn. rewrite Hi in Hn.
  destruct (sq_named q !! tag); [|done]. destruct Hn as (g & Hg & _). by eapply lookup_lt_Some.
Qed.
Lemma settled_named tag i :
  ws_namedFutures s !! tag = Some i → ws_namedFutures s' !! tag = Some i → settled_future s' tag = settled_future s tag.
Proof.
  intros Hi Hi'. unfold settled_future. rewrite Hi, Hi', Hfs. cbn. rewrite lookup_app_l; [done|]. by eapply named_lt.
Qed.

Lemma launch_anonymous_sim :
  f_tag f = ""%string → ws_anonymous s' = Some (length (ws_futures s)) → ws_namedFutures s' = ws_namedFutures s →
  sim q0 s' (MkSeq (sq_options q) (Some (f_transport f, f_result f)) (sq_named q) (S (sq_sent q))).
Proof.
  intros Htag Ha' Hn'. pose proof named_lt as Hlt. pose proof settled_named as Hsn.
  destruct Hrest as (Ho' & Har' & Hte' & Hr' & Ht' & Hm').
  destruct Hs as [Ho Hl Har Hte Ha Hn Htg Hnt Hre Htr Hq Hi].
  assert (∀ tag, settled_future s' tag = settled_future s tag) as Hsame.
  { intros tag. destruct (ws_namedFutures s !! tag) as [i|] eqn:Hx; [|unfold settled_future; by rewrite Hn', Hx].
    apply (Hsn tag i); [done|by rewrite Hn']. }
  split; cbn; [congruence|rewrite Hfs, length_app; cbn; lia|congruence|congruence|..].
  - rewrite Ha'. apply launched_new.
  - intros tag. rewrite Hn'. by apply launched_future.
  - intros i g [Hg|[-> ->]]%launched_inv Hne; [|done]. rewrite Hn'. by apply Htg.
  - rewrite Hn'. intros tag i g Hx [Hg|[-> ->]]%launched_inv; [by apply (Hnt tag i)|]. apply Hlt in Hx. lia.
  - intros tag. rewrite Hr', Hsame. apply Hre.
  - intros tag. rewrite Ht', Hsame. apply Htr.
  - by rewrite Hm'.
  - by rewrite Hm'.
Qed.
Lemma launch_named_sim :
  f_tag f ≠ ""%string → ws_namedFutures s !! f_tag f = None → ws_anonymous s' = ws_anonymous s →
  ws_namedFutures s' = <[f_tag f := length (ws_futures s)]> (ws_namedFutures s) →
  sim q0 s' (MkSeq (sq_options q) (sq_anonymous q) (<[f_tag f := (f_transport f, f_result f)]> (sq_named q)) (S (sq_sent q))).
Proof.
  intros Htag Hfresh Ha' Hn'. pose proof named_lt as Hlt. pose proof settled_named as Hsn.
  destruct Hrest as (Ho' & Har' & Hte' & Hr' & Ht' & Hm').
  destruct Hs as [Ho Hl Har Hte Ha Hn Htg Hnt Hre Htr Hq Hi].
  assert (∀ tag, settled_future s' tag = settled_future s tag) as Hsame.
  { intros tag. destruct (decide (tag = f_tag f)) as [->|Hne].
    - unfold settled_future. rewrite Hn', Hfresh, lookup_insert_eq, Hfs. cbn.
      rewrite lookup_app_r, Nat.sub_diag by lia. cbn. by rewrite Hset.
    - destruct (ws_namedFutures s !! tag) as [i|] eqn:Hx.
      + apply (Hsn tag i); [done|]. by rewrite Hn', lookup_insert_ne.
      + unfold settled_future. rewrite Hn', lookup_insert_ne, Hx by done. done. }
  split; cbn; [congruence|rewrite Hfs, length_app; cbn; lia|congruence|congruence|..].
  - rewrite Ha'. by apply launched_future.
  - intros tag. rewrite Hn'. destruct (decide (tag = f_tag f)) as [->|Hne].
    + rewrite !lookup_insert_eq. apply launched_new.
    + rewrite !lookup_insert_ne by done. by apply launched_future.
  - intros i g [Hg|[-> ->]]%launched_inv Hne; rewrite Hn'; [|by rewrite lookup_insert_eq].
    pose proof (Htg i g Hg Hne) as Hx. rewrite lookup_insert_ne; [done|]. intros Heq. rewrite Heq in Hfresh. congruence.
  - rewrite Hn'. intros tag i g [[<- Hi']|[Hne Hx]]%lookup_insert_Some [Hg|[Hi'' Hg]]%launched_inv.
    + apply lookup_lt_Some in Hg. lia.
    + by subst g.
    + by apply (Hnt tag i).
    + apply Hlt in Hx. lia.
  - intros tag. rewrite Hr', Hsame. apply Hre.
  - intros tag. rewrite Ht', Hsame. apply Htr.
  - by rewrite Hm'.
  - by rewrite Hm'.
Qed.
End launch.

(** The tag an evaluate action defines. *)
Definition tag_of (rule : DNSRule) : list string :=
  match dr_action rule with
  | Some (ActionEvaluate _ tag _ _) => if bool_decide (tag = ""%string) then [] else [tag]
  | _ => []
  end.
(** [respond] answers with a response its rule binds, or the anonymous one. *)
Definition respond_ok (rule : DNSRule) : bool :=
  match dr_action rule with
  | Some ActionRespond =>
      negb (bool_decide (MatchResponseTag (dr_rule rule) = ""%string)) || negb (hasBindings (dr_rule rule)) ||
      MatchResponseAnonymous (dr_rule rule)
  | _ => true
  end.
Definition rule_ok (rule : DNSRule) : bool := scoped (dr_rule rule) && negb (dr_race rule) && respond_ok rule.

Definition action_step (rule : DNSRule) (q : seq_state) (s : dnsRuleWalkState) (o : rule_out) (s' : dnsRuleWalkState) : Prop :=
  match o with
  | RuleNext =>
      ∃ q', seq_action W rule q = inr q' ∧ sim q0 s' q' ∧ ws_ruleIndex s' = ws_ruleIndex s ∧
            ∀ tag, tag ∉ tag_of rule → ws_namedFutures s' !! tag = ws_namedFutures s !! tag
  | RuleOut (WalkResult r) => seq_action W rule q = inl r
  | RuleOut (WalkSuspend (SuspendPending p)) =>
      pe_future p = None ∧ sim q0 s' q ∧ seq_action W rule q = inl (last_exchange W (pe_transport p) (pe_options p) s')
  | RuleOut (WalkSuspend _) =>
      sim q0 s' q ∧ ws_ruleIndex s' = ws_ruleIndex s ∧ ws_namedFutures s' = ws_namedFutures s
  end.

Lemma last_exchange_ask transport options s q :
  sim q0 s q → last_exchange W transport options s = exchanged transport (ask W q transport options).2.
Proof. intros Hs. unfold last_exchange, ask. by rewrite (sm_sent _ _ _ Hs). Qed.

Lemma evaluate_step rule server tag speculative o s ro s' q :
  dr_action rule = Some (ActionEvaluate server tag speculative o) →
  sim q0 s q → (∀ t, t ∈ tag_of rule → ws_namedFutures s !! t = None) →
  rule_action W rule s = (ro, s') → action_step rule q s ro s'.
Proof.
  intros Hact Hs Hfresh. unfold rule_action, action_step, seq_action. unfold tag_of in *. rewrite Hact in *.
  rewrite (sm_armed _ _ _ Hs), andb_false_r. destruct (tm_Transport _ _) as [transport|].
  - unfold launchDNSEvaluate, ask. rewrite (sm_sent _ _ _ Hs), (sm_options _ _ _ Hs).
    destruct (we_net _ _ _ _) as [r delay]. intros [= <- <-]. eexists. split; [reflexivity|]. cbn [fst].
    set (f := MkFuture tag _ _ _ _ _ _ _). case_bool_decide as Htag.
    + split_and!; [|done|done].
      apply (launch_anonymous_sim s _ f q Hs); try done. cbn. by rewrite (sm_sent _ _ _ Hs).
    + split_and!; [|done|].
      * apply (launch_named_sim s _ f q Hs); try done; [apply Hfresh; by left|]. cbn. by rewrite (sm_sent _ _ _ Hs).
      * intros t Ht. cbn. rewrite lookup_insert_ne; [done|]. intros ->. apply Ht. by left.
  - intros [= <- <-]. eexists. split; [reflexivity|]. case_bool_decide; [|by destruct Hs, q].
    split_and!; [|done|done]. destruct Hs as [Ho Hl Har Hte Ha Hn Htg Hnt Hre Htr Hq Hi]. by split.
Qed.

Lemma respond_step rule s ro s' q :
  dr_action rule = Some ActionRespond → respond_ok rule = true → ready (dr_rule rule) s → sim q0 s q →
  rule_action W rule s = (ro, s') → action_step rule q s ro s'.
Proof.
  intros Hact Hok Hrd Hs. unfold rule_action, action_step, seq_action. unfold respond_ok in Hok. rewrite Hact in *.
  rewrite (sm_armed _ _ _ Hs). change (nonempty []) with false. cbv iota.
  case_bool_decide as Htag; cbn [negb] in *.
  - match goal with |- context [let '(_, _) := ?e in _] => destruct e as [await s1] eqn:Haw end.
    assert (timed W s s1 ∧ (await = None → ∀ i f, ws_anonymous s = Some i → ws_futures s !! i = Some f →
              f_done f ≤ ws_clock s1)) as [Ht Hin].
    { destruct (hasBindings (dr_rule rule)).
      - injection Haw as <- <-. split; [done|]. intros _ i f. by apply (rd_anonymous _ _ Hrd).
      - apply first_unresolved_timed in Haw as [Ht Hn]. split; [done|]. intros Ha i f Hi Hf. apply (Hn Ha i f); [|done].
        rewrite Hi. by left. }
    pose proof (timed_sim _ _ _ Ht Hs) as Hs1. destruct await as [i|].
    + intros [= <- <-]. split_and!; [done|..]; by rewrite (td_state _ _ _ Ht).
    + destruct (anonymousResponse W s1) as [v s2] eqn:Hv. pose proof (anonymous_timed _ _ _ Hv) as Ht2.
      apply (anonymous_in _ _ _ _ Hs1) in Hv; [|rewrite (td_state _ _ _ Ht); by apply Hin].
      intros [= <- <-]. f_equal. unfold respond_with. rewrite <- Hv. destruct v as [m|]; [|done].
      pose proof (sm_anonymous _ _ _ (timed_sim _ _ _ Ht2 Hs1)) as Ha. unfold same_future in Ha.
      destruct (ws_anonymous s2) as [i|], (sq_anonymous q) as [a|]; try done.
      destruct Ha as (f & Hf & <-). unfold transport_of. cbn. by rewrite Hf.
  - intros [= <- <-]. f_equal. unfold respond_with.
    pose proof (sm_named _ _ _ Hs (MatchResponseTag (dr_rule rule))) as Hn.
    rewrite (sm_responses _ _ _ Hs), (sm_transports _ _ _ Hs). unfold settled_future.
    assert (MatchResponseTag (dr_rule rule) ∈ MatchResponseTags (dr_rule rule)) as Hin.
    { destruct (dr_rule rule); try done. cbn in *. rewrite bool_decide_eq_false_2 by done. by left. }
    destruct (ws_namedFutures s !! _) as [i|] eqn:Hi, (sq_named q !! _) as [a|]; try done.
    destruct Hn as (f & Hf & <-). cbn. rewrite Hf. cbn.
    rewrite (rd_named _ _ Hrd _ i f Hin Hi Hf). cbn. by destruct (answer_of _).
Qed.

Lemma rule_action_step rule s ro s' q :
  respond_ok rule = true → ready (dr_rule rule) s → sim q0 s q →
  (∀ t, t ∈ tag_of rule → ws_namedFutures s !! t = None) →
  rule_action W rule s = (ro, s') → action_step rule q s ro s'.
Proof.
  intros Hok Hrd Hs Hfresh.
  destruct (dr_action rule) as [[server speculative o|o|server tag speculative o| |method noDrop|rcode an ns ex]|] eqn:Hact;
    [|clear Hfresh|by eapply evaluate_step|by apply respond_step|clear Hfresh..];
    unfold rule_action, action_step, seq_action; rewrite Hact, ?(sm_armed _ _ _ Hs), ?(sm_options _ _ _ Hs);
    try change (nonempty []) with false; cbv iota.
  - destruct (resolveDNSRoute _ _ _ _ _) as [| |transport qo]; [intros [= <- <-]; by eexists..|].
    rewrite (sm_terminal _ _ _ Hs). intros [= <- <-]. cbn. split_and!; [done..|]. by rewrite (last_exchange_ask _ _ _ q).
  - intros [= <- <-]. eexists. split; [reflexivity|]. split_and!; [|done|done].
    destruct Hs as [Ho Hl Har Hte Ha Hn Htg Hnt Hre Htr Hq Hi]. by split.
  - destruct (reject_result W method noDrop); intros [= <- <-]; [done|by eexists].
  - by intros [= <- <-].
  - intros [= <- <-]. by eexists.
Qed.

(** One turn of the walk against the reference. *)
Definition walk_step (rule : DNSRule) (q : seq_state) (s : dnsRuleWalkState) (o : rule_out) (s' : dnsRuleWalkState) : Prop :=
  match o with
  | RuleNext =>
      ∃ q', sim q0 s' q' ∧ ws_ruleIndex s' = ws_ruleIndex s ∧
            (∀ tag, tag ∉ tag_of rule → ws_namedFutures s' !! tag = ws_namedFutures s !! tag) ∧
            ∀ rest, seq_walk W q0 (rule :: rest) q = seq_walk W q0 rest q'
  | RuleOut (WalkResult r) => ∀ rest, seq_walk W q0 (rule :: rest) q = r
  | RuleOut (WalkSuspend (SuspendPending p)) =>
      pe_future p = None ∧ sim q0 s' q ∧
      ∀ rest, seq_walk W q0 (rule :: rest) q = last_exchange W (pe_transport p) (pe_options p) s'
  | RuleOut (WalkSuspend _) =>
      sim q0 s' q ∧ ws_ruleIndex s' = ws_ruleIndex s ∧ ws_namedFutures s' = ws_namedFutures s
  end.

(** The clock stands still between looks, or no rule names a response. *)
Definition calm (rules : list DNSRule) : Prop :=
  no_pass W ∨ Forall (λ rule, MatchResponseTags (dr_rule rule) = []) rules.

(** Waiting for the bound futures makes the rule ready. *)
Lemma bound_ready rule s s1 o s2 q :
  no_pass W ∨ MatchResponseTags (dr_rule rule) = [] → sim q0 s q →
  s1 = (if hasBindings (dr_rule rule) then settleDNSFutures W s else s) →
  (if hasBindings (dr_rule rule) then first_unresolved W (bound_futures rule s1) s1 else (None, s1)) = (o, s2) →
  timed W s1 s2 ∧ (o = None → ready (dr_rule rule) s2).
Proof.
  intros Hcalm Hs Hs1. unfold hasBindings in *.
  destruct (nonempty (MatchResponseTags (dr_rule rule)) || MatchResponseAnonymous (dr_rule rule)) eqn:Hb.
  2: { intros [= <- <-]. split; [done|]. intros _. apply orb_false_iff in Hb as [Ht Ha]. apply nonempty_nil in Ht.
       split; [congruence|]. rewrite Ht. by intros ? ? ? ?%elem_of_nil. }
  intros Hu. apply first_unresolved_timed in Hu as [Ht Hin]. split; [done|]. intros Ho. specialize (Hin Ho).
  split.
  - intros i f Ha Hi Hf. rewrite (timed_futures _ _ Ht) in Hf. apply (Hin i f); [|done].
    unfold bound_futures. rewrite Ha. rewrite (td_state _ _ _ Ht) in Hi. cbn in Hi. rewrite Hi.
    apply elem_of_app. right. by left.
  - intros tag i f Htag Hi Hf. destruct Hcalm as [Hp|Hnone]; [|rewrite Hnone in Htag; by apply elem_of_nil in Htag].
    rewrite (timed_futures _ _ Ht) in Hf. pose proof (td_calm _ _ _ Ht Hp) as Hc.
    rewrite (td_state _ _ _ Ht) in Hi. cbn in Hi. subst s1. eapply (settle_calm s); [done|done|]. rewrite <- Hc.
    apply (Hin i f); [|done]. unfold bound_futures. apply elem_of_app. left. apply list_elem_of_omap. eauto.
Qed.

Lemma walk_rule_step rule s ro s' q :
  rule_ok rule = true → no_pass W ∨ MatchResponseTags (dr_rule rule) = [] → sim q0 s q →
  (∀ t, t ∈ tag_of rule → ws_namedFutures s !! t = None) →
  walk_rule W rule s = (ro, s') → walk_step rule q s ro s'.
Proof.
  intros Hok Hcalm Hs Hfresh. unfold rule_ok in Hok. rewrite !andb_true_iff, negb_true_iff in Hok.
  destruct Hok as [[Hsc Hrace] Hresp]. unfold walk_rule. rewrite Hrace, andb_false_r.
  set (s1 := if hasBindings (dr_rule rule) then settleDNSFutures W s else s).
  assert (sim q0 s1 q ∧ ws_ruleIndex s1 = ws_ruleIndex s ∧ ws_namedFutures s1 = ws_namedFutures s) as (Hs1 & Hi1 & Hn1).
  { unfold s1. destruct (hasBindings _); [|done]. destruct (settle_quiet W s) as [Hq _].
    split_and!; [by apply settle_sim|apply Hq|apply Hq]. }
  match goal with |- context [let '(_, _) := ?e in _] => destruct e as [await s2] eqn:Haw end.
  destruct (bound_ready rule s s1 await s2 q Hcalm Hs eq_refl Haw) as [Ht2 Hrd]. clear Haw.
  pose proof (timed_sim _ _ _ Ht2 Hs1) as Hs2.
  assert (ws_ruleIndex s2 = ws_ruleIndex s ∧ ws_namedFutures s2 = ws_namedFutures s) as [Hi2 Hn2]
    by (rewrite (td_state _ _ _ Ht2); done).
  destruct await as [i|]; [by intros [= <- <-]|]. specialize (Hrd eq_refl).
  destruct (anonymousResponse W s2) as [response s3] eqn:Ha. pose proof (anonymous_timed _ _ _ Ha) as Ht3.
  pose proof (timed_sim _ _ _ Ht3 Hs2) as Hs3. pose proof (timed_ready _ _ _ Ht3 Hrd) as Hrd3.
  destruct (match_with W rule response s3) as [matched s4] eqn:Hm.
  apply (match_seq _ _ _ _ _ _ Hs3 Hsc Hrd3) in Hm as (-> & Hs4 & Hrd4 & Hi4 & Hn4).
  2: { intros Han. apply (anonymous_in _ _ _ _ Hs2 Ha). intros i f. by apply (rd_anonymous _ _ Hrd). }
  assert (ws_ruleIndex s4 = ws_ruleIndex s ∧ ws_namedFutures s4 = ws_namedFutures s) as [Hi Hn].
  { rewrite Hi4, Hn4, (td_state _ _ _ Ht3). done. }
  destruct (seq_matches W q0 rule q) eqn:Hmatch.
  - intros Hact. apply (rule_action_step _ _ _ _ q) in Hact; [|done|by apply Hrd4|done|by rewrite Hn].
    destruct ro as [|[r|x]]; cbn [action_step walk_step seq_walk] in *; rewrite ?Hmatch.
    + destruct Hact as (q' & Hq' & Hsim & Hidx & Hnf). exists q'. rewrite Hq', <- Hn, <- Hi. done.
    + by rewrite Hact.
    + rewrite <- Hi, <- Hn. destruct x; [done|done|]. destruct Hact as (Hp & Hsim & ->). done.
  - intros [= <- <-]. exists q. split_and!; [done|done|by rewrite Hn|]. intros rest. cbn [seq_walk]. by rewrite Hmatch.
Qed.

(** ** The walk *)

Definition evaluate_tags (rules : list DNSRule) : list string := rules ≫= tag_of.
Definition fresh (rules : list DNSRule) (s : dnsRuleWalkState) : Prop :=
  NoDup (evaluate_tags rules) ∧ ∀ t, t ∈ evaluate_tags rules → ws_namedFutures s !! t = None.
Definition on_track (rules : list DNSRule) (target : exchange_result) (x : dnsWalkSuspension) (s : dnsRuleWalkState) : Prop :=
  ∃ q, sim q0 s q ∧
  match x with
  | SuspendPending p => pe_future p = None ∧ last_exchange W (pe_transport p) (pe_options p) s = target
  | _ => fresh (drop (ws_ruleIndex s) rules) s ∧ seq_walk W q0 (drop (ws_ruleIndex s) rules) q = target
  end.

Lemma index_sim i s q : sim q0 s q → sim q0 (upd_index i s) q.
Proof. intros [Ho Hl Har Hte Ha Hn Htg Hnt Hre Htr Hq Hi]. by split. Qed.
Lemma fresh_next rule rest s s' :
  fresh (rule :: rest) s → (∀ tag, tag ∉ tag_of rule → ws_namedFutures s' !! tag = ws_namedFutures s !! tag) →
  fresh rest s'.
Proof.
  intros [Hd Hf] Hn. unfold evaluate_tags in *. cbn in Hd, Hf. apply NoDup_app in Hd as (_ & Hdis & Hd).
  split; [done|]. intros t Ht. rewrite Hn; [apply Hf; set_solver|]. intros Ht'. by apply (Hdis t).
Qed.

Lemma walk_go_track rules rest : ∀ s q o s',
  Forall (λ r, rule_ok r = true) rest → calm rest → sim q0 s q → fresh rest s → rest = drop (ws_ruleIndex s) rules →
  walk_go W rest s = (o, s') →
  match o with
  | WalkResult r => r = seq_walk W q0 rest q
  | WalkSuspend x => on_track rules (seq_walk W q0 rest q) x s'
  end.
Proof.
  induction rest as [|rule rest IH]; intros s q o s' Hok Hcalm Hs Hfresh Hdrop; cbn [walk_go].
  - rewrite (sm_armed _ _ _ Hs). intros [= <- <-]. exists q. split_and!; [done|done|]. cbn.
    rewrite (last_exchange_ask _ _ _ q) by done. by rewrite (sm_options _ _ _ Hs).
  - apply Forall_cons_1 in Hok as [Hrule Hok].
    assert ((no_pass W ∨ MatchResponseTags (dr_rule rule) = []) ∧ calm rest) as [Hc1 Hc2].
    { destruct Hcalm as [Hp|Hn]; [by split; left|]. apply Forall_cons_1 in Hn as [? ?]. by split; right. }
    destruct (walk_rule W rule s) as [ro s1] eqn:Hw. apply (walk_rule_step _ _ _ _ q) in Hw; [|done|done|done|].
    2: { intros t Ht. apply Hfresh. unfold evaluate_tags. cbn. set_solver. }
    destruct ro as [|[r|x]]; cbn [walk_step] in Hw.
    + destruct Hw as (q' & Hs1 & Hi1 & Hn1 & Hseq). rewrite Hseq. apply IH; [done|done|by apply index_sim| |].
      * by eapply fresh_next.
      * cbn. rewrite Hi1. by rewrite <- Nat.add_1_r, <- drop_drop, <- Hdrop.
    + intros [= <- <-]. by rewrite Hw.
    + intros [= <- <-]. exists q. destruct x as [i| |p].
      * destruct Hw as (Hs1 & Hi1 & Hn1). rewrite Hi1, <- Hdrop. split_and!; [done| |done]. split; [apply Hfresh|].
        rewrite Hn1. apply Hfresh.
      * destruct Hw as (Hs1 & Hi1 & Hn1). rewrite Hi1, <- Hdrop. split_and!; [done| |done]. split; [apply Hfresh|].
        rewrite Hn1. apply Hfresh.
      * destruct Hw as (Hp & Hs1 & Hseq). by rewrite Hseq.
Qed.

(** ** Waiting *)

Lemma noticed_sim clock c l s q :
  sim q0 s q → sim q0 (upd_futures (set_noticed clock <$> ws_futures s) (upd_time c l s)) q.
Proof.
  intros [Ho Hl Har Hte Ha Hn Htg Hnt Hre Htr Hq Hi].
  set (s' := upd_futures _ _).
  assert (∀ i, ws_futures s' !! i = set_noticed clock <$> ws_futures s !! i) as Hf
    by (intros i; cbn; apply list_lookup_fmap).
  assert (∀ o a, same_future s o a → same_future s' o a) as Hsame.
  { intros [i|] [a|]; try done. intros (f & Hi' & <-). exists (set_noticed clock f). split; [|done]. rewrite Hf. by rewrite Hi'. }
  assert (∀ tag, settled_future s' tag = set_noticed clock <$> settled_future s tag) as Hset.
  { intros tag. unfold settled_future. cbn [ws_namedFutures s' upd_futures upd_time].
    destruct (ws_namedFutures s !! tag) as [i|]; [|done]. cbn. fold s'. rewrite list_lookup_fmap.
    destruct (ws_futures s !! i) as [f|]; [|done]. cbn. by destruct (f_settled f). }
  split; try done.
  - cbn. by rewrite length_fmap.
  - by apply Hsame.
  - intros tag. by apply Hsame.
  - intros i f. rewrite Hf. intros (f' & Hf' & ->)%fmap_Some. exact (Htg i f' Hf').
  - intros tag i f Hx. rewrite Hf. intros (f' & Hf' & ->)%fmap_Some. exact (Hnt tag i f' Hx Hf').
  - intros tag. rewrite Hset. cbn. rewrite Hre. by destruct (settled_future s tag).
  - intros tag. rewrite Hset. cbn. rewrite Htr. by destruct (settled_future s tag).
Qed.
Lemma wake_track rules target x s s' : wake s = Some s' → on_track rules target x s → on_track rules target x s'.
Proof.
  unfold wake. destruct (list_min _) as [t|]; [|done]. cbn. intros [= <-] (q & Hs & Hx). exists q.
  split; [by apply noticed_sim|]. destruct x; [done|done|]. destruct Hx as [? <-]. split; [done|].
  unfold last_exchange. cbn. by rewrite length_fmap.
Qed.

Lemma settle_track rules target x s :
  on_track rules target x s →
  on_track rules target x (settleDNSFutures W s) ∧ sweepArmedDNSRules W (settleDNSFutures W s) =
    (None, upd_armed [] (settleDNSFutures W s)) ∧ ws_armed s = [].
Proof.
  intros (q & Hs & Hx). pose proof (settle_sim _ _ Hs) as Hs'. destruct (settle_quiet W s) as [Hq _].
  split_and!; [|unfold sweepArmedDNSRules; by rewrite (sm_armed _ _ _ Hs')|apply Hs]. exists q. split; [done|].
  unfold fresh in *. rewrite (q_index _ _ Hq), (q_named _ _ Hq). destruct x; [done|done|].
  destruct Hx as [? <-]. split; [done|]. unfold last_exchange. by rewrite (quiet_length _ _ Hq).
Qed.
Lemma resolved_track rules target x i s b s' :
  resolved W i s = (b, s') → on_track rules target x s → on_track rules target x s'.
Proof.
  intros [Ht _]%resolved_timed (q & Hs & Hx). exists q. split; [by apply (timed_sim _ _ _ Ht)|].
  rewrite (td_state _ _ _ Ht). by destruct x.
Qed.
Lemma armed_track rules target x s : ws_armed s = [] → on_track rules target x s → on_track rules target x (upd_armed [] s).
Proof.
  intros Ha (q & [Ho Hl Har Hte Han Hn Htg Hnt Hre Htr Hq Hi] & Hx). exists q. split; [by split|]. by destruct x.
Qed.

(** ** The loop *)

Lemma drop_ok (rules : list DNSRule) n : Forall (λ r, rule_ok r = true) rules → Forall (λ r, rule_ok r = true) (drop n rules).
Proof. apply Forall_drop. Qed.
Lemma drop_calm (rules : list DNSRule) n : calm rules → calm (drop n rules).
Proof. intros [Hp|Hn]; [by left|right; by apply Forall_drop]. Qed.

Lemma resume_track rules target fuel : ∀ x s r s',
  Forall (λ r, rule_ok r = true) rules → calm rules → (∀ n, we_canceled W n = false) → on_track rules target x s →
  resumeExchangeWithRules W fuel rules x s = Returned r s' → r = target.
Proof.
  induction fuel as [|fuel IH]; intros x s r s' Hok Hcalm Hcancel Htr; cbn [resumeExchangeWithRules]; [done|].
  destruct (settle_track _ _ _ _ Htr) as (Htr1 & -> & Ha). destruct (settle_quiet W s) as [_ Ha1]. rewrite Ha in Ha1.
  apply armed_track in Htr1; [|done]. set (s1 := upd_armed [] _) in *.
  assert (∀ s2, on_track rules target x s2 → match x with SuspendPending _ => False | _ => True end →
            match walkDNSRules W rules s2 with
            | (WalkResult r, s) => return_ (r, s)
            | (WalkSuspend x, s) => resumeExchangeWithRules W fuel rules x s
            end = Returned r s' → r = target) as Hwalk.
  { intros s2 (q & Hs & Hx) Hnp. destruct (walkDNSRules W rules s2) as [o s3] eqn:Hw.
    assert (fresh (drop (ws_ruleIndex s2) rules) s2 ∧ seq_walk W q0 (drop (ws_ruleIndex s2) rules) q = target) as [Hfr <-]
      by (by destruct x).
    apply (walk_go_track rules _ _ q) in Hw; [|by apply drop_ok|by apply drop_calm|done..].
    destruct o as [r'|x']; [|by apply IH]. by intros [= <- _]. }
  destruct x as [i| |p].
  - destruct (resolved W i s1) as [b s2] eqn:Hr. pose proof (resolved_track _ _ _ _ _ _ _ Hr Htr1) as Htr2.
    destruct b; [by apply Hwalk|]. rewrite Hcancel. destruct (wake s2) as [s3|] eqn:Hw; [|done].
    apply IH; [done..|]. by eapply wake_track.
  - by apply Hwalk.
  - destruct Htr1 as (q & Hs & Hp & <-). unfold return_, finishPendingExchange. rewrite Hp. cbn [fst snd].
    intros [= <- _]. unfold last_exchange. cbn. by rewrite length_imap.
Qed.

Lemma start_sim options metadata :
  request metadata = q0 → ignoring metadata = false →
  sim q0 (walk_start options metadata) (MkSeq options None ∅ 0).
Proof.
  intros <- Hi. assert (∀ tag, ws_namedFutures (walk_start options metadata) !! tag = None) as Hn by done.
  split; try done.
Qed.
End simulation.


(** Waiting for futures is invisible.  For rules without [race] whose
    evaluate tags are distinct and that read only the responses they bind, the
    exchange returns what [seq_walk] says: each evaluate answered before the
    next rule is looked at.  The answers may come at any time; when rules name
    responses by tag, the clock must not move between taking the responses and
    looking at the futures of the next rule ([late_response_missed] is why). *)
Lemma exchange_sequential `{UnicodeTables, UniqOrder} (W : WalkEnv) rules options metadata fuel :
  Forall (λ r, rule_ok r = true) rules → NoDup (evaluate_tags rules) → calm W rules →
  (∀ n, we_canceled W n = false) → ignoring metadata = false → 4 * length rules + 5 ≤ fuel →
  ∃ s, exchangeWithRules W fuel rules options metadata =
       Returned (seq_walk W (request metadata) rules (MkSeq options None ∅ 0)) s.
Proof.
  intros Hok Hd Hcalm Hcancel Hi Hfuel. pose proof (exchange_done W rules options metadata fuel Hfuel) as Hret.
  set (target := seq_walk _ _ _ _). unfold exchangeWithRules in *.
  destruct (walkDNSRules W rules (walk_start options metadata)) as [o s] eqn:Hw.
  apply (walk_go_track W (request metadata) rules rules _ (MkSeq options None ∅ 0)) in Hw;
    [|done|done|by apply start_sim|by split|done]. fold target in Hw.
  destruct o as [r|x]; [rewrite Hw; by eexists|].
  destruct (resumeExchangeWithRules W fuel rules x s) as [r s'| |] eqn:Hr; try done. exists s'. f_equal.
  by eapply resume_track.
Qed.

(** ** Examples *)

(** A rule without conditions, and one on the code of a named response. *)
Definition always : Rule := DefaultDNSRule (MkDefaultRule [] [] [] [] [] [] [] None false) false "".
Definition when_rcode (tag : string) (rcode : Z) : Rule :=
  DefaultDNSRule (MkDefaultRule [DNSResponseRCodeItem rcode] [] [] [] [] [] [DNSResponseRCodeItem rcode] None false) true tag.
Definition no_route_options : RuleActionDNSRouteOptions := MkRouteOptions 0 0 false false None PrefixZero false.
Definition evaluate_at (server tag : string) : DNSRule :=
  MkDNSRule always (Some (ActionEvaluate server tag false no_route_options)) false.
Definition respond_when (tag : string) (rcode : Z) (race : bool) : DNSRule :=
  MkDNSRule (when_rcode tag rcode) (Some ActionRespond) race.
Definition transport_a : Transport := MkTransport "a" "udp".
Definition transport_b : Transport := MkTransport "b" "udp".
Definition transport_d : Transport := MkTransport "d" "udp".
Definition transports0 : TransportManager :=
  MkTransports (λ tag, if bool_decide (tag = "a"%string) then Some transport_a
                       else if bool_decide (tag = "b"%string) then Some transport_b else None) transport_d.
Definition answer_msg (rcode : Z) : Message := MkMessage 7 true false true true rcode [MkQuestion "x." 1 1] [] [] [].
Definition query_msg : Message := MkMessage 7 false false true false 0 [MkQuestion "x." 1 1] [] [] [].
(** The servers answer with the codes of [rcode], after the delays of [delay];
    [pass] is how far the clock moves before each look. *)
Definition walk_env (rcode : string → Z) (delay : string → nat) (pass : nat → nat) : WalkEnv :=
  MkWalkEnv env0 transports0 0 query_msg true
    (λ _ t _, (Ok (answer_msg (rcode (tr_Tag t))), delay (tr_Tag t))) pass (λ _, false).

Definition two_servers : list DNSRule :=
  [evaluate_at "a" "one"; evaluate_at "b" "two"; respond_when "one" 0 false; respond_when "two" 0 false].
Definition codes (s : string) : Z := if bool_decide (s = "a"%string) then 2 else 0.
Definition delays (s : string) : nat := if bool_decide (s = "a"%string) then 5 else 3.
Example exchange_sequential_two_servers :
  ∃ s, exchangeWithRules (walk_env codes delays (λ _, 0)) 21 two_servers no_query_options (query0 "x") =
       Returned (answer_from (Some (answer_msg 0)) (Some transport_b)) s.
Proof.
  apply (exchange_sequential (walk_env codes delays (λ _, 0)) two_servers no_query_options (query0 "x") 21).
  - by repeat constructor.
  - by apply (bool_decide_unpack _).
  - by left.
  - done.
  - done.
  - cbn. lia.
Defined.

(** Race rules: the first response with the wanted code wins. *)
Definition racing : list DNSRule :=
  [evaluate_at "a" "one"; evaluate_at "b" "two"; respond_when "one" 2 true; respond_when "two" 0 true].
Lemma exchange_returns_witness :
  ∃ s, exchangeWithRules (walk_env codes delays (λ _, 0)) 21 racing no_query_options (query0 "x") =
       Returned (answer_from (Some (answer_msg 0)) (Some transport_b)) s.
Proof.
  destruct (exchange_returns (walk_env codes delays (λ _, 0)) racing no_query_options (query0 "x") 21)
    as (r & s & Hr & _); [cbn; lia|]. exists s. rewrite Hr. f_equal. vm_compute in Hr. by injection Hr as <- _.
Defined.
Lemma async_same_result_witness :
  ∃ s, exchangeWithRulesAsync (walk_env codes delays (λ _, 0)) 21 racing no_query_options (query0 "x") =
       Returned (answer_from (Some (answer_msg 0)) (Some transport_b)) s.
Proof.
  destruct (async_same_result (walk_env codes delays (λ _, 0)) racing no_query_options (query0 "x") 21)
    as (r & s & s' & Hr & Ha & _); [cbn; lia|]. exists s'. rewrite Ha. f_equal. vm_compute in Hr. by injection Hr as <- _.
Defined.

(** A response that comes in between two looks is missed.  The walker
    takes the responses that are in, then asks whether the futures of the rule
    are done; a tagged response that arrives between the two counts as done but
    has not been taken, and the rule is matched as if there were no response.
    Here server a's answer satisfies the second rule in the sequential reading,
    whatever the answers are, but the query goes to the default server. *)
Theorem late_response_missed (m : string → Z) :
  m "a"%string = 0%Z →
  let W := walk_env m (λ _, 1) (λ look, if decide (look = 1) then 1 else 0) in
  let rules := [evaluate_at "a" "one"; respond_when "one" 0 false] in
  seq_walk W (request (query0 "x")) rules (MkSeq no_query_options None ∅ 0) =
    answer_from (Some (answer_msg 0)) (Some transport_a) ∧
  ∃ s, exchangeWithRules W 13 rules no_query_options (query0 "x") =
       Returned (answer_from (Some (answer_msg (m "d"%string))) (Some transport_d)) s.
Proof.
  intros Hm W rules. split.
  - vm_compute. rewrite Hm. reflexivity.
  - eexists. vm_compute. reflexivity.
Qed.
Lemma late_response_missed_witness :
  ∃ s, exchangeWithRules (walk_env (λ _, 0%Z) (λ _, 1) (λ look, if decide (look = 1) then 1 else 0)) 13
         [evaluate_at "a" "one"; respond_when "one" 0 false] no_query_options (query0 "x") =
       Returned (answer_from (Some (answer_msg 0)) (Some transport_d)) s.
Proof. exact (proj2 (late_response_missed (λ _, 0%Z) eq_refl)). Defined.
