(* ===== verification/DnsMode.v ===== *)
(** * DNS rules from their options, and the mode they run in

    [option.DNSRule] and its action, the constructors [NewDNSRule] and
    [NewDNSRuleAction], and the part of [dns/router.go] that decides between the
    legacy mode and the response-matching mode and checks the rules of the
    latter.  The rule-sets of the router are looked up by tag; while a rule-set
    is being replaced its new metadata overrides the one it has. *)

From S2P Require Import Prelude GoStrings NetAddr RuleContext RuleItems RuleMatch RuleSpec RuleBuild DnsActions DnsWalk DnsLive DnsSeq.

Local Open Scope Z_scope.
Local Set Warnings "-register-all".

(** ** Options *)

Record AbstractDNSRouteActionOptions := MkAbstractOptions {
  ao_Timeout : Z;
  ao_Strategy : Z;
  ao_DisableCache : bool;
  ao_DisableOptimisticCache : bool;
  ao_RewriteTTL : option Z;
  ao_ClientSubnet : option Prefix;
  ao_RemoveClientSubnet : bool;
}.
Record DNSRouteActionOptions := MkRouteAction {
  ra_Server : string;
  ra_Speculative : bool;
  ra_options : AbstractDNSRouteActionOptions;
}.
Record DNSEvaluateActionOptions := MkEvaluateAction {
  ev_Server : string;
  ev_Tag : string;
  ev_Speculative : bool;
  ev_options : AbstractDNSRouteActionOptions;
}.
Record RejectActionOptions := MkRejectAction { rj_Method : string; rj_NoDrop : bool }.
Record DNSRouteActionPredefined := MkPredefinedAction {
  pd_Rcode : option Z;
  pd_Answer : list Resource;
  pd_Ns : list Resource;
  pd_Extra : list Resource;
}.
Record DNSRuleAction := MkDNSRuleAction {
  da_Action : string;
  da_Race : bool;
  da_RouteOptions : DNSRouteActionOptions;
  da_EvaluateOptions : DNSEvaluateActionOptions;
  da_RouteOptionsOptions : AbstractDNSRouteActionOptions;
  da_RejectOptions : RejectActionOptions;
  da_PredefinedOptions : DNSRouteActionPredefined;
}.
Definition no_abstract : AbstractDNSRouteActionOptions := MkAbstractOptions 0 0 false false None None false.
Definition no_action : DNSRuleAction :=
  MkDNSRuleAction "" false (MkRouteAction "" false no_abstract) (MkEvaluateAction "" "" false no_abstract) no_abstract
    (MkRejectAction "" false) (MkPredefinedAction None [] [] []).

#[export] Instance Resource_eq_dec : EqDecision Resource.
Proof. solve_decision. Defined.
#[export] Instance AbstractDNSRouteActionOptions_eq_dec : EqDecision AbstractDNSRouteActionOptions.
Proof. solve_decision. Defined.
#[export] Instance DNSRouteActionOptions_eq_dec : EqDecision DNSRouteActionOptions.
Proof. solve_decision. Defined.
#[export] Instance DNSEvaluateActionOptions_eq_dec : EqDecision DNSEvaluateActionOptions.
Proof. solve_decision. Defined.
#[export] Instance RejectActionOptions_eq_dec : EqDecision RejectActionOptions.
Proof. solve_decision. Defined.
#[export] Instance DNSRouteActionPredefined_eq_dec : EqDecision DNSRouteActionPredefined.
Proof. solve_decision. Defined.
#[export] Instance DNSRuleAction_eq_dec : EqDecision DNSRuleAction.
Proof. solve_decision. Defined.

(** [match_response]: absent, or whether it is on and its tag. *)
Definition DNSRuleMatchResponse : Type := option (bool * string).
Definition IsEnabled (m : DNSRuleMatchResponse) : bool := match m with Some (b, _) => b | None => false end.
Definition ResponseTag (m : DNSRuleMatchResponse) : string := match m with Some (_, tag) => tag | None => "" end.

(** [option.DNSRule] by its type field, as [HeadlessOptions]. *)
Inductive DNSRuleOptions :=
  | DNSDefault (typed : bool) (o : MatchOptions) (m : DNSRuleMatchResponse) (a : DNSRuleAction)
  | DNSLogical (mode : string) (rules : list DNSRuleOptions) (invert : bool) (a : DNSRuleAction)
  | DNSUnknown (type : string).

Lemma DNSOptions_deep_ind (P : DNSRuleOptions → Prop) :
  (∀ t o m a, P (DNSDefault t o m a)) → (∀ t, P (DNSUnknown t)) →
  (∀ mode rules invert a, Forall P rules → P (DNSLogical mode rules invert a)) → ∀ r, P r.
Proof.
  intros Hd Hu Hl. fix IH 1. intros [t o m a|mode rules invert a|t]; [apply Hd| |apply Hu].
  apply Hl. induction rules as [|r rules IHr]; constructor; [apply IH|exact IHr].
Qed.

Definition action_is (a : DNSRuleAction) (name : string) : bool := bool_decide (da_Action a = name).
(** The empty action is [route]. *)
Definition is_route (a : DNSRuleAction) : bool := action_is a "" || action_is a "route".

(** [DefaultDNSRule.IsValid]: a field other than [invert] is set. *)
Definition dns_IsValid (o : MatchOptions) (m : DNSRuleMatchResponse) (a : DNSRuleAction) : bool :=
  nonempty (o_Inbound o) || negb (bool_decide (o_IPVersion o = 0)) || nonempty (o_QueryType o) ||
  nonempty (o_QueryClientSubnet o) || o_QueryDNSSEC o || nonempty (o_Network o) || nonempty (o_AuthUser o) ||
  nonempty (o_Protocol o) || nonempty (o_Domain o) || nonempty (o_DomainSuffix o) || nonempty (o_DomainKeyword o) ||
  nonempty (o_DomainRegex o) || nonempty (o_SourceIPCIDR o) || o_SourceIPIsPrivate o || nonempty (o_SourcePort o) ||
  nonempty (o_SourcePortRange o) || nonempty (o_Port o) || nonempty (o_PortRange o) || nonempty (o_ProcessName o) ||
  nonempty (o_ProcessPath o) || nonempty (o_ProcessPathRegex o) || nonempty (o_PackageName o) ||
  nonempty (o_PackageNameRegex o) || nonempty (o_User o) || nonempty (o_UserID o) || nonempty (o_Outbound o) ||
  negb (bool_decide (o_ClashMode o = ""%string)) || nonempty (o_NetworkType o) || o_NetworkIsExpensive o ||
  o_NetworkIsConstrained o || nonempty (o_WIFISSID o) || nonempty (o_WIFIBSSID o) || nonempty (o_InterfaceAddress o) ||
  nonempty (o_NetworkInterfaceAddress o) || nonempty (o_DefaultInterfaceAddress o) || nonempty (o_SourceMACAddress o) ||
  nonempty (o_SourceHostname o) || nonempty (o_PreferredBy o) || nonempty (o_RuleSet o) ||
  o_RuleSetIPCIDRMatchSource o || is_set m || nonempty (o_IPCIDR o) || o_IPIsPrivate o || o_IPAcceptAny o ||
  is_set (o_ResponseRcode o) || nonempty (o_ResponseAnswer o) || nonempty (o_ResponseNs o) ||
  nonempty (o_ResponseExtra o) || nonempty (o_Geosite o) || nonempty (o_SourceGeoIP o) || nonempty (o_GeoIP o) ||
  o_RuleSetIPCIDRAcceptEmpty o || o_Deprecated_RulesetIPCIDRMatchSource o || negb (bool_decide (a = no_action)).

(** A loop over sub-rules that stops at the first error. *)
Section subs.
Context {A : Type} (f : DNSRuleOptions → result A).
Fixpoint each_sub (i : nat) (l : list DNSRuleOptions) : result (list A) :=
  match l with
  | [] => Ok []
  | r :: l => x ← cause ("sub rule[" +:+ Itoa (Z.of_nat i) +:+ "]") (f r); xs ← each_sub (S i) l; Ok (x :: xs)
  end.
End subs.
(** [common.All(rules, DNSRule.IsValid)], which stops at the first invalid rule. *)
Section all_valid.
Variable valid : DNSRuleOptions → result bool.
Fixpoint all_valid (l : list DNSRuleOptions) : result bool :=
  match l with [] => Ok true | r :: l => b ← valid r; if b : bool then all_valid l else Ok false end.
End all_valid.
(** [DNSRule.IsValid] panics on any type but [default] and [logical]. *)
Fixpoint DNSRule_IsValid (r : DNSRuleOptions) : result bool :=
  match r with
  | DNSDefault true o m a => Ok (dns_IsValid o m a)
  | DNSDefault false _ _ _ => Panic "unknown DNS rule type: "
  | DNSLogical _ rules _ _ => if negb (nonempty rules) then Ok false else all_valid DNSRule_IsValid rules
  | DNSUnknown type => Panic ("unknown DNS rule type: " +:+ type)
  end.

(** ** Actions *)

Definition route_options (o : AbstractDNSRouteActionOptions) : RuleActionDNSRouteOptions :=
  MkRouteOptions (ao_Strategy o) (ao_Timeout o) (ao_DisableCache o) (ao_DisableOptimisticCache o) (ao_RewriteTTL o)
    (default PrefixZero (ao_ClientSubnet o)) (ao_RemoveClientSubnet o).
Definition reject_method (method : string) : RejectMethod :=
  if bool_decide (method = "default"%string) then RejectDefault
  else if bool_decide (method = "drop"%string) then RejectDrop
  else if bool_decide (method = "reply"%string) then RejectReply
  else RejectOther method.
Definition NewDNSRuleAction (a : DNSRuleAction) : result (option DNSAction) :=
  if action_is a "" then Ok None
  else if action_is a "route" then
    let o := da_RouteOptions a in
    Ok (Some (ActionDNSRoute (ra_Server o) (ra_Speculative o) (route_options (ra_options o))))
  else if action_is a "evaluate" then
    let o := da_EvaluateOptions a in
    Ok (Some (ActionEvaluate (ev_Server o) (ev_Tag o) (ev_Speculative o) (route_options (ev_options o))))
  else if action_is a "respond" then Ok (Some ActionRespond)
  else if action_is a "route-options" then Ok (Some (ActionDNSRouteOptions (route_options (da_RouteOptionsOptions a))))
  else if action_is a "reject" then
    Ok (Some (ActionReject (reject_method (rj_Method (da_RejectOptions a))) (rj_NoDrop (da_RejectOptions a))))
  else if action_is a "predefined" then
    let o := da_PredefinedOptions a in
    Ok (Some (ActionPredefined (default 0 (pd_Rcode o)) (pd_Answer o) (pd_Ns o) (pd_Extra o)))
  else Panic ("unknown rule action: " +:+ da_Action a).

Definition validateDNSRuleAction (a : DNSRuleAction) : result () :=
  if action_is a "reject" && bool_decide (rj_Method (da_RejectOptions a) = "reply"%string)
  then Err (ENew "reject method `reply` is not supported for DNS rules")
  else
    let routeOptions :=
      if is_route a then ra_options (da_RouteOptions a)
      else if action_is a "evaluate" then ev_options (da_EvaluateOptions a)
      else if action_is a "route-options" then da_RouteOptionsOptions a else no_abstract in
    if ao_RemoveClientSubnet routeOptions && is_set (ao_ClientSubnet routeOptions)
    then Err (ENew "`client_subnet` and `remove_client_subnet` are mutually exclusive")
    else if da_Race a then
      if negb (is_route a || action_is a "respond" || action_is a "reject" || action_is a "predefined")
      then Err (ENew "`race` requires a final action")
      else if ra_Speculative (da_RouteOptions a)
      then Err (ENew "`race` and `speculative` cannot be combined on the same rule")
      else Ok tt
    else Ok tt.

(** ** Rules *)

Definition dnsRuleHasConfiguredAction (r : DNSRuleOptions) : bool :=
  match r with
  | DNSDefault _ _ _ a | DNSLogical _ _ _ a => negb (bool_decide (a = no_action))
  | DNSUnknown _ => false
  end.
Definition nested_action : error := ENew "DNS rule action is not supported in nested rules".
Fixpoint validateNoNestedDNSRuleActions (nested : bool) (r : DNSRuleOptions) : result () :=
  if nested && dnsRuleHasConfiguredAction r then Err nested_action
  else match r with
       | DNSLogical _ rules _ _ => _ ← each_sub (validateNoNestedDNSRuleActions true) 0 rules; Ok tt
       | _ => Ok tt
       end.

Section rules.
Context `{UniqOrder} (B : BuildEnv).

(** The checks the two types share, before the rule is built. *)
Definition check_action (checkServer : bool) (a : DNSRuleAction) (race_ok : bool) : result () :=
  if negb checkServer && action_is a "evaluate"
  then Err (EFmt "%s is only allowed on top-level DNS rules" [da_Action a])
  else
    _ ← validateDNSRuleAction a;
    if negb race_ok then Err (ENew "`race` requires `match_response`")
    else if checkServer && is_route a && bool_decide (ra_Server (da_RouteOptions a) = ""%string)
    then Err (ENew "missing server field")
    else if checkServer && action_is a "evaluate" && bool_decide (ev_Server (da_EvaluateOptions a) = ""%string)
    then Err (ENew "missing server field")
    else Ok tt.

Fixpoint NewDNSRule (checkServer legacyDNSMode : bool) (r : DNSRuleOptions) : result DNSRule :=
  match r with
  | DNSDefault _ o m a =>
      if negb (dns_IsValid o m a) then Err missing_conditions
      else
        _ ← check_action checkServer a (negb (da_Race a) || IsEnabled m);
        action ← NewDNSRuleAction a;
        rule ← NewDefaultDNSRule B o (IsEnabled m) (ResponseTag m) legacyDNSMode;
        Ok (MkDNSRule rule action (da_Race a))
  | DNSLogical mode rules invert a =>
      valid ← (if negb (nonempty rules) then Ok false else all_valid DNSRule_IsValid rules);
      if negb valid then Err missing_conditions
      else
        _ ← check_action checkServer a true;
        action ← NewDNSRuleAction a;
        mode ← read_mode mode;
        subs ← each_sub (λ sub, _ ← validateNoNestedDNSRuleActions true sub; NewDNSRule false legacyDNSMode sub) 0 rules;
        let rule := LogicalRule (MkLogicalRule (dr_rule <$> subs) mode invert) in
        if da_Race a && negb (hasBindings rule)
        then Err (ENew "`race` requires `match_response` in sub-rules")
        else Ok (MkDNSRule rule action (da_Race a))
  | DNSUnknown type => Err (EFmt "unknown rule type: " [type])
  end.
End rules.

(** ** Starting rules *)

(** What the services of the router answer: its rule-sets, the preferred
    domains of a DNS server, and whether there is a clash-mode manager. *)
Record StartEnv := MkStartEnv {
  se_RuleSet : string → option (RuleSet Rule);
  se_Preferred : string → option (string * option Matcher);
  se_ClashMode : bool;
}.
Section start.
Context (S : StartEnv).

(** [PreferredByDNSItem.Start] and [ClashModeItem.Start]; no other item of a
    DNS rule starts anything. *)
Definition start_item (it : RuleItem) : result RuleItem :=
  match it with
  | PreferredByDNSItem tags transports =>
      added ← map_result (λ _ tag,
                match se_Preferred S tag with
                | None => Err (EFmt "DNS server not found: " [tag])
                | Some (type, None) => Err (EFmt "DNS server type does not support preferred_by: " [type])
                | Some (_, Some preferred) => Ok preferred
                end) 0 tags;
      Ok (PreferredByDNSItem tags (transports ++ added))
  | ClashModeItem _ mode => Ok (ClashModeItem (se_ClashMode S) mode)
  | _ => Ok it
  end.
Definition start_items (l : list RuleItem) : result (list RuleItem) := map_result (λ _, start_item) 0 l.
(** [RuleSetItem.Start]. *)
Definition RuleSetItem_Start (i : RuleSetItem Rule) : result (RuleSetItem Rule) :=
  sets ← map_result (λ _ tag, match se_RuleSet S tag with
                              | Some s => Ok s | None => Err (EFmt "rule-set not found: " [tag]) end) 0 (tagList i);
  Ok (MkRuleSetItem (tagList i) sets (ipCidrMatchSource i) (ipCidrAcceptEmpty i)).

(** Items are started in the order of [allItems]; the groups hold the same
    items. *)
Definition default_Start (r : default_rule) : result default_rule :=
  all ← start_items (allItems r);
  set ← (match ruleSetItem r with None => Ok None | Some i => i ← RuleSetItem_Start i; Ok (Some i) end);
  it ← start_items (items r); sa ← start_items (sourceAddressItems r); sp ← start_items (sourcePortItems r);
  da ← start_items (destinationAddressItems r); dc ← start_items (destinationIPCIDRItems r);
  dp ← start_items (destinationPortItems r);
  Ok (MkDefaultRule it sa sp da dc dp all set (d_invert r)).
Section start_subs.
Variable start : Rule → result Rule.
Fixpoint start_all (l : list Rule) : result (list Rule) :=
  match l with [] => Ok [] | r :: l => x ← start r; xs ← start_all l; Ok (x :: xs) end.
End start_subs.
Fixpoint rule_Start (rule : Rule) : result Rule :=
  match rule with
  | DefaultHeadlessRule _ | DefaultRule _ => Ok rule       (* not DNS rules *)
  | DefaultDNSRule r m tag => r ← default_Start r; Ok (DefaultDNSRule r m tag)
  | LogicalRule l => rules ← start_all rule_Start (l_rules l); Ok (LogicalRule (MkLogicalRule rules (l_mode l) (l_invert l)))
  end.
Definition dns_rule_Start (r : DNSRule) : result DNSRule :=
  rule ← rule_Start (dr_rule r); Ok (MkDNSRule rule (dr_action r) (dr_race r)).
End start.

(** ** The mode *)

Record dnsRuleModeFlags := MkFlags { fl_disabled : bool; fl_needed : bool; fl_neededFromStrategy : bool }.
Definition no_flags : dnsRuleModeFlags := MkFlags false false false.
Definition flags_merge (f other : dnsRuleModeFlags) : dnsRuleModeFlags :=
  MkFlags (fl_disabled f || fl_disabled other) (fl_needed f || fl_needed other)
    (fl_neededFromStrategy f || fl_neededFromStrategy other).

Definition defaultRuleNeedsLegacyDNSModeFromAddressFilter (o : MatchOptions) (m : DNSRuleMatchResponse) : bool :=
  if o_RuleSetIPCIDRAcceptEmpty o then true
  else negb (IsEnabled m) && (o_IPAcceptAny o || nonempty (o_IPCIDR o) || o_IPIsPrivate o).
Definition hasResponseMatchFields (o : MatchOptions) : bool :=
  is_set (o_ResponseRcode o) || nonempty (o_ResponseAnswer o) || nonempty (o_ResponseNs o) ||
  nonempty (o_ResponseExtra o).
Definition defaultRuleDisablesLegacyDNSMode (o : MatchOptions) (m : DNSRuleMatchResponse) (a : DNSRuleAction) : bool :=
  IsEnabled m || hasResponseMatchFields o || action_is a "evaluate" || action_is a "respond" ||
  bool_decide (0 < o_IPVersion o) || nonempty (o_QueryType o).
Definition dnsRuleActionDisablesLegacyDNSMode (a : DNSRuleAction) : bool :=
  if da_Race a then true
  else if is_route a then
    ao_DisableOptimisticCache (ra_options (da_RouteOptions a)) || ra_Speculative (da_RouteOptions a)
  else if action_is a "evaluate" then
    ao_DisableOptimisticCache (ev_options (da_EvaluateOptions a)) || ev_Speculative (da_EvaluateOptions a)
  else if action_is a "route-options" then ao_DisableOptimisticCache (da_RouteOptionsOptions a)
  else false.
Definition has_strategy (o : AbstractDNSRouteActionOptions) : bool := negb (bool_decide (ao_Strategy o = DomainStrategyAsIS)).
Definition dnsRuleActionHasStrategy (a : DNSRuleAction) : bool :=
  if is_route a then has_strategy (ra_options (da_RouteOptions a))
  else if action_is a "evaluate" then has_strategy (ev_options (da_EvaluateOptions a))
  else if action_is a "route-options" then has_strategy (da_RouteOptionsOptions a)
  else false.

(** Accessors of a rule's action. *)
Definition rule_action_options (r : DNSRuleOptions) : option DNSRuleAction :=
  match r with DNSDefault _ _ _ a | DNSLogical _ _ _ a => Some a | DNSUnknown _ => None end.
Definition dnsRuleActionType (r : DNSRuleOptions) : string :=
  match rule_action_options r with
  | Some a => if action_is a "" then "route" else da_Action a
  | None => ""
  end.
Definition is_evaluate (r : DNSRuleOptions) : bool := bool_decide (dnsRuleActionType r = "evaluate"%string).
Definition dnsRuleActionServer (r : DNSRuleOptions) : string :=
  match rule_action_options r with
  | Some a => if is_evaluate r then ev_Server (da_EvaluateOptions a) else ra_Server (da_RouteOptions a)
  | None => ""
  end.
Definition dnsRuleActionEvaluateTag (r : DNSRuleOptions) : string :=
  match rule_action_options r with Some a => ev_Tag (da_EvaluateOptions a) | None => "" end.
Definition dnsRuleActionSpeculative (r : DNSRuleOptions) : bool :=
  match rule_action_options r with
  | Some a => if is_evaluate r then ev_Speculative (da_EvaluateOptions a) else ra_Speculative (da_RouteOptions a)
  | None => false
  end.
Definition dnsRuleRace (r : DNSRuleOptions) : bool :=
  match rule_action_options r with Some a => da_Race a | None => false end.

Section mode.
(** [router.RuleSet(tag)], and the metadata that overrides it. *)
Context (S : StartEnv) (metadataOverrides : gmap string RuleSetMetadata).

Definition lookupDNSRuleSetMetadata (tag : string) : result RuleSetMetadata :=
  match metadataOverrides !! tag with
  | Some metadata => Ok metadata
  | None => match se_RuleSet S tag with
            | Some ruleSet => Ok (rs_metadata ruleSet)
            | None => Err (EFmt "rule-set not found: " [tag])
            end
  end.

Fixpoint set_flags (matchSource : bool) (tags : list string) (f : dnsRuleModeFlags) : result dnsRuleModeFlags :=
  match tags with
  | [] => Ok f
  | tag :: tags =>
      metadata ← lookupDNSRuleSetMetadata tag;
      set_flags matchSource tags
        (MkFlags (fl_disabled f || ContainsDNSQueryTypeRule metadata)
           (if negb matchSource && ContainsIPCIDRRule metadata then true else fl_needed f) (fl_neededFromStrategy f))
  end.
Definition dnsRuleModeRequirementsInDefaultRule (o : MatchOptions) (m : DNSRuleMatchResponse) (a : DNSRuleAction) :
    result dnsRuleModeFlags :=
  let strategy := dnsRuleActionHasStrategy a in
  set_flags (o_RuleSetIPCIDRMatchSource o) (o_RuleSet o)
    (MkFlags (defaultRuleDisablesLegacyDNSMode o m a || dnsRuleActionDisablesLegacyDNSMode a)
       (defaultRuleNeedsLegacyDNSModeFromAddressFilter o m || strategy) strategy).
Fixpoint dnsRuleModeRequirementsInRule (r : DNSRuleOptions) : result dnsRuleModeFlags :=
  match r with
  | DNSDefault _ o m a => dnsRuleModeRequirementsInDefaultRule o m a
  | DNSLogical _ rules _ a =>
      let strategy := dnsRuleActionHasStrategy a in
      subFlags ← each_sub dnsRuleModeRequirementsInRule 0 rules;
      Ok (foldl flags_merge
            (MkFlags (action_is a "evaluate" || action_is a "respond" || dnsRuleActionDisablesLegacyDNSMode a)
               strategy strategy) subFlags)
  | DNSUnknown _ => Ok no_flags
  end.
Definition dnsRuleModeRequirements (rules : list DNSRuleOptions) : result dnsRuleModeFlags :=
  flags ← map_result (λ i r, cause ("dns rule[" +:+ Itoa (Z.of_nat i) +:+ "]") (dnsRuleModeRequirementsInRule r)) 0 rules;
  Ok (foldl flags_merge no_flags flags).

Definition legacy_strategy : error := ENew "legacy-dns-rule-strategy".
Definition legacy_address_filter : error := ENew "legacy-dns-address-filter".
(** The mode and the flags, or the error and nothing. *)
Definition resolveLegacyDNSMode (rules : list DNSRuleOptions) : result (bool * dnsRuleModeFlags) :=
  flags ← dnsRuleModeRequirements rules;
  if fl_disabled flags && fl_neededFromStrategy flags then Err legacy_strategy
  else if fl_disabled flags then Ok (false, flags)
  else Ok (fl_needed flags, flags).

(** ** Rules of the response-matching mode *)

Record dnsRuleResponseUse := MkUse { us_needsAnonymous : bool; us_referencedTags : list string }.
Definition no_use : dnsRuleResponseUse := MkUse false [].
Definition use_merge (u sub : dnsRuleResponseUse) : dnsRuleResponseUse :=
  MkUse (us_needsAnonymous u || us_needsAnonymous sub) (us_referencedTags u ++ us_referencedTags sub).

Definition pure_ip (metadata : RuleSetMetadata) : bool :=
  ContainsIPCIDRRule metadata && negb (ContainsNonIPCIDRRule metadata).
Fixpoint check_pure_ip (tags : list string) : result () :=
  match tags with
  | [] => Ok tt
  | tag :: tags =>
      metadata ← lookupDNSRuleSetMetadata tag;
      if pure_ip metadata then Err legacy_address_filter else check_pure_ip tags
  end.
Definition response_fields : error :=
  ENew "Response Match Fields (ip_cidr, ip_is_private, ip_accept_any, response_rcode, response_answer, response_ns, response_extra) require match_response to be enabled".
Definition validateLegacyDNSModeDisabledDefaultRule (o : MatchOptions) (m : DNSRuleMatchResponse) (a : DNSRuleAction) :
    result dnsRuleResponseUse :=
  if (hasResponseMatchFields o || nonempty (o_IPCIDR o) || o_IPIsPrivate o || o_IPAcceptAny o) && negb (IsEnabled m)
  then Err response_fields
  else
    _ ← (if negb (IsEnabled m) then check_pure_ip (o_RuleSet o) else Ok tt);
    if o_RuleSetIPCIDRAcceptEmpty o then Err accept_empty_removed
    else
      let tag := ResponseTag m in
      let use := if IsEnabled m
                 then if bool_decide (tag = ""%string) then MkUse true [] else MkUse false [tag] else no_use in
      Ok (if action_is a "respond" && bool_decide (tag = ""%string) then MkUse true (us_referencedTags use) else use).
Fixpoint validateLegacyDNSModeDisabledRuleTree (r : DNSRuleOptions) : result dnsRuleResponseUse :=
  match r with
  | DNSDefault _ o m a => validateLegacyDNSModeDisabledDefaultRule o m a
  | DNSLogical _ rules _ a =>
      subs ← each_sub validateLegacyDNSModeDisabledRuleTree 0 rules;
      let use := foldl use_merge no_use subs in
      if action_is a "respond" then
        if nonempty (us_referencedTags use)
        then Err (ENew "respond on a logical rule cannot bind a `match_response` tag from its sub rules; use a non-logical rule")
        else Ok (MkUse true (us_referencedTags use))
      else Ok use
  | DNSUnknown _ => Ok no_use
  end.

Record validation := MkValidation {
  v_warnings : list string;
  v_seenAnonymousEvaluate : bool;
  v_seenRace : bool;
  v_definedTagOrder : list string;
  v_referencedTags : gset string;
  v_lastAnonymousEvaluate : Z;
  v_anonymousReadSinceLast : bool;
}.
Definition at_rule (i : nat) : string := "dns rule[" +:+ Itoa (Z.of_nat i) +:+ "]".
Fixpoint check_tags (i : nat) (defined : list string) (tags : list string) (referenced : gset string) : result (gset string) :=
  match tags with
  | [] => Ok referenced
  | tag :: tags =>
      if bool_decide (tag ∈ defined) then check_tags i defined tags ({[tag]} ∪ referenced)
      else Err (EFmt (at_rule i +:+ ": undefined evaluate tag: ") [tag])
  end.
(** One rule of [validateLegacyDNSModeDisabledRules].  [definedTags] is the set
    of [definedTagOrder]. *)
Definition validate_rule (i : nat) (r : DNSRuleOptions) (v : validation) : result validation :=
  use ← cause ("validate " +:+ at_rule i) (validateLegacyDNSModeDisabledRuleTree r);
  let warnings := v_warnings v ++
    (if dnsRuleActionSpeculative r && negb (v_seenRace v)
     then [at_rule i +:+ ": `speculative` has no effect without a preceding `race` rule"] else []) in
  let seenRace := v_seenRace v || dnsRuleRace r in
  if us_needsAnonymous use && negb (v_seenAnonymousEvaluate v) then
    Err (if nonempty (v_definedTagOrder v)
         then ENew (at_rule i +:+ ": response-based matching requires a preceding evaluate action without `tag`; use `match_response` with an evaluate tag to reference a tagged result")
         else ENew (at_rule i +:+ ": response-based matching requires a preceding evaluate action"))
  else
    let anonymousRead := v_anonymousReadSinceLast v || us_needsAnonymous use in
    referenced ← check_tags i (v_definedTagOrder v) (us_referencedTags use) (v_referencedTags v);
    if is_evaluate r then
      let tag := dnsRuleActionEvaluateTag r in
      if bool_decide (tag = ""%string) then
        Ok (MkValidation (warnings ++
              (if bool_decide (0 ≤ v_lastAnonymousEvaluate v) && negb anonymousRead
               then ["dns rule[" +:+ Itoa (v_lastAnonymousEvaluate v) +:+ "]: evaluated response is overwritten by " +:+
                     at_rule i +:+ " before any use"] else []))
              true seenRace (v_definedTagOrder v) referenced (Z.of_nat i) false)
      else if bool_decide (tag ∈ v_definedTagOrder v) then Err (EFmt (at_rule i +:+ ": duplicate evaluate tag: ") [tag])
      else Ok (MkValidation warnings (v_seenAnonymousEvaluate v) seenRace (v_definedTagOrder v ++ [tag]) referenced
                 (v_lastAnonymousEvaluate v) anonymousRead)
    else Ok (MkValidation warnings (v_seenAnonymousEvaluate v) seenRace (v_definedTagOrder v) referenced
               (v_lastAnonymousEvaluate v) anonymousRead).
Fixpoint validate_rules (i : nat) (rules : list DNSRuleOptions) (v : validation) : result validation :=
  match rules with [] => Ok v | r :: rules => v ← validate_rule i r v; validate_rules (Datatypes.S i) rules v end.
Definition validateLegacyDNSModeDisabledRules (rules : list DNSRuleOptions) : result (list string) :=
  v ← validate_rules 0 rules (MkValidation [] false false [] ∅ (-1) false);
  Ok (v_warnings v ++
      ((λ tag, "evaluate tag is never referenced: " +:+ tag) <$>
         filter (λ tag, tag ∉ v_referencedTags v) (v_definedTagOrder v))).
End mode.

Definition evaluate_fakeip (transports : TransportManager) (r : DNSRuleOptions) : bool :=
  is_evaluate r && negb (bool_decide (dnsRuleActionServer r = ""%string)) &&
  match tm_Transport transports (dnsRuleActionServer r) with Some t => is_fakeip t | None => false end.
Fixpoint validateEvaluateFakeIPRules (transports : TransportManager) (i : nat) (rules : list DNSRuleOptions) : result () :=
  match rules with
  | [] => Ok tt
  | r :: rules =>
      if evaluate_fakeip transports r
      then Err (EFmt (at_rule i +:+ ": evaluate action cannot use fakeip server: ") [dnsRuleActionServer r])
      else validateEvaluateFakeIPRules transports (S i) rules
  end.
