(* ===== verification/DnsRouter.v ===== *)
(** * The life of the DNS router: its rules, its mode and rule-set updates

    [Initialize], [Start], the close function and [ValidateRuleSetMetadataUpdate]
    of [dns/router.go].  The theorems say what the rules of each mode look like:
    the rules the router accepts for the response-matching mode are the rules
    [DnsSeq] speaks of, the legacy mode never meets an action it does not know,
    and a rule-set update the router accepts leaves the mode it runs in right. *)

From S2P Require Import Prelude GoStrings NetAddr RuleContext RuleItems RuleMatch RuleSpec RuleBuild DnsActions DnsWalk DnsLive DnsSeq DnsMode.

Local Open Scope Z_scope.

(** ** State and operations *)

Record Router := MkRouter {
  r_rawRules : list DNSRuleOptions;
  r_rules : list DNSRule;
  r_legacyDNSMode : bool;
  r_started : bool;
  r_closing : bool;
}.
Definition NewRouter : Router := MkRouter [] [] false false false.

Section router.
Context `{UniqOrder} (B : BuildEnv) (S : StartEnv) (transports : TransportManager).

Definition parse_at (i : nat) : string := "parse dns rule[" +:+ Itoa (Z.of_nat i) +:+ "]".
Definition start_at (i : nat) : string := "initialize DNS rule[" +:+ Itoa (Z.of_nat i) +:+ "]".
Definition buildRules (startRules : bool) (rawRules : list DNSRuleOptions) :
    result (list DNSRule * bool * dnsRuleModeFlags) :=
  _ ← map_result (λ i r, cause (parse_at i) (validateNoNestedDNSRuleActions false r)) 0 rawRules;
  mode ← resolveLegacyDNSMode S ∅ rawRules;
  _ ← (if mode.1 : bool then Ok [] else validateLegacyDNSModeDisabledRules S ∅ rawRules);
  _ ← validateEvaluateFakeIPRules transports 0 rawRules;
  rules ← map_result (λ i r, cause (parse_at i) (NewDNSRule B true mode.1 r)) 0 rawRules;
  rules ← (if startRules then map_result (λ i r, cause (start_at i) (dns_rule_Start S r)) 0 rules else Ok rules);
  Ok (rules, mode.1, mode.2).

(** [Initialize] builds the rules once to see their errors. *)
Definition Initialize (rules : list DNSRuleOptions) (r : Router) : result () * Router :=
  let r := MkRouter rules (r_rules r) (r_legacyDNSMode r) (r_started r) (r_closing r) in
  (_ ← buildRules false rules; Ok tt, r).
(** [Start] in its stage [StartStateStart]. *)
Definition Start (r : Router) : result () * Router :=
  match buildRules true (r_rawRules r) with
  | Ok (rules, legacyDNSMode, _) =>
      if r_closing r then (Ok tt, r)
      else (Ok tt, MkRouter (r_rawRules r) rules legacyDNSMode true false)
  | Err e => (Err e, r)
  | Panic w => (Panic w, r)
  end.
Definition Close (r : Router) : Router := MkRouter (r_rawRules r) [] (r_legacyDNSMode r) (r_started r) true.

Definition ValidateRuleSetMetadataUpdate (r : Router) (tag : string) (metadata : RuleSetMetadata) : result () :=
  if negb (nonempty (r_rawRules r)) then Ok tt
  else if r_closing r then Ok tt
  else
    let overrides := {[tag := metadata]} in
    mode ← resolveLegacyDNSMode S overrides (r_rawRules r);
    let check := _ ← validateLegacyDNSModeDisabledRules S overrides (r_rawRules r); Ok tt in
    if negb (r_started r) then if negb mode.1 then check else Ok tt
    else if r_legacyDNSMode r then
      if negb mode.1 && fl_disabled mode.2 then _ ← check; Err legacy_address_filter else Ok tt
    else if mode.1 then Err legacy_address_filter
    else check.
End router.

(** A rule-set takes new rules and metadata. *)
Definition put_set (tag : string) (s : RuleSet Rule) (S : StartEnv) : StartEnv :=
  MkStartEnv (λ t, if bool_decide (t = tag) then Some s else se_RuleSet S t) (se_Preferred S) (se_ClashMode S).

(** ** The mode depends on the metadata only *)

Section ext.
Context (S S' : StartEnv) (o o' : gmap string RuleSetMetadata).
Hypothesis Hlookup : ∀ tag, lookupDNSRuleSetMetadata S o tag = lookupDNSRuleSetMetadata S' o' tag.

Lemma each_sub_ext {A} (f g : DNSRuleOptions → result A) i l :
  Forall (λ r, f r = g r) l → each_sub f i l = each_sub g i l.
Proof. intros Hl. revert i; induction Hl as [|r l Hr _ IH]; intros i; cbn; [done|]. by rewrite Hr, IH. Qed.
Lemma map_result_ext {A C} (f g : nat → A → result C) i l :
  (∀ j x, f j x = g j x) → map_result f i l = map_result g i l.
Proof. intros Hf. revert i; induction l as [|x l IH]; intros i; cbn; [done|]. by rewrite Hf, IH. Qed.

Lemma set_flags_ext ms tags f : set_flags S o ms tags f = set_flags S' o' ms tags f.
Proof.
  revert f; induction tags as [|tag tags IH]; intros f; cbn; [done|]. rewrite Hlookup.
  destruct (lookupDNSRuleSetMetadata S' o' tag); cbn; auto.
Qed.
Lemma requirements_ext r : dnsRuleModeRequirementsInRule S o r = dnsRuleModeRequirementsInRule S' o' r.
Proof.
  induction r as [t m mr a|t|mode rules invert a IH] using DNSOptions_deep_ind; cbn; [apply set_flags_ext|done|].
  by rewrite (each_sub_ext _ _ _ _ IH).
Qed.
Lemma resolve_ext rules : resolveLegacyDNSMode S o rules = resolveLegacyDNSMode S' o' rules.
Proof.
  unfold resolveLegacyDNSMode, dnsRuleModeRequirements.
  erewrite map_result_ext; [done|]. intros j r. cbn. by rewrite requirements_ext.
Qed.
Lemma pure_ip_ext tags : check_pure_ip S o tags = check_pure_ip S' o' tags.
Proof.
  induction tags as [|tag tags IH]; cbn; [done|]. rewrite Hlookup.
  destruct (lookupDNSRuleSetMetadata S' o' tag); cbn; [|done..]. by rewrite IH.
Qed.
Lemma tree_ext r : validateLegacyDNSModeDisabledRuleTree S o r = validateLegacyDNSModeDisabledRuleTree S' o' r.
Proof.
  induction r as [t m mr a|t|mode rules invert a IH] using DNSOptions_deep_ind; cbn; [|done|].
  - unfold validateLegacyDNSModeDisabledDefaultRule. by rewrite pure_ip_ext.
  - by rewrite (each_sub_ext _ _ _ _ IH).
Qed.
Lemma validate_ext rules :
  validateLegacyDNSModeDisabledRules S o rules = validateLegacyDNSModeDisabledRules S' o' rules.
Proof.
  unfold validateLegacyDNSModeDisabledRules. generalize (MkValidation [] false false [] ∅ (-1) false). generalize 0%nat.
  assert (∀ rules i v, validate_rules S o i rules v = validate_rules S' o' i rules v) as Hv.
  { clear rules. intros rules. induction rules as [|r rules IH]; intros i v; cbn; [done|].
    unfold validate_rule. rewrite tree_ext. destruct (cause _ _ ≫= _); cbn; auto. }
  intros i v. by rewrite Hv.
Qed.
End ext.

Lemma override_lookup S tag s t :
  lookupDNSRuleSetMetadata S {[tag := rs_metadata s]} t = lookupDNSRuleSetMetadata (put_set tag s S) ∅ t.
Proof.
  unfold lookupDNSRuleSetMetadata, put_set. cbn. case_bool_decide as Ht.
  - subst. by rewrite lookup_singleton_eq.
  - by rewrite lookup_singleton_ne, lookup_empty.
Qed.

(** ** What the mode promises *)

(** The mode a started router runs in fits its rules and rule-sets. *)
Definition mode_fits (S : StartEnv) (r : Router) : Prop :=
  r_started r = true → r_closing r = false →
  ∃ mode flags, resolveLegacyDNSMode S ∅ (r_rawRules r) = Ok (mode, flags) ∧
  if r_legacyDNSMode r then fl_disabled flags = false
  else mode = false ∧ ∃ warnings, validateLegacyDNSModeDisabledRules S ∅ (r_rawRules r) = Ok warnings.

Lemma resolve_disabled S o rules mode flags :
  resolveLegacyDNSMode S o rules = Ok (mode, flags) → mode = negb (fl_disabled flags) && fl_needed flags.
Proof.
  unfold resolveLegacyDNSMode. intros (f & _ & Hr)%result_bind_Ok.
  destruct (fl_disabled f) eqn:Hd, (fl_neededFromStrategy f); cbn in Hr; try done; injection Hr as <- <-; by rewrite Hd.
Qed.

Section life.
Context `{UniqOrder} (B : BuildEnv) (transports : TransportManager).

Lemma start_fits S r u r' : Start B S transports r = (u, r') → mode_fits S r → mode_fits S r'.
Proof.
  unfold Start. destruct (buildRules _ _ _ _ _) as [[[rules legacy] flags]|e|w] eqn:Hb; try by intros [= _ <-].
  destruct (r_closing r) eqn:Hc; [by intros [= _ <-]|]. intros [= _ <-] _ _ _. cbn.
  unfold buildRules in Hb. apply result_bind_Ok in Hb as (x1 & _ & Hb). apply result_bind_Ok in Hb as ([mode fl] & Hm & Hb).
  apply result_bind_Ok in Hb as (x2 & Hv & Hb). apply result_bind_Ok in Hb as (x3 & _ & Hb).
  apply result_bind_Ok in Hb as (rs & _ & Hb). apply result_bind_Ok in Hb as (rs' & _ & Hb).
  injection Hb as <- <- <-. cbn in *. exists mode, fl. split; [done|].
  pose proof (resolve_disabled _ _ _ _ _ Hm) as Hd. destruct mode.
  - destruct (fl_disabled fl); done.
  - split; [done|]. eauto.
Qed.

Lemma update_fits S r tag s :
  mode_fits S r → ValidateRuleSetMetadataUpdate S r tag (rs_metadata s) = Ok tt → mode_fits (put_set tag s S) r.
Proof.
  intros _ Hu Hst Hcl. unfold ValidateRuleSetMetadataUpdate in Hu. rewrite Hst, Hcl in Hu. cbn [negb] in Hu.
  rewrite <- (resolve_ext S _ {[tag := rs_metadata s]} ∅ (override_lookup S tag s)).
  rewrite <- (validate_ext S _ {[tag := rs_metadata s]} ∅ (override_lookup S tag s)).
  destruct (nonempty (r_rawRules r)) eqn:Hne; cbn [negb] in Hu.
  - apply result_bind_Ok in Hu as ([mode flags] & Hm & Hu). exists mode, flags. split; [done|]. cbn in Hu.
    pose proof (resolve_disabled _ _ _ _ _ Hm) as Hd. destruct (r_legacyDNSMode r).
    + destruct mode; [by destruct (fl_disabled flags)|]. cbn in Hu. destruct (fl_disabled flags); [|done].
      by apply result_bind_Ok in Hu as (? & _ & ?).
    + destruct mode; [done|]. split; [done|]. apply result_bind_Ok in Hu as (w & Hw & _). eauto.
  - apply nonempty_nil in Hne. rewrite Hne. exists false, no_flags. split; [done|].
    destruct (r_legacyDNSMode r); [done|]. split; [done|]. by eexists.
Qed.

(** What happens to a router and the rule-sets it uses.  A rule-set asks the
    router before it takes new rules, and takes them in a second step, under its
    own lock only; the router reads the rule-sets when it builds its rules, and
    publishes the rules in a second step, under its own lock.  In between other
    rule-sets may take updates.  [u_pending] are the updates the router accepted
    and no rule-set has taken yet, [u_building] the rule-sets a start that is
    under way has read; their flags say that nothing they rest on has changed
    since.  [u_overlapped] remembers that an update was taken, or rules were
    published, after that. *)
Record updating := MkUpdating {
  u_sets : StartEnv;
  u_router : Router;
  u_building : option (StartEnv * bool);
  u_pending : list (string * RuleSet Rule * bool);
  u_overlapped : bool;
}.
Definition outdated (pending : list (string * RuleSet Rule * bool)) : list (string * RuleSet Rule * bool) :=
  (λ '(tag, s, _), (tag, s, false)) <$> pending.
Definition outdated_building (b : option (StartEnv * bool)) : option (StartEnv * bool) := (λ x, (x.1, false)) <$> b.
Definition new_updating (S : StartEnv) : updating := MkUpdating S NewRouter None [] false.

Inductive router_step : updating → updating → Prop :=
  | StepInitialize S rules r u r' p o :
      r_started r = false → Initialize B S transports rules r = (u, r') →
      router_step (MkUpdating S r None p o) (MkUpdating S r' None (outdated p) o)
  | StepBuild S r p o : router_step (MkUpdating S r None p o) (MkUpdating S r (Some (S, true)) p o)
  | StepPublish S S' current r u r' p o :
      Start B S' transports r = (u, r') →
      router_step (MkUpdating S r (Some (S', current)) p o) (MkUpdating S r' None (outdated p) (o || negb current))
  | StepClose S r b p o : router_step (MkUpdating S r b p o) (MkUpdating S (Close r) b p o)
  | StepValidate S r b tag s p o :
      ValidateRuleSetMetadataUpdate S r tag (rs_metadata s) = Ok tt →
      router_step (MkUpdating S r b p o) (MkUpdating S r b (p ++ [(tag, s, true)]) o)
  | StepCommit S r b tag s current p1 p2 o :
      router_step (MkUpdating S r b (p1 ++ (tag, s, current) :: p2) o)
        (MkUpdating (put_set tag s S) r (outdated_building b) (outdated (p1 ++ p2)) (o || negb current)).

(** The mode fits, a start under way has read the rule-sets as they are, and
    what was accepted and not outdated would be accepted now. *)
Definition updating_ok (x : updating) : Prop :=
  u_overlapped x = false →
  mode_fits (u_sets x) (u_router x) ∧ (∀ S, u_building x = Some (S, true) → S = u_sets x) ∧
  ∀ tag s, (tag, s, true) ∈ u_pending x → ValidateRuleSetMetadataUpdate (u_sets x) (u_router x) tag (rs_metadata s) = Ok tt.

Lemma outdated_pending p tag s : (tag, s, true) ∉ outdated p.
Proof. unfold outdated. intros ([[t x] c] & [=] & _)%list_elem_of_fmap. Qed.
Lemma outdated_build b S : outdated_building b ≠ Some (S, true).
Proof. by destruct b as [[]|]. Qed.

Lemma close_accepts S r tag m : ValidateRuleSetMetadataUpdate S (Close r) tag m = Ok tt.
Proof. unfold ValidateRuleSetMetadataUpdate. cbn. by destruct (negb _). Qed.

Lemma router_step_ok x y : router_step x y → updating_ok x → updating_ok y.
Proof.
  intros Hs Hx. destruct Hs as [S rules r u r' p o Hns Hi|S r p o|S S' current r u r' p o Hst|S r b p o|S r b tag s p o Hv|
    S r b tag s current p1 p2 o]; intros Ho; cbn [u_overlapped u_pending u_building u_sets u_router] in *.
  - split_and!; [|done|by intros tag s ?%outdated_pending]. injection Hi as _ <-. intros Hst. cbn in Hst. congruence.
  - destruct (Hx Ho) as (Hf & _ & Hp). split_and!; [done|by intros ? [= <-]|done].
  - apply orb_false_iff in Ho as [Ho Hc%negb_false_iff]. subst current. destruct (Hx Ho) as (Hf & Hb & _).
    specialize (Hb S' eq_refl). cbn in Hb. subst S'. split_and!; [by eapply start_fits|done|by intros tag s ?%outdated_pending].
  - destruct (Hx Ho) as (_ & Hb & _). split_and!; [by intros _|done|intros; apply close_accepts].
  - destruct (Hx Ho) as (Hf & Hb & Hp). split_and!; [done..|]. intros t s' [?|Heq%list_elem_of_singleton]%elem_of_app; [by apply Hp|].
    by simplify_eq.
  - apply orb_false_iff in Ho as [Ho Hc%negb_false_iff]. subst current. destruct (Hx Ho) as (Hf & _ & Hp).
    split_and!; [|by intros ? ?%outdated_build|by intros t s' ?%outdated_pending]. apply update_fits; [done|]. apply Hp. set_solver.
Qed.

(** (C22) Rule-set updates that do not overlap never invalidate the mode of the
    DNS router.  Take any sequence of initializing and closing the router, of
    starts (which read the rule-sets and later publish the rules), of rule-set
    updates the router accepts and of rule-sets taking an accepted update, in
    which no update is taken after another rule-set took one or the router was
    initialized or published rules since it was accepted, and no rules are
    published after a rule-set took an update since they were built.  The code
    does not exclude such overlaps, and then it fails (updates_race,
    start_race).  After the sequence, a running router in the legacy mode has no
    rule that needs response matching, and one in the response-matching mode has
    rules that still pass its validation and need no legacy mode, for the
    metadata its rule-sets have now. *)
Theorem mode_always_fits S0 x :
  rtc router_step (new_updating S0) x → u_overlapped x = false → mode_fits (u_sets x) (u_router x).
Proof.
  intros Hs Ho. enough (updating_ok x) as Hx by (by apply Hx).
  assert (updating_ok (new_updating S0)) as H0' by (intros _; split_and!; [done|done|by intros tag s ?%not_elem_of_nil]).
  revert H0'. clear Ho. induction Hs as [x|x y z Hstep _ IH]; [done|]. intros Hx. by apply IH, (router_step_ok x).
Qed.
End life.

(** ** The rules the response-matching mode accepts *)

(** [match_response] as it is read from JSON: a tag turns it on. *)
Definition mr_parsed (m : DNSRuleMatchResponse) : bool :=
  IsEnabled m || bool_decide (ResponseTag m = ""%string).
Fixpoint parsed (r : DNSRuleOptions) : bool :=
  match r with
  | DNSDefault _ _ m _ => mr_parsed m
  | DNSLogical _ rules _ _ => forallb parsed rules
  | DNSUnknown _ => true
  end.
(** Rule-sets hold the rules [reloadRules] builds. *)
Definition headless_sets (S : StartEnv) : Prop :=
  ∀ tag s, se_RuleSet S tag = Some s → forallb headless_ok (rs_rules s) = true.

Lemma response_free_ok inside it : response_free it = true → item_ok inside it = true.
Proof. by destruct it. Qed.
Lemma is_cidr_ok inside it : is_cidr it = true → item_ok inside it = true.
Proof. by destruct it. Qed.
Lemma forallb_weaken {A} (f g : A → bool) l : (∀ x, f x = true → g x = true) → forallb f l = true → forallb g l = true.
Proof. intros Hfg. induction l as [|x l IH]; cbn; [done|]. rewrite !andb_true_iff. naive_solver. Qed.

Lemma headless_plain inside rule : headless_ok rule = true → plain inside rule = true.
Proof.
  induction rule as [rule IH] using Rule_deep_ind. destruct rule as [r|r|r m tag|l]; cbn; try done.
  - unfold early_items, plain_default. rewrite !andb_true_iff.
    intros [[((((H1 & H2) & H3) & H4) & H5) H6] H7]. destruct (ruleSetItem r); [done|].
    split_and!; try done; (eapply forallb_weaken; [|done]); intros it; first [apply response_free_ok|apply is_cidr_ok].
  - intros Hl. cbn in IH. induction (l_rules l) as [|x rules IHl]; [done|]. cbn in *.
    apply andb_true_iff in Hl as [Hx Hl]. inversion IH as [|? ? Hx' Hrest]; subst. apply andb_true_iff. auto.
Qed.

Section accepted.
Context `{UniqOrder} (B : BuildEnv) (S : StartEnv).

(** Items of a DNS rule read responses only under [match_response]. *)
Definition item_scoped (inside : bool) (g : group) (it : RuleItem) : Prop := item_ok inside it = true.
Lemma dns_steps_scoped inside o legacy :
  hasResponseMatchFields o = false ∨ inside = true → Forall (step_all (item_scoped inside)) (dns_rule_steps B o legacy).
Proof.
  intros Hin. unfold dns_rule_steps, item_scoped, hasResponseMatchFields in *.
  split_steps; cbn; intros; step_item; try done; (eexists; split; [reflexivity|]); try done;
    (destruct Hin as [Hn|]; [|done]); exfalso;
    rewrite !orb_false_iff in Hn; unfold is_set in Hn; destruct Hn as [[[? ?] ?] ?]; congruence.
Qed.

Lemma start_item_ok inside it it' : item_ok inside it = true → start_item S it = Ok it' → item_ok inside it' = true.
Proof.
  intros Hok. destruct it; cbn; try (by intros [= <-]).
  intros (l & _ & [= <-])%result_bind_Ok. done.
Qed.
Lemma start_items_ok inside l l' : forallb (item_ok inside) l = true → start_items S l = Ok l' → forallb (item_ok inside) l' = true.
Proof.
  unfold start_items. generalize 0%nat. revert l'. induction l as [|it l IH]; intros l' i Hl; cbn; [by intros [= <-]|].
  cbn in Hl. apply andb_true_iff in Hl as [Hit Hl].
  intros (x & Hx & Hr)%result_bind_Ok. apply result_bind_Ok in Hr as (xs & Hxs & [= <-]). cbn.
  apply andb_true_iff. split; [by eapply start_item_ok|by eapply IH].
Qed.
Lemma start_sets_plain inside i i' :
  headless_sets S → RuleSetItem_Start S i = Ok i' →
  forallb (λ s, forallb (plain inside) (rs_rules s)) (setList i') = true.
Proof.
  intros Hset. unfold RuleSetItem_Start. intros (sets & Hs & [= <-])%result_bind_Ok. cbn.
  apply map_result_Forall2 in Hs. induction Hs as [|tag s tags sets [j Hj] _ IH]; [done|]. cbn.
  destruct (se_RuleSet S tag) as [s'|] eqn:Hl; [|done]. injection Hj as ->. apply andb_true_iff. split; [|done].
  eapply forallb_weaken; [|exact (Hset tag s Hl)]. intros rule. apply headless_plain.
Qed.

Lemma default_Start_plain inside r r' :
  headless_sets S → plain_default (plain inside) inside r = true → default_Start S r = Ok r' →
  plain_default (plain inside) inside r' = true.
Proof.
  intros Hset. unfold plain_default at 1. rewrite !andb_true_iff. intros ((((((H1 & H2) & H3) & H4) & H5) & H6) & _).
  unfold default_Start. intros (all & _ & Hr)%result_bind_Ok. apply result_bind_Ok in Hr as (set & Hs & Hr).
  apply result_bind_Ok in Hr as (l1 & Hl1 & Hr). apply result_bind_Ok in Hr as (l2 & Hl2 & Hr).
  apply result_bind_Ok in Hr as (l3 & Hl3 & Hr). apply result_bind_Ok in Hr as (l4 & Hl4 & Hr).
  apply result_bind_Ok in Hr as (l5 & Hl5 & Hr). apply result_bind_Ok in Hr as (l6 & Hl6 & Hr). injection Hr as <-.
  unfold plain_default. rewrite !andb_true_iff. cbn. split_and!; try (eapply start_items_ok; [|eassumption]; done).
  destruct (ruleSetItem r) as [i|]; [|by injection Hs as <-].
  apply result_bind_Ok in Hs as (i' & Hi & [= <-]). by eapply start_sets_plain.
Qed.

Lemma start_all_Forall2 (f : Rule → result Rule) l l' : start_all f l = Ok l' → Forall2 (λ a b, f a = Ok b) l l'.
Proof.
  revert l'; induction l as [|a l IH]; intros l'; cbn; [intros [= <-]; constructor|].
  intros (x & Hx & Hr)%result_bind_Ok. apply result_bind_Ok in Hr as (xs & Hxs & [= <-]). constructor; auto.
Qed.
(** Starting a rule keeps what it binds. *)
Definition same_binding (rule rule' : Rule) : Prop :=
  MatchResponseTag rule' = MatchResponseTag rule ∧ MatchResponseTags rule' = MatchResponseTags rule ∧
  MatchResponseAnonymous rule' = MatchResponseAnonymous rule.
Lemma rule_Start_binding rule : ∀ rule', rule_Start S rule = Ok rule' → same_binding rule rule'.
Proof.
  induction rule as [rule IH] using Rule_deep_ind. intros rule'.
  destruct rule as [r|r|r m tag|l]; cbn [rule_Start]; try by intros [= <-].
  - by intros (r' & Hr & [= <-])%result_bind_Ok.
  - intros (rules & Hr & [= <-])%result_bind_Ok. apply start_all_Forall2 in Hr. unfold same_binding. cbn in IH |- *.
    assert (map MatchResponseTags rules = map MatchResponseTags (l_rules l) ∧
            existsb MatchResponseAnonymous rules = existsb MatchResponseAnonymous (l_rules l)) as [-> ->]; [|done].
    induction Hr as [|a b la lb Hab _ IHl]; [done|]. inversion IH as [|? ? IHa IHs]; subst. cbn.
    destruct (IHa b Hab) as (_ & -> & ->). by destruct (IHl IHs) as [-> ->].
Qed.
(** ... and what it reads. *)
Lemma rule_Start_scoped rule : ∀ rule', headless_sets S → scoped rule = true → rule_Start S rule = Ok rule' → scoped rule' = true.
Proof.
  induction rule as [rule IH] using Rule_deep_ind. intros rule' Hset Hsc.
  destruct rule as [r|r|r m tag|l]; cbn [rule_Start]; try by intros [= <-].
  - intros (r' & Hr & [= <-])%result_bind_Ok. cbn in *. by eapply default_Start_plain.
  - intros (rules & Hr & [= <-])%result_bind_Ok. apply start_all_Forall2 in Hr. cbn in Hsc, IH |- *.
    induction Hr as [|a b la lb Hab _ IHl]; [done|]. cbn in Hsc |- *. apply andb_true_iff in Hsc as [Ha Hsc].
    inversion IH as [|? ? IHa IHs]; subst. apply andb_true_iff. split; [by apply IHa|by apply IHl].
Qed.

Lemma each_sub_Forall2 {A} (f : DNSRuleOptions → result A) i l l' :
  each_sub f i l = Ok l' → Forall2 (λ r x, f r = Ok x) l l'.
Proof.
  revert i l'; induction l as [|r l IH]; intros i l'; cbn; [intros [= <-]; constructor|].
  intros (x & Hx%cause_Ok & Hr)%result_bind_Ok. apply result_bind_Ok in Hr as (xs & Hxs & [= <-]). constructor; eauto.
Qed.

(** A rule that was built but not started refers to no rule-set yet. *)
Definition unset (r : default_rule) : Prop := ∀ i, ruleSetItem r = Some i → setList i = [].
Lemma run_steps_unset l r r' :
  Forall (λ s, match s with SetRuleSet _ i => setList i = [] | _ => True end) l → unset r → run_steps l r = Ok r' → unset r'.
Proof.
  intros Hl. revert r; induction Hl as [|s l Hs _ IH]; intros r Hr; cbn; [by intros [= <-]|].
  intros (r1 & H1 & H2)%result_bind_Ok. apply (IH r1); [|done]. clear IH H2.
  destruct s as [into b it|into b rit|b e|b i]; cbn in *.
  - injection H1 as <-. destruct b; [|done]. unfold unset. by rewrite (proj1 (append_into_other _ _ _)).
  - destruct b; [|by injection H1 as <-]. apply result_bind_Ok in H1 as (it & Hit & [= <-]).
    unfold unset. by rewrite (proj1 (append_into_other _ _ _)).
  - destruct b; [done|]. by injection H1 as <-.
  - injection H1 as <-. destruct b; [|done]. by intros i' [= <-].
Qed.
Lemma dns_steps_unset o legacy :
  Forall (λ s, match s with SetRuleSet _ i => setList i = [] | _ => True end) (dns_rule_steps B o legacy).
Proof. unfold dns_rule_steps. split_steps; repeat case_match; done. Qed.

Lemma default_built_plain o m legacy r :
  hasResponseMatchFields o = false ∨ m = true →
  run_steps (dns_rule_steps B o legacy) (empty_rule (o_Invert o)) = Ok r → plain_default (plain m) m r = true.
Proof.
  intros Hin Hr.
  assert (∀ g, Forall (item_scoped m g) (group_items g r)) as Hg.
  { eapply run_steps_all; [by apply dns_steps_scoped| |exact Hr]. by intros []. }
  assert (unset r) as Hu by (eapply run_steps_unset; [apply dns_steps_unset| |exact Hr]; done).
  unfold plain_default. rewrite !andb_true_iff. split_and!.
  - exact (forallb_Forall_item _ _ (Hg GItems)).
  - exact (forallb_Forall_item _ _ (Hg GSourceAddress)).
  - exact (forallb_Forall_item _ _ (Hg GSourcePort)).
  - exact (forallb_Forall_item _ _ (Hg GDestinationAddress)).
  - exact (forallb_Forall_item _ _ (Hg GDestinationIPCIDR)).
  - exact (forallb_Forall_item _ _ (Hg GDestinationPort)).
  - destruct (ruleSetItem r) as [i|] eqn:Hi; [|done]. by rewrite (Hu i Hi).
Qed.

(** What validation knows of a default rule. *)
Lemma valid_default o m a ov use :
  validateLegacyDNSModeDisabledDefaultRule S ov o m a = Ok use →
  (hasResponseMatchFields o = false ∨ IsEnabled m = true) ∧
  (IsEnabled m = true → ResponseTag m ≠ ""%string → ResponseTag m ∈ us_referencedTags use).
Proof.
  unfold validateLegacyDNSModeDisabledDefaultRule. destruct (_ && negb (IsEnabled m)) eqn:Hf; [done|].
  intros (x & _ & Hu)%result_bind_Ok. destruct (o_RuleSetIPCIDRAcceptEmpty o); [done|]. injection Hu as <-. split.
  - apply andb_false_iff in Hf as [Hf|Hf]; [|right; by apply negb_false_iff]. left.
    rewrite !orb_false_iff in Hf. naive_solver.
  - intros -> Hne. rewrite bool_decide_eq_false_2 by done. rewrite andb_false_r. cbn. by left.
Qed.

Lemma use_merge_tags subs : ∀ u, us_referencedTags (foldl use_merge u subs) = us_referencedTags u ++ concat (us_referencedTags <$> subs).
Proof.
  induction subs as [|x subs IH]; intros u; cbn; [by rewrite app_nil_r|]. rewrite IH. cbn. by rewrite app_assoc.
Qed.
(** The tags of a logical rule are the tags of its sub-rules. *)
Lemma logical_tags subs mode invert t :
  t ∈ MatchResponseTags (LogicalRule (MkLogicalRule subs mode invert)) ↔ ∃ sub, sub ∈ subs ∧ t ∈ MatchResponseTags sub.
Proof.
  cbn. rewrite Uniq_elem, list_elem_of_In, in_concat. setoid_rewrite in_map_iff. setoid_rewrite <- list_elem_of_In. naive_solver.
Qed.

Lemma Forall2_elem_r {A C} (P : A → C → Prop) l l' c : Forall2 P l l' → c ∈ l' → ∃ a, a ∈ l ∧ P a c.
Proof.
  induction 1 as [|a b l l' Hab _ IH]; [by intros ?%elem_of_nil|]. intros [->|Hc]%elem_of_cons; [exists a; split; [by left|done]|].
  destruct (IH Hc) as (a' & Ha' & HP). exists a'. split; [by right|done].
Qed.
Lemma Forall2_elem_l {A C} (P : A → C → Prop) l l' a : Forall2 P l l' → a ∈ l → ∃ c, c ∈ l' ∧ P a c.
Proof.
  induction 1 as [|x b l l' Hab _ IH]; [by intros ?%elem_of_nil|]. intros [->|Hc]%elem_of_cons; [exists b; split; [by left|done]|].
  destruct (IH Hc) as (c & Hc' & HP). exists c. split; [by right|done].
Qed.

Lemma NewDNSRule_scoped ov legacy r : ∀ check use d,
  parsed r = true → validateLegacyDNSModeDisabledRuleTree S ov r = Ok use → NewDNSRule B check legacy r = Ok d →
  scoped (dr_rule d) = true ∧ ∀ t, t ∈ MatchResponseTags (dr_rule d) → t ∈ us_referencedTags use.
Proof.
  induction r as [typed o m a|t|mode rules invert a IH] using DNSOptions_deep_ind; intros check use d Hp Hu; cbn [NewDNSRule]; [|done|].
  - destruct (dns_IsValid o m a); cbn [negb]; [|done]. intros (x1 & _ & Hn)%result_bind_Ok.
    apply result_bind_Ok in Hn as (act & _ & Hn). apply result_bind_Ok in Hn as (rule & Hr & [= <-]).
    apply result_bind_Ok in Hr as (r & Hr & [= <-]). cbn in Hp, Hu |- *.
    destruct (valid_default _ _ _ _ _ Hu) as [Hin Htag]. split; [by eapply default_built_plain|].
    intros t. case_bool_decide as Hne; [by intros ?%elem_of_nil|]. intros ->%list_elem_of_singleton. apply Htag; [|done].
    unfold mr_parsed in Hp. rewrite bool_decide_eq_false_2, orb_false_r in Hp by done. done.
  - intros (x1 & _ & Hn)%result_bind_Ok. destruct x1; cbn [negb] in Hn; [|done].
    apply result_bind_Ok in Hn as (x2 & _ & Hn). apply result_bind_Ok in Hn as (act & _ & Hn).
    apply result_bind_Ok in Hn as (md & _ & Hn). apply result_bind_Ok in Hn as (subs & Hsubs & Hn).
    apply each_sub_Forall2 in Hsubs. cbv beta in Hsubs.
    cbn in Hp, Hu. apply result_bind_Ok in Hu as (uses & Huses & Hu). apply each_sub_Forall2 in Huses.
    assert (∀ t, t ∈ concat (us_referencedTags <$> uses) → t ∈ us_referencedTags use) as Huse.
    { intros t Ht. destruct (action_is a "respond").
      - rewrite use_merge_tags in Hu. cbn in Hu. destruct (nonempty (concat (us_referencedTags <$> uses))) eqn:Hne; [done|].
        apply nonempty_nil in Hne. rewrite Hne in Ht. by apply elem_of_nil in Ht.
      - injection Hu as <-. by rewrite use_merge_tags. }
    destruct (da_Race a && _); [done|]. injection Hn as <-. cbn [dr_rule].
    assert (∀ sub d, sub ∈ rules → validateNoNestedDNSRuleActions true sub ≫= (λ _, NewDNSRule B false legacy sub) = Ok d →
              ∃ u, u ∈ uses ∧ scoped (dr_rule d) = true ∧ ∀ t, t ∈ MatchResponseTags (dr_rule d) → t ∈ us_referencedTags u) as Hsub.
    { intros sub d' Hin (x & _ & Hd)%result_bind_Ok. destruct (Forall2_elem_l _ _ _ _ Huses Hin) as (u & Hu' & Htree).
      exists u. split; [done|]. rewrite Forall_forall in IH. eapply (IH sub Hin); [by eapply forallb_in|done|done]. }
    split.
    + cbn. apply forallb_forall. intros rule Hrule%list_elem_of_In. apply list_elem_of_fmap in Hrule as (d' & -> & Hd').
      destruct (Forall2_elem_r _ _ _ _ Hsubs Hd') as (sub & Hin & Hnew). by destruct (Hsub sub d' Hin Hnew) as (u & _ & ? & _).
    + intros t (rule & Hrule & Ht)%logical_tags. apply list_elem_of_fmap in Hrule as (d' & -> & Hd').
      destruct (Forall2_elem_r _ _ _ _ Hsubs Hd') as (sub & Hin & Hnew).
      destruct (Hsub sub d' Hin Hnew) as (u & Hu' & _ & Htags). apply Huse. apply list_elem_of_In, in_concat.
      exists (us_referencedTags u). split; apply list_elem_of_In; [by apply list_elem_of_fmap_2|by apply Htags].
Qed.

(** ** Actions, tags and strategies *)

Lemma NewDNSRule_action check legacy r d :
  NewDNSRule B check legacy r = Ok d →
  ∃ a, rule_action_options r = Some a ∧ NewDNSRuleAction a = Ok (dr_action d) ∧ dr_race d = da_Race a.
Proof.
  destruct r as [typed o m a|mode rules invert a|t]; cbn [NewDNSRule rule_action_options]; [| |done]; intros Hd; exists a.
  - destruct (dns_IsValid o m a); cbn [negb] in *; [|done]. apply result_bind_Ok in Hd as (x1 & _ & Hn).
    apply result_bind_Ok in Hn as (act & Ha & Hn). by apply result_bind_Ok in Hn as (rule & _ & [= <-]).
  - apply result_bind_Ok in Hd as ([] & _ & Hn); cbn [negb] in Hn; [|done].
    apply result_bind_Ok in Hn as (x2 & _ & Hn). apply result_bind_Ok in Hn as (act & Ha & Hn).
    apply result_bind_Ok in Hn as (md & _ & Hn). apply result_bind_Ok in Hn as (subs & _ & Hn).
    destruct (da_Race a && _); [done|]. by injection Hn as <-.
Qed.

Definition raw_tag (r : DNSRuleOptions) : list string :=
  if is_evaluate r then if bool_decide (dnsRuleActionEvaluateTag r = ""%string) then [] else [dnsRuleActionEvaluateTag r]
  else [].
Lemma tag_of_raw check legacy r d : NewDNSRule B check legacy r = Ok d → tag_of d = raw_tag r.
Proof.
  intros (a & Ha & Hact & _)%NewDNSRule_action. unfold tag_of, raw_tag, is_evaluate, dnsRuleActionType, dnsRuleActionEvaluateTag.
  rewrite Ha. unfold NewDNSRuleAction in Hact. unfold action_is in *.
  destruct (decide (da_Action a = "")) as [He|He]; [rewrite He in *; injection Hact as <-; done|].
  destruct (decide (da_Action a = "evaluate")) as [Hv|Hv]; [rewrite Hv in *; injection Hact as <-; done|].
  rewrite (bool_decide_eq_false_2 (da_Action a = "")), (bool_decide_eq_false_2 (da_Action a = "evaluate")) in * by done.
  repeat case_bool_decide; try done; by injection Hact as <-.
Qed.

Lemma validate_rule_spec ov i r v v' :
  validate_rule S ov i r v = Ok v' →
  (∃ use, validateLegacyDNSModeDisabledRuleTree S ov r = Ok use) ∧
  v_definedTagOrder v' = v_definedTagOrder v ++ raw_tag r ∧
  (NoDup (v_definedTagOrder v) → NoDup (v_definedTagOrder v')).
Proof.
  unfold validate_rule, raw_tag. intros (use & Hu%cause_Ok & Hv)%result_bind_Ok. split; [eauto|].
  destruct (us_needsAnonymous use && _); [done|]. apply result_bind_Ok in Hv as (refs & _ & Hv).
  destruct (is_evaluate r); [|injection Hv as <-; by rewrite app_nil_r].
  case_bool_decide as Ht; [injection Hv as <-; by rewrite app_nil_r|].
  case_bool_decide as Hin; [done|]. injection Hv as <-. split; [done|]. cbn. intros Hd. apply NoDup_app. split_and!.
  - done.
  - intros x Hx ->%list_elem_of_singleton. done.
  - apply NoDup_singleton.
Qed.
Lemma validate_rules_spec ov rules : ∀ i v v',
  validate_rules S ov i rules v = Ok v' → NoDup (v_definedTagOrder v) →
  Forall (λ r, ∃ use, validateLegacyDNSModeDisabledRuleTree S ov r = Ok use) rules ∧
  NoDup (v_definedTagOrder v ++ (rules ≫= raw_tag)).
Proof.
  induction rules as [|r rules IH]; intros i v v'; cbn [validate_rules].
  - intros _ Hd. split; [constructor|]. cbn. by rewrite app_nil_r.
  - intros (v1 & Hv & Hr)%result_bind_Ok Hd. apply validate_rule_spec in Hv as (Htree & Htags & Hnd).
    destruct (IH _ _ _ Hr (Hnd Hd)) as [Hall Hd']. split; [by constructor|]. cbn. by rewrite app_assoc, <- Htags.
Qed.

(** No action of the rule carries a strategy. *)
Definition plain_strategy (d : DNSRule) : Prop :=
  match dr_action d with
  | Some (ActionDNSRoute _ _ o) | Some (ActionDNSRouteOptions o) | Some (ActionEvaluate _ _ _ o) => ro_Strategy o = DomainStrategyAsIS
  | _ => True
  end.
Lemma no_strategy_action check legacy r d :
  NewDNSRule B check legacy r = Ok d → (∀ a, rule_action_options r = Some a → dnsRuleActionHasStrategy a = false) → plain_strategy d.
Proof.
  intros (a & Ha & Hact & _)%NewDNSRule_action Hs. specialize (Hs a Ha). unfold plain_strategy.
  unfold dnsRuleActionHasStrategy, is_route, has_strategy in Hs. unfold NewDNSRuleAction in Hact.
  destruct (action_is a ""); [by injection Hact as <-|]. cbn [orb] in Hs.
  destruct (action_is a "route"); [injection Hact as <-; by apply negb_false_iff, bool_decide_eq_true in Hs|].
  destruct (action_is a "evaluate"); [injection Hact as <-; by apply negb_false_iff, bool_decide_eq_true in Hs|].
  destruct (action_is a "respond"); [by injection Hact as <-|].
  destruct (action_is a "route-options"); [injection Hact as <-; by apply negb_false_iff, bool_decide_eq_true in Hs|].
  destruct (action_is a "reject"); [by injection Hact as <-|].
  by destruct (action_is a "predefined"); [injection Hact as <-|].
Qed.

(** Flags only grow when they are merged. *)
Definition flags_le (f g : dnsRuleModeFlags) : Prop :=
  (fl_disabled f = true → fl_disabled g = true) ∧ (fl_neededFromStrategy f = true → fl_neededFromStrategy g = true) ∧
  (fl_needed f = true → fl_needed g = true).
Lemma merge_le_l f g : flags_le f (flags_merge f g).
Proof. unfold flags_le, flags_merge. cbn. split_and!; by intros ->. Qed.
Lemma merge_le_r f g : flags_le g (flags_merge f g).
Proof. unfold flags_le, flags_merge. cbn. split_and!; intros ->; apply orb_true_r. Qed.
Lemma flags_le_trans f g h : flags_le f g → flags_le g h → flags_le f h.
Proof. unfold flags_le. naive_solver. Qed.
Lemma foldl_merge_le l : ∀ f, flags_le f (foldl flags_merge f l) ∧ ∀ g, g ∈ l → flags_le g (foldl flags_merge f l).
Proof.
  induction l as [|x l IH]; intros f; cbn; [split; [by split_and!|by intros ? ?%elem_of_nil]|].
  destruct (IH (flags_merge f x)) as [Hf Hl]. split.
  - eapply flags_le_trans; [apply merge_le_l|done].
  - intros g [->|Hg]%elem_of_cons; [|by apply Hl]. eapply flags_le_trans; [apply merge_le_r|done].
Qed.
Lemma set_flags_le ov ms tags : ∀ f f', set_flags S ov ms tags f = Ok f' → flags_le f f'.
Proof.
  induction tags as [|tag tags IH]; intros f f'; cbn [set_flags]; [by intros [= <-]|].
  intros (md & _ & Hr)%result_bind_Ok. apply IH in Hr. eapply flags_le_trans; [|done].
  unfold flags_le. cbn. split_and!; [by intros ->|done|]. intros ->. by destruct (_ && _).
Qed.

(** The flags of a rule tell its action. *)
Lemma rule_flags_action ov r f a :
  dnsRuleModeRequirementsInRule S ov r = Ok f → rule_action_options r = Some a →
  (dnsRuleActionHasStrategy a = true → fl_neededFromStrategy f = true) ∧
  (action_is a "evaluate" || action_is a "respond" || dnsRuleActionDisablesLegacyDNSMode a = true → fl_disabled f = true).
Proof.
  destruct r as [typed o m a'|mode rules invert a'|t]; cbn; [| |done]; intros Hf [= ->].
  - apply set_flags_le in Hf as (Hd & Hs & _). cbn in Hd, Hs. split; [done|]. intros Ha. apply Hd.
    unfold defaultRuleDisablesLegacyDNSMode. rewrite !orb_true_iff in *. tauto.
  - apply result_bind_Ok in Hf as (subs & _ & [= <-]). destruct (foldl_merge_le subs
      (MkFlags (action_is a "evaluate" || action_is a "respond" || dnsRuleActionDisablesLegacyDNSMode a)
         (dnsRuleActionHasStrategy a) (dnsRuleActionHasStrategy a))) as [(Hd & Hs & _) _]. done.
Qed.

(** A rule the legacy mode can run. *)
Definition legacy_rule (d : DNSRule) : Prop :=
  hasBindings (dr_rule d) = false ∧ dr_race d = false ∧
  match dr_action d with
  | Some (ActionEvaluate _ _ _ _) | Some ActionRespond => False
  | Some (ActionDNSRoute _ speculative o) => speculative = false ∧ ro_DisableOptimisticCache o = false
  | Some (ActionDNSRouteOptions o) => ro_DisableOptimisticCache o = false
  | _ => True
  end.
Lemma legacy_action a o race :
  race = da_Race a →
  action_is a "evaluate" || action_is a "respond" || dnsRuleActionDisablesLegacyDNSMode a = false →
  NewDNSRuleAction a = Ok o →
  race = false ∧
  match o with
  | Some (ActionEvaluate _ _ _ _) | Some ActionRespond => False
  | Some (ActionDNSRoute _ speculative o) => speculative = false ∧ ro_DisableOptimisticCache o = false
  | Some (ActionDNSRouteOptions o) => ro_DisableOptimisticCache o = false
  | _ => True
  end.
Proof.
  intros ->. unfold NewDNSRuleAction, dnsRuleActionDisablesLegacyDNSMode, is_route. intros Hoff Hn.
  destruct (da_Race a); [by rewrite orb_true_r in Hoff|]. split; [done|].
  rewrite !orb_false_iff in Hoff. destruct Hoff as [[Hev Hre] Hoff]. rewrite Hev, Hre in *.
  destruct (action_is a ""); [by injection Hn as <-|]. cbn [orb] in Hoff.
  destruct (action_is a "route"); [injection Hn as <-; apply orb_false_iff in Hoff; naive_solver|].
  destruct (action_is a "route-options"); [injection Hn as <-; naive_solver|].
  destruct (action_is a "reject"); [by injection Hn as <-|]. destruct (action_is a "predefined"); [by injection Hn as <-|done].
Qed.
Lemma unbound_iff rule : hasBindings rule = false ↔ MatchResponseTags rule = [] ∧ MatchResponseAnonymous rule = false.
Proof. unfold hasBindings. by rewrite orb_false_iff, nonempty_nil. Qed.

Lemma enabled_bindings ov r : ∀ f check legacy d,
  parsed r = true → dnsRuleModeRequirementsInRule S ov r = Ok f → fl_disabled f = false →
  NewDNSRule B check legacy r = Ok d → hasBindings (dr_rule d) = false.
Proof.
  induction r as [typed o m a|t|mode rules invert a IH] using DNSOptions_deep_ind; intros f check legacy d Hp Hf Hd; cbn [NewDNSRule]; [|done|].
  - destruct (dns_IsValid o m a); cbn [negb]; [|done]. intros (x1 & _ & Hn)%result_bind_Ok.
    apply result_bind_Ok in Hn as (act & _ & Hn). apply result_bind_Ok in Hn as (rule & Hr & [= <-]).
    apply result_bind_Ok in Hr as (r & Hr & [= <-]). cbn in Hp, Hf |- *. apply set_flags_le in Hf as (Hdis & _).
    destruct (IsEnabled m) eqn:Hm; [by rewrite Hdis in Hd; unfold defaultRuleDisablesLegacyDNSMode; rewrite ?Hm|].
    unfold mr_parsed in Hp. rewrite Hm in Hp. apply bool_decide_eq_true in Hp. apply unbound_iff. cbn. by rewrite Hp.
  - intros (x1 & _ & Hn)%result_bind_Ok. destruct x1; cbn [negb] in Hn; [|done].
    apply result_bind_Ok in Hn as (x2 & _ & Hn). apply result_bind_Ok in Hn as (act & _ & Hn).
    apply result_bind_Ok in Hn as (md & _ & Hn). apply result_bind_Ok in Hn as (subs & Hsubs & Hn).
    apply each_sub_Forall2 in Hsubs. cbv beta in Hsubs. cbn in Hp, Hf.
    apply result_bind_Ok in Hf as (fs & Hfs & [= <-]). apply each_sub_Forall2 in Hfs.
    destruct (da_Race a && _); [done|]. injection Hn as <-. cbn [dr_rule].
    assert (∀ d, d ∈ subs → hasBindings (dr_rule d) = false) as Hsub.
    { intros d' Hd'. destruct (Forall2_elem_r _ _ _ _ Hsubs Hd') as (sub & Hin & (x & _ & Hnew)%result_bind_Ok).
      destruct (Forall2_elem_l _ _ _ _ Hfs Hin) as (g & Hg & Hreq). rewrite Forall_forall in IH.
      eapply (IH sub Hin); [by eapply forallb_in|exact Hreq| |exact Hnew].
      match type of Hd with fl_disabled (foldl _ ?f0 _) = _ => destruct (foldl_merge_le fs f0) as [_ Hle] end.
      destruct (Hle g Hg) as (Hdis & _). destruct (fl_disabled g); [|done]. rewrite Hdis in Hd; done. }
    apply unbound_iff. split.
    + destruct (MatchResponseTags _) as [|t l] eqn:Ht; [done|]. exfalso.
      assert (t ∈ MatchResponseTags (LogicalRule (MkLogicalRule (dr_rule <$> subs) md invert))) as Hin by (rewrite Ht; by left).
      apply logical_tags in Hin as (rule & (d' & -> & Hd')%list_elem_of_fmap & Hin).
      destruct (proj1 (unbound_iff _) (Hsub d' Hd')) as [Hno _]. rewrite Hno in Hin. by apply elem_of_nil in Hin.
    + cbn. apply not_true_is_false. intros (rule & (d' & <- & Hd'%list_elem_of_In)%in_map_iff & Ha)%existsb_exists.
      destruct (proj1 (unbound_iff _) (Hsub d' Hd')) as [_ Hno]. congruence.
Qed.

(** A strategy makes the legacy mode needed. *)
Definition strategy_needs (f : dnsRuleModeFlags) : Prop := fl_neededFromStrategy f = true → fl_needed f = true.
Lemma merge_needs f g : strategy_needs f → strategy_needs g → strategy_needs (flags_merge f g).
Proof.
  unfold strategy_needs, flags_merge. cbn. intros Hf Hg [Hs|Hs]%orb_true_iff; apply orb_true_iff; auto.
Qed.
Lemma foldl_needs l : ∀ f, strategy_needs f → Forall strategy_needs l → strategy_needs (foldl flags_merge f l).
Proof.
  induction l as [|g l IH]; intros f Hf Hl; cbn; [done|]. inversion Hl; subst. apply IH; [by apply merge_needs|done].
Qed.
Lemma set_flags_needs ov ms tags : ∀ f f', strategy_needs f → set_flags S ov ms tags f = Ok f' → strategy_needs f'.
Proof.
  induction tags as [|tag tags IH]; intros f f' Hf; cbn [set_flags]; [by intros [= <-]|].
  intros (md & _ & Hr)%result_bind_Ok. eapply IH; [|exact Hr]. unfold strategy_needs. cbn. by destruct (_ && _).
Qed.
Lemma rule_needs ov r : ∀ f, dnsRuleModeRequirementsInRule S ov r = Ok f → strategy_needs f.
Proof.
  induction r as [typed o m a|t|mode rules invert a IH] using DNSOptions_deep_ind; intros f; cbn.
  - intros Hf. eapply set_flags_needs; [|exact Hf]. unfold strategy_needs. cbn. intros ->. apply orb_true_r.
  - by intros [= <-].
  - intros (fs & Hfs%each_sub_Forall2 & [= <-])%result_bind_Ok. apply foldl_needs; [by intros ?|].
    rewrite Forall_forall in IH. apply Forall_forall. intros g Hg.
    destruct (Forall2_elem_r _ _ _ _ Hfs Hg) as (sub & Hin & Hr). by eapply IH.
Qed.

(** Every rule's flags are in the flags of the list. *)
Lemma requirements_spec ov rules mode flags :
  resolveLegacyDNSMode S ov rules = Ok (mode, flags) →
  (∀ r, r ∈ rules → ∃ f, dnsRuleModeRequirementsInRule S ov r = Ok f ∧ flags_le f flags) ∧ strategy_needs flags ∧
  (fl_disabled flags = true → fl_neededFromStrategy flags = false).
Proof.
  unfold resolveLegacyDNSMode, dnsRuleModeRequirements. intros (f & Hf & Hr)%result_bind_Ok.
  apply result_bind_Ok in Hf as (fs & Hfs%map_result_Forall2 & [= <-]).
  assert (foldl flags_merge no_flags fs = flags ∧
          (fl_disabled flags = true → fl_neededFromStrategy flags = false)) as [Heq Hdis].
  { destruct (fl_disabled _) eqn:Hd, (fl_neededFromStrategy _) eqn:Hs; cbn in Hr; try done;
      injection Hr as _ <-; split; congruence. }
  assert (Forall2 (λ r g, dnsRuleModeRequirementsInRule S ov r = Ok g) rules fs) as Hfs'.
  { eapply Forall2_impl; [exact Hfs|]. by intros r g [j ?%cause_Ok]. }
  split_and!; [| |done].
  - intros r Hin. destruct (Forall2_elem_l _ _ _ _ Hfs' Hin) as (g & Hg & Hreq). exists g. split; [done|].
    destruct (foldl_merge_le fs no_flags) as [_ Hle]. rewrite <- Heq. by apply Hle.
  - rewrite <- Heq. apply foldl_needs; [by intros ?|]. apply Forall_forall. intros g Hg.
    destruct (Forall2_elem_r _ _ _ _ Hfs' Hg) as (r & _ & Hreq). by eapply rule_needs.
Qed.

Lemma buildRules_inv transports raw rules legacy flags :
  buildRules B S transports true raw = Ok (rules, legacy, flags) →
  ∃ built, resolveLegacyDNSMode S ∅ raw = Ok (legacy, flags) ∧
    (legacy = false → ∃ v, validate_rules S ∅ 0 raw (MkValidation [] false false [] ∅ (-1) false) = Ok v) ∧
    Forall2 (λ r d, NewDNSRule B true legacy r = Ok d) raw built ∧ Forall2 (λ d d', dns_rule_Start S d = Ok d') built rules.
Proof.
  unfold buildRules. intros (x1 & _ & Hb)%result_bind_Ok. apply result_bind_Ok in Hb as ([mode fl] & Hm & Hb).
  apply result_bind_Ok in Hb as (x2 & Hv & Hb). apply result_bind_Ok in Hb as (x3 & _ & Hb).
  apply result_bind_Ok in Hb as (built & Hbuilt & Hb). apply result_bind_Ok in Hb as (rs & Hst & [= <- <- <-]).
  cbn [fst snd] in *. exists built. split_and!; [done| | |].
  - intros ->. apply result_bind_Ok in Hv as (v & Hv & _). eauto.
  - eapply Forall2_impl; [by eapply map_result_Forall2|]. by intros r d [j ?%cause_Ok].
  - eapply Forall2_impl; [by eapply map_result_Forall2|]. by intros r d [j ?%cause_Ok].
Qed.

(** Starting keeps the action and the binding of a rule. *)
Lemma dns_rule_Start_spec d d' :
  dns_rule_Start S d = Ok d' →
  rule_Start S (dr_rule d) = Ok (dr_rule d') ∧ dr_action d' = dr_action d ∧ dr_race d' = dr_race d ∧
  same_binding (dr_rule d) (dr_rule d').
Proof. intros (rule & Hr & [= <-])%result_bind_Ok. split_and!; try done. by apply rule_Start_binding. Qed.

Lemma respond_rule_ok ov r use d :
  parsed r = true → validateLegacyDNSModeDisabledRuleTree S ov r = Ok use → NewDNSRule B true false r = Ok d →
  respond_ok d = true.
Proof.
  intros Hp Hu Hn. destruct (NewDNSRule_scoped _ _ _ _ _ _ Hp Hu Hn) as [_ Htags].
  unfold respond_ok. destruct (dr_action d) as [[]|] eqn:Hact; try done.
  assert (MatchResponseTag (dr_rule d) = ""%string → MatchResponseTags (dr_rule d) = []) as Hnone.
  { destruct r as [typed o m a|mode rules invert a|t]; [| |done].
    - cbn [NewDNSRule] in Hn. destruct (dns_IsValid o m a); cbn [negb] in Hn; [|done].
      apply result_bind_Ok in Hn as (x1 & _ & Hn). apply result_bind_Ok in Hn as (act & _ & Hn).
      apply result_bind_Ok in Hn as (rule & Hr & [= <-]). apply result_bind_Ok in Hr as (r & _ & [= <-]). cbn. by intros ->.
    - intros _. destruct (NewDNSRule_action _ _ _ _ Hn) as (a' & [= <-] & Ha & _). rewrite Hact in Ha.
      assert (action_is a "respond" = true) as Hr.
      { unfold NewDNSRuleAction in Ha. repeat match type of Ha with (if ?b then _ else _) = _ => destruct b eqn:?; try done end. }
      cbn in Hu. apply result_bind_Ok in Hu as (uses & _ & Hu). rewrite Hr in Hu.
      destruct (nonempty (us_referencedTags _)) eqn:Hne; [done|]. injection Hu as <-. apply nonempty_nil in Hne.
      cbn [us_referencedTags] in Htags. rewrite Hne in Htags.
      destruct (MatchResponseTags (dr_rule d)) as [|t l]; [done|]. exfalso.
      apply (not_elem_of_nil t), Htags. by left. }
  case_bool_decide as Ht; [|done]. cbn [negb orb]. unfold hasBindings. rewrite (Hnone Ht).
  by destruct (MatchResponseAnonymous _).
Qed.
End accepted.

(** ** Theorems *)

Lemma Forall2_r {A C} (P : A → C → Prop) (Q : C → Prop) l l' :
  Forall2 P l l' → (∀ a c, a ∈ l → P a c → Q c) → Forall Q l'.
Proof.
  intros H2 HQ. apply Forall_forall. intros c Hc. destruct (Forall2_elem_r _ _ _ _ H2 Hc) as (a & Ha & HP). eauto.
Qed.
Lemma Forall2_bind {A C} (P : A → C → Prop) (f : A → list string) (g : C → list string) l l' :
  Forall2 P l l' → (∀ a c, P a c → g c = f a) → l' ≫= g = l ≫= f.
Proof. intros H2 HP. induction H2 as [|a c l l' Hac _ IH]; cbn; [done|]. by rewrite (HP a c Hac), IH. Qed.

(** What the router accepts for the response-matching mode. *)
Lemma accepted_rules `{UniqOrder} B S transports raw rules flags :
  forallb parsed raw = true → headless_sets S →
  buildRules B S transports true raw = Ok (rules, false, flags) →
  Forall (λ d, dr_race d = false → rule_ok d = true) rules ∧ NoDup (evaluate_tags rules) ∧ Forall plain_strategy rules.
Proof.
  intros Hp Hset (built & Hm & Hv & Hnew & Hst)%buildRules_inv. destruct (Hv eq_refl) as (v & Hval).
  apply validate_rules_spec in Hval as [Htree Hnd]; [|constructor]. cbn in Hnd. rewrite Forall_forall in Htree.
  destruct (requirements_spec _ _ _ _ _ Hm) as (Hflags & Hneeds & Hdis). pose proof (resolve_disabled _ _ _ _ _ Hm) as Hmode.
  assert (fl_neededFromStrategy flags = false) as Hstrat.
  { destruct (fl_disabled flags) eqn:Hd; [auto|]. destruct (fl_neededFromStrategy flags) eqn:Hs; [|done].
    rewrite (Hneeds Hs) in Hmode. done. }
  assert (∀ d d', d ∈ built → dns_rule_Start S d = Ok d' →
            ∃ r use f, r ∈ raw ∧ NewDNSRule B true false r = Ok d ∧ validateLegacyDNSModeDisabledRuleTree S ∅ r = Ok use ∧
                       dnsRuleModeRequirementsInRule S ∅ r = Ok f ∧ flags_le f flags) as Hback.
  { intros d d' Hd _. destruct (Forall2_elem_r _ _ _ _ Hnew Hd) as (r & Hr & Hd'). destruct (Htree r Hr) as (use & Hu).
    destruct (Hflags r Hr) as (f & Hf & Hle). exists r, use, f. done. }
  split_and!.
  - eapply Forall2_r; [exact Hst|]. intros d d' Hd Hs Hrace. destruct (Hback d d' Hd Hs) as (r & use & f & Hr & Hn & Hu & _).
    assert (parsed r = true) as Hpr by (by eapply forallb_in).
    apply dns_rule_Start_spec in Hs as (Hstart & Hact & Hra & Htag & Htags & Han).
    destruct (NewDNSRule_scoped _ _ _ _ _ _ _ _ Hpr Hu Hn) as [Hsc _].
    pose proof (respond_rule_ok _ _ _ _ _ _ Hpr Hu Hn) as Hresp. unfold rule_ok. rewrite Hrace.
    rewrite (rule_Start_scoped _ _ _ Hset Hsc Hstart). unfold respond_ok, hasBindings in *. by rewrite Hact, Htag, Htags, Han.
  - unfold evaluate_tags. rewrite (Forall2_bind _ tag_of tag_of _ _ Hst).
    + by rewrite (Forall2_bind _ raw_tag tag_of _ _ Hnew) by (intros a c; apply tag_of_raw).
    + intros d d' (_ & Hact & _)%dns_rule_Start_spec. unfold tag_of. by rewrite Hact.
  - eapply Forall2_r; [exact Hst|]. intros d d' Hd Hs. destruct (Hback d d' Hd Hs) as (r & use & f & Hr & Hn & _ & Hf & _ & Hle & _).
    apply dns_rule_Start_spec in Hs as (_ & Hact & _). unfold plain_strategy. rewrite Hact.
    eapply no_strategy_action; [exact Hn|]. intros a Ha. destruct (rule_flags_action _ _ _ _ _ Hf Ha) as [Hsa _].
    destruct (dnsRuleActionHasStrategy a); [|done]. rewrite (Hle (Hsa eq_refl)) in Hstrat. done.
Qed.


(** (C23) The legacy mode meets only what it can run: the rules it accepts bind
    no response, race no other rule, and have no [evaluate], [respond] or
    speculative action and no [disable_optimistic_cache], the parts the legacy
    code does not look at. *)
Theorem legacy_mode_rules `{UniqOrder} B S transports raw rules flags :
  forallb parsed raw = true → buildRules B S transports true raw = Ok (rules, true, flags) →
  Forall legacy_rule rules.
Proof.
  intros Hp (built & Hm & _ & Hnew & Hst)%buildRules_inv.
  destruct (requirements_spec _ _ _ _ _ Hm) as (Hflags & _). pose proof (resolve_disabled _ _ _ _ _ Hm) as Hmode.
  assert (fl_disabled flags = false) as Hdis by (by destruct (fl_disabled flags)).
  eapply Forall2_r; [exact Hst|]. intros d d' Hd (_ & Hact & Hra & _ & Htags & Han)%dns_rule_Start_spec.
  destruct (Forall2_elem_r _ _ _ _ Hnew Hd) as (r & Hr & Hn). destruct (Hflags r Hr) as (f & Hf & Hle & _).
  assert (fl_disabled f = false) as Hdf by (destruct (fl_disabled f); [by rewrite (Hle eq_refl) in Hdis|done]).
  destruct (NewDNSRule_action _ _ _ _ _ Hn) as (a & Ha & Hnew' & Hrace).
  destruct (rule_flags_action _ _ _ _ _ Hf Ha) as [_ Hoff].
  unfold legacy_rule, hasBindings. rewrite Hact, Hra, Htags, Han.
  split; [by eapply enabled_bindings; [eapply forallb_in|..]|].
  apply (legacy_action a); [done| |done]. apply not_true_is_false. intros Hx. rewrite Hoff in Hdf by done. done.
Qed.

(** ** Examples *)

Definition with_rcode (rcode : Z) (o : MatchOptions) : MatchOptions :=
  MkMatchOptions (o_Inbound o) (o_IPVersion o) (o_QueryType o) (o_QueryClientSubnet o) (o_QueryDNSSEC o)
    (o_Network o) (o_AuthUser o) (o_Protocol o) (o_Client o) (o_Domain o) (o_DomainSuffix o)
    (o_DomainKeyword o) (o_DomainRegex o) (o_Geosite o) (o_SourceGeoIP o) (o_GeoIP o) (o_SourceIPCIDR o)
    (o_SourceIPIsPrivate o) (o_IPCIDR o) (o_IPIsPrivate o) (o_IPAcceptAny o) (o_SourcePort o) (o_SourcePortRange o)
    (o_Port o) (o_PortRange o) (o_ProcessName o) (o_ProcessPath o) (o_ProcessPathRegex o) (o_PackageName o)
    (o_PackageNameRegex o) (o_User o) (o_UserID o) (o_Outbound o) (o_ClashMode o) (o_NetworkType o)
    (o_NetworkIsExpensive o) (o_NetworkIsConstrained o) (o_WIFISSID o) (o_WIFIBSSID o) (o_InterfaceAddress o)
    (o_NetworkInterfaceAddress o) (o_DefaultInterfaceAddress o) (o_SourceMACAddress o) (o_SourceHostname o)
    (o_PreferredBy o) (o_RuleSet o) (o_RuleSetIPCIDRMatchSource o) (o_RuleSetIPCIDRAcceptEmpty o)
    (o_Deprecated_RulesetIPCIDRMatchSource o) (Some rcode) (o_ResponseAnswer o) (o_ResponseNs o)
    (o_ResponseExtra o) (o_Invert o) (o_DomainMatcher o) (o_SourceIPSet o) (o_IPSet o) (o_AdGuardDomain o)
    (o_AdGuardDomainMatcher o).
Definition with_sets (tags : list string) (o : MatchOptions) : MatchOptions :=
  MkMatchOptions (o_Inbound o) (o_IPVersion o) (o_QueryType o) (o_QueryClientSubnet o) (o_QueryDNSSEC o)
    (o_Network o) (o_AuthUser o) (o_Protocol o) (o_Client o) (o_Domain o) (o_DomainSuffix o)
    (o_DomainKeyword o) (o_DomainRegex o) (o_Geosite o) (o_SourceGeoIP o) (o_GeoIP o) (o_SourceIPCIDR o)
    (o_SourceIPIsPrivate o) (o_IPCIDR o) (o_IPIsPrivate o) (o_IPAcceptAny o) (o_SourcePort o) (o_SourcePortRange o)
    (o_Port o) (o_PortRange o) (o_ProcessName o) (o_ProcessPath o) (o_ProcessPathRegex o) (o_PackageName o)
    (o_PackageNameRegex o) (o_User o) (o_UserID o) (o_Outbound o) (o_ClashMode o) (o_NetworkType o)
    (o_NetworkIsExpensive o) (o_NetworkIsConstrained o) (o_WIFISSID o) (o_WIFIBSSID o) (o_InterfaceAddress o)
    (o_NetworkInterfaceAddress o) (o_DefaultInterfaceAddress o) (o_SourceMACAddress o) (o_SourceHostname o)
    (o_PreferredBy o) tags (o_RuleSetIPCIDRMatchSource o) (o_RuleSetIPCIDRAcceptEmpty o)
    (o_Deprecated_RulesetIPCIDRMatchSource o) (o_ResponseRcode o) (o_ResponseAnswer o) (o_ResponseNs o)
    (o_ResponseExtra o) (o_Invert o) (o_DomainMatcher o) (o_SourceIPSet o) (o_IPSet o) (o_AdGuardDomain o)
    (o_AdGuardDomainMatcher o).
Definition set_action (action : string) (server tag : string) (strategy : Z) : DNSRuleAction :=
  MkDNSRuleAction action false
    (MkRouteAction server false (MkAbstractOptions 0 strategy false false None None false))
    (MkEvaluateAction server tag false no_abstract) no_abstract (MkRejectAction "" false) (MkPredefinedAction None [] [] []).
Definition sets0 : StartEnv := MkStartEnv (λ tag, if bool_decide (tag = "s"%string) then Some loaded_set else None) (λ _, None) false.

(** Evaluate at server a, and respond when the answer has no error; a rule on
    the rule-set in between. *)
Definition raw_new : list DNSRuleOptions :=
  [DNSDefault true no_options None (set_action "evaluate" "a" "one" 0);
   DNSDefault true (with_sets ["s"%string] no_options) None (set_action "route" "b" "" 0);
   DNSDefault true (with_rcode 0 no_options) (Some (true, "one"%string)) (set_action "respond" "" "" 0)].
Definition rules_new : list DNSRule :=
  match buildRules build0 sets0 transports0 true raw_new with Ok (rules, _, _) => rules | _ => [] end.
Lemma headless_sets0 : headless_sets sets0.
Proof. intros tag s. cbn. case_bool_decide; [|done]. by intros [= <-]. Qed.


(** A strategy asks for the legacy mode. *)
Definition raw_legacy : list DNSRuleOptions :=
  [DNSDefault true (with_sets ["s"%string] no_options) None (set_action "route" "a" "" 3)].
Definition rules_legacy : list DNSRule :=
  match buildRules build0 sets0 transports0 true raw_legacy with Ok (rules, _, _) => rules | _ => [] end.
Lemma legacy_mode_rules_witness : length rules_legacy = 1%nat ∧ Forall legacy_rule rules_legacy.
Proof.
  split; [reflexivity|]. apply (legacy_mode_rules build0 sets0 transports0 raw_legacy rules_legacy (MkFlags false true true)).
  - reflexivity.
  - vm_compute. reflexivity.
Defined.

(** A running router whose rule-set is replaced. *)
Definition updated_set : RuleSet Rule := MkRuleSet [] (MkRuleSetMetadata false false true true true).
Definition running : Router := (Start build0 sets0 transports0 (MkRouter raw_new [] false false false)).2.
Lemma mode_always_fits_witness :
  r_started running = true ∧ r_legacyDNSMode running = false ∧ mode_fits (put_set "s" updated_set sets0) running.
Proof.
  split; [reflexivity|]. split; [reflexivity|].
  apply (mode_always_fits build0 transports0 sets0 (MkUpdating (put_set "s" updated_set sets0) running None [] false)); [|reflexivity].
  apply (rtc_l _ _ (MkUpdating sets0 (MkRouter raw_new [] false false false) None [] false)).
  { exact (StepInitialize build0 transports0 sets0 raw_new NewRouter _ _ [] false eq_refl eq_refl). }
  eapply rtc_l; [apply StepBuild|]. apply (rtc_l _ _ (MkUpdating sets0 running None [] false)).
  { exact (StepPublish build0 transports0 sets0 sets0 true _ _ _ [] false (surjective_pairing _)). }
  apply (rtc_l _ _ (MkUpdating sets0 running None [("s"%string, updated_set, true)] false)).
  { apply (StepValidate build0 transports0 sets0 running None "s" updated_set [] false). vm_compute. reflexivity. }
  exact (rtc_once _ _ (StepCommit build0 transports0 sets0 running None "s" updated_set true [] [] false)).
Defined.

(** Two rule-sets: the first has a query type rule, which keeps the router out
    of the legacy mode.  One update drops it; another brings addresses, beside
    other conditions, to the second rule-set.  The router accepts each, judged
    by the other set as it was; after both are taken the rules ask for the
    legacy mode and the router runs in the other one. *)
Definition query_type_set : RuleSet Rule := MkRuleSet [] (MkRuleSetMetadata false false false true true).
Definition plain_set : RuleSet Rule := MkRuleSet [] (MkRuleSetMetadata false false false false true).
Definition mixed_set : RuleSet Rule := MkRuleSet [] (MkRuleSetMetadata false false true false true).
Definition sets_pair : StartEnv :=
  MkStartEnv (λ tag, if bool_decide (tag = "s"%string) then Some query_type_set
                     else if bool_decide (tag = "t"%string) then Some plain_set else None) (λ _, None) false.
Definition raw_pair : list DNSRuleOptions :=
  [DNSDefault true (with_sets ["s"%string] no_options) None (set_action "route" "a" "" 0);
   DNSDefault true (with_sets ["t"%string] no_options) None (set_action "route" "b" "" 0)].
Definition running_pair : Router := (Start build0 sets_pair transports0 (MkRouter raw_pair [] false false false)).2.

Lemma pair_initialized :
  rtc (router_step build0 transports0) (new_updating sets_pair)
    (MkUpdating sets_pair (MkRouter raw_pair [] false false false) None [] false).
Proof. exact (rtc_once _ _ (StepInitialize build0 transports0 sets_pair raw_pair NewRouter _ _ [] false eq_refl eq_refl)). Qed.
Lemma pair_runs :
  rtc (router_step build0 transports0) (new_updating sets_pair) (MkUpdating sets_pair running_pair None [] false).
Proof.
  etrans; [exact pair_initialized|]. eapply rtc_l; [apply StepBuild|].
  exact (rtc_once _ _ (StepPublish build0 transports0 sets_pair sets_pair true _ _ _ [] false (surjective_pairing _))).
Qed.
Lemma updates_race :
  let p1 := [("s"%string, plain_set, true); ("t"%string, mixed_set, true)] in
  let final := MkUpdating (put_set "t" mixed_set (put_set "s" plain_set sets_pair)) running_pair None [] true in
  rtc (router_step build0 transports0) (new_updating sets_pair) (MkUpdating sets_pair running_pair None p1 false)
  ∧ rtc (router_step build0 transports0) (MkUpdating sets_pair running_pair None p1 false) final
  ∧ r_started running_pair = true ∧ r_closing running_pair = false ∧ r_legacyDNSMode running_pair = false
  ∧ resolveLegacyDNSMode (u_sets final) ∅ (r_rawRules running_pair) = Ok (true, MkFlags false true false).
Proof.
  intros p1 final. split_and!; try reflexivity.
  - apply (rtc_r _ (MkUpdating sets_pair running_pair None [("s"%string, plain_set, true)] false));
      [apply (rtc_r _ (MkUpdating sets_pair running_pair None [] false)); [exact pair_runs|]|].
    + apply (StepValidate build0 transports0 sets_pair running_pair None "s" plain_set [] false). vm_compute. reflexivity.
    + apply (StepValidate build0 transports0 sets_pair running_pair None "t" mixed_set [("s"%string, plain_set, true)] false).
      vm_compute. reflexivity.
  - apply (rtc_l _ _ (MkUpdating (put_set "s" plain_set sets_pair) running_pair None [("t"%string, mixed_set, false)] false)).
    { exact (StepCommit build0 transports0 sets_pair running_pair None "s" plain_set true [] [("t"%string, mixed_set, true)] false). }
    exact (rtc_once _ _ (StepCommit build0 transports0 _ running_pair None "t" mixed_set false [] [] false)).
Qed.

(** An update that is taken between the building and the publishing of the
    rules: the router, not started, lets the rules change to the legacy mode, and
    then starts in the mode it had found before. *)
Definition sets_plain : StartEnv := put_set "s" plain_set sets_pair.
Definition started_plain : Router := (Start build0 sets_plain transports0 (MkRouter raw_pair [] false false false)).2.
Lemma start_race :
  let final := MkUpdating (put_set "t" mixed_set sets_plain) started_plain None [] true in
  rtc (router_step build0 transports0) (new_updating sets_plain) final
  ∧ r_started started_plain = true ∧ r_closing started_plain = false ∧ r_legacyDNSMode started_plain = false
  ∧ resolveLegacyDNSMode (u_sets final) ∅ (r_rawRules started_plain) = Ok (true, MkFlags false true false).
Proof.
  intros final. split_and!; try reflexivity. set (r0 := MkRouter raw_pair [] false false false).
  eapply rtc_l; [exact (StepInitialize build0 transports0 sets_plain raw_pair NewRouter _ _ [] false eq_refl eq_refl)|].
  eapply rtc_l; [apply StepBuild|].
  eapply rtc_l; [apply (StepValidate build0 transports0 sets_plain r0 _ "t" mixed_set [] false); vm_compute; reflexivity|].
  eapply rtc_l; [exact (StepCommit build0 transports0 sets_plain r0 _ "t" mixed_set true [] [] false)|].
  exact (rtc_once _ _ (StepPublish build0 transports0 _ sets_plain false r0 _ _ [] false (surjective_pairing _))).
Qed.
