(* ===== verification/DnsCache.v ===== *)
(** * The cache of the DNS client

    [dns/client.go] and [dns/extension_edns0_subnet.go], the parts that do not
    wait: client subnets in queries, cache keys, times to live, looking up and
    storing responses and the end of an exchange.  [DnsClient] has the
    operations that wait for each other. *)

From S2P Require Import Prelude GoStrings NetAddr RuleContext RuleItems RuleMatch RuleSpec Bytes DnsActions.

Local Open Scope Z_scope.

(** ** Messages *)

Definition RcodeNameError : Z := 3.
Definition SVCB_IPV4HINT : Z := 4.
Definition SVCB_IPV6HINT : Z := 6.
Definition svcb_Key (v : SVCBValue) : Z :=
  match v with SVCBIPv4Hint _ => SVCB_IPV4HINT | SVCBIPv6Hint _ => SVCB_IPV6HINT | SVCBOther code => code end.
Definition is_opt (r : Resource) : bool := match rr_Data r with RR_OPT _ _ => true | _ => false end.
Definition is_subnet (o : EDNS0) : bool := match o with EDNS0_SUBNET _ _ _ => true | _ => false end.

Definition with_id (id : Z) (m : Message) : Message :=
  MkMessage id (msg_Response m) (msg_Authoritative m) (msg_RecursionDesired m) (msg_RecursionAvailable m) (msg_Rcode m)
    (msg_Question m) (msg_Answer m) (msg_Ns m) (msg_Extra m).
Definition with_answer (answer : list Resource) (m : Message) : Message :=
  MkMessage (msg_Id m) (msg_Response m) (msg_Authoritative m) (msg_RecursionDesired m) (msg_RecursionAvailable m)
    (msg_Rcode m) (msg_Question m) answer (msg_Ns m) (msg_Extra m).
Definition with_extra (extra : list Resource) (m : Message) : Message :=
  MkMessage (msg_Id m) (msg_Response m) (msg_Authoritative m) (msg_RecursionDesired m) (msg_RecursionAvailable m)
    (msg_Rcode m) (msg_Question m) (msg_Answer m) (msg_Ns m) extra.
Definition map_records (f : Resource → Resource) (m : Message) : Message :=
  MkMessage (msg_Id m) (msg_Response m) (msg_Authoritative m) (msg_RecursionDesired m) (msg_RecursionAvailable m)
    (msg_Rcode m) (msg_Question m) (f <$> msg_Answer m) (f <$> msg_Ns m) (f <$> msg_Extra m).
Definition with_data (d : RR) (r : Resource) : Resource := MkResource (rr_Name r) (rr_Ttl r) d.
Definition with_ttl (ttl : Z) (r : Resource) : Resource := MkResource (rr_Name r) ttl (rr_Data r).
Definition map_options (f : list EDNS0 → list EDNS0) (r : Resource) : Resource :=
  match rr_Data r with RR_OPT class options => with_data (RR_OPT class (f options)) r | _ => r end.

Definition FixedResponseStatus (message : Message) (rcode : Z) : Message :=
  MkMessage (msg_Id message) true true true true rcode (msg_Question message) [] [] [].

(** What the client uses of the message library: EDNS0 records and the wire
    format. *)
Record OptView := MkOptView { opt_Version : Z; opt_UDPSize : Z; opt_Do : bool }.
Class MessageLib := {
  IsEdns0 : Message → option OptView;
  edns0_record : Z → bool → Resource;
  Pack : Message → option (list Z);
  Unpack : list Z → option Message;
}.
Definition SetEdns0 `{MessageLib} (udpSize : Z) (do : bool) (m : Message) : Message :=
  with_extra (msg_Extra m ++ [edns0_record udpSize do]) m.

(** ** Client subnets *)

Definition clientSubnetFromMessage (message : Message) : Prefix :=
  match filter (λ o, is_subnet o = true)
          (msg_Extra message ≫= λ r, match rr_Data r with RR_OPT _ options => options | _ => [] end) with
  | EDNS0_SUBNET _ sourceNetmask address :: _ =>
      match AddrFromSlice address with
      | None => PrefixZero
      | Some address => PrefixFrom (Unmap address) sourceNetmask
      end
  | _ => PrefixZero
  end.

Definition removeClientSubnet (message : Message) : Message :=
  with_extra (map_options (filter (λ o, is_subnet o = false)) <$> msg_Extra message) message.

(** The loop [findExists]: the OPT record and the subnet option it leaves in its
    two variables.  A record of another type resets the first. *)
Fixpoint find_opt (i : nat) (optRecord : option nat) (extra : list Resource) : option nat * option nat :=
  match extra with
  | [] => (optRecord, None)
  | record :: extra =>
      match rr_Data record with
      | RR_OPT _ options =>
          match list_find (λ o, is_subnet o = true) options with
          | Some (j, _) => (Some i, Some j)
          | None => find_opt (S i) (Some i) extra
          end
      | _ => find_opt (S i) None extra
      end
  end.
Definition subnet_option (clientSubnet : Prefix) : EDNS0 :=
  EDNS0_SUBNET (if Is4 (prefix_addr clientSubnet) then 1 else 2) (u8 (prefix_Bits clientSubnet))
    (AsSlice (prefix_addr clientSubnet)).
Definition SetClientSubnet (message : Message) (clientSubnet : Prefix) : Message :=
  let '(optRecord, subnetOption) := find_opt 0 None (msg_Extra message) in
  let put options := match subnetOption with
                     | Some j => <[j := subnet_option clientSubnet]> options
                     | None => options ++ [subnet_option clientSubnet]
                     end in
  match optRecord with
  | None => with_extra (msg_Extra message ++ [MkResource "." 0 (RR_OPT 0 [subnet_option clientSubnet])]) message
  | Some i => with_extra (alter (map_options put) i (msg_Extra message)) message
  end.

(** ** Cache keys *)

Record dnsCacheKey := MkCacheKey {
  ck_Question : Question;
  ck_transportTag : string;
  ck_clientSubnet : Prefix;
  ck_environment : Z;
}.
Record dnsExchangeKey := MkExchangeKey { ek_key : dnsCacheKey; ek_timeout : Z }.
#[export] Instance Question_eq_dec : EqDecision Question.
Proof. solve_decision. Defined.
#[export] Instance dnsCacheKey_eq_dec : EqDecision dnsCacheKey.
Proof. solve_decision. Defined.
#[export] Instance dnsExchangeKey_eq_dec : EqDecision dnsExchangeKey.
Proof. solve_decision. Defined.
#[export] Instance dnsCacheKey_countable : Countable dnsCacheKey.
Proof.
  refine (inj_countable'
    (λ k, (q_Name (ck_Question k), q_Qtype (ck_Question k), q_Qclass (ck_Question k), ck_transportTag k,
           prefix_addr (ck_clientSubnet k), bitsPlusOne (ck_clientSubnet k), ck_environment k))
    (λ '(n, t, c, tag, a, b, e), MkCacheKey (MkQuestion n t c) tag (MkPrefix a b) e) _).
  by intros [[] ? [] ?].
Defined.
#[export] Instance dnsExchangeKey_countable : Countable dnsExchangeKey.
Proof.
  refine (inj_countable' (λ k, (ek_key k, ek_timeout k)) (λ '(k, t), MkExchangeKey k t) _). by intros [].
Defined.

(** [strconv.FormatUint] with base 36. *)
Definition digit36 (d : Z) : Ascii.ascii := Ascii.ascii_of_nat (Z.to_nat (if d <? 10 then 48 + d else 87 + d)).
Fixpoint format36_go (fuel : nat) (x : Z) (acc : string) : string :=
  match fuel with
  | O => acc
  | S fuel =>
      let acc := String (digit36 (x `mod` 36)) acc in
      if x / 36 =? 0 then acc else format36_go fuel (x / 36) acc
  end.
Definition FormatUint36 (x : Z) : string := format36_go 13 x "".

(** [hash/fnv], the 64-bit FNV-1a. *)
Definition fnv_write (h : Z) (l : list Z) : Z :=
  foldl (λ h b, (Z.lxor h b * 1099511628211) `mod` 2^64) h l.
Definition fnv_offset : Z := 14695981039346656037.

(** The configuration of a client and the machine it runs on: the texts of
    prefixes, the environments of its transports and of the network at a time,
    and [int(d.Seconds())], which goes through a float64. *)
Inductive CacheKind := CacheNone | CacheMemory | CachePersistent.
Class ClientEnv := {
  cl_timeout : Z;
  cl_disableCache : bool;
  cl_disableExpire : bool;
  cl_optimisticTimeout : Z;
  cl_clientSubnet : Prefix;
  cl_cache : CacheKind;
  cl_rdrc : bool;
  prefix_String : Prefix → string;
  Environment : Z → Transport → option (list string);
  NetworkEnvironment : Z → Z;
  whole_seconds : Z → Z;
}.

(** Where the entry of a key lies: in the memory cache under the key, in the
    cache file under a name, the name of the question and its type. *)
Abbreviation slot := (dnsCacheKey + string * string * Z)%type.
(** What an entry holds: a message, or its wire format in the cache file.  A
    lifetime of [None] never ends. *)
Inductive stored := StoredMessage (m : Message) | StoredPacked (raw : list Z).
Record entry := MkEntry { en_stored : stored; en_expireAt : option Z }.
Abbreviation dnsCache := (gmap slot entry).

Section client.
Context `{MessageLib, ClientEnv}.

Definition persistentName (k : dnsCacheKey) : string :=
  ck_transportTag k +:+
  (if prefix_IsValid (ck_clientSubnet k) then String (Ascii.ascii_of_nat 0) (prefix_String (ck_clientSubnet k)) else "") +:+
  (if bool_decide (ck_environment k = 0) then "" else String (Ascii.ascii_of_nat 1) (FormatUint36 (ck_environment k))).

Definition environmentHash (now : Z) (transport : Transport) : Z :=
  match Environment now transport with
  | None => 0
  | Some environment =>
      let networkEnvironment := NetworkEnvironment now in
      if negb (nonempty environment) then networkEnvironment
      else fnv_write (foldl (λ h entry, fnv_write (fnv_write h (bytes_of entry)) [0]) fnv_offset environment)
             (be_split 8 networkEnvironment)
  end.

(** The subnet a query asks for. *)
Definition query_subnet (options : DNSQueryOptions) : Prefix :=
  if prefix_IsValid (qo_ClientSubnet options) then qo_ClientSubnet options else cl_clientSubnet.
Definition newCacheKey (now : Z) (transport : Transport) (question : Question) (message : Message)
    (options : DNSQueryOptions) : dnsCacheKey :=
  let clientSubnet :=
    if qo_RemoveClientSubnet options then PrefixZero
    else if prefix_IsValid (query_subnet options) then query_subnet options
    else clientSubnetFromMessage message in
  MkCacheKey question (tr_Tag transport) clientSubnet (environmentHash now transport).
Definition finishCacheKey (now : Z) (transport : Transport) (key : dnsCacheKey) : dnsCacheKey * bool :=
  let environment := environmentHash now transport in
  if (environment =? ck_environment key) || (ck_environment key =? 0)
  then (MkCacheKey (ck_Question key) (ck_transportTag key) (ck_clientSubnet key) environment, true)
  else (key, false).

Definition prepareExchangeMessage (message : Message) (options : DNSQueryOptions) : Message :=
  if qo_RemoveClientSubnet options then removeClientSubnet message
  else if prefix_IsValid (query_subnet options) then SetClientSubnet message (query_subnet options)
  else message.

Definition isSimpleRequest (message : Message) : bool :=
  bool_decide (length (msg_Question message) = 1%nat) && negb (nonempty (msg_Ns message)) &&
  match msg_Extra message with
  | [] => true
  | [r] => match rr_Data r with
           | RR_OPT class options => (0 <? class) && (rr_Ttl r =? 0) && forallb is_subnet options
           | _ => false
           end
  | _ => false
  end.

(** ** Times to live *)

Fixpoint extractNegativeTTL (ns : list Resource) : option Z :=
  match ns with
  | [] => None
  | record :: ns =>
      match rr_Data record with
      | RR_SOA soaMinimum _ => Some (if rr_Ttl record <? soaMinimum then rr_Ttl record else soaMinimum)
      | _ => extractNegativeTTL ns
      end
  end.
Definition records (m : Message) : list Resource := msg_Answer m ++ msg_Ns m ++ msg_Extra m.
Definition ttl_step (timeToLive : Z) (record : Resource) : Z :=
  if is_opt record then timeToLive
  else if (timeToLive =? 0) || (0 <? rr_Ttl record) && (rr_Ttl record <? timeToLive) then rr_Ttl record
  else timeToLive.
Definition computeTimeToLive (response : Message) : Z :=
  match (if nonempty (msg_Answer response) then None else extractNegativeTTL (msg_Ns response)) with
  | Some soaTTL => soaTTL
  | None => foldl ttl_step 0 (records response)
  end.
Definition normalizeTTL (timeToLive : Z) (response : Message) : Message :=
  map_records (λ record, if is_opt record then record else with_ttl timeToLive record) response.

Definition filter_hints (strategy : Z) (r : Resource) : Resource :=
  match rr_Data r with
  | RR_HTTPS value =>
      let key := if strategy =? DomainStrategyIPv4Only then SVCB_IPV6HINT else SVCB_IPV4HINT in
      with_data (RR_HTTPS (filter (λ it, svcb_Key it ≠ key) value)) r
  | _ => r
  end.
Definition applyResponseOptions (question : Question) (response : Message) (options : DNSQueryOptions) : Message * Z :=
  let strategy := qo_Strategy options in
  let response :=
    if (q_Qtype question =? TypeHTTPS) && ((strategy =? DomainStrategyIPv4Only) || (strategy =? DomainStrategyIPv6Only))
    then with_answer (filter_hints strategy <$> msg_Answer response) response else response in
  let timeToLive := default (computeTimeToLive response) (qo_RewriteTTL options) in
  (normalizeTTL timeToLive response, timeToLive).
Definition stripDNSPadding (response : Message) : Message :=
  with_extra (map_options (filter (λ o, o ≠ EDNS0_PADDING)) <$> msg_Extra response) response.

(** ** The cache *)

(** The slot of a key. *)
Definition slot_of (k : dnsCacheKey) : option slot :=
  match cl_cache with
  | CacheNone => None
  | CacheMemory => Some (inl k)
  | CachePersistent => Some (inr (persistentName k, q_Name (ck_Question k), q_Qtype (ck_Question k)))
  end.
Definition storeCache (now : Z) (key : dnsCacheKey) (message : Message) (timeToLive : Z) (c : dnsCache) : dnsCache :=
  if timeToLive =? 0 then c
  else
    match slot_of key with
    | None => c
    | Some (inr name) =>
        match Pack message with
        | Some packed => <[inr name := MkEntry (StoredPacked packed) (Some (now + second * timeToLive))]> c
        | None => c
        end
    | Some (inl key) =>
        let expireAt := if cl_disableExpire then None else Some (now + second * timeToLive) in
        <[inl key := MkEntry (StoredMessage message) expireAt]> c
    end.

(** The message of an entry; one that does not unpack is no entry. *)
Definition entry_message (e : entry) : option Message :=
  match en_stored e with StoredMessage m => Some m | StoredPacked raw => Unpack raw end.
(** [loadResponse] and [loadPersistentResponse]: the response, its time to live
    and whether it is stale.  The memory cache drops an entry that is too old. *)
Definition loadResponse (now : Z) (key : dnsCacheKey) (c : dnsCache) : option (Message * Z * bool) * dnsCache :=
  match slot_of key with
  | None => (None, c)
  | Some s =>
      match c !! s with
      | None => (None, c)
      | Some e =>
          match entry_message e with
          | None => (None, c)
          | Some response =>
              match (if cl_disableExpire then None else en_expireAt e) with
              | None => (Some (response, 0, false), c)
              | Some expireAt =>
                  if expireAt <? now then
                    if (0 <? cl_optimisticTimeout) && (now <? expireAt + cl_optimisticTimeout)
                    then (Some (normalizeTTL 1 response, 0, true), c)
                    else (None, match s with inl _ => delete s c | inr _ => c end)
                  else
                    let nowTTL := Z.max (whole_seconds (expireAt - now)) 0 in
                    (Some (normalizeTTL (u32 nowTTL) response, nowTTL, false), c)
              end
          end
      end
  end.
End client.

(** ** What the message sent says about the subnet *)

Definition opt_options (r : Resource) : list EDNS0 := match rr_Data r with RR_OPT _ options => options | _ => [] end.
Definition subnets (extra : list Resource) : list EDNS0 := filter (λ o, is_subnet o = true) (extra ≫= opt_options).
Lemma subnets_cons r extra : subnets (r :: extra) = filter (λ o, is_subnet o = true) (opt_options r) ++ subnets extra.
Proof. unfold subnets. cbn. by rewrite filter_app. Qed.
Lemma subnets_app l l' : subnets (l ++ l') = subnets l ++ subnets l'.
Proof. unfold subnets. by rewrite bind_app, filter_app. Qed.

Lemma no_subnet options : list_find (λ o, is_subnet o = true) options = None → filter (λ o, is_subnet o = true) options = [].
Proof.
  intros Hf. apply list_find_None in Hf. induction Hf as [|o l Ho _ IH]; [done|]. by rewrite filter_cons_False.
Qed.

(** The first subnet option of a list replaced by another. *)
Lemma replace_subnet options j o x :
  list_find (λ o, is_subnet o = true) options = Some (j, o) → is_subnet x = true →
  ∃ l, filter (λ o, is_subnet o = true) (<[j := x]> options) = x :: l.
Proof.
  revert j o. induction options as [|y options IH]; intros j o Hf Hx; cbn [list_find] in Hf; [done|].
  case_decide as Hy; [injection Hf as <- <-|destruct (list_find _ options) as [[j' o']|]; [|done]; injection Hf as <- <-].
  - cbn [insert list_insert]. rewrite filter_cons_True by done. eauto.
  - cbn [insert list_insert]. rewrite filter_cons_False by done. eauto.
Qed.

(** The loop [findExists] finds the first subnet option; without one it leaves
    the last record when that is an OPT record. *)
Lemma find_opt_spec extra k cur :
  match find_opt k cur extra with
  | (o, Some j) => ∃ i, o = Some (k + i)%nat ∧ ∀ x, is_subnet x = true →
      ∃ l, subnets (alter (map_options (λ options, <[j := x]> options)) i extra) = x :: l
  | (o, None) => subnets extra = [] ∧
      ∀ i, o = Some i → extra = [] ∧ cur = Some i ∨
                        ∃ i' class options r, i = (k + i')%nat ∧ extra !! i' = Some r ∧ rr_Data r = RR_OPT class options
  end.
Proof.
  revert k cur. induction extra as [|r extra IH]; intros k cur; cbn [find_opt].
  { split; [done|]. intros i ->. by left. }
  assert (∀ cur', filter (λ o, is_subnet o = true) (opt_options r) = [] →
    (∀ i, extra = [] → cur' = Some i → i = k ∧ ∃ class options, rr_Data r = RR_OPT class options) →
    match find_opt (S k) cur' extra with
    | (o, Some j) => ∃ i, o = Some (k + i)%nat ∧ ∀ x, is_subnet x = true →
        ∃ l, subnets (alter (map_options (λ options, <[j := x]> options)) i (r :: extra)) = x :: l
    | (o, None) => subnets (r :: extra) = [] ∧
        ∀ i, o = Some i → r :: extra = [] ∧ cur = Some i ∨
          ∃ i' class options r', i = (k + i')%nat ∧ (r :: extra) !! i' = Some r' ∧ rr_Data r' = RR_OPT class options
    end) as Hrest.
  { intros cur' Hr Hcur. specialize (IH (S k) cur'). destruct (find_opt (S k) cur' extra) as [o [j|]].
    - destruct IH as (i & -> & Hi). exists (S i). split; [f_equal; lia|]. intros x Hx. destruct (Hi x Hx) as [l Hl].
      exists l. cbn [alter list_alter]. by rewrite subnets_cons, Hr.
    - destruct IH as [Hs Ho]. rewrite subnets_cons, Hr. split; [done|]. intros i Hi. right.
      destruct (Ho i Hi) as [[-> Hc]|(i' & class & options & r' & -> & Hl & Hd)].
      + destruct (Hcur i eq_refl Hc) as (-> & class & options & Hd). exists 0%nat, class, options, r. by rewrite Nat.add_0_r.
      + exists (S i'), class, options, r'. split; [lia|done]. }
  destruct (rr_Data r) as [ | | | |class options| ] eqn:Hd; try (apply Hrest; [unfold opt_options; by rewrite Hd|congruence]).
  destruct (list_find _ options) as [[j o]|] eqn:Hf.
  - exists 0%nat. split; [f_equal; lia|]. intros x Hx. destruct (replace_subnet _ _ _ x Hf Hx) as [l Hl].
    cbn [alter list_alter]. rewrite subnets_cons. unfold map_options, opt_options. rewrite Hd. cbn [rr_Data with_data].
    rewrite Hl. eauto.
  - apply Hrest; [unfold opt_options; rewrite Hd; by apply no_subnet|]. intros i _ [= <-]. eauto.
Qed.

Lemma add_subnet extra i r class options x :
  subnets extra = [] → extra !! i = Some r → rr_Data r = RR_OPT class options → is_subnet x = true →
  subnets (alter (map_options (λ options, options ++ [x])) i extra) = [x].
Proof.
  revert i. induction extra as [|y extra IH]; intros i Hs Hl Hd Hx; [done|].
  rewrite subnets_cons in Hs. apply app_nil in Hs as [Hy Hs].
  destruct i as [|i]; simplify_eq/=.
  - rewrite subnets_cons, Hs. unfold map_options, opt_options in *. rewrite Hd in *. cbn [rr_Data with_data].
    rewrite filter_app, Hy. cbn. by rewrite decide_True.
  - rewrite subnets_cons, Hy. by apply IH.
Qed.

(** A subnet as users write it: a valid prefix of a plain address. *)
Definition plain_subnet (p : Prefix) : Prop :=
  prefix_wf p ∧ hasZone (prefix_addr p) = false ∧ Is4In6 (prefix_addr p) = false.
Lemma subnet_option_reads p : plain_subnet p →
  match subnet_option p with
  | EDNS0_SUBNET _ sourceNetmask address =>
      match AddrFromSlice address with Some a => PrefixFrom (Unmap a) sourceNetmask | None => PrefixZero end
  | _ => PrefixZero
  end = p.
Proof.
  intros ((Hwf & Hbits & Hv) & Hz & H46). destruct p as [a b]. unfold subnet_option. cbn [prefix_addr] in *.
  unfold prefix_Bits in *. cbn [bitsPlusOne prefix_addr] in *.
  assert (u8 (b - 1) = b - 1) as Hu by (unfold u8; rewrite Z.mod_small; [done|destruct a; cbn in Hbits; lia]).
  rewrite Hu. unfold AddrFromSlice.
  destruct a as [|v|v z]; [done| |]; cbn [AsSlice]; rewrite be_split_length, be_combine_split.
  - rewrite bool_decide_eq_true_2 by done. cbn [Unmap PrefixFrom withoutZone addr_IsValid BitLen]. unfold PrefixFrom. cbn in *.
    rewrite Z.mod_small by done. rewrite bool_decide_eq_true_2 by lia. f_equal. lia.
  - rewrite bool_decide_eq_false_2, bool_decide_eq_true_2 by done. cbn in Hwf, Hz, Hbits.
    rewrite Z.mod_small by (cbn; lia). apply negb_false_iff, bool_decide_eq_true in Hz as ->.
    unfold PrefixFrom, Unmap. rewrite H46. cbn. rewrite bool_decide_eq_true_2 by lia. f_equal. lia.
Qed.

Lemma subnet_first message x l : subnets (msg_Extra message) = x :: l →
  clientSubnetFromMessage message =
  match x with
  | EDNS0_SUBNET _ sourceNetmask address =>
      match AddrFromSlice address with Some a => PrefixFrom (Unmap a) sourceNetmask | None => PrefixZero end
  | _ => PrefixZero
  end.
Proof. unfold subnets, clientSubnetFromMessage. fold opt_options. intros ->. by destruct x. Qed.

Lemma SetClientSubnet_reads message p : plain_subnet p → clientSubnetFromMessage (SetClientSubnet message p) = p.
Proof.
  intros Hp. rewrite <- (subnet_option_reads p Hp) at 2.
  assert (∃ l, subnets (msg_Extra (SetClientSubnet message p)) = subnet_option p :: l) as [l Hl]; [|by eapply subnet_first].
  unfold SetClientSubnet. pose proof (find_opt_spec (msg_Extra message) 0 None) as Hf.
  destruct (find_opt 0 None (msg_Extra message)) as [o [j|]]; cbn [with_extra msg_Extra].
  - destruct Hf as (i & -> & Hi). by apply Hi.
  - destruct Hf as [Hs Ho]. destruct o as [i|]; cbn [with_extra msg_Extra].
    + destruct (Ho i eq_refl) as [[_ [=]]|(i' & class & options & r & -> & Hr & Hd)]. exists []. by eapply add_subnet.
    + exists []. rewrite subnets_app, Hs. done.
Qed.
Lemma removeClientSubnet_reads message : clientSubnetFromMessage (removeClientSubnet message) = PrefixZero.
Proof.
  unfold clientSubnetFromMessage, removeClientSubnet. cbn [with_extra msg_Extra]. fold opt_options.
  assert (subnets (map_options (filter (λ o, is_subnet o = false)) <$> msg_Extra message) = []) as Hs; [|unfold subnets in Hs; by rewrite Hs].
  induction (msg_Extra message) as [|r extra IH]; [done|]. rewrite fmap_cons, subnets_cons, IH, app_nil_r.
  unfold opt_options, map_options. destruct (rr_Data r) as [ | | | |class options| ] eqn:Hd; rewrite ?Hd; try done.
  cbn. clear. induction options as [|o l IH]; [done|]. destruct (is_subnet o) eqn:Ho.
  - rewrite (filter_cons_False (λ o, is_subnet o = false)) by congruence. done.
  - rewrite (filter_cons_True (λ o, is_subnet o = false)) by done. rewrite filter_cons_False by congruence. done.
Qed.

(** A record after the OPT record hides it: the query leaves with two OPT
    records, which RFC 6891 forbids. *)
Example second_opt_record :
  let opt := MkResource "." 0 (RR_OPT 1232 []) in
  let m := MkMessage 7 false false true false 0 [MkQuestion "x." 1 1] [] [] [opt; MkResource "k." 0 (RR_Other 250)] in
  length (filter (λ r, is_opt r = true) (msg_Extra (SetClientSubnet m (MkPrefix (Addr4 0) 25)))) = 2%nat.
Proof. reflexivity. Qed.

(** ** Times to live *)

Lemma ttl_step_bound t r : 0 ≤ t → 0 ≤ rr_Ttl r → 0 ≤ ttl_step t r.
Proof. unfold ttl_step. intros. destruct (is_opt r); [done|]. by destruct (_ || _). Qed.
(** The running minimum is the least positive time to live so far. *)
Definition least_ttl (t : Z) (l : list Resource) : Prop :=
  (t = 0 ∧ Forall (λ r, is_opt r = true ∨ rr_Ttl r = 0) l) ∨
  (0 < t ∧ (∃ r, r ∈ l ∧ is_opt r = false ∧ rr_Ttl r = t) ∧
   Forall (λ r, is_opt r = true ∨ rr_Ttl r = 0 ∨ t ≤ rr_Ttl r) l).
Lemma ttl_step_least t l r : 0 ≤ rr_Ttl r → least_ttl t l → least_ttl (ttl_step t r) (l ++ [r]).
Proof.
  intros Hr Hl. unfold ttl_step. destruct (is_opt r) eqn:Ho.
  { destruct Hl as [[-> Hl]|(Ht & (x & Hx & Hxo & Hxt) & Hl)]; [left|right].
    - split; [done|]. apply Forall_app; split; [done|]. constructor; [by left|constructor].
    - split_and!; [done| |apply Forall_app; split; [done|constructor; [by left|constructor]]].
      exists x. rewrite elem_of_app. auto. }
  destruct (t =? 0) eqn:Ht; cbn [orb].
  - apply Z.eqb_eq in Ht as ->. destruct Hl as [[_ Hl]|[]]; [|lia].
    destruct (decide (rr_Ttl r = 0)) as [Hz|Hnz]; [left|right].
    + split; [done|]. apply Forall_app; split; [done|]. constructor; [by right|constructor].
    + split_and!; [lia|exists r; rewrite elem_of_app, list_elem_of_singleton; auto|].
      apply Forall_app; split; [|constructor; [right; right; lia|constructor]].
      eapply Forall_impl; [exact Hl|]. intros y [?|?]; auto.
  - apply Z.eqb_neq in Ht. destruct Hl as [[? _]|(Hpos & (x & Hx & Hxo & Hxt) & Hl)]; [done|].
    destruct (0 <? rr_Ttl r) eqn:Hp; cbn [andb]; [destruct (rr_Ttl r <? t) eqn:Hlt|]; right.
    + apply Z.ltb_lt in Hp, Hlt. split_and!; [done|exists r; rewrite elem_of_app, list_elem_of_singleton; auto|].
      apply Forall_app; split; [|constructor; [right; right; lia|constructor]].
      eapply Forall_impl; [exact Hl|]. intros y [?|[?|?]]; auto. right; right; lia.
    + apply Z.ltb_ge in Hlt. split_and!; [done|exists x; rewrite elem_of_app; auto|].
      apply Forall_app; split; [done|]. constructor; [auto|constructor].
    + apply Z.ltb_ge in Hp. split_and!; [done|exists x; rewrite elem_of_app; auto|].
      apply Forall_app; split; [done|]. constructor; [right; left; lia|constructor].
Qed.
Lemma ttl_fold_least l : Forall (λ r, 0 ≤ rr_Ttl r) l → least_ttl (foldl ttl_step 0 l) l.
Proof.
  induction l as [|r l IH] using rev_ind; intros Hl; [by left|].
  apply Forall_app in Hl as [Hl Hr]. inv Hr. rewrite foldl_app. cbn [foldl]. by apply ttl_step_least; [|apply IH].
Qed.

Section client_laws.
Context `{MessageLib, ClientEnv}.

(** ** Storing and loading *)

(** What loading an entry made of [m] gives, by the time left. *)
Definition loaded_at (now expireAt : Z) (m : Message) : option (Message * Z * bool) :=
  if cl_disableExpire then Some (m, 0, false)
  else if expireAt <? now then
    if (0 <? cl_optimisticTimeout) && (now <? expireAt + cl_optimisticTimeout) then Some (normalizeTTL 1 m, 0, true)
    else None
  else let nowTTL := Z.max (whole_seconds (expireAt - now)) 0 in Some (normalizeTTL (u32 nowTTL) m, nowTTL, false).

Definition packs (m : Message) : Prop := ∃ raw, Pack m = Some raw ∧ Unpack raw = Some m.
Lemma load_store t0 t key m ttl c :
  cl_cache ≠ CacheNone → packs m → ttl ≠ 0 →
  (loadResponse t key (storeCache t0 key m ttl c)).1 = loaded_at t (t0 + second * ttl) m.
Proof.
  intros Hc (raw & Hp & Hu) Httl. unfold storeCache, loadResponse, loaded_at. rewrite (proj2 (Z.eqb_neq _ _)) by done.
  unfold slot_of. destruct cl_cache; [done| |]; cbv beta iota; rewrite ?Hp, lookup_insert_eq; cbn [entry_message en_stored en_expireAt]; rewrite ?Hu;
    destruct cl_disableExpire; try done; repeat case_match; done.
Qed.
Lemma load_other t0 t key key' m ttl c :
  slot_of key ≠ slot_of key' → (loadResponse t key' (storeCache t0 key m ttl c)).1 = (loadResponse t key' c).1.
Proof.
  intros Hne. unfold storeCache. destruct (ttl =? 0); [done|]. unfold loadResponse.
  destruct (slot_of key') as [s'|]; [|done].
  destruct (slot_of key) as [[k|n]|]; [| |done].
  - rewrite lookup_insert_ne by congruence. by repeat case_match.
  - destruct (Pack m); [|done]. rewrite lookup_insert_ne by congruence. by repeat case_match.
Qed.

(** The subnet in the key is the one the query carries, whatever subnet options
    the client sent: the key is computed from the message that goes out. *)
Definition subnet_ok (p : Prefix) : Prop := prefix_IsValid p = true → plain_subnet p.
Lemma cache_key_wire now transport question message options :
  subnet_ok cl_clientSubnet → subnet_ok (qo_ClientSubnet options) →
  ck_clientSubnet (newCacheKey now transport question (prepareExchangeMessage message options) options) =
  clientSubnetFromMessage (prepareExchangeMessage message options).
Proof.
  intros Hc Ho. unfold newCacheKey, prepareExchangeMessage. cbn [ck_clientSubnet].
  destruct (qo_RemoveClientSubnet options); [by rewrite removeClientSubnet_reads|].
  destruct (prefix_IsValid (query_subnet options)) eqn:Hv; [|done].
  symmetry. apply SetClientSubnet_reads. revert Hv. unfold query_subnet.
  destruct (prefix_IsValid (qo_ClientSubnet options)) eqn:Hq; auto.
Qed.
End client_laws.
