(* ===== verification/DnsClient.v ===== *)
(** * The DNS client as a transition system

    [Client.Exchange], [ExchangeAsync] and [lookupToExchange] of
    [dns/client.go] as goroutines over the shared state of the client: the
    cache, the store of rejected domains, the table [cacheLock] of queries under
    way with the channels others wait on, and the set of background refreshes.
    One step of a goroutine is one access to that state.  The transport's
    answers, cancellation and time are inputs. *)

From S2P Require Import Prelude GoStrings NetAddr RuleContext RuleItems RuleMatch RuleSpec Bytes DnsActions DnsCache.

Local Open Scope Z_scope.

(** ** Queries and operations *)

Record query := MkQuery {
  qu_transport : Transport;
  qu_message : Message;
  qu_options : DNSQueryOptions;
  qu_checker : option (Message → bool);
  qu_contextTag : option string;      (* the transport this query is made for, if any *)
}.
Record exchangeOperation := MkOperation {
  op_query : query;
  op_message : Message;               (* with the client subnet *)
  op_question : Question;
  op_disableCache : bool;
  op_cacheKey : dnsCacheKey;
}.
Definition ErrResponseRejected : error := ENew "response rejected".
Definition ErrResponseRejectedCached : error := EWrap "cached" ErrResponseRejected.
Definition errContext : error := EStd "context done".
Definition errLoopback (tag : string) : error := EFmt "DNS query loopback in transport[%s]" [tag].
Definition with_timeout (timeout : Z) (o : DNSQueryOptions) : DNSQueryOptions :=
  MkQueryOptions (qo_Transport o) (qo_Strategy o) (qo_LookupStrategy o) (qo_DisableCache o)
    (qo_DisableOptimisticCache o) (qo_RewriteTTL o) timeout (qo_ClientSubnet o) (qo_RemoveClientSubnet o).
Definition rejected_by (checker : option (Message → bool)) (response : Message) : bool :=
  match checker with Some f => negb (f response) | None => false end.
(** A code other than success and name error. *)
Definition failure (response : Message) : bool :=
  negb (msg_Rcode response =? RcodeSuccess) && negb (msg_Rcode response =? RcodeNameError).

(** What a transport answers: a message, an error that carries a code, or
    another error. *)
Inductive answer := AnswerMessage (m : Message) | AnswerRcode (rcode : Z) | AnswerError (e : error).

(** The persisted rejections: transport, name and type. *)
Abbreviation rdrc := (gset (string * string * Z)).

Section client.
Context `{MessageLib, ClientEnv}.

(** [beginExchange] up to the cache. *)
Definition begin_checks (now : Z) (q : query) : result Message + exchangeOperation :=
  let message := qu_message q in
  let options := if qo_Timeout (qu_options q) =? 0 then with_timeout cl_timeout (qu_options q) else qu_options q in
  match msg_Question message with
  | [] => inl (Ok (FixedResponseStatus message RcodeFormatError))
  | question :: _ =>
      if (q_Qtype question =? TypeA) && (qo_Strategy options =? DomainStrategyIPv6Only) ||
         (q_Qtype question =? TypeAAAA) && (qo_Strategy options =? DomainStrategyIPv4Only)
      then inl (Ok (FixedResponseStatus message RcodeSuccess))
      else
        let prepared := prepareExchangeMessage message options in
        inr (MkOperation (MkQuery (qu_transport q) message options (qu_checker q) (qu_contextTag q)) prepared question
               (negb (isSimpleRequest message) || cl_disableCache || qo_DisableCache options)
               (newCacheKey now (qu_transport q) question prepared options))
  end.

(** [finishExchange]. *)
Definition finishExchange (now : Z) (op : exchangeOperation) (response : Message) (c : dnsCache) (d : rdrc) :
    result Message * dnsCache * rdrc :=
  let q := op_query op in
  let disableCache := op_disableCache op || failure response in
  let rejected := match qu_checker q with Some f => failure response || negb (f response) | None => false end in
  if rejected then
    (Err ErrResponseRejected, c,
     if negb disableCache && cl_rdrc
     then {[(tr_Tag (qu_transport q), q_Name (op_question op), q_Qtype (op_question op))]} ∪ d else d)
  else
    let '(response, timeToLive) := applyResponseOptions (op_question op) response (qu_options q) in
    let c := if disableCache then c
             else let '(key, storable) := finishCacheKey now (qu_transport q) (op_cacheKey op) in
                  if storable then storeCache now key response timeToLive c else c in
    let response := with_id (msg_Id (op_message op)) response in
    let response :=
      match IsEdns0 response with
      | Some opt =>
          match IsEdns0 (op_message op) with
          | None => with_extra (filter (λ r, is_opt r = false) (msg_Extra response)) response
          | Some requested =>
              if opt_Version requested <? opt_Version opt
              then SetEdns0 (opt_UDPSize opt) (opt_Do opt)
                     (with_extra (filter (λ r, is_opt r = false) (msg_Extra response)) response)
              else response
          end
      | None => response
      end in
    (Ok response, c, d).

(** The body of the goroutine of [backgroundRefreshDNS], after the answer. *)
Definition finish_refresh (now : Z) (op : exchangeOperation) (response : Message) (c : dnsCache) (d : rdrc) : dnsCache * rdrc :=
  let q := op_query op in
  let key := op_cacheKey op in
  let rejected := match qu_checker q with Some f => failure response || negb (f response) | None => false end in
  if rejected then
    (c, if cl_rdrc
        then {[(tr_Tag (qu_transport q), q_Name (ck_Question key), q_Qtype (ck_Question key))]} ∪ d else d)
  else if failure response then (c, d)
  else
    let '(storeKey, storable) := finishCacheKey now (qu_transport q) key in
    if negb storable then (c, d)
    else let '(response, timeToLive) := applyResponseOptions (ck_Question key) response (qu_options q) in
         (storeCache now storeKey response timeToLive c, d).

(** [exchangeToTransport]: the message the client goes on with. *)
Definition exchangeToTransport (message : Message) (a : answer) : result Message :=
  match a with
  | AnswerMessage m => Ok (stripDNSPadding m)
  | AnswerRcode rcode => Ok (FixedResponseStatus message rcode)
  | AnswerError e => Err e
  end.

(** ** Goroutines *)

Definition lock : Type := dnsExchangeKey * nat.
Inductive thread :=
  | TQuestion (q : query)                          (* lookupToExchange: the cache first *)
  | TBegin (q : query) (allowWait : bool)
  | TLook (op : exchangeOperation) (l : option lock) (cond : option nat) (allowWait : bool)
  | TWait (op : exchangeOperation) (cond : nat)
  | TSend (op : exchangeOperation) (l : option lock)
  | TFlight (op : exchangeOperation) (l : option lock)
  | TFinish (op : exchangeOperation) (l : option lock) (response : Message)
  | TServe (op : exchangeOperation) (response : Message) (isStale : bool)
  | TUnlock (l : lock) (next : thread)             (* releaseCond: the table entry *)
  | TClose (cond : nat) (next : thread)            (* releaseCond: the channel *)
  | TRefresh (op : exchangeOperation)
  | TRefreshFinish (op : exchangeOperation) (response : Message)
  | TRefreshed (key : dnsCacheKey)
  | TDone (q : query) (r : result Message)
  | TStop.
(** [operation.release()]. *)
Definition release (l : option lock) (next : thread) : thread :=
  match l with Some l => TUnlock l next | None => next end.

Record Client := MkClient {
  cs_now : Z;
  cs_cache : dnsCache;
  cs_rdrc : rdrc;
  cs_cacheLock : gmap dnsExchangeKey nat;
  cs_closed : gset nat;
  cs_next : nat;                                  (* the next channel *)
  cs_refreshing : gset dnsCacheKey;
  cs_log : list (Z * exchangeOperation * answer); (* what the transports answered *)
}.
Definition upd_cache (c : dnsCache) (d : rdrc) (s : Client) : Client :=
  MkClient (cs_now s) c d (cs_cacheLock s) (cs_closed s) (cs_next s) (cs_refreshing s) (cs_log s).
Definition upd_locks (l : gmap dnsExchangeKey nat) (closed : gset nat) (next : nat) (s : Client) : Client :=
  MkClient (cs_now s) (cs_cache s) (cs_rdrc s) l closed next (cs_refreshing s) (cs_log s).
Definition upd_refreshing (r : gset dnsCacheKey) (s : Client) : Client :=
  MkClient (cs_now s) (cs_cache s) (cs_rdrc s) (cs_cacheLock s) (cs_closed s) (cs_next s) r (cs_log s).
Definition upd_log (op : exchangeOperation) (a : answer) (s : Client) : Client :=
  MkClient (cs_now s) (cs_cache s) (cs_rdrc s) (cs_cacheLock s) (cs_closed s) (cs_next s) (cs_refreshing s)
    ((cs_now s, op, a) :: cs_log s).
Definition with_key (key : dnsCacheKey) (op : exchangeOperation) : exchangeOperation :=
  MkOperation (op_query op) (op_message op) (op_question op) (op_disableCache op) key.

(** What is given to a goroutine when it moves. *)
Record input := MkInput { in_canceled : bool; in_answer : answer }.

(** A response of the cache that may be used. *)
Definition usable (op : exchangeOperation) (r : option (Message * Z * bool)) : option (Message * bool) :=
  match r with
  | Some (response, _, isStale) =>
      if isStale && qo_DisableOptimisticCache (qu_options (op_query op)) then None else Some (response, isStale)
  | None => None
  end.

Local Abbreviation move := (option (thread * list thread * Client)).
(** [lookupToExchange] looks at the cache first ([questionCache]). *)
Definition step_question (q : query) (s : Client) : move :=
  if cl_disableCache || qo_DisableCache (qu_options q) then Some (TBegin q true, [], s)
  else
    match msg_Question (qu_message q) with
    | [] => Some (TDone q (Panic "index out of range"), [], s)
    | question :: _ =>
        let op := MkOperation q (prepareExchangeMessage (qu_message q) (qu_options q)) question false
                    (newCacheKey (cs_now s) (qu_transport q) question (qu_message q) (qu_options q)) in
        let '(r, c) := loadResponse (cs_now s) (op_cacheKey op) (cs_cache s) in
        let s := upd_cache c (cs_rdrc s) s in
        match usable op r with
        | Some (response, isStale) => Some (TServe op response isStale, [], s)
        | None => Some (TBegin q true, [], s)
        end
    end.
(** [beginExchange] up to [cacheLock.LoadOrStore]. *)
Definition step_begin (canceled : bool) (q : query) (allowWait : bool) (s : Client) : move :=
  if canceled then Some (TDone q (Err errContext), [], s)
  else
    match begin_checks (cs_now s) q with
    | inl r => Some (TDone q r, [], s)
    | inr op =>
        if op_disableCache op then Some (TSend op None, [], s)
        else
          let ek := MkExchangeKey (op_cacheKey op) (qo_Timeout (qu_options (op_query op))) in
          match cs_cacheLock s !! ek with
          | Some cond => Some (TLook op None (Some cond) allowWait, [], s)
          | None =>
              let cond := cs_next s in
              Some (TLook op (Some (ek, cond)) None allowWait, [],
                    upd_locks (<[ek := cond]> (cs_cacheLock s)) (cs_closed s) (S cond) s)
          end
    end.
(** The loop of [beginExchange]: the cache, and otherwise the channel. *)
Definition step_look (op : exchangeOperation) (l : option lock) (cond : option nat) (allowWait : bool) (s : Client) : move :=
  let '(r, c) := loadResponse (cs_now s) (op_cacheKey op) (cs_cache s) in
  let s := upd_cache c (cs_rdrc s) s in
  match usable op r, cond with
  | Some (response, isStale), _ => Some (release l (TServe op response isStale), [], s)
  | None, None => Some (TSend op l, [], s)
  | None, Some cond => Some (if allowWait then TWait op cond else TBegin (op_query op) true, [], s)
  end.
Definition step_wait (canceled : bool) (op : exchangeOperation) (cond : nat) (s : Client) : move :=
  if canceled then Some (TDone (op_query op) (Err errContext), [], s)
  else if bool_decide (cond ∈ cs_closed s) then
    let q := op_query op in
    Some (TLook (with_key (newCacheKey (cs_now s) (qu_transport q) (op_question op) (op_message op) (qu_options q)) op)
            None None true, [], s)
  else None.
(** A cached response: [backgroundRefresh.LoadOrStore] for a stale one, and the
    checker. *)
Definition step_serve (op : exchangeOperation) (response : Message) (isStale : bool) (s : Client) : move :=
  let key := op_cacheKey op in
  let q := op_query op in
  let r := if rejected_by (qu_checker q) response then Err ErrResponseRejectedCached
           else Ok (with_id (msg_Id (op_message op)) response) in
  if isStale && negb (bool_decide (key ∈ cs_refreshing s))
  then Some (TDone q r, [TRefresh op], upd_refreshing ({[key]} ∪ cs_refreshing s) s)
  else Some (TDone q r, [], s).
(** The end of [beginExchange]: loops and persisted rejections. *)
Definition step_send (op : exchangeOperation) (l : option lock) (s : Client) : move :=
  let q := op_query op in
  let tag := tr_Tag (qu_transport q) in
  if bool_decide (qu_contextTag q = Some tag) then Some (release l (TDone q (Err (errLoopback tag))), [], s)
  else if negb (op_disableCache op) && bool_decide (is_Some (qu_checker q)) && cl_rdrc &&
          bool_decide ((tag, q_Name (op_question op), q_Qtype (op_question op)) ∈ cs_rdrc s)
  then Some (release l (TDone q (Err ErrResponseRejectedCached)), [], s)
  else Some (TFlight op l, [], s).
(** [Exchange] and the callback of [ExchangeAsync], from the answer on. *)
Definition step_flight (a : answer) (op : exchangeOperation) (l : option lock) (s : Client) : move :=
  let s := upd_log op a s in
  match exchangeToTransport (op_message op) a with
  | Ok response => Some (TFinish op l response, [], s)
  | Err e => Some (release l (TDone (op_query op) (Err e)), [], s)
  | Panic w => Some (release l (TDone (op_query op) (Panic w)), [], s)
  end.
Definition step_finish (op : exchangeOperation) (l : option lock) (response : Message) (s : Client) : move :=
  let '(r, c, d) := finishExchange (cs_now s) op response (cs_cache s) (cs_rdrc s) in
  Some (release l (TDone (op_query op) r), [], upd_cache c d s).
(** The goroutine of [backgroundRefreshDNS]. *)
Definition step_refresh (a : answer) (op : exchangeOperation) (s : Client) : move :=
  let s := upd_log op a s in
  match exchangeToTransport (op_message op) a with
  | Ok response => Some (TRefreshFinish op response, [], s)
  | _ => Some (TRefreshed (op_cacheKey op), [], s)
  end.
Definition step_refresh_finish (op : exchangeOperation) (response : Message) (s : Client) : move :=
  let '(c, d) := finish_refresh (cs_now s) op response (cs_cache s) (cs_rdrc s) in
  Some (TRefreshed (op_cacheKey op), [], upd_cache c d s).

Definition advance (i : input) (t : thread) (s : Client) : move :=
  match t with
  | TQuestion q => step_question q s
  | TBegin q allowWait => step_begin (in_canceled i) q allowWait s
  | TLook op l cond allowWait => step_look op l cond allowWait s
  | TWait op cond => step_wait (in_canceled i) op cond s
  | TServe op response isStale => step_serve op response isStale s
  | TSend op l => step_send op l s
  | TFlight op l => step_flight (in_answer i) op l s
  | TFinish op l response => step_finish op l response s
  | TUnlock (ek, cond) next =>
      Some (TClose cond next, [], upd_locks (delete ek (cs_cacheLock s)) (cs_closed s) (cs_next s) s)
  | TClose cond next => Some (next, [], upd_locks (cs_cacheLock s) ({[cond]} ∪ cs_closed s) (cs_next s) s)
  | TRefresh op => step_refresh (in_answer i) op s
  | TRefreshFinish op response => step_refresh_finish op response s
  | TRefreshed key => Some (TStop, [], upd_refreshing (cs_refreshing s ∖ {[key]}) s)
  | TDone _ _ | TStop => None
  end.

End client.

(** The step a goroutine takes, unfolded. *)
Ltac open_step H := unfold step_question, step_begin, step_look, step_wait, step_serve, step_send, step_flight,
  step_finish, step_refresh, step_refresh_finish in H.
Ltac open_steps := unfold step_question, step_begin, step_look, step_wait, step_serve, step_send, step_flight,
  step_finish, step_refresh, step_refresh_finish.

Section system.
Context `{MessageLib, ClientEnv}.

(** ** The system *)

(** What happens outside the goroutines: time passes, the caches forget
    entries, the cache file rounds a lifetime down to the second, and
    [ClearCache]. *)
Inductive world_step : Client → Client → Prop :=
  | world_tick s now : cs_now s ≤ now →
      world_step s (MkClient now (cs_cache s) (cs_rdrc s) (cs_cacheLock s) (cs_closed s) (cs_next s) (cs_refreshing s) (cs_log s))
  | world_forget s x : world_step s (upd_cache (delete x (cs_cache s)) (cs_rdrc s) s)
  | world_forget_rdrc s x : world_step s (upd_cache (cs_cache s) (cs_rdrc s ∖ {[x]}) s)
  | world_round s n raw t :
      cs_cache s !! inr n = Some (MkEntry (StoredPacked raw) (Some t)) →
      world_step s (upd_cache (<[inr n := MkEntry (StoredPacked raw) (Some (t / second * second))]> (cs_cache s)) (cs_rdrc s) s)
  | world_clear s : world_step s (upd_cache ∅ (cs_rdrc s) s).

Definition system : Type := list thread * Client.
Inductive thread_step : system → system → Prop :=
  | thread_moves ts s i inp t t' new s' :
      ts !! i = Some t → advance inp t s = Some (t', new, s') →
      thread_step (ts, s) (<[i := t']> ts ++ new, s').
(** [runs n x y]: from [x] to [y] in [n] steps of goroutines. *)
Inductive runs : nat → system → system → Prop :=
  | runs_refl x : runs 0 x x
  | runs_thread n x y z : runs n x y → thread_step y z → runs (S n) x z
  | runs_world n x ts s s' : runs n x (ts, s) → world_step s s' → runs n x (ts, s').

Definition new_client (now : Z) (c : dnsCache) (d : rdrc) : Client := MkClient now c d ∅ ∅ 0 ∅ [].
(** Queries that have not started: blocking ones, callbacks and lookups. *)
Definition fresh (t : thread) : Prop := match t with TQuestion _ | TBegin _ _ => True | _ => False end.
Definition finished (t : thread) : Prop := match t with TDone _ _ | TStop => True | _ => False end.

(** ** Termination: every step lowers the rank of its goroutine *)

Fixpoint rank (t : thread) : nat :=
  match t with
  | TDone _ _ | TStop => 0
  | TClose _ t => S (rank t)
  | TUnlock _ t => S (S (rank t))
  | TRefreshed _ => 1
  | TRefreshFinish _ _ => 2
  | TRefresh _ => 3
  | TFinish _ _ _ => 3
  | TServe _ _ _ => 4
  | TFlight _ _ => 4
  | TSend _ _ => 5
  | TLook _ _ None _ => 7
  | TWait _ _ => 8
  | TLook _ _ (Some _) true => 9
  | TBegin _ true => 10
  | TLook _ _ (Some _) false => 11
  | TBegin _ false => 12
  | TQuestion _ => 11
  end.
Definition ranks (l : list thread) : nat := list_sum (rank <$> l).
Lemma ranks_app l l' : ranks (l ++ l') = (ranks l + ranks l')%nat.
Proof. unfold ranks. by rewrite fmap_app, list_sum_app. Qed.
Lemma ranks_insert ts i t t' : ts !! i = Some t → (ranks (<[i := t']> ts) + rank t = ranks ts + rank t')%nat.
Proof.
  intros Hi. apply list_elem_of_split_length in Hi as (l1 & l2 & -> & ->).
  rewrite insert_app_r_alt, Nat.sub_diag, !ranks_app by done. unfold ranks. cbn. lia.
Qed.

(** Cases of a step. *)
Ltac moves Ha := cbn [advance] in Ha; open_step Ha; simplify_eq/=; repeat (case_match; simplify_eq/=; try done).

Lemma advance_rank inp t s t' new s' :
  advance inp t s = Some (t', new, s') → (rank t' + ranks new < rank t)%nat.
Proof.
  intros Ha. destruct t; moves Ha; unfold ranks; cbn; try lia;
    match goal with |- context [release ?l _] => destruct l; cbn; lia end.
Qed.

(** ** Locks and channels *)

(** The entry of [cacheLock] a goroutine owns, the channel it has to close, the
    channel it waits for, and the refresh it is. *)
Definition owns (t : thread) : option lock :=
  match t with
  | TLook _ l _ _ | TSend _ l | TFlight _ l | TFinish _ l _ => l
  | TUnlock l _ => Some l
  | _ => None
  end.
Definition closes (t : thread) : option nat := match t with TClose c _ => Some c | _ => snd <$> owns t end.
Definition awaits (t : thread) : option nat :=
  match t with TLook _ _ c _ => c | TWait _ c => Some c | _ => None end.
Definition refreshes (t : thread) : option dnsCacheKey :=
  match t with TRefresh op | TRefreshFinish op _ => Some (op_cacheKey op) | TRefreshed k => Some k | _ => None end.
(** What follows a release owns nothing and waits for nothing. *)
Definition tail_ok (t : thread) : Prop :=
  match t with
  | TUnlock _ n | TClose _ n => match n with TServe _ _ _ | TDone _ _ => True | _ => False end
  | TLook _ (Some _) (Some _) _ => False
  | _ => True
  end.

Record client_ok (ts : list thread) (s : Client) : Prop := {
  ok_tails : Forall tail_ok ts;
  ok_owned : ∀ ek c, cs_cacheLock s !! ek = Some c ↔ (ek, c) ∈ omap owns ts;
  ok_open : ∀ c, c ∈ omap closes ts → (c < cs_next s)%nat ∧ c ∉ cs_closed s;
  ok_closed : ∀ c, c ∈ cs_closed s → (c < cs_next s)%nat;
  ok_once : NoDup (omap closes ts);
  ok_awaits : ∀ c, c ∈ omap awaits ts → c ∈ cs_closed s ∨ c ∈ omap closes ts;
  ok_refreshing : ∀ k, k ∈ cs_refreshing s ↔ k ∈ omap refreshes ts;
  ok_refresh_once : NoDup (omap refreshes ts);
}.
Lemma client_ok_perm ts ts' s : ts ≡ₚ ts' → client_ok ts s → client_ok ts' s.
Proof.
  intros Hp [Ht Ho Hop Hcd Hn Ha Hr Hr1]. split; [by rewrite <- Hp|..].
  - intros. rewrite Ho. by rewrite Hp.
  - intros c. rewrite <- Hp. apply Hop.
  - done.
  - by rewrite <- Hp.
  - intros c. rewrite <- Hp. apply Ha.
  - intros. rewrite Hr. by rewrite Hp.
  - by rewrite <- Hp.
Qed.
Lemma elem_of_omap_cons {A B} (f : A → option B) x a l : x ∈ omap f (a :: l) ↔ f a = Some x ∨ x ∈ omap f l.
Proof. cbn. destruct (f a) as [y|]; rewrite ?elem_of_cons; naive_solver. Qed.
Lemma owns_closes ek c (ts : list thread) : (ek, c) ∈ omap owns ts → c ∈ omap closes ts.
Proof.
  rewrite !list_elem_of_omap. intros (t & Ht & Ho). exists t. split; [done|]. unfold closes. rewrite Ho. by destruct t.
Qed.
Lemma omap_None {A B} (f : A → option B) a l : f a = None → omap f (a :: l) = omap f l.
Proof. intros Hf. cbn. by rewrite Hf. Qed.
Lemma omap_Some {A B} (f : A → option B) a b l : f a = Some b → omap f (a :: l) = b :: omap f l.
Proof. intros Hf. cbn. by rewrite Hf. Qed.

(** *** Steps of one kind *)

(** A step that keeps the lock, the channel to close and the refresh. *)
Lemma ok_keep t t' rest s s' :
  client_ok (t :: rest) s → tail_ok t' → owns t' = owns t → closes t' = closes t → refreshes t' = refreshes t →
  (∀ c, awaits t' = Some c → c ∈ cs_closed s ∨ c ∈ omap closes rest) →
  cs_cacheLock s' = cs_cacheLock s → cs_closed s' = cs_closed s → cs_next s' = cs_next s → cs_refreshing s' = cs_refreshing s →
  client_ok (t' :: rest) s'.
Proof.
  intros [Ht Ho Hop Hcd Hn Ha Hr Hr1] Htl Ho' Hc' Hr' Ha' El Ecl En Erf. inv Ht.
  assert (omap closes (t' :: rest) = omap closes (t :: rest)) as Ec by (cbn; by rewrite Hc').
  assert (omap owns (t' :: rest) = omap owns (t :: rest)) as Eo by (cbn; by rewrite Ho').
  assert (omap refreshes (t' :: rest) = omap refreshes (t :: rest)) as Er by (cbn; by rewrite Hr').
  split; rewrite ?El, ?Ecl, ?En, ?Erf, ?Ec, ?Er; rewrite ?Eo; auto.
  intros c Hc. rewrite elem_of_omap_cons in Hc. destruct Hc as [Hc|Hc].
  - destruct (Ha' c Hc); [by left|right]. rewrite elem_of_omap_cons. by right.
  - apply Ha. rewrite elem_of_omap_cons. by right.
Qed.

(** Taking a lock that is free. *)
Lemma ok_acquire t t' rest s ek :
  client_ok (t :: rest) s → closes t = None → owns t = None → refreshes t = None → refreshes t' = None → awaits t' = None →
  tail_ok t' → owns t' = Some (ek, cs_next s) → closes t' = Some (cs_next s) → cs_cacheLock s !! ek = None →
  client_ok (t' :: rest) (upd_locks (<[ek := cs_next s]> (cs_cacheLock s)) (cs_closed s) (S (cs_next s)) s).
Proof.
  intros [Ht Ho Hop Hcd Hn Ha Hr Hr1] Hc Hown Hre Hre' Haw Htl Ho' Hc' Hfree. inv Ht.
  rewrite (omap_None closes) in * by done. rewrite (omap_None owns) in * by done. rewrite (omap_None refreshes) in * by done.
  split; cbn [cs_cacheLock cs_closed cs_next cs_refreshing upd_locks];
    rewrite ?(omap_Some closes _ _ _ Hc'), ?(omap_Some owns _ _ _ Ho'), ?(omap_None refreshes t'), ?(omap_None awaits t') by done;
    auto.
  - intros ek' c'. rewrite elem_of_cons. destruct (decide (ek' = ek)) as [->|Hne].
    + rewrite lookup_insert_eq. split; [intros [= <-]; by left|]. intros [[= <-]|Hin]; [done|].
      apply Ho in Hin. congruence.
    + rewrite lookup_insert_ne by done. rewrite Ho. split; [by right|]. intros [[= ? ?]|?]; done.
  - intros c [->|Hin]%elem_of_cons; [split; [lia|]|]; [|destruct (Hop c Hin); split; [lia|done]].
    intros Hcl. apply Hcd in Hcl. lia.
  - intros c Hcl. apply Hcd in Hcl. lia.
  - constructor; [|done]. intros Hin. destruct (Hop _ Hin). lia.
  - intros c Hin. destruct (Ha c); [|by left|right; by right].
    rewrite elem_of_omap_cons. by right.
Qed.

(** [releaseCond]: the entry first, then the channel. *)
Lemma ok_unlock ek c next rest s :
  client_ok (TUnlock (ek, c) next :: rest) s →
  client_ok (TClose c next :: rest) (upd_locks (delete ek (cs_cacheLock s)) (cs_closed s) (cs_next s) s).
Proof.
  intros [Ht Ho Hop Hcd Hn Ha Hr Hr1]. inv Ht.
  split; cbn [cs_cacheLock cs_closed cs_next cs_refreshing upd_locks]; auto.
  intros ek' c'. rewrite (omap_None owns) by done. rewrite lookup_delete_Some, Ho, elem_of_omap_cons. cbn [owns].
  split; [intros [? [[= ? ?]|?]]; done|]. intros Hin. split; [|by right]. intros <-.
  pose proof (proj2 (Ho ek c')) as Hc'. rewrite elem_of_omap_cons in Hc'. specialize (Hc' (or_intror Hin)).
  pose proof (proj2 (Ho ek c)) as Hc. rewrite elem_of_omap_cons in Hc. specialize (Hc (or_introl eq_refl)).
  rewrite Hc in Hc'. injection Hc' as <-. apply owns_closes in Hin.
  rewrite (omap_Some closes _ c) in Hn by done. by inv Hn.
Qed.
Lemma ok_close c next rest s :
  client_ok (TClose c next :: rest) s →
  client_ok (next :: rest) (upd_locks (cs_cacheLock s) ({[c]} ∪ cs_closed s) (cs_next s) s).
Proof.
  intros [Ht Ho Hop Hcd Hn Ha Hr Hr1]. inv Ht as [|?? Htl Hrest].
  assert (closes next = None ∧ owns next = None ∧ refreshes next = None ∧ awaits next = None ∧ tail_ok next)
    as (Ec & Eo & Er & Ea & Etl) by (by destruct next).
  rewrite (omap_None owns) in Ho by done. rewrite (omap_Some closes _ c) in Hn, Hop, Ha by done.
  rewrite (omap_None awaits) in Ha by done. rewrite (omap_None refreshes) in Hr, Hr1 by done. inv Hn.
  assert (c < cs_next s)%nat as Hlt by (apply Hop; by left).
  split; cbn [cs_cacheLock cs_closed cs_next cs_refreshing upd_locks];
    rewrite ?(omap_None owns), ?(omap_None closes), ?(omap_None refreshes), ?(omap_None awaits) by done; auto.
  - intros c' Hin. destruct (Hop c'); [by right|]. split; [done|]. rewrite elem_of_union, elem_of_singleton.
    intros [->|?]; done.
  - intros c' [->%elem_of_singleton|?]%elem_of_union; auto.
  - intros c' Hin. destruct (Ha c' Hin) as [?|[->|?]%elem_of_cons]; [left; set_solver|left; set_solver|by right].
Qed.

(** A background refresh, from its start to its end. *)
Lemma ok_spawn op response q r rest s :
  client_ok (TServe op response true :: rest) s → op_cacheKey op ∉ cs_refreshing s →
  client_ok (TDone q r :: TRefresh op :: rest) (upd_refreshing ({[op_cacheKey op]} ∪ cs_refreshing s) s).
Proof.
  intros [Ht Ho Hop Hcd Hn Ha Hr Hr1] Hnew. inv Ht.
  rewrite (omap_None refreshes) in Hr, Hr1 by done. rewrite (omap_None owns) in Ho by done.
  rewrite (omap_None closes) in Hop, Hn, Ha by done. rewrite (omap_None awaits) in Ha by done.
  split; cbn [cs_cacheLock cs_closed cs_next cs_refreshing upd_refreshing];
    rewrite ?(omap_None refreshes (TDone q r)), ?(omap_None owns (TDone q r)), ?(omap_None closes (TDone q r)),
      ?(omap_None awaits (TDone q r)) by done;
    rewrite ?(omap_None owns), ?(omap_None closes), ?(omap_None awaits), ?(omap_Some refreshes _ (op_cacheKey op)) by done; auto.
  - intros k. rewrite elem_of_union, elem_of_singleton, elem_of_cons, Hr. done.
  - constructor; [by rewrite <- Hr|done].
Qed.
Lemma ok_refreshed key rest s :
  client_ok (TRefreshed key :: rest) s → client_ok (TStop :: rest) (upd_refreshing (cs_refreshing s ∖ {[key]}) s).
Proof.
  intros [Ht Ho Hop Hcd Hn Ha Hr Hr1]. inv Ht.
  rewrite (omap_Some refreshes _ key) in Hr, Hr1 by done. inv Hr1.
  split; cbn [cs_cacheLock cs_closed cs_next cs_refreshing upd_refreshing]; auto.
  - intros k. rewrite (omap_None refreshes) by done. rewrite elem_of_difference, elem_of_singleton, Hr, elem_of_cons.
    split; [naive_solver|]. intros Hin. split; [by right|]. by intros ->.
Qed.

(** ** Every step preserves the invariant *)

Lemma advance_ok inp t rest s t' new s' :
  client_ok (t :: rest) s → advance inp t s = Some (t', new, s') → client_ok (t' :: new ++ rest) s'.
Proof.
  intros Hok Ha. pose proof (ok_tails _ _ Hok) as Ht. inv Ht as [|?? Htl Hrest].
  assert (∀ c, awaits t = Some c → closes t = None → c ∈ cs_closed s ∨ c ∈ omap closes rest) as Hw.
  { intros c Hc Hn. pose proof (ok_awaits _ _ Hok c) as Hx. rewrite elem_of_omap_cons, (omap_None closes) in Hx by done. auto. }
  destruct t as [q|q w|op l c w|op c|op l|op l|op l m|op m b|l n|c n|op|op m|k|q r|]; cbn in Htl, Hw; moves Ha;
    try (by eapply ok_refreshed); try (by eapply ok_close); try (by eapply ok_unlock);
    try (eapply ok_keep; [exact Hok|..]; try done; by destruct l as [[]|]).
  - eapply ok_keep; [exact Hok|..]; try done. intros c [= <-]. right. eapply owns_closes.
    match goal with Hl : cs_cacheLock _ !! _ = Some _ |- _ => apply (ok_owned _ _ Hok) in Hl as [[=]|Hl]%elem_of_omap_cons; exact Hl end.
  - by apply (ok_acquire (TBegin q w)).
  - eapply ok_keep; [exact Hok|..]; try done. intros c [= <-]. by apply Hw.
  - eapply ok_spawn; [destruct b; [exact Hok|done]|]. by destruct b, (bool_decide_reflect (op_cacheKey op ∈ cs_refreshing s)).
  - eapply ok_spawn; [destruct b; [exact Hok|done]|]. by destruct b, (bool_decide_reflect (op_cacheKey op ∈ cs_refreshing s)).
Qed.

Lemma insert_app_perm (ts new : list thread) i t t' :
  ts !! i = Some t → ∃ rest, ts ≡ₚ t :: rest ∧ <[i := t']> ts ++ new ≡ₚ t' :: new ++ rest.
Proof.
  intros Hi. apply list_elem_of_split_length in Hi as (l1 & l2 & -> & ->). exists (l1 ++ l2).
  split; [by rewrite Permutation_middle|]. rewrite insert_app_r_alt, Nat.sub_diag by done. cbn.
  rewrite <- Permutation_middle. cbn. f_equiv. by rewrite (Permutation_app_comm new).
Qed.
Lemma world_ok ts s s' : world_step s s' → client_ok ts s → client_ok ts s'.
Proof. intros Hw [Ht Ho Hop Hcd Hn Ha Hr Hr1]. destruct Hw; by split. Qed.
Lemma omap_fresh {A} (f : thread → option A) ts :
  (∀ q w, f (TBegin q w) = None) → (∀ q, f (TQuestion q) = None) → Forall fresh ts → omap f ts = [].
Proof. intros Hb Hq Hts. induction Hts as [|t ts Ht _ IH]; [done|]. cbn. destruct t; try done; by rewrite ?Hb, ?Hq. Qed.
Lemma new_ok now c d ts : Forall fresh ts → client_ok ts (new_client now c d).
Proof.
  intros Hts. split; rewrite ?(omap_fresh owns), ?(omap_fresh closes), ?(omap_fresh awaits), ?(omap_fresh refreshes) by done;
    cbn; try set_solver; try apply NoDup_nil_2.
  eapply Forall_impl; [exact Hts|]. by intros [].
Qed.
Lemma runs_ok n x y : runs n x y → client_ok x.1 x.2 → client_ok y.1 y.2.
Proof.
  induction 1 as [x|n x y z _ IH Hs|n x ts s s' _ IH Hw]; intros Hok; [done| |by eapply world_ok; [|apply IH]].
  specialize (IH Hok). destruct Hs as [ts s i inp t t' new s' Hi Ha]. cbn [fst snd] in *.
  destruct (insert_app_perm ts new i t t' Hi) as (rest & Hp & Hp').
  eapply client_ok_perm; [symmetry; exact Hp'|]. eapply advance_ok; [|exact Ha]. by eapply client_ok_perm.
Qed.
Lemma runs_rank n x y : runs n x y → (n + ranks y.1 ≤ ranks x.1)%nat.
Proof.
  induction 1 as [x|n x y z _ IH Hs|n x ts s s' _ IH Hw]; [done| |done].
  destruct Hs as [ts s i inp t t' new s' Hi Ha]. cbn [fst] in *. apply advance_rank in Ha.
  rewrite ranks_app. pose proof (ranks_insert ts i t t' Hi). lia.
Qed.
Lemma ranks_fresh ts : Forall fresh ts → (ranks ts ≤ 12 * length ts)%nat.
Proof.
  induction 1 as [|t ts Ht _ IH]; [done|]. change (ranks (t :: ts)) with (rank t + ranks ts)%nat.
  cbn [length]. assert (rank t ≤ 12)%nat; [|lia].
  destruct t as [|? []| | | | | | | | | | | | |]; cbn; try done; lia.
Qed.

(** A channel has one owner. *)
Lemma owner_unique ts (l l' : lock) :
  NoDup (omap closes ts) → l ∈ omap owns ts → l' ∈ omap owns ts → l.2 = l'.2 → l = l'.
Proof.
  induction ts as [|t ts IH]; intros Hn Hl Hl' He; [set_solver|]. rewrite elem_of_omap_cons in Hl, Hl'.
  assert (NoDup (omap closes ts)) as Hn' by (cbn in Hn; destruct (closes t); [by inv Hn|done]).
  assert (∀ x, owns t = Some x → x.2 ∉ omap closes ts) as Hx.
  { intros x Hx. rewrite (omap_Some closes _ x.2) in Hn; [by inv Hn|]. unfold closes. rewrite Hx. by destruct t. }
  destruct Hl as [Hl|Hl], Hl' as [Hl'|Hl']; [congruence|..|by apply IH]; exfalso.
  - apply (Hx l Hl). rewrite He. destruct l'. by eapply owns_closes.
  - apply (Hx l' Hl'). rewrite <- He. destruct l. by eapply owns_closes.
Qed.

(** *** The transport a lock belongs to *)

Definition op_tag (op : exchangeOperation) : string := tr_Tag (qu_transport (op_query op)).
Definition lock_tag (l : lock) : string := ck_transportTag (ek_key l.1).
(** The operation a goroutine waits or holds a lock for. *)
Definition waits_as (t : thread) : option (exchangeOperation * nat) :=
  match t with TLook op _ (Some c) _ | TWait op c => Some (op, c) | _ => None end.
Definition locks_as (t : thread) : Prop :=
  match t with
  | TLook op l _ _ | TSend op l | TFlight op l | TFinish op l _ =>
      match l with Some l => lock_tag l = op_tag op | None => True end
  | _ => True
  end.

(** Every lock is held for its own transport, and who waits for a lock that is
    held waits for the same transport. *)
Record tags_ok (ts : list thread) : Prop := {
  tags_held : Forall locks_as ts;
  tags_awaited : ∀ op ek c, (op, c) ∈ omap waits_as ts → (ek, c) ∈ omap owns ts → lock_tag (ek, c) = op_tag op;
}.
Lemma tags_ok_perm ts ts' : ts ≡ₚ ts' → tags_ok ts → tags_ok ts'.
Proof. intros Hp [Hh Ha]. split; [by rewrite <- Hp|]. intros op ek c. rewrite <- Hp. apply Ha. Qed.

(** A step after which nothing new is held and nothing new is waited for. *)
Lemma tags_keep t t' new rest :
  tags_ok (t :: rest) → locks_as t' → Forall (λ x, locks_as x ∧ owns x = None ∧ waits_as x = None) new →
  (∀ l, owns t' = Some l → owns t = Some l) →
  (∀ op c, waits_as t' = Some (op, c) → ∃ op', waits_as t = Some (op', c) ∧ op_tag op' = op_tag op) →
  tags_ok (t' :: new ++ rest).
Proof.
  intros [Hh Ha] Hl Hnew Ho Hw. apply Forall_cons in Hh as [Hh Hrest].
  assert (∀ (B : Type) (f : thread → option B) b, (∀ x, x ∈ new → f x = None) →
    b ∈ omap f (t' :: new ++ rest) → f t' = Some b ∨ b ∈ omap f rest) as Hin.
  { intros B f b Hf. rewrite elem_of_omap_cons, omap_app, elem_of_app. intros [?|[Hb|?]]; [by left| |by right].
    apply list_elem_of_omap in Hb as (x & Hx & Hb). rewrite Hf in Hb by done. done. }
  rewrite Forall_forall in Hnew. split.
  - constructor; [done|]. apply Forall_app. split; [|done]. apply Forall_forall. intros x Hx. by apply Hnew.
  - intros op ek c Hwait%Hin Hown%Hin; [|intros x Hx; by apply Hnew..].
    assert ((ek, c) ∈ omap owns (t :: rest)) as Hown' by (rewrite elem_of_omap_cons; destruct Hown; auto).
    destruct Hwait as [(op' & Hwt & <-)%Hw|Hwait].
    + apply (Ha op' ek c); [rewrite elem_of_omap_cons; by left|done].
    + apply (Ha op ek c); [rewrite elem_of_omap_cons; by right|done].
Qed.

Lemma advance_tags inp t rest s t' new s' :
  client_ok (t :: rest) s → tags_ok (t :: rest) → advance inp t s = Some (t', new, s') → tags_ok (t' :: new ++ rest).
Proof.
  intros Hok Htg Ha. pose proof (tags_held _ Htg) as Hh. apply Forall_cons in Hh as [Hh _].
  pose proof (Forall_inv (ok_tails _ _ Hok)) as Htl.
  destruct t as [q|q w|op l c w|op c|op l|op l|op l m|op m b|l n|c n|op|op m|k|q r|]; cbn [locks_as tail_ok] in Hh, Htl.
  2: { cbn [advance] in Ha. unfold step_begin in Ha. destruct (in_canceled inp); [simplify_eq; by apply (tags_keep (TBegin q w))|].
    destruct (begin_checks (cs_now s) q) as [r|op] eqn:Hb; [simplify_eq; by apply (tags_keep (TBegin q w))|].
    assert (ck_transportTag (op_cacheKey op) = op_tag op) as Hk.
    { unfold begin_checks in Hb. repeat (case_match; simplify_eq/=; try done). }
    destruct (op_disableCache op); [simplify_eq; by apply (tags_keep (TBegin q w))|].
    set (ek := MkExchangeKey _ _) in Ha. destruct Htg as [Hheld Haw]. apply Forall_cons in Hheld as [_ Hheld].
    destruct (cs_cacheLock s !! ek) as [cond|] eqn:Hl; simplify_eq; cbn [app].
    - split; [by constructor|]. intros op' ek' c'. rewrite !elem_of_omap_cons. intros [[= <- <-]|Hw] [Hx|Ho]; try done.
      + apply (ok_owned _ _ Hok) in Hl. rewrite elem_of_omap_cons in Hl. destruct Hl as [?|Hl]; [done|].
        assert ((ek', cond) = (ek, cond)) as [= ->]; [|done].
        pose proof (ok_once _ _ Hok) as Hn. rewrite (omap_None closes) in Hn by done.
        apply (owner_unique rest); done.
      + apply (Haw op' ek' c'); rewrite elem_of_omap_cons; by right.
    - split; [by constructor|]. intros op' ek' c'. rewrite !elem_of_omap_cons. intros [[=]|Hw] [[= <- <-]|Ho].
      + exfalso. destruct (ok_awaits _ _ Hok (cs_next s)) as [Hc|Hc].
        * rewrite elem_of_omap_cons. right. apply list_elem_of_omap in Hw as (x & Hx & Hw).
          apply list_elem_of_omap. exists x. split; [done|]. destruct x as [| |? ? [] ?| | | | | | | | | | | |]; by simplify_eq/=.
        * apply (ok_closed _ _ Hok) in Hc. lia.
        * apply (ok_open _ _ Hok) in Hc as [? _]. lia.
      + apply (Haw op' ek' c'); rewrite elem_of_omap_cons; by right. }
  all: moves Ha;
    first [eapply (tags_keep _ _ [] rest); [exact Htg|..] | eapply (tags_keep _ _ [TRefresh op] rest); [exact Htg|..]];
    cbn; try done; try (by repeat constructor); try (by destruct l as [[]|]); try naive_solver.
Qed.

(** A goroutine that is not waiting can move, whatever it is given. *)
Definition can_move (t : thread) (s : Client) : Prop := ∀ inp, ∃ x, advance inp t s = Some x.
Lemma moves_unless_waiting t s :
  finished t ∨ can_move t s ∨ ∃ op c, t = TWait op c ∧ c ∉ cs_closed s.
Proof.
  destruct t as [q|q w|op l c w|op c|op l|op l|op l m|op m b|[] n|c n|op|op m|k|q r|];
    try (by left); right; try (left; intros inp; cbn [advance]; open_steps; repeat case_match; by eauto).
  destruct (decide (c ∈ cs_closed s)); [left|right; eauto]. intros inp. cbn [advance]; open_steps.
  destruct (in_canceled inp); [by eauto|]. rewrite bool_decide_eq_true_2 by done. eauto.
Qed.
Lemma closes_moves t c s : closes t = Some c → can_move t s.
Proof.
  intros Hc. destruct (moves_unless_waiting t s) as [Hf|[Hm|(op & c' & -> & _)]]; [|done|done]. by destruct t.
Qed.

Lemma runs_tags n x y : runs n x y → client_ok x.1 x.2 → tags_ok x.1 → tags_ok y.1.
Proof.
  induction 1 as [x|n x y z Hr IH Hs|n x ts s s' _ IH Hw]; intros Hok Htg; [done| |by apply IH].
  specialize (IH Hok Htg). pose proof (runs_ok _ _ _ Hr Hok) as Hoky.
  destruct Hs as [ts s i inp t t' new s' Hi Ha]. cbn [fst snd] in *.
  destruct (insert_app_perm ts new i t t' Hi) as (rest & Hp & Hp').
  eapply tags_ok_perm; [symmetry; exact Hp'|].
  eapply advance_tags; [by eapply client_ok_perm|by eapply tags_ok_perm|exact Ha].
Qed.
Lemma new_tags ts : Forall fresh ts → tags_ok ts.
Proof.
  intros Hts. split; [eapply Forall_impl; [exact Hts|]; by intros []|].
  intros op ek c. rewrite (omap_fresh waits_as) by done. set_solver.
Qed.

(** *** Queries made by transports

    To reach its server a transport may ask the client itself, for the address
    of the server or through a DNS server it detours to.  [asks] lists pairs of
    goroutines: the exchange of the first makes the query of the second.  Such a
    query starts when the transport is at work, and the transport does not answer
    before it has its answer. *)
Definition is_finished (t : thread) : bool := match t with TDone _ _ | TStop => true | _ => false end.
Definition is_fresh (t : thread) : bool := match t with TQuestion _ | TBegin _ _ => true | _ => false end.
Definition at_transport (t : thread) : bool := match t with TFlight _ _ | TRefresh _ => true | _ => false end.
Fixpoint thread_tag (t : thread) : string :=
  match t with
  | TQuestion q | TBegin q _ | TDone q _ => tr_Tag (qu_transport q)
  | TLook op _ _ _ | TWait op _ | TSend op _ | TFlight op _ | TFinish op _ _ | TServe op _ _
  | TRefresh op | TRefreshFinish op _ => op_tag op
  | TUnlock _ n | TClose _ n => thread_tag n
  | TRefreshed k => ck_transportTag k
  | TStop => ""
  end.

Section nested.
Context (asks : list (nat * nat)).

Definition there (p : thread → bool) (ts : list thread) (i : nat) : bool :=
  match ts !! i with Some t => p t | None => false end.
(** A transport whose own query is not answered. *)
Definition held_up (ts : list thread) (i : nat) : bool :=
  there at_transport ts i && existsb (λ '(p, j), (p =? i)%nat && there (negb ∘ is_finished) ts j) asks.
(** A transport's query that was not made, or not yet. *)
Definition unasked (ts : list thread) (j : nat) : bool :=
  there is_fresh ts j && existsb (λ '(_, j'), (j' =? j)%nat) asks
  && negb (existsb (λ '(p, j'), (j' =? j)%nat && there at_transport ts p) asks).
(** Transports ask transports of a lower level. *)
Definition asks_down (level : string → nat) (ts : list thread) : Prop :=
  ∀ i j ti tj, (i, j) ∈ asks → ts !! i = Some ti → ts !! j = Some tj → (level (thread_tag tj) < level (thread_tag ti))%nat.

Lemma held_up_spec ts i :
  held_up ts i = true → ∃ ti j tj, ts !! i = Some ti ∧ at_transport ti = true ∧ (i, j) ∈ asks
    ∧ ts !! j = Some tj ∧ ¬ finished tj ∧ unasked ts j = false.
Proof.
  unfold held_up. intros [Hat Hex]%andb_true_iff. apply existsb_exists in Hex as ([p j] & Hin & Hj).
  apply andb_true_iff in Hj as [->%Nat.eqb_eq Hj]. apply list_elem_of_In in Hin.
  unfold there in Hat, Hj. destruct (ts !! i) as [ti|] eqn:Hi; [|done]. destruct (ts !! j) as [tj|] eqn:Htj; [|done].
  exists ti, j, tj. split_and!; [done..|intros Hfin; cbn in Hj; by destruct tj|]. unfold unasked. apply andb_false_iff. right.
  apply negb_false_iff, existsb_exists. exists (i, j). split; [by apply list_elem_of_In|].
  unfold there. rewrite Nat.eqb_refl, Hi. done.
Qed.

Lemma progress level ts s :
  client_ok ts s → tags_ok ts → asks_down level ts →
  ∀ n i t, (level (thread_tag t) < n)%nat → ts !! i = Some t → ¬ finished t → unasked ts i = false →
  ∃ i t, ts !! i = Some t ∧ ¬ finished t ∧ unasked ts i = false ∧ held_up ts i = false ∧ can_move t s.
Proof.
  intros Hok Htg Hdown. induction n as [|n IH]; intros i t Hn Hi Hf Hu; [lia|].
  assert (∀ i' t', ts !! i' = Some t' → (level (thread_tag t') ≤ level (thread_tag t))%nat → held_up ts i' = true →
    ∃ i t, ts !! i = Some t ∧ ¬ finished t ∧ unasked ts i = false ∧ held_up ts i = false ∧ can_move t s) as Hheld.
  { intros i' t' Hi' Hle (ti & j & tj & Hti & _ & Hin & Hj & Hfj & Huj)%held_up_spec. simplify_eq.
    apply (IH j tj); try done. pose proof (Hdown _ _ _ _ Hin Hi' Hj). lia. }
  destruct (moves_unless_waiting t s) as [?|[Hm|(op & c & -> & Hc)]]; [done| |].
  - destruct (held_up ts i) eqn:Hh; [by eapply Hheld|]. exists i, t. done.
  - destruct (ok_awaits _ _ Hok c) as [?|Hcl]; [|done|].
    { apply list_elem_of_omap. exists (TWait op c). split; [by eapply list_elem_of_lookup_2|done]. }
    apply list_elem_of_omap in Hcl as (t' & Hin' & Hc'). pose proof Hin' as Hin. apply list_elem_of_lookup in Hin' as [i' Hi'].
    destruct (held_up ts i') eqn:Hh.
    + apply (Hheld i' t'); [done| |done]. destruct (held_up_spec _ _ Hh) as (ti & _ & _ & Hti & Hat & _). simplify_eq.
      destruct t' as [| | | | |op' l| | | | |op'| | | |]; try done. cbn [closes owns] in Hc'.
      destruct l as [[ek c']|]; [|done]. injection Hc' as ->. cbn [thread_tag].
      pose proof (tags_held _ Htg) as Hheld'. rewrite Forall_forall in Hheld'. specialize (Hheld' _ Hin). cbn in Hheld'.
      rewrite <- Hheld', (tags_awaited _ Htg op ek c); [done| |]; apply list_elem_of_omap.
      * exists (TWait op c). split; [by eapply list_elem_of_lookup_2|done].
      * by exists (TFlight op' (Some (ek, c))).
    + exists i', t'. split_and!; [done|intros Hfin; by destruct t'| |done|by eapply closes_moves].
      unfold unasked, there. rewrite Hi'. by destruct t'.
Qed.

Lemma idle ts s :
  client_ok ts s → Forall (λ t, finished t ∨ fresh t) ts → cs_cacheLock s = ∅ ∧ cs_refreshing s = ∅.
Proof.
  intros Hok Hf.
  assert (∀ A (f : thread → option A), (∀ t, finished t ∨ fresh t → f t = None) → omap f ts = []) as Hnone.
  { intros A f Hz. clear Hok. induction Hf as [|t l Ht _ IH]; [done|]. cbn. by rewrite Hz. }
  split.
  - apply map_eq. intros ek. rewrite lookup_empty. destruct (cs_cacheLock s !! ek) as [c|] eqn:Hc; [|done].
    apply (ok_owned _ _ Hok) in Hc. rewrite (Hnone _ owns) in Hc by (by intros [] []). set_solver.
  - apply set_eq. intros k. rewrite (ok_refreshing _ _ Hok), (Hnone _ refreshes) by (by intros [] []). set_solver.
Qed.
End nested.

(** ** Where responses come from *)

(** The same response up to times to live, address hints, the identifier and
    the sections the rules do not read addresses from. *)
Definition same_record (r r' : Resource) : Prop :=
  rr_Name r' = rr_Name r ∧
  (rr_Data r' = rr_Data r ∨ ∃ v v', rr_Data r = RR_HTTPS v ∧ rr_Data r' = RR_HTTPS v' ∧ v' `sublist_of` v).
Definition shows (raw m : Message) : Prop :=
  msg_Rcode m = msg_Rcode raw ∧ msg_Question m = msg_Question raw ∧ Forall2 same_record (msg_Answer raw) (msg_Answer m).

#[export] Instance same_record_refl : Reflexive same_record.
Proof. intros r. split; auto. Qed.
#[export] Instance same_record_trans : Transitive same_record.
Proof.
  intros r1 r2 r3 [Hn Hd] [Hn' Hd']. split; [congruence|].
  destruct Hd as [Hd|(v & v' & Hv & Hv' & Hs)], Hd' as [Hd'|(w & w' & Hw & Hw' & Hs')].
  - left. congruence.
  - right. exists w, w'. split_and!; congruence.
  - right. exists v, v'. split_and!; congruence.
  - right. exists v, w'. split_and!; [done..|]. rewrite Hv' in Hw. injection Hw as ->. by etrans.
Qed.
Lemma shows_refl m : shows m m.
Proof. split_and!; [done..|]. apply Forall_Forall2_diag, Forall_true. apply same_record_refl. Qed.
Lemma shows_trans m1 m2 m3 : shows m1 m2 → shows m2 m3 → shows m1 m3.
Proof.
  intros (Hr & Hq & Ha) (Hr' & Hq' & Ha'). split_and!; [congruence..|].
  by etrans.
Qed.
Lemma shows_answer (f : Resource → Resource) m m' :
  (∀ r, same_record r (f r)) → msg_Rcode m' = msg_Rcode m → msg_Question m' = msg_Question m →
  msg_Answer m' = f <$> msg_Answer m → shows m m'.
Proof. intros Hf Hr Hq Ha. split_and!; [done..|]. rewrite Ha. apply Forall2_fmap_r, Forall_Forall2_diag, Forall_true, Hf. Qed.
Lemma shows_normalize ttl m : shows m (normalizeTTL ttl m).
Proof.
  eapply shows_answer; [|done..]. intros r. cbn beta. destruct (is_opt r); [apply same_record_refl|]. by split; [|left].
Qed.
Lemma filter_sublist {A} (P : A → Prop) `{∀ x, Decision (P x)} l : filter P l `sublist_of` l.
Proof.
  induction l as [|x l IH]; [done|]. rewrite filter_cons. case_decide; [by apply sublist_skip|by apply sublist_cons].
Qed.
Lemma shows_options q m o : shows m (applyResponseOptions q m o).1.
Proof.
  unfold applyResponseOptions. cbn [fst]. eapply shows_trans; [|apply shows_normalize].
  destruct (_ && _); [|apply shows_refl]. eapply (shows_answer (filter_hints (qo_Strategy o))); [|done..].
  intros r. unfold filter_hints. destruct (rr_Data r) eqn:Hd; try apply same_record_refl.
  split; [done|]. right. eexists _, _. split_and!; [exact Hd|done|apply filter_sublist].
Qed.
Lemma shows_fields m m' : msg_Rcode m' = msg_Rcode m → msg_Question m' = msg_Question m → msg_Answer m' = msg_Answer m → shows m m'.
Proof. intros Hr Hq Ha. apply (shows_answer id); [apply same_record_refl|done..|by rewrite list_fmap_id]. Qed.

(** An operation asks what its key says. *)
Definition with_env (env : Z) (k : dnsCacheKey) : dnsCacheKey :=
  MkCacheKey (ck_Question k) (ck_transportTag k) (ck_clientSubnet k) env.
Definition asked_key (env : Z) (op : exchangeOperation) : dnsCacheKey :=
  let q := op_query op in
  with_env env (newCacheKey 0 (qu_transport q) (op_question op) (op_message op) (qu_options q)).
Record op_ok (op : exchangeOperation) : Prop := {
  op_head : head (msg_Question (qu_message (op_query op))) = Some (op_question op);
  op_prepared : op_message op = prepareExchangeMessage (qu_message (op_query op)) (qu_options (op_query op));
  op_key : ∃ env, op_cacheKey op = asked_key env op;
}.

Lemma newCacheKey_env now transport question message options :
  newCacheKey now transport question message options =
  with_env (environmentHash now transport) (newCacheKey 0 transport question message options).
Proof. done. Qed.
Lemma newCacheKey_prepared now transport question message options :
  newCacheKey now transport question (prepareExchangeMessage message options) options =
  newCacheKey now transport question message options.
Proof.
  unfold newCacheKey, prepareExchangeMessage. destruct (qo_RemoveClientSubnet options); [done|].
  by destruct (prefix_IsValid (query_subnet options)).
Qed.
Lemma begin_op_ok now q op : begin_checks now q = inr op → op_ok op.
Proof.
  unfold begin_checks. destruct (msg_Question (qu_message q)) as [|question l] eqn:Hq; [done|].
  destruct (_ || _); [done|]. intros [= <-]. split; cbn [op_query op_message op_question op_cacheKey qu_message qu_options];
    [by rewrite Hq|done|]. eexists. unfold asked_key. cbn. by rewrite newCacheKey_env.
Qed.
Lemma rekey_op_ok now op :
  op_ok op →
  op_ok (with_key (newCacheKey now (qu_transport (op_query op)) (op_question op) (op_message op) (qu_options (op_query op))) op).
Proof. intros [Hh Hp Hk]. split; [done..|]. eexists. unfold asked_key. cbn. by rewrite newCacheKey_env. Qed.
Lemma question_op_ok now q question l :
  msg_Question (qu_message q) = question :: l →
  op_ok (MkOperation q (prepareExchangeMessage (qu_message q) (qu_options q)) question false
           (newCacheKey now (qu_transport q) question (qu_message q) (qu_options q))).
Proof.
  intros Hq. split; cbn; [by rewrite Hq|done|]. eexists. unfold asked_key. cbn.
  by rewrite newCacheKey_env, newCacheKey_prepared.
Qed.

(** [received s op raw]: the transport answered [op] with [raw]. *)
Definition received (s : Client) (op : exchangeOperation) (raw : Message) : Prop :=
  op_ok op ∧ ∃ at' a, (at', op, a) ∈ cs_log s ∧ at' ≤ cs_now s ∧ exchangeToTransport (op_message op) a = Ok raw.
(** An entry holds a response to what its slot says, for no longer than the
    response may be kept. *)
Definition entry_ok (s : Client) (x : slot) (e : entry) : Prop := ∃ op raw env stored_at,
  received s op raw ∧ slot_of (asked_key env op) = Some x ∧ stored_at ≤ cs_now s ∧
  let '(m, ttl) := applyResponseOptions (op_question op) raw (qu_options (op_query op)) in
  entry_message e = Some m ∧
  match en_expireAt e with Some t => t ≤ stored_at + second * ttl | None => cl_disableExpire = true end.
(** A response the cache gave for the key of an operation. *)
Definition served (s : Client) (op : exchangeOperation) (response : Message) : Prop := ∃ op' raw env,
  received s op' raw ∧ slot_of (asked_key env op') = slot_of (op_cacheKey op) ∧ slot_of (op_cacheKey op) ≠ None ∧
  shows raw response.

(** The answer to a query: made by the client itself, or what the transport
    answered to this query or to one with the same slot; the checker agreed. *)
Definition own_answer (q : query) (m : Message) : Prop :=
  match msg_Question (qu_message q) with
  | [] => m = FixedResponseStatus (qu_message q) RcodeFormatError
  | question :: _ =>
      m = FixedResponseStatus (qu_message q) RcodeSuccess ∧
      (q_Qtype question = TypeA ∧ qo_Strategy (qu_options q) = DomainStrategyIPv6Only ∨
       q_Qtype question = TypeAAAA ∧ qo_Strategy (qu_options q) = DomainStrategyIPv4Only)
  end.
Definition accepted (q : query) (raw m : Message) : Prop :=
  ∃ seen, shows raw seen ∧ shows seen m ∧ rejected_by (qu_checker q) seen = false.
Definition answered (s : Client) (q : query) (m : Message) : Prop :=
  own_answer q m ∨
  ∃ op op' raw, op_ok op ∧ op_query op = q ∧ received s op' raw ∧ accepted q raw m ∧
    (op' = op ∨ slot_of (op_cacheKey op) ≠ None ∧ ∃ env, slot_of (asked_key env op') = slot_of (op_cacheKey op)).

Fixpoint thread_ok (s : Client) (t : thread) : Prop :=
  match t with
  | TLook op _ _ _ | TWait op _ | TSend op _ | TFlight op _ | TRefresh op => op_ok op
  | TFinish op _ raw | TRefreshFinish op raw => received s op raw
  | TServe op response _ => op_ok op ∧ served s op response
  | TUnlock _ n | TClose _ n => thread_ok s n
  | TDone q (Ok m) => answered s q m
  | _ => True
  end.
Record sound (ts : list thread) (s : Client) : Prop := {
  sound_threads : Forall (thread_ok s) ts;
  sound_cache : map_Forall (entry_ok s) (cs_cache s);
}.

(** More is known later. *)
Record later (s s' : Client) : Prop := {
  later_now : cs_now s ≤ cs_now s';
  later_log : cs_log s ⊆ cs_log s';
}.
Lemma received_later s s' op raw : later s s' → received s op raw → received s' op raw.
Proof. intros [Hn Hl] (Hop & t & a & Hin & Ht & Ha). split; [done|]. exists t, a. split_and!; [by apply Hl|lia|done]. Qed.
Lemma served_later s s' op r : later s s' → served s op r → served s' op r.
Proof. intros Hl (op' & raw & env & Hr & Hrest). exists op', raw, env. split; [by eapply received_later|done]. Qed.
Lemma thread_ok_later s s' t : later s s' → thread_ok s t → thread_ok s' t.
Proof.
  intros Hl. induction t as [q|q w|op l c w|op c|op l|op l|op l m|op m b|l n|c n|op|op m|k|q r|]; cbn [thread_ok]; auto;
    try (by apply received_later).
  - intros [? ?]. split; [done|by eapply served_later].
  - destruct r; [|done..]. intros [?|(op & op' & raw & Hop & Hq & Hr & Hrest)]; [by left|right].
    exists op, op', raw. split_and!; [done..|by eapply received_later|apply Hrest|apply Hrest].
Qed.
Lemma entry_ok_later s s' x e : later s s' → entry_ok s x e → entry_ok s' x e.
Proof.
  intros Hl (op & raw & env & t & Hr & Hs & Ht & He). exists op, raw, env, t. split_and!; [by eapply received_later|done| |done].
  destruct Hl. lia.
Qed.

(** *** The cache stays sound *)

Context (pack_law : ∀ m raw, Pack m = Some raw → Unpack raw = Some m).

Lemma load_served s op r ttl stale c :
  map_Forall (entry_ok s) (cs_cache s) →
  loadResponse (cs_now s) (op_cacheKey op) (cs_cache s) = (Some (r, ttl, stale), c) → served s op r.
Proof.
  intros Hc. unfold loadResponse. destruct (slot_of (op_cacheKey op)) as [x|] eqn:Hx; [|done].
  destruct (cs_cache s !! x) as [e|] eqn:He; [|done]. destruct (Hc x e He) as (op' & raw & env & t & Hr & Hs & _ & Hm).
  pose proof (shows_options (op_question op') raw (qu_options (op_query op'))) as Hsh.
  destruct (applyResponseOptions _ raw _) as [m ttl']. destruct Hm as [Hm _]. rewrite Hm. cbn [fst] in Hsh. intros Hl.
  exists op', raw, env. rewrite Hx. split_and!; [done..|].
  repeat case_match; simplify_eq/=; try done; (eapply shows_trans; [exact Hsh|apply shows_normalize]).
Qed.
Lemma load_cache now key c r c' P :
  loadResponse now key c = (r, c') → map_Forall P c → map_Forall P c'.
Proof.
  unfold loadResponse. intros Hl Hc. repeat case_match; simplify_eq/=; try done. by apply map_Forall_delete.
Qed.
Lemma store_sound s op raw env m ttl :
  received s op raw → applyResponseOptions (op_question op) raw (qu_options (op_query op)) = (m, ttl) →
  map_Forall (entry_ok s) (cs_cache s) →
  map_Forall (entry_ok s) (storeCache (cs_now s) (asked_key env op) m ttl (cs_cache s)).
Proof.
  intros Hr Ho Hc. unfold storeCache. destruct (ttl =? 0); [done|].
  destruct (slot_of (asked_key env op)) as [[k|n]|] eqn:Hs; [| |done].
  - apply map_Forall_insert_2; [|done]. exists op, raw, env, (cs_now s). rewrite Ho. split_and!; [done|by rewrite Hs|lia|done|].
    cbn. by destruct cl_disableExpire eqn:Hd.
  - destruct (Pack m) as [packed|] eqn:Hp; [|done]. apply map_Forall_insert_2; [|done].
    exists op, raw, env, (cs_now s). rewrite Ho. split_and!; [done|by rewrite Hs|lia| |cbn; lia].
    cbn. by apply pack_law.
Qed.
Lemma finishCacheKey_asked now op key storable :
  op_ok op → finishCacheKey now (qu_transport (op_query op)) (op_cacheKey op) = (key, storable) → ∃ env, key = asked_key env op.
Proof.
  intros [_ _ [env ->]]. unfold finishCacheKey. destruct (_ || _); intros [= <- <-]; [|by eexists].
  eexists. unfold asked_key. by cbn.
Qed.
Lemma finish_sound s op raw r c d :
  received s op raw → map_Forall (entry_ok s) (cs_cache s) →
  finishExchange (cs_now s) op raw (cs_cache s) (cs_rdrc s) = (r, c, d) →
  map_Forall (entry_ok s) c ∧ ∀ m, r = Ok m → answered s (op_query op) m.
Proof.
  intros Hr Hc. pose proof (proj1 Hr) as Hop. unfold finishExchange.
  set (rej := match qu_checker (op_query op) with Some _ => _ | None => _ end).
  destruct rej eqn:Hrej; [intros [= <- <- <-]; split; done|].
  assert (rejected_by (qu_checker (op_query op)) raw = false) as Hacc.
  { subst rej. unfold rejected_by. destruct (qu_checker (op_query op)); [|done]. by apply orb_false_iff in Hrej as [_ ?]. }
  pose proof (shows_options (op_question op) raw (qu_options (op_query op))) as Hsh.
  destruct (applyResponseOptions _ raw _) as [m ttl] eqn:Ho. cbn [fst] in Hsh. intros [= <- <- <-]. split.
  - destruct (op_disableCache op || failure raw); [done|].
    destruct (finishCacheKey _ _ _) as [key storable] eqn:Hk. destruct storable; [|done].
    destruct (finishCacheKey_asked _ _ _ _ Hop Hk) as [env ->]. by eapply store_sound.
  - intros m' [= <-]. right. exists op, op, raw. split_and!; [done..| |by left].
    exists raw. split_and!; [apply shows_refl| |done]. eapply shows_trans; [exact Hsh|].
    unfold SetEdns0. repeat case_match; by apply shows_fields.
Qed.
Lemma refresh_sound s op raw c d :
  received s op raw → map_Forall (entry_ok s) (cs_cache s) →
  finish_refresh (cs_now s) op raw (cs_cache s) (cs_rdrc s) = (c, d) → map_Forall (entry_ok s) c.
Proof.
  intros Hr Hc. pose proof (proj1 Hr) as Hop. unfold finish_refresh.
  set (rej := match qu_checker (op_query op) with Some _ => _ | None => _ end).
  destruct rej; [by intros [= <- <-]|]. destruct (failure raw); [by intros [= <- <-]|].
  destruct (finishCacheKey _ _ _) as [key storable] eqn:Hk. destruct storable; cbn [negb]; [|by intros [= <- <-]].
  destruct (finishCacheKey_asked _ _ _ _ Hop Hk) as [env ->].
  assert (ck_Question (op_cacheKey op) = op_question op) as -> by (destruct Hop as [_ _ [? ->]]; done).
  destruct (applyResponseOptions _ raw _) as [m ttl] eqn:Ho. intros [= <- <-]. by eapply store_sound.
Qed.

(** *** Steps *)

Lemma begin_own now q m : begin_checks now q = inl (Ok m) → own_answer q m.
Proof.
  unfold begin_checks, own_answer. destruct (msg_Question (qu_message q)) as [|question l]; [by intros [= <-]|].
  set (o := if qo_Timeout (qu_options q) =? 0 then _ else _).
  assert (qo_Strategy o = qo_Strategy (qu_options q)) as -> by (subst o; by destruct (_ =? _)).
  destruct (_ || _) eqn:Hb; [|done]. intros [= <-]. split; [done|].
  apply orb_true_iff in Hb as [[?%Z.eqb_eq ?%Z.eqb_eq]%andb_true_iff|[?%Z.eqb_eq ?%Z.eqb_eq]%andb_true_iff]; auto.
Qed.
Lemma begin_not_panic now q r : begin_checks now q = inl r → ∃ m, r = Ok m.
Proof. unfold begin_checks. destruct (msg_Question _); [intros [= <-]; eauto|]. destruct (_ || _); [intros [= <-]; eauto|done]. Qed.
Lemma thread_ok_release s l t : thread_ok s t → thread_ok s (release l t).
Proof. by destruct l. Qed.
Lemma usable_Some op r m b : usable op r = Some (m, b) → ∃ ttl stale, r = Some (m, ttl, stale).
Proof. unfold usable. destruct r as [[[m' ttl] stale]|]; [|done]. destruct (_ && _); [done|]. intros [= <- <-]. eauto. Qed.
Lemma served_done s op m b r :
  op_ok op → served s op m →
  r = (if rejected_by (qu_checker (op_query op)) m then Err ErrResponseRejectedCached
       else Ok (with_id (msg_Id (op_message op)) m)) →
  thread_ok s (TDone (op_query op) r) ∧ (b = true → thread_ok s (TRefresh op)).
Proof.
  intros Hop (op' & raw & env & Hr & Hs & Hn & Hsh) ->. split; [|done].
  destruct (rejected_by _ m) eqn:Hrej; [done|]. right. exists op, op', raw. split_and!; [done..| |right; eauto].
  exists m. split_and!; [done|by apply shows_fields|done].
Qed.

(** What a step of a goroutine keeps: time, the log so far, and a sound cache. *)
Definition step_sound (s : Client) (t' : thread) (new : list thread) (s' : Client) : Prop :=
  later s s' ∧ thread_ok s' t' ∧ Forall (thread_ok s') new ∧ map_Forall (entry_ok s') (cs_cache s').
Lemma step_sound_later s t' new s' :
  later s s' → thread_ok s t' → Forall (thread_ok s) new → map_Forall (entry_ok s) (cs_cache s') → step_sound s t' new s'.
Proof.
  intros Hl Ht Hn Hc. split_and!; [done|by eapply thread_ok_later| |].
  - eapply Forall_impl; [exact Hn|]. intros t. by apply thread_ok_later.
  - eapply map_Forall_impl; [exact Hc|]. intros x e. by apply entry_ok_later.
Qed.
Lemma later_log_cons s op a : later s (upd_log op a s).
Proof. split; [done|]. cbn. intros x Hx. by right. Qed.

Lemma load_sound s op (k : option (Message * bool) → thread) :
  op_ok op → map_Forall (entry_ok s) (cs_cache s) →
  (∀ m b, served s op m → thread_ok s (k (Some (m, b)))) → thread_ok s (k None) →
  let '(r, c) := loadResponse (cs_now s) (op_cacheKey op) (cs_cache s) in
  step_sound s (k (usable op r)) [] (upd_cache c (cs_rdrc s) s).
Proof.
  intros Hop Hc Hs Hn. destruct (loadResponse _ _ _) as [r c] eqn:Hl.
  apply step_sound_later; [done| |constructor|by eapply load_cache].
  destruct (usable op r) as [[m b]|] eqn:Hu; [|done]. destruct (usable_Some _ _ _ _ Hu) as (ttl & stale & ->).
  by eapply Hs, load_served.
Qed.
Lemma flight_sound s op a raw :
  op_ok op → exchangeToTransport (op_message op) a = Ok raw → received (upd_log op a s) op raw.
Proof. intros Hop Ha. split; [done|]. exists (cs_now s), a. split_and!; [by left|cbn; lia|done]. Qed.

Lemma advance_sound inp t s t' new s' :
  thread_ok s t → map_Forall (entry_ok s) (cs_cache s) → advance inp t s = Some (t', new, s') → step_sound s t' new s'.
Proof.
  intros Ht Hc Ha.
  assert (∀ t1, thread_ok s t1 → step_sound s t1 [] s) as Hsame by (intros; by apply step_sound_later).
  destruct t as [q|q w|op l cd w|op cd|op l|op l|op l m|op m b|[ek cd] n|cd n|op|op m|k|q r|]; cbn [advance thread_ok] in Ha, Ht; open_step Ha.
  - destruct (_ || _); [injection Ha as <- <- <-; by apply Hsame|].
    destruct (msg_Question (qu_message q)) as [|question rest] eqn:Hq; [injection Ha as <- <- <-; by apply Hsame|].
    set (op := MkOperation _ _ _ _ _) in Ha. pose proof (question_op_ok (cs_now s) q question rest Hq) as Hop. fold op in Hop.
    pose proof (load_sound s op (λ u, match u with Some (m, b) => TServe op m b | None => TBegin q true end) Hop Hc) as Hl.
    destruct (loadResponse _ _ _) as [r c]. specialize (Hl (λ m b Hs, conj Hop Hs) I).
    destruct (usable op r) as [[m b]|]; injection Ha as <- <- <-; exact Hl.
  - destruct (in_canceled inp); [injection Ha as <- <- <-; by apply Hsame|].
    destruct (begin_checks (cs_now s) q) as [r|op] eqn:Hb.
    + destruct (begin_not_panic _ _ _ Hb) as [m ->]. injection Ha as <- <- <-. apply Hsame. left. by eapply begin_own.
    + apply begin_op_ok in Hb. destruct (op_disableCache op); [injection Ha as <- <- <-; by apply Hsame|].
      destruct (cs_cacheLock s !! _); injection Ha as <- <- <-; by apply step_sound_later.
  - pose proof (load_sound s op (λ u, match u, cd with
        | Some (m, b), _ => release l (TServe op m b) | None, None => TSend op l
        | None, Some cd => if w then TWait op cd else TBegin (op_query op) true end) Ht Hc) as Hl.
    destruct (loadResponse _ _ _) as [r c].
    specialize (Hl (λ m b Hs, thread_ok_release _ _ (TServe op m b) (conj Ht Hs))).
    assert (thread_ok s (match cd with None => TSend op l | Some cd => if w then TWait op cd else TBegin (op_query op) true end))
      as Hmiss by (destruct cd; [by destruct w|done]). specialize (Hl Hmiss).
    destruct (usable op r) as [[m b]|]; [|destruct cd]; injection Ha as <- <- <-; exact Hl.
  - destruct (in_canceled inp); [injection Ha as <- <- <-; by apply Hsame|].
    destruct (bool_decide _); [|done]. injection Ha as <- <- <-. apply Hsame. by apply rekey_op_ok.
  - repeat case_match; injection Ha as <- <- <-; apply Hsame; try done; by apply thread_ok_release.
  - pose proof (later_log_cons s op (in_answer inp)) as Hl.
    destruct (exchangeToTransport _ _) as [raw| |] eqn:Hx; injection Ha as <- <- <-.
    + split_and!; [done|by apply flight_sound|constructor|].
      eapply map_Forall_impl; [exact Hc|]. intros x e. by apply entry_ok_later.
    + apply step_sound_later; [done|by apply thread_ok_release|constructor|done].
    + apply step_sound_later; [done|by apply thread_ok_release|constructor|done].
  - destruct (finishExchange _ _ _ _ _) as [[r c] d] eqn:Hf. injection Ha as <- <- <-.
    destruct (finish_sound _ _ _ _ _ _ Ht Hc Hf) as [Hc' Hr].
    apply step_sound_later; [done| |constructor|done]. apply thread_ok_release. destruct r; [by apply Hr|done..].
  - destruct Ht as [Hop Hs]. destruct (served_done _ _ _ b _ Hop Hs eq_refl) as [Hd Hr].
    destruct (b && _) eqn:Hb; injection Ha as <- <- <-; [|by apply Hsame].
    apply andb_true_iff in Hb as [-> _]. apply step_sound_later; [done|done|by apply Forall_singleton|done].
  - injection Ha as <- <- <-. by apply step_sound_later.
  - injection Ha as <- <- <-. by apply step_sound_later.
  - pose proof (later_log_cons s op (in_answer inp)) as Hl.
    destruct (exchangeToTransport _ _) as [raw| |] eqn:Hx; injection Ha as <- <- <-.
    + split_and!; [done|by apply flight_sound|constructor|].
      eapply map_Forall_impl; [exact Hc|]. intros x e. by apply entry_ok_later.
    + by apply step_sound_later.
    + by apply step_sound_later.
  - destruct (finish_refresh _ _ _ _ _) as [c d] eqn:Hf. injection Ha as <- <- <-.
    apply step_sound_later; [done|done|constructor|by eapply refresh_sound].
  - injection Ha as <- <- <-. by apply step_sound_later.
  - done.
  - done.
Qed.

Lemma world_sound ts s s' : world_step s s' → sound ts s → sound ts s'.
Proof.
  intros Hw [Ht Hc].
  assert (later s s') as Hl by (destruct Hw; by split).
  split.
  { eapply Forall_impl; [exact Ht|]. intros t. by apply thread_ok_later. }
  assert (map_Forall (entry_ok s) (cs_cache s')) as Hc'.
  { destruct Hw as [s now Hn|s x|s x|s n raw t He|s]; cbn [cs_cache upd_cache]; try done.
    - by apply map_Forall_delete.
    - apply map_Forall_insert_2; [|done]. destruct (Hc _ _ He) as (op & rw & env & t0 & Hr & Hs & Hle & Hm).
      exists op, rw, env, t0. split_and!; [done..|]. destruct (applyResponseOptions _ rw _). cbn in *.
      split; [apply Hm|]. destruct Hm as [_ Hm]. pose proof (Z.mul_div_le t second). unfold second in *. lia. }
  eapply map_Forall_impl; [exact Hc'|]. intros x e. by apply entry_ok_later.
Qed.
Lemma runs_sound n x y : runs n x y → sound x.1 x.2 → sound y.1 y.2.
Proof.
  induction 1 as [x|n x y z _ IH Hs|n x ts s s' _ IH Hw]; intros Hok; [done| |by eapply world_sound; [|apply IH]].
  destruct (IH Hok) as [Ht Hc]. destruct Hs as [ts s i inp t t' new s' Hi Ha]. cbn [fst snd] in *.
  destruct (advance_sound _ _ _ _ _ _ (proj1 (Forall_lookup _ _) Ht _ _ Hi) Hc Ha) as (Hl & Ht' & Hn & Hc').
  split; [|done]. apply Forall_app; split; [|done]. apply Forall_insert; [|done].
  eapply Forall_impl; [exact Ht|]. intros y. by apply thread_ok_later.
Qed.
Lemma new_sound now d ts : Forall fresh ts → sound ts (new_client now ∅ d).
Proof.
  intros Hts. split; [|apply map_Forall_empty]. eapply Forall_impl; [exact Hts|]. by intros [].
Qed.
Lemma slot_memory k k' x : cl_cache ≠ CachePersistent → slot_of k = Some x → slot_of k' = Some x → k = k'.
Proof. unfold slot_of. intros Hm. destruct cl_cache; [done| |done]. by intros [= <-] [= ->]. Qed.

(** ** Theorems *)

(** (C6) Queries never wait for each other forever, if the transports' own
    queries go down.  A transport may need answers of the client itself before
    it can answer (for the address of its server): let [asks] be any such
    dependencies between the queries, in which a transport of some level asks
    transports of lower levels only (the transport manager starts transports in
    an order of that kind and refuses cycles; without it a query can wait for the
    exchange that waits for it: nested_loop_stuck).  However the goroutines of
    any number of blocking, callback and lookup queries are interleaved, they
    take at most twelve steps per query together; in every state either some
    goroutine that is running, not held up by an unanswered query of its
    transport, can move without waiting for a cancellation, or every query that
    was made is finished and no lock and no refresh mark is left. *)
Theorem client_returns n queries now c d ts s asks level :
  Forall fresh queries → runs n (queries, new_client now c d) (ts, s) → asks_down asks level ts →
  (n ≤ 12 * length queries)%nat ∧
  ((∃ i t, ts !! i = Some t ∧ ¬ finished t ∧ unasked asks ts i = false ∧ held_up asks ts i = false ∧ can_move t s) ∨
   (∀ i t, ts !! i = Some t → finished t ∨ unasked asks ts i = true) ∧ cs_cacheLock s = ∅ ∧ cs_refreshing s = ∅).
Proof.
  intros Hf Hr Hdown. pose proof (runs_rank _ _ _ Hr) as Hrank. pose proof (ranks_fresh _ Hf). cbn [fst] in *. split; [lia|].
  pose proof (runs_ok _ _ _ Hr (new_ok now c d queries Hf)) as Hok.
  pose proof (runs_tags _ _ _ Hr (new_ok now c d queries Hf) (new_tags queries Hf)) as Htg. cbn [fst snd] in *.
  destruct (decide (Forall (λ i, there is_finished ts i || unasked asks ts i = true) (seq 0 (length ts)))) as [Hall|Hsome].
  - right. assert (∀ i t, ts !! i = Some t → finished t ∨ unasked asks ts i = true) as Hdone.
    { intros i t Hi. rewrite Forall_forall in Hall. specialize (Hall i). apply lookup_lt_Some in Hi as Hlt.
      rewrite elem_of_seq in Hall. specialize (Hall ltac:(lia)). unfold there in Hall. rewrite Hi in Hall.
      apply orb_true_iff in Hall as [Hd|?]; [left; by destruct t|by right]. }
    split; [done|]. apply (idle _ _ Hok). apply Forall_lookup. intros i t Hi.
    destruct (Hdone i t Hi) as [?|Hu]; [by left|right]. unfold unasked, there in Hu. rewrite Hi in Hu. by destruct t.
  - left. apply not_Forall_Exists, Exists_exists in Hsome as (i & Hi%elem_of_seq & Hno); [|intros i; apply _].
    apply not_true_is_false, orb_false_iff in Hno as [Hnf Hu]. unfold there in Hnf.
    destruct (ts !! i) as [t|] eqn:Ht; [|apply lookup_ge_None in Ht; lia].
    eapply (progress asks level ts s Hok Htg Hdown); [apply Nat.lt_succ_diag_r|exact Ht| |exact Hu]. intros Hfin. by destruct t.
Qed.

(** Two operations ask the same: the same question of servers with the same tag,
    with the same client subnet in the message. *)
Definition asks_same (op op' : exchangeOperation) : Prop :=
  op_question op = op_question op' ∧ tr_Tag (qu_transport (op_query op)) = tr_Tag (qu_transport (op_query op')) ∧
  (subnet_ok cl_clientSubnet → subnet_ok (qo_ClientSubnet (qu_options (op_query op))) →
   subnet_ok (qo_ClientSubnet (qu_options (op_query op'))) →
   clientSubnetFromMessage (op_message op) = clientSubnetFromMessage (op_message op')).
Lemma asked_same op op' : op_ok op → op_ok op' → asked_key 0 op = asked_key 0 op' → asks_same op op'.
Proof.
  intros [_ Hp _] [_ Hp' _] Hk. split_and!; [by injection Hk..|]. intros Hc Ho Ho'.
  apply (f_equal ck_clientSubnet) in Hk. unfold asked_key, with_env in Hk. cbn [ck_clientSubnet] in Hk.
  rewrite Hp, Hp', !cache_key_wire in Hk by done. by rewrite Hp, Hp'.
Qed.

(** (C8) A query is answered with what its own server said.  An answer of the
    client, from the transport or from the memory cache, is what the transport
    of the same tag answered to the same question with the same client subnet,
    up to times to live and filtered address hints, and the query's checker
    accepted it; or the client refused the question by itself.  A cached
    response is offered only as long as it may be kept, and as a stale one only
    within the optimistic timeout after that. *)
Theorem client_answers n queries now d ts s :
  cl_cache ≠ CachePersistent → Forall fresh queries → runs n (queries, new_client now ∅ d) (ts, s) →
  (∀ q m, TDone q (Ok m) ∈ ts →
     own_answer q m ∨
     ∃ op op' raw, op_ok op ∧ op_query op = q ∧ received s op' raw ∧ asks_same op' op ∧ accepted q raw m) ∧
  (∀ key m ttl stale c, cl_disableExpire = false →
     loadResponse (cs_now s) key (cs_cache s) = (Some (m, ttl, stale), c) →
     ∃ op raw stored_at, received s op raw ∧
       op_question op = ck_Question key ∧ tr_Tag (qu_transport (op_query op)) = ck_transportTag key ∧
       stored_at ≤ cs_now s ≤ stored_at + second * (applyResponseOptions (op_question op) raw (qu_options (op_query op))).2 +
                              (if stale then cl_optimisticTimeout else 0)).
Proof.
  intros Hmem Hf Hr. pose proof (runs_sound _ _ _ Hr (new_sound now d queries Hf)) as [Ht Hc]. cbn [fst snd] in *. split.
  - intros q m Hin. rewrite Forall_forall in Ht. destruct (Ht _ Hin) as [?|(op & op' & raw & Hop & Hq & Hrc & Ha & Hk)]; [by left|right].
    exists op, op', raw. split_and!; [done..| |done]. apply asked_same; [apply Hrc|done|].
    destruct Hk as [->|[Hn [env Hs]]]; [done|].
    destruct (slot_of (op_cacheKey op)) as [x|] eqn:Hx; [|done]. pose proof (slot_memory _ _ _ Hmem Hs Hx) as Hk.
    destruct Hop as [_ _ [env' Hop]]. rewrite Hop in Hk. apply (f_equal (with_env 0)) in Hk. exact Hk.
  - intros key m ttl stale c Hd. unfold loadResponse. rewrite Hd. destruct (slot_of key) as [x|] eqn:Hx; [|done].
    destruct (cs_cache s !! x) as [e|] eqn:He; [|done]. destruct (Hc x e He) as (op & raw & env & t & Hrc & Hs & Hle & Hm).
    destruct (applyResponseOptions _ raw _) as [m0 ttl0] eqn:Ho. destruct Hm as [Hm Hex]. rewrite Hm.
    destruct (en_expireAt e) as [ex|]; [|congruence]. intros Hl. exists op, raw, t. rewrite Ho. cbn [snd].
    pose proof (slot_memory _ _ _ Hmem Hs Hx) as Hk. split_and!; [done|by rewrite <- Hk..|done|].
    destruct (ex <? cs_now s) eqn:Hlt; [destruct (_ && _) eqn:Hopt; [|done]|]; injection Hl as <- <- <- <-.
    + apply andb_true_iff in Hopt as [_ Hopt%Z.ltb_lt]. lia.
    + apply Z.ltb_ge in Hlt. lia.
Qed.

(** A failed refresh is taken for a rejection.  When the transport answers
    with a failure code, the exchange of a query with a checker is rejected but
    not remembered, while a background refresh of the same query records the
    domain among the persisted rejections of the transport, so that later
    queries are refused without being asked. *)
Theorem refresh_failure_persisted now op f response c d :
  cl_rdrc = true → qu_checker (op_query op) = Some f → failure response = true →
  finishExchange now op response c d = (Err ErrResponseRejected, c, d) ∧
  finish_refresh now op response c d =
    (c, {[(tr_Tag (qu_transport (op_query op)), q_Name (ck_Question (op_cacheKey op)), q_Qtype (ck_Question (op_cacheKey op)))]} ∪ d).
Proof.
  intros Hr Hf Hfail. unfold finishExchange, finish_refresh. rewrite Hf, Hfail, Hr. cbn.
  by rewrite orb_true_r.
Qed.

(** The name an entry has in the cache file leaves the class of the question
    out: questions of different classes share an entry. *)
Lemma persistent_class_shared k class :
  cl_cache = CachePersistent →
  slot_of (MkCacheKey (MkQuestion (q_Name (ck_Question k)) (q_Qtype (ck_Question k)) class)
             (ck_transportTag k) (ck_clientSubnet k) (ck_environment k)) = slot_of k.
Proof. unfold slot_of. by intros ->. Qed.

(** A query that a transport makes for itself is refused as a loop, but only
    when it gets that far: while the outer query holds the lock of the same
    question, it waits for the channel the outer query will close. *)
Lemma loop_waits inp q s op cond :
  in_canceled inp = false → qu_contextTag q = Some (tr_Tag (qu_transport q)) →
  begin_checks (cs_now s) q = inr op → op_disableCache op = false → cs_cache s = ∅ →
  cs_cacheLock s !! MkExchangeKey (op_cacheKey op) (qo_Timeout (qu_options (op_query op))) = Some cond →
  ∃ t, advance inp (TBegin q true) s = Some (t, [], s) ∧
       advance inp t s = Some (TWait op cond, [], upd_cache ∅ (cs_rdrc s) s).
Proof.
  intros Hc _ Hb Hd He Hl. exists (TLook op None (Some cond) true). cbn [advance]; open_steps. rewrite Hc, Hb, Hd, Hl. split; [done|].
  unfold loadResponse. rewrite He. destruct (slot_of _); [by rewrite lookup_empty|done].
Qed.

(** ** Running a schedule *)

(** The goroutine to move and its input, step by step. *)
Fixpoint run_schedule (l : list (nat * input)) (x : system) : option system :=
  match l with
  | [] => Some x
  | (i, inp) :: l =>
      t ← x.1 !! i;
      '(t', new, s') ← advance inp t x.2;
      run_schedule l (<[i := t']> x.1 ++ new, s')
  end.
Lemma runs_trans n m x y z : runs n x y → runs m y z → runs (m + n) x z.
Proof.
  intros Hx Hy. induction Hy as [y|m y y' z _ IH Hs|m y ts s s' _ IH Hw]; [done| |].
  - eapply runs_thread; eauto.
  - eapply runs_world; eauto.
Qed.
Lemma run_schedule_runs l x y : run_schedule l x = Some y → runs (length l) x y.
Proof.
  revert x. induction l as [|[i inp] l IH]; intros [ts s] Hl; cbn in Hl; [simplify_eq; constructor|].
  destruct (ts !! i) as [t|] eqn:Hi; [|done]. cbn in Hl. destruct (advance inp t s) as [[[t' new] s']|] eqn:Ha; [|done].
  cbn in Hl. specialize (IH _ Hl). cbn [length]. replace (S (length l)) with (length l + 1)%nat by lia.
  eapply runs_trans; [|exact IH]. eapply runs_thread; [constructor|]. econstructor; eauto.
Qed.
Lemma run_schedule_end l x y :
  match run_schedule l x with Some _ => true | None => false end = true →
  runs (length l) x (default y (run_schedule l x)).
Proof. intros Hl. apply run_schedule_runs. by destruct (run_schedule l x). Qed.
End system.

(** ** Examples *)

Definition lib0 : MessageLib := {|
  IsEdns0 _ := None; edns0_record _ _ := MkResource "." 0 (RR_OPT 0 []); Pack _ := None; Unpack _ := None |}.
Definition client0 : ClientEnv := {|
  cl_timeout := 10 * second; cl_disableCache := false; cl_disableExpire := false; cl_optimisticTimeout := 60 * second;
  cl_clientSubnet := PrefixZero; cl_cache := CacheMemory; cl_rdrc := true; prefix_String _ := ""%string;
  Environment _ _ := None; NetworkEnvironment _ := 0; whole_seconds d := d / second |}.
Definition ask_msg (id : Z) : Message := MkMessage id false false true false 0 [MkQuestion "x." TypeA 1] [] [] [].
Definition reply_msg (ttl : Z) : Message :=
  MkMessage 1 true false true true 0 [MkQuestion "x." TypeA 1] [MkResource "x." ttl (RR_A [1; 2; 3; 4])] [] [].
Definition query_of (id : Z) : query :=
  MkQuery (MkTransport "a" "udp") (ask_msg id) no_query_options (Some (λ m, bool_decide (msg_Rcode m = 0))) None.
Definition go (i : nat) : nat * input := (i, MkInput false (AnswerMessage (reply_msg 300))).
(** Two queries for the same name: the second waits for the first and takes its
    answer from the cache. *)
Definition schedule0 : list (nat * input) :=
  [go 0; go 0; go 1; go 1; go 0; go 0; go 0; go 0; go 0; go 1; go 1; go 1]%nat.
Definition queries0 : list thread := [TBegin (query_of 7) true; TBegin (query_of 8) true].
Definition end0 : system := default ([], new_client 0 ∅ ∅) (@run_schedule lib0 client0 schedule0 (queries0, new_client 0 ∅ ∅)).

Definition timed_query (id : Z) : query :=
  MkQuery (MkTransport "a" "udp") (ask_msg id) (with_timeout (10 * second) no_query_options) (qu_checker (query_of id)) None.

Example one_exchange : length (cs_log end0.2) = 1%nat ∧
  end0.1 = [TDone (timed_query 7) (Ok (with_id 7 (reply_msg 300))); TDone (timed_query 8) (Ok (with_id 8 (reply_msg 300)))].
Proof. split; vm_compute; reflexivity. Qed.
Lemma end0_runs : @runs lib0 client0 12 (queries0, new_client 0 ∅ ∅) (end0.1, end0.2).
Proof.
  rewrite <- surjective_pairing. apply (run_schedule_end schedule0). vm_compute. reflexivity.
Qed.

(** The first query's transport, of level 1, resolves its server through the
    second query, to a transport of level 0. *)
Definition nested_queries : list thread :=
  [TBegin (query_of 7) true; TBegin (MkQuery (MkTransport "boot" "udp") (ask_msg 9) no_query_options None (Some "a"%string)) true].
Definition level0 (tag : string) : nat := if bool_decide (tag = "a"%string) then 1 else 0.
Definition nested_end : system :=
  default ([], new_client 0 ∅ ∅) (@run_schedule lib0 client0 [go 0; go 0; go 0]%nat (nested_queries, new_client 0 ∅ ∅)).

Lemma client_returns_witness :
  held_up [(0, 1)]%nat nested_end.1 0 = true
  ∧ ∃ i t, nested_end.1 !! i = Some t ∧ ¬ finished t ∧ unasked [(0, 1)]%nat nested_end.1 i = false
      ∧ held_up [(0, 1)]%nat nested_end.1 i = false ∧ @can_move lib0 client0 t nested_end.2.
Proof.
  split; [vm_compute; reflexivity|].
  destruct (@client_returns lib0 client0 3 nested_queries 0 ∅ ∅ nested_end.1 nested_end.2 [(0, 1)]%nat level0) as [_ [Hm|[Hd _]]].
  - repeat constructor.
  - rewrite <- surjective_pairing. apply (run_schedule_end [go 0; go 0; go 0]%nat). vm_compute. reflexivity.
  - intros i j ti tj Hin Hi Hj. apply list_elem_of_singleton in Hin as [= -> ->].
    vm_compute in Hi, Hj. simplify_eq. vm_compute. lia.
  - exact Hm.
  - exfalso. assert (is_Some (nested_end.1 !! 1%nat)) as [t Ht] by (vm_compute; eauto).
    destruct (Hd 1%nat t Ht) as [Hf|Hu].
    + vm_compute in Ht. simplify_eq. exact Hf.
    + vm_compute in Hu. discriminate Hu.
Defined.

(** A transport that needs the answer to the very question it is asked: its
    query waits for the exchange, and the exchange for the query. *)
Definition loop_queries : list thread :=
  [TBegin (query_of 7) true; TBegin (MkQuery (MkTransport "a" "udp") (ask_msg 9) no_query_options None (Some "a"%string)) true].
Definition loop_end : system :=
  default ([], new_client 0 ∅ ∅) (@run_schedule lib0 client0 [go 0; go 0; go 0; go 1; go 1]%nat (loop_queries, new_client 0 ∅ ∅)).
Lemma nested_loop_stuck :
  @runs lib0 client0 5 (loop_queries, new_client 0 ∅ ∅) loop_end
  ∧ length loop_end.1 = 2%nat
  ∧ held_up [(0, 1)]%nat loop_end.1 0 = true
  ∧ (∃ t, loop_end.1 !! 1%nat = Some t ∧ ¬ finished t
          ∧ @advance lib0 client0 (MkInput false (AnswerMessage (reply_msg 300))) t loop_end.2 = None).
Proof.
  split_and!.
  - apply (run_schedule_end [go 0; go 0; go 0; go 1; go 1]%nat). vm_compute. reflexivity.
  - vm_compute. reflexivity.
  - vm_compute. reflexivity.
  - destruct (loop_end.1 !! 1%nat) as [t|] eqn:Ht; [|vm_compute in Ht; discriminate Ht].
    exists t. vm_compute in Ht. injection Ht as <-. split_and!; [done|by intros []|vm_compute; reflexivity].
Qed.

Lemma client_answers_witness :
  @own_answer (timed_query 8) (with_id 8 (reply_msg 300)) ∨
  ∃ op op' raw, @op_ok client0 op ∧ op_query op = timed_query 8 ∧ @received client0 end0.2 op' raw ∧
    @asks_same client0 op' op ∧ accepted (timed_query 8) raw (with_id 8 (reply_msg 300)).
Proof.
  refine (proj1 (@client_answers lib0 client0 _ 12 queries0 0 ∅ end0.1 end0.2 _ _ _) _ _ _);
    [done|done|repeat constructor|exact end0_runs|]. rewrite (proj2 one_exchange). by right; left.
Defined.

Definition failed_refresh : exchangeOperation :=
  MkOperation (timed_query 7) (ask_msg 7) (MkQuestion "x." TypeA 1) false (MkCacheKey (MkQuestion "x." TypeA 1) "a" PrefixZero 0).
Lemma refresh_failure_persisted_witness :
  @finishExchange lib0 client0 0 failed_refresh (FixedResponseStatus (ask_msg 7) 2) ∅ ∅ = (Err ErrResponseRejected, ∅, ∅) ∧
  @finish_refresh lib0 client0 0 failed_refresh (FixedResponseStatus (ask_msg 7) 2) ∅ ∅ =
    (∅, {[("a"%string, "x."%string, 1)]} ∪ ∅).
Proof. by apply (@refresh_failure_persisted lib0 client0 0 failed_refresh (λ m, bool_decide (msg_Rcode m = 0)) _ ∅ ∅). Defined.
