(* ===== verification/DnsLegacy.v ===== *)
(** * The legacy DNS mode and lookups

    [matchDNS], [exchangeLegacy], [Exchange] and [Lookup] of [dns/router.go],
    with [Client.Lookup].  In the legacy mode a rule is matched before the query
    is sent and, when it has conditions on addresses, again on the response; a
    response it does not accept sends the query on to the next rule. *)

From S2P Require Import Prelude GoStrings NetAddr RuleContext RuleItems RuleMatch RuleSpec DnsActions DnsWalk DnsMode DnsRouter.
From S2P Require Import RuleBuild DnsSeq DnsCache DnsClient.

Local Open Scope Z_scope.

(** ** The router's surroundings *)

(** [lg_exchange n]: the [n]-th call of [client.Exchange] for this query;
    [IsFqdn], [Fqdn] and the EDNS0 flag are the message library's, and
    [group_error] what [task.Group] makes of the errors of its tasks. *)
Record LegacyEnv := MkLegacy {
  lg_rule : RuleEnv;
  lg_transports : TransportManager;
  lg_strategy : Z;
  lg_now : Z;
  lg_dropCounter : list Z;       (* of the reject action a query meets *)
  lg_exchange : nat → Transport → Message → DNSQueryOptions → option (Message → bool) → result Message;
  lg_IsFqdn : string → bool;
  lg_Fqdn : string → string;
  lg_do : Message → bool;
  lg_group_error : list error → error;
}.

(** [errors.Is(err, ErrResponseRejected)], also behind [ErrResponseRejectedCached]. *)
Fixpoint is_rejected (e : error) : bool :=
  bool_decide (e = ErrResponseRejected) || match e with EWrap _ cause => is_rejected cause | _ => false end.

Definition isAddressQuery (message : Message) : bool :=
  existsb (λ q, (q_Qtype q =? TypeA) || (q_Qtype q =? TypeAAAA) || (q_Qtype q =? TypeHTTPS)) (msg_Question message).
Definition set_from_response (b : bool) (m : InboundContext) : InboundContext :=
  let q := request m in
  MkContext (MkRequest (md_Inbound q) (md_IPVersion q) (md_Network q) (md_Source q) (md_Destination q) (md_User q)
    (md_Outbound q) (md_Protocol q) (md_Domain q) (md_Client q) (md_DestinationAddresses q) (md_DNSResponse q)
    (md_NamedDNSResponses q) b (md_ProcessInfo q) (md_SourceMACAddress q) (md_SourceHostname q) (md_QueryType q)
    (md_QueryClientSubnet q) (md_QueryDNSSEC q) (md_PreMatch q)) (RuleContext.cache m).

Section legacy.
Context `{UnicodeTables} (L : LegacyEnv).
Local Abbreviation E := (lg_rule L).

(** ** Matching *)

(** What [matchDNS] returns: the transport, and the rule with its index. *)
Record legacy_match := MkMatch {
  lm_transport : option Transport;
  lm_rule : option (nat * DNSRule);
  lm_options : DNSQueryOptions;
  lm_metadata : InboundContext;
}.
Definition legacy_options (isFakeIP : bool) (o : RuleActionDNSRouteOptions) (q : DNSQueryOptions) : DNSQueryOptions :=
  let q := apply_route_options true false o q in if isFakeIP then set_disable_cache q else q.

(** The loop from rule [i] on; [rest] are the rules from there. *)
Fixpoint match_go (allowFakeIP isAddress : bool) (rest : list DNSRule) (i : nat) (options : DNSQueryOptions)
    (m : InboundContext) : legacy_match :=
  match rest with
  | [] => MkMatch (Some (tm_Default (lg_transports L))) None options m
  | rule :: rest =>
      let next := match_go allowFakeIP isAddress rest (S i) in
      if WithAddressLimit (dr_rule rule) && negb isAddress then next options m
      else
        let '(b, m) := LegacyPreMatch E (dr_rule rule) (set_from_response false (ResetRuleCache m)) in
        if negb b then next options m
        else
          match dr_action rule with
          | Some (ActionDNSRoute server _ o) =>
              match tm_Transport (lg_transports L) server with
              | None => next options m
              | Some transport =>
                  if is_fakeip transport && negb allowFakeIP then next options m
                  else MkMatch (Some transport) (Some (i, rule)) (legacy_options (is_fakeip transport) o options) m
              end
          | Some (ActionDNSRouteOptions o) => next (apply_route_options true false o options) m
          | Some (ActionReject _ _) | Some (ActionPredefined _ _ _ _) => MkMatch None (Some (i, rule)) options m
          | _ => next options m
          end
  end.
Definition matchDNS (allowFakeIP isAddress : bool) (rules : list DNSRule) (start : nat) (options : DNSQueryOptions)
    (m : InboundContext) : legacy_match :=
  match_go allowFakeIP isAddress (drop start rules) start options m.

Definition addressLimitResponseCheck (rule : option (nat * DNSRule)) (m : InboundContext) : option (Message → bool) :=
  match rule with
  | Some (_, rule) =>
      if WithAddressLimit (dr_rule rule) then Some (λ response, MatchAddressLimit E (dr_rule rule) m (Some (seen response)))
      else None
  | None => None
  end.

(** ** The loop of [exchangeLegacy] and [Lookup] *)

(** [attempt] asks the transport, [act] is what an action gives without asking,
    [retry] whether the next rule is tried when the rule has a check; [nil] is
    a call on a nil transport. *)
Section loop.
Context {R : Type} (allowFakeIP isAddress : bool).
Context (attempt : nat → Transport → DNSQueryOptions → option (Message → bool) → R) (retry : R → bool).
Context (act : DNSRule → option R) (nil : R).

Fixpoint legacy_loop (fuel : nat) (rules : list DNSRule) (options : DNSQueryOptions) (start n : nat) (m : InboundContext) :
    option (R * option Transport * option DNSRule) :=
  match fuel with
  | O => None
  | S fuel =>
      let x := matchDNS allowFakeIP isAddress rules start options m in
      match (ir ← lm_rule x; act ir.2) with
      | Some r => Some (r, None, snd <$> lm_rule x)
      | None =>
          let responseCheck := addressLimitResponseCheck (lm_rule x) (lm_metadata x) in
          match lm_transport x with
          | None => Some (nil, None, snd <$> lm_rule x)
          | Some transport =>
              let r := attempt n transport (lm_options x) responseCheck in
              match responseCheck, lm_rule x with
              | Some _, Some (i, _) =>
                  if retry r then legacy_loop fuel rules options (S i) (S n) (lm_metadata x)
                  else Some (r, Some transport, snd <$> lm_rule x)
              | _, _ => Some (r, Some transport, snd <$> lm_rule x)
              end
          end
      end
  end.
End loop.

(** ** Exchange *)

Definition nil_transport {A} : result A := Panic "nil pointer dereference".
Definition exchange_act (message : Message) (rule : DNSRule) : option (result Message) :=
  match dr_action rule with
  | Some (ActionReject RejectDefault _) => Some (dnsRefusedResponse message)
  | Some (ActionReject RejectDrop _) => Some (Err ErrDrop)
  | Some (ActionPredefined rcode answer ns extra) => Some (predefined_Response rcode answer ns extra message)
  | _ => None
  end.
Definition exchange_attempt (message : Message) (n : nat) (transport : Transport) (options : DNSQueryOptions)
    (check : option (Message → bool)) : result Message :=
  lg_exchange L n transport message (finalizeExchangeOptions (lg_strategy L) options) check.
Definition rejected_result {A} (r : result A) : bool := match r with Err e => is_rejected e | _ => false end.
Definition exchangeLegacy (fuel : nat) (rules : list DNSRule) (message : Message) (options : DNSQueryOptions)
    (m : InboundContext) : option (result Message * option Transport * option DNSRule) :=
  legacy_loop true (isAddressQuery message) (exchange_attempt message) rejected_result (exchange_act message) nil_transport
    fuel rules options 0 0 m.

(** ** Lookups *)

Definition RcodeError (rcode : Z) : error := EFmt "rcode %d" [Itoa rcode].
Definition MessageToAddresses (response : Message) : list Addr := DNSResponseAddresses E (Some (seen response)).
Definition sortAddresses (response4 response6 : list Addr) (strategy : Z) : list Addr :=
  if strategy =? DomainStrategyPreferIPv6 then response6 ++ response4 else response4 ++ response6.
Definition lookup_message (name : string) (qType : Z) : Message :=
  MkMessage 0 false false true false 0 [MkQuestion name qType 1] [] [] [].
(** Two tasks of a group; the addresses of the ones that succeed. *)
Definition both (strategy : Z) (r4 r6 : result (list Addr)) : result (list Addr) :=
  match r4, r6 with
  | Panic w, _ | _, Panic w => Panic w
  | _, _ =>
      let addresses r := match r with Ok l => l | _ => [] end in
      let errors := (match r4 with Err e => [e] | _ => [] end) ++ (match r6 with Err e => [e] | _ => [] end) in
      if negb (nonempty (addresses r4)) && negb (nonempty (addresses r6))
      then match errors with [] => Ok [] | _ => Err (lg_group_error L errors) end
      else Ok (sortAddresses (addresses r4) (addresses r6) strategy)
  end.
Definition FqdnToDomain (fqdn : string) : string :=
  if lg_IsFqdn L fqdn then String.substring 0 (String.length fqdn - 1) fqdn else fqdn.

(** [Client.lookupToExchange]: its look at the cache is part of the client. *)
Definition lookupToExchange (n : nat) (transport : Transport) (name : string) (qType : Z) (options : DNSQueryOptions)
    (check : option (Message → bool)) : result (list Addr) :=
  response ← lg_exchange L n transport (lookup_message name qType) options check;
  if negb (msg_Rcode response =? RcodeSuccess) then Err (RcodeError (msg_Rcode response))
  else Ok (MessageToAddresses response).
Definition client_Lookup (n : nat) (transport : Transport) (domain : string) (options : DNSQueryOptions)
    (check : option (Message → bool)) : result (list Addr) :=
  let dnsName := lg_Fqdn L (FqdnToDomain domain) in
  let own := negb (qo_LookupStrategy options =? DomainStrategyAsIS) in
  let strategy := if own then qo_LookupStrategy options else qo_Strategy options in
  let lookupOptions := if own then set_strategy strategy options else options in
  let ask n qType := lookupToExchange n transport dnsName qType lookupOptions check in
  if strategy =? DomainStrategyIPv4Only then ask n TypeA
  else if strategy =? DomainStrategyIPv6Only then ask n TypeAAAA
  else both strategy (ask n TypeA) (ask (n + 1)%nat TypeAAAA).

Definition resolveLookupStrategy (options : DNSQueryOptions) : Z :=
  if negb (qo_LookupStrategy options =? DomainStrategyAsIS) then qo_LookupStrategy options
  else if negb (qo_Strategy options =? DomainStrategyAsIS) then qo_Strategy options
  else lg_strategy L.
Definition withLookupQueryMetadata (qType : Z) (m : InboundContext) : InboundContext :=
  let q := request m in
  MkContext (MkRequest (md_Inbound q)
    (if qType =? TypeA then 4 else if qType =? TypeAAAA then 6 else 0) (md_Network q) (md_Source q) (md_Destination q)
    (md_User q) (md_Outbound q) (md_Protocol q) (md_Domain q) (md_Client q) (md_DestinationAddresses q) (md_DNSResponse q)
    (md_NamedDNSResponses q) (md_DestinationAddressMatchFromResponse q) (md_ProcessInfo q) (md_SourceMACAddress q)
    (md_SourceHostname q) qType PrefixZero false (md_PreMatch q)) (RuleContext.cache m).
Definition filterAddressesByQueryType (addresses : list Addr) (qType : Z) : list Addr :=
  if qType =? TypeA then filter (λ a, Is4 a = true) addresses
  else if qType =? TypeAAAA then filter (λ a, Is6 a = true) addresses
  else addresses.

(** [lookupWithRulesType], given how the rules answer a message. *)
Definition lookupWithRulesType (exchange : Message → DNSQueryOptions → InboundContext → exchange_result) (domain : string)
    (qType : Z) (options : DNSQueryOptions) (m : InboundContext) : result (list Addr) :=
  x ← exchange (lookup_message (lg_Fqdn L domain) qType) options (withLookupQueryMetadata qType m);
  match er_reject x with
  | Some (method, noDrop) =>
      e ← reject_Error method noDrop (lg_now L) (lg_dropCounter L);
      match e.1 with Some e => Err e | None => Ok [] end
  | None =>
      match er_err x, er_response x with
      | Some e, _ => Err e
      | None, None => nil_transport
      | None, Some response =>
          if negb (msg_Rcode response =? RcodeSuccess) then Err (RcodeError (msg_Rcode response))
          else Ok (filterAddressesByQueryType (MessageToAddresses response) qType)
      end
  end.
Definition lookupWithRules (exchange : Message → DNSQueryOptions → InboundContext → exchange_result) (domain : string)
    (options : DNSQueryOptions) (m : InboundContext) : result (list Addr) :=
  let strategy := resolveLookupStrategy options in
  let lookupOptions := if strategy =? DomainStrategyAsIS then options else set_strategy strategy options in
  let ask qType := lookupWithRulesType exchange domain qType lookupOptions m in
  if strategy =? DomainStrategyIPv4Only then ask TypeA
  else if strategy =? DomainStrategyIPv6Only then ask TypeAAAA
  else both strategy (ask TypeA) (ask TypeAAAA).

(** [Lookup] in the legacy mode: any error sends the lookup to the next rule. *)
Definition lookup_act (rule : DNSRule) : option (result (list Addr)) :=
  match dr_action rule with
  | Some (ActionReject method noDrop) =>
      Some (e ← reject_Error method noDrop (lg_now L) (lg_dropCounter L);
            Err (RejectedError (default (EStd "nil") e.1)))
  | Some (ActionPredefined rcode answer _ _) =>
      Some (if negb (rcode =? RcodeSuccess) then Err (RcodeError rcode)
            else Ok (answer ≫= λ r, match rr_Data r with
                                    | RR_A ip | RR_AAAA ip => [env_AddrFromIP E ip]
                                    | _ => []
                                    end))
  | _ => None
  end.
Definition lookup_attempt (domain : string) (n : nat) (transport : Transport) (options : DNSQueryOptions)
    (check : option (Message → bool)) : result (list Addr) :=
  let options := if qo_Strategy options =? DomainStrategyAsIS then set_strategy (lg_strategy L) options else options in
  client_Lookup (2 * n) transport domain options check.
Definition failed_result {A} (r : result A) : bool := match r with Err _ => true | _ => false end.
Definition lookupLegacy (fuel : nat) (rules : list DNSRule) (domain : string) (options : DNSQueryOptions)
    (m : InboundContext) : option (result (list Addr) * option Transport * option DNSRule) :=
  legacy_loop false true (lookup_attempt domain) failed_result lookup_act nil_transport fuel rules options 0 0 m.
(** [printResult]. *)
Definition print_result (domain : string) (r : result (list Addr)) : result (list Addr) :=
  match r with
  | Ok [] => Err (EWrap ("lookup " +:+ domain) (ENew "empty result"))
  | Err e => Err (EWrap ("lookup " +:+ domain) e)
  | r => r
  end.

(** ** The entry points *)

Definition legacy_fuel (rules : list DNSRule) : nat := S (length rules).
Definition walk_fuel (rules : list DNSRule) : nat := 4 * length rules + 5.
Definition errClosed : error := ENew "dns router closed".
Definition lookup_metadata (domain : string) (m : InboundContext) : InboundContext :=
  let q := request m in
  MkContext (MkRequest (md_Inbound q) (md_IPVersion q) (md_Network q) (md_Source q) (MkSocksaddr AddrZero 0 "") (md_User q)
    (md_Outbound q) (md_Protocol q) (FqdnToDomain domain) (md_Client q) (md_DestinationAddresses q) None ∅ false
    (md_ProcessInfo q) (md_SourceMACAddress q) (md_SourceHostname q) (md_QueryType q) (md_QueryClientSubnet q)
    (md_QueryDNSSEC q) (md_PreMatch q)) (RuleContext.cache m).
(** A loop of the model that has run out of fuel; [legacy_fuel] is enough. *)
Definition out_of_turns {A} : result A := Panic "out of fuel".
Definition Lookup (r : Router) (rule_exchange : list DNSRule → Message → DNSQueryOptions → InboundContext → exchange_result)
    (domain : string) (options : DNSQueryOptions) (m : InboundContext) : result (list Addr) :=
  if r_closing r then Err errClosed
  else
    let m := lookup_metadata domain m in
    match qo_Transport options with
    | Some transport =>
        let options := if qo_Strategy options =? DomainStrategyAsIS then set_strategy (lg_strategy L) options else options in
        print_result domain (client_Lookup 0 transport domain options None)
    | None =>
        if negb (r_legacyDNSMode r) then print_result domain (lookupWithRules (rule_exchange (r_rules r)) domain options m)
        else
          match lookupLegacy (legacy_fuel (r_rules r)) (r_rules r) domain options m with
          | None => out_of_turns
          | Some (x, _, rule) =>
              match rule with
              | Some rule => match dr_action rule with
                             | Some (ActionReject _ _) => x      (* returned without printResult *)
                             | _ => print_result domain x
                             end
              | None => print_result domain x
              end
          end
    end.

Definition isResolverDiscoveryQuery (question : Question) : bool :=
  (q_Qtype question =? TypeSVCB) && bool_decide (5 < String.length (q_Name question))%nat &&
  EqualFold (String.substring 0 5 (q_Name question)) "_dns.".
(** [prepareExchange]: an early response, or the metadata of the query. *)
Definition prepareExchange (r : Router) (message : Message) (m : InboundContext) : result (Message + InboundContext) :=
  match msg_Question message with
  | [question] =>
      if isResolverDiscoveryQuery question then
        Ok (inl (MkMessage (msg_Id message) true false (msg_RecursionDesired message) true RcodeSuccess (msg_Question message)
                   [] [] []))
      else if r_closing r then Err errClosed
      else
        let q := request m in
        let qType := q_Qtype question in
        Ok (inr (MkContext (MkRequest (md_Inbound q)
          (if qType =? TypeA then 4 else if qType =? TypeAAAA then 6 else md_IPVersion q) (md_Network q) (md_Source q)
          (MkSocksaddr AddrZero 0 "") (md_User q) (md_Outbound q) (md_Protocol q) (FqdnToDomain (q_Name question))
          (md_Client q) (md_DestinationAddresses q) None ∅ false (md_ProcessInfo q) (md_SourceMACAddress q)
          (md_SourceHostname q) qType (clientSubnetFromMessage message) (lg_do L message) (md_PreMatch q)) (RuleContext.cache m)))
  | _ => Ok (inl (MkMessage (msg_Id message) true false false false RcodeFormatError (msg_Question message) [] [] []))
  end.

(** What [recordReverseMapping] adds: address, domain and time to live. *)
Definition recordReverseMapping (response : option Message) (transport : option Transport) : list (Addr * string * Z) :=
  if match transport with Some t => is_fakeip t | None => false end then []
  else default [] (msg_Answer <$> response) ≫= λ r,
         match rr_Data r with
         | RR_A ip | RR_AAAA ip => [(env_AddrFromIP E ip, FqdnToDomain (rr_Name r), rr_Ttl r)]
         | _ => []
         end.
Definition exchange_answer (x : exchange_result) : result (option Message * option Transport) :=
  x ← x;
  match er_err x with Some e => Err e | None => Ok (er_response x, er_transport x) end.
Definition Exchange (r : Router) (rule_exchange : list DNSRule → Message → DNSQueryOptions → InboundContext → exchange_result)
    (message : Message) (options : DNSQueryOptions) (m : InboundContext) : result (option Message * list (Addr * string * Z)) :=
  prepared ← prepareExchange r message m;
  match prepared with
  | inl early => Ok (Some early, [])
  | inr m =>
      '(response, transport) ←
        match qo_Transport options with
        | Some transport =>
            response ← lg_exchange L 0 transport message (finalizeExchangeOptions (lg_strategy L) options) None;
            Ok (Some response, Some transport)
        | None =>
            if negb (r_legacyDNSMode r) then exchange_answer (rule_exchange (r_rules r) message options m)
            else
              match exchangeLegacy (legacy_fuel (r_rules r)) (r_rules r) message options m with
              | None => out_of_turns
              | Some (x, transport, _) => response ← x; Ok (Some response, transport)
              end
        end;
      Ok (response, recordReverseMapping response transport)
  end.

(** ** The rules read in order *)

(** The context every rule is matched in. *)
Definition std (m : InboundContext) : InboundContext := set_from_response false (ResetRuleCache m).

Section walk.
Context {R : Type} (allowFakeIP isAddress : bool).
Context (attempt : nat → Transport → DNSQueryOptions → option (Message → bool) → R) (retry : R → bool).
Context (act : DNSRule → option R) (nil : R) (options : DNSQueryOptions) (c : InboundContext).

(** The first rule that applies and whose response it accepts: a rule without
    conditions on addresses accepts every response. *)
Fixpoint legacy_walk (rest : list DNSRule) (acc : DNSQueryOptions) (n : nat) : R * option Transport * option DNSRule :=
  match rest with
  | [] => (attempt n (tm_Default (lg_transports L)) acc None, Some (tm_Default (lg_transports L)), None)
  | rule :: rest =>
      let '(b, m) := LegacyPreMatch E (dr_rule rule) c in
      if WithAddressLimit (dr_rule rule) && negb isAddress || negb b then legacy_walk rest acc n
      else
        match dr_action rule with
        | Some (ActionDNSRoute server _ o) =>
            match tm_Transport (lg_transports L) server with
            | Some transport =>
                if is_fakeip transport && negb allowFakeIP then legacy_walk rest acc n
                else
                  let check := addressLimitResponseCheck (Some (0%nat, rule)) m in
                  match act rule with
                  | Some r => (r, None, Some rule)
                  | None =>
                      let r := attempt n transport (legacy_options (is_fakeip transport) o acc) check in
                      if WithAddressLimit (dr_rule rule) && retry r then legacy_walk rest options (S n)
                      else (r, Some transport, Some rule)
                  end
            | None => legacy_walk rest acc n
            end
        | Some (ActionDNSRouteOptions o) => legacy_walk rest (apply_route_options true false o acc) n
        | Some (ActionReject _ _) | Some (ActionPredefined _ _ _ _) => (default nil (act rule), None, Some rule)
        | _ => legacy_walk rest acc n
        end
  end.
End walk.

(** A match leaves the context as it found it, up to the rule cache. *)
Lemma prematch_std rule m :
  separated false rule = true → ignoring m = false →
  std (LegacyPreMatch E rule (std m)).2 = std m ∧ ignoring (LegacyPreMatch E rule (std m)).2 = false.
Proof.
  intros Hsep Hi.
  assert (∀ b m1, keeps (set_ignore true (std m)) m1 → std ((b, set_ignore false m1) : bool * _).2 = std m) as Hstd.
  { intros b m1 [Hv _]. cbn [snd]. unfold view in Hv. destruct m1 as [q1 c1]. injection Hv as Hq. cbn in Hq. subst q1.
    unfold std, set_from_response, ResetRuleCache, ResetRuleMatchCache, set_ignore. cbn. by rewrite <- Hi. }
  pose proof (all_rules_sound E rule (set_ignore true (std m)) None eq_refl (λ _, Hsep)) as Hpre.
  assert (std (std m) = std m ∧ ignoring (std m) = false) as Hsame by done.
  destruct rule as [r|r|r [] tag|l]; cbn [LegacyPreMatch]; try done; unfold ignoring_match;
    cbn [rule_Match matchForMatch] in Hpre.
  - destruct (default_Match E (rule_Match E) r (set_ignore true (std m))) as [b m1]. split; [|done].
    apply Hstd. apply Hpre.
  - destruct (logical_Match (rule_Match E) l (set_ignore true (std m))) as [b m1]. split; [|done].
    apply Hstd. apply Hpre.
Qed.

Section walk_laws.
Context {R : Type} (allowFakeIP isAddress : bool).
Context (attempt : nat → Transport → DNSQueryOptions → option (Message → bool) → R) (retry : R → bool).
Context (act : DNSRule → option R) (nil : R) (options : DNSQueryOptions) (c : InboundContext).
Local Abbreviation walk := (legacy_walk allowFakeIP isAddress attempt retry act nil options c).

(** What the loop does with a match, given what the rules after it give. *)
Definition use_match (x : legacy_match) (n : nat) (next : R * option Transport * option DNSRule) :
    R * option Transport * option DNSRule :=
  match (ir ← lm_rule x; act ir.2) with
  | Some r => (r, None, snd <$> lm_rule x)
  | None =>
      let check := addressLimitResponseCheck (lm_rule x) (lm_metadata x) in
      match lm_transport x with
      | None => (nil, None, snd <$> lm_rule x)
      | Some transport =>
          let r := attempt n transport (lm_options x) check in
          match check, lm_rule x with
          | Some _, Some _ => if retry r then next else (r, Some transport, snd <$> lm_rule x)
          | _, _ => (r, Some transport, snd <$> lm_rule x)
          end
      end
  end.
Definition after_match (x : legacy_match) (i : nat) (rest : list DNSRule) : list DNSRule :=
  match lm_rule x with Some (j, _) => drop (S j - i) rest | None => [] end.

Lemma match_go_walk rest i acc m n :
  Forall (λ r, separated false (dr_rule r) = true) rest → ignoring m = false → std m = c →
  let x := match_go allowFakeIP isAddress rest i acc m in
  std (lm_metadata x) = c ∧ ignoring (lm_metadata x) = false ∧
  (∀ j r, lm_rule x = Some (j, r) → (i ≤ j < i + length rest)%nat) ∧
  walk rest acc n = use_match x n (walk (after_match x i rest) options (S n)).
Proof.
  revert i acc m. induction rest as [|rule rest IH]; intros i acc m Hsep Hi Hm; cbn [match_go legacy_walk].
  { split_and!; [done..|]. unfold use_match. cbn. done. }
  apply Forall_cons in Hsep as [Hr Hrest].
  assert (∀ acc' m', ignoring m' = false → std m' = c →
    let x := match_go allowFakeIP isAddress rest (S i) acc' m' in
    std (lm_metadata x) = c ∧ ignoring (lm_metadata x) = false ∧
    (∀ j r, lm_rule x = Some (j, r) → (i ≤ j < i + length (rule :: rest))%nat) ∧
    walk rest acc' n = use_match x n (walk (after_match x i (rule :: rest)) options (S n))) as Hnext.
  { intros acc' m' Hi' Hm'. destruct (IH (S i) acc' m' Hrest Hi' Hm') as (H1 & H2 & H3 & H4). split_and!; [done..| |].
    - intros j r Hj. specialize (H3 j r Hj). cbn. lia.
    - rewrite H4. unfold after_match. destruct (lm_rule _) as [[j r]|] eqn:Hj; [|done].
      specialize (H3 j r eq_refl). replace (S j - i)%nat with (S (S j - S i))%nat by lia. done. }
  pose proof (prematch_std (dr_rule rule) m Hr Hi) as [Hs Hig]. rewrite Hm in Hs, Hig.
  fold (std m). rewrite Hm.
  destruct (LegacyPreMatch E (dr_rule rule) c) as [b m'] eqn:Hpre. cbn [snd] in Hs, Hig.
  destruct (WithAddressLimit (dr_rule rule) && negb isAddress) eqn:Hskip; [by apply Hnext|]. cbn [orb].
  destruct b; cbn [negb]; [|by apply Hnext].
  destruct (dr_action rule) as [a|] eqn:Ha; [|by apply Hnext].
  destruct a as [server sp o|o|server tag sp o| |method nd|rcode an ns ex]; try (by apply Hnext).
  - destruct (tm_Transport (lg_transports L) server) as [transport|]; [|by apply Hnext].
    destruct (is_fakeip transport && negb allowFakeIP); [by apply Hnext|]. cbn [lm_metadata lm_rule].
    split_and!; [done..| |].
    + intros j r [= <- <-]. cbn. lia.
    + unfold use_match, after_match. cbn [lm_rule lm_options lm_metadata lm_transport mbind option_bind snd fmap option_fmap option_map].
      replace (S i - i)%nat with 1%nat by lia. cbn [drop addressLimitResponseCheck].
      destruct (act rule); [done|]. destruct (WithAddressLimit (dr_rule rule)); [|done]. done.
  - split_and!; [done..| |].
    + intros j r [= <- <-]. cbn. lia.
    + unfold use_match. cbn. by destruct (act rule).
  - split_and!; [done..| |].
    + intros j r [= <- <-]. cbn. lia.
    + unfold use_match. cbn. by destruct (act rule).
Qed.

Lemma legacy_loop_walk fuel rules start n m :
  Forall (λ r, separated false (dr_rule r) = true) rules → ignoring m = false → std m = c →
  (length rules - start < fuel)%nat →
  legacy_loop allowFakeIP isAddress attempt retry act nil fuel rules options start n m =
  Some (walk (drop start rules) options n).
Proof.
  intros Hsep. revert start n m. induction fuel as [|fuel IH]; intros start n m Hi Hm Hf; [lia|].
  cbn [legacy_loop]. unfold matchDNS.
  destruct (match_go_walk (drop start rules) start options m n) as (Hs & Hig & Hj & Hw); [by apply Forall_drop|done..|].
  set (x := match_go _ _ _ _ _ _) in *. rewrite Hw. unfold use_match, after_match.
  destruct (ir ← lm_rule x; act ir.2); [done|]. destruct (lm_transport x) as [transport|]; [|done].
  destruct (addressLimitResponseCheck (lm_rule x) (lm_metadata x)) as [f|]; [|done].
  destruct (lm_rule x) as [[j r]|] eqn:Hr; [|done]. destruct (retry _); [|done].
  specialize (Hj j r eq_refl). rewrite length_drop in Hj. rewrite drop_drop. replace (start + (S j - start))%nat with (S j) by lia.
  apply IH; [done..|lia].
Qed.
End walk_laws.

(** The strategies a query may be asked with: the caller's, and those of the
    rules. *)
Definition rule_strategies (rules : list DNSRule) : list Z :=
  rules ≫= λ r, match dr_action r with
                | Some (ActionDNSRoute _ _ o) | Some (ActionDNSRouteOptions o) => [ro_Strategy o]
                | _ => []
                end.
Lemma apply_route_strategy b o q : qo_Strategy (apply_route_options true b o q) ∈ [ro_Strategy o; qo_Strategy q].
Proof. cbn. destruct (negb _); set_solver. Qed.

(** What a walk ends with: the default server's answer, what the action of a
    rule gives, or the answer of a rule's server, asked with one of the
    strategies [os]. *)
Definition walk_end {R} (isAddress : bool) (attempt : nat → Transport → DNSQueryOptions → option (Message → bool) → R)
    (act : DNSRule → option R) (nil : R) (c : InboundContext) (os : list Z) (rest : list DNSRule)
    (r : R) (t : option Transport) (rule : option DNSRule) : Prop :=
  match rule with
  | None => ∃ n o, r = attempt n (tm_Default (lg_transports L)) o None
  | Some rule =>
      rule ∈ rest ∧ (WithAddressLimit (dr_rule rule) = true → isAddress = true) ∧
      (act rule = Some r ∧ t = None ∨
       (∃ n t' o, t = Some t' ∧ qo_Strategy o ∈ os ∧
          r = attempt n t' o (addressLimitResponseCheck (Some (0%nat, rule)) (LegacyPreMatch E (dr_rule rule) c).2)) ∨
       act rule = None ∧ r = nil ∧ t = None ∧
         match dr_action rule with Some (ActionReject _ _) | Some (ActionPredefined _ _ _ _) => True | _ => False end)
  end.
Lemma walk_end_mono {R} isAddress attempt act (nil : R) c os os' x rest r t rule :
  os ⊆ os' → walk_end isAddress attempt act nil c os rest r t rule → walk_end isAddress attempt act nil c os' (x :: rest) r t rule.
Proof.
  intros Hos. destruct rule as [rule|]; [|done]. intros (Hin & Hlim & Hr). split_and!; [by right|done|].
  destruct Hr as [Hr|[(n & t' & o & Ht & Ho & Hr)|Hr]]; [by left| |by right; right]. right. left. exists n, t', o. auto.
Qed.
Lemma walk_inv {R} allowFakeIP isAddress attempt (retry : R → bool) act nil options c rest acc n r t rule :
  legacy_walk allowFakeIP isAddress attempt retry act nil options c rest acc n = (r, t, rule) →
  walk_end isAddress attempt act nil c (qo_Strategy acc :: qo_Strategy options :: rule_strategies rest) rest r t rule.
Proof.
  revert acc n. induction rest as [|x rest IH]; intros acc n; cbn [legacy_walk].
  { intros [= <- <- <-]. unfold walk_end. eauto. }
  set (os := _ :: _ :: rule_strategies (x :: rest)).
  assert (∀ acc n, legacy_walk allowFakeIP isAddress attempt retry act nil options c rest acc n = (r, t, rule) →
            qo_Strategy acc ∈ os → walk_end isAddress attempt act nil c os (x :: rest) r t rule) as Hnext.
  { intros acc' n' Hw Ha. eapply walk_end_mono; [|by apply (IH acc' n')]. subst os. unfold rule_strategies. cbn. set_solver. }
  destruct (LegacyPreMatch E (dr_rule x) c) as [b m] eqn:Hp.
  assert (qo_Strategy acc ∈ os ∧ qo_Strategy options ∈ os) as [Hacc Hopt] by (subst os; set_solver).
  destruct (_ || negb b) eqn:Hskip; [intros Hw; by apply (Hnext _ _ Hw)|].
  assert (WithAddressLimit (dr_rule x) = true → isAddress = true) as Hlim.
  { intros Hl. rewrite Hl in Hskip. by destruct isAddress. }
  destruct (dr_action x) as [a|] eqn:Ha; [|intros Hw; by apply (Hnext _ _ Hw)].
  assert (∀ o b, a = ActionDNSRouteOptions o ∨ (∃ server sp, a = ActionDNSRoute server sp o) →
            qo_Strategy (apply_route_options true b o acc) ∈ os) as Hroute.
  { intros o b' Ho. pose proof (apply_route_strategy b' o acc) as Hs. subst os. unfold rule_strategies. cbn [mbind list_bind].
    rewrite Ha. destruct Ho as [->|(server & sp & ->)]; set_solver. }
  assert ((default nil (act x), None, Some x) = (r, t, rule) →
          match dr_action x with Some (ActionReject _ _) | Some (ActionPredefined _ _ _ _) => True | _ => False end →
          walk_end isAddress attempt act nil c os (x :: rest) r t rule) as Hact.
  { intros [= <- <- <-] Hk. split_and!; [by left|done|]. destruct (act x); cbn; auto 10. }
  rewrite Ha in Hact.
  destruct a as [server sp o|o|server tag sp o| |method nd|rcode an ns ex]; try (intros Hw; apply (Hnext _ _ Hw); by auto);
    try (intros; by apply Hact).
  destruct (tm_Transport (lg_transports L) server) as [transport|]; [|intros Hw; by apply (Hnext _ _ Hw)].
  destruct (is_fakeip transport && negb allowFakeIP); [intros Hw; by apply (Hnext _ _ Hw)|].
  destruct (act x) as [r'|] eqn:Hx; [intros [= <- <- <-]; split_and!; [by left|done|by left]|].
  destruct (_ && retry _); [intros Hw; by apply (Hnext _ _ Hw)|]. intros [= <- <- <-]. split_and!; [by left|done|].
  right. left. rewrite Hp. eexists n, transport, _. split_and!; [done| |done].
  unfold legacy_options. destruct (is_fakeip transport); cbn [set_disable_cache qo_Strategy]; apply Hroute; eauto.
Qed.

(** ** What the router relies on *)

(** The client's promise: it asks the checker before it gives an answer of the
    transport or of the cache, and it does not panic.  [client_answers] is this
    promise for the client of [DnsClient]. *)
Class CheckedClient : Prop := {
  client_checked n t message o f m :
    lg_exchange L n t message o (Some f) = Ok m →
    own_answer (MkQuery t message o (Some f) None) m ∨ ∃ m0, f m0 = true ∧ shows m0 m;
  client_no_panic n t message o check w : lg_exchange L n t message o check ≠ Panic w;
}.
(** A DNS rule rejects by refusing or by dropping. *)
Definition reject_known (rule : DNSRule) : bool :=
  match dr_action rule with
  | Some (ActionReject RejectDefault _) | Some (ActionReject RejectDrop _) => true
  | Some (ActionReject _ _) => false
  | _ => true
  end.

(** The reject method as it is read from JSON. *)
Definition method_parsed (r : DNSRuleOptions) : bool :=
  match rule_action_options r with
  | Some a => bool_decide (rj_Method (da_RejectOptions a) ∈ ["default"; "drop"; "reply"]%string) || negb (action_is a "reject")
  | None => true
  end.
Lemma NewDNSRule_validated `{UniqOrder} B check legacy r d :
  NewDNSRule B check legacy r = Ok d →
  ∃ a, rule_action_options r = Some a ∧ validateDNSRuleAction a = Ok tt ∧ NewDNSRuleAction a = Ok (dr_action d).
Proof.
  assert (∀ c a b, check_action c a b = Ok tt → validateDNSRuleAction a = Ok tt) as Hcheck.
  { intros c a b. unfold check_action. destruct (_ && _); [done|]. by intros ([] & Hv & _)%result_bind_Ok. }
  destruct r as [typed o m a|mode rules invert a|t]; cbn [NewDNSRule rule_action_options]; [| |done]; intros Hd; exists a.
  - destruct (dns_IsValid o m a); cbn [negb] in *; [|done]. apply result_bind_Ok in Hd as ([] & Hc & Hn).
    apply result_bind_Ok in Hn as (act & Ha & Hn). apply result_bind_Ok in Hn as (rule & _ & [= <-]). eauto.
  - apply result_bind_Ok in Hd as ([] & _ & Hn); cbn [negb] in Hn; [|done].
    apply result_bind_Ok in Hn as ([] & Hc & Hn). apply result_bind_Ok in Hn as (act & Ha & Hn).
    apply result_bind_Ok in Hn as (md & _ & Hn). apply result_bind_Ok in Hn as (subs & _ & Hn).
    destruct (da_Race a && _); [done|]. injection Hn as <-. eauto.
Qed.
Lemma built_reject_known `{UniqOrder} B S transports raw rules legacy flags :
  forallb method_parsed raw = true → buildRules B S transports true raw = Ok (rules, legacy, flags) →
  Forall (λ r, reject_known r = true) rules.
Proof.
  intros Hp (built & _ & _ & Hnew & Hst)%buildRules_inv.
  eapply Forall2_r; [exact Hst|]. intros d d' Hd (_ & Hact & _)%dns_rule_Start_spec.
  destruct (Forall2_elem_r _ _ _ _ Hnew Hd) as (r & Hr & Hn). rewrite forallb_forall in Hp.
  specialize (Hp r (proj1 (list_elem_of_In _ _) Hr)). unfold reject_known. rewrite Hact.
  destruct (NewDNSRule_validated _ _ _ _ _ Hn) as (a & Ha & Hv & Hna). unfold method_parsed in Hp. rewrite Ha in Hp.
  revert Hna. unfold NewDNSRuleAction. destruct (action_is a "reject") eqn:Hrej.
  - assert (∀ x, x ≠ "reject"%string → action_is a x = false) as Hno.
    { intros x Hx. unfold action_is in *. apply bool_decide_eq_true in Hrej. apply bool_decide_eq_false. congruence. }
    rewrite !Hno by done. intros [= <-]. unfold reject_method, validateDNSRuleAction in *. rewrite Hrej in Hv.
    apply orb_true_iff in Hp as [Hp%bool_decide_eq_true|]; [|done].
    rewrite !elem_of_cons in Hp. destruct Hp as [->|[->|[Hm|Hp]]]; [done..| |by apply elem_of_nil in Hp].
    by rewrite bool_decide_eq_true_2 in Hv.
  - repeat (case_match; [intros; simplify_eq/=; try done; by repeat case_match|]). done.
Qed.

Lemma response_context rule m response :
  ignoring m = false → std (LegacyPreMatch E rule (std m)).2 = std m →
  with_response response true (request (LegacyPreMatch E rule (std m)).2) = with_response response true (request m).
Proof.
  intros Hi Hs. set (m' := (LegacyPreMatch E rule (std m)).2) in *. clearbody m'. destruct m as [q c], m' as [q' c'].
  apply (f_equal request) in Hs. unfold std, set_from_response in Hs. cbn in *. injection Hs. intros. unfold with_response. f_equal; assumption || reflexivity.
Qed.

(** (C9) The legacy mode reads the rules in order.  For a configuration the
    router accepts for that mode and whose rules keep domain and address
    conditions apart, the loop that matches, asks, checks the response and
    starts again behind the rule ends after at most one round per rule and the
    default server, never calls a missing transport, and gives what
    [legacy_walk] says: the answer of the first rule that applies before the
    query and accepts the response. *)
Theorem legacy_exchange_sequential `{UniqOrder, CheckedClient} B S raw rules flags message options m :
  forallb method_parsed raw = true → buildRules B S (lg_transports L) true raw = Ok (rules, true, flags) →
  Forall (λ r, separated false (dr_rule r) = true) rules → ignoring m = false → msg_Question message ≠ [] →
  ∃ r t rule,
    exchangeLegacy (legacy_fuel rules) rules message options m = Some (r, t, rule) ∧
    legacy_walk true (isAddressQuery message) (exchange_attempt message) rejected_result (exchange_act message)
      nil_transport options (std m) rules options 0 = (r, t, rule) ∧
    ∀ w, r ≠ Panic w.
Proof.
  intros Hp Hb Hsep Hi Hq. pose proof (built_reject_known _ _ _ _ _ _ _ Hp Hb) as Hrej.
  destruct (legacy_walk _ _ _ _ _ _ _ _ _ _ _) as [[r t] rule] eqn:Hw. exists r, t, rule. split_and!; [|done|].
  - unfold exchangeLegacy. rewrite <- Hw. apply (legacy_loop_walk _ _ _ _ _ _ _ (std m)); [done..|unfold legacy_fuel; lia].
  - intros w ->. apply walk_inv in Hw. destruct rule as [rule|]; [|destruct Hw as (? & ? & Hw); by eapply client_no_panic].
    destruct Hw as (Hin & _ & [[Ha _]|[(n & t' & o & _ & _ & Ha)|(Ha & _ & _ & Hk)]]).
    + unfold exchange_act, dnsRefusedResponse, predefined_Response in Ha.
      destruct (msg_Question message); [done|]. by repeat case_match.
    + by eapply client_no_panic.
    + rewrite Forall_forall in Hrej. specialize (Hrej _ Hin). unfold reject_known in Hrej. unfold exchange_act in Ha.
      by repeat case_match.
Qed.

(** The strategy excludes the address family the query asks for. *)
Definition excluded (strategy : Z) (message : Message) : Prop :=
  match msg_Question message with
  | [] => False
  | question :: _ =>
      q_Qtype question = TypeA ∧ strategy = DomainStrategyIPv6Only ∨
      q_Qtype question = TypeAAAA ∧ strategy = DomainStrategyIPv4Only
  end.
(** The strategies the router may ask with for the rules and the caller. *)
Definition strategies (rules : list DNSRule) (options : DNSQueryOptions) : list Z :=
  lg_strategy L :: qo_Strategy options :: rule_strategies rules.
Lemma finalize_strategy rules options o :
  qo_Strategy o ∈ qo_Strategy options :: qo_Strategy options :: rule_strategies rules →
  qo_Strategy (finalizeExchangeOptions (lg_strategy L) o) ∈ strategies rules options.
Proof. unfold finalizeExchangeOptions, strategies. case_bool_decide; cbn; set_solver. Qed.
Lemma own_answer_excluded t message o f answer :
  isAddressQuery message = true → own_answer (MkQuery t message o f None) answer →
  answer = FixedResponseStatus message RcodeSuccess ∧ excluded (qo_Strategy o) message.
Proof. unfold own_answer, excluded, isAddressQuery. cbn. by destruct (msg_Question message). Qed.

(** (C21) An answer given for a rule with conditions on addresses satisfies the
    rule.  For rules that keep domain and address conditions apart, and a query
    that is not matched with conditions on addresses ignored, an answer that a
    rule with conditions on addresses gives in the legacy mode shows a response
    of which the whole rule holds (as [spec_match] reads it), with a client
    that asks the checker it is given.  The one exception is the empty success
    the client answers by itself: to a query for IPv4 addresses under a strategy
    of IPv6 only, or the other way round, where the strategy is one that the
    router, the caller or one of the rules asks for. *)
Theorem legacy_answer_matches `{CheckedClient} rules message options m answer t rule :
  Forall (λ r, separated false (dr_rule r) = true) rules → ignoring m = false →
  exchangeLegacy (legacy_fuel rules) rules message options m = Some (Ok answer, Some t, Some rule) →
  WithAddressLimit (dr_rule rule) = true →
  (answer = FixedResponseStatus message RcodeSuccess ∧
   ∃ strategy, strategy ∈ strategies rules options ∧ excluded strategy message) ∨
  ∃ response, shows response answer ∧
    spec_match E (dr_rule rule) (with_response (Some (seen response)) true (request m)) false false = true.
Proof.
  intros Hsep Hi He Hlim. unfold exchangeLegacy in He.
  rewrite (legacy_loop_walk _ _ _ _ _ _ _ (std m)) in He by (done || (unfold legacy_fuel; lia)). injection He as He.
  apply walk_inv in He as (Hin & Haddr & [[_ ?]|[(n & t' & o & [= <-] & Ho & Ha)|(_ & _ & ? & _)]]); [done| |done].
  rewrite Forall_forall in Hsep. specialize (Hsep _ Hin).
  destruct (prematch_std (dr_rule rule) m Hsep Hi) as [Hs Hig].
  unfold exchange_attempt, addressLimitResponseCheck in Ha. rewrite Hlim in Ha. symmetry in Ha.
  apply client_checked in Ha as [Hown|(m0 & Hf & Hsh)].
  - left. apply own_answer_excluded in Hown as [-> Hex]; [|by apply Haddr]. split; [done|]. eauto using finalize_strategy.
  - right. exists m0. split; [done|].
    rewrite MatchAddressLimit_doc in Hf; [|done|by destruct (dr_rule rule) as [r|r|r [] tag|l]].
    by rewrite (response_context _ m) in Hf.
Qed.

(** A rejected response loses the options of the rules before it.  A
    route-options rule in front of a rule with conditions on addresses sets
    options for the first query only: when the response is rejected, the loop
    starts again with the caller's options behind that rule, and the next
    server is asked without them. *)
Theorem legacy_options_lost r0 r1 o0 server sp o1 t1 message options m :
  separated false (dr_rule r0) = true → separated false (dr_rule r1) = true → ignoring m = false →
  WithAddressLimit (dr_rule r0) = false → isAddressQuery message = true → WithAddressLimit (dr_rule r1) = true →
  dr_action r0 = Some (ActionDNSRouteOptions o0) → dr_action r1 = Some (ActionDNSRoute server sp o1) →
  tm_Transport (lg_transports L) server = Some t1 →
  (LegacyPreMatch E (dr_rule r0) (std m)).1 = true → (LegacyPreMatch E (dr_rule r1) (std m)).1 = true →
  (∀ n o f, lg_exchange L n t1 message o (Some f) = Err ErrResponseRejected) →
  exchangeLegacy 3 [r0; r1] message options m =
  Some (lg_exchange L 1 (tm_Default (lg_transports L)) message (finalizeExchangeOptions (lg_strategy L) options) None,
        Some (tm_Default (lg_transports L)), None).
Proof.
  intros Hs0 Hs1 Hi Hl0 Hq Hl1 Ha0 Ha1 Ht Hp0 Hp1 Hx. unfold exchangeLegacy.
  rewrite (legacy_loop_walk _ _ _ _ _ _ _ (std m)) by (done || (cbn; lia) || (repeat constructor; done)).
  cbn [drop legacy_walk]. rewrite Hl0, Hl1, Hq, Ha0, Ha1, Ht.
  destruct (LegacyPreMatch E (dr_rule r0) (std m)) as [b0 m0]. destruct (LegacyPreMatch E (dr_rule r1) (std m)) as [b1 m1].
  cbn [fst] in Hp0, Hp1. subst. cbn [negb andb orb]. rewrite andb_false_r.
  assert (exchange_act message r1 = None) as -> by (unfold exchange_act; by rewrite Ha1).
  unfold exchange_attempt, addressLimitResponseCheck. rewrite Hl1, Hx. done.
Qed.
End legacy.

(** ** The client of [DnsClient] keeps the promise *)

Section discharge.
Context `{MessageLib, ClientEnv} (pack_law : ∀ m raw, Pack m = Some raw → Unpack raw = Some m).

(** A query running by itself from some state of the client; where it would
    have to wait for another one it gives up. *)
Fixpoint run_alone (fuel : nat) (inp : input) (t : thread) (s : Client) : result Message :=
  match t with
  | TDone _ r => r
  | _ =>
      match fuel with
      | O => Err errContext
      | S fuel =>
          match advance inp t s with
          | Some (t', _, s') => run_alone fuel inp t' s'
          | None => Err errContext
          end
      end
  end.

Fixpoint thread_query (t : thread) : option query :=
  match t with
  | TQuestion q | TBegin q _ | TDone q _ => Some q
  | TLook op _ _ _ | TWait op _ | TSend op _ | TFlight op _ | TFinish op _ _ | TServe op _ _ => Some (op_query op)
  | TUnlock _ n | TClose _ n => thread_query n
  | _ => None
  end.
(** The same query, up to its timeout. *)
Definition same_query (q q' : query) : Prop :=
  qu_message q' = qu_message q ∧ qu_checker q' = qu_checker q ∧
  qo_Strategy (qu_options q') = qo_Strategy (qu_options q).
Definition for_query (q : query) (t : thread) : Prop := ∃ q', thread_query t = Some q' ∧ same_query q q'.
Fixpoint panic_free (t : thread) : Prop :=
  match t with TQuestion _ | TDone _ (Panic _) => False | TUnlock _ n | TClose _ n => panic_free n | _ => True end.

Lemma for_query_release q l t : for_query q t → for_query q (release l t).
Proof. by destruct l. Qed.
Lemma begin_same_query now q op : begin_checks now q = inr op → same_query q (op_query op).
Proof.
  unfold begin_checks. destruct (msg_Question _); [done|]. destruct (_ || _); [done|]. intros [= <-].
  split_and!; [done..|]. cbn. by destruct (_ =? 0).
Qed.
Lemma advance_query q inp t s t' new s' :
  advance inp t s = Some (t', new, s') → for_query q t → for_query q t'.
Proof.
  intros Ha (q' & Hq & Hs).
  destruct t as [x|x w|op l cd w|op cd|op l|op l|op l m|op m b|[ek cd] n|cd n|op|op m|k|x r|]; cbn in Hq; try done.
  2: { cbn [advance] in Ha; open_step Ha. injection Hq as ->. destruct (in_canceled inp); [injection Ha as <- <- <-; by exists q'|].
       destruct (begin_checks (cs_now s) q') as [r|op] eqn:Hb; [injection Ha as <- <- <-; by exists q'|].
       apply begin_same_query in Hb. assert (same_query q (op_query op)) by (unfold same_query in *; naive_solver congruence).
       repeat case_match; injection Ha as <- <- <-; by exists (op_query op). }
  all: cbn [advance] in Ha; open_step Ha; simplify_eq/=; repeat (case_match; simplify_eq/=; try done);
    try (apply for_query_release); unfold for_query; cbn; eauto.
Qed.
Lemma finish_no_panic now op response c d r c' d' w :
  finishExchange now op response c d = (r, c', d') → r ≠ Panic w.
Proof.
  unfold finishExchange. destruct (match qu_checker (op_query op) with Some _ => _ | None => _ end); [by intros [= <- <- <-]|].
  destruct (applyResponseOptions _ _ _). by intros [= <- <- <-].
Qed.
Lemma panic_free_release l t : panic_free t → panic_free (release l t).
Proof. by destruct l. Qed.
Lemma advance_panic_free inp t s t' new s' : advance inp t s = Some (t', new, s') → panic_free t → panic_free t'.
Proof.
  intros Ha Ht. destruct t as [x|x w|op l cd w|op cd|op l|op l|op l m|op m b|[ek cd] n|cd n|op|op m|k|x r|]; try done.
  - cbn [advance] in Ha; open_step Ha. destruct (in_canceled inp); [by injection Ha as <- <- <-|].
    destruct (begin_checks (cs_now s) x) as [r|op] eqn:Hb; [|repeat case_match; by injection Ha as <- <- <-].
    destruct (begin_not_panic _ _ _ Hb) as [m ->]. by injection Ha as <- <- <-.
  - cbn [advance] in Ha; open_step Ha. destruct (loadResponse _ _ _). repeat case_match; injection Ha as <- <- <-; try done; by apply panic_free_release.
  - cbn [advance] in Ha; open_step Ha. repeat case_match; by simplify_eq.
  - cbn [advance] in Ha; open_step Ha. repeat case_match; injection Ha as <- <- <-; try done; by apply panic_free_release.
  - cbn [advance] in Ha; open_step Ha. destruct (in_answer inp); cbn in Ha; injection Ha as <- <- <-; try done; by apply panic_free_release.
  - cbn [advance] in Ha; open_step Ha. destruct (finishExchange _ _ _ _ _) as [[r c] d] eqn:Hf. injection Ha as <- <- <-.
    apply panic_free_release. destruct r as [| |w]; [done..|]. by destruct (finish_no_panic _ _ _ _ _ _ _ _ w Hf).
  - cbn [advance] in Ha; open_step Ha. repeat case_match; by simplify_eq.
  - cbn [advance] in Ha; open_step Ha. by injection Ha as <- <- <-.
  - cbn [advance] in Ha; open_step Ha. by injection Ha as <- <- <-.
  - cbn [advance] in Ha; open_step Ha. repeat case_match; by simplify_eq.
  - cbn [advance] in Ha; open_step Ha. repeat case_match; by simplify_eq.
  - cbn [advance] in Ha; open_step Ha. by injection Ha as <- <- <-.
Qed.

Lemma run_done fuel inp q q' r s :
  panic_free (TDone q' r) → for_query q (TDone q' r) → thread_ok s (TDone q' r) →
  (∀ w, run_alone fuel inp (TDone q' r) s ≠ Panic w) ∧
  (∀ m, run_alone fuel inp (TDone q' r) s = Ok m → ∃ q1 s', same_query q q1 ∧ answered s' q1 m).
Proof.
  intros Hp (x & [= <-] & Hs) Ht. assert (run_alone fuel inp (TDone q' r) s = r) as -> by (by destruct fuel).
  split; [intros w ->; done|]. intros m ->. eauto.
Qed.
Lemma run_alone_spec fuel inp q t s :
  panic_free t → for_query q t → thread_ok s t → map_Forall (entry_ok s) (cs_cache s) →
  (∀ w, run_alone fuel inp t s ≠ Panic w) ∧
  (∀ m, run_alone fuel inp t s = Ok m → ∃ q' s', same_query q q' ∧ answered s' q' m).
Proof.
  revert t s. induction fuel as [|fuel IH]; intros t s Hp Hq Ht Hc.
  - assert ((∃ q' r, t = TDone q' r) ∨ run_alone 0 inp t s = Err errContext) as [(q' & r & ->)| ->] by (destruct t; eauto);
      [by apply run_done|done].
  - assert ((∃ q' r, t = TDone q' r) ∨
            run_alone (S fuel) inp t s = match advance inp t s with
                                         | Some (t', _, s') => run_alone fuel inp t' s' | None => Err errContext end)
      as [(q' & r & ->)| ->] by (destruct t; eauto); [by apply run_done|].
    destruct (advance inp t s) as [[[t' new] s']|] eqn:Ha; [|done].
    destruct (advance_sound pack_law _ _ _ _ _ _ Ht Hc Ha) as (_ & Ht' & _ & Hc').
    apply IH; [by eapply advance_panic_free|by eapply advance_query|done..].
Qed.

(** Any state whose cache is sound will do, such as the ones [client_answers]
    is about. *)
Lemma run_alone_checked (base : LegacyEnv) (inputs : nat → input) (states : nat → Client) :
  (∀ n, map_Forall (entry_ok (states n)) (cs_cache (states n))) →
  CheckedClient (MkLegacy (lg_rule base) (lg_transports base) (lg_strategy base) (lg_now base) (lg_dropCounter base)
    (λ n t message o check, run_alone 12 (inputs n) (TBegin (MkQuery t message o check None) true) (states n))
    (lg_IsFqdn base) (lg_Fqdn base) (lg_do base) (lg_group_error base)).
Proof.
  intros Hs.
  assert (∀ n q, let r := run_alone 12 (inputs n) (TBegin q true) (states n) in
            (∀ w, r ≠ Panic w) ∧ (∀ m, r = Ok m → ∃ q' s', same_query q q' ∧ answered s' q' m)) as Hrun.
  { intros n q. apply (run_alone_spec 12 (inputs n) q (TBegin q true) (states n)); [exact I| |exact I|apply Hs].
    exists q. unfold same_query. auto. }
  generalize dependent 12%nat. intros fuel Hrun. split; cbn [lg_exchange].
  - intros n t message o f m Ho. apply Hrun in Ho as (q' & s' & (Hm & Hc & Hst) & [Hown|(op & op' & raw & _ & _ & _ & Hacc & _)]).
    + left. unfold own_answer in *. cbn [qu_message qu_options] in *. by rewrite Hm, Hst in Hown.
    + right. destruct Hacc as (x & _ & Hsh & Hr). exists x. rewrite Hc in Hr. cbn in Hr. split; [by apply negb_false_iff|done].
  - intros n t message o check w. exact (proj1 (Hrun n _) w).
Qed.
End discharge.

(** ** Examples *)

Definition route_to (server : string) (rule : Rule) : DNSRule :=
  MkDNSRule rule (Some (ActionDNSRoute server false no_route_options)) false.
Definition ten_rule : Rule :=
  DefaultDNSRule (MkDefaultRule [] [] [] [] [IPCIDRItem ten false ""] [] [IPCIDRItem ten false ""] None false) false "".
Definition ten_reply : Message :=
  MkMessage 1 true false true true 0 [MkQuestion "x." TypeA 1] [MkResource "x." 300 (RR_A [0; 0; 0; 10])] [] [].
(** A router whose client is the one of [DnsClient], with an empty cache and a
    server that answers [ten_reply]. *)
Definition plain_env (exchange : nat → Transport → Message → DNSQueryOptions → option (Message → bool) → result Message) :
    LegacyEnv :=
  MkLegacy env0 transports0 DomainStrategyAsIS 0 [] exchange (λ _, false) (λ s, s) (λ _, false) (λ _, EStd "group").
Definition alone (n : nat) (t : Transport) (message : Message) (o : DNSQueryOptions) (check : option (Message → bool)) :
    result Message :=
  @run_alone lib0 client0 12 (MkInput false (AnswerMessage ten_reply)) (TBegin (MkQuery t message o check None) true)
    (new_client 0 ∅ ∅).
Lemma alone_checked : CheckedClient (plain_env alone).
Proof.
  pose proof (@run_alone_checked lib0 client0 (λ m raw Hp, ltac:(discriminate Hp)) (plain_env (λ _ _ _ _ _, Err errContext))
           (λ _, MkInput false (AnswerMessage ten_reply)) (λ _, new_client 0 ∅ ∅) (λ _, map_Forall_empty _)) as Hc.
  cbn [plain_env lg_rule lg_transports lg_strategy lg_now lg_dropCounter lg_IsFqdn lg_Fqdn lg_do lg_group_error] in Hc.
  unfold plain_env, alone. exact Hc.
Qed.

Lemma rules_legacy_separated : Forall (λ r, separated false (dr_rule r) = true) rules_legacy.
Proof.
  assert (forallb (λ r, separated false (dr_rule r)) rules_legacy = true) as Hs by (vm_compute; reflexivity).
  rewrite forallb_forall in Hs. apply Forall_forall. intros r Hr. by apply Hs, list_elem_of_In.
Qed.
Lemma legacy_exchange_sequential_witness :
  length rules_legacy = 1%nat ∧
  ∃ r t rule,
    exchangeLegacy (plain_env alone) 2 rules_legacy (ask_msg 7) no_query_options (query0 "x") = Some (r, t, rule) ∧
    legacy_walk (plain_env alone) true true (exchange_attempt (plain_env alone) (ask_msg 7)) rejected_result
      (exchange_act (ask_msg 7)) nil_transport no_query_options (std (query0 "x")) rules_legacy no_query_options 0 = (r, t, rule) ∧
    ∀ w, r ≠ Panic w.
Proof.
  split; [reflexivity|].
  apply (@legacy_exchange_sequential _ (plain_env alone) _ alone_checked build0 sets0 raw_legacy rules_legacy (MkFlags false true true)
           (ask_msg 7) no_query_options (query0 "x")).
  - reflexivity.
  - vm_compute. reflexivity.
  - exact rules_legacy_separated.
  - reflexivity.
  - discriminate.
Defined.

Lemma legacy_answer_matches_witness :
  with_id 7 ten_reply ≠ FixedResponseStatus (ask_msg 7) RcodeSuccess ∧
  ((with_id 7 ten_reply = FixedResponseStatus (ask_msg 7) RcodeSuccess ∧
    ∃ strategy, strategy ∈ strategies (plain_env alone) [route_to "a" ten_rule] no_query_options ∧ excluded strategy (ask_msg 7)) ∨
   ∃ response, shows response (with_id 7 ten_reply) ∧
     spec_match env0 ten_rule (with_response (Some (seen response)) true (request (query0 "x"))) false false = true).
Proof.
  split; [discriminate|].
  apply (@legacy_answer_matches _ (plain_env alone) alone_checked [route_to "a" ten_rule] (ask_msg 7) no_query_options
           (query0 "x") (with_id 7 ten_reply) transport_a (route_to "a" ten_rule)).
  - repeat constructor.
  - reflexivity.
  - vm_compute. reflexivity.
  - reflexivity.
Defined.

(** The server of the rule gives an address outside the rule; the default server
    is asked without the time to live the first rule sets. *)
Definition refusing (n : nat) (t : Transport) (message : Message) (o : DNSQueryOptions) (check : option (Message → bool)) :
    result Message :=
  match check with
  | Some _ => Err ErrResponseRejected
  | None => Ok (FixedResponseStatus message (default 0 (qo_RewriteTTL o)))
  end.
Definition rewrite_ttl : DNSRule :=
  MkDNSRule always (Some (ActionDNSRouteOptions (MkRouteOptions 0 0 false false (Some 3) PrefixZero false))) false.
Lemma legacy_options_lost_witness :
  exchangeLegacy (plain_env refusing) 3 [rewrite_ttl; route_to "a" ten_rule] (ask_msg 7) no_query_options (query0 "x") =
  Some (Ok (FixedResponseStatus (ask_msg 7) 0), Some transport_d, None).
Proof.
  exact (legacy_options_lost (plain_env refusing) rewrite_ttl (route_to "a" ten_rule)
           (MkRouteOptions 0 0 false false (Some 3) PrefixZero false) "a" false no_route_options transport_a
           (ask_msg 7) no_query_options (query0 "x")
           eq_refl eq_refl eq_refl eq_refl eq_refl eq_refl eq_refl eq_refl eq_refl eq_refl eq_refl (λ n o f, eq_refl)).
Defined.
