(* ===== verification/Slices.v ===== *)
(** * Byte slices with Go's bounds checks

    Indexing and slicing of a [[]byte] as the packet parsers use them.  An index
    out of range is a [Panic].  Go lets a slice expression reach up to the
    capacity; here the length is the limit, so a parser that never panics in the
    model never panics in Go either.  [safe] says that a computation does not
    panic; the database [slices] proves it from the length checks of the code. *)

From S2P Require Import Prelude Bytes.

Local Open Scope Z_scope.

Definition out_of_range : string := "index out of range".
Definition len {A} (l : list A) : Z := Z.of_nat (length l).
Definition idx (l : list Z) (i : Z) : result Z :=
  if (0 <=? i) && (i <? len l) then Ok (nth (Z.to_nat i) l 0) else Panic out_of_range.
(** [l[i:]] and [l[i:j]]. *)
Definition from (l : list Z) (i : Z) : result (list Z) :=
  if (0 <=? i) && (i <=? len l) then Ok (drop (Z.to_nat i) l) else Panic out_of_range.
Definition sub (l : list Z) (i j : Z) : result (list Z) :=
  if (0 <=? i) && (i <=? j) && (j <=? len l) then Ok (take (Z.to_nat (j - i)) (drop (Z.to_nat i) l))
  else Panic out_of_range.
(** [uint16(a)<<8 | uint16(b)]. *)
Definition word (a b : Z) : Z := Z.lor (Z.shiftl a 8) b.
(** [binary.BigEndian.Uint16], [Uint32] and [Uint64]: they look at the last byte
    they need first. *)
Definition BigEndian (n : Z) (l : list Z) : result Z := b ← sub l 0 n; Ok (be_combine b).

Definition is_bytes (l : list Z) : Prop := Forall is_byte l.

(** ** What they give *)

Lemma word_spec a b : is_byte a → is_byte b → word a b = a * 2^8 + b.
Proof.
  unfold is_byte, word. intros. rewrite Z.shiftl_mul_pow2 by lia. rewrite Z.lor_comm.
  rewrite (lor_shifted b a 8) by lia. lia.
Qed.
Lemma word_bound a b : is_byte a → is_byte b → 0 ≤ word a b < 2^16.
Proof. intros Ha Hb. rewrite word_spec by done. unfold is_byte in *. lia. Qed.
Lemma idx_Ok l i : 0 ≤ i < len l → idx l i = Ok (nth (Z.to_nat i) l 0).
Proof. intros. unfold idx. by rewrite (proj2 (Z.leb_le _ _)), (proj2 (Z.ltb_lt _ _)) by lia. Qed.
Lemma from_Ok l i : 0 ≤ i ≤ len l → from l i = Ok (drop (Z.to_nat i) l).
Proof. intros. unfold from. by rewrite !(proj2 (Z.leb_le _ _)) by lia. Qed.
Lemma sub_Ok l i j : 0 ≤ i ≤ j → j ≤ len l → sub l i j = Ok (take (Z.to_nat (j - i)) (drop (Z.to_nat i) l)).
Proof. intros. unfold sub. by rewrite !(proj2 (Z.leb_le _ _)) by lia. Qed.
Lemma len_drop (l : list Z) i : 0 ≤ i ≤ len l → len (drop (Z.to_nat i) l) = len l - i.
Proof. unfold len. rewrite length_drop. lia. Qed.
Lemma len_take_drop (l : list Z) i j : 0 ≤ i ≤ j → j ≤ len l → len (take (Z.to_nat (j - i)) (drop (Z.to_nat i) l)) = j - i.
Proof. unfold len. rewrite length_take, length_drop. lia. Qed.
Lemma is_bytes_nth l n : is_bytes l → is_byte (nth n l 0).
Proof.
  intros Hl. destruct (decide (n < length l)%nat) as [Hn|Hn].
  - apply (proj1 (Forall_forall _ _) Hl), list_elem_of_In, nth_In, Hn.
  - rewrite nth_overflow by lia. unfold is_byte. lia.
Qed.
Lemma is_bytes_drop l n : is_bytes l → is_bytes (drop n l).
Proof. apply Forall_drop. Qed.
Lemma is_bytes_take l n : is_bytes l → is_bytes (take n l).
Proof. apply Forall_take. Qed.
Lemma be_combine_bound l : is_bytes l → 0 ≤ be_combine l < 2^(8 * len l).
Proof.
  unfold len. induction 1 as [|b l Hb Hl IH]; [cbn; lia|].
  cbn [be_combine length]. replace (8 * Z.of_nat (S (length l))) with (8 + 8 * Z.of_nat (length l)) by lia.
  rewrite Z.pow_add_r by lia. unfold is_byte in Hb. nia.
Qed.
Lemma be_split_bytes n x : is_bytes (be_split n x).
Proof.
  induction n as [|n IH]; [by constructor|]. cbn. constructor; [|done].
  pose proof (Z.mod_pos_bound (x / 2^(8 * Z.of_nat n)) (2^8)). unfold is_byte. lia.
Qed.
Create HintDb slices.
#[export] Hint Resolve is_bytes_nth is_bytes_drop is_bytes_take : slices.

(** ** No panics *)

Definition safe {A} (r : result A) : Prop := is_panic r = false.
Lemma safe_ok {A} (a : A) : safe (Ok a).
Proof. done. Qed.
Lemma safe_err {A} e : safe (@Err A e).
Proof. done. Qed.
Lemma safe_if {A} (b : bool) (x y : result A) : (b = true → safe x) → (b = false → safe y) → safe (if b then x else y).
Proof. destruct b; auto. Qed.
Lemma safe_bind {A B} (r : result A) (f : A → result B) : safe r → (∀ a, r = Ok a → safe (f a)) → safe (r ≫= f).
Proof. destruct r; intros; [by apply H0|done|done]. Qed.
Lemma safe_idx {B} l i (f : Z → result B) :
  is_bytes l → 0 ≤ i < len l → (∀ b, is_byte b → safe (f b)) → safe (idx l i ≫= f).
Proof. intros Hl Hi Hf. rewrite idx_Ok by done. apply Hf. auto with slices. Qed.
Lemma safe_from {B} l i (f : list Z → result B) :
  is_bytes l → 0 ≤ i ≤ len l → (∀ l', is_bytes l' → len l' = len l - i → safe (f l')) → safe (from l i ≫= f).
Proof. intros Hl Hi Hf. rewrite from_Ok by done. apply Hf; [auto with slices|by apply len_drop]. Qed.
Lemma safe_sub {B} l i j (f : list Z → result B) :
  is_bytes l → 0 ≤ i ≤ j → j ≤ len l → (∀ l', is_bytes l' → len l' = j - i → safe (f l')) → safe (sub l i j ≫= f).
Proof. intros Hl Hi Hj Hf. rewrite sub_Ok by done. apply Hf; [auto with slices|by apply len_take_drop]. Qed.
Lemma safe_BigEndian {B} n l (f : Z → result B) :
  is_bytes l → 0 ≤ n ≤ len l → (∀ x, 0 ≤ x < 2^(8 * n) → safe (f x)) → safe (BigEndian n l ≫= f).
Proof.
  intros Hl Hn Hf. unfold BigEndian. rewrite sub_Ok by lia. apply Hf.
  pose proof (be_combine_bound (take (Z.to_nat (n - 0)) (drop (Z.to_nat 0) l))) as Hb.
  rewrite len_take_drop, Z.sub_0_r in Hb by lia. rewrite Z.sub_0_r. apply Hb. auto with slices.
Qed.

(** What the length checks of the code say, for [lia]. *)
Ltac bool_facts := repeat match goal with
  | H : (_ <? _) = true |- _ => apply Z.ltb_lt in H
  | H : (_ <? _) = false |- _ => apply Z.ltb_ge in H
  | H : (_ <=? _) = true |- _ => apply Z.leb_le in H
  | H : (_ <=? _) = false |- _ => apply Z.leb_gt in H
  | H : (_ =? _) = true |- _ => apply Z.eqb_eq in H
  | H : (_ =? _) = false |- _ => apply Z.eqb_neq in H
  | H : negb _ = true |- _ => apply negb_true_iff in H
  | H : negb _ = false |- _ => apply negb_false_iff in H
  | H : _ && _ = true |- _ => apply andb_true_iff in H as [? ?]
  | H : _ || _ = false |- _ => apply orb_false_iff in H as [? ?]
  end.
Ltac byte_facts := repeat match goal with
  | Ha : is_byte ?a, Hb : is_byte ?b |- context [word ?a ?b] =>
      lazymatch goal with _ : 0 ≤ word a b < _ |- _ => fail | _ => pose proof (word_bound a b Ha Hb) end
  | Ha : is_byte ?a, Hb : is_byte ?b, _ : context [word ?a ?b] |- _ =>
      lazymatch goal with _ : 0 ≤ word a b < _ |- _ => fail | _ => pose proof (word_bound a b Ha Hb) end
  end; unfold is_byte in *.
Ltac slice_lia := bool_facts; byte_facts; unfold len in *; lia.
(** One step of the parser. *)
Ltac safe_step := lazymatch goal with
  | |- safe (Ok _) => apply safe_ok
  | |- safe (Err _) => apply safe_err
  | |- safe (mret _) => apply safe_ok
  | |- safe (idx _ _ ≫= _) => apply safe_idx; [solve [eauto with slices]|slice_lia|intros]
  | |- safe (from _ _ ≫= _) => apply safe_from; [solve [eauto with slices]|slice_lia|intros]
  | |- safe (sub _ _ _ ≫= _) => apply safe_sub; [solve [eauto with slices]|slice_lia|slice_lia|intros]
  | |- safe (BigEndian _ _ ≫= _) => apply safe_BigEndian; [solve [eauto with slices]|slice_lia|intros]
  | |- safe (if _ then _ else _) => apply safe_if; intros
  | |- safe (let _ := _ in _) => cbv zeta
  end.
