(* ===== verification/Ja3.v ===== *)
(** * TLS client hellos: [src/common/ja3/parser.go]

    The QUIC sniffer reads server names with this parser.  It is modelled with
    its bounds checks, its error numbers and its machine integers: [exLen] is a
    [uint16], and [4+exLen] is computed in sixteen bits.

    [Compute_safe] shows that no byte string makes the parser panic or loop,
    [Compute_record] that it reads back what a client writes. *)

From S2P Require Import Prelude GoStrings NetAddr RuleContext Bytes Slices.

Local Open Scope Z_scope.

(** ** Data *)

Record ClientHello := MkHello {
  ch_Version : Z;
  CipherSuites : list Z;
  Extensions : list Z;
  EllipticCurves : list Z;
  EllipticCurvePF : list Z;
  Versions : list Z;
  SignatureAlgorithms : list Z;
  ServerName : list Z;
}.
Inductive ParseErrorType := LengthErr | ContentTypeErr | VersionErr | HandshakeTypeErr | SNITypeErr.
Definition errName (t : ParseErrorType) : string :=
  match t with
  | LengthErr => "length check %v failed" | ContentTypeErr => "content type not matching"
  | VersionErr => "version check %v failed" | HandshakeTypeErr => "handshake type not matching"
  | SNITypeErr => "SNI type not supported"
  end.
(** Only the length and version checks print their number. *)
Definition ParseError (t : ParseErrorType) (check : Z) : error :=
  match t with
  | LengthErr | VersionErr => EFmt (errName t) [Itoa check]
  | _ => ENew (errName t)
  end.

Definition recordLayerHeaderLen : Z := 5.
Definition handshakeHeaderLen : Z := 6.
Definition randomDataLen : Z := 32.
Definition sessionIDHeaderLen : Z := 1.
Definition cipherSuiteHeaderLen : Z := 2.
Definition compressMethodHeaderLen : Z := 1.
Definition extensionsHeaderLen : Z := 2.
Definition extensionHeaderLen : Z := 4.
Definition sniExtensionHeaderLen : Z := 5.
Definition tlsVersionBitmask : Z := 0xFFFC.
Definition tls13 : Z := 0x0304.
Definition unsupported (version : Z) : bool :=
  negb (Z.land version tlsVersionBitmask =? 0x0300) && negb (version =? tls13).

(** ** Parsing *)

(** [for i := range n]: [n] words from [start] on. *)
Fixpoint words (n : nat) (l : list Z) (start : Z) : result (list Z) :=
  match n with
  | O => Ok []
  | S n => a ← idx l start; b ← idx l (start + 1); rest ← words n l (start + 2); Ok (word a b :: rest)
  end.

(** The variables of the loop of [parseExtensions]. *)
Record exts := MkExts {
  x_sni : list Z;
  x_extensions : list Z;
  x_ellipticCurves : list Z;
  x_ellipticCurvePF : list Z;
  x_versions : list Z;
  x_signatureAlgorithms : list Z;
}.
Definition exts0 : exts := MkExts [] [] [] [] [] [].

(** The [switch] on the type of an extension with the body [sex]. *)
Definition parse_sni (sex : list Z) (x : exts) : result exts :=
  if len sex <? sniExtensionHeaderLen then Err (ParseError LengthErr 13)
  else
    sniType ← idx sex 2; a ← idx sex 3; b ← idx sex 4;
    name ← from sex sniExtensionHeaderLen;
    if negb (len name =? word a b) then Err (ParseError LengthErr 14)
    else if sniType =? 0
    then Ok (MkExts name (x_extensions x) (x_ellipticCurves x) (x_ellipticCurvePF x) (x_versions x) (x_signatureAlgorithms x))
    else Err (ParseError SNITypeErr 0).
Definition parse_ec (sex : list Z) (x : exts) : result exts :=
  if len sex <? 2 then Err (ParseError LengthErr 15)
  else
    a ← idx sex 0; b ← idx sex 1;
    l ← from sex 2;
    if negb (len l =? word a b) then Err (ParseError LengthErr 16)
    else
      curves ← words (Z.to_nat (word a b / 2)) l 0;
      Ok (MkExts (x_sni x) (x_extensions x) curves (x_ellipticCurvePF x) (x_versions x) (x_signatureAlgorithms x)).
Definition parse_ecpf (sex : list Z) (x : exts) : result exts :=
  if len sex <? 1 then Err (ParseError LengthErr 17)
  else
    ecpfsLen ← idx sex 0;
    l ← from sex 1;
    if negb (len l =? ecpfsLen) then Err (ParseError LengthErr 18)
    else Ok (MkExts (x_sni x) (x_extensions x) (x_ellipticCurves x) l (x_versions x) (x_signatureAlgorithms x)).
Definition parse_versions (sex : list Z) (x : exts) : result exts :=
  if len sex <? 1 then Err (ParseError LengthErr 19)
  else
    versionsLen ← idx sex 0;
    l ← from sex 1;
    if len l <? versionsLen then Err (ParseError LengthErr 21)
    else
      versions ← words (Z.to_nat (versionsLen / 2)) l 0;
      Ok (MkExts (x_sni x) (x_extensions x) (x_ellipticCurves x) (x_ellipticCurvePF x) (x_versions x ++ versions)
            (x_signatureAlgorithms x)).
Definition parse_signatures (sex : list Z) (x : exts) : result exts :=
  if len sex <? 2 then Err (ParseError LengthErr 20)
  else
    ssaLen ← BigEndian 2 sex;
    l ← from sex 2;
    if len l <? ssaLen then Err (ParseError LengthErr 22)
    else
      algorithms ← words (Z.to_nat (ssaLen / 2)) l 0;
      Ok (MkExts (x_sni x) (x_extensions x) (x_ellipticCurves x) (x_ellipticCurvePF x) (x_versions x)
            (x_signatureAlgorithms x ++ algorithms)).
Definition parse_extension (exType : Z) (sex : list Z) (x : exts) : result exts :=
  if exType =? 0 then parse_sni sex x
  else if exType =? 10 then parse_ec sex x
  else if exType =? 11 then parse_ecpf sex x
  else if exType =? 43 then parse_versions sex x
  else if exType =? 13 then parse_signatures sex x
  else Ok x.
Definition add_extension (exType : Z) (x : exts) : exts :=
  MkExts (x_sni x) (x_extensions x ++ [exType]) (x_ellipticCurves x) (x_ellipticCurvePF x) (x_versions x)
    (x_signatureAlgorithms x).

(** The loop over the extensions; [4+exLen] wraps around at sixteen bits. *)
Fixpoint extensions_loop (fuel : nat) (l : list Z) (x : exts) : result exts :=
  if len l =? 0 then Ok x
  else
    match fuel with
    | O => Panic out_of_fuel
    | S fuel =>
        if len l <? extensionHeaderLen then Err (ParseError LengthErr 11)
        else
          t0 ← idx l 0; t1 ← idx l 1; n0 ← idx l 2; n1 ← idx l 3;
          let exType := word t0 t1 in
          let exLen := word n0 n1 in
          let x := add_extension exType x in
          if len l <? extensionHeaderLen + exLen then Err (ParseError LengthErr 12)
          else
            sex ← sub l extensionHeaderLen (extensionHeaderLen + exLen);
            x ← parse_extension exType sex x;
            rest ← from l (u16 (4 + exLen));
            extensions_loop fuel rest x
    end.

Definition parseExtensions (l : list Z) (version : Z) (ciphers : list Z) : result ClientHello :=
  if len l =? 0 then Ok (MkHello version ciphers [] [] [] [] [] [])
  else if len l <? extensionsHeaderLen then Err (ParseError LengthErr 9)
  else
    a ← idx l 0; b ← idx l 1;
    l ← from l extensionsHeaderLen;
    if len l <? word a b then Err (ParseError LengthErr 10)
    else
      x ← extensions_loop (S (length l)) l exts0;
      Ok (MkHello version ciphers (x_extensions x) (x_ellipticCurves x) (x_ellipticCurvePF x) (x_versions x)
            (x_signatureAlgorithms x) (x_sni x)).

(** The end of [parseHandshake], from the cipher suites on. *)
Definition parse_suites (cs : list Z) (version : Z) : result ClientHello :=
  if len cs <? cipherSuiteHeaderLen then Err (ParseError LengthErr 6)
  else
    c0 ← idx cs 0; c1 ← idx cs 1;
    let csLen := word c0 c1 in
    if len cs <? cipherSuiteHeaderLen + csLen + compressMethodHeaderLen then Err (ParseError LengthErr 7)
    else
      ciphers ← words (Z.to_nat (csLen / 2)) cs 2;
      compressMethodLen ← idx cs (cipherSuiteHeaderLen + csLen);
      let start := cipherSuiteHeaderLen + csLen + compressMethodHeaderLen + compressMethodLen in
      if len cs <? start then Err (ParseError LengthErr 8)
      else l ← from cs start; parseExtensions l version ciphers.

Definition parseHandshake (hs : list Z) : result ClientHello :=
  if len hs <? handshakeHeaderLen + randomDataLen + sessionIDHeaderLen then Err (ParseError LengthErr 3)
  else
    handshType ← idx hs 0;
    if negb (handshType =? 1) then Err (ParseError HandshakeTypeErr 0)
    else
      l1 ← idx hs 1; l2 ← idx hs 2; l3 ← idx hs 3;
      let handshakeLen := Z.lor (Z.lor (Z.shiftl l1 16) (Z.shiftl l2 8)) l3 in
      body ← from hs 4;
      if negb (len body =? handshakeLen) then Err (ParseError LengthErr 4)
      else
        v0 ← idx hs 4; v1 ← idx hs 5;
        if unsupported (word v0 v1) then Err (ParseError VersionErr 2)
        else
          sessionIDLen ← idx hs 38;
          let start := handshakeHeaderLen + randomDataLen + sessionIDHeaderLen + sessionIDLen in
          if len hs <? start then Err (ParseError LengthErr 5)
          else
            cs ← from hs start;
            parse_suites cs (word v0 v1).

Definition parseSegment (segment : list Z) : result ClientHello :=
  if len segment <? recordLayerHeaderLen then Err (ParseError LengthErr 1)
  else
    contType ← idx segment 0;
    if negb (contType =? 22) then Err (ParseError ContentTypeErr 0)
    else
      v0 ← idx segment 1; v1 ← idx segment 2;
      if unsupported (word v0 v1) then Err (ParseError VersionErr 1)
      else
        n0 ← idx segment 3; n1 ← idx segment 4;
        body ← from segment recordLayerHeaderLen;
        if len body <? word n0 n1 then Err (ParseError LengthErr 2)
        else hs ← sub segment recordLayerHeaderLen (recordLayerHeaderLen + word n0 n1); parseHandshake hs.
Definition Compute (payload : list Z) : result ClientHello := parseSegment payload.

(** ** No panic, no loop *)

Lemma words_safe {B} n l start (f : list Z → result B) :
  is_bytes l → 0 ≤ start → start + 2 * Z.of_nat n ≤ len l → (∀ w, safe (f w)) → safe (words n l start ≫= f).
Proof.
  intros Hl. revert start f. induction n as [|n IH]; intros start f Hs Hn Hf; [by apply Hf|]. cbn [words].
  rewrite !idx_Ok by lia. cbn [mbind result_bind]. specialize (IH (start + 2) (λ rest, f (word (nth (Z.to_nat start) l 0) (nth (Z.to_nat (start + 1)) l 0) :: rest))).
  destruct (words n l (start + 2)); apply IH; auto; lia.
Qed.
Lemma half_le w n : 0 ≤ w → w ≤ n → 0 + 2 * Z.of_nat (Z.to_nat (w / 2)) ≤ n.
Proof. intros. pose proof (Z.mul_div_le w 2). pose proof (Z.div_pos w 2). lia. Qed.
Lemma half_le_from k w n : 0 ≤ w → k + w ≤ n → k + 2 * Z.of_nat (Z.to_nat (w / 2)) ≤ n.
Proof. intros. pose proof (half_le w w). lia. Qed.
Lemma parse_extension_safe t sex x : is_bytes sex → safe (parse_extension t sex x).
Proof.
  intros Hs. unfold parse_extension, parse_sni, parse_ec, parse_ecpf, parse_versions, parse_signatures, sniExtensionHeaderLen.
  repeat safe_step.
  all: apply words_safe; [done|lia|apply half_le; slice_lia|intros; apply safe_ok].
Qed.

(** The length of a record is a [uint16]; below it [4+exLen] does not wrap, so
    every round of the loop leaves at least a header behind. *)
Lemma extensions_loop_safe fuel l x :
  is_bytes l → len l < 2^16 → (length l < fuel)%nat → safe (extensions_loop fuel l x).
Proof.
  revert l x. induction fuel as [|fuel IH]; intros l x Hl Hb Hf; [lia|]. cbn [extensions_loop].
  unfold extensionHeaderLen. repeat safe_step.
  apply safe_bind; [by apply parse_extension_safe|]. intros x' _.
  assert (u16 (4 + word b1 b2) = 4 + word b1 b2) as -> by (apply u16_small; slice_lia).
  apply safe_from; [done|slice_lia|]. intros l'' Hl'' Hlen. apply IH; [done|slice_lia..].
Qed.
Lemma parseExtensions_safe l version ciphers : is_bytes l → len l < 2^16 → safe (parseExtensions l version ciphers).
Proof.
  intros Hl Hb. unfold parseExtensions, extensionsHeaderLen. repeat safe_step.
  apply safe_bind; [|intros; apply safe_ok]. apply extensions_loop_safe; [done|slice_lia|lia].
Qed.
Lemma parseHandshake_safe hs : is_bytes hs → len hs < 2^16 → safe (parseHandshake hs).
Proof.
  intros Hl Hb. unfold parseHandshake, handshakeHeaderLen, randomDataLen, sessionIDHeaderLen. repeat safe_step.
  unfold parse_suites, cipherSuiteHeaderLen, compressMethodHeaderLen. repeat safe_step.
  apply words_safe; [done|lia|apply half_le_from; slice_lia|intros].
  repeat safe_step. apply parseExtensions_safe; [done|slice_lia].
Qed.
Lemma Compute_safe segment : is_bytes segment → safe (Compute segment).
Proof.
  intros Hl. unfold Compute, parseSegment, recordLayerHeaderLen. repeat safe_step. apply parseHandshake_safe; [done|slice_lia].
Qed.

(** ** What a client writes *)

Inductive Ext :=
  | ExtServerName (name : list Z)
  | ExtGroups (l : list Z)
  | ExtPointFormats (l : list Z)
  | ExtVersions (l : list Z)
  | ExtSignatures (l : list Z)
  | ExtOther (type : Z) (body : list Z).
Definition wire_words (l : list Z) : list Z := l ≫= be_split 2.
Definition ext_type (e : Ext) : Z :=
  match e with
  | ExtServerName _ => 0 | ExtGroups _ => 10 | ExtPointFormats _ => 11 | ExtVersions _ => 43 | ExtSignatures _ => 13
  | ExtOther type _ => type
  end.
Definition ext_body (e : Ext) : list Z :=
  match e with
  | ExtServerName name => be_split 2 (3 + len name) ++ 0 :: be_split 2 (len name) ++ name
  | ExtGroups l | ExtSignatures l => be_split 2 (2 * len l) ++ wire_words l
  | ExtPointFormats l => len l :: l
  | ExtVersions l => 2 * len l :: wire_words l
  | ExtOther _ body => body
  end.
Definition wire_ext (e : Ext) : list Z := be_split 2 (ext_type e) ++ be_split 2 (len (ext_body e)) ++ ext_body e.
(** What the parser keeps of an extension. *)
Definition read_ext (x : exts) (e : Ext) : exts :=
  let x := add_extension (ext_type e) x in
  match e with
  | ExtServerName name => MkExts name (x_extensions x) (x_ellipticCurves x) (x_ellipticCurvePF x) (x_versions x) (x_signatureAlgorithms x)
  | ExtGroups l => MkExts (x_sni x) (x_extensions x) l (x_ellipticCurvePF x) (x_versions x) (x_signatureAlgorithms x)
  | ExtPointFormats l => MkExts (x_sni x) (x_extensions x) (x_ellipticCurves x) l (x_versions x) (x_signatureAlgorithms x)
  | ExtVersions l => MkExts (x_sni x) (x_extensions x) (x_ellipticCurves x) (x_ellipticCurvePF x) (x_versions x ++ l) (x_signatureAlgorithms x)
  | ExtSignatures l => MkExts (x_sni x) (x_extensions x) (x_ellipticCurves x) (x_ellipticCurvePF x) (x_versions x) (x_signatureAlgorithms x ++ l)
  | ExtOther _ _ => x
  end.
Definition is_word (w : Z) : Prop := 0 ≤ w < 2^16.
Definition ext_ok (e : Ext) : Prop :=
  len (ext_body e) < 2^16 ∧
  match e with
  | ExtGroups l | ExtVersions l | ExtSignatures l => Forall is_word l ∧ (is_byte (2 * len l) ∨ ext_type e ≠ 43)
  | ExtPointFormats l => is_byte (len l)
  | ExtOther type _ => is_word type ∧ type ∉ [0; 10; 11; 43; 13]
  | _ => True
  end.

Record wire_hello := MkWire {
  w_record : Z;                (* version of the record *)
  w_version : Z;
  w_random : list Z;
  w_session : list Z;
  w_ciphers : list Z;
  w_compression : list Z;
  w_extensions : list Ext;
}.
Definition wire_extensions (l : list Ext) : list Z := let b := l ≫= wire_ext in be_split 2 (len b) ++ b.
Definition wire_suites (h : wire_hello) : list Z :=
  be_split 2 (2 * len (w_ciphers h)) ++ wire_words (w_ciphers h) ++
  len (w_compression h) :: w_compression h ++ wire_extensions (w_extensions h).
Definition wire_message (h : wire_hello) : list Z :=
  be_split 2 (w_version h) ++ w_random h ++ len (w_session h) :: w_session h ++ wire_suites h.
(** The handshake message, which QUIC carries in its crypto stream, and the
    record around it. *)
Definition wire_handshake (h : wire_hello) : list Z :=
  1 :: be_split 3 (len (wire_message h)) ++ wire_message h.
Definition wire_record (version : Z) (hs : list Z) : list Z := 22 :: be_split 2 version ++ be_split 2 (len hs) ++ hs.
Definition hello_ok (h : wire_hello) : Prop :=
  is_word (w_version h) ∧ unsupported (w_version h) = false ∧ len (w_random h) = 32 ∧
  is_byte (len (w_session h)) ∧ Forall is_word (w_ciphers h) ∧ is_byte (len (w_compression h)) ∧
  Forall ext_ok (w_extensions h) ∧ len (wire_handshake h) < 2^16.
Definition read_hello (h : wire_hello) : ClientHello :=
  let x := foldl read_ext exts0 (w_extensions h) in
  MkHello (w_version h) (w_ciphers h) (x_extensions x) (x_ellipticCurves x) (x_ellipticCurvePF x) (x_versions x)
    (x_signatureAlgorithms x) (x_sni x).

(** ** Reading it back *)

Lemma len_app {A} (l k : list A) : len (l ++ k) = len l + len k.
Proof. unfold len. rewrite length_app. lia. Qed.
Lemma len_cons {A} (a : A) l : len (a :: l) = 1 + len l.
Proof. unfold len. cbn. lia. Qed.
Lemma len_nil {A} : len (@nil A) = 0.
Proof. done. Qed.
Lemma len_be n x : len (be_split n x) = Z.of_nat n.
Proof. unfold len. by rewrite be_split_length. Qed.
Lemma len_nonneg {A} (l : list A) : 0 ≤ len l.
Proof. unfold len. lia. Qed.
Lemma idx_app (l k : list Z) i : i = len l → idx (l ++ k) i = idx k 0.
Proof.
  intros ->. unfold idx. rewrite len_app. pose proof (len_nonneg l). pose proof (len_nonneg k).
  replace (0 <=? len l) with true by (symmetry; apply Z.leb_le; lia).
  replace (len l <? len l + len k) with (0 <? len k) by (destruct (0 <? len k) eqn:E; bool_facts; symmetry; [apply Z.ltb_lt|apply Z.ltb_ge]; lia).
  rewrite app_nth2 by (unfold len; lia). unfold len. rewrite Nat2Z.id, Nat.sub_diag. done.
Qed.
Lemma idx_head a l : idx (a :: l) 0 = Ok a.
Proof. by rewrite idx_Ok by (rewrite len_cons; pose proof (len_nonneg l); lia). Qed.
Lemma idx_cons a l i : 0 < i → idx (a :: l) i = idx l (i - 1).
Proof.
  intros Hi. unfold idx. rewrite len_cons.
  rewrite !(proj2 (Z.leb_le _ _)) by lia. cbn [andb].
  replace (i - 1 <? len l) with (i <? 1 + len l)
    by (destruct (i - 1 <? len l) eqn:E; bool_facts; [apply Z.ltb_lt|apply Z.ltb_ge]; lia).
  destruct (i <? _); [|done]. f_equal. replace (Z.to_nat i) with (S (Z.to_nat (i - 1))) by lia. done.
Qed.
Lemma from_app (l k : list Z) i : i = len l → from (l ++ k) i = Ok k.
Proof.
  intros ->. rewrite from_Ok by (rewrite len_app; pose proof (len_nonneg l); pose proof (len_nonneg k); lia).
  unfold len. by rewrite Nat2Z.id, drop_app_length.
Qed.
Lemma sub_app (l k m : list Z) i j : i = len l → j = len l + len k → sub (l ++ k ++ m) i j = Ok k.
Proof.
  intros -> ->. pose proof (len_nonneg l). pose proof (len_nonneg k). pose proof (len_nonneg m).
  rewrite sub_Ok by (rewrite ?len_app; lia). unfold len. rewrite Nat2Z.id, drop_app_length.
  replace (Z.to_nat _) with (length k) by lia. by rewrite take_app_length.
Qed.
Lemma be2_word x : is_word x → ∃ a b, be_split 2 x = [a; b] ∧ word a b = x ∧ is_byte a ∧ is_byte b.
Proof.
  unfold is_word. intros Hx. cbn. exists ((x / 256) `mod` 256), (x `mod` 256). rewrite Z.div_1_r.
  pose proof (Z.mod_pos_bound x 256). pose proof (Z.mod_pos_bound (x / 256) 256). pose proof (Z.div_mod x 256).
  assert (is_byte ((x / 256) `mod` 256)) by (unfold is_byte; lia). assert (is_byte (x `mod` 256)) by (unfold is_byte; lia).
  assert (0 ≤ x / 256 < 256) by (split; [apply Z.div_pos; lia|apply Z.div_lt_upper_bound; lia]).
  split_and!; [done| |done|done]. rewrite word_spec by done. rewrite Z.mod_small by lia. lia.
Qed.
Lemma idx_1 a b l : idx (a :: b :: l) 1 = Ok b.
Proof. rewrite idx_cons by lia. apply idx_head. Qed.
Lemma idx_2 a b c l : idx (a :: b :: c :: l) 2 = Ok c.
Proof. rewrite idx_cons by lia. apply idx_1. Qed.
Lemma idx_3 a b c d l : idx (a :: b :: c :: d :: l) 3 = Ok d.
Proof. rewrite idx_cons by lia. apply idx_2. Qed.
Lemma idx_4 a b c d e l : idx (a :: b :: c :: d :: e :: l) 4 = Ok e.
Proof. rewrite idx_cons by lia. apply idx_3. Qed.
Lemma idx_5 a b c d e f l : idx (a :: b :: c :: d :: e :: f :: l) 5 = Ok f.
Proof. rewrite idx_cons by lia. apply idx_4. Qed.
Ltac read_bytes := repeat (first
  [rewrite idx_head | rewrite idx_1 | rewrite idx_2 | rewrite idx_3 | rewrite idx_4 | rewrite idx_5]; cbn [mbind result_bind]).
(** A length check that the written form passes. *)
Ltac lens := repeat (rewrite len_app || rewrite len_cons || rewrite len_be || rewrite len_nil).
Ltac pass := match goal with
  | |- context [?a <? ?b] => replace (a <? b) with false by (symmetry; apply Z.ltb_ge; lens; lia)
  | |- context [?a =? ?b] => replace (a =? b) with true by (symmetry; apply Z.eqb_eq; lens; lia)
  end; cbn [negb].

Lemma words_wire p l m : Forall is_word l → words (length l) (p ++ wire_words l ++ m) (len p) = Ok l.
Proof.
  intros Hl. revert p. induction Hl as [|w l Hw Hl IH]; intros p; [done|]. cbn [length words].
  destruct (be2_word w Hw) as (a & b & Hb & <- & _). unfold wire_words. cbn [mbind list_bind]. rewrite Hb. cbn [app].
  rewrite (idx_app p _ (len p)) by done. rewrite idx_head. cbn [mbind result_bind].
  assert (idx (p ++ a :: b :: (l ≫= be_split 2) ++ m) (len p + 1) = Ok b) as ->.
  { change (a :: b :: ?r) with ([a] ++ b :: r). rewrite app_assoc, idx_app by (by rewrite len_app). apply idx_head. }
  cbn [mbind result_bind]. specialize (IH (p ++ [a; b])). rewrite <- app_assoc, len_app in IH. cbn [app] in IH.
  change (len [a; b]) with 2 in IH. unfold wire_words in IH. by rewrite IH.
Qed.
Lemma len_wire_words l : len (wire_words l) = 2 * len l.
Proof.
  unfold wire_words. induction l as [|w l IH]; [done|]. cbn [mbind list_bind].
  rewrite len_app, len_be, len_cons. change (l ≫= be_split 2) with (mbind (be_split 2) l) in *. lia.
Qed.
Lemma words_whole l : Forall is_word l → words (Z.to_nat (2 * len l / 2)) (wire_words l) 0 = Ok l.
Proof.
  intros Hl. rewrite Z.mul_comm, Z.div_mul by lia. unfold len. rewrite Nat2Z.id.
  pose proof (words_wire [] l [] Hl) as Hw. by rewrite app_nil_r in Hw.
Qed.

Lemma parse_wire_ext e x : ext_ok e →
  parse_extension (ext_type e) (ext_body e) (add_extension (ext_type e) x) = Ok (read_ext x e).
Proof.
  intros [Hlen He]. destruct e as [name|l|l|l|l|type body]; cbn [ext_type ext_body] in *; unfold parse_extension; cbn [Z.eqb Pos.eqb].
  - unfold parse_sni, sniExtensionHeaderLen. pose proof (len_nonneg name).
    rewrite !len_app, len_cons, len_app, !len_be in Hlen.
    destruct (be2_word (3 + len name)) as (a & b & -> & _); [unfold is_word; lia|].
    destruct (be2_word (len name)) as (c & d & -> & Hw & _); [unfold is_word; lia|]. cbn [app].
    pass. read_bytes. change (a :: b :: 0 :: c :: d :: name) with ([a; b; 0; c; d] ++ name).
    rewrite from_app by done. cbn [mbind result_bind]. rewrite Hw. pass. done.
  - unfold parse_ec. pose proof (len_nonneg l). destruct He as [He _]. rewrite len_app, len_be, len_wire_words in Hlen.
    destruct (be2_word (2 * len l)) as (a & b & -> & Hw & _); [unfold is_word; lia|]. cbn [app].
    pose proof (len_wire_words l). pass. read_bytes. change (a :: b :: ?r) with ([a; b] ++ r).
    rewrite from_app by done. cbn [mbind result_bind]. rewrite Hw. pass. by rewrite words_whole.
  - unfold parse_ecpf. pose proof (len_nonneg l). pass. read_bytes. change (len l :: ?r) with ([len l] ++ r).
    rewrite from_app by done. cbn [mbind result_bind]. pass. done.
  - unfold parse_versions. pose proof (len_nonneg l). destruct He as [He Hb]. pose proof (len_wire_words l). pass. read_bytes.
    change (?a :: ?r) with ([a] ++ r). rewrite from_app by done. cbn [mbind result_bind]. pass. by rewrite words_whole.
  - unfold parse_signatures. pose proof (len_nonneg l). destruct He as [He _]. rewrite len_app, len_be, len_wire_words in Hlen.
    pose proof (len_wire_words l). pass. unfold BigEndian.
    rewrite (sub_app [] (be_split 2 (2 * len l)) (wire_words l)) by (rewrite ?len_be; done). cbn [mbind result_bind].
    rewrite be_combine_split, Z.mod_small by lia. rewrite from_app by (rewrite len_be; done). cbn [mbind result_bind]. pass.
    by rewrite words_whole.
  - destruct He as [_ He]. rewrite !not_elem_of_cons in He. destruct He as (? & ? & ? & ? & ? & _).
    repeat (rewrite (proj2 (Z.eqb_neq _ _)) by done). done.
Qed.
Lemma len_wire_ext e : len (wire_ext e) = 4 + len (ext_body e).
Proof. unfold wire_ext. rewrite !len_app, !len_be. lia. Qed.
Lemma ext_type_word e : ext_ok e → is_word (ext_type e).
Proof. intros [_ He]. unfold is_word. destruct e; cbn; [lia..|apply He]. Qed.
Lemma extensions_wire es fuel x :
  Forall ext_ok es → len (es ≫= wire_ext) < 2^16 → (length es ≤ fuel)%nat →
  extensions_loop fuel (es ≫= wire_ext) x = Ok (foldl read_ext x es).
Proof.
  revert fuel x. induction es as [|e es IH]; intros fuel x; [by destruct fuel|]. intros [He Hes]%Forall_cons Hlen Hf.
  cbn [mbind list_bind] in *. rewrite len_app, len_wire_ext in Hlen.
  destruct fuel as [|fuel]; [cbn in Hf; lia|]. cbn [extensions_loop].
  pose proof (len_nonneg (ext_body e)). pose proof (len_nonneg (es ≫= wire_ext)).
  assert (is_word (len (ext_body e))) as Hw by (unfold is_word; lia).
  destruct (be2_word _ (ext_type_word e He)) as (t0 & t1 & Ht & Htw & _). destruct (be2_word _ Hw) as (n0 & n1 & Hn & Hnw & _).
  replace (len _ =? 0) with false by (symmetry; apply Z.eqb_neq; rewrite len_app, len_wire_ext; lia).
  unfold extensionHeaderLen.
  assert (wire_ext e = t0 :: t1 :: n0 :: n1 :: ext_body e) as -> by (unfold wire_ext; by rewrite Ht, Hn). cbn [app].
  pass. read_bytes. rewrite Htw, Hnw. pass. change (t0 :: t1 :: n0 :: n1 :: ?r) with ([t0; t1; n0; n1] ++ r).
  rewrite sub_app by done. cbn [mbind result_bind]. rewrite (parse_wire_ext e x He). cbn [mbind result_bind].
  rewrite u16_small by lia. rewrite app_assoc, from_app by (by rewrite len_app). cbn [mbind result_bind].
  rewrite IH by (done || (cbn in Hf; lia)). done.
Qed.
Lemma length_wire_exts es : (length es ≤ length (es ≫= wire_ext))%nat.
Proof.
  induction es as [|e es IH]; [done|]. cbn [mbind list_bind].
  rewrite length_app. pose proof (len_wire_ext e) as He. pose proof (len_nonneg (ext_body e)). unfold len in *. cbn. lia.
Qed.
Lemma parseExtensions_wire es version ciphers :
  Forall ext_ok es → len (es ≫= wire_ext) < 2^16 →
  let x := foldl read_ext exts0 es in
  parseExtensions (wire_extensions es) version ciphers =
  Ok (MkHello version ciphers (x_extensions x) (x_ellipticCurves x) (x_ellipticCurvePF x) (x_versions x)
        (x_signatureAlgorithms x) (x_sni x)).
Proof.
  intros He Hlen. unfold parseExtensions, wire_extensions, extensionsHeaderLen. pose proof (len_nonneg (es ≫= wire_ext)).
  destruct (be2_word (len (es ≫= wire_ext))) as (a & b & -> & Hw & _); [unfold is_word; lia|]. cbn [app].
  replace (len _ =? 0) with false by (symmetry; apply Z.eqb_neq; rewrite !len_cons; lia).
  pass. read_bytes. change (a :: b :: ?r) with ([a; b] ++ r). rewrite from_app by done. cbn [mbind result_bind].
  rewrite Hw. pass. pose proof (length_wire_exts es). rewrite extensions_wire by (done || lia). done.
Qed.
Lemma be3_word x : 0 ≤ x < 2^24 →
  ∃ a b c, be_split 3 x = [a; b; c] ∧ Z.lor (Z.lor (Z.shiftl a 16) (Z.shiftl b 8)) c = x.
Proof.
  intros Hx. pose proof (be_combine_split 3 x) as Hc. rewrite Z.mod_small in Hc by lia.
  pose proof (be_split_bytes 3 x) as Hb. change (be_split 3 x) with
    [(x / 2^(8 * Z.of_nat 2)) `mod` 2^8; (x / 2^(8 * Z.of_nat 1)) `mod` 2^8; (x / 2^(8 * Z.of_nat 0)) `mod` 2^8] in *.
  set (a := (x / 2^(8 * Z.of_nat 2)) `mod` 2^8) in *. set (b := (x / 2^(8 * Z.of_nat 1)) `mod` 2^8) in *.
  set (c := (x / 2^(8 * Z.of_nat 0)) `mod` 2^8) in *. exists a, b, c. split; [done|].
  unfold is_bytes in Hb. rewrite !Forall_cons in Hb. destruct Hb as (Ha & Hb & Hcc & _). unfold is_byte in *.
  rewrite !Z.shiftl_mul_pow2 by lia. rewrite (Z.lor_comm (a * _)), (lor_shifted (b * 2^8) a 16) by lia.
  rewrite Z.lor_comm. replace (b * 2^8 + a * 2^16) with ((b + a * 2^8) * 2^8) by lia.
  rewrite (lor_shifted c (b + a * 2^8) 8) by lia. cbn in Hc. lia.
Qed.
Lemma suites_wire h version :
  hello_ok h → len (wire_suites h) < 2^16 →
  parse_suites (wire_suites h) version = parseExtensions (wire_extensions (w_extensions h)) version (w_ciphers h).
Proof.
  intros (_ & _ & _ & _ & Hc & Hm & _ & _) Hlen. unfold parse_suites, cipherSuiteHeaderLen, compressMethodHeaderLen, wire_suites in *.
  pose proof (len_nonneg (w_ciphers h)). pose proof (len_nonneg (w_compression h)).
  pose proof (len_nonneg (wire_extensions (w_extensions h))). pose proof (len_wire_words (w_ciphers h)) as Hw.
  assert (2 * len (w_ciphers h) < 2^16) by (revert Hlen; lens; lia).
  destruct (be2_word (2 * len (w_ciphers h))) as (a & b & -> & Hab & _); [unfold is_word; lia|]. cbn [app].
  pass. read_bytes. cbv zeta. rewrite Hab. pass.
  rewrite Z.mul_comm, Z.div_mul by lia.
  assert (Z.to_nat (len (w_ciphers h)) = length (w_ciphers h)) as -> by (unfold len; lia).
  change (a :: b :: ?r) with ([a; b] ++ r). rewrite (words_wire [a; b]) by done. cbn [mbind result_bind].
  rewrite app_assoc, idx_app by (lens; lia). rewrite idx_head. cbn [mbind result_bind]. pass.
  change (len (w_compression h) :: ?r) with ([len (w_compression h)] ++ r).
  rewrite (app_assoc _ (w_compression h)), app_assoc, from_app by (lens; lia). done.
Qed.
Lemma parseHandshake_wire h : hello_ok h → parseHandshake (wire_handshake h) = Ok (read_hello h).
Proof.
  intros Hok. pose proof Hok as (Hv & Hu & Hr & Hs & Hc & Hm & He & Hlen).
  assert (len (wire_message h) < 2^16 - 4) as Hmsg by (revert Hlen; unfold wire_handshake; lens; lia).
  unfold parseHandshake, handshakeHeaderLen, randomDataLen, sessionIDHeaderLen, wire_handshake.
  destruct (be3_word (len (wire_message h))) as (l1 & l2 & l3 & -> & H3); [pose proof (len_nonneg (wire_message h)); lia|].
  unfold wire_message in *. destruct (be2_word _ Hv) as (v0 & v1 & Hbe & Hvw & _). rewrite Hbe in *. cbn [app] in *.
  pose proof (len_nonneg (w_session h)). pose proof (len_nonneg (wire_suites h)).
  assert (len (wire_suites h) < 2^16) by (revert Hmsg; lens; lia).
  pass. read_bytes. cbn [Z.eqb Pos.eqb negb]. rewrite H3. change (1 :: l1 :: l2 :: l3 :: ?r) with ([1; l1; l2; l3] ++ r).
  rewrite from_app by done. cbn [mbind result_bind app]. rewrite Z.eqb_refl. cbn [negb]. read_bytes. rewrite Hvw, Hu.
  change (1 :: l1 :: l2 :: l3 :: v0 :: v1 :: ?r) with ([1; l1; l2; l3; v0; v1] ++ r).
  rewrite app_assoc. rewrite (idx_app _ _ 38) by (lens; lia). rewrite idx_head. cbn [mbind result_bind]. cbv zeta. pass.
  change (len (w_session h) :: ?r) with ([len (w_session h)] ++ r). rewrite (app_assoc _ (w_session h)), app_assoc.
  rewrite from_app by (lens; lia). cbn [mbind result_bind]. rewrite suites_wire by done.
  assert (len (w_extensions h ≫= wire_ext) < 2^16).
  { pose proof (len_nonneg (wire_words (w_ciphers h))). pose proof (len_nonneg (w_compression h)).
    revert H1. unfold wire_suites, wire_extensions. lens. lia. }
  by rewrite parseExtensions_wire by done.
Qed.
Lemma Compute_record v h : is_word v → unsupported v = false → hello_ok h → Compute (wire_record v (wire_handshake h)) = Ok (read_hello h).
Proof.
  intros Hv Hu Hok. pose proof Hok as (_ & _ & _ & _ & _ & _ & _ & Hlen). unfold Compute, parseSegment, wire_record, recordLayerHeaderLen.
  destruct (be2_word v Hv) as (v0 & v1 & -> & Hvw & _). pose proof (len_nonneg (wire_handshake h)).
  destruct (be2_word (len (wire_handshake h))) as (n0 & n1 & -> & Hnw & _); [unfold is_word; lia|]. cbn [app].
  pass. read_bytes. cbn [Z.eqb Pos.eqb negb]. rewrite Hvw, Hu, Hnw. change (22 :: v0 :: v1 :: n0 :: n1 :: ?r) with ([22; v0; v1; n0; n1] ++ r).
  rewrite from_app by done. cbn [mbind result_bind]. pass.
  rewrite <- (app_nil_r (wire_handshake h)) at 1. rewrite sub_app by done. cbn [mbind result_bind]. by apply parseHandshake_wire.
Qed.

(** A hello with a server name, a GREASE extension, groups and versions. *)
Definition hello0 : wire_hello :=
  MkWire 0x0301 0x0303 (replicate 32 7) [] [0x1301; 0x1302] [0]
    [ExtOther 0x0A0A []; ExtServerName [97; 46; 98]; ExtGroups [29; 23]; ExtVersions [0x0304; 0x0303]; ExtSignatures [0x0403]].
Example hello0_read : Compute (wire_record 0x0301 (wire_handshake hello0)) =
  Ok (MkHello 0x0303 [0x1301; 0x1302] [0x0A0A; 0; 10; 43; 13] [29; 23] [] [0x0304; 0x0303] [0x0403] [97; 46; 98]).
Proof. vm_compute. reflexivity. Qed.
