(* ===== verification/Quic.v ===== *)
(** * The QUIC sniffer: [src/common/sniff/quic.go], [src/common/sniff/internal/qtls/qtls.go]

    An Initial packet is opened with the keys everybody can derive from its
    connection ID, its crypto frames are collected, and the client hello they
    carry is read for the server name.  Frames that are still incomplete are kept
    in the context of the connection for the next packet.

    HKDF, AES and AES-GCM are parameters ([QuicCrypto]); the labels, salts and
    nonces the code gives them are modelled.  A slice or index out of range is a
    [Panic], a loop that does not end runs out of fuel, which is a [Panic] too. *)

From S2P Require Import Prelude GoStrings NetAddr RuleContext Bytes Slices Ja3.

Local Open Scope Z_scope.
Local Open Scope reader_scope.

(** ** The libraries *)

Class QuicCrypto := {
  Extract : list Z → list Z → list Z;              (* hkdf.Extract(sha256, secret, salt) *)
  Expand : list Z → list Z → nat → list Z;         (* n bytes of hkdf.Expand(sha256, secret, info) *)
  AesEncrypt : list Z → list Z → list Z;           (* one block *)
  GcmOpen : list Z → list Z → list Z → list Z → option (list Z);  (* key, nonce, ciphertext, additional data *)
}.
Class QuicCryptoOk `{QuicCrypto} : Prop := {
  AesEncrypt_block key block : length (AesEncrypt key block) = 16%nat ∧ is_bytes (AesEncrypt key block);
  GcmOpen_bytes key nonce data aad plain : GcmOpen key nonce data aad = Some plain → is_bytes plain;
}.

(** What the sniffers write into the metadata of a connection. *)
Record qCryptoFragment := MkFragment { f_offset : Z; f_length : Z; f_payload : list Z }.
Record SniffMeta := MkSniff {
  sm_Protocol : string;
  sm_Domain : string;
  sm_Client : string;
  sm_Context : option (list qCryptoFragment);
}.
Definition ErrNeedMoreData : error := ENew "need more data".
(** [E.Cause1(ErrNeedMoreData, err)]. *)
Definition NeedMoreData (e : error) : error := EWrap "need more data" e.

(** ** qtls *)

Definition VersionDraft29 : Z := 0xff00001d.
Definition Version1 : Z := 0x1.
Definition Version2 : Z := 0x6b3343cf.
Definition SaltOld : list Z := [0xaf; 0xbf; 0xec; 0x28; 0x99; 0x93; 0xd2; 0x4c; 0x9e; 0x97; 0x86; 0xf1; 0x9c; 0x61; 0x11; 0xe0; 0x43; 0x90; 0xa8; 0x99].
Definition SaltV1 : list Z := [0x38; 0x76; 0x2c; 0xf7; 0xf5; 0x59; 0x34; 0xb3; 0x4d; 0x17; 0x9a; 0xe6; 0xa4; 0xc8; 0x0c; 0xad; 0xcc; 0xbb; 0x7f; 0x0a].
Definition SaltV2 : list Z := [0x0d; 0xed; 0xe3; 0xde; 0xf7; 0x00; 0xa6; 0xdb; 0x81; 0x93; 0x81; 0xbe; 0x6e; 0x26; 0x9d; 0xcb; 0xf9; 0xbd; 0x2e; 0xd9].

Definition HKDFExpandLabel `{QuicCrypto} (secret context : list Z) (label : string) (length : nat) : list Z :=
  let label := bytes_of label in
  Expand secret
    (be_split 2 (u16 (Z.of_nat length)) ++ u8 (6 + len label) :: bytes_of "tls13 " ++ label ++ u8 (len context) :: context) length.

(** A QUIC variable-length integer: the two high bits say how long it is. *)
Definition ReadVarint : R Z :=
  firstByte <- ReadByte;
  let n := Z.shiftl 1 (Z.shiftr (Z.land firstByte 0xc0) 6) in
  let b1 := Z.land firstByte (0xff - 0xc0) in
  if n =? 1 then r_ret b1
  else
    b2 <- ReadByte;
    if n =? 2 then r_ret (b2 + Z.shiftl b1 8)
    else
      b3 <- ReadByte; b4 <- ReadByte;
      if n =? 4 then r_ret (b4 + Z.shiftl b3 8 + Z.shiftl b2 16 + Z.shiftl b1 24)
      else
        b5 <- ReadByte; b6 <- ReadByte; b7 <- ReadByte; b8 <- ReadByte;
        r_ret (b8 + Z.shiftl b7 8 + Z.shiftl b6 16 + Z.shiftl b5 24 + Z.shiftl b4 32 + Z.shiftl b3 40 +
               Z.shiftl b2 48 + Z.shiftl b1 56).

(** [io.CopyN(io.Discard, reader, n)] and [Seek(n, io.SeekCurrent)] of a
    [bytes.Reader]: the first wants all the bytes, the second may leave the end
    behind. *)
Definition CopyN (n : Z) : R unit := λ r,
  if n <=? len (rd_bytes r) then Ok (tt, MkReader (drop (Z.to_nat n) (rd_bytes r)) (rd_err r)) else Err EOF.
Definition Seek (n : Z) : R unit := λ r,
  Ok (tt, MkReader (if n <=? len (rd_bytes r) then drop (Z.to_nat n) (rd_bytes r) else []) (rd_err r)).
Definition Len : R Z := λ r, Ok (len (rd_bytes r), r).

(** ** The header *)

Record header := MkHeader {
  h_version : Z;
  h_destConnID : list Z;
  h_packetLen : Z;
  h_hdrLen : Z;
  h_sample : list Z;           (* pnBytes *)
}.
Definition quic_header (packet : list Z) : R header :=
  typeByte <- ReadByte;
  if Z.land typeByte 0x40 =? 0 then r_fail (ENew "bad type byte")
  else
    version <- ReadFull 4;
    let versionNumber := be_combine version in
    if negb (versionNumber =? VersionDraft29) && negb (versionNumber =? Version1) && negb (versionNumber =? Version2)
    then r_fail (ENew "bad version")
    else
      let packetType := Z.shiftr (Z.land typeByte 0x30) 4 in
      if (packetType =? 0) && (versionNumber =? Version2) || (packetType =? 2) && negb (versionNumber =? Version2) || (2 <? packetType)
      then r_fail (ENew "bad packet type")
      else
        destConnIDLen <- ReadByte;
        if (destConnIDLen =? 0) || (20 <? destConnIDLen) then r_fail (ENew "bad destination connection id length")
        else
          destConnID <- ReadFull (Z.to_nat destConnIDLen);
          srcConnIDLen <- ReadByte;
          _ <- CopyN srcConnIDLen;
          tokenLen <- ReadVarint;
          _ <- CopyN tokenLen;
          packetLen <- ReadVarint;
          left <- Len;
          let hdrLen := len packet - left in
          if len packet <? hdrLen + packetLen then r_fail ErrInvalid
          else
            _ <- CopyN 4;
            pnBytes <- ReadFull 16;
            r_ret (MkHeader versionNumber destConnID packetLen hdrLen pnBytes).

(** ** Opening the packet *)

(** [l[i] = v]. *)
Definition set_byte (l : list Z) (i v : Z) : result (list Z) :=
  if (0 <=? i) && (i <? len l) then Ok (<[Z.to_nat i := v]> l) else Panic out_of_range.

Section open.
Context `{QuicCrypto}.

Definition client_secret (h : header) : list Z :=
  let salt := if h_version h =? Version1 then SaltV1 else if h_version h =? Version2 then SaltV2 else SaltOld in
  HKDFExpandLabel (Extract (h_destConnID h) salt) [] "client in" 32.
Definition label_of (h : header) (v1 v2 : string) : string := if h_version h =? Version2 then v2 else v1.
Definition xor_at (l mask : list Z) (hdrLen i : Z) : result (list Z) :=
  b ← idx l (hdrLen + i); m ← idx mask (i + 1); set_byte l (hdrLen + i) (Z.lxor b m).
Definition packet_number (newPacket : list Z) (hdrLen n : Z) : result Z :=
  if n =? 1 then idx newPacket hdrLen
  else if n =? 2 then l ← from newPacket hdrLen; BigEndian 2 l
  else if n =? 3 then
    a ← idx newPacket (hdrLen + 2); b ← idx newPacket (hdrLen + 1); c ← idx newPacket hdrLen;
    Ok (Z.lor (Z.lor a (Z.shiftl b 8)) (Z.shiftl c 16))
  else if n =? 4 then l ← from newPacket hdrLen; BigEndian 4 l
  else Err (ENew "bad packet number length").
(** [xorNonceAEAD.Open]. *)
Definition aead_open (key iv nonce data aad : list Z) : option (list Z) :=
  GcmOpen key (take 4 iv ++ zip_with Z.lxor (drop 4 iv) nonce) data aad.

(** From the header protection to the plain text of the packet. *)
Definition open_packet (packet : list Z) (h : header) : result (list Z) :=
  let hdrLen := h_hdrLen h in
  let secret := client_secret h in
  let mask := AesEncrypt (HKDFExpandLabel secret [] (label_of h "quic hp" "quicv2 hp") 16) (h_sample h) in
  m0 ← idx mask 0;
  p0 ← idx packet 0;
  newPacket ← set_byte packet 0 (Z.lxor p0 (Z.land m0 0xf));
  _ ← sub newPacket hdrLen (hdrLen + 4);
  newPacket ← xor_at newPacket mask hdrLen 0;
  newPacket ← xor_at newPacket mask hdrLen 1;
  newPacket ← xor_at newPacket mask hdrLen 2;
  newPacket ← xor_at newPacket mask hdrLen 3;
  n0 ← idx newPacket 0;
  let packetNumberLength := Z.land n0 0x3 + 1 in
  if h_packetLen h + hdrLen <? hdrLen + packetNumberLength then Err ErrInvalid
  else
    packetNumber ← packet_number newPacket hdrLen packetNumberLength;
    let extHdrLen := hdrLen + packetNumberLength in
    (* copy(newPacket[extHdrLen:hdrLen+4], packet[extHdrLen:]) *)
    target ← sub newPacket extHdrLen (hdrLen + 4);
    source ← from packet extHdrLen;
    head ← sub newPacket 0 extHdrLen;
    tail ← from newPacket (hdrLen + 4);
    let newPacket := head ++ take (length target) source ++ tail in
    data ← sub newPacket extHdrLen (h_packetLen h + hdrLen);
    aad ← sub newPacket 0 extHdrLen;
    let key := HKDFExpandLabel secret [] (label_of h "quic key" "quicv2 key") 16 in
    let iv := HKDFExpandLabel secret [] (label_of h "quic iv" "quicv2 iv") 12 in
    match aead_open key iv (be_split 8 packetNumber) data aad with
    | Some decrypted => Ok decrypted
    | None => Err (EStd "cipher: message authentication failed")
    end.
End open.

(** ** Frames *)

Definition ack_ranges (ackRangeCount : Z) : R unit :=
  _ <- for_range ackRangeCount (λ _, _ <- ReadVarint; ReadVarint); r_ret tt.
Definition ack_frame (frameType : Z) : R unit :=
  _ <- ReadVarint; _ <- ReadVarint;
  ackRangeCount <- ReadVarint;
  _ <- ReadVarint;
  _ <- ack_ranges ackRangeCount;
  if frameType =? 0x03 then _ <- ReadVarint; _ <- ReadVarint; _ <- ReadVarint; r_ret tt else r_ret tt.
Definition crypto_frame : R qCryptoFragment :=
  offset <- ReadVarint;
  length <- ReadVarint;
  left <- Len;
  if left <? length then r_fail ErrInvalid
  else λ r, (_ <- Seek length; r_ret (MkFragment offset length (take (Z.to_nat length) (rd_bytes r)))) r.
Definition close_frame : R unit :=
  _ <- ReadVarint; _ <- ReadVarint; length <- ReadVarint; Seek length.

Fixpoint frames_loop (fuel : nat) (frameTypeList : list Z) (fragments : list qCryptoFragment) :
    R (list Z * list qCryptoFragment) := λ r,
  match rd_bytes r with
  | [] => Ok (frameTypeList, fragments, r)
  | _ :: _ =>
      match fuel with
      | O => Panic out_of_fuel
      | S fuel =>
          (frameType <- ReadByte;
           let types := frameTypeList ++ [frameType] in
           if (frameType =? 0x00) || (frameType =? 0x01) then frames_loop fuel types fragments
           else if (frameType =? 0x02) || (frameType =? 0x03) then _ <- ack_frame frameType; frames_loop fuel types fragments
           else if frameType =? 0x06 then f <- crypto_frame; frames_loop fuel types (fragments ++ [f])
           else if frameType =? 0x1c then _ <- close_frame; frames_loop fuel types fragments
           else r_fail ErrInvalid) r
      end
  end.
Definition read_frames (decrypted : list Z) : result (list Z * list qCryptoFragment) :=
  x ← frames_loop (length decrypted) [] [] (MkReader decrypted EOF); Ok x.1.

(** ** Putting the hello together *)

(** [buffer.Write]: what does not fit is dropped. *)
Definition buf_write (capacity : Z) (l payload : list Z) : list Z := l ++ take (Z.to_nat (capacity - len l)) payload.
Definition next_fragment (index : Z) (fragments : list qCryptoFragment) : option qCryptoFragment :=
  snd <$> list_find (λ f, f_offset f = index ∧ 0 < f_length f) fragments.
Fixpoint assemble (fuel : nat) (capacity index : Z) (fragments : list qCryptoFragment) (l : list Z) : result (list Z) :=
  match next_fragment index fragments with
  | None => Ok l
  | Some f =>
      match fuel with
      | O => Panic out_of_fuel
      | S fuel => assemble fuel capacity (u64 (f_offset f + f_length f)) fragments (buf_write capacity l (f_payload f))
      end
  end.
Definition frame_len (fragments : list qCryptoFragment) : Z := foldl (λ n f, u64 (n + f_length f)) 0 fragments.
Definition hello_buffer (fragments : list qCryptoFragment) : result (list Z) :=
  let frameLen := frame_len fragments in
  assemble (length fragments) (5 + frameLen) 0 fragments (0x16 :: be_split 2 0x0303 ++ be_split 2 (u16 frameLen)).

(** ** The client *)

Definition isZero (l : list Z) : bool := forallb (λ x, x =? 0) l.
Definition count (l : list Z) (value : Z) : Z := len (filter (λ x, x = value) l).
Definition isQUICGo (fingerprint : ClientHello) : bool :=
  bool_decide (0x11EC ∈ EllipticCurves fingerprint) || bool_decide (0xFF01 ∈ Extensions fingerprint).
Definition GreaseBitmask : Z := 0x0F0F.
Definition is_grease (x : Z) : bool := Z.land x GreaseBitmask =? 0x0A0A.
Definition safari (fingerprint : ClientHello) : result bool :=
  v ← (if len (Versions fingerprint) =? 2 then b ← idx (Versions fingerprint) 0; Ok (is_grease b) else Ok false);
  e ← (if v && (len (EllipticCurves fingerprint) =? 5) then b ← idx (EllipticCurves fingerprint) 0; Ok (is_grease b) else Ok false);
  if e : bool then Ok true
  else Ok (bool_decide (CipherSuites fingerprint = [0x1302]) && bool_decide (EllipticCurves fingerprint = [0x001d]) &&
           bool_decide (SignatureAlgorithms fingerprint = [0x0403])).
Definition client_of (frameTypeList : list Z) (fingerprint : ClientHello) : result string :=
  if len frameTypeList =? 1 then Ok "firefox"%string
  else
    first ← idx frameTypeList 0;
    rest ← from frameTypeList 1;
    s ← (if (first =? 0x06) && isZero rest then safari fingerprint else Ok false);
    if s : bool then Ok "safari"%string
    else
      last ← idx frameTypeList (len frameTypeList - 1);
      front ← sub frameTypeList 0 (len frameTypeList - 1);
      if (last =? 0x06) && isZero front then Ok "quic-go"%string
      else if (1 <? count frameTypeList 0x06) || (0 <? count frameTypeList 0x01)
      then Ok (if isQUICGo fingerprint then "quic-go"%string else "chromium"%string)
      else Ok "unknown"%string.

(** ** The sniffer *)

(** The frame types of a packet and its crypto frames. *)
Definition open_frames `{QuicCrypto} (packet : list Z) : result (list Z * list qCryptoFragment) :=
  h ← quic_header packet (MkReader packet EOF);
  decrypted ← open_packet packet h.1;
  read_frames decrypted.
(** A sniffer changes the metadata also when it fails. *)
Definition QUICClientHello `{QuicCrypto} (m : SniffMeta) (packet : list Z) : result (SniffMeta * option error) :=
  match open_frames packet with
  | Panic w => Panic w
  | Err e => Ok (m, Some e)
  | Ok (frameTypeList, fragments) =>
      let fragments := fragments ++ default [] (sm_Context m) in
      buffer ← hello_buffer fragments;
      match Compute buffer with
      | Panic w => Panic w
      | Err e => Ok (MkSniff "quic" (sm_Domain m) (sm_Client m) (Some fragments), Some (NeedMoreData e))
      | Ok fingerprint =>
          client ← (if bool_decide (sm_Client m = ""%string) then client_of frameTypeList fingerprint else Ok (sm_Client m));
          Ok (MkSniff "quic" (string_of (ServerName fingerprint)) client None, None)
      end
  end.

(** ** Weakest preconditions of reads

    [wp m Q r]: from [r], [m] does not panic, and a result satisfies [Q]. *)

Definition wp {A} (m : R A) (Q : A → Reader → Prop) (r : Reader) : Prop :=
  match m r with Ok (a, r') => Q a r' | Err _ => True | Panic _ => False end.
Definition left_of (r : Reader) : Z := len (rd_bytes r).
(** [r'] is what is left of [r] after [n] bytes. *)
Record after (r r' : Reader) (n : Z) : Prop := {
  after_bytes : is_bytes (rd_bytes r');
  after_left : left_of r = n + left_of r';
}.
Lemma wp_mono {A} (m : R A) (Q Q' : A → Reader → Prop) r : wp m Q r → (∀ a r', Q a r' → Q' a r') → wp m Q' r.
Proof. unfold wp. destruct (m r) as [[a r']| |]; auto. Qed.
Lemma wp_bind {A B} (m : R A) (f : A → R B) Q r : wp m (λ a r', wp (f a) Q r') r → wp (r_bind m f) Q r.
Proof. unfold wp, r_bind. by destruct (m r) as [[a r']| |]. Qed.
Lemma wp_ret {A} (a : A) Q r : Q a r → wp (r_ret a) Q r.
Proof. done. Qed.
Lemma wp_fail {A} e Q r : wp (@r_fail A e) Q r.
Proof. done. Qed.
Lemma wp_if {A} (b : bool) (x y : R A) Q r : (b = true → wp x Q r) → (b = false → wp y Q r) → wp (if b then x else y) Q r.
Proof. destruct b; auto. Qed.
Lemma wp_ReadByte Q r :
  is_bytes (rd_bytes r) → (∀ b r', is_byte b → after r r' 1 → Q b r') → wp ReadByte Q r.
Proof.
  unfold wp, ReadByte. intros Hr HQ. destruct r as [[|b l] e]; [done|]. cbn in *. apply Forall_cons in Hr as [Hb Hl].
  apply HQ; [done|]. split; [done|]. unfold left_of, len. cbn. lia.
Qed.
Lemma wp_ReadFull n Q r :
  is_bytes (rd_bytes r) → (∀ l r', is_bytes l → length l = n → after r r' (Z.of_nat n) → Q l r') → wp (ReadFull n) Q r.
Proof.
  unfold wp, ReadFull, rd_len. intros Hr HQ. case_bool_decide; [|by case_bool_decide]. apply HQ.
  - by apply Forall_take.
  - rewrite length_take. lia.
  - split; [by apply Forall_drop|]. unfold left_of, len. cbn. rewrite length_drop. lia.
Qed.
Lemma wp_CopyN n Q r : 0 ≤ n → is_bytes (rd_bytes r) → (∀ u r', after r r' n → Q u r') → wp (CopyN n) Q r.
Proof.
  unfold wp, CopyN. intros Hn Hr HQ. destruct (n <=? _) eqn:E; [|done]. bool_facts. apply HQ.
  split; [by apply Forall_drop|]. unfold left_of, len in *. cbn. rewrite length_drop. lia.
Qed.
Lemma wp_Seek n Q r :
  0 ≤ n → is_bytes (rd_bytes r) → (∀ u r' k, 0 ≤ k → after r r' k → Q u r') → wp (Seek n) Q r.
Proof.
  unfold wp, Seek. intros Hn Hr HQ. destruct (n <=? len (rd_bytes r)) eqn:E; bool_facts.
  - apply (HQ _ _ n); [done|]. split; [by apply Forall_drop|]. unfold left_of, len in *. cbn. rewrite length_drop. lia.
  - apply (HQ _ _ (left_of r)); [unfold left_of, len; lia|]. split; [by constructor|]. unfold left_of, len. cbn. lia.
Qed.
Lemma wp_Len Q r : Q (left_of r) r → wp Len Q r.
Proof. done. Qed.
Lemma after_le r r' n : after r r' n → 0 ≤ left_of r' ∧ left_of r' = left_of r - n.
Proof. intros [_ H]. unfold left_of, len in *. lia. Qed.

Lemma land_bound a m : 0 ≤ a → 0 ≤ m → 0 ≤ Z.land a m ≤ m.
Proof.
  intros Ha Hm. split; [by apply Z.land_nonneg; left|]. apply Z.ldiff_le; [done|].
  rewrite Z.ldiff_land. apply Z.bits_inj'. intros n Hn. rewrite !Z.land_spec, Z.lnot_spec, Z.bits_0 by done.
  by destruct (Z.testbit a n), (Z.testbit m n).
Qed.
(** The values of a variable-length integer fit 62 bits. *)
Lemma wp_ReadVarint Q r :
  is_bytes (rd_bytes r) → (∀ v r' n, 0 ≤ v < 2^62 → 1 ≤ n → after r r' n → Q v r') → wp ReadVarint Q r.
Proof.
  intros Hr HQ. unfold ReadVarint. apply wp_bind, wp_ReadByte; [done|]. intros b1 r1 Hb1 Ha1.
  unfold is_byte in *. pose proof (land_bound b1 63 ltac:(lia) ltac:(lia)) as Hl. change (0xff - 0xc0) with 63.
  cbv zeta. set (b := Z.land b1 63) in *.
  assert (∀ v r' n, 0 ≤ v < 2^62 → 0 ≤ n → after r1 r' n → Q v r') as HQ1.
  { intros v r' n Hv Hn Ha. apply (HQ v r' (1 + n)); [done|lia|]. destruct Ha, Ha1. split; [done|lia]. }
  clear HQ. apply wp_if; intros _; [apply wp_ret; apply (HQ1 _ _ 0); [lia|lia|split; [apply Ha1|lia]]|].
  apply wp_bind, wp_ReadByte; [apply Ha1|]. intros b2 r2 Hb2 Ha2. unfold is_byte in *.
  apply wp_if; intros _; [apply wp_ret; apply (HQ1 _ _ 1); [rewrite !Z.shiftl_mul_pow2 by lia; lia|lia|done]|].
  apply wp_bind, wp_ReadByte; [apply Ha2|]. intros b3 r3 Hb3 Ha3. apply wp_bind, wp_ReadByte; [apply Ha3|]. intros b4 r4 Hb4 Ha4.
  unfold is_byte in *.
  apply wp_if; intros _; [apply wp_ret; apply (HQ1 _ _ 3); [rewrite !Z.shiftl_mul_pow2 by lia; lia|lia|destruct Ha2, Ha3, Ha4; split; [done|lia]]|].
  apply wp_bind, wp_ReadByte; [apply Ha4|]. intros b5 r5 Hb5 Ha5. apply wp_bind, wp_ReadByte; [apply Ha5|]. intros b6 r6 Hb6 Ha6.
  apply wp_bind, wp_ReadByte; [apply Ha6|]. intros b7 r7 Hb7 Ha7. apply wp_bind, wp_ReadByte; [apply Ha7|]. intros b8 r8 Hb8 Ha8.
  unfold is_byte in *. apply wp_ret. apply (HQ1 _ _ 7); [rewrite !Z.shiftl_mul_pow2 by lia; lia|lia|].
  destruct Ha2, Ha3, Ha4, Ha5, Ha6, Ha7, Ha8. split; [done|lia].
Qed.

(** ** No packet makes the sniffer panic *)

Ltac wp_step := lazymatch goal with
  | |- wp (r_bind _ _) _ _ => apply wp_bind
  | |- wp (r_ret _) _ _ => apply wp_ret
  | |- wp (r_fail _) _ _ => apply wp_fail
  | |- wp (if _ then _ else _) _ _ => apply wp_if; intros
  | |- wp ReadByte _ _ => apply wp_ReadByte; [by first [done|eapply after_bytes]|intros]
  | |- wp (ReadFull _) _ _ => apply wp_ReadFull; [by first [done|eapply after_bytes]|intros]
  | |- wp ReadVarint _ _ => apply wp_ReadVarint; [by first [done|eapply after_bytes]|intros]
  | |- wp (CopyN _) _ _ => apply wp_CopyN; [unfold is_byte in *; lia|by first [done|eapply after_bytes]|intros]
  | |- wp (Seek _) _ _ => apply wp_Seek; [unfold is_byte in *; lia|by first [done|eapply after_bytes]|intros]
  | |- wp Len _ _ => apply wp_Len
  end; cbv zeta.
Ltac lefts := repeat match goal with H : after _ _ _ |- _ => apply after_le in H; destruct H end.

Definition header_ok (packet : list Z) (h : header) : Prop :=
  0 ≤ h_hdrLen h ∧ h_hdrLen h + 20 ≤ len packet ∧ 0 ≤ h_packetLen h ∧ h_hdrLen h + h_packetLen h ≤ len packet.
Lemma quic_header_ok packet : is_bytes packet → wp (quic_header packet) (λ h _, header_ok packet h) (MkReader packet EOF).
Proof.
  intros Hp. unfold quic_header. repeat wp_step. unfold header_ok. cbn [h_hdrLen h_packetLen].
  assert (left_of (MkReader packet EOF) = len packet) by done. bool_facts. unfold is_byte in *. lefts. lia.
Qed.

Lemma lxor_byte a b : is_byte a → is_byte b → is_byte (Z.lxor a b).
Proof. unfold is_byte. intros. apply (lxor_bound 8); lia. Qed.
Lemma safe_set_byte {B} l i v (f : list Z → result B) :
  is_bytes l → is_byte v → 0 ≤ i < len l → (∀ l', is_bytes l' → len l' = len l → safe (f l')) → safe (set_byte l i v ≫= f).
Proof.
  intros Hl Hv Hi Hf. unfold set_byte. rewrite (proj2 (Z.leb_le _ _)), (proj2 (Z.ltb_lt _ _)) by lia. cbn. apply Hf.
  - by apply Forall_insert.
  - unfold len. by rewrite length_insert.
Qed.
Lemma safe_xor_at {B} l mask hdrLen i (f : list Z → result B) :
  is_bytes l → is_bytes mask → len mask = 16 → 0 ≤ hdrLen → hdrLen + 4 ≤ len l → 0 ≤ i < 4 →
  (∀ l', is_bytes l' → len l' = len l → safe (f l')) → safe (xor_at l mask hdrLen i ≫= f).
Proof.
  intros Hl Hm Hml Hh Hlen Hi Hf. unfold xor_at. do 2 (rewrite idx_Ok by lia; cbn [mbind result_bind]).
  apply safe_set_byte; [done|apply lxor_byte; auto with slices|lia|done].
Qed.
Lemma safe_packet_number l hdrLen n : is_bytes l → 0 ≤ hdrLen → hdrLen + 4 ≤ len l → safe (packet_number l hdrLen n).
Proof.
  intros Hl Hh Hlen. unfold packet_number.
  repeat match goal with |- safe (if _ then _ else _) => apply safe_if; intros end; [|..|done].
  - unfold safe. by rewrite idx_Ok by lia.
  - rewrite from_Ok by lia. cbn [mbind result_bind]. unfold BigEndian. rewrite sub_Ok; [done|lia|rewrite len_drop; lia].
  - do 3 (rewrite idx_Ok by lia; cbn [mbind result_bind]). done.
  - rewrite from_Ok by lia. cbn [mbind result_bind]. unfold BigEndian. rewrite sub_Ok; [done|lia|rewrite len_drop; lia].
Qed.
Lemma open_packet_safe `{QuicCryptoOk} packet h :
  is_bytes packet → header_ok packet h →
  safe (open_packet packet h) ∧ ∀ decrypted, open_packet packet h = Ok decrypted → is_bytes decrypted.
Proof.
  intros Hp (Hh & Hs & Hl & Hlen).
  assert (∀ r : result (list Z), safe (r ≫= λ d, Ok d) → safe r) as Hid by (by intros [| |]).
  split.
  - unfold open_packet.
    destruct (AesEncrypt_block (HKDFExpandLabel (client_secret h) [] (label_of h "quic hp" "quicv2 hp") 16) (h_sample h)) as [Hm Hmb].
    set (mask := AesEncrypt _ _) in *. assert (len mask = 16) as Hml by (unfold len; lia).
    repeat safe_step. apply safe_set_byte; [done| |lia|]; [apply lxor_byte; [done|]; unfold is_byte in *; pose proof (land_bound b 0xf); lia|].
    intros l1 Hl1 Hn1. repeat safe_step.
    do 4 (apply safe_xor_at; [done..|lia|lia|lia|]; intros ? ? ?). repeat safe_step.
    apply safe_bind; [apply safe_packet_number; [done|lia|lia]|]. intros packetNumber _.
    assert (0 ≤ Z.land b1 3 ≤ 3) by (apply land_bound; unfold is_byte in *; lia). bool_facts.
    do 4 safe_step. rewrite sub_Ok; [|lia|].
    + cbn [mbind result_bind]. rewrite sub_Ok; [|lia|].
      * cbn [mbind result_bind]. by destruct (aead_open _ _ _ _ _).
      * unfold len in *. rewrite !length_app, length_take. lia.
    + unfold len in *. rewrite !length_app, length_take. lia.
  - unfold open_packet. intros d Hd. repeat (apply result_bind_Ok in Hd as (? & _ & Hd)). cbv zeta in Hd.
    case_match; [done|]. repeat (apply result_bind_Ok in Hd as (? & _ & Hd)). cbv zeta in Hd.
    unfold aead_open in Hd. destruct (GcmOpen _ _ _ _) eqn:E; [|done]. injection Hd as <-. by eapply GcmOpen_bytes.
Qed.

Lemma after_trans r r' r'' n k : after r r' n → after r' r'' k → after r r'' (n + k).
Proof. intros [? ?] [? ?]. split; [done|lia]. Qed.
Ltac chain_after := first [eassumption | eapply after_trans; [|eassumption]; chain_after].
Lemma wp_for_range {A} count (step : Z → R A) Q r :
  is_bytes (rd_bytes r) →
  (∀ i r Q, is_bytes (rd_bytes r) → (∀ a r' n, 1 ≤ n → after r r' n → Q a r') → wp (step i) Q r) →
  (∀ l r' n, 0 ≤ n → after r r' n → Q l r') → wp (for_range count step) Q r.
Proof.
  intros Hr Hstep HQ.
  assert (∀ fuel i r0 n (Q : list A → Reader → Prop), 0 ≤ n → after r r0 n → (rd_len r0 < fuel)%nat →
            (∀ l r' n, 0 ≤ n → after r r' n → Q l r') → wp (for_go fuel i count step) Q r0) as Hgo.
  { clear Q HQ. induction fuel as [|fuel IH]; intros i r0 n Q Hn Ha Hf HQ; [lia|]. cbn [for_go].
    case_bool_decide; [by apply wp_ret, (HQ _ _ n)|]. apply wp_bind, Hstep; [apply Ha|]. intros a r1 k Hk H1.
    apply wp_bind, (IH _ _ (n + k)); [lia|by eapply after_trans| |].
    - destruct H1 as [_ H1]. unfold left_of, len, rd_len in *. lia.
    - intros l r2 k2 Hk2 H2. apply wp_ret. by apply (HQ _ _ k2). }
  apply (Hgo _ _ r 0); [lia|by split; [|lia]|lia|done].
Qed.

Definition frag_ok (f : qCryptoFragment) : Prop :=
  0 ≤ f_offset f < 2^62 ∧ 0 ≤ f_length f < 2^62 ∧ len (f_payload f) = f_length f ∧ is_bytes (f_payload f).
Lemma wp_ack_frame t Q r : is_bytes (rd_bytes r) → (∀ u r' n, 0 ≤ n → after r r' n → Q u r') → wp (ack_frame t) Q r.
Proof.
  intros Hr HQ. unfold ack_frame, ack_ranges.
  do 8 wp_step. apply wp_bind, wp_bind, wp_for_range; [by eapply after_bytes| |].
  { intros i s Q' Hs HQ'. repeat wp_step. eapply HQ'; [|by eapply after_trans]. lia. }
  intros l ? ? ? ?. apply wp_ret.
  repeat wp_step; (eapply HQ; [|chain_after]); lia.
Qed.
Lemma wp_crypto_frame Q r : is_bytes (rd_bytes r) → (∀ f r' n, frag_ok f → 0 ≤ n → after r r' n → Q f r') → wp crypto_frame Q r.
Proof.
  intros Hr HQ. unfold crypto_frame. do 6 wp_step. wp_step; [apply wp_fail|]. unfold wp.
  change (wp (_ <- Seek v0; r_ret (MkFragment v v0 (take (Z.to_nat v0) (rd_bytes r'0)))) Q r'0).
  apply wp_bind, wp_Seek; [lia|by eapply after_bytes|]. intros _ r'' k Hk Ha. apply wp_ret.
  eapply HQ; [|..|eapply after_trans; [eapply after_trans; [done|done]|done]]; [|lia].
  bool_facts. unfold frag_ok. cbn. split_and!; try lia; [|apply Forall_take; by eapply after_bytes].
  unfold left_of, len in *. rewrite length_take. lia.
Qed.
Lemma wp_close_frame Q r : is_bytes (rd_bytes r) → (∀ u r' n, 0 ≤ n → after r r' n → Q u r') → wp close_frame Q r.
Proof.
  intros Hr HQ. unfold close_frame. repeat wp_step.
  eapply HQ; [|chain_after]. lia.
Qed.
Definition frames_ok (x : list Z * list qCryptoFragment) (r : Reader) : Prop :=
  Forall frag_ok x.2 ∧ is_bytes x.1 ∧ (x.1 = [] → x.2 = []).
Lemma frames_loop_ok fuel types fragments r :
  is_bytes (rd_bytes r) → left_of r ≤ Z.of_nat fuel → Forall frag_ok fragments → is_bytes types → (types = [] → fragments = []) →
  wp (frames_loop fuel types fragments) frames_ok r.
Proof.
  revert types fragments r. induction fuel as [|fuel IH]; intros types fragments r Hr Hf Hfr Hty Ht; unfold wp; cbn [frames_loop].
  { destruct r as [[|b l] e]; [done|]. unfold left_of, len in Hf. cbn in Hf. lia. }
  destruct (rd_bytes r) as [|b0 l0] eqn:Hb; [done|]. rewrite <- Hb in Hr. clear b0 l0 Hb.
  lazymatch goal with |- match ?m r with _ => _ end => change (wp m frames_ok r) end.
  apply wp_bind, wp_ReadByte; [done|]. intros t r1 Hbt H1. cbv zeta.
  assert (∀ fragments' r' n, 0 ≤ n → after r1 r' n → Forall frag_ok fragments' →
            wp (frames_loop fuel (types ++ [t]) fragments') frames_ok r') as Hnext.
  { intros fr r' n Hn Ha Hfr'. apply IH; [apply Ha|destruct H1, Ha; lia|done| |by destruct types].
    apply Forall_app. by split; [|constructor]. }
  assert (after r1 r1 0) as H0 by (split; [apply H1|lia]).
  repeat (apply wp_if; intros _).
  - by apply (Hnext _ _ 0).
  - apply wp_bind, wp_ack_frame; [apply H1|]. intros _ r' n Hn Ha. by apply (Hnext _ _ n).
  - apply wp_bind, wp_crypto_frame; [apply H1|]. intros f r' n Hfok Hn Ha. apply (Hnext _ _ n); [done..|].
    apply Forall_app. by split; [|constructor].
  - apply wp_bind, wp_close_frame; [apply H1|]. intros _ r' n Hn Ha. by apply (Hnext _ _ n).
  - apply wp_fail.
Qed.

(** Every fragment is used at most once: the offset only grows. *)
Definition waiting (index : Z) (fragments : list qCryptoFragment) : nat := length (filter (λ f, index ≤ f_offset f) fragments).
Lemma next_fragment_Some index fragments f :
  next_fragment index fragments = Some f → f ∈ fragments ∧ f_offset f = index ∧ 0 < f_length f.
Proof.
  unfold next_fragment. destruct (list_find _ _) as [[i g]|] eqn:E; [|done]. intros [= <-].
  apply list_find_Some in E as (Hi & Hg & _). split; [by eapply list_elem_of_lookup_2|done].
Qed.
Lemma waiting_less index index' fragments f :
  f ∈ fragments → f_offset f = index → index < index' → (waiting index' fragments < waiting index fragments)%nat.
Proof.
  intros Hf Ho Hlt. unfold waiting. induction fragments as [|g l IH]; [by apply not_elem_of_nil in Hf|].
  assert (length (filter (λ f, (index' ≤ f_offset f)%Z) l) ≤ length (filter (λ f, (index ≤ f_offset f)%Z) l))%nat as Hle.
  { clear -Hlt. induction l as [|h l IHl]; [done|]. rewrite !filter_cons. repeat case_decide; cbn; lia. }
  rewrite !filter_cons. apply elem_of_cons in Hf as [->|Hf].
  - rewrite decide_False, decide_True by lia. cbn. lia.
  - specialize (IH Hf). repeat case_decide; cbn; lia.
Qed.
Lemma frag_end f : frag_ok f → u64 (f_offset f + f_length f) = f_offset f + f_length f.
Proof. intros (? & ? & _). unfold u64. rewrite Z.mod_small; lia. Qed.
Lemma assemble_ok fuel capacity index fragments l :
  Forall frag_ok fragments → (waiting index fragments ≤ fuel)%nat → is_bytes l →
  ∃ l', assemble fuel capacity index fragments l = Ok l' ∧ is_bytes l'.
Proof.
  intros Hfr. revert index l. induction fuel as [|fuel IH]; intros index l Hw Hl; cbn [assemble];
    (destruct (next_fragment index fragments) as [f|] eqn:Hn; [|by eauto]);
    apply next_fragment_Some in Hn as (Hin & Ho & Hpos);
    pose proof (proj1 (Forall_forall _ _) Hfr f Hin) as Hok; rewrite ?frag_end by done;
    pose proof (waiting_less index (f_offset f + f_length f) fragments f Hin Ho ltac:(lia)) as Hless.
  - lia.
  - apply IH; [lia|]. unfold buf_write. apply Forall_app. split; [done|]. apply Forall_take, Hok.
Qed.
Lemma hello_buffer_ok fragments : Forall frag_ok fragments → ∃ l, hello_buffer fragments = Ok l ∧ is_bytes l.
Proof.
  intros Hfr. unfold hello_buffer. apply assemble_ok; [done|apply length_filter|].
  constructor; [unfold is_byte; lia|]. apply Forall_app. split; apply be_split_bytes.
Qed.

Lemma safari_Ok fingerprint : ∃ b, safari fingerprint = Ok b.
Proof.
  unfold safari. assert (∀ l, len l = 2 ∨ len l = 5 → ∃ b, idx l 0 = Ok b) as Hidx by (intros k Hk; rewrite idx_Ok; [eauto|lia]).
  assert (∃ v : bool, (if len (Versions fingerprint) =? 2 then b ← idx (Versions fingerprint) 0; Ok (is_grease b) else Ok false) = Ok v)
    as [v ->].
  { destruct (len (Versions fingerprint) =? 2) eqn:E; [|by eauto]. bool_facts.
    destruct (Hidx (Versions fingerprint)) as [x ->]; [lia|by eauto]. }
  cbn [mbind result_bind]. destruct (v && (len (EllipticCurves fingerprint) =? 5)) eqn:E; [|by eexists].
  bool_facts. destruct (Hidx (EllipticCurves fingerprint)) as [x ->]; [lia|]. cbn [mbind result_bind].
  by destruct (is_grease x); eexists.
Qed.
Lemma client_of_Ok types fingerprint : types ≠ [] → ∃ c, client_of types fingerprint = Ok c.
Proof.
  intros Hn. unfold client_of.
  assert (0 < len types) by (destruct types; [done|rewrite len_cons; pose proof (len_nonneg types); lia]).
  destruct (len types =? 1); [by eexists|]. rewrite (idx_Ok types 0) by lia. cbn [mbind result_bind]. rewrite from_Ok by lia.
  cbn [mbind result_bind]. destruct (safari_Ok fingerprint) as [s ->].
  lazymatch goal with |- ∃ c, mbind _ ?x = Ok c => assert (∃ b : bool, x = Ok b) as [b ->] by (case_match; by eexists) end.
  cbn [mbind result_bind]. destruct b; [by eexists|]. rewrite idx_Ok by lia. cbn [mbind result_bind]. rewrite sub_Ok by lia.
  cbn [mbind result_bind]. repeat (destruct (_ && _) || destruct (_ || _)); by eexists.
Qed.

(** Fragments kept for the next packet do not make a hello by themselves. *)
Definition context_ok (m : SniffMeta) : Prop :=
  match sm_Context m with
  | None => True
  | Some fragments => Forall frag_ok fragments ∧ ∃ l e, hello_buffer fragments = Ok l ∧ Compute l = Err e
  end.
Lemma open_frames_ok `{QuicCryptoOk} packet : is_bytes packet →
  safe (open_frames packet) ∧ ∀ x, open_frames packet = Ok x → frames_ok x (MkReader packet EOF).
Proof.
  intros Hp. unfold open_frames. pose proof (quic_header_ok packet Hp) as Hh. unfold wp in Hh.
  destruct (quic_header packet _) as [[h r]|e|w]; cbn [mbind result_bind fst]; [|done..].
  destruct (open_packet_safe packet h Hp Hh) as [Hs Hd].
  destruct (open_packet packet h) as [d|e|w]; cbn [mbind result_bind]; [|done..]. specialize (Hd d eq_refl).
  unfold read_frames.
  assert (wp (frames_loop (length d) [] []) frames_ok (MkReader d EOF)) as Hf
    by (apply frames_loop_ok; [done|unfold left_of, len; cbn; lia|constructor|constructor|done]).
  unfold wp in Hf. destruct (frames_loop _ _ _ _) as [[x r']|e|w]; cbn [mbind result_bind]; [|done..].
  split; [done|]. by intros ? [= <-].
Qed.
Lemma empty_hello : ∃ l e, hello_buffer [] = Ok l ∧ Compute l = Err e.
Proof. exists [22; 3; 3; 0; 0], (ParseError LengthErr 3). by split. Qed.
Lemma QUICClientHello_ok `{QuicCryptoOk} m packet :
  context_ok m → is_bytes packet → ∃ m' e, QUICClientHello m packet = Ok (m', e) ∧ context_ok m'.
Proof.
  intros Hc Hp. unfold QUICClientHello. destruct (open_frames_ok packet Hp) as [Hs Hf].
  destruct (open_frames packet) as [[types new]|e|w]; [|by eauto|done]. destruct (Hf _ eq_refl) as (Hnew & Hty & Hnil).
  cbn [fst snd] in *. cbv zeta. set (all := new ++ default [] (sm_Context m)).
  assert (Forall frag_ok all) as Hall.
  { apply Forall_app. split; [done|]. unfold context_ok in Hc. destruct (sm_Context m); [apply Hc|by constructor]. }
  destruct (hello_buffer_ok all Hall) as (l & Hl & Hlb). rewrite Hl. cbn [mbind result_bind].
  pose proof (Compute_safe l Hlb) as Hsafe. destruct (Compute l) as [fp|e|w] eqn:Hcomp; [| |done].
  - assert (types ≠ []) as Hne.
    { intros ->. specialize (Hnil eq_refl). subst new. unfold all, context_ok in *. cbn [app] in *.
      destruct (sm_Context m) as [frs|]; [|destruct empty_hello as (l' & e & Hl' & He); change (hello_buffer [] = Ok l) in Hl; congruence]. destruct Hc as (_ & l' & e & Hl' & He).
      change (hello_buffer frs = Ok l) in Hl. congruence. }
    case_bool_decide; cbn [mbind result_bind]; [|by eexists _, _].
    destruct (client_of_Ok types fp Hne) as [c ->]. by eexists _, _.
  - eexists _, _. split; [done|]. unfold context_ok. cbn. split; [done|]. by exists l, e.
Qed.

(** ** Reassembly

    [hs] is the handshake message of the client; its crypto frames are pieces of
    it. *)

Definition slice_of (hs : list Z) (f : qCryptoFragment) : Prop :=
  0 ≤ f_offset f ∧ 0 ≤ f_length f ∧ f_offset f + f_length f ≤ len hs ∧
  f_payload f = take (Z.to_nat (f_length f)) (drop (Z.to_nat (f_offset f)) hs).
Fixpoint total (fragments : list qCryptoFragment) : Z :=
  match fragments with [] => 0 | f :: l => f_length f + total l end.
Lemma total_nonneg l : Forall (λ f, 0 ≤ f_length f) l → 0 ≤ total l.
Proof. induction 1; cbn; lia. Qed.
Lemma total_app l k : total (l ++ k) = total l + total k.
Proof. induction l as [|f l IH]; cbn; [done|]. rewrite IH. lia. Qed.
#[export] Instance total_perm : Proper (Permutation ==> eq) total.
Proof. intros l k. induction 1; cbn; lia. Qed.
Lemma frame_len_total l : Forall (λ f, 0 ≤ f_length f) l → total l < 2^64 → frame_len l = total l.
Proof.
  intros Hl Ht. unfold frame_len. assert (∀ n, 0 ≤ n → n + total l < 2^64 → foldl (λ n f, u64 (n + f_length f)) n l = n + total l) as Hgo.
  { clear Ht. induction Hl as [|f l Hf Hl IH]; intros n Hn Hb; cbn in *; [lia|]. pose proof (total_nonneg l Hl).
    unfold u64 at 2. rewrite Z.mod_small by lia. rewrite IH; lia. }
  rewrite Hgo; lia.
Qed.

Definition record_header (n : Z) : list Z := 0x16 :: be_split 2 0x0303 ++ be_split 2 (u16 n).
Lemma take_take_drop {A} n m (l : list A) : take n l ++ take m (drop n l) = take (n + m) l.
Proof. revert l. induction n as [|n IH]; intros [|x l]; cbn; rewrite ?take_nil, ?drop_nil, ?take_nil; [done..|]. by rewrite IH. Qed.
(** Whatever pieces there are, the buffer holds a prefix of the message. *)
Lemma assemble_prefix hs hdr fuel n index fragments k :
  Forall (slice_of hs) fragments → len hdr = 5 → len hs < 2^62 → 0 ≤ k → k ≤ n → k ≤ len hs → k = index ∨ k = n →
  match assemble fuel (5 + n) index fragments (hdr ++ take (Z.to_nat k) hs) with
  | Ok l => ∃ k, l = hdr ++ take (Z.to_nat k) hs ∧ 0 ≤ k ≤ n ∧ k ≤ len hs
  | _ => True
  end.
Proof.
  intros Hs Hh Hb. revert index k. induction fuel as [|fuel IH]; intros index k Hk Hn Hl Hi; cbn [assemble];
    destruct (next_fragment index fragments) as [f|] eqn:Hf; [done|by exists k| |by exists k].
  apply next_fragment_Some in Hf as (Hin & Ho & Hpos). destruct (proj1 (Forall_forall _ _) Hs f Hin) as (H0 & H1 & H2 & Hp).
  assert (u64 (f_offset f + f_length f) = f_offset f + f_length f) as -> by (unfold u64; rewrite Z.mod_small; lia).
  assert (len (hdr ++ take (Z.to_nat k) hs) = 5 + k) as Hlen.
  { rewrite len_app, Hh. unfold len in *. rewrite length_take. lia. }
  unfold buf_write. rewrite Hlen. replace (5 + n - (5 + k)) with (n - k) by lia. rewrite Hp, take_take.
  destruct Hi as [->| ->].
  - rewrite Ho, <- app_assoc, take_take_drop. set (d := (Z.to_nat (n - index) `min` Z.to_nat (f_length f))%nat).
    replace (Z.to_nat index + d)%nat with (Z.to_nat (index + Z.of_nat d)) by lia. apply IH; unfold d; lia.
  - rewrite Z.sub_diag, take_0, app_nil_r. apply IH; lia.
Qed.

(** Pieces that do not add up to the message, too few or repeated, are not
    taken for it. *)
Lemma incomplete_hello h fragments :
  hello_ok h → Forall (slice_of (wire_handshake h)) fragments → Forall frag_ok fragments →
  total fragments < 2^16 → total fragments ≠ len (wire_handshake h) →
  ∃ l e, hello_buffer fragments = Ok l ∧ Compute l = Err e.
Proof.
  intros (_ & _ & Hr & _ & _ & _ & _ & Hlen) Hs Hok Ht Hne. destruct (hello_buffer_ok fragments Hok) as (l & Hl & _). exists l.
  assert (Forall (λ f, 0 ≤ f_length f) fragments) as Hpos by (eapply Forall_impl; [done|]; intros f (_ & ? & _); lia).
  pose proof (total_nonneg _ Hpos). set (hs := wire_handshake h) in *. pose proof (len_nonneg hs).
  assert (∃ k, l = record_header (total fragments) ++ take (Z.to_nat k) hs ∧ 0 ≤ k ≤ total fragments ∧ k ≤ len hs) as (k & -> & Hk & Hk').
  { unfold hello_buffer in Hl. rewrite frame_len_total in Hl by (done || lia). fold (record_header (total fragments)) in Hl.
    rewrite <- (app_nil_r (record_header _)) in Hl.
    pose proof (assemble_prefix hs (record_header (total fragments)) (length fragments) (total fragments) 0 fragments 0 Hs eq_refl
      ltac:(lia) ltac:(lia) ltac:(lia) ltac:(lia) ltac:(lia)) as Hp. change (take (Z.to_nat 0) hs) with (@nil Z) in Hp. by rewrite Hl in Hp. }
  rewrite Hl. unfold record_header. rewrite u16_small by lia.
  destruct (be2_word (total fragments)) as (n0 & n1 & -> & Hn & _); [unfold is_word; lia|].
  change (be_split 2 0x0303) with [3; 3]. cbn [app]. set (body := take (Z.to_nat k) hs).
  assert (len body = k) as Hbody by (unfold body, len in *; rewrite length_take; lia).
  assert (unsupported (word 3 3) = false) as Hv by reflexivity.
  unfold Compute, parseSegment, recordLayerHeaderLen. pass. read_bytes. cbn [Z.eqb Pos.eqb negb]. rewrite Hv, Hn.
  change (22 :: 3 :: 3 :: n0 :: n1 :: body) with ([22; 3; 3; n0; n1] ++ body). rewrite from_app by done. cbn [mbind result_bind].
  destruct (len body <? total fragments) eqn:Hlt; [by eexists|]. bool_facts.
  rewrite <- (app_nil_r body), sub_app by (change (len [22; 3; 3; n0; n1]) with 5; lia). cbn [mbind result_bind].
  unfold parseHandshake, handshakeHeaderLen, randomDataLen, sessionIDHeaderLen.
  destruct (len body <? 6 + 32 + 1) eqn:Hsh; [by eexists|]. bool_facts.
  assert (∃ l1 l2 l3 rest, body = 1 :: l1 :: l2 :: l3 :: rest ∧ Z.lor (Z.lor (Z.shiftl l1 16) (Z.shiftl l2 8)) l3 = len (wire_message h))
    as (l1 & l2 & l3 & rest & Hb & H3).
  { unfold body, hs, wire_handshake. destruct (be3_word (len (wire_message h))) as (l1 & l2 & l3 & -> & H3).
    { pose proof (len_nonneg (wire_message h)). revert Hlen. unfold hs, wire_handshake. lens. lia. }
    replace (Z.to_nat k) with (4 + (Z.to_nat k - 4))%nat by lia. cbn [take Nat.add app]. eauto 10. }
  rewrite Hb. read_bytes. cbn [Z.eqb Pos.eqb negb]. rewrite H3. change (1 :: l1 :: l2 :: l3 :: rest) with ([1; l1; l2; l3] ++ rest).
  rewrite from_app by done. cbn [mbind result_bind].
  replace (len rest =? len (wire_message h)) with false; [by eexists|]. symmetry. apply Z.eqb_neq.
  assert (len body = 4 + len rest) by (rewrite Hb; lens; lia).
  assert (len hs = 4 + len (wire_message h)) by (unfold hs, wire_handshake; lens; lia). lia.
Qed.

(** The message cut into pieces, from an offset on. *)
Fixpoint pieces (offset : Z) (parts : list (list Z)) : list qCryptoFragment :=
  match parts with
  | [] => []
  | p :: parts => MkFragment offset (len p) p :: pieces (offset + len p) parts
  end.
Lemma pieces_app offset l k : pieces offset (l ++ k) = pieces offset l ++ pieces (offset + len (concat l)) k.
Proof.
  revert offset. induction l as [|p l IH]; intros offset; cbn [app pieces concat].
  - by rewrite len_nil, Z.add_0_r.
  - rewrite IH, len_app. do 3 f_equal. lia.
Qed.
Lemma pieces_total offset l : total (pieces offset l) = len (concat l).
Proof. revert offset. induction l as [|p l IH]; intros offset; cbn [pieces total concat f_length]; [done|]. by rewrite IH, len_app. Qed.
Lemma pieces_in offset l f : f ∈ pieces offset l →
  ∃ l1 p l2, l = l1 ++ p :: l2 ∧ f = MkFragment (offset + len (concat l1)) (len p) p.
Proof.
  revert offset. induction l as [|p l IH]; intros offset Hf; [by apply not_elem_of_nil in Hf|]. cbn [pieces] in Hf.
  apply elem_of_cons in Hf as [->|Hf]; [exists [], p, l; split; [done|]; cbn; by rewrite len_nil, Z.add_0_r|].
  destruct (IH _ Hf) as (l1 & q & l2 & -> & ->). exists (p :: l1), q, l2. split; [done|]. cbn [concat]. rewrite len_app. f_equal. lia.
Qed.
Lemma concat_middle {A} (l1 l2 : list (list A)) p : concat (l1 ++ p :: l2) = concat l1 ++ p ++ concat l2.
Proof. by rewrite concat_app. Qed.
Lemma pieces_slices parts : Forall (slice_of (concat parts)) (pieces 0 parts).
Proof.
  apply Forall_forall. intros f Hf. destruct (pieces_in _ _ _ Hf) as (l1 & p & l2 & -> & ->). unfold slice_of.
  cbn [f_offset f_length f_payload]. rewrite Z.add_0_l.
  pose proof (len_nonneg (concat l1)). pose proof (len_nonneg p). pose proof (len_nonneg (concat l2)).
  rewrite concat_middle. split_and!; [lia|lia|rewrite !len_app; lia|].
  unfold len. rewrite !Nat2Z.id, drop_app_length, take_app_length. done.
Qed.
Lemma pieces_frag_ok parts : is_bytes (concat parts) → len (concat parts) < 2^16 → Forall frag_ok (pieces 0 parts).
Proof.
  intros Hb Hlen. apply Forall_forall. intros f Hf. destruct (pieces_in _ _ _ Hf) as (l1 & p & l2 & -> & ->).
  rewrite concat_middle in *. unfold is_bytes in Hb. rewrite !Forall_app in Hb. rewrite !len_app in Hlen.
  pose proof (len_nonneg (concat l1)). pose proof (len_nonneg p). pose proof (len_nonneg (concat l2)).
  unfold frag_ok. cbn. split_and!; [lia..|done|apply Hb].
Qed.
Lemma head_bytes (l : list Z) : l ≠ [] → 0 < len l.
Proof. destruct l; [done|]. intros _. rewrite len_cons. pose proof (len_nonneg l). lia. Qed.
(** Nonempty pieces have different offsets. *)
Lemma pieces_ge offset l f : f ∈ pieces offset l → offset ≤ f_offset f.
Proof. intros (l1 & p & l2 & _ & ->)%pieces_in. cbn. pose proof (len_nonneg (concat l1)). lia. Qed.
Lemma pieces_unique offset l f g :
  Forall (λ q, q ≠ []) l → f ∈ pieces offset l → g ∈ pieces offset l → f_offset f = f_offset g → f = g.
Proof.
  intros Hl. revert offset. induction Hl as [|p l Hp Hl IH]; intros offset Hf Hg Ho; [by apply not_elem_of_nil in Hf|].
  cbn [pieces] in *. pose proof (head_bytes p Hp).
  apply elem_of_cons in Hf as [->|Hf], Hg as [->|Hg]; [done|apply pieces_ge in Hg|apply pieces_ge in Hf|by eapply IH]; cbn in *; lia.
Qed.
Lemma pieces_at fragments l1 p l2 :
  fragments ≡ₚ pieces 0 (l1 ++ p :: l2) → Forall (λ q, q ≠ []) (l1 ++ p :: l2) →
  next_fragment (len (concat l1)) fragments = Some (MkFragment (len (concat l1)) (len p) p).
Proof.
  intros Hp Hne. set (f0 := MkFragment (len (concat l1)) (len p) p).
  assert (0 < len p) as Hpos by (apply head_bytes; rewrite Forall_app, Forall_cons in Hne; apply Hne).
  assert (f0 ∈ pieces 0 (l1 ++ p :: l2)) as Hin by (rewrite pieces_app, elem_of_app; right; cbn [pieces]; left).
  unfold next_fragment. destruct (list_find _ fragments) as [[i f]|] eqn:E.
  - apply list_find_Some in E as (Hi & [Ho _] & _). cbn. f_equal. apply list_elem_of_lookup_2 in Hi. rewrite Hp in Hi.
    by eapply pieces_unique.
  - exfalso. apply list_find_None in E. rewrite Forall_forall in E. rewrite <- Hp in Hin. by apply (E f0 Hin).
Qed.
Lemma assemble_pieces hdr fuel fragments l1 l2 :
  fragments ≡ₚ pieces 0 (l1 ++ l2) → Forall (λ q, q ≠ []) (l1 ++ l2) → len hdr = 5 → len (concat (l1 ++ l2)) < 2^16 →
  (length l2 ≤ fuel)%nat →
  assemble fuel (5 + len (concat (l1 ++ l2))) (len (concat l1)) fragments (hdr ++ concat l1) = Ok (hdr ++ concat (l1 ++ l2)).
Proof.
  intros Hp Hne Hh Hb. revert l1 fuel Hp Hne Hb. induction l2 as [|p l2 IH]; intros l1 fuel Hp Hne Hb Hf.
  - rewrite app_nil_r in *. destruct (next_fragment (len (concat l1)) fragments) as [f|] eqn:E; [|by destruct fuel; cbn [assemble]; rewrite E].
    exfalso. apply next_fragment_Some in E as (Hin & Ho & Hpos). rewrite Hp in Hin.
    pose proof (proj1 (Forall_forall _ _) (pieces_slices l1) f Hin) as (_ & _ & ? & _). lia.
  - destruct fuel as [|fuel]; [cbn in Hf; lia|]. cbn [assemble]. rewrite (pieces_at fragments l1 p l2) by done. cbn [f_offset f_length f_payload].
    pose proof (len_nonneg (concat l1)). pose proof (len_nonneg p). pose proof (len_nonneg (concat l2)).
    assert (len (concat (l1 ++ p :: l2)) = len (concat l1) + len p + len (concat l2)) as Hall by (rewrite concat_middle, !len_app; lia).
    unfold u64. rewrite Z.mod_small by lia. unfold buf_write.
    rewrite take_ge by (rewrite len_app, Hh, Hall; unfold len in *; lia).
    replace (l1 ++ p :: l2) with ((l1 ++ [p]) ++ l2) in * by (by rewrite <- app_assoc).
    assert (concat (l1 ++ [p]) = concat l1 ++ p) as Hc by (rewrite concat_app; cbn; by rewrite app_nil_r).
    assert ((hdr ++ concat l1) ++ p = hdr ++ concat (l1 ++ [p])) as -> by (by rewrite Hc, app_assoc).
    replace (len (concat l1) + len p) with (len (concat (l1 ++ [p]))) by (by rewrite Hc, len_app).
    apply IH; [done..|cbn in Hf; lia].
Qed.
Lemma complete_hello h parts fragments :
  hello_ok h → concat parts = wire_handshake h → Forall (λ q, q ≠ []) parts → fragments ≡ₚ pieces 0 parts →
  ∃ l, hello_buffer fragments = Ok l ∧ Compute l = Ok (read_hello h).
Proof.
  intros Hok Hc Hne Hp. pose proof Hok as (_ & _ & _ & _ & _ & _ & _ & Hlen). rewrite <- Hc in Hlen.
  assert (frame_len fragments = len (concat parts)) as Hfl.
  { rewrite frame_len_total; [by rewrite Hp, pieces_total| |rewrite Hp, pieces_total; lia].
    rewrite Hp. eapply Forall_impl; [apply pieces_slices|]. by intros f (_ & ? & _). }
  unfold hello_buffer. rewrite Hfl. fold (record_header (len (concat parts))).
  exists (record_header (len (concat parts)) ++ concat parts). split.
  - pose proof (assemble_pieces (record_header (len (concat parts))) (length fragments) fragments [] parts) as Ha.
    rewrite app_nil_r in Ha. apply Ha; [done..|].
    rewrite Hp. clear. generalize 0. induction parts as [|p l IH]; intros o; cbn; [done|]. specialize (IH (o + len p)). lia.
  - unfold record_header. rewrite u16_small by (pose proof (len_nonneg (concat parts)); lia). rewrite Hc.
    apply (Compute_record 0x0303); [unfold is_word; lia|done|done].
Qed.

(** ** Several packets *)

Fixpoint sniff_packets `{QuicCrypto} (m : SniffMeta) (packets : list (list Z)) : result (SniffMeta * list (option error)) :=
  match packets with
  | [] => Ok (m, [])
  | packet :: packets => x ← QUICClientHello m packet; y ← sniff_packets x.1 packets; Ok (y.1, x.2 :: y.2)
  end.
Definition need_more (e : option error) : Prop := ∃ cause, e = Some (NeedMoreData cause).
(** [packet] opens and carries the crypto frames [fs], one at least. *)
Definition carries `{QuicCrypto} (packet : list Z) (fs : list qCryptoFragment) : Prop :=
  is_bytes packet ∧ fs ≠ [] ∧ ∃ types, open_frames packet = Ok (types, fs).

Lemma total_pos l : l ≠ [] → Forall (λ f, 0 < f_length f) l → 0 < total l.
Proof.
  intros Hn Hl. destruct Hl as [|f l Hf Hl]; [done|]. cbn.
  assert (0 ≤ total l) by (apply total_nonneg; eapply Forall_impl; [done|]; cbn; lia). lia.
Qed.
Lemma pieces_positive parts : Forall (λ q, q ≠ []) parts → Forall (λ f, 0 < f_length f) (pieces 0 parts).
Proof.
  intros Hne. apply Forall_forall. intros f (l1 & p & l2 & -> & ->)%pieces_in. apply head_bytes.
  rewrite Forall_app, Forall_cons in Hne. apply Hne.
Qed.
Lemma sniff_step `{QuicCryptoOk} h parts m packet fs rest :
  hello_ok h → concat parts = wire_handshake h → Forall (λ q, q ≠ []) parts → carries packet fs →
  Forall frag_ok (default [] (sm_Context m)) → (fs ++ default [] (sm_Context m)) ++ rest ≡ₚ pieces 0 parts →
  match rest with
  | [] => ∃ m', QUICClientHello m packet = Ok (m', None) ∧ sm_Protocol m' = "quic"%string ∧
                sm_Domain m' = string_of (ServerName (read_hello h))
  | _ :: _ => ∃ e, QUICClientHello m packet =
                Ok (MkSniff "quic" (sm_Domain m) (sm_Client m) (Some (fs ++ default [] (sm_Context m))), Some (NeedMoreData e))
  end ∧ Forall frag_ok fs.
Proof.
  intros Hok Hc Hne (Hb & Hfs & types & Ho) Hctx Hp. destruct (open_frames_ok packet Hb) as [_ Hf].
  destruct (Hf _ Ho) as (Hfr & _ & Hnil). cbn [fst snd] in *. split; [|done].
  unfold QUICClientHello. rewrite Ho. cbv zeta. set (all := fs ++ default [] (sm_Context m)) in *.
  destruct rest as [|g rest].
  - rewrite app_nil_r in Hp. destruct (complete_hello h parts all Hok Hc Hne Hp) as (l & -> & Hl). cbn [mbind result_bind].
    rewrite Hl. assert (types ≠ []) as Ht by (intros ->; by rewrite Hnil in Hfs). destruct (client_of_Ok types (read_hello h) Ht) as [c Hcl].
    case_bool_decide; rewrite ?Hcl; cbn [mbind result_bind]; by eexists.
  - pose proof Hok as (_ & _ & _ & _ & _ & _ & _ & Hlen). rewrite <- Hc in Hlen.
    pose proof (pieces_positive parts Hne) as Hpos. rewrite <- Hp in Hpos. apply Forall_app in Hpos as [Hpa Hpg].
    assert (total all + total (g :: rest) = len (concat parts)) as Ht by (by rewrite <- total_app, Hp, pieces_total).
    pose proof (total_pos (g :: rest) ltac:(done) Hpg).
    destruct (incomplete_hello h all) as (l & e & -> & He); [done|..].
    + pose proof (pieces_slices parts) as Hs. rewrite <- Hp, Hc in Hs. by apply Forall_app in Hs as [? _].
    + apply Forall_app. by split.
    + lia.
    + rewrite <- Hc. lia.
    + cbn [mbind result_bind]. rewrite He. by eexists.
Qed.
Lemma sniff_sequence `{QuicCryptoOk} h parts packets frames m :
  hello_ok h → concat parts = wire_handshake h → Forall (λ q, q ≠ []) parts →
  Forall2 carries packets frames → packets ≠ [] → Forall frag_ok (default [] (sm_Context m)) →
  concat frames ++ default [] (sm_Context m) ≡ₚ pieces 0 parts →
  ∃ m' errs, sniff_packets m packets = Ok (m', errs ++ [None]) ∧ length errs = pred (length packets) ∧ Forall need_more errs ∧
    sm_Protocol m' = "quic"%string ∧ sm_Domain m' = string_of (ServerName (read_hello h)).
Proof.
  intros Hok Hc Hne HF. revert m. induction HF as [|packet fs packets frames Hca HF IH]; intros m Hn Hctx Hp; [done|].
  assert ((fs ++ default [] (sm_Context m)) ++ concat frames ≡ₚ pieces 0 parts) as Hp'.
  { rewrite <- Hp. cbn [concat]. rewrite <- !app_assoc. apply Permutation_app_head, Permutation_app_comm. }
  destruct (sniff_step h parts m packet fs (concat frames) Hok Hc Hne Hca Hctx Hp') as [Hs Hfs]. cbn [sniff_packets].
  destruct HF as [|packet' fs' packets frames Hca' HF].
  - destruct Hs as (m' & -> & H1 & H2). cbn. exists m', []. split_and!; [done..|constructor|done|done].
  - assert (concat (fs' :: frames) ≠ []) as Hnn.
    { cbn. destruct Hca' as (_ & Hx & _). by destruct fs'. }
    destruct (concat (fs' :: frames)) as [|g rest] eqn:E; [done|]. rewrite <- E in *. destruct Hs as [e ->]. cbn [mbind result_bind fst].
    destruct (IH (MkSniff "quic" (sm_Domain m) (sm_Client m) (Some (fs ++ default [] (sm_Context m))))) as (m' & errs & -> & Hl & Herr & H1 & H2).
    + done.
    + cbn. apply Forall_app. by split.
    + cbn [sm_Context default]. rewrite <- Hp', Permutation_app_comm. done.
    + cbn. exists m', (Some (NeedMoreData e) :: errs). split_and!; [done|cbn in *; lia| |done|done]. constructor; [by eexists|done].
Qed.

(** (C19) A hello split over packets is read in any order.  When the crypto
    frames of several packets are the pieces of one client hello, in any order
    and distributed over the packets in any way, every packet but the last asks
    for more data, and the last one gives the server name of the hello. *)
Theorem quic_hello_reassembled `{QuicCryptoOk} h parts packets frames m :
  hello_ok h → concat parts = wire_handshake h → Forall (λ q, q ≠ []) parts →
  Forall2 carries packets frames → concat frames ≡ₚ pieces 0 parts → sm_Context m = None →
  ∃ m' errs, sniff_packets m packets = Ok (m', errs ++ [None]) ∧ length errs = pred (length packets) ∧ Forall need_more errs ∧
    sm_Protocol m' = "quic"%string ∧ sm_Domain m' = string_of (ServerName (read_hello h)).
Proof.
  intros Hok Hc Hne HF Hp Hm. eapply sniff_sequence; [done..| |rewrite Hm; constructor|rewrite Hm; by rewrite app_nil_r].
  intros ->. apply Forall2_nil_inv_l in HF. subst frames. apply Permutation_nil in Hp.
  destruct parts; [|done]. by apply (f_equal length) in Hc.
Qed.

(** A piece that arrives twice spoils the hello: the length announced to the
    parser counts both copies, so the message is asked for as incomplete, now
    and, since the fragments are kept, after every later packet. *)
Lemma repeated_piece_spoils h m packet fs types :
  ∀ `{QuicCrypto}, hello_ok h → open_frames packet = Ok (types, fs) →
  let all := fs ++ default [] (sm_Context m) in
  Forall (slice_of (wire_handshake h)) all → Forall frag_ok all → len (wire_handshake h) < total all < 2^16 →
  ∃ e, QUICClientHello m packet = Ok (MkSniff "quic" (sm_Domain m) (sm_Client m) (Some all), Some (NeedMoreData e)).
Proof.
  intros Hq Hok Ho all Hs Hf Ht. unfold QUICClientHello. rewrite Ho. cbv zeta. fold all.
  destruct (incomplete_hello h all Hok Hs Hf) as (l & e & -> & He); [lia|lia|]. cbn [mbind result_bind]. rewrite He. by eexists.
Qed.

(** *** Examples *)

(** A packet without protection: the frames follow the header in the clear. *)
Definition clear_crypto : QuicCrypto := {|
  Extract _ _ := []; Expand _ _ n := replicate n 0; AesEncrypt _ _ := replicate 16 0; GcmOpen _ _ data _ := Some (Z.land 255 <$> data)
|}.
Lemma clear_crypto_ok : @QuicCryptoOk clear_crypto.
Proof.
  split; cbn; [intros; split; [done|]; by repeat (constructor; [unfold is_byte; lia|])|].
  intros key nonce data aad plain [= <-]. apply Forall_fmap, Forall_true. intros x. unfold is_byte, compose.
  pose proof (Z.land_ones x 8 ltac:(lia)) as Hl. rewrite Z.land_comm in Hl. change (Z.ones 8) with 255 in Hl. rewrite Hl.
  apply Z.mod_pos_bound. lia.
Qed.
Definition varint2 (x : Z) : list Z := [64 + x / 256; x `mod` 256].
Definition clear_packet (offset : Z) (payload : list Z) : list Z :=
  let frames := 0x06 :: varint2 offset ++ varint2 (len payload) ++ payload ++ replicate 20 0 in
  [0xc0; 0; 0; 0; 1; 8; 1; 2; 3; 4; 5; 6; 7; 8; 0; 0] ++ varint2 (1 + len frames) ++ 0 :: frames.
Definition parts0 : list (list Z) := [take 30 (wire_handshake hello0); drop 30 (wire_handshake hello0)].
Definition packets0 : list (list Z) := [clear_packet 30 (nth 1 parts0 []); clear_packet 0 (nth 0 parts0 [])].
Lemma is_bytes_forallb l : forallb (λ b, (0 <=? b) && (b <? 2^8)) l = true → is_bytes l.
Proof.
  intros Hl. apply Forall_forall. intros b Hb%list_elem_of_In. rewrite forallb_forall in Hl. specialize (Hl b Hb).
  apply andb_true_iff in Hl as [?%Z.leb_le ?%Z.ltb_lt]. done.
Qed.
Lemma hello0_ok : hello_ok hello0.
Proof.
  assert (∀ l, forallb (λ w, (0 <=? w) && (w <? 2^16)) l = true → Forall is_word l) as Hw.
  { intros l Hl. apply Forall_forall. intros b Hb%list_elem_of_In. rewrite forallb_forall in Hl. specialize (Hl b Hb).
    apply andb_true_iff in Hl as [?%Z.leb_le ?%Z.ltb_lt]. done. }
  unfold hello_ok. split_and!; try done; [by apply Hw|].
  repeat (constructor; [split; [done|]|]); try constructor; try done; try (by apply Hw); try (by left); try (by right).
  cbn. rewrite !not_elem_of_cons. split_and!; try done. apply not_elem_of_nil.
Qed.
Lemma quic_hello_reassembled_witness :
  ∃ m' errs, @sniff_packets clear_crypto (MkSniff "" "" "" None) packets0 = Ok (m', errs ++ [None]) ∧
    length errs = 1%nat ∧ Forall need_more errs ∧ sm_Protocol m' = "quic"%string ∧ sm_Domain m' = "a.b"%string.
Proof.
  apply (@quic_hello_reassembled clear_crypto clear_crypto_ok hello0 parts0 packets0
    [[MkFragment 30 (len (nth 1 parts0 [])) (nth 1 parts0 [])]; [MkFragment 0 (len (nth 0 parts0 [])) (nth 0 parts0 [])]]).
  - exact hello0_ok.
  - vm_compute. reflexivity.
  - repeat constructor; done.
  - constructor; [|constructor; [|constructor]]; (split; [by apply is_bytes_forallb; vm_compute|split; [done|]]);
      eexists; vm_compute; reflexivity.
  - vm_compute. apply Permutation_swap.
  - reflexivity.
Defined.
