(* ===== verification/Sniff.v ===== *)
(** * Protocol sniffers: [src/common/sniff]

    A sniffer looks at the first bytes of a connection and, when it knows the
    protocol, writes it with a domain and a client into the metadata; otherwise
    it fails, with [ErrNeedMoreData] when more bytes could decide.  The sniffers
    and [PeekPacket] and [PeekStream], which try them, are modelled over byte
    lists; the connection is the list of what its reads will give.  The TLS, HTTP
    and DNS parsers are parameters. *)

From S2P Require Import Prelude GoStrings NetAddr RuleContext Bytes Slices Ja3 DnsActions DnsCache Quic.

Local Open Scope Z_scope.
Local Open Scope reader_scope.

(** ** The libraries *)

Class SniffLib := {
  sl_message :: MessageLib;
  sl_crypto :: QuicCrypto;
  http_ReadRequest : list Z → result string;              (* the host of the request *)
  tls_hello : list Z → option string * option error;      (* the server name, the error of the handshake *)
  ParseFqdn : string → string;                            (* M.ParseSocksaddr(host).Fqdn *)
  ParseHostFqdn : string → string;                        (* M.ParseSocksaddrHostPort(host, 0).Fqdn *)
  UDPBufferSize : nat;                                    (* the size of buf.NewPacket() *)
}.
Class SniffLibOk `{SniffLib} : Prop := {
  sl_crypto_ok :: QuicCryptoOk;
  http_no_panic l : safe (http_ReadRequest l);
}.

(** [errors.Is]. *)
Fixpoint is_error (text : string) (e : error) : bool :=
  match e with
  | ENew m => bool_decide (m = text)
  | EStd m => bool_decide (m = text)
  | EWrap f c => bool_decide (f = text) || is_error text c
  | EFmt _ _ => false
  end.
Definition is_need_more (e : error) : bool := is_error "need more data" e.
Definition is_unexpected (e : error) : bool := is_error "unexpected EOF" e.
(** A joined error of [E.Errors]: [nil] when there is none. *)
Definition needs_more (l : list error) : bool := existsb is_need_more l.

Definition outcome : Type := result (SniffMeta * option error).
Definition PacketSniffer : Type := SniffMeta → list Z → outcome.
Definition StreamSniffer : Type := SniffMeta → list (list Z) → outcome.
Definition set_protocol (protocol : string) (m : SniffMeta) : SniffMeta :=
  MkSniff protocol (sm_Domain m) (sm_Client m) (sm_Context m).
Definition found (protocol : string) (m : SniffMeta) : outcome := Ok (set_protocol protocol m, None).
Definition failed (e : error) (m : SniffMeta) : outcome := Ok (m, Some e).

(** ** Packets *)

Definition STUNMessage : PacketSniffer := λ m packet,
  if len packet <? 20 then failed ErrInvalid m
  else
    b ← sub packet 4 8; cookie ← BigEndian 4 b;
    if negb (cookie =? 0x2112A442) then failed ErrInvalid m
    else
      b ← sub packet 2 4; length ← BigEndian 2 b;
      if len packet <? 20 + length then failed ErrInvalid m else found "stun" m.

Definition DTLSRecord : PacketSniffer := λ m packet,
  if len packet <? 13 then failed ErrInvalid m
  else
    contentType ← idx packet 0;
    if negb (bool_decide (contentType ∈ [20; 21; 22; 23; 25])) then failed ErrInvalid m
    else
      versionMajor ← idx packet 1;
      if negb (versionMajor =? 0xfe) then failed ErrInvalid m
      else
        versionMinor ← idx packet 2;
        if negb (versionMinor =? 0xff) && negb (versionMinor =? 0xfd) then failed ErrInvalid m else found "dtls" m.

(** The comparisons with 16.0 are exact: a [uint32] divided by 2^16 is a
    [float64]. *)
Definition NTP : PacketSniffer := λ m packet,
  if len packet <? 48 then failed ErrInvalid m
  else
    firstByte ← idx packet 0;
    let li := Z.land (Z.shiftr firstByte 6) 0x03 in
    let vn := Z.land (Z.shiftr firstByte 3) 0x07 in
    let mode := Z.land firstByte 0x07 in
    if 3 <? li then failed ErrInvalid m
    else if negb (vn =? 3) && negb (vn =? 4) then failed ErrInvalid m
    else if negb (mode =? 3) then failed ErrInvalid m
    else
      b ← sub packet 4 8; rootDelay ← BigEndian 4 b;
      b ← sub packet 8 12; rootDispersion ← BigEndian 4 b;
      if 16 * 65536 <? rootDelay then failed ErrInvalid m
      else if 16 * 65536 <? rootDispersion then failed ErrInvalid m
      else found "ntp" m.

(** The extensions of a uTP packet: each names the next. *)
Fixpoint utp_extensions (fuel : nat) (extension : Z) : R unit := λ r,
  if extension =? 0 then Ok (tt, r)
  else
    match fuel with
    | O => Panic out_of_fuel
    | S fuel =>
        (extension <- ReadUint8;
         if 0x04 <? extension then r_fail ErrInvalid
         else length <- ReadUint8; _ <- Seek length; utp_extensions fuel extension) r
    end.
Definition UTP : PacketSniffer := λ m packet,
  if len packet <? 20 then failed ErrInvalid m
  else
    b ← idx packet 0;
    let version := Z.land b 0x0F in
    let ty := Z.shiftr b 4 in
    if negb (version =? 1) || (4 <? ty) then failed ErrInvalid m
    else
      extension ← idx packet 1;
      rest ← from packet 20;
      match utp_extensions (S (length rest)) extension (MkReader rest EOF) with
      | Ok _ => found "bittorrent" m
      | Err e => failed e m
      | Panic w => Panic w
      end.

Definition trackerProtocolID : Z := 0x41727101980.
Definition UDPTracker : PacketSniffer := λ m packet,
  if len packet <? 16 then failed ErrInvalid m
  else
    b ← sub packet 0 8; id ← BigEndian 8 b;
    if negb (id =? trackerProtocolID) then failed ErrInvalid m
    else
      b ← sub packet 8 12; action ← BigEndian 4 b;
      if negb (action =? 0) then failed ErrInvalid m else found "bittorrent" m.

Section lib.
Context `{SniffLib}.

(** A message that is not a query is no error: [return err] with [err == nil]. *)
Definition DomainNameQuery : PacketSniffer := λ m packet,
  match Unpack packet with
  | None => failed (EStd "dns: unpack") m
  | Some msg =>
      if msg_Response msg || bool_decide (msg_Question msg = []) || negb (bool_decide (msg_Answer msg = [])) ||
         negb (bool_decide (msg_Ns msg = []))
      then Ok (m, None)
      else found "dns" m
  end.

(** ** Streams *)

(** [io.MultiReader] over the buffers: a read stops at the end of a buffer. *)
Fixpoint read_once (n : nat) (chunks : list (list Z)) : option (list Z * list (list Z)) :=
  match chunks with
  | [] => None
  | [] :: chunks => read_once n chunks
  | c :: chunks => Some (take n c, drop n c :: chunks)
  end.
Definition reader_of (chunks : list (list Z)) : Reader := MkReader (concat chunks) EOF.
(** A read whose failure is a wish for more data. *)
Definition want {A} (x : R A) : R A := λ r,
  match x r with Err e => Err (NeedMoreData e) | x => x end.
Definition conclude (protocol : string) (m : SniffMeta) (r : result (unit * Reader)) : outcome :=
  match r with Ok _ => found protocol m | Err e => failed e m | Panic w => Panic w end.

Definition expect (b : bool) (k : R unit) : R unit := if b then k else r_fail ErrInvalid.
Definition rdp_read : R unit :=
  tpktVersion <- want ReadUint8;
  expect (tpktVersion =? 0x03) (
  tpktReserved <- want ReadUint8;
  expect (tpktReserved =? 0x00) (
  tpktLength <- want (ReadFull 2);
  expect (be_combine tpktLength =? 19) (
  cotpLength <- want ReadUint8;
  expect (cotpLength =? 14) (
  cotpTpduType <- want ReadUint8;
  expect (cotpTpduType =? 0xE0) (
  _ <- want (CopyN 5);
  rdpType <- want ReadUint8;
  expect (rdpType =? 0x01) (
  rdpFlags <- want ReadUint8;
  rdpLength <- want ReadUint8;
  expect (rdpLength =? 8) (r_ret tt))))))).
Definition RDP : StreamSniffer := λ m chunks, conclude "rdp" m (rdp_read (reader_of chunks)).

Definition BitTorrent : StreamSniffer := λ m chunks,
  match read_once 1 chunks with
  | None => failed (NeedMoreData EOF) m
  | Some (first, chunks) =>
      if negb (bool_decide (first = [19])) then failed ErrInvalid m
      else
        let header := bytes_of "BitTorrent protocol" in
        match read_once 19 chunks with
        | None => failed (NeedMoreData EOF) m
        | Some (protocol, _) =>
            if negb (bool_decide (protocol = take (length protocol) header)) then failed ErrInvalid m
            else if (length protocol <? 19)%nat then failed ErrNeedMoreData m
            else found "bittorrent" m
        end
  end.

(** [bufio.Reader.ReadLine] on a reader of the default size. *)
Definition bufio_size : nat := 4096.
Definition trim_cr (l : list Z) : list Z :=
  match last l with Some 13 => take (length l - 1) l | _ => l end.
Definition ReadLine (l : list Z) : option (list Z) :=
  match list_find (λ b, b = 10) (take bufio_size l) with
  | Some (i, _) => Some (trim_cr (take i l))
  | None =>
      if (bufio_size <=? length l)%nat then Some (trim_cr (take bufio_size l))
      else if bool_decide (l = []) then None else Some l
  end.
Definition sshPrefix : list Z := bytes_of "SSH-2.0-".
Definition SSH : StreamSniffer := λ m chunks,
  let data := concat chunks in
  let prefix := take 8 data in
  if negb (bool_decide (prefix = take (length prefix) sshPrefix)) then failed ErrInvalid m
  else if (length prefix <? 8)%nat then failed (NeedMoreData EOF) m
  else
    match ReadLine data with
    | None => failed EOF m
    | Some line => client ← from line 8; Ok (MkSniff "ssh" (sm_Domain m) (string_of client) (sm_Context m), None)
    end.

Definition HTTPHost : StreamSniffer := λ m chunks,
  match http_ReadRequest (concat chunks) with
  | Ok host => Ok (MkSniff "http" (ParseFqdn host) (sm_Client m) (sm_Context m), None)
  | Err e => if is_unexpected e then failed (NeedMoreData e) m else failed e m
  | Panic w => Panic w
  end.
Definition TLSClientHello : StreamSniffer := λ m chunks,
  match tls_hello (concat chunks) with
  | (Some name, _) => Ok (MkSniff "tls" (ParseHostFqdn name) (sm_Client m) (sm_Context m), None)
  | (None, Some e) => if is_unexpected e then failed (NeedMoreData e) m else failed e m
  | (None, None) => Ok (m, None)
  end.

(** What is wrong with the first bytes of a DNS message over a stream, as far as
    they are there. *)
Definition byte_at (l : list Z) (i : nat) : Z := nth i l 0.
Definition bad_query (packet : list Z) : bool :=
  let n := length packet in
  (2 <? n)%nat && negb (Z.land (byte_at packet 2) 0x80 =? 0) ||
  (5 <? n)%nat && (byte_at packet 4 =? 0) && (byte_at packet 5 =? 0) ||
  existsb (λ i, (i <? n)%nat && negb (byte_at packet i =? 0)) [6; 7; 8; 9]%nat.
Definition StreamDomainNameQuery : StreamSniffer := λ m chunks,
  match ReadFull 2 (reader_of chunks) with
  | Err e => failed (NeedMoreData e) m
  | Panic w => Panic w
  | Ok (l, r) =>
      let length := be_combine l in
      if length <? 12 then failed ErrInvalid m
      else
        let packet := take (Z.to_nat length) (rd_bytes r) in
        if bad_query packet then failed ErrInvalid m
        else if len packet <? length
        then failed (NeedMoreData (if bool_decide (packet = []) then EOF else ErrUnexpectedEOF)) m
        else DomainNameQuery m packet
  end.

(** ** Trying them *)

Fixpoint try_all (input : Type) (sniffers : list (SniffMeta → input → outcome)) (m : SniffMeta) (x : input) (errs : list error) :
    result (SniffMeta * list error) :=
  match sniffers with
  | [] => Ok (m, errs)
  | sniffer :: sniffers =>
      r ← sniffer m x;
      match r.2 with None => Ok (r.1, []) | Some e => try_all input sniffers r.1 x (errs ++ [e]) end
  end.
Definition PeekPacket (m : SniffMeta) (packet : list Z) (sniffers : list PacketSniffer) : result (SniffMeta * list error) :=
  try_all (list Z) sniffers m packet [].

(** What the reads of a connection will give; a dead one cannot set a deadline.
    At the end of the list they time out. *)
Inductive conn_event := ConnData (b : Z) (l : list Z) | ConnErr (e : error) | ConnDead (e : error).
Definition conn : Type := list conn_event.
Definition errTimeout : error := EStd "i/o timeout".
Definition ErrShortBuffer : error := EStd "short buffer".
(** [buffer.ReadOnceFrom(conn)] with [free] bytes of room. *)
Definition read_from (free : nat) (c : conn) : result (list Z) * conn :=
  match free, c with
  | O, _ => (Err ErrShortBuffer, c)
  | _, [] => (Err errTimeout, [])
  | _, ConnData b l :: c => (Ok (take free (b :: l)), match drop free (b :: l) with [] => c | b :: l => ConnData b l :: c end)
  | _, ConnErr e :: c => (Err e, c)
  | _, ConnDead e :: _ => (Err e, c)
  end.

Record peeked := MkPeeked { pk_meta : SniffMeta; pk_conn : conn; pk_buffer : list Z; pk_errors : list error }.
Fixpoint peek_loop (fuel : nat) (first : bool) (sniffError : list error) (m : SniffMeta) (c : conn) (buffers : list (list Z))
    (buffer : list Z) (sniffers : list StreamSniffer) : result peeked :=
  match fuel with
  | O => Panic out_of_fuel
  | S fuel =>
      match c with
      | ConnDead e :: _ => Ok (MkPeeked m c buffer [EWrap "set read deadline" e])
      | _ =>
          match read_from (UDPBufferSize - length buffer) c with
          | (Ok data, c) =>
              let buffer := buffer ++ data in
              x ← try_all (list (list Z)) sniffers m (buffers ++ [buffer]) [];
              if needs_more x.2 then peek_loop fuel false x.2 x.1 c buffers buffer sniffers
              else Ok (MkPeeked x.1 c buffer x.2)
          | (Err e, c) => Ok (MkPeeked m c buffer (if first then [EWrap "read payload" e] else sniffError))
          | (Panic w, _) => Panic w
          end
      end
  end.
(** [PeekStream]: every round reads a byte at least, so it ends when the buffer
    is full. *)
Definition PeekStream (m : SniffMeta) (c : conn) (buffers : list (list Z)) (sniffers : list StreamSniffer) : result peeked :=
  peek_loop (S UDPBufferSize) true [] m c buffers [] sniffers.
End lib.

(** [Skip]: protocols in which the server speaks first. *)
Definition Skip (port : Z) : bool := bool_decide (port ∈ [25; 465; 587; 143; 993; 110; 995]).

(** ** No input makes a sniffer panic *)

(** A sniffer comes back from every input of a kind, and keeps the context. *)
Definition total_on {input} (P : input → Prop) (sniffer : SniffMeta → input → outcome) : Prop :=
  ∀ m x, P x → context_ok m → ∃ m' e, sniffer m x = Ok (m', e) ∧ context_ok m'.
Lemma found_ok protocol m : context_ok m → ∃ m' e, found protocol m = Ok (m', e) ∧ context_ok m'.
Proof. intros Hm. by eexists _, _. Qed.
Lemma failed_ok e m : context_ok m → ∃ m' e', failed e m = Ok (m', e') ∧ context_ok m'.
Proof. intros Hm. by eexists _, _. Qed.
Lemma outcome_ok m (o : outcome) :
  safe o → (∀ m' e, o = Ok (m', e) → sm_Context m' = sm_Context m) → (∀ e, o ≠ Err e) → context_ok m →
  ∃ m' e, o = Ok (m', e) ∧ context_ok m'.
Proof.
  intros Hs Hc He Hm. destruct o as [[m' e]|e|w]; [|by destruct (He e)|done]. exists m', e. split; [done|].
  unfold context_ok. by rewrite (Hc _ _ eq_refl).
Qed.
(** A parser that only looks at bytes and then decides. *)
Definition decides (m : SniffMeta) (o : outcome) : Prop := ∃ m' e, o = Ok (m', e) ∧ sm_Context m' = sm_Context m.
Lemma decides_found protocol m : decides m (found protocol m).
Proof. by eexists _, _. Qed.
Lemma decides_failed e m : decides m (failed e m).
Proof. by eexists _, _. Qed.
Lemma decides_if m (b : bool) x y : (b = true → decides m x) → (b = false → decides m y) → decides m (if b then x else y).
Proof. destruct b; auto. Qed.
Lemma decides_idx m l i f : is_bytes l → 0 ≤ i < len l → (∀ b, is_byte b → decides m (f b)) → decides m (idx l i ≫= f).
Proof. intros Hl Hi Hf. rewrite idx_Ok by done. apply Hf. auto with slices. Qed.
Lemma decides_sub m l i j f :
  is_bytes l → 0 ≤ i ≤ j → j ≤ len l → (∀ l', is_bytes l' → len l' = j - i → decides m (f l')) → decides m (sub l i j ≫= f).
Proof. intros Hl Hi Hj Hf. rewrite sub_Ok by done. apply Hf; [auto with slices|by apply len_take_drop]. Qed.
Lemma decides_from m l i f :
  is_bytes l → 0 ≤ i ≤ len l → (∀ l', is_bytes l' → len l' = len l - i → decides m (f l')) → decides m (from l i ≫= f).
Proof. intros Hl Hi Hf. rewrite from_Ok by done. apply Hf; [auto with slices|by apply len_drop]. Qed.
Lemma decides_BigEndian m n l f : is_bytes l → 0 ≤ n ≤ len l → (∀ x, 0 ≤ x → decides m (f x)) → decides m (BigEndian n l ≫= f).
Proof.
  intros Hl Hn Hf. unfold BigEndian. rewrite sub_Ok by lia. apply Hf, be_combine_bound. auto with slices.
Qed.
Ltac decide_step := lazymatch goal with
  | |- decides _ (found _ _) => apply decides_found
  | |- decides _ (failed _ _) => apply decides_failed
  | |- decides _ (idx _ _ ≫= _) => apply decides_idx; [solve [eauto with slices]|slice_lia|intros]
  | |- decides _ (sub _ _ _ ≫= _) => apply decides_sub; [solve [eauto with slices]|slice_lia|slice_lia|intros]
  | |- decides _ (from _ _ ≫= _) => apply decides_from; [solve [eauto with slices]|slice_lia|intros]
  | |- decides _ (BigEndian _ _ ≫= _) => apply decides_BigEndian; [solve [eauto with slices]|slice_lia|intros]
  | |- decides _ (if _ then _ else _) => apply decides_if; intros
  | |- decides _ (let _ := _ in _) => cbv zeta
  end.
Lemma total_decides {input} (P : input → Prop) sniffer : (∀ m x, P x → decides m (sniffer m x)) → total_on P sniffer.
Proof.
  intros Hd m x Hx Hm. destruct (Hd m x Hx) as (m' & e & -> & Hc). exists m', e. split; [done|]. unfold context_ok. by rewrite Hc.
Qed.

Lemma utp_extensions_ok fuel extension r Q :
  is_bytes (rd_bytes r) → (rd_len r < fuel)%nat → (∀ u r', Q u r') → wp (utp_extensions fuel extension) Q r.
Proof.
  intros Hr Hf HQ. revert extension r Hr Hf. induction fuel as [|fuel IH]; intros extension r Hr Hf; [lia|].
  unfold wp. cbn [utp_extensions]. destruct (extension =? 0); [apply HQ|].
  lazymatch goal with |- match ?m r with _ => _ end => change (wp m Q r) end. unfold ReadUint8.
  do 4 wp_step. wp_step; [apply wp_fail|]. do 4 wp_step.
  assert (0 ≤ be_combine l0) by (by apply be_combine_bound). do 2 wp_step.
  apply IH; [by eapply after_bytes|]. lefts. unfold left_of, len, rd_len in *. lia.
Qed.
Lemma STUNMessage_total : total_on is_bytes STUNMessage.
Proof. apply total_decides. intros m packet Hp. unfold STUNMessage. repeat decide_step. Qed.
Lemma DTLSRecord_total : total_on is_bytes DTLSRecord.
Proof. apply total_decides. intros m packet Hp. unfold DTLSRecord. repeat decide_step. Qed.
Lemma NTP_total : total_on is_bytes NTP.
Proof. apply total_decides. intros m packet Hp. unfold NTP. repeat decide_step. Qed.
Lemma UDPTracker_total : total_on is_bytes UDPTracker.
Proof. apply total_decides. intros m packet Hp. unfold UDPTracker. repeat decide_step. Qed.
Lemma UTP_total : total_on is_bytes UTP.
Proof.
  apply total_decides. intros m packet Hp. unfold UTP. repeat decide_step.
  pose proof (utp_extensions_ok (S (length l')) b0 (MkReader l' EOF) (λ _ _, True)) as Hu. unfold wp in Hu.
  destruct (utp_extensions _ _ _); [apply decides_found|apply decides_failed|]. destruct Hu; [done|unfold rd_len; cbn; lia|done].
Qed.

Section total.
Context `{SniffLibOk}.

Lemma DomainNameQuery_total : total_on is_bytes DomainNameQuery.
Proof.
  apply total_decides. intros m packet Hp. unfold DomainNameQuery. destruct (Unpack packet); [|apply decides_failed].
  destruct (_ || _); [by eexists _, _|apply decides_found].
Qed.
Lemma QUICClientHello_total : total_on is_bytes QUICClientHello.
Proof. intros m packet Hp Hm. by apply QUICClientHello_ok. Qed.

(** [defaultPacketSniffers] of the router. *)
Definition defaultPacketSniffers : list PacketSniffer :=
  [DomainNameQuery; QUICClientHello; STUNMessage; UTP; UDPTracker; DTLSRecord; NTP].
Definition defaultStreamSniffers : list StreamSniffer :=
  [TLSClientHello; HTTPHost; StreamDomainNameQuery; BitTorrent; SSH; RDP].
Lemma packet_sniffers_ok : Forall (total_on is_bytes) defaultPacketSniffers.
Proof.
  repeat constructor; auto using DomainNameQuery_total, QUICClientHello_total, STUNMessage_total, UTP_total, UDPTracker_total,
    DTLSRecord_total, NTP_total.
Qed.

Definition bytes_chunks (chunks : list (list Z)) : Prop := is_bytes (concat chunks).
Lemma wp_want {A} (x : R A) Q r : wp x Q r → wp (want x) Q r.
Proof. unfold wp, want. by destruct (x r). Qed.
Lemma conclude_decides protocol m (x : R unit) r : wp x (λ _ _, True) r → decides m (conclude protocol m (x r)).
Proof. unfold wp, conclude. destruct (x r); [intros _; apply decides_found|intros _; apply decides_failed|done]. Qed.
Lemma RDP_total : total_on bytes_chunks RDP.
Proof.
  apply total_decides. intros m chunks Hc. apply conclude_decides. unfold rdp_read, expect, ReadUint8.
  assert (is_bytes (rd_bytes (reader_of chunks))) as Hr by exact Hc.
  repeat first [apply wp_bind; apply wp_want | wp_step]; done.
Qed.
Lemma BitTorrent_total : total_on bytes_chunks BitTorrent.
Proof.
  apply total_decides. intros m chunks Hc. unfold BitTorrent.
  destruct (read_once 1 chunks) as [[first rest]|]; [|apply decides_failed]. decide_step; [apply decides_failed|]. cbv zeta.
  destruct (read_once 19 rest) as [[protocol rest']|]; [|apply decides_failed]. repeat decide_step.
Qed.
Lemma trim_cr_prefix n l : (n ≤ length l)%nat → Forall (λ b, b ≠ 13) (take n l) → (n ≤ length (trim_cr l))%nat.
Proof.
  intros Hn Hp. unfold trim_cr. destruct (last l) as [b|] eqn:Hl; [|done]. destruct (decide (b = 13)) as [->|Hb].
  - rewrite length_take. destruct (decide (n = length l)) as [->|]; [|lia]. rewrite firstn_all in Hp.
    apply last_Some in Hl as [l' ->]. apply Forall_app in Hp as [_ Hp]. by apply Forall_cons in Hp as [? _].
  - destruct b as [|p|p]; try done. repeat (destruct p as [p|p|]; try done).
Qed.
Lemma ReadLine_prefix n l line :
  (n ≤ bufio_size)%nat → (n ≤ length l)%nat → Forall (λ b, b ≠ 10 ∧ b ≠ 13) (take n l) →
  ReadLine l = Some line → (n ≤ length line)%nat.
Proof.
  intros Hs Hn Hp. unfold ReadLine. assert (Forall (λ b, b ≠ 13) (take n l)) as H13 by (eapply Forall_impl; [done|]; naive_solver).
  destruct (list_find _ _) as [[i b]|] eqn:Hf.
  - intros [= <-]. apply list_find_Some in Hf as (Hi & -> & _).
    assert (n ≤ i)%nat as Hni.
    { destruct (decide (n ≤ i)%nat) as [?|Hlt]; [done|]. exfalso. apply lookup_take_Some in Hi as [Hi _].
      assert (take n l !! i = Some 10) as Ht by (rewrite lookup_take_lt by lia; done).
      apply list_elem_of_lookup_2 in Ht. rewrite Forall_forall in Hp. by destruct (Hp _ Ht). }
    apply lookup_take_Some in Hi as [Hi _]. apply lookup_lt_Some in Hi.
    apply trim_cr_prefix; [rewrite length_take; lia|]. by rewrite take_take, Nat.min_l by lia.
  - destruct (bufio_size <=? length l)%nat eqn:Hb.
    + intros [= <-]. apply Nat.leb_le in Hb. apply trim_cr_prefix; [rewrite length_take; lia|]. by rewrite take_take, Nat.min_l by lia.
    + case_bool_decide; [done|]. by intros [= <-].
Qed.
Lemma SSH_total : total_on bytes_chunks SSH.
Proof.
  apply total_decides. intros m chunks Hc. unfold SSH. cbv zeta.
  decide_step; [apply decides_failed|]. decide_step; [apply decides_failed|].
  apply negb_false_iff, bool_decide_eq_true in H1. apply Nat.ltb_ge in H2. rewrite length_take in H2.
  rewrite length_take, Nat.min_l in H1 by lia. change (take 8 sshPrefix) with sshPrefix in H1.
  destruct (ReadLine (concat chunks)) as [line|] eqn:Hl; [|apply decides_failed].
  assert (8 ≤ length line)%nat as Hlen.
  { eapply ReadLine_prefix; [| |rewrite H1|done]; [unfold bufio_size; lia|lia|]. by repeat constructor. }
  rewrite from_Ok by (unfold len; lia). by eexists _, _.
Qed.
Lemma HTTPHost_total : total_on bytes_chunks HTTPHost.
Proof.
  apply total_decides. intros m chunks Hc. unfold HTTPHost. pose proof (http_no_panic (concat chunks)) as Hh.
  destruct (http_ReadRequest (concat chunks)) as [h|e|w]; [by eexists _, _|repeat decide_step|done].
Qed.
Lemma TLSClientHello_total : total_on bytes_chunks TLSClientHello.
Proof.
  apply total_decides. intros m chunks Hc. unfold TLSClientHello.
  destruct (tls_hello (concat chunks)) as [[name|] [e|]]; [by eexists _, _..|repeat decide_step|by eexists _, _].
Qed.
Lemma StreamDomainNameQuery_total : total_on bytes_chunks StreamDomainNameQuery.
Proof.
  intros m chunks Hc Hm. unfold StreamDomainNameQuery.
  assert (wp (ReadFull 2) (λ l r', is_bytes (rd_bytes r')) (reader_of chunks)) as Hw.
  { apply wp_ReadFull; [done|]. intros l r' _ _ Ha. apply Ha. }
  unfold wp in Hw. destruct (ReadFull 2 (reader_of chunks)) as [[l r]|e|w]; [|by apply failed_ok|done]. cbv zeta.
  destruct (_ <? _); [by apply failed_ok|]. destruct (bad_query _); [by apply failed_ok|]. destruct (_ <? _); [by apply failed_ok|].
  apply DomainNameQuery_total; [|done]. auto with slices.
Qed.
Lemma stream_sniffers_ok : Forall (total_on bytes_chunks) defaultStreamSniffers.
Proof.
  repeat constructor; auto using TLSClientHello_total, HTTPHost_total, StreamDomainNameQuery_total, BitTorrent_total, SSH_total, RDP_total.
Qed.

Lemma try_all_total {input} (P : input → Prop) sniffers m x errs :
  Forall (total_on P) sniffers → P x → context_ok m →
  ∃ m' errs', try_all input sniffers m x errs = Ok (m', errs') ∧ context_ok m'.
Proof.
  intros Hs Hx. revert m errs. induction Hs as [|s l Hs Hl IH]; intros m errs Hm; cbn [try_all]; [by eauto|].
  destruct (Hs m x Hx Hm) as (m' & e & -> & Hm'). cbn. destruct e; [by apply IH|by eauto].
Qed.
End total.

(** ** Reading ahead loses nothing *)

Definition event_bytes (ev : conn_event) : list Z := match ev with ConnData b l => b :: l | _ => [] end.
(** What the client sends. *)
Definition sent (c : conn) : list Z := c ≫= event_bytes.
Lemma sent_cons ev c : sent (ev :: c) = event_bytes ev ++ sent c.
Proof. done. Qed.
Lemma read_from_spec free c r c' : read_from free c = (r, c') →
  match r with
  | Ok data => data ++ sent c' = sent c ∧ (0 < length data ≤ free)%nat
  | Err _ => sent c' = sent c
  | Panic _ => False
  end.
Proof.
  unfold read_from. destruct free as [|free]; [by intros [= <- <-]|].
  destruct c as [|[b l|e|e] c]; intros [= <- <-]; [done| |done|done]. rewrite sent_cons. cbn [event_bytes].
  split; [|cbn; rewrite length_take; lia]. cbn [take drop app]. rewrite <- (take_drop free l) at 3. rewrite <- app_assoc.
  do 2 f_equal. by destruct (drop free l).
Qed.

Section peek.
Context `{SniffLibOk}.
Lemma peek_loop_ok fuel first sniffError m c buffers buffer sniffers :
  Forall (total_on bytes_chunks) sniffers → context_ok m → is_bytes (concat buffers ++ buffer ++ sent c) →
  (length buffer ≤ UDPBufferSize < fuel + length buffer)%nat →
  ∃ p, peek_loop fuel first sniffError m c buffers buffer sniffers = Ok p ∧ context_ok (pk_meta p) ∧
    pk_buffer p ++ sent (pk_conn p) = buffer ++ sent c ∧ (length (pk_buffer p) ≤ UDPBufferSize)%nat.
Proof.
  intros Hs. revert first sniffError m c buffer. induction fuel as [|fuel IH]; intros first sniffError m c buffer Hm Hb Hf; [lia|].
  cbn [peek_loop].
  assert (∀ r c', read_from (UDPBufferSize - length buffer) c = (r, c') →
    ∃ p, match r with
         | Ok data =>
             let buffer := buffer ++ data in
             x ← try_all (list (list Z)) sniffers m (buffers ++ [buffer]) [];
             if needs_more x.2 then peek_loop fuel false x.2 x.1 c' buffers buffer sniffers
             else Ok (MkPeeked x.1 c' buffer x.2)
         | Err e => Ok (MkPeeked m c' buffer (if first then [EWrap "read payload" e] else sniffError))
         | Panic w => Panic w
         end = Ok p ∧ context_ok (pk_meta p) ∧
      pk_buffer p ++ sent (pk_conn p) = buffer ++ sent c ∧ (length (pk_buffer p) ≤ UDPBufferSize)%nat) as Hread.
  { intros r c' Hr. apply read_from_spec in Hr. destruct r as [data|e|w]; [|eexists; split; [done|]; cbn [pk_meta pk_buffer pk_conn]; rewrite Hr; split_and!; [done..|lia]|done].
    destruct Hr as [Hd Hl]. cbv zeta.
    assert (bytes_chunks (buffers ++ [buffer ++ data])) as Hbc.
    { unfold bytes_chunks, is_bytes in *. rewrite concat_app. cbn. rewrite app_nil_r. rewrite <- Hd in Hb.
      rewrite !Forall_app in *. naive_solver. }
    destruct (try_all_total bytes_chunks sniffers m _ [] Hs Hbc Hm) as (m' & errs & -> & Hm'). cbn [mbind result_bind fst snd].
    destruct (needs_more errs).
    - destruct (IH false errs m' c' (buffer ++ data)) as (p & -> & Hp1 & Hp2 & Hp3); [done| |rewrite length_app; lia|].
      + by rewrite <- app_assoc, Hd.
      + exists p. by rewrite Hp2, <- app_assoc, Hd.
    - eexists. split; [done|]. cbn [pk_meta pk_buffer pk_conn]. rewrite length_app, <- app_assoc, Hd. split_and!; [done..|lia]. }
  destruct c as [|[b l|e|e] c]; [..|eexists; split_and!; [done..|cbn; lia]];
    destruct (read_from _ _) as [r c'] eqn:E; destruct (Hread r c' eq_refl) as (p & Hp & ?); exists p; by destruct r.
Qed.
Lemma PeekStream_ok m c buffers sniffers :
  Forall (total_on bytes_chunks) sniffers → context_ok m → is_bytes (concat buffers ++ sent c) →
  ∃ p, PeekStream m c buffers sniffers = Ok p ∧ context_ok (pk_meta p) ∧ pk_buffer p ++ sent (pk_conn p) = sent c.
Proof.
  intros Hs Hm Hb. destruct (peek_loop_ok (S UDPBufferSize) true [] m c buffers [] sniffers) as (p & Hp & ? & ? & _); [done..|cbn; lia|].
  by exists p.
Qed.
End peek.

(** Packets of one client, each tried with its own list of sniffers. *)
Fixpoint peek_packets (m : SniffMeta) (l : list (list Z * list PacketSniffer)) : result (list (list error)) :=
  match l with
  | [] => Ok []
  | (packet, sniffers) :: l => x ← PeekPacket m packet sniffers; y ← peek_packets x.1 l; Ok (x.2 :: y)
  end.

(** (C34) No packet crashes or hangs the sniffers.  Whatever bytes a client sends,
    in whatever sequence of packets, and whichever of the packet sniffers are
    configured for each, trying them comes back with a verdict for every packet:
    no index is out of range in any of the parsers, no loop over frames,
    extensions, ranges or fragments goes on forever. *)
Theorem packet_sniffing_total `{SniffLibOk} m l :
  sm_Context m = None → Forall (λ x, is_bytes x.1 ∧ ∀ s, s ∈ x.2 → s ∈ defaultPacketSniffers) l →
  ∃ verdicts, peek_packets m l = Ok verdicts ∧ length verdicts = length l.
Proof.
  intros Hm Hl. assert (context_ok m) as Hc by (unfold context_ok; by rewrite Hm). clear Hm. revert m Hc.
  induction Hl as [|[packet sniffers] l [Hb Hs] Hl IH]; intros m Hc; cbn [peek_packets]; [by eexists|].
  assert (Forall (total_on is_bytes) sniffers) as Ht.
  { apply Forall_forall. intros s Hin. exact (proj1 (Forall_forall _ _) packet_sniffers_ok s (Hs s Hin)). }
  destruct (try_all_total is_bytes sniffers m packet [] Ht Hb Hc) as (m' & errs & Hx & Hm'). unfold PeekPacket. rewrite Hx.
  cbn [mbind result_bind fst snd]. destruct (IH m' Hm') as (v & -> & Hv). cbn. eexists. split; [done|]. cbn. by rewrite Hv.
Qed.

(** A message of the DNS library whose header counts no record has none. *)
Definition no_counts (packet : list Z) : Prop := 12 ≤ len packet ∧ ∀ i, (4 ≤ i < 12)%nat → nth i packet 0 = 0.
Definition unpacks_header `{MessageLib} : Prop :=
  ∀ packet, no_counts packet → ∃ msg, Unpack packet = Some msg ∧ msg_Question msg = [].

Lemma read_word4 {B} packet i j (f : Z → result B) :
  0 ≤ i → j = i + 4 → j ≤ len packet →
  (b ← sub packet i j; x ← BigEndian 4 b; f x)%stdpp = f (be_combine (take 4 (drop (Z.to_nat i) packet))).
Proof.
  intros Hi -> Hl. rewrite sub_Ok by lia. cbn [mbind result_bind]. replace (Z.to_nat (i + 4 - i)) with 4%nat by lia.
  unfold BigEndian. rewrite sub_Ok; [|lia|]; [cbn [mbind result_bind]; change (Z.to_nat (4 - 0)) with 4%nat; by rewrite drop_0, take_take|].
  unfold len in *. rewrite length_take, length_drop. lia.
Qed.

(** The DNS sniffer hides other protocols.  It answers "no error" for a
    message that is no query, and it is the first of the default sniffers: a
    packet whose bytes 4 to 11 are zero counts as sniffed without a protocol,
    and the sniffer that knows it is never asked.  The request of a simple NTP
    client is such a packet: the NTP sniffer recognises it, the default sniffers
    do not. *)
Theorem dns_sniffer_hides_ntp `{SniffLib} m packet :
  unpacks_header → no_counts packet → 48 ≤ len packet → Z.land (nth 0 packet 0) 0x3f = 0x23 →
  NTP m packet = found "ntp" m ∧ PeekPacket m packet defaultPacketSniffers = Ok (m, []).
Proof.
  intros Hu Hn Hl Hb. split.
  - destruct Hn as [_ Hz]. unfold NTP. rewrite (proj2 (Z.ltb_ge _ _)) by lia. rewrite idx_Ok by lia.
    cbn [mbind result_bind]. change (Z.to_nat 0) with 0%nat. set (b := nth 0 packet 0) in *.
    assert (Z.land (Z.shiftr b 3) 7 = 4) as ->.
    { change 7 with (Z.shiftr 0x3f 3). rewrite <- Z.shiftr_land, Hb. done. }
    assert (Z.land b 7 = 3) as ->.
    { change 7 with (Z.land 0x3f 7). rewrite Z.land_assoc, Hb. done. }
    assert (0 ≤ Z.land (Z.shiftr b 6) 3 ≤ 3) as Hli.
    { pose proof (Z.land_ones (Z.shiftr b 6) 2 ltac:(lia)) as Hm. change (Z.ones 2) with 3 in Hm. rewrite Hm.
      pose proof (Z.mod_pos_bound (Z.shiftr b 6) (2^2)). lia. }
    rewrite (proj2 (Z.ltb_ge _ _)) by lia. cbn [Z.eqb Pos.eqb negb andb].
    assert (∀ i, (4 ≤ i ≤ 8)%nat → be_combine (take 4 (drop i packet)) = 0) as H0.
    { intros i Hi. unfold len in Hl. assert (take 4 (drop i packet) = [0; 0; 0; 0]) as ->; [|done].
      apply list_eq_same_length with 4%nat; [done|rewrite length_take, length_drop; lia|]. intros k x y Hk Hx Hy.
      rewrite lookup_take_lt, lookup_drop in Hx by lia. apply nth_lookup_Some with (d := 0) in Hx. rewrite Hz in Hx by lia.
      do 4 (destruct k as [|k]; [by injection Hy as <-|]). lia. }
    rewrite (read_word4 packet 4 8), (read_word4 packet 8 12) by lia.
    change (Z.to_nat 4) with 4%nat. change (Z.to_nat 8) with 8%nat. rewrite !H0 by lia. done.
  - destruct (Hu packet Hn) as (msg & Hm & Hq). unfold PeekPacket, defaultPacketSniffers. cbn [try_all]. unfold DomainNameQuery.
    rewrite Hm, Hq. rewrite bool_decide_true by done. rewrite orb_true_r. done.
Qed.

(** *** Examples *)

(** A DNS library that knows only empty messages, and parsers that know nothing. *)
Definition counts_zero (l : list Z) : bool := (12 <=? length l)%nat && forallb (λ i, nth i l 0 =? 0) [4; 5; 6; 7; 8; 9; 10; 11]%nat.
Definition header_lib : MessageLib := {|
  IsEdns0 _ := None; edns0_record _ _ := MkResource "." 0 (RR_OPT 0 []); Pack _ := None;
  Unpack l := if counts_zero l then Some (MkMessage 0 false false false false 0 [] [] [] []) else None
|}.
Definition plain_lib : SniffLib := {|
  sl_message := header_lib; sl_crypto := clear_crypto; http_ReadRequest _ := Err ErrUnexpectedEOF;
  tls_hello _ := (None, Some ErrUnexpectedEOF); ParseFqdn s := s; ParseHostFqdn s := s; UDPBufferSize := 64
|}.
Lemma plain_lib_ok : @SniffLibOk plain_lib.
Proof. split; [exact clear_crypto_ok|done]. Qed.
Lemma header_lib_unpacks : @unpacks_header header_lib.
Proof.
  intros packet [Hl Hz]. exists (MkMessage 0 false false false false 0 [] [] [] []). split; [|done]. cbn.
  assert (counts_zero packet = true) as ->; [|done]. unfold counts_zero. apply andb_true_iff. split.
  - apply Nat.leb_le. unfold len in Hl. lia.
  - apply forallb_forall. intros i Hi. apply Z.eqb_eq, Hz. cbn in Hi. lia.
Qed.
Definition meta0 : SniffMeta := MkSniff "" "" "" None.
Definition ntp_request : list Z := 0x23 :: replicate 47 0.
Lemma packet_sniffing_total_witness :
  ∃ verdicts, peek_packets meta0 ((λ p, (p, @defaultPacketSniffers plain_lib)) <$> [ntp_request; [1; 2; 3]; nth 0 packets0 []]) = Ok verdicts ∧
    length verdicts = 3%nat.
Proof.
  apply (@packet_sniffing_total plain_lib plain_lib_ok); [done|].
  do 3 (constructor; [split; [apply is_bytes_forallb; vm_compute; reflexivity|done]|]). constructor.
Defined.
Lemma dns_sniffer_hides_ntp_witness :
  NTP meta0 ntp_request = found "ntp" meta0 ∧ PeekPacket meta0 ntp_request (@defaultPacketSniffers plain_lib) = Ok (meta0, []).
Proof.
  apply (@dns_sniffer_hides_ntp plain_lib); [exact header_lib_unpacks| |done|done].
  split; [done|]. intros i Hi. do 12 (destruct i as [|i]; [lia || done|]). lia.
Defined.
(** A client whose banner comes in two segments. *)
Example ssh_segments : ∃ p,
  @PeekStream plain_lib meta0 [ConnData 83 [83; 72; 45]; ConnErr errTimeout] [] [SSH] = Ok p ∧ pk_buffer p = [83; 83; 72; 45].
Proof. eexists. split; [vm_compute; reflexivity|done]. Qed.
