(* ===== verification/RouteAction.v ===== *)
(** * Actions of route rules: [route/rule/rule_action.go], [rule_default.go]

    The options of a rule's action, the action built from them, and the rules
    the router gets from its configuration: [NewRuleAction], [NewRule] with the
    logical rules, the check that nested rules have no action, and
    [Router.Initialize].  The conditions of a rule are [MatchOptions], and its
    matching is [rule_Match]. *)

From S2P Require Import Prelude GoStrings NetAddr RuleContext RuleItems RuleMatch RuleSpec RuleBuild Bytes.
From S2P Require Import Slices Quic DnsActions DnsCache DnsMode Sniff.

Local Open Scope Z_scope.
Local Set Warnings "-register-all".

(** ** Options *)

Record RawRouteOptionsActionOptions := MkRawRouteOptions {
  rw_OverrideAddress : string;
  rw_OverridePort : Z;
  rw_NetworkStrategy : option Z;
  rw_FallbackDelay : Z;
  rw_UDPDisableDomainUnmapping : bool;
  rw_UDPConnect : bool;
  rw_UDPTimeout : Z;
  rw_TLSFragment : bool;
  rw_TLSFragmentFallbackDelay : Z;
  rw_TLSRecordFragment : bool;
  rw_TLSSpoof : string;
  rw_TLSSpoofMethod : string;
}.
Record RouteActionOptions := MkRouteActionOptions { rt_Outbound : string; rt_options : RawRouteOptionsActionOptions }.
Record RouteActionSniff := MkSniffOptions { sn_Sniffer : list string; sn_Timeout : Z }.
Record RouteActionResolve := MkResolveOptions {
  rs_Server : string;
  rs_Timeout : Z;
  rs_Strategy : Z;
  rs_DisableCache : bool;
  rs_DisableOptimisticCache : bool;
  rs_RewriteTTL : option Z;
  rs_ClientSubnet : option Prefix;
}.
Record RuleActionOptions := MkRuleActionOptions {
  ac_Action : string;
  ac_RouteOptions : RouteActionOptions;
  ac_RouteOptionsOptions : RawRouteOptionsActionOptions;
  ac_BypassOptions : RouteActionOptions;
  ac_RejectOptions : RejectActionOptions;
  ac_SniffOptions : RouteActionSniff;
  ac_ResolveOptions : RouteActionResolve;
}.
#[export] Instance RawRouteOptionsActionOptions_eq_dec : EqDecision RawRouteOptionsActionOptions.
Proof. solve_decision. Defined.
#[export] Instance RouteActionOptions_eq_dec : EqDecision RouteActionOptions.
Proof. solve_decision. Defined.
#[export] Instance RouteActionSniff_eq_dec : EqDecision RouteActionSniff.
Proof. solve_decision. Defined.
#[export] Instance RouteActionResolve_eq_dec : EqDecision RouteActionResolve.
Proof. solve_decision. Defined.
#[export] Instance RuleActionOptions_eq_dec : EqDecision RuleActionOptions.
Proof. solve_decision. Defined.
Definition no_raw : RawRouteOptionsActionOptions :=
  MkRawRouteOptions "" 0 None 0 false false 0 false 0 false "" "".
Definition no_rule_action : RuleActionOptions :=
  MkRuleActionOptions "" (MkRouteActionOptions "" no_raw) no_raw (MkRouteActionOptions "" no_raw) (MkRejectAction "" false)
    (MkSniffOptions [] 0) (MkResolveOptions "" 0 0 false false None None).

(** [RouteOptionsActionOptions.UnmarshalJSON], after the decoder. *)
Definition check_route_options (o : RawRouteOptionsActionOptions) : result () :=
  if bool_decide (o = no_raw) then Err (ENew "empty route option action")
  else if rw_TLSFragment o && rw_TLSRecordFragment o
  then Err (ENew "`tls_fragment` and `tls_record_fragment` are mutually exclusive")
  else Ok tt.
(** [RejectActionOptions.UnmarshalJSON], after the decoder. *)
Definition check_reject_options (o : RejectActionOptions) : result RejectActionOptions :=
  let named (m : string) := bool_decide (rj_Method o = m) in
  if named "" || named "default" then Ok (MkRejectAction "default" (rj_NoDrop o))
  else if named "drop" then
    if rj_NoDrop o then Err (ENew "no_drop is not available in current context") else Ok o
  else if named "reply" then Ok o
  else Err (EFmt "unknown reject method: " [rj_Method o]).

(** ** The forged TLS hello: [common/tlsspoof] *)

Inductive SpoofMethod :=
  MethodWrongSequence | MethodWrongChecksum | MethodWrongAcknowledgment | MethodWrongMD5Sig | MethodWrongTimestamp.
Definition ParseMethod (s : string) : result SpoofMethod :=
  let named (m : string) := bool_decide (s = m) in
  if named "" || named "wrong-sequence" then Ok MethodWrongSequence
  else if named "wrong-checksum" then Ok MethodWrongChecksum
  else if named "wrong-ack" then Ok MethodWrongAcknowledgment
  else if named "wrong-md5" then Ok MethodWrongMD5Sig
  else if named "wrong-timestamp" then Ok MethodWrongTimestamp
  else Err (EFmt "tls_spoof: unknown method: " [s]).
Definition method_String (m : SpoofMethod) : string :=
  match m with
  | MethodWrongSequence => "wrong-sequence"
  | MethodWrongChecksum => "wrong-checksum"
  | MethodWrongAcknowledgment => "wrong-ack"
  | MethodWrongMD5Sig => "wrong-md5"
  | MethodWrongTimestamp => "wrong-timestamp"
  end.
Lemma ParseMethod_String m : ParseMethod (method_String m) = Ok m.
Proof. by destruct m. Qed.
(** [ParseOptions]; the first argument says whether the platform can do it. *)
Definition ParseOptions (PlatformSupported : bool) (spoof method : string) : result (string * SpoofMethod) :=
  if bool_decide (spoof = ""%string) then
    if bool_decide (method = ""%string) then Ok (""%string, MethodWrongSequence)
    else Err (ENew "spoof_method requires spoof")
  else if negb PlatformSupported then Err (ENew "tls_spoof is not supported on this platform")
  else parsedMethod ← ParseMethod method; Ok (spoof, parsedMethod).

(** ** Actions *)

Record RuleActionRouteOptions := MkActionRouteOptions {
  OverrideAddress : Socksaddr;
  OverridePort : Z;
  NetworkStrategy : option Z;
  NetworkType : list Z;
  FallbackNetworkType : list Z;
  FallbackDelay : Z;
  UDPDisableDomainUnmapping : bool;
  UDPConnect : bool;
  UDPTimeout : Z;
  TLSFragment : bool;
  TLSFragmentFallbackDelay : Z;
  TLSRecordFragment : bool;
  TLSSpoof : string;
  TLSSpoofMethod : SpoofMethod;
}.
Record RuleActionSniff := MkActionSniff {
  SnifferNames : list string;
  StreamSniffers : list StreamSniffer;
  PacketSniffers : list PacketSniffer;
  SniffTimeout : Z;
  OverrideDestination : bool;                  (* deprecated: never set *)
}.
Inductive RuleAction :=
  | ActRoute (outbound : string) (o : RuleActionRouteOptions)
  | ActRouteOptions (o : RuleActionRouteOptions)
  | ActBypass (outbound : string) (o : RuleActionRouteOptions)
  | ActReject (method : RejectMethod) (noDrop : bool)
  | ActHijackDNS
  | ActSniff (a : RuleActionSniff)
  | ActResolve (server : string) (o : DNSQueryOptions).

Section actions.
Context `{SniffLib} (PlatformSupported : bool) (ParseSocksaddrHostPort : string → Z → Socksaddr) (B : BuildEnv).

Definition newRuleActionRouteOptions (o : RawRouteOptionsActionOptions) : result RuleActionRouteOptions :=
  spoof ← ParseOptions PlatformSupported (rw_TLSSpoof o) (rw_TLSSpoofMethod o);
  Ok (MkActionRouteOptions (ParseSocksaddrHostPort (rw_OverrideAddress o) 0) (rw_OverridePort o) (rw_NetworkStrategy o) [] []
        (rw_FallbackDelay o) (rw_UDPDisableDomainUnmapping o) (rw_UDPConnect o) (rw_UDPTimeout o) (rw_TLSFragment o)
        (rw_TLSFragmentFallbackDelay o) (rw_TLSRecordFragment o) spoof.1 spoof.2).

(** What a name adds to the sniffers of an action. *)
Definition sniffers_named (name : string) : option (list StreamSniffer * list PacketSniffer) :=
  let named (m : string) := bool_decide (name = m) in
  if named "tls" then Some ([TLSClientHello], [])
  else if named "http" then Some ([HTTPHost], [])
  else if named "quic" then Some ([], [QUICClientHello])
  else if named "dns" then Some ([StreamDomainNameQuery], [DomainNameQuery])
  else if named "stun" then Some ([], [STUNMessage])
  else if named "bittorrent" then Some ([BitTorrent], [UTP; UDPTracker])
  else if named "dtls" then Some ([], [DTLSRecord])
  else if named "ssh" then Some ([SSH], [])
  else if named "rdp" then Some ([RDP], [])
  else if named "ntp" then Some ([], [NTP])
  else None.
(** [RuleActionSniff.build]. *)
Fixpoint build (names : list string) (stream : list StreamSniffer) (packet : list PacketSniffer) :
    result (list StreamSniffer * list PacketSniffer) :=
  match names with
  | [] => Ok (stream, packet)
  | name :: names =>
      match sniffers_named name with
      | None => Err (EFmt "unknown sniffer: " [name])
      | Some (s, p) => build names (stream ++ s) (packet ++ p)
      end
  end.

Definition act_is (a : RuleActionOptions) (name : string) : bool := bool_decide (ac_Action a = name).
Definition resolve_query (o : RouteActionResolve) : DNSQueryOptions :=
  MkQueryOptions None (rs_Strategy o) DomainStrategyAsIS (rs_DisableCache o) (rs_DisableOptimisticCache o) (rs_RewriteTTL o)
    (rs_Timeout o) (default PrefixZero (rs_ClientSubnet o)) false.
Definition NewRuleAction (a : RuleActionOptions) : result (option RuleAction) :=
  if act_is a "" then Ok None
  else if act_is a "route" then
    o ← newRuleActionRouteOptions (rt_options (ac_RouteOptions a)); Ok (Some (ActRoute (rt_Outbound (ac_RouteOptions a)) o))
  else if act_is a "route-options" then
    o ← newRuleActionRouteOptions (ac_RouteOptionsOptions a); Ok (Some (ActRouteOptions o))
  else if act_is a "bypass" then
    o ← newRuleActionRouteOptions (rt_options (ac_BypassOptions a)); Ok (Some (ActBypass (rt_Outbound (ac_BypassOptions a)) o))
  else if act_is a "reject" then
    Ok (Some (ActReject (reject_method (rj_Method (ac_RejectOptions a))) (rj_NoDrop (ac_RejectOptions a))))
  else if act_is a "hijack-dns" then Ok (Some ActHijackDNS)
  else if act_is a "sniff" then
    x ← build (sn_Sniffer (ac_SniffOptions a)) [] [];
    Ok (Some (ActSniff (MkActionSniff (sn_Sniffer (ac_SniffOptions a)) x.1 x.2 (sn_Timeout (ac_SniffOptions a)) false)))
  else if act_is a "resolve" then
    Ok (Some (ActResolve (rs_Server (ac_ResolveOptions a)) (resolve_query (ac_ResolveOptions a))))
  else Panic ("unknown rule action: " +:+ ac_Action a).

(** ** Rules *)

(** A rule with its action; [nil] is the action of a nested rule. *)
Record RouteRule := MkRouteRule { rr_rule : Rule; rr_action : option RuleAction }.

(** [option.Rule] by its type field, as [HeadlessOptions]. *)
Inductive RuleOptions :=
  | RuleDefault (typed : bool) (o : MatchOptions) (a : RuleActionOptions)
  | RuleLogical (mode : string) (rules : list RuleOptions) (invert : bool) (a : RuleActionOptions)
  | RuleUnknown (type : string).

(** [DefaultRule.IsValid]: a field other than [invert] is set. *)
Definition default_IsValid (o : MatchOptions) (a : RuleActionOptions) : bool :=
  nonempty (o_Inbound o) || negb (bool_decide (o_IPVersion o = 0)) || nonempty (o_Network o) || nonempty (o_AuthUser o) ||
  nonempty (o_Protocol o) || nonempty (o_Client o) || nonempty (o_Domain o) || nonempty (o_DomainSuffix o) ||
  nonempty (o_DomainKeyword o) || nonempty (o_DomainRegex o) || nonempty (o_Geosite o) || nonempty (o_SourceGeoIP o) ||
  nonempty (o_GeoIP o) || nonempty (o_SourceIPCIDR o) || o_SourceIPIsPrivate o || nonempty (o_IPCIDR o) ||
  o_IPIsPrivate o || nonempty (o_SourcePort o) || nonempty (o_SourcePortRange o) || nonempty (o_Port o) ||
  nonempty (o_PortRange o) || nonempty (o_ProcessName o) || nonempty (o_ProcessPath o) || nonempty (o_ProcessPathRegex o) ||
  nonempty (o_PackageName o) || nonempty (o_PackageNameRegex o) || nonempty (o_User o) || nonempty (o_UserID o) ||
  negb (bool_decide (o_ClashMode o = ""%string)) || nonempty (o_NetworkType o) || o_NetworkIsExpensive o ||
  o_NetworkIsConstrained o || nonempty (o_WIFISSID o) || nonempty (o_WIFIBSSID o) || nonempty (o_InterfaceAddress o) ||
  nonempty (o_NetworkInterfaceAddress o) || nonempty (o_DefaultInterfaceAddress o) || nonempty (o_SourceMACAddress o) ||
  nonempty (o_SourceHostname o) || nonempty (o_PreferredBy o) || nonempty (o_RuleSet o) || o_RuleSetIPCIDRMatchSource o ||
  o_Deprecated_RulesetIPCIDRMatchSource o || negb (bool_decide (a = no_rule_action)).
(** [common.All(rules, Rule.IsValid)], which stops at the first invalid rule. *)
Section all_rules.
Variable valid : RuleOptions → result bool.
Fixpoint all_rules_valid (l : list RuleOptions) : result bool :=
  match l with [] => Ok true | r :: l => b ← valid r; if b : bool then all_rules_valid l else Ok false end.
End all_rules.
(** [Rule.IsValid] panics on any type but [default] and [logical]. *)
Fixpoint Rule_IsValid (r : RuleOptions) : result bool :=
  match r with
  | RuleDefault true o a => Ok (default_IsValid o a)
  | RuleDefault false _ _ => Panic "unknown rule type: "
  | RuleLogical _ rules _ _ => if negb (nonempty rules) then Ok false else all_rules_valid Rule_IsValid rules
  | RuleUnknown type => Panic ("unknown rule type: " +:+ type)
  end.

Definition ruleHasConfiguredAction (r : RuleOptions) : bool :=
  match r with
  | RuleDefault _ _ a | RuleLogical _ _ _ a => negb (bool_decide (a = no_rule_action))
  | RuleUnknown _ => false
  end.
Definition sub_at (i : nat) : string := "sub rule[" +:+ Itoa (Z.of_nat i) +:+ "]".
Fixpoint validateNoNestedRuleActions (nested : bool) (r : RuleOptions) : result () :=
  if nested && ruleHasConfiguredAction r then Err (ENew "rule action is not supported in nested rules")
  else match r with
       | RuleLogical _ rules _ _ =>
           _ ← map_result (λ i sub, cause (sub_at i) (validateNoNestedRuleActions true sub)) 0 rules; Ok tt
       | _ => Ok tt
       end.

(** The check both types of rule share. *)
Definition check_outbound (checkOutbound : bool) (a : RuleActionOptions) : result () :=
  if (act_is a "" || act_is a "route") && bool_decide (rt_Outbound (ac_RouteOptions a) = ""%string) && checkOutbound
  then Err (ENew "missing outbound field") else Ok tt.
Definition NewLogicalRule (NewRule : RuleOptions → result RouteRule) (mode : string) (rules : list RuleOptions) (invert : bool)
    (a : RuleActionOptions) : result RouteRule :=
  action ← cause "action" (NewRuleAction a);
  mode ← read_mode mode;
  subs ← map_result (λ i sub,
    _ ← cause (sub_at i) (validateNoNestedRuleActions true sub); cause (sub_at i) (NewRule sub)) 0 rules;
  Ok (MkRouteRule (LogicalRule (MkLogicalRule (rr_rule <$> subs) mode invert)) action).
Fixpoint NewRule (checkOutbound : bool) (r : RuleOptions) : result RouteRule :=
  match r with
  | RuleDefault _ o a =>
      if negb (default_IsValid o a) then Err missing_conditions
      else
        _ ← check_outbound checkOutbound a;
        x ← NewDefaultRule B (NewRuleAction a) o;
        Ok (MkRouteRule (DefaultRule x.2) x.1)
  | RuleLogical mode rules invert a =>
      valid ← (if negb (nonempty rules) then Ok false else all_rules_valid Rule_IsValid rules);
      if negb valid then Err missing_conditions
      else
        _ ← check_outbound checkOutbound a;
        NewLogicalRule (NewRule false) mode rules invert a
  | RuleUnknown type => Err (EFmt "unknown rule type: " [type])
  end.

(** [Router.Initialize], its rules. *)
Definition rule_at (i : nat) : string := "parse rule[" +:+ Itoa (Z.of_nat i) +:+ "]".
Definition build_rules (rules : list RuleOptions) : result (list RouteRule) :=
  map_result (λ i r, _ ← cause (rule_at i) (validateNoNestedRuleActions false r); cause (rule_at i) (NewRule false r)) 0 rules.
End actions.
