(* ===== verification/Route.v ===== *)
(** * The router: [src/route/route.go], [process_cache.go]

    A connection is routed by walking the rules: a rule that matches either
    changes the metadata (options, sniffing, resolving) or decides.  [matchRule]
    is the walk for a connection, [PreMatch] the walk for a packet that has no
    connection yet; [routeConnection] and [routePacketConnection] act on what the
    walk found.  The stream of a client is the list of what its reads give
    ([conn]); a packet connection is a list of packet events.  The other parts of
    the program are in [RouterEnv]. *)

From S2P Require Import Prelude GoStrings NetAddr RuleContext RuleItems RuleMatch RuleSpec RuleBuild Bytes.
From S2P Require Import Slices Quic DnsActions DnsCache DnsMode Sniff RouteAction.

Local Open Scope Z_scope.

(** ** Metadata *)

(** The fields of [adapter.InboundContext] that rules do not read; [request] and
    [cache] have the others. *)
Record DialFields := MkDial {
  df_UDPDisableDomainUnmapping : bool;
  df_UDPConnect : bool;
  df_UDPTimeout : Z;
  df_TLSFragment : bool;
  df_TLSFragmentFallbackDelay : Z;
  df_TLSRecordFragment : bool;
  df_TLSSpoof : string;
  df_TLSSpoofMethod : SpoofMethod;
  df_NetworkStrategy : option Z;
  df_NetworkType : list Z;
  df_FallbackNetworkType : list Z;
  df_FallbackDelay : Z;
}.
Record Metadata := MkMetadata {
  mt_context : InboundContext;
  mt_InboundType : string;
  mt_InboundDetour : string;
  mt_LastInbound : string;
  mt_SniffContext : option (list qCryptoFragment);
  mt_SnifferNames : list string;
  mt_SniffError : list error;                 (* [] is nil *)
  mt_OriginDestination : Socksaddr;
  mt_RouteOriginalDestination : Socksaddr;
  mt_FakeIP : bool;
  mt_dial : DialFields;
}.
Definition mt_request (m : Metadata) : Request := request (mt_context m).
Definition mt_Destination (m : Metadata) : Socksaddr := md_Destination (mt_request m).

Definition remake (inbound : string) (ipVersion : Z) (network : string) (destination : Socksaddr)
    (protocol domain client : string) (addresses : list Addr) (process : option ConnectionOwner) (mac : option (list Z))
    (hostname : string) (preMatch : bool) (q : Request) : Request :=
  MkRequest inbound ipVersion network (md_Source q) destination (md_User q) (md_Outbound q) protocol domain client addresses
    (md_DNSResponse q) (md_NamedDNSResponses q) (md_DestinationAddressMatchFromResponse q) process mac hostname
    (md_QueryType q) (md_QueryClientSubnet q) (md_QueryDNSSEC q) preMatch.
Definition with_Inbound (inbound : string) (q : Request) : Request :=
  remake inbound (md_IPVersion q) (md_Network q) (md_Destination q) (md_Protocol q) (md_Domain q) (md_Client q)
    (md_DestinationAddresses q) (md_ProcessInfo q) (md_SourceMACAddress q) (md_SourceHostname q) (md_PreMatch q) q.
Definition with_IPVersion (version : Z) (q : Request) : Request :=
  remake (md_Inbound q) version (md_Network q) (md_Destination q) (md_Protocol q) (md_Domain q) (md_Client q)
    (md_DestinationAddresses q) (md_ProcessInfo q) (md_SourceMACAddress q) (md_SourceHostname q) (md_PreMatch q) q.
Definition with_Network (network : string) (q : Request) : Request :=
  remake (md_Inbound q) (md_IPVersion q) network (md_Destination q) (md_Protocol q) (md_Domain q) (md_Client q)
    (md_DestinationAddresses q) (md_ProcessInfo q) (md_SourceMACAddress q) (md_SourceHostname q) (md_PreMatch q) q.
Definition with_Destination (destination : Socksaddr) (q : Request) : Request :=
  remake (md_Inbound q) (md_IPVersion q) (md_Network q) destination (md_Protocol q) (md_Domain q) (md_Client q)
    (md_DestinationAddresses q) (md_ProcessInfo q) (md_SourceMACAddress q) (md_SourceHostname q) (md_PreMatch q) q.
Definition with_sniffed (protocol domain client : string) (q : Request) : Request :=
  remake (md_Inbound q) (md_IPVersion q) (md_Network q) (md_Destination q) protocol domain client
    (md_DestinationAddresses q) (md_ProcessInfo q) (md_SourceMACAddress q) (md_SourceHostname q) (md_PreMatch q) q.
Definition with_Addresses (addresses : list Addr) (q : Request) : Request :=
  remake (md_Inbound q) (md_IPVersion q) (md_Network q) (md_Destination q) (md_Protocol q) (md_Domain q) (md_Client q)
    addresses (md_ProcessInfo q) (md_SourceMACAddress q) (md_SourceHostname q) (md_PreMatch q) q.
Definition with_Process (process : ConnectionOwner) (q : Request) : Request :=
  remake (md_Inbound q) (md_IPVersion q) (md_Network q) (md_Destination q) (md_Protocol q) (md_Domain q) (md_Client q)
    (md_DestinationAddresses q) (Some process) (md_SourceMACAddress q) (md_SourceHostname q) (md_PreMatch q) q.
Definition with_Neighbor (mac : option (list Z)) (hostname : string) (q : Request) : Request :=
  remake (md_Inbound q) (md_IPVersion q) (md_Network q) (md_Destination q) (md_Protocol q) (md_Domain q) (md_Client q)
    (md_DestinationAddresses q) (md_ProcessInfo q) mac hostname (md_PreMatch q) q.
Definition with_PreMatch (preMatch : bool) (q : Request) : Request :=
  remake (md_Inbound q) (md_IPVersion q) (md_Network q) (md_Destination q) (md_Protocol q) (md_Domain q) (md_Client q)
    (md_DestinationAddresses q) (md_ProcessInfo q) (md_SourceMACAddress q) (md_SourceHostname q) preMatch q.

Definition set_context (c : InboundContext) (m : Metadata) : Metadata :=
  MkMetadata c (mt_InboundType m) (mt_InboundDetour m) (mt_LastInbound m) (mt_SniffContext m) (mt_SnifferNames m)
    (mt_SniffError m) (mt_OriginDestination m) (mt_RouteOriginalDestination m) (mt_FakeIP m) (mt_dial m).
Definition on_request (f : Request → Request) (m : Metadata) : Metadata :=
  set_context (MkContext (f (mt_request m)) (cache (mt_context m))) m.
Definition set_detour (last : string) (m : Metadata) : Metadata :=
  MkMetadata (mt_context m) (mt_InboundType m) "" last (mt_SniffContext m) (mt_SnifferNames m)
    (mt_SniffError m) (mt_OriginDestination m) (mt_RouteOriginalDestination m) (mt_FakeIP m) (mt_dial m).
Definition set_sniff_state (names : list string) (errs : list error) (m : Metadata) : Metadata :=
  MkMetadata (mt_context m) (mt_InboundType m) (mt_InboundDetour m) (mt_LastInbound m) (mt_SniffContext m) names
    errs (mt_OriginDestination m) (mt_RouteOriginalDestination m) (mt_FakeIP m) (mt_dial m).
Definition set_sniff_context (c : option (list qCryptoFragment)) (m : Metadata) : Metadata :=
  MkMetadata (mt_context m) (mt_InboundType m) (mt_InboundDetour m) (mt_LastInbound m) c (mt_SnifferNames m)
    (mt_SniffError m) (mt_OriginDestination m) (mt_RouteOriginalDestination m) (mt_FakeIP m) (mt_dial m).
Definition set_fake (origin : Socksaddr) (m : Metadata) : Metadata :=
  MkMetadata (mt_context m) (mt_InboundType m) (mt_InboundDetour m) (mt_LastInbound m) (mt_SniffContext m) (mt_SnifferNames m)
    (mt_SniffError m) origin (mt_RouteOriginalDestination m) true (mt_dial m).
Definition set_original (original : Socksaddr) (m : Metadata) : Metadata :=
  MkMetadata (mt_context m) (mt_InboundType m) (mt_InboundDetour m) (mt_LastInbound m) (mt_SniffContext m) (mt_SnifferNames m)
    (mt_SniffError m) (mt_OriginDestination m) original (mt_FakeIP m) (mt_dial m).
Definition set_dial (d : DialFields) (m : Metadata) : Metadata :=
  MkMetadata (mt_context m) (mt_InboundType m) (mt_InboundDetour m) (mt_LastInbound m) (mt_SniffContext m) (mt_SnifferNames m)
    (mt_SniffError m) (mt_OriginDestination m) (mt_RouteOriginalDestination m) (mt_FakeIP m) d.
Definition set_timeout (t : Z) (d : DialFields) : DialFields :=
  MkDial (df_UDPDisableDomainUnmapping d) (df_UDPConnect d) t (df_TLSFragment d) (df_TLSFragmentFallbackDelay d)
    (df_TLSRecordFragment d) (df_TLSSpoof d) (df_TLSSpoofMethod d) (df_NetworkStrategy d) (df_NetworkType d)
    (df_FallbackNetworkType d) (df_FallbackDelay d).

(** What the sniffers see and write. *)
Definition sniff_view (m : Metadata) : SniffMeta :=
  MkSniff (md_Protocol (mt_request m)) (md_Domain (mt_request m)) (md_Client (mt_request m)) (mt_SniffContext m).
Definition sniffed (s : SniffMeta) (m : Metadata) : Metadata :=
  set_sniff_context (sm_Context s) (on_request (with_sniffed (sm_Protocol s) (sm_Domain s) (sm_Client s)) m).

#[export] Instance Socksaddr_eq_dec : EqDecision Socksaddr.
Proof. solve_decision. Defined.

(** ** The rest of the program *)

Inductive PreMatchAction := PreMatchContinue | PreMatchFlow | PreMatchReject | PreMatchDrop | PreMatchBypass | PreMatchHijackDNS.
#[export] Instance PreMatchAction_eq_dec : EqDecision PreMatchAction.
Proof. solve_decision. Defined.
Definition AddrPort : Type := Addr * Z.

(** Outbounds are known by their tag. *)
Record RouterEnv := MkRouterEnv {
  (* github.com/sagernet/sing *)
  rv_IsDomain : Socksaddr → bool;
  rv_IsValid : Socksaddr → bool;
  rv_IsIPv4 : Socksaddr → bool;
  rv_IsDomainName : string → bool;
  rv_IsLoopback : Addr → bool;                    (* net/netip *)
  rv_IsTimeout : error → bool;
  rv_reserved : string → option error;            (* names of multiplexers that are no longer served *)
  rv_NeedDeadline : bool;
  (* finding the process and the neighbour a connection comes from *)
  rv_process : option (string → AddrPort → AddrPort → option ConnectionOwner);
  rv_MyInterfaceAddress : option (list Addr);
  rv_neighbor : option ((Addr → option (list Z)) * (Addr → option string));
  (* DNS *)
  rv_fakeip : option ((Addr → bool) * (Addr → option string));
  rv_reverse : Addr → option string;
  rv_transports : TransportManager;
  rv_Lookup : Request → string → DNSQueryOptions → result (list Addr);
  (* inbounds and outbounds *)
  rv_Inbound : string → option (bool * bool);     (* TCP and UDP injectable *)
  rv_outbounds : list string;
  rv_Default : string;
  rv_Network : string → list string;
  rv_Selected : string → option (string → option string);
  rv_handler : string → bool;
  rv_flow : string → option (string → Addr → PreMatchAction);
  rv_trackers : nat;
}.

Section router.
Context `{UnicodeTables, SniffLib} (E : RuleEnv) (V : RouterEnv).

Definition Outbound (tag : string) : option string := if bool_decide (tag ∈ rv_outbounds V) then Some tag else None.

(** ** Preparing the metadata *)

Definition isLocalSource (source : Addr) : bool :=
  rv_IsLoopback V source ||
  match rv_MyInterfaceAddress V with Some l => bool_decide (source ∈ l) | None => false end ||
  existsb (λ i, existsb (λ p, bool_decide (prefix_addr p = source)) (if_Addresses i)) (env_Interfaces E).
Definition addr_port (s : Socksaddr) : AddrPort := (s_Addr s, s_Port s).
(** [findProcessInfoCached] is [rv_process]. *)
Definition searchProcessInfo (m : Metadata) : Metadata :=
  match rv_process V, md_ProcessInfo (mt_request m) with
  | Some find, None =>
      if negb (isLocalSource (s_Addr (md_Source (mt_request m)))) then m
      else
        let originDestination :=
          if rv_IsValid V (mt_OriginDestination m) then addr_port (mt_OriginDestination m)
          else if env_IsIP E (mt_Destination m) then addr_port (mt_Destination m)
          else (AddrZero, 0) in
        match find (md_Network (mt_request m)) (addr_port (md_Source (mt_request m))) originDestination with
        | Some processInfo => on_request (with_Process processInfo) m
        | None => m
        end
  | _, _ => m
  end.
Definition find_neighbor (m : Metadata) : Metadata :=
  let q := mt_request m in
  match rv_neighbor V, md_SourceMACAddress q with
  | Some (lookupMAC, lookupHostname), None =>
      let source := s_Addr (md_Source q) in
      if negb (addr_IsValid source) then m
      else
        on_request (with_Neighbor (lookupMAC source) (default (md_SourceHostname q) (lookupHostname source))) m
  | _, _ => m
  end.
Definition missing_fakeip : error := ENew "missing fakeip record, try enable `experimental.cache_file`".
Definition find_reverse (m : Metadata) : Metadata :=
  if bool_decide (md_Domain (mt_request m) = ""%string)
  then match rv_reverse V (s_Addr (mt_Destination m)) with
       | Some domain => on_request (λ q, with_sniffed (md_Protocol q) domain (md_Client q) q) m
       | None => m
       end
  else m.
Definition find_domain (m : Metadata) : result Metadata :=
  let destination := mt_Destination m in
  match rv_fakeip V with
  | Some (contains, lookup) =>
      if addr_IsValid (s_Addr destination) && contains (s_Addr destination) then
        match lookup (s_Addr destination) with
        | None => Err missing_fakeip
        | Some domain =>
            if bool_decide (domain = ""%string) then Ok m
            else Ok (set_fake destination (on_request (with_Destination (MkSocksaddr AddrZero (s_Port destination) domain)) m))
        end
      else Ok (find_reverse m)
  | None => Ok (find_reverse m)
  end.
Definition set_version (m : Metadata) : Metadata :=
  if rv_IsIPv4 V (mt_Destination m) then on_request (with_IPVersion 4) m
  else if env_IsIPv6 E (mt_Destination m) then on_request (with_IPVersion 6) m
  else m.
Definition prepareMatchMetadata (m : Metadata) : result Metadata :=
  m ← find_domain (find_neighbor (searchProcessInfo m));
  Ok (set_version m).

(** ** Actions that change the metadata *)

Definition applyRouteOptionsOverride (o : RuleActionRouteOptions) (m : Metadata) : Metadata :=
  let m := if rv_IsValid V (OverrideAddress o)
           then on_request (with_Destination (MkSocksaddr (s_Addr (OverrideAddress o)) (s_Port (mt_Destination m))
                                                (s_Fqdn (OverrideAddress o)))) m
           else m in
  let m := if 0 <? OverridePort o
           then on_request (with_Destination (MkSocksaddr (s_Addr (mt_Destination m)) (OverridePort o) (s_Fqdn (mt_Destination m)))) m
           else m in
  if 0 <? UDPTimeout o then set_dial (set_timeout (UDPTimeout o) (mt_dial m)) m else m.
(** The other options of a route, as the walk of a connection applies them. *)
Definition apply_dial (o : RuleActionRouteOptions) (d : DialFields) : DialFields :=
  MkDial (UDPDisableDomainUnmapping o || df_UDPDisableDomainUnmapping d) (UDPConnect o || df_UDPConnect d)
    (if 0 <? UDPTimeout o then UDPTimeout o else df_UDPTimeout d)
    (TLSFragment o || df_TLSFragment d)
    (if TLSFragment o then TLSFragmentFallbackDelay o else df_TLSFragmentFallbackDelay d)
    (TLSRecordFragment o || df_TLSRecordFragment d)
    (if bool_decide (TLSSpoof o = ""%string) then df_TLSSpoof d else TLSSpoof o)
    (if bool_decide (TLSSpoof o = ""%string) then df_TLSSpoofMethod d else TLSSpoofMethod o)
    (match NetworkStrategy o with Some _ => NetworkStrategy o | None => df_NetworkStrategy d end)
    (if nonempty (NetworkType o) then NetworkType o else df_NetworkType d)
    (if nonempty (FallbackNetworkType o) then FallbackNetworkType o else df_FallbackNetworkType d)
    (if bool_decide (FallbackDelay o = 0) then df_FallbackDelay d else FallbackDelay o).
Definition apply_options (o : RuleActionRouteOptions) (m : Metadata) : Metadata :=
  let m := if (rv_IsValid V (OverrideAddress o) || (0 <? OverridePort o)) && negb (rv_IsValid V (mt_RouteOriginalDestination m))
           then set_original (mt_Destination m) m else m in
  let m := if rv_IsValid V (OverrideAddress o) then on_request (with_Addresses []) m else m in
  let m := applyRouteOptionsOverride o m in
  set_dial (apply_dial o (mt_dial m)) m.
(** The options the rule's action carries, if any. *)
Definition options_of (a : RuleAction) : option RuleActionRouteOptions :=
  match a with
  | ActRoute _ o | ActRouteOptions o => Some o
  | ActBypass outbound o => if bool_decide (outbound = ""%string) then None else Some o
  | _ => None
  end.

Definition set_transport (t : option Transport) (o : DNSQueryOptions) : DNSQueryOptions :=
  MkQueryOptions t (qo_Strategy o) (qo_LookupStrategy o) (qo_DisableCache o) (qo_DisableOptimisticCache o) (qo_RewriteTTL o)
    (qo_Timeout o) (qo_ClientSubnet o) (qo_RemoveClientSubnet o).
Definition actionResolve (server : string) (o : DNSQueryOptions) (m : Metadata) : result Metadata :=
  if rv_IsDomain V (mt_Destination m) then
    transport ← (if bool_decide (server = ""%string) then Ok None
                 else match tm_Transport (rv_transports V) server with
                      | Some t => Ok (Some t)
                      | None => Err (EFmt "DNS server not found: " [server])
                      end);
    addresses ← rv_Lookup V (mt_request m) (s_Fqdn (mt_Destination m)) (set_transport transport o);
    Ok (on_request (with_Addresses addresses) m)
  else Ok m.

(** ** Sniffing *)

(** The deprecated override of the destination by the sniffed domain. *)
Definition override_sniffed (a : RuleActionSniff) (m : Metadata) : Metadata :=
  if OverrideDestination a && rv_IsDomainName V (md_Domain (mt_request m))
  then on_request (λ q, with_Destination (MkSocksaddr AddrZero (s_Port (md_Destination q)) (md_Domain q)) q) m
  else m.
Definition finish_sniff (a : RuleActionSniff) (errs : list error) (m : Metadata) : Metadata :=
  if bool_decide (errs = []) then override_sniffed a m else m.
Definition same_names (a : RuleActionSniff) (m : Metadata) : bool := bool_decide (mt_SnifferNames m = SnifferNames a).
(** A sniff that would only fail again. *)
Definition failed_before (a : RuleActionSniff) (m : Metadata) : bool :=
  same_names a m && negb (bool_decide (mt_SniffError m = [])) && negb (needs_more (mt_SniffError m)).
Definition sniff_skipped (m : Metadata) : bool :=
  Skip (s_Port (mt_Destination m)) || negb (bool_decide (md_Protocol (mt_request m) = ""%string)).
Definition stream_sniffers (a : RuleActionSniff) : list StreamSniffer :=
  if nonempty (StreamSniffers a) then StreamSniffers a else defaultStreamSniffers.
Definition packet_sniffers (a : RuleActionSniff) : list PacketSniffer :=
  if nonempty (PacketSniffers a) then PacketSniffers a else defaultPacketSniffers.

(** [actionSniff] on a stream: the buffer it filled, if it read anything. *)
Definition sniff_stream (a : RuleActionSniff) (c : conn) (buffers : list (list Z)) (m : Metadata) :
    result (Metadata * conn * list (list Z)) :=
  if sniff_skipped m || negb (nonempty (StreamSniffers a)) && nonempty (PacketSniffers a) || failed_before a m
  then Ok (m, c, buffers)
  else
    p ← PeekStream (sniff_view m) c buffers (stream_sniffers a);
    let m := finish_sniff a (pk_errors p) (set_sniff_state (SnifferNames a) (pk_errors p) (sniffed (pk_meta p) m)) in
    Ok (m, pk_conn p, if bool_decide (pk_buffer p = []) then buffers else buffers ++ [pk_buffer p]).

(** What the reads of a packet connection give; at the end they time out. *)
Inductive packet_event :=
  | PacketData (payload : list Z) (destination : Socksaddr)
  | PacketErr (e : error)
  | PacketCanceled (e : error).                  (* the context ends during the read *)
Definition pconn : Type := list packet_event.
Definition packet : Type := list Z * Socksaddr.

Definition quicMoreData (a : RuleActionSniff) (m : Metadata) : bool := same_names a m && needs_more (mt_SniffError m).
Definition peek_packet (a : RuleActionSniff) (payload : list Z) (m : Metadata) : result Metadata :=
  x ← PeekPacket (sniff_view m) payload (if quicMoreData a m then [QUICClientHello] else packet_sniffers a);
  Ok (set_sniff_state (SnifferNames a) x.2 (sniffed x.1 m)).
(** The packets read before: the first that decides ends the sniff. *)
Fixpoint sniff_buffered (a : RuleActionSniff) (packets : list packet) (m : Metadata) : result (bool * Metadata) :=
  match packets with
  | [] => Ok (false, m)
  | p :: packets =>
      m ← peek_packet a p.1 m;
      if needs_more (mt_SniffError m) then sniff_buffered a packets m else Ok (true, finish_sniff a (mt_SniffError m) m)
  end.
(** The read loop; [fatal] ends the routing of the connection. *)
Record sniff_reads := MkReads { sr_meta : Metadata; sr_conn : pconn; sr_packets : list packet; sr_fatal : option error }.
Fixpoint sniff_read (a : RuleActionSniff) (c : pconn) (packets : list packet) (m : Metadata) : result sniff_reads :=
  match c with
  | [] => Ok (MkReads m [] packets None)
  | PacketCanceled e :: c => Ok (MkReads m c packets (Some e))
  | PacketErr e :: c => Ok (MkReads m c packets (if rv_IsTimeout V e then None else Some e))
  | PacketData payload destination :: c =>
      m ← peek_packet a payload m;
      let packets := packets ++ [(payload, destination)] in
      if needs_more (mt_SniffError m) then sniff_read a c packets m
      else Ok (MkReads (finish_sniff a (mt_SniffError m) m) c packets None)
  end.
(** [actionSniff] on packets. *)
Definition sniff_packets_action (a : RuleActionSniff) (c : pconn) (packets : list packet) (m : Metadata) : result sniff_reads :=
  if sniff_skipped m || negb (nonempty (PacketSniffers a)) && nonempty (StreamSniffers a) || failed_before a m
  then Ok (MkReads m c packets None)
  else
    x ← sniff_buffered a packets m;
    if x.1 : bool then Ok (MkReads x.2 c packets None) else sniff_read a c packets x.2.

(** ** The walk over the rules *)

(** A connection under way: a stream or packets, with what sniffing has read. *)
Inductive input := InStream (c : conn) | InPackets (c : pconn).
Record walked := MkWalked {
  wk_meta : Metadata;
  wk_input : input;
  wk_buffers : list (list Z);
  wk_packets : list packet;
  wk_selected : option (nat * RouteRule);
  wk_fatal : option error;
}.
Definition nil_action : string := "invalid memory address or nil pointer dereference".
(** [rule.Match] on the metadata, after [ResetRuleCache]. *)
Definition try_rule (rule : RouteRule) (m : Metadata) : bool * Metadata :=
  let '(matched, c) := rule_Match E (rr_rule rule) (ResetRuleCache (mt_context m)) in (matched, set_context c m).
(** A rule that ends the walk. *)
Definition is_final (a : RuleAction) : bool :=
  match a with
  | ActRoute _ _ | ActReject _ _ | ActHijackDNS => true
  | ActBypass outbound _ => negb (bool_decide (outbound = ""%string))
  | ActRouteOptions _ | ActSniff _ | ActResolve _ _ => false
  end.
Definition with_options (a : RuleAction) (m : Metadata) : Metadata :=
  match options_of a with Some o => apply_options o m | None => m end.
Fixpoint match_go (rules : list RouteRule) (i : nat) (m : Metadata) (inp : input) (buffers : list (list Z))
    (packets : list packet) : result walked :=
  match rules with
  | [] => Ok (MkWalked m inp buffers packets None None)
  | rule :: rules =>
      let '(matched, m) := try_rule rule m in
      if negb matched then match_go rules (S i) m inp buffers packets
      else
        match rr_action rule with
        | None => Panic nil_action
        | Some action =>
            let m := with_options action m in
            match action, inp with
            | ActSniff a, InStream c =>
                x ← sniff_stream a c buffers m;
                match_go rules (S i) x.1.1 (InStream x.1.2) x.2 packets
            | ActSniff a, InPackets c =>
                r ← sniff_packets_action a c packets m;
                match sr_fatal r with
                | Some e => Ok (MkWalked (sr_meta r) (InPackets (sr_conn r)) buffers (sr_packets r) None (Some e))
                | None => match_go rules (S i) (sr_meta r) (InPackets (sr_conn r)) buffers (sr_packets r)
                end
            | ActResolve server o, _ =>
                match actionResolve server o m with
                | Ok m => match_go rules (S i) m inp buffers packets
                | Err e => Ok (MkWalked m inp buffers packets None (Some e))
                | Panic w => Panic w
                end
            | _, _ =>
                if is_final action then Ok (MkWalked m inp buffers packets (Some (i, rule)) None)
                else match_go rules (S i) m inp buffers packets
            end
        end
  end.
Definition matchRule (rules : list RouteRule) (m : Metadata) (inp : input) : result walked :=
  match prepareMatchMetadata m with
  | Ok m => match_go rules 0 m inp [] []
  | Err e => Ok (MkWalked m inp [] [] None (Some e))
  | Panic w => Panic w
  end.

(** ** Outbounds *)

Definition upper_char (c : Ascii.ascii) : Ascii.ascii :=
  let n := Ascii.N_of_ascii c in if ((97 <=? n) && (n <=? 122))%N then Ascii.ascii_of_N (n - 32) else c.
Fixpoint upper (s : string) : string :=
  match s with EmptyString => EmptyString | String c s => String (upper_char c) (upper s) end.
Definition unsupported_network (network tag : string) : error :=
  EFmt "%s is not supported by outbound: %s" [upper network; tag].
Fixpoint resolve_go (fuel : nat) (chain : list string) (outbound network : string) : result (list string) :=
  match rv_Selected V outbound with
  | Some selected =>
      match selected network, fuel with
      | None, _ => Err (unsupported_network network outbound)
      | Some _, O => Panic out_of_fuel
      | Some outbound, S fuel => resolve_go fuel (chain ++ [outbound]) outbound network
      end
  | None =>
      if bool_decide (network ∈ rv_Network V outbound) then Ok chain else Err (unsupported_network network outbound)
  end.
(** Groups do not select each other in a circle, so a chain has each outbound
    once at most. *)
Definition resolveOutbound (outbound network : string) : result (list string) :=
  resolve_go (length (rv_outbounds V)) [outbound] outbound network.
(** [registerInterrupt]: the groups the connection is attached to. *)
Definition registerInterrupt (chain : list string) : list string :=
  filter (λ o, is_Some (rv_Selected V o)) chain.

(** ** Routing a connection *)

(** The connection an outbound gets: the client's, wrapped. *)
Inductive routed_conn :=
  | InputConn
  | DeadlineConn (c : routed_conn)
  | CachedConn (c : routed_conn) (buffer : list Z)
  | CachedPacketConn (c : routed_conn) (p : packet)
  | TrackedConn (c : routed_conn) (tracker : nat)
  | FakeIPNATConn (c : routed_conn) (origin destination : Socksaddr)
  | PoetConn (c : routed_conn).
Definition cached_conn (c : routed_conn) (buffers : list (list Z)) : routed_conn := foldl CachedConn c buffers.
Definition cached_packets (c : routed_conn) (packets : list packet) : routed_conn := foldl CachedPacketConn c packets.
Definition tracked (c : routed_conn) : routed_conn := foldl TrackedConn c (seq 0 (rv_trackers V)).

(** What becomes of it. [Handed] says which chain of outbounds was selected, the
    groups it is attached to and whether the outbound handles connections
    itself; [rest] is what the client's connection still has. *)
Inductive routed :=
  | Injected (inbound : string) (m : Metadata) (rest : input)
  | HijackedDNS (c : routed_conn) (packets : list packet) (m : Metadata) (rest : input)
  | Handed (chain groups : list string) (byHandler : bool) (c : routed_conn) (m : Metadata) (rest : input)
  | Rejected (rule : nat) (e : error) (dropCounter : list Z).

Definition outbound_not_found (tag : string) : error := EFmt "outbound not found: " [tag].
Definition find_outbound (tag : string) : result string :=
  match Outbound tag with Some o => Ok o | None => Err (outbound_not_found tag) end.
(** The decision of the selected rule; [now] and [drops] are the clock and the
    counters of the reject actions. *)
Inductive decision := ToOutbound (tag : string) | ToDNS | ToReject (rule : nat) (e : error) (dropCounter : list Z).
Definition decide_rule (reply : error) (now : Z) (drops : nat → list Z) (selected : option (nat * RouteRule)) : result decision :=
  match selected with
  | None => Ok (ToOutbound (rv_Default V))
  | Some (i, rule) =>
      match rr_action rule with
      | Some (ActRoute tag _) => o ← find_outbound tag; Ok (ToOutbound o)
      | Some (ActBypass tag _) =>
          if bool_decide (tag = ""%string) then Panic nil_action else o ← find_outbound tag; Ok (ToOutbound o)
      | Some (ActReject RejectReply _) => Err reply
      | Some (ActReject method noDrop) =>
          x ← reject_Error method noDrop now (drops i);
          match x.1 with Some e => Ok (ToReject i e x.2) | None => Panic nil_action end
      | Some ActHijackDNS => Ok ToDNS
      | _ => Panic nil_action
      end
  end.
Definition reply_not_supported (network : string) : error :=
  EFmt "reject method `reply` is not supported for %s connections" [network].

(** The deprecated detour of an inbound to another. *)
Definition route_detour (injectable : bool * bool → bool) (kind : string) (m : Metadata) (inp : input) : result routed :=
  let detour := mt_InboundDetour m in
  if bool_decide (mt_LastInbound m = detour) then Err (EFmt "routing loop on detour: " [detour])
  else match rv_Inbound V detour with
       | None => Err (EFmt "inbound detour not found: " [detour])
       | Some i =>
           if negb (injectable i) then Err (EFmt ("inbound detour is not " +:+ kind +:+ " injectable: ") [detour])
           else Ok (Injected detour (set_detour (md_Inbound (mt_request m)) (on_request (with_Inbound detour) m)) inp)
       end.
Definition is_tun_dns (m : Metadata) : bool :=
  bool_decide (mt_InboundType m = "tun"%string) && bool_decide (md_Protocol (mt_request m) = "dns"%string).
Definition last_of (chain : list string) : string := List.last chain ""%string.

Definition routeConnection (now : Z) (drops : nat → list Z) (rules : list RouteRule) (c : conn) (m : Metadata) : result routed :=
  if negb (bool_decide (mt_InboundDetour m = ""%string)) then route_detour fst "TCP" m (InStream c)
  else
    let m := on_request (with_Network "tcp") m in
    match rv_reserved V (s_Fqdn (mt_Destination m)) with
    | Some e => Err e
    | None =>
        if is_tun_dns m then Ok (HijackedDNS InputConn [] m (InStream c))
        else
          let conn := if rv_NeedDeadline V then DeadlineConn InputConn else InputConn in
          w ← matchRule rules m (InStream c);
          match wk_fatal w with
          | Some e => Err e
          | None =>
              d ← decide_rule (reply_not_supported "TCP") now drops (wk_selected w);
              match d with
              | ToReject i e counter => Ok (Rejected i e counter)
              | ToDNS => Ok (HijackedDNS (cached_conn conn (wk_buffers w)) [] (wk_meta w) (wk_input w))
              | ToOutbound outbound =>
                  chain ← resolveOutbound outbound "tcp";
                  Ok (Handed chain (registerInterrupt chain) (rv_handler V (last_of chain))
                        (PoetConn (tracked (cached_conn conn (wk_buffers w)))) (wk_meta w) (wk_input w))
              end
          end
    end.

Definition routePacketConnection (now : Z) (drops : nat → list Z) (rules : list RouteRule) (c : pconn) (m : Metadata) :
    result routed :=
  if negb (bool_decide (mt_InboundDetour m = ""%string)) then route_detour snd "UDP" m (InPackets c)
  else
    let m := on_request (with_Network "udp") m in
    if is_tun_dns m then Ok (HijackedDNS InputConn [] m (InPackets c))
    else
      w ← matchRule rules m (InPackets c);
      match wk_fatal w with
      | Some e => Err e
      | None =>
          d ← decide_rule (reply_not_supported "UDP") now drops (wk_selected w);
          match d with
          | ToReject i e counter => Ok (Rejected i e counter)
          | ToDNS => Ok (HijackedDNS InputConn (wk_packets w) (wk_meta w) (wk_input w))
          | ToOutbound outbound =>
              chain ← resolveOutbound outbound "udp";
              let conn := tracked (cached_packets InputConn (wk_packets w)) in
              let conn := if mt_FakeIP (wk_meta w)
                          then FakeIPNATConn conn (mt_OriginDestination (wk_meta w)) (mt_Destination (wk_meta w)) else conn in
              Ok (Handed chain (registerInterrupt chain) (rv_handler V (last_of chain)) (PoetConn conn) (wk_meta w) (wk_input w))
          end
      end.

(** [RouteConnection] and [RoutePacketConnection]: whether the call returns, and
    what.  [closed] says that the handler of the connection calls [onClose]; a
    call that waits for a close that never comes returns when the router is shut
    down. *)
Inductive call := Returns (e : option error) | WaitsForShutdown.
Definition wait_close (closed : bool) : call := if closed then Returns None else WaitsForShutdown.
Definition RouteConnection (r : result routed) (closed : bool) : result call :=
  match r with
  | Err e => Ok (Returns (Some e))
  | Ok (Rejected _ e _) => Ok (Returns (Some e))
  | Ok _ => Ok (wait_close closed)
  | Panic w => Panic w
  end.
Definition RoutePacketConnection (r : result routed) (closed : bool) : result call :=
  match r with
  | Err _ | Ok (Rejected _ _ _) => Ok (wait_close false)         (* nobody calls onClose *)
  | Ok _ => Ok (wait_close closed)
  | Panic w => Panic w
  end.

(** ** Packets without a connection *)

Record PreMatchResult := MkPreMatch {
  pm_Action : PreMatchAction;
  pm_Outbound : option string;
  pm_Destination : option AddrPort;
  pm_UDPTimeout : Z;
}.
Definition pre_match (a : PreMatchAction) : PreMatchResult := MkPreMatch a None None 0.
Definition PortProtocol (port : Z) : string :=
  if port =? 53 then "dns" else if port =? 123 then "ntp" else if port =? 3478 then "stun" else if port =? 443 then "quic" else "".
Definition ProtocolTimeout (protocol : string) : Z :=
  if bool_decide (protocol ∈ ["dns"; "ntp"; "stun"]%string) then 10 * second
  else if bool_decide (protocol ∈ ["quic"; "dtls"]%string) then 30 * second
  else 0.
Definition flow_timeout (m : Metadata) : Z :=
  if negb (bool_decide (md_Network (mt_request m) = "udp"%string)) then 0
  else if 0 <? df_UDPTimeout (mt_dial m) then df_UDPTimeout (mt_dial m)
  else
    let protocol := if bool_decide (md_Protocol (mt_request m) = ""%string) then PortProtocol (s_Port (mt_Destination m))
                    else md_Protocol (mt_request m) in
    ProtocolTimeout protocol.
(** The destination of a flow, when it is not the one of the packet. *)
Definition flow_destination (packetDestination destination : Socksaddr) : option AddrPort :=
  if bool_decide (destination = packetDestination) then None else Some (addr_port destination).
(** The flow to a fake destination goes to a resolved address of its family. *)
Definition pick_address (packetDestination : Socksaddr) (addresses : list Addr) : option Addr :=
  match List.find (λ a, Bool.eqb (Is4 a) (rv_IsIPv4 V packetDestination)) addresses with
  | Some a => if addr_IsValid a then Some a else None
  | None => None
  end.
(** The flow through an outbound that takes flows. *)
Definition flow_through (PreMatchFlow' : string → Addr → PreMatchAction) (outbound : string) (packetDestination : Socksaddr)
    (m : Metadata) : PreMatchResult :=
  let network := md_Network (mt_request m) in
  let destination := mt_Destination m in
  let action := PreMatchFlow' network (s_Addr destination) in
  if negb (bool_decide (action = PreMatchFlow)) then MkPreMatch action (Some outbound) None 0
  else if rv_IsDomain V destination then
    if negb (mt_FakeIP m) then pre_match PreMatchContinue
    else
      match pick_address packetDestination (md_DestinationAddresses (mt_request m)) with
      | None => pre_match PreMatchReject
      | Some newDestination =>
          let action := PreMatchFlow' network newDestination in
          if negb (bool_decide (action = PreMatchFlow)) then MkPreMatch action (Some outbound) None 0
          else MkPreMatch PreMatchFlow (Some outbound) (Some (newDestination, s_Port destination)) (flow_timeout m)
      end
  else MkPreMatch PreMatchFlow (Some outbound) (flow_destination packetDestination destination) (flow_timeout m).
Definition preMatchFlow (packetDestination : Socksaddr) (outboundTag : string) (m : Metadata) : result PreMatchResult :=
  match (if bool_decide (outboundTag = ""%string) then Some (rv_Default V) else Outbound outboundTag) with
  | None => Ok (pre_match PreMatchContinue)
  | Some outbound =>
      match resolveOutbound outbound (md_Network (mt_request m)) with
      | Ok chain =>
          match rv_flow V (last_of chain) with
          | None => Ok (pre_match PreMatchContinue)
          | Some PreMatchFlow' => Ok (flow_through PreMatchFlow' (last_of chain) packetDestination m)
          end
      | Err _ => Ok (pre_match PreMatchContinue)
      | Panic w => Panic w
      end
  end.

(** The sniff of [PreMatch]: [None] when it cannot decide. *)
Definition pre_sniff (a : RuleActionSniff) (firstPacket : list Z) (m : Metadata) : result (option Metadata) :=
  let network := md_Network (mt_request m) in
  if bool_decide (network = "icmp"%string) then Ok (Some m)
  else if negb (bool_decide (network = "udp"%string)) || negb (nonempty firstPacket) then Ok None
  else if sniff_skipped m || negb (nonempty (PacketSniffers a)) && nonempty (StreamSniffers a) ||
          same_names a m && negb (bool_decide (mt_SniffError m = []))
  then Ok (Some m)
  else
    x ← PeekPacket (sniff_view m) firstPacket (packet_sniffers a);
    let m := set_sniff_state (SnifferNames a) x.2 (sniffed x.1 m) in
    if needs_more x.2 then Ok None else Ok (Some (finish_sniff a x.2 m)).
(** [RuleActionBypass] in [PreMatch]. *)
Definition pre_bypass (packetDestination : Socksaddr) (outbound : string) (m : Metadata) : result PreMatchResult :=
  let changed := rv_IsDomain V (mt_Destination m) || negb (bool_decide (mt_Destination m = packetDestination)) in
  if bool_decide (outbound = ""%string)
  then Ok (pre_match (if changed then PreMatchContinue else PreMatchBypass))
  else if changed then preMatchFlow packetDestination outbound m
  else
    r ← preMatchFlow packetDestination outbound m;
    if negb (bool_decide (pm_Action r = PreMatchFlow)) then Ok (pre_match PreMatchBypass)
    else Ok (MkPreMatch PreMatchBypass (pm_Outbound r) (pm_Destination r) (pm_UDPTimeout r)).
Definition pre_reject (method : RejectMethod) (noDrop : bool) (now : Z) (dropCounter : list Z) (m : Metadata) : result PreMatchResult :=
  x ← reject_Error method noDrop now dropCounter;
  match x.1 with
  | None => Ok (pre_match (if bool_decide (md_Network (mt_request m) = "icmp"%string) then PreMatchContinue else PreMatchReject))
  | Some e => Ok (pre_match (if is_error "packet dropped" e then PreMatchDrop else PreMatchReject))
  end.
Fixpoint pre_go (now : Z) (drops : nat → list Z) (firstPacket : list Z) (packetDestination : Socksaddr)
    (rules : list RouteRule) (i : nat) (m : Metadata) : result PreMatchResult :=
  match rules with
  | [] => preMatchFlow packetDestination "" m
  | rule :: rules =>
      let '(matched, m) := try_rule rule m in
      if negb matched then pre_go now drops firstPacket packetDestination rules (S i) m
      else
        match rr_action rule with
        | None => Ok (pre_match PreMatchContinue)
        | Some (ActSniff a) =>
            x ← pre_sniff a firstPacket m;
            match x with
            | None => Ok (pre_match PreMatchContinue)
            | Some m => pre_go now drops firstPacket packetDestination rules (S i) m
            end
        | Some (ActRouteOptions o) => pre_go now drops firstPacket packetDestination rules (S i) (applyRouteOptionsOverride o m)
        | Some (ActRoute outbound o) => preMatchFlow packetDestination outbound (applyRouteOptionsOverride o m)
        | Some (ActBypass outbound o) => pre_bypass packetDestination outbound (applyRouteOptionsOverride o m)
        | Some (ActReject method noDrop) => pre_reject method noDrop now (drops i) m
        | Some ActHijackDNS =>
            Ok (pre_match (if bool_decide (md_Network (mt_request m) = "udp"%string) then PreMatchHijackDNS else PreMatchContinue))
        | Some (ActResolve server o) =>
            match actionResolve server o m with
            | Ok m => pre_go now drops firstPacket packetDestination rules (S i) m
            | Err _ => Ok (pre_match PreMatchReject)
            | Panic w => Panic w
            end
        end
  end.
Definition PreMatch (now : Z) (drops : nat → list Z) (rules : list RouteRule) (m : Metadata) (firstPacket : list Z) :
    result PreMatchResult :=
  let m := on_request (with_PreMatch true) m in
  let packetDestination := mt_Destination m in
  match prepareMatchMetadata m with
  | Ok m => pre_go now drops firstPacket packetDestination rules 0 m
  | Err _ => Ok (pre_match PreMatchContinue)
  | Panic w => Panic w
  end.

(** ** The verdict on a flow: [adapter.JudgeFlow] *)

Inductive FlowAction := ActionAccept | ActionFlow | ActionReject' | ActionDrop | ActionBypass | ActionHijack.
Record FlowVerdict := MkVerdict {
  fv_Action : FlowAction;
  fv_Port : option string;
  fv_Destination : option AddrPort;
  fv_UDPTimeout : Z;
}.
Definition verdict (a : FlowAction) : FlowVerdict := MkVerdict a None None 0.
(** The protocol numbers of IP. *)
Definition network_name (network : Z) : option string :=
  if network =? 6 then Some "tcp"%string
  else if network =? 17 then Some "udp"%string
  else if (network =? 1) || (network =? 58) then Some "icmp"%string
  else None.
Definition no_dial : DialFields := MkDial false false 0 false 0 false "" MethodWrongSequence None [] [] 0.
Definition no_socksaddr : Socksaddr := MkSocksaddr AddrZero 0 "".
Definition no_rule_cache : RuleCache := MkRuleCache false false false false false false 0 false.
Definition flow_metadata (inbound inboundType network : string) (source destination : AddrPort) : Metadata :=
  let port (p : Z) := if bool_decide (network = "icmp"%string) then 0 else p in
  MkMetadata
    (MkContext
       (MkRequest inbound 0 network (MkSocksaddr source.1 (port source.2) "") (MkSocksaddr destination.1 (port destination.2) "")
          "" "" "" "" "" [] None ∅ false None None "" 0 PrefixZero false false) no_rule_cache)
    inboundType "" "" None [] [] no_socksaddr no_socksaddr false no_dial.
Definition judge (network : string) (destination : AddrPort) (r : PreMatchResult) : FlowVerdict :=
  match pm_Action r with
  | PreMatchFlow =>
      match pm_Outbound r with
      | None => verdict ActionAccept
      | Some port =>
          MkVerdict ActionFlow (Some port)
            (match pm_Destination r with
             | Some d =>
                 if addr_IsValid d.1
                 then Some (d.1, if bool_decide (network = "icmp"%string) then destination.2 else d.2) else None
             | None => None
             end) (pm_UDPTimeout r)
      end
  | PreMatchReject => verdict ActionReject'
  | PreMatchDrop => verdict ActionDrop
  | PreMatchBypass =>
      match pm_Outbound r with
      | None => verdict ActionBypass
      | Some port => MkVerdict ActionBypass (Some port) None (pm_UDPTimeout r)
      end
  | PreMatchHijackDNS => verdict ActionHijack
  | PreMatchContinue => verdict ActionAccept
  end.
Definition JudgeFlow (now : Z) (drops : nat → list Z) (rules : list RouteRule) (inbound inboundType : string) (network : Z)
    (source destination : AddrPort) (firstPacket : list Z) : result FlowVerdict :=
  match network_name network with
  | None => Ok (verdict ActionAccept)
  | Some name =>
      r ← PreMatch now drops rules (flow_metadata inbound inboundType name source destination) firstPacket;
      Ok (judge name destination r)
  end.
End router.
