(* ===== verification/RouteProofs.v ===== *)
(** * What the router guarantees

    [routed_stream_intact]: routing a stream never panics, and an outbound reads
    the sniffed bytes before the rest; with at most one sniff rule that is the
    client's stream.  [prematch_agrees]: a verdict of [PreMatch] on a first packet
    is what the walk of the connection would have done.  The walk is pure in the
    request: a rule is asked its documented condition. *)

From S2P Require Import Prelude GoStrings NetAddr RuleContext RuleItems RuleMatch RuleSpec RuleBuild Bytes.
From S2P Require Import Slices Quic DnsActions DnsCache DnsMode DepStart Managers Sniff RouteAction Route.

Local Open Scope Z_scope.

(** ** Actions and environments *)

(** An action that the options of a configuration give. *)
Definition action_ok `{SniffLib} (a : RuleAction) : Prop :=
  match a with
  | ActSniff a => Forall (total_on bytes_chunks) (StreamSniffers a) ∧ Forall (total_on is_bytes) (PacketSniffers a)
  | ActReject (RejectOther _) _ => False
  | _ => True
  end.
Definition rule_ok `{SniffLib} (r : RouteRule) : Prop := ∃ a, rr_action r = Some a ∧ action_ok a.

(** The outbounds were started in the order [s], and a group selects one of the
    outbounds it depends on. *)
Record router_ok (V : RouterEnv) (s : list Item) : Prop := {
  ok_started : schedule i_tag i_deps ∅ s;
  ok_tags o : o ∈ rv_outbounds V ↔ o ∈ i_tag <$> s;
  ok_length : (length s ≤ length (rv_outbounds V))%nat;
  ok_default : rv_Default V ∈ rv_outbounds V;
  ok_selected x f network o : x ∈ s → rv_Selected V (i_tag x) = Some f → f network = Some o → o ∈ i_deps x;
  ok_lookup q domain o : safe (rv_Lookup V q domain o);
}.

Section sniffers.
Context `{SniffLibOk}.
Lemma sniffers_named_ok name s p : sniffers_named name = Some (s, p) →
  Forall (total_on bytes_chunks) s ∧ Forall (total_on is_bytes) p.
Proof.
  unfold sniffers_named. intros Hn.
  repeat (case_bool_decide; [injection Hn as <- <-; split; repeat constructor;
    auto using TLSClientHello_total, HTTPHost_total, StreamDomainNameQuery_total, BitTorrent_total, SSH_total, RDP_total,
      QUICClientHello_total, DomainNameQuery_total, STUNMessage_total, UTP_total, UDPTracker_total, DTLSRecord_total, NTP_total|]).
  done.
Qed.
Lemma build_ok names s p x :
  Forall (total_on bytes_chunks) s → Forall (total_on is_bytes) p → build names s p = Ok x →
  Forall (total_on bytes_chunks) x.1 ∧ Forall (total_on is_bytes) x.2.
Proof.
  revert s p. induction names as [|name names IH]; intros s p Hs Hp; cbn [build]; [by intros [= <-]|].
  destruct (sniffers_named name) as [[s' p']|] eqn:Hn; [|done]. apply sniffers_named_ok in Hn as [??].
  apply IH; by apply Forall_app.
Qed.
End sniffers.

(** ** Following groups *)

Lemma schedule_before s1 x s2 d :
  schedule i_tag i_deps ∅ (s1 ++ x :: s2) → d ∈ i_deps x → ∃ y, y ∈ s1 ∧ i_tag y = d.
Proof.
  intros [_ (_ & Hd & _)]%(schedule_app (W:=unit) i_tag i_deps (λ _ w, (Ok tt, w)) (λ _ _, None) (λ _ _, EOF)) Hin.
  specialize (Hd d Hin). rewrite (right_id_L ∅ (∪)) in Hd.
  unfold tags in Hd. rewrite elem_of_list_to_set, list_elem_of_fmap in Hd. naive_solver.
Qed.

Section resolve.
Context (V : RouterEnv) (s : list Item) (Hok : router_ok V s).

Lemma resolve_go_safe fuel s1 x s2 chain network :
  s = s1 ++ x :: s2 → (length s1 ≤ fuel)%nat → safe (resolve_go V fuel chain (i_tag x) network).
Proof.
  revert s1 x s2 chain. induction fuel as [|fuel IH]; intros s1 x s2 chain Hs Hf; cbn [resolve_go].
  all: destruct (rv_Selected V (i_tag x)) as [f|] eqn:Hsel; [|by case_bool_decide].
  all: destruct (f network) as [o|] eqn:Ho; try done.
  all: assert (o ∈ i_deps x) as Hd by (eapply (ok_selected _ _ Hok); [rewrite Hs; set_solver|done..]).
  all: pose proof (ok_started _ _ Hok) as Hsch; rewrite Hs in Hsch.
  all: destruct (schedule_before _ _ _ _ Hsch Hd) as (y & Hy & <-).
  all: apply list_elem_of_split in Hy as (s1' & s1'' & ->); rewrite length_app in Hf; cbn in Hf.
  { lia. }
  apply (IH s1' y (s1'' ++ x :: s2)); [by rewrite Hs, <- app_assoc|lia].
Qed.
(** The loop of [resolveOutbound] ends: a group comes after what it selects. *)
Lemma resolveOutbound_safe o network : o ∈ rv_outbounds V → safe (resolveOutbound V o network).
Proof.
  intros Ho. apply (ok_tags _ _ Hok), list_elem_of_fmap in Ho as (x & -> & Hx).
  apply list_elem_of_split in Hx as (s1 & s2 & Hs). apply (resolve_go_safe _ s1 x s2); [done|].
  pose proof (ok_length _ _ Hok) as Hl. rewrite Hs, length_app in Hl. cbn in Hl. lia.
Qed.
Lemma find_outbound_safe {A} tag (f : string → result A) :
  (∀ o, o ∈ rv_outbounds V → safe (f o)) → safe (find_outbound V tag ≫= f).
Proof. intros Hf. unfold find_outbound, Outbound. case_bool_decide; [by apply Hf|done]. Qed.
End resolve.

(** ** A rule is asked its documented condition *)

Section walk.
Context `{UnicodeTables, SniffLibOk} (E : RuleEnv) (V : RouterEnv).

(** Outside the pre-match of DNS rules. *)
Definition outside (m : Metadata) : Prop := ignoring (mt_context m) = false.
Definition holds (rule : RouteRule) (q : Request) : bool := spec_match E (rr_rule rule) q false false.
(** The metadata without the bookkeeping of the rules. *)
Definition uncached (m m' : Metadata) : Prop :=
  m' = set_context (mt_context m') m ∧ mt_request m' = mt_request m ∧ outside m'.
Lemma uncached_set c m : request c = mt_request m → ignoring c = false → uncached m (set_context c m).
Proof. by destruct m. Qed.
Lemma try_rule_exact rule m : outside m →
  ∃ m', try_rule E rule m = (holds rule (mt_request m), m') ∧ uncached m m'.
Proof.
  intros Hm. unfold try_rule.
  pose proof (rule_Match_exact E (rr_rule rule) (ResetRuleCache (mt_context m)) eq_refl Hm) as (Hb & _ & Hk).
  destruct (rule_Match E (rr_rule rule) (ResetRuleCache (mt_context m))) as [b c]. cbn [fst snd] in *.
  eexists. split; [by rewrite Hb|]. apply uncached_set; [by apply keeps_request in Hk|]. by destruct Hk as [_ ->].
Qed.
Lemma uncached_view m m' : uncached m m' → sniff_view m' = sniff_view m.
Proof. intros (Hm & Hq & _). unfold sniff_view. rewrite Hq. by rewrite Hm. Qed.

(** ** Metadata the sniffers can work on *)

Definition meta_ok (m : Metadata) : Prop := outside m ∧ context_ok (sniff_view m).
Lemma meta_ok_uncached m m' : meta_ok m → uncached m m' → meta_ok m'.
Proof. intros [_ Hc] Hu. split; [apply Hu|]. by rewrite (uncached_view _ _ Hu). Qed.
Lemma meta_ok_request f m : meta_ok m → meta_ok (on_request f m).
Proof. done. Qed.
Lemma meta_ok_original d m : meta_ok m → meta_ok (set_original d m).
Proof. done. Qed.
Lemma meta_ok_dial d m : meta_ok m → meta_ok (set_dial d m).
Proof. done. Qed.
Lemma meta_ok_fake o m : meta_ok m → meta_ok (set_fake o m).
Proof. done. Qed.
Lemma meta_ok_if (b : bool) m m' : meta_ok m → meta_ok m' → meta_ok (if b then m else m').
Proof. by destruct b. Qed.
Lemma meta_ok_override o m : meta_ok m → meta_ok (applyRouteOptionsOverride V o m).
Proof. intros Hm. unfold applyRouteOptionsOverride. cbv zeta. repeat first [apply meta_ok_if|done|apply meta_ok_dial|apply meta_ok_request]. Qed.
Lemma meta_ok_options a m : meta_ok m → meta_ok (with_options V a m).
Proof.
  intros Hm. unfold with_options. destruct (options_of a) as [o|]; [|done]. unfold apply_options. cbv zeta.
  apply meta_ok_dial, meta_ok_override. repeat first [apply meta_ok_if|apply meta_ok_request|apply meta_ok_original|done].
Qed.
Lemma meta_ok_sniffed s names errs m :
  outside m → context_ok s → meta_ok (set_sniff_state names errs (sniffed s m)).
Proof. by intros Hm Hs. Qed.
Lemma meta_ok_finish a errs m : meta_ok m → meta_ok (finish_sniff V a errs m).
Proof. intros Hm. unfold finish_sniff, override_sniffed. by repeat first [apply meta_ok_if|apply meta_ok_request|done]. Qed.
Lemma meta_ok_prepare m : meta_ok m →
  match prepareMatchMetadata E V m with Ok m' => meta_ok m' | Err _ => True | Panic _ => False end.
Proof.
  intros Hm. unfold prepareMatchMetadata.
  assert (∀ m, meta_ok m → meta_ok (set_version E V m)) as Hv.
  { intros m' Hm'. unfold set_version. by repeat first [apply meta_ok_if|apply meta_ok_request|done]. }
  assert (meta_ok (find_neighbor V (searchProcessInfo E V m))) as Hn.
  { unfold find_neighbor, searchProcessInfo. repeat case_match; done. }
  revert Hn. generalize (find_neighbor V (searchProcessInfo E V m)) as x. intros x Hx.
  assert (meta_ok (find_reverse V x)) as Hr by (unfold find_reverse; repeat case_match; done).
  unfold find_domain. cbv zeta. destruct (rv_fakeip V) as [[contains lookup]|]; [|by apply Hv].
  destruct (_ && _); [|by apply Hv]. destruct (lookup _) as [d|]; [|done]. case_bool_decide; by apply Hv.
Qed.

(** ** Streams *)

Lemma stream_sniffers_ok' a : Forall (total_on bytes_chunks) (StreamSniffers a) →
  Forall (total_on bytes_chunks) (stream_sniffers a).
Proof. intros Ha. unfold stream_sniffers. destruct (nonempty _); [done|]. apply stream_sniffers_ok. Qed.
Lemma packet_sniffers_ok' a : Forall (total_on is_bytes) (PacketSniffers a) →
  Forall (total_on is_bytes) (packet_sniffers a).
Proof. intros Ha. unfold packet_sniffers. destruct (nonempty _); [done|]. apply packet_sniffers_ok. Qed.
(** A sniff keeps every byte: what it reads is in its buffer. *)
Lemma sniff_stream_ok a c buffers m :
  Forall (total_on bytes_chunks) (StreamSniffers a) → meta_ok m → is_bytes (concat buffers ++ sent c) →
  ∃ m' c' buffers', sniff_stream V a c buffers m = Ok (m', c', buffers') ∧ meta_ok m' ∧
    concat buffers' ++ sent c' = concat buffers ++ sent c ∧ (length buffers' ≤ S (length buffers))%nat.
Proof.
  intros Ha [Ho Hm] Hb. unfold sniff_stream. destruct (_ || _ || _).
  { exists m, c, buffers. split_and!; [done|by split|done|lia]. }
  destruct (PeekStream_ok (sniff_view m) c buffers (stream_sniffers a)) as (p & -> & Hp & Hs);
    [by apply stream_sniffers_ok'|done..|].
  cbn [mbind result_bind]. eexists _, _, _. split; [done|]. split; [by apply meta_ok_finish, meta_ok_sniffed|].
  case_bool_decide as Hn; [rewrite Hn in Hs; cbn in Hs; by rewrite Hs; split; [done|lia]|].
  rewrite concat_app, length_app. cbn. rewrite app_nil_r, <- app_assoc, Hs. split; [done|lia].
Qed.

Definition is_sniff (r : RouteRule) : Prop := match rr_action r with Some (ActSniff _) => True | _ => False end.
#[local] Instance is_sniff_dec r : Decision (is_sniff r).
Proof. unfold is_sniff. repeat case_match; apply _. Defined.
Definition sniff_rules (rules : list RouteRule) : nat := length (filter is_sniff rules).
(** A selected rule decides something. *)
Definition selection_ok (rules : list RouteRule) (selected : option (nat * RouteRule)) : Prop :=
  match selected with
  | None => True
  | Some (_, rule) => rule ∈ rules ∧ ∃ a, rr_action rule = Some a ∧ is_final a = true
  end.
Lemma selection_cons rule rules selected : selection_ok rules selected → selection_ok (rule :: rules) selected.
Proof. destruct selected as [[i r]|]; [|done]. intros [? ?]. split; [by right|done]. Qed.
Lemma actionResolve_ok s server o m : router_ok V s → meta_ok m →
  match actionResolve V server o m with Ok m' => meta_ok m' | Err _ => True | Panic _ => False end.
Proof.
  intros Hok Hm. unfold actionResolve. destruct (rv_IsDomain V _); [|done].
  pose proof (λ t, ok_lookup _ _ Hok (mt_request m) (s_Fqdn (mt_Destination m)) (set_transport t o)) as Hl. unfold safe in Hl.
  destruct (if bool_decide _ then _ else _) as [t|e|w] eqn:Ht; [|done|by case_bool_decide; case_match].
  cbn. specialize (Hl t). by destruct (rv_Lookup V _ _ _).
Qed.

(** The state of the walk on a stream, against the one it started in. *)
Definition stream_walk (rules : list RouteRule) (c : conn) (buffers : list (list Z)) (w : walked) : Prop :=
  ∃ c', wk_input w = InStream c' ∧ concat (wk_buffers w) ++ sent c' = concat buffers ++ sent c ∧
    (length (wk_buffers w) ≤ sniff_rules rules + length buffers)%nat ∧ selection_ok rules (wk_selected w).
Lemma sniff_rules_cons rule rules : sniff_rules (rule :: rules) = ((if decide (is_sniff rule) then 1 else 0) + sniff_rules rules)%nat.
Proof. unfold sniff_rules. cbn [filter list_filter]. by destruct (decide (is_sniff rule)). Qed.
Lemma stream_walk_cons rule rules c buffers c' buffers' w :
  stream_walk rules c' buffers' w → concat buffers' ++ sent c' = concat buffers ++ sent c →
  (length buffers' ≤ (if decide (is_sniff rule) then 1 else 0) + length buffers)%nat →
  stream_walk (rule :: rules) c buffers w.
Proof.
  intros (d & Hi & Hk & Hn & Hs) He Hl.
  exists d. split_and!; [done|by rewrite Hk|rewrite sniff_rules_cons; lia|by apply selection_cons].
Qed.
Lemma stream_walk_done rule rules i c buffers m packets a :
  rr_action rule = Some a → is_final a = true →
  stream_walk (rule :: rules) c buffers (MkWalked m (InStream c) buffers packets (Some (i, rule)) None).
Proof. intros Ha Hf. exists c. split_and!; [done..|cbn; lia|split; [by left|by exists a]]. Qed.
Lemma stream_walk_none rules c buffers m packets e :
  stream_walk rules c buffers (MkWalked m (InStream c) buffers packets None e).
Proof. exists c. split_and!; [done..|cbn; lia|done]. Qed.

Lemma match_go_stream s rules i m c buffers packets :
  router_ok V s → Forall rule_ok rules → meta_ok m → is_bytes (concat buffers ++ sent c) →
  ∃ w, match_go E V rules i m (InStream c) buffers packets = Ok w ∧ stream_walk rules c buffers w.
Proof.
  intros Hok Hr. revert i m c buffers packets.
  induction Hr as [|rule rules (action & Ha & Hact) Hr IH]; intros i m c buffers packets Hm Hb; cbn [match_go].
  { eexists. split; [done|]. apply stream_walk_none. }
  destruct (try_rule_exact rule m) as (m1 & -> & Hu); [apply Hm|]. apply (meta_ok_uncached _ _ Hm) in Hu as Hm1.
  assert (∀ m, meta_ok m → ∃ w, match_go E V rules (S i) m (InStream c) buffers packets = Ok w ∧
            stream_walk (rule :: rules) c buffers w) as Hskip.
  { intros m' Hm'. destruct (IH (S i) m' c buffers packets Hm' Hb) as (w & -> & Hw). eexists. split; [done|].
    eapply stream_walk_cons; [done..|]. destruct (decide _); lia. }
  destruct (holds rule (mt_request m)); [|by apply Hskip]. cbn [negb]. rewrite Ha.
  apply (meta_ok_options action) in Hm1. revert Hm1. generalize (with_options V action m1) as m2. intros m2 Hm2.
  destruct action as [out o|o|out o|method noDrop| |a|server o]; cbn [is_final];
    try (eexists; split; [done|by eapply stream_walk_done]); try by apply Hskip.
  - case_bool_decide as Hout; cbn [negb]; [by apply Hskip|].
    eexists. split; [done|]. eapply stream_walk_done; [done|]. cbn. by rewrite bool_decide_eq_false_2.
  - destruct Hact as [Hss _]. destruct (sniff_stream_ok a c buffers m2 Hss Hm2 Hb) as (m3 & c' & buffers' & -> & Hm3 & Hk & Hl).
    cbn [mbind result_bind fst snd]. destruct (IH (S i) m3 c' buffers' packets Hm3) as (w & -> & Hw); [by rewrite Hk|].
    eexists. split; [done|]. eapply stream_walk_cons; [done..|]. rewrite decide_True; [cbn; lia|]. unfold is_sniff. by rewrite Ha.
  - pose proof (actionResolve_ok s server o m2 Hok Hm2) as Hres. destruct (actionResolve V server o m2) as [m3|e|w]; [by apply Hskip| |done].
    eexists. split; [done|]. apply stream_walk_none.
Qed.

(** ** Decisions *)

Lemma decide_rule_ok s reply now drops rules selected :
  router_ok V s → Forall rule_ok rules → selection_ok rules selected →
  match decide_rule V reply now drops selected with
  | Ok (ToOutbound o) => o ∈ rv_outbounds V
  | Panic _ => False
  | _ => True
  end.
Proof.
  intros Hok Hr Hs. destruct selected as [[i rule]|]; cbn [decide_rule]; [|exact (ok_default _ _ Hok)].
  destruct Hs as [Hin (a & Ha & Hf)]. rewrite Ha.
  destruct (proj1 (Forall_forall _ _) Hr rule Hin) as (a' & Ha' & Hact). rewrite Ha in Ha'. injection Ha' as <-.
  assert (∀ tag, match (o ← find_outbound V tag; Ok (ToOutbound o)) with
                 | Ok (ToOutbound o) => o ∈ rv_outbounds V | Panic _ => False | _ => True end) as Hfind.
  { intros tag. unfold find_outbound, Outbound. by case_bool_decide. }
  destruct a as [out o|o|out o|[| | |method] noDrop| |a|server o]; try done; cbn in Hf.
  - apply Hfind.
  - case_bool_decide; [done|]. apply Hfind.
  - by destruct noDrop.
Qed.
End walk.

(** ** The connection an outbound gets *)

(** [bufio.NewCachedConn] and the other wrappers of sing: what is read through
    one, when the client's connection still gives [l]. *)
Class ConnLib := {
  delivers : routed_conn → list Z → list Z;
  receives : routed_conn → list packet → list packet;
}.
Class ConnLibOk `{ConnLib} : Prop := {
  delivers_input l : delivers InputConn l = l;
  delivers_deadline c l : delivers (DeadlineConn c) l = delivers c l;
  delivers_cached c b l : delivers (CachedConn c b) l = b ++ delivers c l;
  delivers_tracked c n l : delivers (TrackedConn c n) l = delivers c l;
  delivers_poet c l : delivers (PoetConn c) l = delivers c l;
  receives_input l : receives InputConn l = l;
  receives_cached c p l : receives (CachedPacketConn c p) l = p :: receives c l;
  receives_tracked c n l : receives (TrackedConn c n) l = receives c l;
  receives_poet c l : receives (PoetConn c) l = receives c l;
}.

Section delivery.
Context `{ConnLibOk}.
Lemma delivers_buffers c buffers l : delivers (cached_conn c buffers) l = concat (reverse buffers) ++ delivers c l.
Proof.
  revert c. induction buffers as [|b buffers IH]; intros c; [done|].
  change (cached_conn c (b :: buffers)) with (cached_conn (CachedConn c b) buffers).
  rewrite IH, delivers_cached, reverse_cons, concat_app. cbn [concat]. by rewrite app_nil_r, <- app_assoc.
Qed.
Lemma receives_packets c packets l : receives (cached_packets c packets) l = reverse packets ++ receives c l.
Proof.
  revert c. induction packets as [|b buffers IH]; intros c; [done|].
  change (cached_packets c (b :: buffers)) with (cached_packets (CachedPacketConn c b) buffers).
  by rewrite IH, receives_cached, reverse_cons, <- app_assoc.
Qed.
Lemma delivers_trackers V c l : delivers (tracked V c) l = delivers c l.
Proof. unfold tracked. revert c. induction (seq 0 _) as [|n ns IH]; intros c; [done|]. cbn. by rewrite IH, delivers_tracked. Qed.
Lemma receives_trackers V c l : receives (tracked V c) l = receives c l.
Proof. unfold tracked. revert c. induction (seq 0 _) as [|n ns IH]; intros c; [done|]. cbn. by rewrite IH, receives_tracked. Qed.
End delivery.
Lemma short_reverse {A} (l : list A) : (length l ≤ 1)%nat → reverse l = l.
Proof. destruct l as [|a [|b l]]; cbn; [done|done|lia]. Qed.

(** The connection that is handed on, and what the client's connection still has. *)
Definition handed_on (r : routed) : option (routed_conn * input) :=
  match r with
  | Handed _ _ _ c _ rest | HijackedDNS c _ _ rest => Some (c, rest)
  | Injected _ _ rest => Some (InputConn, rest)
  | Rejected _ _ _ => None
  end.

(** (C16) Routing a stream.  With the rules of a configuration, outbounds that
    were started in order of their dependencies and any bytes from the client,
    [routeConnection] comes back without a panic, and whoever is handed the
    connection reads first the buffers of the sniff rules and then what the
    client's connection still gives, which together are the bytes the client
    sent.  The buffers are read last to first; with at most one sniff rule there
    is at most one, and the stream arrives as it was sent. *)
Theorem routed_stream_intact `{UnicodeTables, SniffLibOk, ConnLibOk} E V s now drops rules c m :
  router_ok V s → Forall rule_ok rules → outside m → mt_SniffContext m = None → is_bytes (sent c) →
  match routeConnection E V now drops rules c m with
  | Panic _ => False
  | Err _ => True
  | Ok r =>
      ∀ c' rest, handed_on r = Some (c', rest) →
      ∃ rest' buffers, rest = InStream rest' ∧ sent c = concat buffers ++ sent rest' ∧
        delivers c' (sent rest') = concat (reverse buffers) ++ sent rest' ∧
        (length buffers ≤ sniff_rules rules)%nat ∧
        ((sniff_rules rules ≤ 1)%nat → delivers c' (sent rest') = sent c)
  end.
Proof.
  intros Hok Hr Ho Hc Hb. unfold routeConnection.
  assert (∀ c' rest, Some (InputConn, InStream c) = Some (c', rest) →
    ∃ rest' buffers, rest = InStream rest' ∧ sent c = concat buffers ++ sent rest' ∧
        delivers c' (sent rest') = concat (reverse buffers) ++ sent rest' ∧ (length buffers ≤ sniff_rules rules)%nat ∧
        ((sniff_rules rules ≤ 1)%nat → delivers c' (sent rest') = sent c)) as Hplain.
  { intros c' rest [= <- <-]. exists c, []. rewrite delivers_input. split_and!; [done..|cbn; lia|done]. }
  case_bool_decide; cbn [negb].
  2: { unfold route_detour. cbv zeta. case_bool_decide; [done|]. destruct (rv_Inbound V _) as [[tcp udp]|]; [|done].
       cbn [fst]. by destruct tcp. }
  destruct (rv_reserved V _); [done|]. destruct (is_tun_dns _); [done|].
  set (m1 := on_request (with_Network "tcp") m).
  assert (meta_ok m1) as Hm1 by (split; [done|]; unfold context_ok; cbn; by rewrite Hc).
  unfold matchRule. pose proof (meta_ok_prepare E V m1 Hm1) as Hp.
  destruct (prepareMatchMetadata E V m1) as [m2|e|w]; [|done|done].
  destruct (match_go_stream E V s rules 0 m2 c [] [] Hok Hr Hp) as (w & -> & c' & Hin & Hk & Hn & Hsel); [done|].
  cbn [mbind result_bind]. destruct (wk_fatal w); [done|].
  pose proof (decide_rule_ok V s (reply_not_supported "TCP") now drops rules _ Hok Hr Hsel) as Hd.
  destruct (decide_rule V _ _ _ _) as [[o| |i e counter]|e|why]; cbn; [|..|done|done].
  3: done.
  1: pose proof (resolveOutbound_safe V s Hok o "tcp" Hd) as Hres; destruct (resolveOutbound V o "tcp") as [chain|e|why]; cbn; [|done|done].
  all: intros d rest [= <- <-]; exists c', (wk_buffers w); rewrite ?delivers_poet, ?delivers_trackers, delivers_buffers.
  all: assert (delivers (if rv_NeedDeadline V then DeadlineConn InputConn else InputConn) (sent c') = sent c') as ->
    by (destruct (rv_NeedDeadline V); by rewrite ?delivers_deadline, delivers_input).
  all: cbn in Hk, Hn; split_and!; [done|done|done|lia|]; intros Hone; rewrite short_reverse by lia; by rewrite Hk.
Qed.

(** ** A verdict before the connection *)

(** The rules do not ask whether this is the pre-match, as the outbounds that
    prefer flows do; none sends the connection to another address, and a route
    rule names its outbound. *)
Record flow_rule `{UnicodeTables} (E : RuleEnv) (V : RouterEnv) (r : RouteRule) : Prop := {
  fr_blind q : holds E r (with_PreMatch true q) = holds E r q;
  fr_override a o : rr_action r = Some a → options_of a = Some o → rv_IsValid V (OverrideAddress o) = false;
  fr_named o : rr_action r ≠ Some (ActRoute "" o);
}.

Section flows.
Context `{UnicodeTables, SniffLib} (E : RuleEnv) (V : RouterEnv).

(** The metadata of the pre-match and of the connection. *)
Record same (m mp : Metadata) : Prop := {
  same_request : mt_request mp = with_PreMatch true (mt_request m);
  same_context : mt_SniffContext mp = mt_SniffContext m;
  same_sniffers : mt_SnifferNames mp = mt_SnifferNames m;
  same_error : mt_SniffError mp = mt_SniffError m;
  same_origin : mt_OriginDestination mp = mt_OriginDestination m;
  same_fake : mt_FakeIP mp = mt_FakeIP m;
  same_outside : outside m ∧ outside mp;
}.
Lemma same_on_request f m mp :
  (∀ q, f (with_PreMatch true q) = with_PreMatch true (f q)) → same m mp → same (on_request f m) (on_request f mp).
Proof. intros Hf [Hq ? ? ? ? ? ?]. split; [|done..]. cbn. by rewrite Hq. Qed.
Lemma same_uncached m mp m' mp' : same m mp → uncached m m' → uncached mp mp' → same m' mp'.
Proof.
  intros [Hq ? ? ? ? ? ?] (Hm & Hr & Ho) (Hmp & Hrp & Hop). split; [by rewrite Hrp, Hr, Hq|..|done]; rewrite Hm, Hmp; done.
Qed.
Lemma same_Destination m mp : same m mp → mt_Destination mp = mt_Destination m.
Proof. intros Hs. unfold mt_Destination. by rewrite (same_request _ _ Hs). Qed.
Lemma same_fake_set m mp o : same m mp → same (set_fake o m) (set_fake o mp).
Proof. by intros []. Qed.
Lemma same_state names errs m mp : same m mp → same (set_sniff_state names errs m) (set_sniff_state names errs mp).
Proof. by intros []. Qed.
Lemma same_sniffed s m mp : same m mp → same (sniffed s m) (sniffed s mp).
Proof. intros Hs. apply (same_on_request (with_sniffed (sm_Protocol s) (sm_Domain s) (sm_Client s))) in Hs; [|done]. by destruct Hs. Qed.
Lemma same_view m mp : same m mp → sniff_view mp = sniff_view m.
Proof. intros Hs. unfold sniff_view. by rewrite (same_request _ _ Hs), (same_context _ _ Hs). Qed.
Lemma same_finish a errs m mp : same m mp → same (finish_sniff V a errs m) (finish_sniff V a errs mp).
Proof.
  intros Hs. unfold finish_sniff, override_sniffed. rewrite (same_request _ _ Hs). cbn [with_PreMatch remake md_Domain].
  case_bool_decide; [|done]. destruct (_ && _); [|done]. by apply same_on_request.
Qed.
Lemma same_prepare m mp : same m mp →
  match prepareMatchMetadata E V m, prepareMatchMetadata E V mp with
  | Ok m', Ok mp' => same m' mp'
  | Err _, Err _ => True
  | _, _ => False
  end.
Proof.
  intros Hs. unfold prepareMatchMetadata.
  assert (same (searchProcessInfo E V m) (searchProcessInfo E V mp)) as Hs1.
  { unfold searchProcessInfo. rewrite (same_Destination _ _ Hs), (same_request _ _ Hs), (same_origin _ _ Hs). cbn [with_PreMatch remake md_ProcessInfo md_Source md_Network].
    destruct (rv_process V) as [find|]; [|done]. destruct (md_ProcessInfo _); [done|]. destruct (negb _); [done|]. destruct (find _ _ _); [|done].
    by apply same_on_request. }
  assert (same (find_neighbor V (searchProcessInfo E V m)) (find_neighbor V (searchProcessInfo E V mp))) as Hs2.
  { revert Hs1. generalize (searchProcessInfo E V m) (searchProcessInfo E V mp). intros x y Hxy. unfold find_neighbor.
    rewrite (same_request _ _ Hxy). cbn [with_PreMatch remake md_SourceMACAddress md_Source md_SourceHostname]. cbv zeta.
    destruct (rv_neighbor V) as [[lm lh]|]; [|done]. destruct (md_SourceMACAddress _); [done|]. destruct (negb _); [done|].
    by apply same_on_request. }
  revert Hs2. generalize (find_neighbor V (searchProcessInfo E V m)) (find_neighbor V (searchProcessInfo E V mp)). intros x y Hxy.
  assert (∀ x y, same x y → same (set_version E V x) (set_version E V y)) as Hv.
  { intros x' y' Hxy'. unfold set_version. rewrite (same_Destination _ _ Hxy').
    destruct (rv_IsIPv4 V _); [|destruct (env_IsIPv6 E _); [|done]]; by apply same_on_request. }
  assert (same (find_reverse V x) (find_reverse V y)) as Hr.
  { unfold find_reverse. rewrite (same_Destination _ _ Hxy), (same_request _ _ Hxy). cbn [with_PreMatch remake md_Domain].
    case_bool_decide; [|done]. destruct (rv_reverse V _); [|done]. by apply same_on_request. }
  unfold find_domain. cbv zeta. rewrite (same_Destination _ _ Hxy). destruct (rv_fakeip V) as [[contains lookup]|]; [|by apply Hv].
  destruct (_ && _); [|by apply Hv]. destruct (lookup _) as [d|]; [|done]. case_bool_decide; [by apply Hv|].
  apply Hv, same_fake_set. by apply same_on_request.
Qed.
Lemma same_with_options a o m mp :
  options_of a = Some o → rv_IsValid V (OverrideAddress o) = false → same m mp →
  same (with_options V a m) (applyRouteOptionsOverride V o mp).
Proof.
  intros Ha Ho Hs. unfold with_options, apply_options. rewrite Ha, Ho. cbv zeta. cbn [orb].
  set (m1 := if _ && _ then _ else m). assert (same m1 mp) as Hs1 by (subst m1; destruct (_ && _); [by destruct Hs|done]).
  clearbody m1. unfold applyRouteOptionsOverride. rewrite Ho, (same_Destination _ _ Hs1). cbv zeta.
  assert (same (if 0 <? OverridePort o
     then on_request (with_Destination (MkSocksaddr (s_Addr (mt_Destination m1)) (OverridePort o) (s_Fqdn (mt_Destination m1)))) m1 else m1)
    (if 0 <? OverridePort o
     then on_request (with_Destination (MkSocksaddr (s_Addr (mt_Destination m1)) (OverridePort o) (s_Fqdn (mt_Destination m1)))) mp else mp)) as Hs2.
  { destruct (0 <? OverridePort o); [by apply same_on_request|done]. }
  destruct (0 <? UDPTimeout o); by destruct Hs2.
Qed.
Lemma same_resolve server o m mp :
  (∀ q d o, rv_Lookup V (with_PreMatch true q) d o = rv_Lookup V q d o) → same m mp →
  match actionResolve V server o m, actionResolve V server o mp with
  | Ok m', Ok mp' => same m' mp'
  | Err _, Err _ => True
  | Panic _, Panic _ => True
  | _, _ => False
  end.
Proof.
  intros Hl Hs. unfold actionResolve. rewrite (same_Destination _ _ Hs), (same_request _ _ Hs).
  destruct (rv_IsDomain V _); [|done]. destruct (if bool_decide _ then _ else _); cbn; [|done|done]. rewrite Hl.
  destruct (rv_Lookup V _ _ _); cbn; [by apply same_on_request|done|done].
Qed.

(** The first packet is still to be read, or is the one packet read so far. *)
Definition pending (firstPacket : list Z) (inp : input) (packets : list packet) : Prop :=
  ∃ d rest, packets = [] ∧ inp = InPackets (PacketData firstPacket d :: rest) ∨
            packets = [(firstPacket, d)] ∧ inp = InPackets rest.
(** A sniff of the pre-match that decides is the one of the connection. *)
Lemma pre_sniff_agrees a firstPacket m mp mp' c packets :
  same m mp → needs_more (mt_SniffError m) = false → md_Network (mt_request m) = "udp"%string →
  pending firstPacket (InPackets c) packets → pre_sniff V a firstPacket mp = Ok (Some mp') →
  ∃ r, sniff_packets_action V a c packets m = Ok r ∧ sr_fatal r = None ∧ same (sr_meta r) mp' ∧
    needs_more (mt_SniffError (sr_meta r)) = false ∧ md_Network (mt_request (sr_meta r)) = "udp"%string ∧
    pending firstPacket (InPackets (sr_conn r)) (sr_packets r).
Proof.
  intros Hs Hn Hu Hp. unfold pre_sniff, sniff_packets_action, sniff_skipped, failed_before, same_names.
  rewrite (same_request _ _ Hs), (same_Destination _ _ Hs), (same_sniffers _ _ Hs), (same_error _ _ Hs), Hn, andb_true_r.
  cbn [with_PreMatch remake md_Network md_Protocol]. rewrite Hu. cbn [bool_decide negb orb].
  rewrite bool_decide_eq_false_2 by done. rewrite (bool_decide_eq_true_2 ("udp" = "udp")%string) by done. cbn [negb orb].
  destruct (negb (nonempty firstPacket)); [done|]. destruct (_ || _ || _).
  { intros [= <-]. eexists. split; [done|]. by split_and!. }
  rewrite (same_view _ _ Hs). destruct (PeekPacket (sniff_view m) firstPacket (packet_sniffers a)) as [[s errs]|e|w] eqn:Hx; [|done|done].
  cbn [mbind result_bind fst snd]. destruct (needs_more errs) eqn:He; [done|]. intros [= <-].
  assert (peek_packet a firstPacket m = Ok (set_sniff_state (SnifferNames a) errs (sniffed s m))) as Hpk.
  { unfold peek_packet, quicMoreData. by rewrite Hn, andb_false_r, Hx. }
  assert (∀ c packets, pending firstPacket (InPackets c) packets → ∃ r,
    Ok (MkReads (finish_sniff V a errs (set_sniff_state (SnifferNames a) errs (sniffed s m))) c packets None) = Ok r ∧
    sr_fatal r = None ∧ same (sr_meta r) (finish_sniff V a errs (set_sniff_state (SnifferNames a) errs (sniffed s mp))) ∧
    needs_more (mt_SniffError (sr_meta r)) = false ∧ md_Network (mt_request (sr_meta r)) = "udp"%string ∧
    pending firstPacket (InPackets (sr_conn r)) (sr_packets r)) as Hend.
  { intros c' packets' Hp'. eexists. split; [done|]. cbn [sr_fatal sr_meta sr_conn sr_packets]. split_and!; [done|by apply same_finish, same_state, same_sniffed|..|done];
      unfold finish_sniff, override_sniffed; repeat case_match; done. }
  destruct Hp as (d & rest & [[-> [= ->]]|[-> [= ->]]]); cbn [sniff_buffered mbind result_bind fst snd sniff_read].
  - rewrite Hpk. cbn [mbind result_bind mt_SniffError set_sniff_state]. rewrite He. apply Hend. exists d, rest. by right.
  - rewrite Hpk. cbn [mbind result_bind mt_SniffError set_sniff_state]. rewrite He. cbn [mbind result_bind fst snd]. apply Hend.
    exists d, rest. by right.
Qed.

(** ** The verdict and the walk *)

Context (network : string) (reply : error) (now : Z) (drops : nat → list Z) (packetDestination : Socksaddr).
Definition walk_decision (w : walked) : result decision :=
  match wk_fatal w with Some e => Err e | None => decide_rule V reply now drops (wk_selected w) end.
(** A verdict that leaves the packet to the connection, or to the kernel. *)
Definition silent (r : PreMatchResult) : Prop :=
  pm_Outbound r = None ∧ (pm_Action r = PreMatchContinue ∨ pm_Action r = PreMatchBypass).
(** The destination of a flow: the packet's, or one the metadata asks for; for a
    fake destination one of the addresses resolved for it, of the packet's
    family. *)
Definition same_family (a : Addr) : Prop := Is4 a = rv_IsIPv4 V packetDestination.
Definition flow_fits (destination : option AddrPort) (m : Metadata) : Prop :=
  match destination with
  | None => mt_Destination m = packetDestination
  | Some (a, port) =>
      port = s_Port (mt_Destination m) ∧
      (a = s_Addr (mt_Destination m) ∨ mt_FakeIP m = true ∧ a ∈ md_DestinationAddresses (mt_request m) ∧ same_family a)
  end.
(** A fake destination no flow can go to: none of the addresses resolved for it
    has the packet's family, or one of them is the zero address. *)
Definition stranded (m : Metadata) : Prop :=
  mt_FakeIP m = true ∧ rv_IsDomain V (mt_Destination m) = true ∧
  ((∀ a, a ∈ md_DestinationAddresses (mt_request m) → ¬ same_family a) ∨
   ∃ a, a ∈ md_DestinationAddresses (mt_request m) ∧ addr_IsValid a = false).
Definition goes_to (w : walked) (o : string) : Prop :=
  ∃ tag chain, walk_decision w = Ok (ToOutbound tag) ∧ resolveOutbound V tag network = Ok chain ∧ last_of chain = o.
Definition refused (d : result decision) : Prop :=
  match d with Err _ | Ok (ToReject _ _ _) => True | _ => False end.
Definition fits_walk (r : PreMatchResult) (w : walked) : Prop :=
  match pm_Outbound r, pm_Action r with
  | Some o, a => goes_to w o ∧ (a = PreMatchFlow → flow_fits (pm_Destination r) (wk_meta w))
  | None, PreMatchHijackDNS => walk_decision w = Ok ToDNS
  | None, PreMatchDrop => refused (walk_decision w)
  | None, PreMatchReject => refused (walk_decision w) ∨ (stranded (wk_meta w) ∧ ∃ o, goes_to w o)
  | None, _ => False
  end.
Lemma pick_address_elem addresses a : pick_address V packetDestination addresses = Some a → a ∈ addresses ∧ same_family a.
Proof.
  unfold pick_address. destruct (List.find _ addresses) as [b|] eqn:Hf; [|done]. apply List.find_some in Hf as [Hin He].
  destruct (addr_IsValid b); [|done]. intros [= <-]. split; [by apply list_elem_of_In|by apply eqb_prop].
Qed.
Lemma pick_address_none addresses : pick_address V packetDestination addresses = None →
  (∀ a, a ∈ addresses → ¬ same_family a) ∨ ∃ a, a ∈ addresses ∧ addr_IsValid a = false.
Proof.
  unfold pick_address. destruct (List.find _ addresses) as [b|] eqn:Hf.
  - apply List.find_some in Hf as [Hin _]. destruct (addr_IsValid b) eqn:Hv; [done|]. intros _. right. exists b.
    by split; [apply list_elem_of_In|].
  - intros _. left. intros a Ha He. apply list_elem_of_In in Ha. pose proof (List.find_none _ _ Hf a Ha) as Hn.
    unfold same_family in He. cbn in Hn. by rewrite He, eqb_reflx in Hn.
Qed.
Lemma flow_through_fits f o m mp w :
  same m mp → wk_meta w = m → goes_to w o →
  silent (flow_through V f o packetDestination mp) ∨ fits_walk (flow_through V f o packetDestination mp) w.
Proof.
  intros Hs <- Hto. unfold flow_through. cbv zeta. rewrite (same_Destination _ _ Hs), (same_request _ _ Hs), (same_fake _ _ Hs).
  cbn [with_PreMatch remake md_Network md_DestinationAddresses].
  assert (∀ a, a ≠ PreMatchFlow → fits_walk (MkPreMatch a (Some o) None 0) w) as Hother by (intros a Ha; by split).
  case_bool_decide; cbn [negb]; [|by right; apply Hother].
  destruct (rv_IsDomain V _) eqn:Hdom; [|right; split; [done|]; intros _; cbn [pm_Destination]; unfold flow_destination; by case_bool_decide; cbn; auto].
  destruct (mt_FakeIP (wk_meta w)) eqn:Hf; cbn [negb]; [|by left; split; [|left]].
  destruct (pick_address V _ _) as [a|] eqn:Hp; [|right; right; split; [by split_and!; [..|by apply pick_address_none]|by exists o]]. apply pick_address_elem in Hp.
  case_bool_decide; cbn [negb]; right; [|by apply Hother]. split; [done|]. intros _. cbn. auto.
Qed.
Lemma preMatchFlow_fits tag m mp r w :
  same m mp → md_Network (mt_request m) = network → wk_meta w = m →
  (∀ o, (if bool_decide (tag = ""%string) then Some (rv_Default V) else Outbound V tag) = Some o → walk_decision w = Ok (ToOutbound o)) →
  preMatchFlow V packetDestination tag mp = Ok r → silent r ∨ fits_walk r w.
Proof.
  intros Hs Hnet Hw Hd. unfold preMatchFlow. rewrite (same_request _ _ Hs). cbn [with_PreMatch remake md_Network]. rewrite Hnet.
  destruct (if bool_decide _ then _ else _) as [o|]; [|intros [= <-]; by left; split; [|left]].
  specialize (Hd o eq_refl). destruct (resolveOutbound V o network) as [chain|e|why] eqn:Hr; [|intros [= <-]; by left; split; [|left]|done].
  destruct (rv_flow V _) as [f|]; [|intros [= <-]; by left; split; [|left]]. intros [= <-].
  eapply flow_through_fits; [done..|]. by exists o, chain.
Qed.
Lemma pre_bypass_fits tag m mp r w :
  same m mp → md_Network (mt_request m) = network → wk_meta w = m →
  (∀ o, tag ≠ ""%string → Outbound V tag = Some o → walk_decision w = Ok (ToOutbound o)) →
  pre_bypass V packetDestination tag mp = Ok r → silent r ∨ fits_walk r w.
Proof.
  intros Hs Hnet Hw Hd. unfold pre_bypass. case_bool_decide as Ht.
  { intros [= <-]. left. split; [done|]. destruct (_ || _); [by left|by right]. }
  assert (∀ r, preMatchFlow V packetDestination tag mp = Ok r → silent r ∨ fits_walk r w) as Hflow.
  { intros r'. eapply preMatchFlow_fits; [done..|]. intros o. rewrite bool_decide_eq_false_2 by done. by apply Hd. }
  destruct (_ || _); [apply Hflow|]. destruct (preMatchFlow V packetDestination tag mp) as [r'|e|why]; [|done|done]. cbn.
  specialize (Hflow r' eq_refl). case_bool_decide as Ha; cbn [negb]; intros [= <-]; [|by left; split; [|right]].
  destruct Hflow as [[_ [Hc|Hc]]|Hf]; [by rewrite Ha in Hc..|]. unfold fits_walk in Hf. rewrite Ha in Hf.
  destruct (pm_Outbound r') as [o|] eqn:Ho; [|done]. right. unfold fits_walk. cbn. split; [apply Hf|done].
Qed.
Lemma pre_reject_fits method noDrop i m mp r w rule :
  same m mp → network ≠ "icmp"%string → md_Network (mt_request m) = network → (∀ n, method ≠ RejectOther n) →
  rr_action rule = Some (ActReject method noDrop) → wk_selected w = Some (i, rule) → wk_fatal w = None →
  pre_reject method noDrop now (drops i) mp = Ok r → fits_walk r w.
Proof.
  intros Hs Hicmp Hnet Hm Ha Hsel Hfat. unfold pre_reject. rewrite (same_request _ _ Hs). cbn [with_PreMatch remake md_Network].
  assert (refused (walk_decision w)) as Href.
  { unfold walk_decision. rewrite Hfat, Hsel. cbn. rewrite Ha. destruct method as [| | |n]; try done; [by destruct noDrop|by destruct (Hm n)]. }
  rewrite Hnet, bool_decide_eq_false_2 by done.
  destruct (reject_Error method noDrop now (drops i)) as [[[e|] counter]|e|why]; cbn; [..|done|done]; intros [= <-]; [|by left].
  destruct (is_error _ _); cbn; [done|by left].
Qed.

Context (Hlookup : ∀ q d o, rv_Lookup V (with_PreMatch true q) d o = rv_Lookup V q d o).
(** What the walk of the connection starts from. *)
Definition ready (firstPacket : list Z) (m : Metadata) (inp : input) (packets : list packet) : Prop :=
  md_Network (mt_request m) = network ∧
  (network = "tcp"%string ∨
   network = "udp"%string ∧ pending firstPacket inp packets ∧ needs_more (mt_SniffError m) = false).
Lemma ready_request firstPacket f m inp packets :
  (∀ q, md_Network (f q) = md_Network q) → ready firstPacket m inp packets → ready firstPacket (on_request f m) inp packets.
Proof. intros Hf [Hn Hr]. split; [|done]. cbn. by rewrite Hf. Qed.
Lemma ready_options firstPacket a m inp packets : ready firstPacket m inp packets → ready firstPacket (with_options V a m) inp packets.
Proof.
  unfold with_options. destruct (options_of a) as [o|]; [|done]. unfold apply_options, applyRouteOptionsOverride. cbv zeta.
  intros Hr. repeat case_match; done.
Qed.
Lemma ready_uncached firstPacket m m' inp packets : uncached m m' → ready firstPacket m inp packets → ready firstPacket m' inp packets.
Proof. intros (Hm & Hq & _) [Hn Hr]. split; [by rewrite Hq|]. by rewrite Hm. Qed.
Lemma ready_resolve firstPacket server o m m' inp packets :
  actionResolve V server o m = Ok m' → ready firstPacket m inp packets → ready firstPacket m' inp packets.
Proof.
  unfold actionResolve. destruct (rv_IsDomain V _); [|by intros [= <-]]. destruct (if bool_decide _ then _ else _); [|done|done].
  cbn. destruct (rv_Lookup V _ _ _); [|done|done]. intros [= <-]. by apply ready_request.
Qed.

Lemma pre_go_agrees firstPacket rules i m mp inp buffers packets r :
  Forall (flow_rule E V) rules → Forall rule_ok rules → same m mp → ready firstPacket m inp packets →
  pre_go E V now drops firstPacket packetDestination rules i mp = Ok r →
  silent r ∨ ∃ w, match_go E V rules i m inp buffers packets = Ok w ∧ fits_walk r w.
Proof.
  intros Hr. revert i m mp inp buffers packets.
  induction Hr as [|rule rules Hrule Hr IH]; intros i m mp inp buffers packets Hok Hs Hready; cbn [pre_go match_go].
  { intros Hf. destruct (preMatchFlow_fits "" m mp r (MkWalked m inp buffers packets None None) Hs) as [?|?];
      [apply Hready|done|by intros o [= <-]|done|by left|right; by eexists]. }
  apply Forall_cons in Hok as [(action & Ha & Hact) Hok].
  destruct (try_rule_exact E rule m) as (m1 & -> & Hu); [apply Hs|].
  destruct (try_rule_exact E rule mp) as (mp1 & -> & Hup); [apply Hs|].
  rewrite (same_request _ _ Hs), (fr_blind _ _ _ Hrule).
  pose proof (same_uncached _ _ _ _ Hs Hu Hup) as Hs1. apply (ready_uncached _ _ _ _ _ Hu) in Hready as Hr1.
  destruct (holds E rule (mt_request m)); cbn [negb]; [|by apply IH]. rewrite Ha.
  assert (network ≠ "icmp"%string) as Hicmp by (destruct Hready as [_ [->|[-> _]]]; done).
  apply (ready_options _ action) in Hr1 as Hr2.
  destruct action as [out o|o|out o|method noDrop| |a|server o]; cbn [is_final].
  - pose proof (same_with_options (ActRoute out o) o _ _ eq_refl (fr_override _ _ _ Hrule _ o Ha eq_refl) Hs1) as Hs2. intros Hf.
    destruct (preMatchFlow_fits out _ _ r (MkWalked (with_options V (ActRoute out o) m1) inp buffers packets (Some (i, rule)) None) Hs2)
      as [?|?]; [apply Hr2|done| |done|by left|right; by eexists].
    intros o'. case_bool_decide as Hout; [subst; by destruct (fr_named _ _ _ Hrule o)|]. intros Ho.
    unfold walk_decision. cbn. rewrite Ha. cbn. unfold find_outbound. by rewrite Ho.
  - pose proof (same_with_options (ActRouteOptions o) o _ _ eq_refl (fr_override _ _ _ Hrule _ o Ha eq_refl) Hs1) as Hs2. by apply IH.
  - case_bool_decide as Hout; cbn [negb].
    { subst out. unfold pre_bypass. rewrite bool_decide_eq_true_2 by done. intros [= <-]. left. split; [done|].
      destruct (_ || _); [by left|by right]. }
    assert (options_of (ActBypass out o) = Some o) as Ho by (cbn; by rewrite bool_decide_eq_false_2).
    pose proof (same_with_options _ o _ _ Ho (fr_override _ _ _ Hrule _ o Ha Ho) Hs1) as Hs2. intros Hf.
    destruct (pre_bypass_fits out _ _ r (MkWalked (with_options V (ActBypass out o) m1) inp buffers packets (Some (i, rule)) None) Hs2)
      as [?|?]; [apply Hr2|done| |done|by left|right; by eexists].
    intros o' _ Ho'. unfold walk_decision. cbn. rewrite Ha, bool_decide_eq_false_2 by done. unfold find_outbound. by rewrite Ho'.
  - intros Hf. right. eexists. split; [done|]. eapply pre_reject_fits; [exact Hs1|done|apply Hr1| |done..].
    intros n ->. by destruct Hact.
  - rewrite (same_request _ _ Hs1). cbn [with_PreMatch remake md_Network]. intros [= <-]. case_bool_decide.
    + right. eexists. split; [done|]. cbn. unfold walk_decision. cbn. by rewrite Ha.
    + left. by split; [|left].
  - change (with_options V (ActSniff a) m1) with m1. destruct (pre_sniff V a firstPacket mp1) as [[mp2|]|e|why] eqn:Hps; try done.
    2: { intros [= <-]. left. by split; [|left]. }
    destruct Hr1 as [Hnet [Htcp|(Hudp & Hp & Hn)]].
    { unfold pre_sniff in Hps. rewrite (same_request _ _ Hs1) in Hps. cbn [with_PreMatch remake md_Network] in Hps.
      rewrite Hnet, Htcp in Hps. done. }
    destruct inp as [c|c]; [by destruct Hp as (d & rest & [[_ ?]|[_ ?]])|].
    destruct (pre_sniff_agrees a firstPacket m1 mp1 mp2 c packets) as (x & -> & Hfat & Hs2 & Hn2 & Hnet2 & Hp2); [done..|by rewrite Hnet|done|done|].
    cbn [mbind result_bind]. rewrite Hfat. apply IH; [done..|]. split; [by rewrite Hnet2|by right].
  - pose proof (same_resolve server o m1 mp1 Hlookup Hs1) as Hres. change (with_options V (ActResolve server o) m1) with m1.
    destruct (actionResolve V server o m1) as [m2|e|why] eqn:Hm2, (actionResolve V server o mp1) as [mp2|e'|why']; try done.
    + apply (ready_resolve _ _ _ _ _ _ _ Hm2) in Hr1. by apply IH.
    + intros [= <-]. right. eexists. split; [done|]. by left.
Qed.
End flows.

Section pre_total.
Context `{UnicodeTables, SniffLibOk} (E : RuleEnv) (V : RouterEnv) (s : list Item) (Hok : router_ok V s).

Lemma preMatchFlow_Ok pd tag m : ∃ r, preMatchFlow V pd tag m = Ok r.
Proof.
  unfold preMatchFlow.
  destruct (if bool_decide _ then _ else _) as [o|] eqn:Ho; [|by eexists].
  assert (o ∈ rv_outbounds V) as Hin.
  { revert Ho. unfold Outbound. repeat case_bool_decide; intros [= <-]; [exact (ok_default _ _ Hok)|done]. }
  pose proof (resolveOutbound_safe V s Hok o (md_Network (mt_request m)) Hin) as Hs.
  destruct (resolveOutbound V o _); [|by eexists|done]. destruct (rv_flow V _); by eexists.
Qed.
Lemma pre_bypass_Ok pd tag m : ∃ r, pre_bypass V pd tag m = Ok r.
Proof.
  unfold pre_bypass. destruct (preMatchFlow_Ok pd tag m) as [r ->]. case_bool_decide; [by eexists|]. destruct (_ || _); [by eexists|].
  cbn. case_bool_decide; by eexists.
Qed.
Lemma pre_sniff_ok a p m :
  Forall (total_on is_bytes) (PacketSniffers a) → is_bytes p → meta_ok m →
  ∃ x, pre_sniff V a p m = Ok x ∧ match x with Some m' => meta_ok m' | None => True end.
Proof.
  intros Ha Hp [Ho Hm]. unfold pre_sniff. cbv zeta. case_bool_decide; [by eexists|]. destruct (_ || _); [by eexists|].
  destruct (_ || _ || _); [by eexists|]. unfold PeekPacket.
  destruct (try_all_total is_bytes (packet_sniffers a) (sniff_view m) p []) as (m' & errs & -> & Hm');
    [by apply packet_sniffers_ok'|done..|].
  cbn [mbind result_bind fst snd]. destruct (needs_more errs); [by exists None|]. eexists (Some _). split; [reflexivity|].
  by apply meta_ok_finish, meta_ok_sniffed.
Qed.
Lemma pre_go_Ok now drops p pd rules i m :
  Forall rule_ok rules → is_bytes p → meta_ok m → ∃ r, pre_go E V now drops p pd rules i m = Ok r.
Proof.
  intros Hr Hp. revert i m. induction Hr as [|rule rules (action & Ha & Hact) Hr IH]; intros i m Hm; cbn [pre_go];
    [apply preMatchFlow_Ok|].
  destruct (try_rule_exact E rule m) as (m1 & -> & Hu); [apply Hm|]. apply (meta_ok_uncached _ _ Hm) in Hu as Hm1.
  destruct (holds E rule (mt_request m)); cbn [negb]; [|by apply IH]. rewrite Ha.
  destruct action as [out o|o|out o|[| | |n] noDrop| |a|server o].
  - apply preMatchFlow_Ok.
  - by apply IH, meta_ok_override.
  - apply pre_bypass_Ok.
  - destruct noDrop; by eexists.
  - by eexists.
  - by eexists.
  - done.
  - by eexists.
  - destruct (pre_sniff_ok a p m1 (proj2 Hact) Hp Hm1) as ([m2|] & -> & Hm2); cbn; [by apply IH|by eexists].
  - pose proof (actionResolve_ok V s server o m1 Hok Hm1) as Hres.
    destruct (actionResolve V server o m1); [by apply IH|by eexists|done].
Qed.
End pre_total.

(** What routing a connection does, against a verdict on its first packet. *)
Definition denied (r : result routed) : Prop := match r with Err _ | Ok (Rejected _ _ _) => True | _ => False end.
Definition reaches (r : result routed) (o : string) (P : Metadata → Prop) : Prop :=
  ∃ chain groups byHandler c m rest, r = Ok (Handed chain groups byHandler c m rest) ∧ last_of chain = o ∧ P m.
Definition fits (V : RouterEnv) (packetDestination : Socksaddr) (r : PreMatchResult) (x : result routed) : Prop :=
  match pm_Outbound r, pm_Action r with
  | Some o, a => reaches x o (λ m, a = PreMatchFlow → flow_fits V packetDestination (pm_Destination r) m)
  | None, PreMatchHijackDNS => ∃ c packets m rest, x = Ok (HijackedDNS c packets m rest)
  | None, PreMatchDrop => denied x
  | None, PreMatchReject => denied x ∨ ∃ o, reaches x o (stranded V packetDestination)
  | None, PreMatchFlow => False
  | None, (PreMatchContinue | PreMatchBypass) => True
  end.
Lemma silent_fits V pd r x : silent r → fits V pd r x.
Proof. intros [Ho [Ha|Ha]]; unfold fits; by rewrite Ho, Ha. Qed.
(** The rest of routing, once the walk is done. *)
Lemma fits_of_walk V network reply now drops pd r w x :
  fits_walk V network reply now drops pd r w →
  (∀ e, walk_decision V reply now drops w = Err e → denied x) →
  (∀ i e counter, walk_decision V reply now drops w = Ok (ToReject i e counter) → denied x) →
  (walk_decision V reply now drops w = Ok ToDNS → ∃ c packets m rest, x = Ok (HijackedDNS c packets m rest)) →
  (∀ tag chain, walk_decision V reply now drops w = Ok (ToOutbound tag) → resolveOutbound V tag network = Ok chain →
     reaches x (last_of chain) (λ m, m = wk_meta w)) →
  fits V pd r x.
Proof.
  intros Hf Herr Hrej Hdns Hout.
  assert (refused (walk_decision V reply now drops w) → denied x) as Href.
  { destruct (walk_decision V reply now drops w) as [[]|e|why] eqn:Hd; [done|done|eauto..|done]. }
  unfold fits_walk, fits in *. destruct (pm_Outbound r) as [o|].
  - destruct Hf as [(tag & chain & Hd & Hr & <-) Hfl]. destruct (Hout tag chain Hd Hr) as (ch & g & h & c & m & rest & -> & Hl & ->).
    exists ch, g, h, c, (wk_meta w), rest. by split_and!.
  - destruct (pm_Action r); try done; [|by apply Href|by apply Hdns].
    destruct Hf as [Hf|[Hf (o & tag & chain & Hd & Hr & <-)]]; [left; by apply Href|right].
    destruct (Hout tag chain Hd Hr) as (ch & g & h & c & m & rest & -> & Hl & ->). exists (last_of chain), ch, g, h, c, (wk_meta w), rest.
    by split_and!.
Qed.

(** What [PreMatch] has seen is what the connection starts with: the metadata of
    [JudgeFlow], and for UDP the first packet. *)
Definition route_flow `{UnicodeTables, SniffLib} (E : RuleEnv) (V : RouterEnv) (now : Z) (drops : nat → list Z)
    (rules : list RouteRule) (m : Metadata) (x : conn + (list Z * Socksaddr * pconn)) : result routed :=
  match x with
  | inl c => routeConnection E V now drops rules c m
  | inr (p, d, rest) => routePacketConnection E V now drops rules (PacketData p d :: rest) m
  end.
Definition flow_network (x : conn + (list Z * Socksaddr * pconn)) : string := match x with inl _ => "tcp" | inr _ => "udp" end.
Definition first_of (p : list Z) (x : conn + (list Z * Socksaddr * pconn)) : Prop :=
  match x with inl _ => True | inr (q, _, _) => q = p end.

Lemma prepare_kept `{UnicodeTables} E V m m' : prepareMatchMetadata E V m = Ok m' →
  md_Network (mt_request m') = md_Network (mt_request m) ∧ mt_SniffError m' = mt_SniffError m.
Proof.
  unfold prepareMatchMetadata.
  assert (∀ x, md_Network (mt_request (set_version E V x)) = md_Network (mt_request x) ∧
               mt_SniffError (set_version E V x) = mt_SniffError x) as Hv by (intros x; unfold set_version; by repeat case_match).
  assert (md_Network (mt_request (find_neighbor V (searchProcessInfo E V m))) = md_Network (mt_request m) ∧
          mt_SniffError (find_neighbor V (searchProcessInfo E V m)) = mt_SniffError m) as Hn.
  { unfold find_neighbor, searchProcessInfo. by repeat case_match. }
  revert Hn. generalize (find_neighbor V (searchProcessInfo E V m)) as x. intros x [<- <-].
  unfold find_domain, find_reverse. cbv zeta. repeat case_match; cbn; intros [= <-];
    match goal with |- context [set_version E V ?y] => by destruct (Hv y) as [-> ->] end.
Qed.
Lemma flow_same inbound inboundType network source destination :
  same (on_request (with_Network network) (flow_metadata inbound inboundType network source destination))
       (on_request (with_PreMatch true) (flow_metadata inbound inboundType network source destination)).
Proof. by split. Qed.

(** (C15) The verdict on a flow agrees with the routing of its connection.  For
    rules with known actions that ask nothing about the pre-match, send nothing
    to another address and name their outbounds, with outbounds started in
    dependency order whose groups select a member, with lookups that do not
    depend on the pre-match, and with the empty name not one of the reserved
    multiplexer names,
    [PreMatch] on the first packet of a TCP or UDP flow comes back, and its
    verdict is what [routeConnection] or [routePacketConnection] does with a
    connection that begins with that packet.  A flow goes to the outbound at the
    end of the chain the connection would take, to the packet's destination or
    to the one the metadata then has (for a fake destination: an address of the
    packet's family, among those the rules resolved).  A hijacked packet belongs
    to a connection whose DNS queries are answered; a dropped packet to one that
    is refused; a rejected packet to one that is refused, or to one that goes to
    a fake domain for which no address of the packet's family was resolved (or
    for which the resolver gave a zero address).  A verdict to continue, or to
    bypass without an outbound, leaves the connection free. *)
Theorem prematch_agrees `{UnicodeTables, SniffLibOk} E V s now drops rules inbound inboundType source destination p x :
  router_ok V s → (∀ q d o, rv_Lookup V (with_PreMatch true q) d o = rv_Lookup V q d o) → rv_reserved V "" = None →
  Forall rule_ok rules → Forall (flow_rule E V) rules → is_bytes p → first_of p x →
  let m := flow_metadata inbound inboundType (flow_network x) source destination in
  ∃ r, PreMatch E V now drops rules m p = Ok r ∧ fits V (mt_Destination m) r (route_flow E V now drops rules m x).
Proof.
  intros Hok Hl Hres Hr Hf Hp Hx m. set (network := flow_network x).
  set (m1 := on_request (with_Network network) m). set (mp := on_request (with_PreMatch true) m).
  pose proof (flow_same inbound inboundType network source destination : same m1 mp) as Hsame.
  assert (meta_ok m1 ∧ meta_ok mp) as [Hm1 Hmp] by done.
  unfold PreMatch. fold mp. pose proof (same_prepare E V m1 mp Hsame) as Hprep. pose proof (meta_ok_prepare E V mp Hmp) as Hokp.
  destruct (prepareMatchMetadata E V mp) as [mp2|e|why] eqn:Hpp; [|by eexists; split; [done|]|done].
  destruct (prepareMatchMetadata E V m1) as [m2|e|why] eqn:Hpm; [|done|done].
  destruct (pre_go_Ok E V s Hok now drops p (mt_Destination mp) rules 0 mp2 Hr Hp Hokp) as [r Hr0].
  exists r. split; [done|]. change (mt_Destination m) with (mt_Destination mp).
  destruct (prepare_kept E V m1 m2 Hpm) as [Hnet Herr]. cbn in Herr.
  destruct x as [c|[[q d] rest]]; cbn [first_of flow_network route_flow] in *; subst.
  - destruct (pre_go_agrees E V "tcp" (reply_not_supported "TCP") now drops (mt_Destination mp) Hl p rules 0 m2 mp2 (InStream c) [] [] r)
      as [Hsil|(w & Hw & Hfit)]; [done..|by split; [|left]|done|by apply silent_fits|].
    unfold routeConnection. rewrite bool_decide_eq_true_2 by done. cbn [negb]. fold m1.
    match goal with |- context [rv_reserved V ?x] => change (rv_reserved V x) with (rv_reserved V "") end. rewrite Hres.
    match goal with |- context [is_tun_dns ?x] => replace (is_tun_dns x) with false by (unfold is_tun_dns; by rewrite andb_comm) end.
    unfold matchRule. change (on_request _ m) with m1. rewrite Hpm, Hw. cbn [mbind result_bind].
    eapply fits_of_walk; [done|..]; unfold walk_decision; destruct (wk_fatal w); try done.
    + intros e ->. done.
    + intros i e counter ->. done.
    + intros ->. cbn. by eexists _, _, _, _.
    + intros tag chain -> Hres'. cbn. rewrite Hres'. cbn. by eexists _, _, _, _, _, _.
  - destruct (pre_go_agrees E V "udp" (reply_not_supported "UDP") now drops (mt_Destination mp) Hl p rules 0 m2 mp2
      (InPackets (PacketData p d :: rest)) [] [] r) as [Hsil|(w & Hw & Hfit)]; [done..| |done|by apply silent_fits|].
    { split; [done|right]. split_and!; [done| |by rewrite Herr]. exists d, rest. by left. }
    unfold routePacketConnection. rewrite bool_decide_eq_true_2 by done. cbn [negb]. fold m1.
    match goal with |- context [is_tun_dns ?x] => replace (is_tun_dns x) with false by (unfold is_tun_dns; by rewrite andb_comm) end.
    unfold matchRule. change (on_request _ m) with m1. rewrite Hpm, Hw. cbn [mbind result_bind].
    eapply fits_of_walk; [done|..]; unfold walk_decision; destruct (wk_fatal w); try done.
    + intros e ->. done.
    + intros i e counter ->. done.
    + intros ->. cbn. by eexists _, _, _, _.
    + intros tag chain -> Hres'. cbn. rewrite Hres'. cbn. by eexists _, _, _, _, _, _.
Qed.

(** ** Rules of a configuration *)

(** A top-level rule as the decoder leaves it: it has an action, and a known
    method where it rejects. *)
Definition configured (r : RuleOptions) : Prop :=
  match r with
  | RuleDefault _ _ a | RuleLogical _ _ _ a =>
      ac_Action a ≠ ""%string ∧ ∃ o, check_reject_options o = Ok (ac_RejectOptions a)
  | RuleUnknown _ => True
  end.
Lemma reject_method_known o o' n : check_reject_options o = Ok o' → reject_method (rj_Method o') ≠ RejectOther n.
Proof.
  unfold check_reject_options. cbv zeta. destruct (_ || _); [by intros [= <-]|].
  case_bool_decide as Hd; [destruct (rj_NoDrop o); [done|intros [= <-]; by rewrite Hd]|].
  case_bool_decide as Hr; [intros [= <-]; by rewrite Hr|done].
Qed.
Section configuration.
Context `{SniffLibOk} (PlatformSupported : bool) (parse : string → Z → Socksaddr) (B : BuildEnv).
Lemma NewRuleAction_ok a x o :
  NewRuleAction PlatformSupported parse a = Ok x → ac_Action a ≠ ""%string → check_reject_options o = Ok (ac_RejectOptions a) →
  ∃ action, x = Some action ∧ action_ok action.
Proof.
  intros Hx Ha Ho. unfold NewRuleAction, act_is in Hx. rewrite (bool_decide_eq_false_2 (ac_Action a = "")) in Hx by done.
  repeat (case_bool_decide; [first [apply result_bind_Ok in Hx as (y & Hy & [= <-])|injection Hx as <-]; eexists; (split; [done|])|]);
    try done.
  - cbn. by destruct (reject_method _) eqn:Hm; [..|destruct (reject_method_known _ _ method Ho)].
  - destruct y as [st pk]. apply build_ok in Hy; [done|constructor|constructor].
Qed.
(** What [Initialize] accepts are rules the walk can use. *)
Lemma build_rules_ok rules l :
  build_rules PlatformSupported parse B rules = Ok l → Forall configured rules → Forall rule_ok l.
Proof.
  intros Hl Hc. apply map_result_Forall2 in Hl. induction Hl as [|r rule rules l (j & Hj) Hl IH]; [done|].
  apply Forall_cons in Hc as [Hr Hc]. constructor; [|by apply IH].
  apply result_bind_Ok in Hj as (_ & _ & Hj%cause_Ok). destruct r as [typed o a|mode subs invert a|t]; cbn [NewRule] in Hj; [| |done].
  - destruct Hr as (Ha & o' & Ho). destruct (negb _); [done|]. apply result_bind_Ok in Hj as (_ & _ & Hj).
    apply result_bind_Ok in Hj as ([x r] & Hx & [= <-]). unfold NewDefaultRule in Hx.
    apply result_bind_Ok in Hx as (y & Hy%cause_Ok & (r' & _ & [= <- <-])%result_bind_Ok). unfold rule_ok. cbn.
    destruct (NewRuleAction_ok _ _ _ Hy Ha Ho) as (action & -> & Hact). by exists action.
  - destruct Hr as (Ha & o' & Ho). apply result_bind_Ok in Hj as (valid & _ & Hj). destruct (negb valid); [done|].
    apply result_bind_Ok in Hj as (_ & _ & Hj). unfold NewLogicalRule in Hj.
    apply result_bind_Ok in Hj as (y & Hy%cause_Ok & (md & _ & (sb & _ & [= <-])%result_bind_Ok)%result_bind_Ok).
    unfold rule_ok. cbn. destruct (NewRuleAction_ok _ _ _ Hy Ha Ho) as (action & -> & Hact). by exists action.
Qed.
(** No option of a rule sets the types of network of a connection. *)
Lemma route_options_no_types o x :
  newRuleActionRouteOptions PlatformSupported parse o = Ok x → NetworkType x = [] ∧ FallbackNetworkType x = [].
Proof. intros (y & _ & [= <-])%result_bind_Ok. done. Qed.
End configuration.

(** ** Examples *)

Definition plain_conn : ConnLib := {|
  delivers := fix go c l := match c with
    | InputConn => l | CachedConn c b => b ++ go c l
    | DeadlineConn c | CachedPacketConn c _ | TrackedConn c _ | FakeIPNATConn c _ _ | PoetConn c => go c l end;
  receives := fix go c l := match c with
    | InputConn => l | CachedPacketConn c p => p :: go c l
    | DeadlineConn c | CachedConn c _ | TrackedConn c _ | FakeIPNATConn c _ _ | PoetConn c => go c l end
|}.
Lemma plain_conn_ok : @ConnLibOk plain_conn.
Proof. by split. Qed.

(** Two outbounds and a selector that takes the second; the first and the second
    take flows.  10.0.0.1 is the fake address of [a.example], which resolves to
    1.2.3.4. *)
Definition ip (a b c d : Z) : Addr := Addr4 (((a * 256 + b) * 256 + c) * 256 + d).
Definition fake_addr : Addr := ip 10 0 0 1.
Definition router0 : RouterEnv :=
  MkRouterEnv (λ s, negb (bool_decide (s_Fqdn s = ""%string))) (λ s, addr_IsValid (s_Addr s) || negb (bool_decide (s_Fqdn s = ""%string)))
    (λ s, Is4 (s_Addr s)) (λ s, negb (bool_decide (s = ""%string))) (λ _, false) (λ _, true) (λ _, None) false
    None None None (Some ((λ a, bool_decide (a = fake_addr)), (λ _, Some "a.example"%string))) (λ _, None)
    (MkTransports (λ _, None) (MkTransport "local" "local")) (λ _ _ _, Ok [ip 1 2 3 4])
    (λ _, None) ["direct"; "proxy"; "select"]%string "direct" (λ _, ["tcp"; "udp"]%string)
    (λ o, if bool_decide (o = "select"%string) then Some (λ _, Some "proxy"%string) else None) (λ _, false)
    (λ _, Some (λ _ _, PreMatchFlow)) 0.
Definition items0 : list Item :=
  [MkItem 0%nat "direct" "direct" [] KPlain; MkItem 1%nat "vless" "proxy" [] KPlain; MkItem 2%nat "selector" "select" ["proxy"%string] KPlain].
Lemma router0_ok : router_ok router0 items0.
Proof.
  split; [cbn; set_solver|done|done|cbn; set_solver| |done].
  intros x f network o Hx. cbn. case_bool_decide as Hs; [|done]. intros [= <-] [= <-].
  unfold items0 in Hx. rewrite !elem_of_cons in Hx. destruct Hx as [->|[->|[->|Hx]]]; [done|done|by left|by apply elem_of_nil in Hx].
Qed.
Definition any_rule : Rule := DefaultRule (MkDefaultRule [] [] [] [] [] [] [] None false).
Definition do (a : RuleAction) : RouteRule := MkRouteRule any_rule (Some a).
Definition no_override : RuleActionRouteOptions :=
  MkActionRouteOptions no_socksaddr 0 None [] [] 0 false false 0 false 0 false "" MethodWrongSequence.
Definition override_to (domain : string) : RuleActionRouteOptions :=
  MkActionRouteOptions (MkSocksaddr AddrZero 0 domain) 0 None [] [] 0 false false 0 false 0 false "" MethodWrongSequence.
Definition sniff_ssh : RuleActionSniff := MkActionSniff ["ssh"%string] [SSH] [] 0 false.
Definition sniff_rdp : RuleActionSniff := MkActionSniff ["rdp"%string] [RDP] [] 0 false.
Definition ssh_stream : conn := [ConnData 83 (bytes_of "SH-2.0-x"); ConnData 13 [10]].
Definition tcp_metadata : Metadata := flow_metadata "in" "mixed" "tcp" (ip 10 0 0 2, 40000) (ip 5 6 7 8, 22).
Definition rules_ssh : list RouteRule := [do (ActSniff sniff_ssh); do (ActRoute "select" no_override)].
Lemma SSH_rules_ok : Forall (@rule_ok plain_lib) rules_ssh.
Proof.
  pose proof plain_lib_ok. repeat constructor; eexists; (split; [done|]); [|done].
  split; repeat constructor. exact SSH_total.
Qed.

Lemma routed_stream_intact_witness :
  ∃ chain groups h c m rest,
    @routeConnection _ plain_lib env0 router0 0 (λ _, []) rules_ssh ssh_stream tcp_metadata = Ok (Handed chain groups h c m rest) ∧
    chain = ["select"; "proxy"]%string ∧ groups = ["select"%string] ∧ md_Protocol (mt_request m) = "ssh"%string ∧
    ∀ rest', rest = InStream rest' → @delivers plain_conn c (sent rest') = bytes_of "SSH-2.0-x" ++ [13; 10].
Proof.
  pose proof (@routed_stream_intact _ plain_lib plain_lib_ok plain_conn plain_conn_ok env0 router0 items0 0 (λ _, []) rules_ssh ssh_stream
    tcp_metadata router0_ok SSH_rules_ok eq_refl eq_refl (is_bytes_forallb (sent ssh_stream) eq_refl)) as Ht.
  destruct (routeConnection _ _ _ _ _ _ _) as [[| |chain groups h c m rest|]|e|w] eqn:Hr; vm_compute in Hr; try done.
  injection Hr as <- <- <- <- <- <-. eexists _, _, _, _, _, _. split; [reflexivity|]. split_and!; [reflexivity..|].
  intros rest' Hrest. destruct (Ht _ _ eq_refl) as (rest2 & buffers & Hi & _ & _ & _ & Hd). injection Hi as <-. injection Hrest as <-.
  rewrite Hd by (apply Nat.leb_le; reflexivity). reflexivity.
Defined.

(** Two sniff rules and a stream in two segments: the outbound reads the second
    segment first. *)
Example sniffed_stream_reordered : ∃ chain groups h c m,
  @routeConnection _ plain_lib env0 router0 0 (λ _, []) (do (ActSniff sniff_rdp) :: rules_ssh)
    [ConnData 83 (bytes_of "SH-"); ConnData 50 (bytes_of ".0-x")] tcp_metadata = Ok (Handed chain groups h c m (InStream [])) ∧
  @delivers plain_conn c [] = bytes_of "2.0-xSSH-".
Proof. eexists _, _, _, _, _. split; vm_compute; reflexivity. Qed.

(** The packets of a QUIC hello that came in two packets are handed on in the
    opposite order. *)
Definition sniff_quic : RuleActionSniff := MkActionSniff ["quic"%string] [] [@QUICClientHello clear_crypto] 0 false.
Definition udp_metadata : Metadata := flow_metadata "in" "tun" "udp" (ip 10 0 0 2, 40000) (fake_addr, 443).
Definition quic_packets : list packet := (λ p, (p, mt_Destination udp_metadata)) <$> packets0.
Example sniffed_packets_reordered : ∃ chain groups h c m,
  @routePacketConnection _ plain_lib env0 router0 0 (λ _, []) [do (ActSniff sniff_quic)]
    ((λ p, PacketData p.1 p.2) <$> quic_packets) udp_metadata = Ok (Handed chain groups h (PoetConn c) m (InPackets [])) ∧
  md_Protocol (mt_request m) = "quic"%string ∧
  c = FakeIPNATConn (CachedPacketConn (CachedPacketConn InputConn (nth 0 quic_packets ([], no_socksaddr)))
                       (nth 1 quic_packets ([], no_socksaddr)))
        (mt_Destination udp_metadata) (mt_Destination m).
Proof. eexists _, _, _, _, _. split_and!; vm_compute; reflexivity. Qed.

Definition resolve_any : RouteRule := do (ActResolve "" no_query_options).
Definition rules_fake : list RouteRule := [resolve_any; do (ActRoute "select" no_override)].
Lemma rules_fake_ok : Forall (@rule_ok plain_lib) rules_fake ∧ Forall (flow_rule env0 router0) rules_fake.
Proof.
  split; [repeat constructor; by eexists|].
  repeat constructor; try done; intros a o [= <-]; cbn; [done|by intros [= <-]].
Qed.
Definition flow0 : conn + (list Z * Socksaddr * pconn) := inr ([1; 2], mt_Destination udp_metadata, []).
Lemma prematch_agrees_witness :
  let m := flow_metadata "in" "tun" (flow_network flow0) (ip 10 0 0 2, 40000) (fake_addr, 443) in
  ∃ r, @PreMatch _ plain_lib env0 router0 0 (λ _, []) rules_fake m [1; 2] = Ok r ∧
    r = MkPreMatch PreMatchFlow (Some "proxy"%string) (Some (ip 1 2 3 4, 443)) (30 * second) ∧
    fits router0 (mt_Destination m) r (@route_flow _ plain_lib env0 router0 0 (λ _, []) rules_fake m flow0).
Proof.
  intros m. destruct (@prematch_agrees _ plain_lib plain_lib_ok env0 router0 items0 0 (λ _, []) rules_fake "in" "tun"
    (ip 10 0 0 2, 40000) (fake_addr, 443) [1; 2] flow0 router0_ok (λ _ _ _, eq_refl) eq_refl
    (proj1 rules_fake_ok) (proj2 rules_fake_ok) (is_bytes_forallb [1; 2] eq_refl) eq_refl) as (r & Hr & Hf).
  exists r. split; [exact Hr|]. split; [|exact Hf]. clear Hf. vm_compute in Hr. injection Hr as <-. vm_compute. reflexivity.
Defined.

(** A rule that sends a fake destination to another domain: the pre-match
    forwards the flow to the address of the domain before. *)
Example prematch_stale_address :
  let rules := [resolve_any; do (ActRouteOptions (override_to "b.example")); do (ActRoute "proxy" no_override)] in
  @PreMatch _ plain_lib env0 router0 0 (λ _, []) rules udp_metadata [1; 2] =
    Ok (MkPreMatch PreMatchFlow (Some "proxy"%string) (Some (ip 1 2 3 4, 443)) (30 * second)) ∧
  ∃ groups h c m,
    @routePacketConnection _ plain_lib env0 router0 0 (λ _, []) rules [] udp_metadata = Ok (Handed ["proxy"%string] groups h c m (InPackets [])) ∧
    mt_Destination m = MkSocksaddr AddrZero 443 "b.example" ∧ md_DestinationAddresses (mt_request m) = [].
Proof. split; [vm_compute; reflexivity|]. eexists _, _, _, _. split_and!; vm_compute; reflexivity. Qed.
(** A route rule without an outbound: the connection is refused, and its packets
    go to the default outbound when they are judged before. *)
Example route_without_outbound :
  let rules := [do (ActRoute "" no_override)] in
  @routePacketConnection _ plain_lib env0 router0 0 (λ _, []) rules [] udp_metadata = Err (outbound_not_found "") ∧
  pm_Outbound <$> (match @PreMatch _ plain_lib env0 router0 0 (λ _, []) rules tcp_metadata [] with Ok r => Some r | _ => None end)
    = Some (Some "direct"%string).
Proof. split; vm_compute; reflexivity. Qed.
(** An error of the routing: the call for streams returns it, the call for
    packets waits for the shutdown of the router. *)
Lemma packet_route_hangs e closed :
  RouteConnection (Err e) closed = Ok (Returns (Some e)) ∧ RoutePacketConnection (Err e) closed = Ok WaitsForShutdown.
Proof. done. Qed.
