(* ===== verification/Groups.v ===== *)
(** * Groups of outbounds: [src/protocol/group], [src/common/urltest] and
    [src/common/interrupt]

    A selector sends connections to the member it was told to use and remembers
    the choice in the cache file; a URL-test group measures its members and uses
    one of the fastest.  Both keep the connections made through them, so that
    those of the previous choice can be closed.

    The outbound manager refuses a second outbound with a tag in use and removes
    none ([Managers.OutboundManager_Create]), so a tag stands for the pointer to
    the outbound that has it.  Connections are numbers.  The groups of a process
    are one state, [groups], with the history of measurements and the cache file
    they share.

    Following a selection goes from group to group; [RealTag] and [Network] carry
    fuel, and [GroupProofs] shows that one more step than there are outbounds is
    always enough for groups started in dependency order. *)
From stdpp Require Import base gmap sets list strings.
From S2P Require Import Prelude GoStrings Managers.

Definition NetworkTCP : string := "tcp".
Definition NetworkUDP : string := "udp".

(** ** The history of measurements: [urltest.HistoryStorage] *)

Record URLTestHistory := MkURLTestHistory { h_Time : Z; h_Delay : Z }.
(** [emitted] records which hooks were signalled, in order. *)
Record HistoryStorage := MkHistoryStorage {
  delayHistory : gmap string URLTestHistory;
  updateHooks : list nat;
  emitted : list nat;
}.
Definition NewHistoryStorage : HistoryStorage := MkHistoryStorage ∅ [] [].
Definition AddUpdateHook (hook : nat) (s : HistoryStorage) : HistoryStorage :=
  MkHistoryStorage (delayHistory s) (updateHooks s ++ [hook]) (emitted s).
Definition NotifyUpdated (s : HistoryStorage) : HistoryStorage :=
  MkHistoryStorage (delayHistory s) (updateHooks s) (emitted s ++ updateHooks s).
(** The receiver may be nil. *)
Definition LoadURLTestHistory (tag : string) (s : option HistoryStorage) : option URLTestHistory :=
  s ← s; delayHistory s !! tag.
Definition DeleteURLTestHistory (tag : string) (s : HistoryStorage) : HistoryStorage :=
  NotifyUpdated (MkHistoryStorage (delete tag (delayHistory s)) (updateHooks s) (emitted s)).
Definition StoreURLTestHistory (tag : string) (h : URLTestHistory) (s : HistoryStorage) : HistoryStorage :=
  NotifyUpdated (MkHistoryStorage (<[tag := h]> (delayHistory s)) (updateHooks s) (emitted s)).
Definition HistoryStorage_Close (s : HistoryStorage) : HistoryStorage :=
  MkHistoryStorage (delayHistory s) [] (emitted s).

(** ** The connections of a group: [interrupt.Group] *)

Record groupConnItem := MkConnItem { ci_conn : nat; isExternal : bool }.
(** A doubly linked list whose elements are pointers: the elements in order, with
    their addresses, and the next fresh address. *)
Record Group := MkGroup { connections : list (nat * groupConnItem); fresh : nat }.
Definition NewGroup : Group := MkGroup [] 0.
(** [PushBack]; [Add], [NewConn] and [NewPacketConn] all do it, and keep the
    element to remove it later. *)
Definition Group_Add (conn : nat) (external : bool) (g : Group) : nat * Group :=
  (fresh g, MkGroup (connections g ++ [(fresh g, MkConnItem conn external)]) (S (fresh g))).
(** [connections.Remove], which does nothing with an element that has left the
    list: the function [Add] returns, and the first half of [Conn.Close]. *)
Definition Group_Remove (element : nat) (g : Group) : Group :=
  MkGroup (filter (λ e, e.1 ≠ element) (connections g)) (fresh g).
Definition interrupted (interruptExternalConnections : bool) (e : nat * groupConnItem) : bool :=
  negb (isExternal e.2) || interruptExternalConnections.
(** [Interrupt]: the connections it closes, in order, and the group after it. *)
Definition Interrupt (interruptExternalConnections : bool) (g : Group) : list nat * Group :=
  (ci_conn ∘ snd <$> filter (λ e, interrupted interruptExternalConnections e) (connections g),
   MkGroup (filter (λ e, ¬ interrupted interruptExternalConnections e) (connections g)) (fresh g)).
(** [Conn.Close] and [PacketConn.Close]. *)
Definition Conn_Close (element conn : nat) (g : Group) : nat * Group := (conn, Group_Remove element g).

(** ** The groups *)

Record SelectorOutboundOptions := MkSelectorOptions {
  so_Outbounds : list string; so_Default : string; so_InterruptExistConnections : bool;
}.
Record Selector := MkSelector {
  sl_tag : string;
  sl_tags : list string;
  defaultTag : string;
  sl_outbounds : gset string;           (* the map of members, by tag *)
  selected : option string;
  sl_interruptGroup : Group;
  sl_interruptExternalConnections : bool;
}.
Record URLTestOutboundOptions := MkURLTestOptions {
  uo_Outbounds : list string; uo_URL : string; uo_Interval : Z; uo_Tolerance : Z; uo_IdleTimeout : Z;
  uo_InterruptExistConnections : bool;
}.
Record URLTestGroup := MkURLTestGroup {
  ug_outbounds : list string;
  ug_interval : Z;
  tolerance : Z;
  ug_idleTimeout : Z;
  checking : bool;
  selectedOutboundTCP : option string;
  selectedOutboundUDP : option string;
  ug_interruptGroup : Group;
  ug_interruptExternalConnections : bool;
}.
Record URLTest := MkURLTest {
  ut_tag : string;
  ut_tags : list string;
  ut_options : URLTestOutboundOptions;
  ut_group : option URLTestGroup;       (* nil until the group is started *)
}.
Record groups := MkGroups {
  selectors : gmap string Selector;
  urltests : gmap string URLTest;
  history : option HistoryStorage;
  cacheFile : option (gmap string string);
  closed : list nat;                    (* the connections that interrupts closed, in order *)
}.

Definition set_selector (s : Selector) (w : groups) : groups :=
  MkGroups (<[sl_tag s := s]> (selectors w)) (urltests w) (history w) (cacheFile w) (closed w).
Definition set_urltest (u : URLTest) (w : groups) : groups :=
  MkGroups (selectors w) (<[ut_tag u := u]> (urltests w)) (history w) (cacheFile w) (closed w).
Definition set_history (f : HistoryStorage → HistoryStorage) (w : groups) : groups :=
  MkGroups (selectors w) (urltests w) (f <$> history w) (cacheFile w) (closed w).
Definition set_cache (f : gmap string string → gmap string string) (w : groups) : groups :=
  MkGroups (selectors w) (urltests w) (history w) (f <$> cacheFile w) (closed w).
Definition close_conns (l : list nat) (w : groups) : groups :=
  MkGroups (selectors w) (urltests w) (history w) (cacheFile w) (closed w ++ l).

(** *** Construction *)

Definition missing_tags : error := ENew "missing tags".
Definition duplicate_tag (tag : string) : error := EFmt "duplicate tag: " [tag].
(** The loop over the tags: each is looked for among those before it. *)
Fixpoint check_tags (before tags : list string) : result () :=
  match tags with
  | [] => Ok tt
  | tag :: tags => if bool_decide (tag ∈ before) then Err (duplicate_tag tag) else check_tags (before ++ [tag]) tags
  end.
Definition NewSelector (tag : string) (o : SelectorOutboundOptions) : result Selector :=
  let s := MkSelector tag (so_Outbounds o) (so_Default o) ∅ None NewGroup (so_InterruptExistConnections o) in
  match sl_tags s with [] => Err missing_tags | _ => check_tags [] (sl_tags s) ≫= λ _, Ok s end.
Definition NewURLTest (tag : string) (o : URLTestOutboundOptions) : result URLTest :=
  let u := MkURLTest tag (uo_Outbounds o) o None in
  match ut_tags u with [] => Err missing_tags | _ => check_tags [] (ut_tags u) ≫= λ _, Ok u end.

(** constant/timeout.go, in nanoseconds. *)
Definition DefaultURLTestInterval : Z := 3 * 60 * 10^9.
Definition DefaultURLTestIdleTimeout : Z := 30 * 60 * 10^9.
Definition NewURLTestGroup (hasHistory : bool) (outbounds : list string) (interval tol idleTimeout : Z) (interruptExternal : bool)
    : result URLTestGroup :=
  let interval := if bool_decide (interval = 0%Z) then DefaultURLTestInterval else interval in
  let tol := if bool_decide (tol = 0%Z) then 50%Z else tol in
  let idleTimeout := if bool_decide (idleTimeout = 0%Z) then DefaultURLTestIdleTimeout else idleTimeout in
  if (idleTimeout <? interval)%Z then Err (ENew "interval must be less or equal than idle_timeout")
  else if negb hasHistory then Err (ENew "missing URL test history storage")
  else Ok (MkURLTestGroup outbounds interval tol idleTimeout false None None NewGroup interruptExternal).

(** *** Start *)

(** [loadSelected] of the cache file: a missing and an empty entry look alike. *)
Definition LoadSelected (group : string) (cache : gmap string string) : string := default ""%string (cache !! group).

Section groups_start.
(** Whether the outbound manager has an outbound with a tag. *)
Context (Outbound : string → bool).

Definition member_not_found (i : nat) (tag : string) : error := EFmt "outbound not found: " [Itoa (Z.of_nat i); tag].
Fixpoint find_members (i : nat) (tags found : list string) : list string * result () :=
  match tags with
  | [] => (found, Ok tt)
  | tag :: tags => if Outbound tag then find_members (S i) tags (found ++ [tag]) else (found, Err (member_not_found i tag))
  end.
Definition with_selected (members : gset string) (o : option string) (s : Selector) : Selector :=
  MkSelector (sl_tag s) (sl_tags s) (defaultTag s) members o (sl_interruptGroup s) (sl_interruptExternalConnections s).
(** The choice at the start: the cache file, then the default, then the first member. *)
Definition cached_choice (members : gset string) (s : Selector) (w : groups) : option string :=
  if bool_decide (sl_tag s = ""%string) then None
  else c ← cacheFile w;
       let selected := LoadSelected (sl_tag s) c in
       if bool_decide (selected ≠ ""%string) && bool_decide (selected ∈ members) then Some selected else None.
Definition initial_choice (members : gset string) (s : Selector) (w : groups) : result string :=
  match cached_choice members s w with
  | Some tag => Ok tag
  | None =>
      if bool_decide (defaultTag s ≠ ""%string)
      then if bool_decide (defaultTag s ∈ members) then Ok (defaultTag s)
           else Err (EFmt "default outbound not found: " [defaultTag s])
      else match sl_tags s with tag :: _ => Ok tag | [] => Panic "index out of range" end
  end.
(** [Selector.Start] at the stage [StartStateStart]; the other stages do nothing. *)
Definition Selector_Start (s : Selector) (w : groups) : result () * groups :=
  let found := find_members 0 (sl_tags s) [] in
  let members := sl_outbounds s ∪ list_to_set found.1 in
  match found.2 ≫= λ _, initial_choice members s w with
  | Ok tag => (Ok tt, set_selector (with_selected members (Some tag) s) w)
  | Err e => (Err e, set_selector (with_selected members (selected s) s) w)
  | Panic p => (Panic p, set_selector (with_selected members (selected s) s) w)
  end.
Definition with_group (g : URLTestGroup) (u : URLTest) : URLTest := MkURLTest (ut_tag u) (ut_tags u) (ut_options u) (Some g).
Definition URLTest_Start (u : URLTest) (w : groups) : result () * groups :=
  let o := ut_options u in
  let found := find_members 0 (ut_tags u) [] in
  match found.2 ≫= λ _,
        NewURLTestGroup (bool_decide (is_Some (history w))) found.1 (uo_Interval o) (uo_Tolerance o) (uo_IdleTimeout o)
          (uo_InterruptExistConnections o) with
  | Ok g => (Ok tt, set_urltest (with_group g u) w)
  | Err e => (Err e, w)
  | Panic p => (Panic p, w)
  end.
End groups_start.

(** ** Following a selection *)

Definition out_of_fuel : error := EStd "out of fuel".
Definition nil_group : string := "invalid memory address or nil pointer dereference".

Section select.
(** The networks of the outbounds that are not groups. *)
Context (leafNetwork : string → list string) (w : groups).

(** [Network]: a selector has the networks of its member, a URL-test group both. *)
Fixpoint Network (fuel : nat) (o : string) : result (list string) :=
  match fuel with
  | O => Err out_of_fuel
  | S fuel =>
      match selectors w !! o with
      | Some s => match selected s with None => Ok [NetworkTCP; NetworkUDP] | Some d => Network fuel d end
      | None => Ok (if bool_decide (is_Some (urltests w !! o)) then [NetworkTCP; NetworkUDP] else leafNetwork o)
      end
  end.

Section with_realtag.
Context (networks : string → result (list string)) (realTag : string → string → result string).

Definition current (network : string) (g : URLTestGroup) : option string :=
  if bool_decide (network = NetworkTCP) then selectedOutboundTCP g
  else if bool_decide (network = NetworkUDP) then selectedOutboundUDP g else None.
Definition load_of (o network : string) : result (option URLTestHistory) :=
  tag ← realTag o network; Ok (LoadURLTestHistory tag (history w)).
(** The loop over the members.  The sum of a delay and the tolerance is a uint16. *)
Fixpoint select_go (g : URLTestGroup) (network : string) (l : list string) (minDelay : Z) (minOutbound : option string)
    : result (option string) :=
  match l with
  | [] => Ok minOutbound
  | detour :: l =>
      ns ← networks detour;
      if negb (bool_decide (network ∈ ns)) then select_go g network l minDelay minOutbound
      else
        h ← load_of detour network;
        match h with
        | None => select_go g network l minDelay minOutbound
        | Some h =>
            if (minDelay =? 0)%Z || (u16 (h_Delay h + tolerance g) <? minDelay)%Z
            then select_go g network l (h_Delay h) (Some detour)
            else select_go g network l minDelay minOutbound
        end
  end.
Fixpoint first_supporting (network : string) (l : list string) : result (option string) :=
  match l with
  | [] => Ok None
  | detour :: l => ns ← networks detour; if bool_decide (network ∈ ns) then Ok (Some detour) else first_supporting network l
  end.
Definition select_init (g : URLTestGroup) (network : string) : result (Z * option string) :=
  match current network g with
  | None => Ok (0%Z, None)
  | Some o => h ← load_of o network; Ok (match h with Some h => (h_Delay h, Some o) | None => (0%Z, None) end)
  end.
Definition Select (g : URLTestGroup) (network : string) : result (option string * bool) :=
  init ← select_init g network;
  minOutbound ← select_go g network (ug_outbounds g) init.1 init.2;
  match minOutbound with
  | Some o => Ok (Some o, true)
  | None => o ← first_supporting network (ug_outbounds g); Ok (o, false)
  end.
Definition URLTest_Selected (u : URLTest) (network : string) : result (option string) :=
  match ut_group u with
  | None => Panic nil_group
  | Some g =>
      match (if bool_decide (network = NetworkUDP) then selectedOutboundUDP g else selectedOutboundTCP g) with
      | Some o => Ok (Some o)
      | None => r ← Select g network; Ok r.1
      end
  end.
(** [group.Selected] of an outbound, when it is a group. *)
Definition Selected_of (o network : string) : option (result (option string)) :=
  match selectors w !! o with
  | Some s => Some (Ok (selected s))
  | None => match urltests w !! o with Some u => Some (URLTest_Selected u network) | None => None end
  end.
End with_realtag.

Fixpoint RealTag (fuel : nat) (o network : string) : result string :=
  match fuel with
  | O => Err out_of_fuel
  | S fuel =>
      match Selected_of (Network fuel) (RealTag fuel) o network with
      | None => Ok o
      | Some r => d ← r; match d with None => Ok ""%string | Some d => RealTag fuel d network end
      end
  end.

(** [References] of the two groups. *)
Definition Selector_References (s : Selector) : list string :=
  match selected s with None => take 1 (sl_tags s) | Some o => [o] end.
Definition URLTest_References (u : URLTest) : list string :=
  match ut_group u with
  | None => []
  | Some g =>
      option_list (selectedOutboundTCP g) ++
      match selectedOutboundUDP g with
      | Some o => if bool_decide (selectedOutboundUDP g ≠ selectedOutboundTCP g) then [o] else []
      | None => []
      end
  end.
End select.

(** ** Choosing and connecting *)

Definition with_interrupt (g : Group) (s : Selector) : Selector :=
  MkSelector (sl_tag s) (sl_tags s) (defaultTag s) (sl_outbounds s) (selected s) g (sl_interruptExternalConnections s).
(** [storeErr] is what [StoreSelected] answers; an error is only logged. *)
Definition store_choice (storeErr : option error) (s : Selector) (o : string) (w : groups) : groups :=
  if bool_decide (sl_tag s = ""%string) then w
  else match storeErr with None => set_cache <[sl_tag s := o]> w | Some _ => w end.
Definition SelectOutbound (storeErr : option error) (o : string) (s : Selector) (w : groups) : bool * groups :=
  if negb (bool_decide (o ∈ sl_outbounds s)) then (false, w)
  else
    let s' := with_selected (sl_outbounds s) (Some o) s in
    if bool_decide (selected s = Some o) then (true, set_selector s' w)
    else
      let w := store_choice storeErr s o w in
      let i := Interrupt (sl_interruptExternalConnections s) (sl_interruptGroup s) in
      (true, set_history NotifyUpdated (close_conns i.1 (set_selector (with_interrupt i.2 s') w))).

(** [DialContext] and [ListenPacket] of a selector read the selection, dial, and
    then enter the connection in the interrupt group. *)
Definition Selector_target (s : Selector) : result string :=
  match selected s with Some o => Ok o | None => Panic nil_group end.
Definition Selector_NewConn (conn : nat) (external : bool) (s : Selector) (w : groups) : nat * groups :=
  let a := Group_Add conn external (sl_interruptGroup s) in (a.1, set_selector (with_interrupt a.2 s) w).
Definition Selector_DialContext (dial : string → result nat) (external : bool) (s : Selector) (w : groups)
    : result nat * groups :=
  match Selector_target s ≫= dial with
  | Ok conn => let a := Selector_NewConn conn external s w in (Ok a.1, a.2)
  | Err e => (Err e, w)
  | Panic p => (Panic p, w)
  end.
Definition Selector_AttachConnection (closer : nat) (s : Selector) (w : groups) : nat * groups :=
  Selector_NewConn closer true s w.

Definition with_ug (f : URLTestGroup → URLTestGroup) (u : URLTest) : URLTest :=
  MkURLTest (ut_tag u) (ut_tags u) (ut_options u) (f <$> ut_group u).
Definition ug_set_interrupt (i : Group) (g : URLTestGroup) : URLTestGroup :=
  MkURLTestGroup (ug_outbounds g) (ug_interval g) (tolerance g) (ug_idleTimeout g) (checking g) (selectedOutboundTCP g)
    (selectedOutboundUDP g) i (ug_interruptExternalConnections g).
Definition ug_set_checking (b : bool) (g : URLTestGroup) : URLTestGroup :=
  MkURLTestGroup (ug_outbounds g) (ug_interval g) (tolerance g) (ug_idleTimeout g) b (selectedOutboundTCP g)
    (selectedOutboundUDP g) (ug_interruptGroup g) (ug_interruptExternalConnections g).
Definition ug_set_tcp (o : string) (g : URLTestGroup) : URLTestGroup :=
  MkURLTestGroup (ug_outbounds g) (ug_interval g) (tolerance g) (ug_idleTimeout g) (checking g) (Some o)
    (selectedOutboundUDP g) (ug_interruptGroup g) (ug_interruptExternalConnections g).
Definition ug_set_udp (o : string) (g : URLTestGroup) : URLTestGroup :=
  MkURLTestGroup (ug_outbounds g) (ug_interval g) (tolerance g) (ug_idleTimeout g) (checking g) (selectedOutboundTCP g)
    (Some o) (ug_interruptGroup g) (ug_interruptExternalConnections g).

Section operations.
Context (leafNetwork : string → list string) (fuel : nat).

Definition Select_in (w : groups) : URLTestGroup → string → result (option string * bool) :=
  Select w (Network leafNetwork w fuel) (RealTag leafNetwork w fuel).
Definition missing_supported : error := ENew "missing supported outbound".

(** The outbound a URL-test group dials.  [name] is [N.NetworkName] of the
    network: it picks the field, the loop gets the network as it was asked. *)
Definition URLTest_target (name network : string) (g : URLTestGroup) (w : groups) : result string :=
  o ← (if bool_decide (name = NetworkTCP) then Ok (selectedOutboundTCP g)
       else if bool_decide (name = NetworkUDP) then Ok (selectedOutboundUDP g)
       else Err (EFmt "unknown network" [network]));
  o ← match o with Some o => Ok (Some o) | None => r ← Select_in w g network; Ok r.1 end;
  match o with Some o => Ok o | None => Err missing_supported end.
Definition URLTest_NewConn (conn : nat) (external : bool) (u : URLTest) (g : URLTestGroup) (w : groups) : nat * groups :=
  let a := Group_Add conn external (ug_interruptGroup g) in (a.1, set_urltest (with_ug (ug_set_interrupt a.2) u) w).
(** [DialContext] after [Touch]; [ListenPacket] is it with the network "udp".  A
    failed dial forgets the measurement under the tag of the member. *)
Definition URLTest_DialContext (name network : string) (dial : string → result nat) (external : bool) (u : URLTest) (w : groups)
    : result nat * groups :=
  match ut_group u with
  | None => (Panic nil_group, w)
  | Some g =>
      match URLTest_target name network g w with
      | Ok o =>
          match dial o with
          | Ok conn => let a := URLTest_NewConn conn external u g w in (Ok a.1, a.2)
          | Err e => (Err e, set_history (DeleteURLTestHistory o) w)
          | Panic p => (Panic p, w)
          end
      | Err e => (Err e, w)
      | Panic p => (Panic p, w)
      end
  end.
Definition URLTest_ListenPacket : (string → result nat) → bool → URLTest → groups → result nat * groups :=
  URLTest_DialContext NetworkUDP NetworkUDP.
Definition URLTest_AttachConnection (closer : nat) (u : URLTest) (w : groups) : result (nat * groups) :=
  match ut_group u with None => Panic nil_group | Some g => Ok (URLTest_NewConn closer true u g w) end.

(** ** The update check *)

(** One half of [performUpdateCheck]: what is selected for a network, whether it
    replaces another choice and whether anything was selected. *)
Definition set_current (network o : string) : URLTestGroup → URLTestGroup :=
  if bool_decide (network = NetworkTCP) then ug_set_tcp o else ug_set_udp o.
Definition update_half (network : string) (g : URLTestGroup) (w : groups) : result (URLTestGroup * bool * bool) :=
  r ← Select_in w g network;
  match r.1 with
  | Some o =>
      if bool_decide (current network g = None) || (r.2 && bool_decide (current network g ≠ Some o))
      then Ok (set_current network o g, bool_decide (is_Some (current network g)), true)
      else Ok (g, false, false)
  | None => Ok (g, false, false)
  end.
Definition performUpdateCheck (u : URLTest) (w : groups) : result groups :=
  match ut_group u with
  | None => Panic nil_group
  | Some g =>
      tcp ← update_half NetworkTCP g w;
      let w := set_urltest (with_group tcp.1.1 u) w in
      udp ← update_half NetworkUDP tcp.1.1 w;
      let g := udp.1.1 in
      let i := if tcp.1.2 || udp.1.2 then Interrupt (ug_interruptExternalConnections g) (ug_interruptGroup g)
               else ([], ug_interruptGroup g) in
      let w := close_conns i.1 (set_urltest (with_group (ug_set_interrupt i.2 g) u) w) in
      Ok (if tcp.2 || udp.2 then set_history NotifyUpdated w else w)
  end.

(** ** Testing the members *)

(** What [urlTestBatch.test] hands to the batch. *)
Inductive task := TestGroup (tag : string) | TestLeaf (tag : string).
Record urlTestBatch := MkBatch { checked : gset string; b_groups : list string; b_tasks : list task }.
Definition NewBatch : urlTestBatch := MkBatch ∅ [] [].
Definition fresh_history (now interval : Z) (h : option URLTestHistory) : bool :=
  match h with Some h => (now - h_Time h <? interval)%Z | None => false end.

Section test.
(** The tasks run while the loop goes on: [seen] is what the storage answers
    when the loop asks, [now] the clock at that moment. *)
Context (Outbound : string → bool) (seen : string → option URLTestHistory) (now : string → Z) (interval : Z) (force : bool).

Definition test_one (nested : list string → urlTestBatch → result urlTestBatch) (w : groups) (b : result urlTestBatch) (tag : string)
    : result urlTestBatch :=
  b ← b;
  if bool_decide (tag ∈ checked b) then Ok b
  else match urltests w !! tag, selectors w !! tag with
       | Some _, _ => Ok (MkBatch ({[tag]} ∪ checked b) (b_groups b ++ [tag]) (b_tasks b ++ [TestGroup tag]))
       | None, Some group =>
           nested (filter (λ it, Outbound it) (sl_tags group)) (MkBatch ({[tag]} ∪ checked b) (b_groups b ++ [tag]) (b_tasks b))
       | None, None =>
           if negb force && fresh_history (now tag) interval (seen tag) then Ok b
           else Ok (MkBatch ({[tag]} ∪ checked b) (b_groups b) (b_tasks b ++ [TestLeaf tag]))
       end.
Fixpoint test (depth : nat) (w : groups) (outbounds : list string) (b : urlTestBatch) : result urlTestBatch :=
  match depth with
  | O => Err out_of_fuel
  | S depth => foldl (test_one (test depth w) w) (Ok b) outbounds
  end.
End test.

(** What the measurement of an outbound answers within its time limit, and the
    time it is recorded with; [cancelled] when the context of the batch ended. *)
Record measurement := MkMeasurement { ms_result : result Z; ms_now : Z; ms_cancelled : bool }.
Definition run_leaf (tag : string) (m : measurement) (result : gmap string Z) (w : groups) : gmap string Z * groups :=
  match ms_result m with
  | Ok delay => (<[tag := delay]> result, set_history (StoreURLTestHistory tag (MkURLTestHistory (ms_now m) delay)) w)
  | _ => if ms_cancelled m then (result, w) else (result, set_history (DeleteURLTestHistory tag) w)
  end.
(** The results of the groups of the batch, read when its tasks are done. *)
Fixpoint group_results (l : list string) (result : gmap string Z) (w : groups) : Prelude.result (gmap string Z) :=
  match l with
  | [] => Ok result
  | tag :: l =>
      real ← RealTag leafNetwork w fuel tag NetworkTCP;
      group_results l (match LoadURLTestHistory real (history w) with Some h => <[tag := h_Delay h]> result | None => result end) w
  end.
End operations.

(** *** A whole test

    The tasks of a batch run in any order ([te_order]); a nested group is tested
    as one of them. *)
Record TestEnv := MkTestEnv {
  te_Network : string → list string;
  te_Outbound : string → bool;
  te_seen : string → option URLTestHistory;
  te_now : string → Z;
  te_measure : string → measurement;
  te_order : list task → list task;
}.
Section urltest.
Context (E : TestEnv) (fuel : nat) (force : bool).

Definition run_task (nested : string → groups → result (gmap string Z * groups)) (x : result (gmap string Z * groups)) (t : task)
    : result (gmap string Z * groups) :=
  x ← x;
  match t with
  | TestLeaf tag => Ok (run_leaf tag (te_measure E tag) x.1 x.2)
  | TestGroup tag => r ← nested tag x.2; Ok (r.1 ∪ x.1, r.2)
  end.
(** [URLTestOutbounds] *)
Definition URLTestOutbounds (nested : string → groups → result (gmap string Z * groups)) (interval : Z) (outbounds : list string)
    (w : groups) : result (gmap string Z * groups) :=
  b ← test (te_Outbound E) (te_seen E) (te_now E) interval force fuel w outbounds NewBatch;
  x ← foldl (run_task nested) (Ok (∅, w)) (te_order E (b_tasks b));
  r ← group_results (te_Network E) fuel (b_groups b) x.1 x.2;
  Ok (r, x.2).
(** The update of a group where it is now. *)
Definition on_group {A} (tag : string) (w : groups) (f : URLTest → URLTestGroup → result A) : result A :=
  match urltests w !! tag with
  | Some u => match ut_group u with Some g => f u g | None => Panic nil_group end
  | None => Panic nil_group
  end.
Fixpoint urlTest (depth : nat) (tag : string) (w : groups) : result (gmap string Z * groups) :=
  match depth with
  | O => Err out_of_fuel
  | S depth =>
      on_group tag w (λ u g,
        if checking g then Ok (∅, w)
        else
          let w := set_urltest (with_ug (ug_set_checking true) u) w in
          x ← URLTestOutbounds (urlTest depth) (ug_interval g) (ug_outbounds g) w;
          w ← on_group tag x.2 (λ u _, performUpdateCheck (te_Network E) fuel u x.2);
          on_group tag w (λ u _, Ok (x.1, set_urltest (with_ug (ug_set_checking false) u) w)))
  end.
End urltest.

(** ** When the members are tested

    The first connection after an idle period makes a ticker and a goroutine that
    tests the members at every tick, until the group has been idle for too long
    or is closed.  Tickers are numbers; [loops] has the goroutines with the place
    they have reached. *)
Inductive loop_pc := LStart | LWait | LIdle.
Record Ticking := MkTicking {
  tk_started : bool;
  ticker : option nat;
  tk_next : nat;
  tk_close : bool;              (* the channel is closed *)
  lastActive : Z;
  running : gset nat;           (* tickers made and not stopped *)
  registered : gset nat;        (* tickers with a pause callback *)
  loops : list (nat * loop_pc);
}.
Definition NewTicking : Ticking := MkTicking false None 0 false 0 ∅ ∅ [].
Definition PostStart (now : Z) (k : Ticking) : Ticking :=
  MkTicking true (ticker k) (tk_next k) (tk_close k) now (running k) (registered k) (loops k).
Definition Touch (now : Z) (k : Ticking) : Ticking :=
  if negb (tk_started k) then k
  else match ticker k with
       | Some _ => MkTicking true (ticker k) (tk_next k) (tk_close k) now (running k) (registered k) (loops k)
       | None =>
           let t := tk_next k in
           MkTicking true (Some t) (S t) (tk_close k) (lastActive k) ({[t]} ∪ running k) ({[t]} ∪ registered k)
             (loops k ++ [(t, LStart)])
       end.
Definition stop_ticker (t : nat) (k : Ticking) : Ticking :=
  MkTicking (tk_started k) None (tk_next k) (tk_close k) (lastActive k) (running k ∖ {[t]}) (registered k ∖ {[t]}) (loops k).
Definition close_of_closed : string := "close of closed channel".
Definition URLTestGroup_Close (k : Ticking) : result Ticking :=
  match ticker k with
  | None => Ok k
  | Some t =>
      let k := stop_ticker t k in
      if tk_close k then Panic close_of_closed
      else Ok (MkTicking (tk_started k) (ticker k) (tk_next k) true (lastActive k) (running k) (registered k) (loops k))
  end.
Definition set_loops (l : list (nat * loop_pc)) (k : Ticking) : Ticking :=
  MkTicking (tk_started k) (ticker k) (tk_next k) (tk_close k) (lastActive k) (running k) (registered k) l.
Definition set_active (now : Z) (k : Ticking) : Ticking :=
  MkTicking (tk_started k) (ticker k) (tk_next k) (tk_close k) now (running k) (registered k) (loops k).
(** A step of the goroutine of a ticker: before the loop, at the select (where a
    closed channel and a tick, also one from before the ticker was stopped, may
    both be ready), and in the
    critical section that stops the ticker. *)
Inductive loop_step (interval idleTimeout now : Z) (t : nat) (rest1 rest2 : list (nat * loop_pc)) (k : Ticking)
    : loop_pc → Ticking → Prop :=
  | loop_start :
      loop_step interval idleTimeout now t rest1 rest2 k LStart
        (set_loops (rest1 ++ (t, LWait) :: rest2) (if (interval <? now - lastActive k)%Z then set_active now k else k))
  | loop_closed : tk_close k →
      loop_step interval idleTimeout now t rest1 rest2 k LWait (set_loops (rest1 ++ rest2) k)
  | loop_tick : (now - lastActive k ≤ idleTimeout)%Z →
      loop_step interval idleTimeout now t rest1 rest2 k LWait k
  | loop_idle : (idleTimeout < now - lastActive k)%Z →
      loop_step interval idleTimeout now t rest1 rest2 k LWait (set_loops (rest1 ++ (t, LIdle) :: rest2) k)
  | loop_stop :
      loop_step interval idleTimeout now t rest1 rest2 k LIdle
        (set_loops (rest1 ++ rest2) (if bool_decide (ticker k = Some t) then stop_ticker t k else k)).
Inductive ticking_step (interval idleTimeout : Z) (k : Ticking) : Ticking → Prop :=
  | step_post now : ticking_step interval idleTimeout k (PostStart now k)
  | step_touch now : ticking_step interval idleTimeout k (Touch now k)
  | step_loop now t pc rest1 rest2 k' :
      loops k = rest1 ++ (t, pc) :: rest2 → loop_step interval idleTimeout now t rest1 rest2 k pc k' →
      ticking_step interval idleTimeout k k'.
