(* ===== verification/GroupProofs.v ===== *)
(** * What the groups of outbounds guarantee

    - A group only ever selects one of its members, so that the router, which
      follows selections, ends and finds a plain outbound
      ([selection_follows_groups], and [groups_discharge] for the assumption of
      [RouteProofs.router_ok]).
    - After a test of its members a URL-test group uses one whose delay is within
      the tolerance of the least ([urltest_uses_fast_member]); the bound on the
      delays that the 16-bit sum needs is a hypothesis, and
      [select_wraps] shows what happens without it.
    - A choice made in a selector is found again after a restart
      ([choice_survives_restart]).
    - An open group has one testing goroutine per ticker ([one_loop_per_ticker]). *)
From stdpp Require Import base gmap sets list strings relations.
From S2P Require Import Prelude GoStrings DepStart Managers Route RouteProofs Groups.

(** ** Well-formed groups *)

Definition picks (tags : list string) (o : option string) : Prop := ∀ d, o = Some d → d ∈ tags.
Record selector_ok (s : list Item) (t : string) (sl : Selector) : Prop := {
  slok_tag : sl_tag sl = t;
  slok_item x : x ∈ s → i_tag x = t → i_deps x = sl_tags sl;
  slok_members : sl_outbounds sl ⊆ list_to_set (sl_tags sl);
  slok_selected : picks (sl_tags sl) (selected sl);
}.
Record urlgroup_ok (tags : list string) (g : URLTestGroup) : Prop := {
  ugok_outbounds : ug_outbounds g = tags;
  ugok_tcp : picks tags (selectedOutboundTCP g);
  ugok_udp : picks tags (selectedOutboundUDP g);
}.
Record urltest_ok (s : list Item) (t : string) (u : URLTest) : Prop := {
  utok_tag : ut_tag u = t;
  utok_item x : x ∈ s → i_tag x = t → i_deps x = ut_tags u;
  utok_group g : ut_group u = Some g → urlgroup_ok (ut_tags u) g;
}.
Definition groups_ok (s : list Item) (w : groups) : Prop :=
  map_Forall (selector_ok s) (selectors w) ∧ map_Forall (urltest_ok s) (urltests w).

(** What the constructors make: nothing is selected or started yet. *)
Definition constructed (s : list Item) (w : groups) : Prop :=
  map_Forall (λ t sl, (∃ o, NewSelector t o = Ok sl) ∧ ∀ x, x ∈ s → i_tag x = t → i_deps x = sl_tags sl) (selectors w) ∧
  map_Forall (λ t u, (∃ o, NewURLTest t o = Ok u) ∧ ∀ x, x ∈ s → i_tag x = t → i_deps x = ut_tags u) (urltests w).
Definition started (w : groups) : Prop :=
  map_Forall (λ _ sl, is_Some (selected sl)) (selectors w) ∧ map_Forall (λ _ u, is_Some (ut_group u)) (urltests w).

Lemma picks_None tags : picks tags None.
Proof. by intros d. Qed.
Lemma picks_Some tags o : o ∈ tags → picks tags (Some o).
Proof. by intros ? d [= <-]. Qed.
#[local] Hint Resolve picks_None picks_Some : singr.

Lemma NewSelector_inv t o sl : NewSelector t o = Ok sl →
  sl = MkSelector t (so_Outbounds o) (so_Default o) ∅ None NewGroup (so_InterruptExistConnections o).
Proof. unfold NewSelector. cbn. case_match; [done|]. by destruct (check_tags _ _) as [[]| |]; intros [= <-]. Qed.
Lemma NewURLTest_inv t o u : NewURLTest t o = Ok u → u = MkURLTest t (uo_Outbounds o) o None.
Proof. unfold NewURLTest. cbn. case_match; [done|]. by destruct (check_tags _ _) as [[]| |]; intros [= <-]. Qed.
Lemma constructed_ok s w : constructed s w → groups_ok s w.
Proof.
  intros [Hs Hu]. split; intros t x Hx.
  - destruct (Hs t x Hx) as [[o ->%NewSelector_inv] Hi]. by split; cbn; auto with singr.
  - destruct (Hu t x Hx) as [[o ->%NewURLTest_inv] Hi]. by split; cbn; auto.
Qed.

Section ok.
Context (s : list Item).

Lemma set_selector_ok sl w : groups_ok s w → selector_ok s (sl_tag sl) sl → groups_ok s (set_selector sl w).
Proof. intros [??] ?. split; [by apply map_Forall_insert_2|done]. Qed.
Lemma set_urltest_ok u w : groups_ok s w → urltest_ok s (ut_tag u) u → groups_ok s (set_urltest u w).
Proof. intros [??] ?. split; [done|by apply map_Forall_insert_2]. Qed.
Lemma set_history_ok f w : groups_ok s w → groups_ok s (set_history f w).
Proof. done. Qed.
Lemma close_conns_ok l w : groups_ok s w → groups_ok s (close_conns l w).
Proof. done. Qed.
Lemma set_cache_ok f w : groups_ok s w → groups_ok s (set_cache f w).
Proof. done. Qed.
Lemma find_members_found Outbound i tags found :
  ∃ l, (find_members Outbound i tags found).1 = found ++ l ∧ l ⊆ tags ∧
       ((find_members Outbound i tags found).2 = Ok tt → l = tags).
Proof.
  revert i found. induction tags as [|t tags IH]; intros i found; cbn [find_members].
  { exists []. split_and!; [by rewrite app_nil_r|set_solver|done]. }
  destruct (Outbound t).
  - destruct (IH (S i) (found ++ [t])) as (l & -> & Hl & Hok). exists (t :: l).
    split_and!; [by rewrite <- app_assoc|set_solver|by intros ->%Hok].
  - exists []. split_and!; [by rewrite app_nil_r|set_solver|done].
Qed.
Lemma initial_choice_member members sl w o :
  members ⊆ list_to_set (sl_tags sl) → initial_choice members sl w = Ok o → o ∈ sl_tags sl.
Proof.
  unfold initial_choice, cached_choice. intros Hm.
  assert (∀ o, o ∈ members → o ∈ sl_tags sl) as Hin by set_solver.
  destruct (if bool_decide (sl_tag sl = _) then None else _) as [o'|] eqn:Hc.
  { intros [= <-]. case_bool_decide; [done|]. destruct (cacheFile w); cbn in Hc; [|done].
    repeat case_bool_decide; cbn in Hc; simplify_eq; auto. }
  clear Hc. case_bool_decide as Hd; [case_bool_decide; [intros [= <-]; auto|done]|].
  destruct (sl_tags sl); [done|]. intros [= <-]. by left.
Qed.
Lemma Selector_Start_ok Outbound t sl w :
  groups_ok s w → selectors w !! t = Some sl → groups_ok s (Selector_Start Outbound sl w).2.
Proof.
  intros Hw Hsl. destruct (proj1 Hw t sl Hsl) as [<- Hi Hm Hsel]. unfold Selector_Start.
  destruct (find_members_found Outbound 0 (sl_tags sl) []) as (l & -> & Hl & _).
  assert (sl_outbounds sl ∪ list_to_set ([] ++ l) ⊆ (list_to_set (sl_tags sl) : gset string)) as Hm' by set_solver.
  destruct (_ ≫= _) as [o|e|p] eqn:Ho; apply set_selector_ok; try done; split; cbn; auto.
  apply result_bind_Ok in Ho as (? & _ & Ho). eauto using initial_choice_member with singr.
Qed.
Lemma NewURLTestGroup_inv h l i tol idle ext g :
  NewURLTestGroup h l i tol idle ext = Ok g →
  ug_outbounds g = l ∧ selectedOutboundTCP g = None ∧ selectedOutboundUDP g = None.
Proof. unfold NewURLTestGroup. by repeat case_match; intros [= <-]. Qed.
Lemma URLTest_Start_ok Outbound t u w :
  groups_ok s w → urltests w !! t = Some u → groups_ok s (URLTest_Start Outbound u w).2.
Proof.
  intros Hw Hu. destruct (proj2 Hw t u Hu) as [<- Hi Hg]. unfold URLTest_Start.
  destruct (find_members_found Outbound 0 (ut_tags u) []) as (l & -> & _ & Hl).
  destruct (_ ≫= _) as [g|e|p] eqn:Ho; cbn; try done.
  apply result_bind_Ok in Ho as ([] & ->%Hl & (Hout & H1 & H2)%NewURLTestGroup_inv).
  apply set_urltest_ok; [done|]. split; cbn; auto. intros ? [= <-]. split; [done|rewrite H1|rewrite H2]; apply picks_None.
Qed.
Lemma SelectOutbound_ok err o t sl w :
  groups_ok s w → selectors w !! t = Some sl → groups_ok s (SelectOutbound err o sl w).2.
Proof.
  intros Hw Hsl. destruct (proj1 Hw t sl Hsl) as [<- Hi Hm Hsel]. unfold SelectOutbound, store_choice.
  case_bool_decide as Ho; cbn; [|done].
  assert (picks (sl_tags sl) (Some o)) by (apply picks_Some; set_solver).
  repeat (case_bool_decide || case_match); apply set_selector_ok; try done; by split.
Qed.
Lemma Selector_NewConn_ok c e t sl w :
  groups_ok s w → selectors w !! t = Some sl → groups_ok s (Selector_NewConn c e sl w).2.
Proof. intros Hw Hsl. destruct (proj1 Hw t sl Hsl) as [<- ???]. by apply set_selector_ok. Qed.
Lemma with_ug_ok f t u w :
  groups_ok s w → urltests w !! t = Some u →
  (∀ g, ut_group u = Some g → urlgroup_ok (ut_tags u) g → urlgroup_ok (ut_tags u) (f g)) →
  groups_ok s (set_urltest (with_ug f u) w).
Proof.
  intros Hw Hu Hf. destruct (proj2 Hw t u Hu) as [<- Hi Hg].
  apply set_urltest_ok; [done|]. split; cbn; auto. intros g. destruct (ut_group u); intros [= <-]. auto.
Qed.
End ok.

(** ** A selection is a member *)

Section members.
Context (w : groups) (networks : string → result (list string)) (realTag : string → string → result string).

Lemma select_go_member g network l minDelay minOutbound r :
  select_go w networks realTag g network l minDelay minOutbound = Ok r → r = minOutbound ∨ ∃ d, d ∈ l ∧ r = Some d.
Proof.
  revert minDelay minOutbound. induction l as [|d l IH]; intros md mo; cbn [select_go]; [by intros [= <-]; left|].
  intros (ns & _ & Hr)%result_bind_Ok. case_bool_decide; cbn in Hr.
  - apply result_bind_Ok in Hr as ([h|] & _ & Hr); [case_match|]; apply IH in Hr; set_solver.
  - apply IH in Hr; set_solver.
Qed.
Lemma first_supporting_member network l r : first_supporting networks network l = Ok r → picks l r.
Proof.
  induction l as [|d l IH]; cbn [first_supporting]; [intros [= <-]; apply picks_None|].
  intros (ns & _ & Hr)%result_bind_Ok. case_bool_decide; simplify_eq; [apply picks_Some; by left|].
  intros o ->. right. by apply IH.
Qed.
Lemma current_member tags g network : urlgroup_ok tags g → picks tags (current network g).
Proof. intros [_ ??]. unfold current. repeat case_bool_decide; auto using picks_None. Qed.
Lemma Select_member tags g network r : urlgroup_ok tags g → Select w networks realTag g network = Ok r → picks tags r.1.
Proof.
  intros Hg (init & Hi & (m & Hm & Hr)%result_bind_Ok)%result_bind_Ok.
  assert (picks tags init.2) as Hinit.
  { unfold select_init in Hi. destruct (current network g) as [o|] eqn:Hc; [|simplify_eq; apply picks_None].
    apply result_bind_Ok in Hi as ([h|] & _ & [= <-]); [|apply picks_None].
    apply picks_Some. by apply (current_member tags g network Hg). }
  rewrite (ugok_outbounds _ _ Hg) in *. apply select_go_member in Hm.
  destruct m as [o|]; simplify_eq/=.
  - destruct Hm as [Hm|(d & Hd & [= ->])]; [by rewrite Hm|by apply picks_Some].
  - apply result_bind_Ok in Hr as (o & Ho%first_supporting_member & [= <-]). done.
Qed.
Lemma Selected_of_member s x network d :
  groups_ok s w → x ∈ s → Selected_of w networks realTag (i_tag x) network = Some (Ok (Some d)) → d ∈ i_deps x.
Proof.
  intros [Hs Hu] Hx. unfold Selected_of.
  destruct (selectors w !! i_tag x) as [sl|] eqn:Hsl.
  { intros [= Hd]. destruct (Hs _ _ Hsl) as [_ Hi _ Hp]. rewrite (Hi x Hx eq_refl). auto. }
  destruct (urltests w !! i_tag x) as [u|] eqn:Hut; [|done]. intros [= Hd].
  destruct (Hu _ _ Hut) as [_ Hi Hg]. rewrite (Hi x Hx eq_refl).
  unfold URLTest_Selected in Hd. destruct (ut_group u) as [g|]; [|done]. specialize (Hg g eq_refl).
  destruct (if bool_decide (network = NetworkUDP) then _ else _) as [o|] eqn:Ho; simplify_eq.
  - case_bool_decide; [by apply (ugok_udp _ _ Hg)|by apply (ugok_tcp _ _ Hg)].
  - apply result_bind_Ok in Hd as (r & Hr & [= Hd]). by apply (Select_member _ _ _ _ Hg Hr).
Qed.

(** *** It can be computed when its members' tags and networks can *)

Definition known (network d : string) : Prop := (∃ ns, networks d = Ok ns) ∧ ∃ t, realTag d network = Ok t.
Lemma select_go_total g network l minDelay minOutbound :
  (∀ d, d ∈ l → known network d) → ∃ r, select_go w networks realTag g network l minDelay minOutbound = Ok r.
Proof.
  revert minDelay minOutbound. induction l as [|d l IH]; intros md mo Hl; cbn [select_go]; [by eexists|].
  destruct (Hl d) as [[ns ->] [t Ht]]; [by left|]; cbn.
  assert (∀ md mo, ∃ r, select_go w networks realTag g network l md mo = Ok r) as IH' by (intros; apply IH; intros; apply Hl; by right).
  case_bool_decide; cbn; [|done]. unfold load_of. rewrite Ht; cbn. case_match; [case_match|]; apply IH'.
Qed.
Lemma first_supporting_total network l : (∀ d, d ∈ l → known network d) → ∃ r, first_supporting networks network l = Ok r.
Proof.
  induction l as [|d l IH]; intros Hl; cbn [first_supporting]; [by eexists|].
  destruct (Hl d) as [[ns ->] _]; [by left|]; cbn. case_bool_decide; [by eexists|]. apply IH. intros; apply Hl; by right.
Qed.
Lemma Select_total tags g network :
  urlgroup_ok tags g → (∀ d, d ∈ tags → known network d) →
  ∃ r, Select w networks realTag g network = Ok r.
Proof.
  intros Hg Ht. unfold Select, select_init.
  assert (∃ i, select_init w realTag g network = Ok i) as [i Hi].
  { unfold select_init. destruct (current network g) as [o|] eqn:Hc; [|by eexists].
    destruct (Ht o) as [_ [t Ho]]; [by apply (current_member _ _ network Hg)|]. unfold load_of. rewrite Ho; cbn. eauto. }
  unfold select_init in Hi. rewrite Hi; cbn.
  destruct (select_go_total g network (ug_outbounds g) i.1 i.2) as [m ->]; [by rewrite (ugok_outbounds _ _ Hg)|].
  destruct m; cbn; [by eexists|]. destruct (first_supporting_total network (ug_outbounds g)) as [r ->]; [by rewrite (ugok_outbounds _ _ Hg)|]. by eexists.
Qed.
End members.

(** ** Following selections ends *)

Section follow.
Context (s : list Item) (Hsch : schedule i_tag i_deps ∅ s).
Context (leafNetwork : string → list string) (w : groups) (Hw : groups_ok s w).

Lemma earlier s1 x s2 d : s = s1 ++ x :: s2 → d ∈ i_deps x →
  ∃ s1' y s2', s = s1' ++ y :: s2' ∧ i_tag y = d ∧ length s1' < length s1.
Proof.
  intros Hs Hd. pose proof Hsch as Hsch'. rewrite Hs in Hsch'. rewrite Hs.
  destruct (schedule_before _ _ _ _ Hsch' Hd) as (y & (l1 & l2 & ->)%list_elem_of_split & <-).
  exists l1, y, (l2 ++ x :: s2). rewrite <- app_assoc, length_app. cbn. split_and!; [done|done|lia].
Qed.
Lemma Network_total fuel s1 x s2 :
  s = s1 ++ x :: s2 → length s1 < fuel → ∃ ns, Network leafNetwork w fuel (i_tag x) = Ok ns.
Proof.
  revert s1 x s2. induction fuel as [|fuel IH]; intros s1 x s2 Hs Hf; [lia|]; cbn [Network].
  destruct (selectors w !! i_tag x) as [sl|] eqn:Hsl; [|by eexists].
  destruct (selected sl) as [d|] eqn:Hd; [|by eexists].
  destruct (proj1 Hw _ _ Hsl) as [_ Hi _ Hp]. apply Hp in Hd. rewrite <- (Hi x) in Hd by (done || (rewrite Hs; set_solver)).
  destruct (earlier _ _ _ _ Hs Hd) as (s1' & y & s2' & Hs' & <- & Hl). apply (IH s1' y s2'); [done|lia].
Qed.

(** The tag of an outbound that is no group, or of none. *)
Definition plain (t : string) : Prop :=
  t = ""%string ∨ (t ∈ i_tag <$> s ∧ selectors w !! t = None ∧ urltests w !! t = None).
Lemma RealTag_total fuel s1 x s2 network :
  started w → s = s1 ++ x :: s2 → length s1 < fuel →
  ∃ t, RealTag leafNetwork w fuel (i_tag x) network = Ok t ∧ plain t.
Proof.
  intros [Hss Hus]. revert s1 x s2. induction fuel as [|fuel IH]; intros s1 x s2 Hs Hf; [lia|]; cbn [RealTag].
  assert (x ∈ s) as Hx by (rewrite Hs; set_solver).
  assert (∀ d, d ∈ i_deps x → known (Network leafNetwork w fuel) (RealTag leafNetwork w fuel) network d) as Hk.
  { intros d Hd. destruct (earlier _ _ _ _ Hs Hd) as (s1' & y & s2' & Hs' & <- & Hl).
    split; [apply (Network_total _ s1' y s2'); [done|lia]|].
    destruct (IH s1' y s2') as (t & -> & _); [done|lia|eauto]. }
  assert (∀ d, d ∈ i_deps x → ∃ t, RealTag leafNetwork w fuel d network = Ok t ∧ plain t) as Hd.
  { intros d Hd. destruct (earlier _ _ _ _ Hs Hd) as (s1' & y & s2' & Hs' & <- & Hl). apply (IH s1' y s2'); [done|lia]. }
  destruct (Selected_of _ _ _ _ _) as [r|] eqn:Hr.
  - assert (∃ o, r = Ok o) as [o ->].
    { unfold Selected_of in Hr. destruct (selectors w !! i_tag x); simplify_eq; [by eexists|].
      destruct (urltests w !! i_tag x) as [u|] eqn:Hu; simplify_eq.
      destruct (Hus _ _ Hu) as [g Hg]. destruct (proj2 Hw _ _ Hu) as [_ Hi Hug]. specialize (Hug g Hg).
      rewrite (Hi x Hx eq_refl) in Hk. destruct (Select_total w _ _ _ _ network Hug Hk) as [r' Hr'].
      unfold URLTest_Selected. rewrite Hg, Hr'; cbn. case_match; by eexists. }
    destruct o as [d|]; cbn; [|by exists ""%string; split; [|left]].
    apply Hd. by eapply Selected_of_member.
  - exists (i_tag x). split; [done|]. right. split; [by apply list_elem_of_fmap; eexists|].
    unfold Selected_of in Hr. by destruct (selectors w !! i_tag x), (urltests w !! i_tag x).
Qed.
End follow.

(** ** Every operation keeps groups well-formed *)

Lemma on_group_Ok {A} tag w (f : URLTest → URLTestGroup → result A) a :
  on_group tag w f = Ok a → ∃ u g, urltests w !! tag = Some u ∧ ut_group u = Some g ∧ f u g = Ok a.
Proof. unfold on_group. destruct (urltests w !! tag) as [u|]; [|done]. destruct (ut_group u) as [g|] eqn:Hg; [eauto|done]. Qed.
Lemma on_group_eq {A} tag w (f : URLTest → URLTestGroup → result A) u g :
  urltests w !! tag = Some u → ut_group u = Some g → on_group tag w f = f u g.
Proof. intros Hu Hg. unfold on_group. by rewrite Hu, Hg. Qed.

Section preserved.
Context (s : list Item).

Lemma update_half_ok leafNetwork fuel network tags g w r :
  urlgroup_ok tags g → update_half leafNetwork fuel network g w = Ok r → urlgroup_ok tags r.1.1.
Proof.
  intros Hg (x & Hx & Hr)%result_bind_Ok. apply (Select_member _ _ _ _ _ _ _ Hg) in Hx.
  destruct x.1 as [o|]; [|by simplify_eq]. specialize (Hx o eq_refl). destruct Hg as [???].
  destruct (_ || _); simplify_eq/=; [|by split]. unfold set_current. case_bool_decide; split; cbn; by try apply picks_Some.
Qed.
Lemma set_group_ok t u g w :
  groups_ok s w → urltests w !! t = Some u → urlgroup_ok (ut_tags u) g → groups_ok s (set_urltest (with_group g u) w).
Proof.
  intros Hw Hu Hg. destruct (proj2 Hw t u Hu) as [<- Hi _]. apply set_urltest_ok; [done|]. split; cbn; auto.
  by intros ? [= <-].
Qed.
Lemma performUpdateCheck_ok leafNetwork fuel t u w w' :
  groups_ok s w → urltests w !! t = Some u → performUpdateCheck leafNetwork fuel u w = Ok w' → groups_ok s w'.
Proof.
  intros Hw Hu. unfold performUpdateCheck. destruct (ut_group u) as [g|] eqn:Hg; [|done].
  destruct (proj2 Hw t u Hu) as [<- Hi Hug]. specialize (Hug g Hg).
  intros (tcp & Htcp%(update_half_ok _ _ _ _ _ _ _ Hug) & (udp & Hudp%(update_half_ok _ _ _ _ _ _ _ Htcp) & [= <-])%result_bind_Ok)%result_bind_Ok.
  set (i := if _ : bool then Interrupt _ _ else _). clearbody i.
  assert (groups_ok s (close_conns i.1 (set_urltest (with_group (ug_set_interrupt i.2 udp.1.1) u)
    (set_urltest (with_group tcp.1.1 u) w)))).
  { apply close_conns_ok, (set_urltest_ok s); [by eapply set_group_ok|]. split; cbn; auto. intros ? [= <-].
    by destruct Hudp as [???]. }
  by case_match.
Qed.
Lemma run_leaf_ok tag m r w : groups_ok s w → groups_ok s (run_leaf tag m r w).2.
Proof. intros. unfold run_leaf. by repeat case_match. Qed.
Lemma run_tasks_ok E nested tasks x y :
  (∀ tag w r, groups_ok s w → nested tag w = Ok r → groups_ok s r.2) →
  (∀ r, x = Ok r → groups_ok s r.2) → foldl (run_task E nested) x tasks = Ok y → groups_ok s y.2.
Proof.
  intros Hn. revert x. induction tasks as [|t tasks IH]; intros x Hx; cbn [foldl]; [by apply Hx|].
  apply IH. intros r (z & Hz%Hx & Hr)%result_bind_Ok. destruct t as [tag|tag].
  - apply result_bind_Ok in Hr as (r' & Hr' & [= <-]). cbn. by eapply Hn.
  - simplify_eq. by apply run_leaf_ok.
Qed.
Lemma urlTest_ok E fuel force depth tag w r :
  groups_ok s w → urlTest E fuel force depth tag w = Ok r → groups_ok s r.2.
Proof.
  revert tag w r. induction depth as [|depth IH]; intros tag w r Hw; cbn [urlTest]; [done|].
  intros (u & g & Hu & Hg & Hr)%on_group_Ok. destruct (checking g); [by simplify_eq|].
  assert (groups_ok s (set_urltest (with_ug (ug_set_checking true) u) w)) as Hw1.
  { eapply with_ug_ok; [done..|]. by intros ? _ [???]. }
  apply result_bind_Ok in Hr as (x & Hx & (w2 & Hw2 & Hr)%result_bind_Ok).
  apply result_bind_Ok in Hx as (b & _ & (y & Hy & (res & _ & [= <-])%result_bind_Ok)%result_bind_Ok).
  apply run_tasks_ok in Hy; [|intros; by eapply IH|by intros ? [= <-]].
  apply on_group_Ok in Hw2 as (u2 & g2 & Hu2 & _ & Hw2). eapply performUpdateCheck_ok in Hw2; [|done..].
  apply on_group_Ok in Hr as (u3 & g3 & Hu3 & _ & [= <-]). cbn.
  eapply with_ug_ok; [done..|]. by intros ? _ [???].
Qed.
End preserved.

(** ** The groups of a running process *)

(** Starting the groups, choosing in a selector, connecting and closing through
    a group, testing and updating, and whatever else changes the measurements. *)
Inductive group_step (E : TestEnv) (fuel : nat) (w : groups) : groups → Prop :=
  | step_selector_start t sl : selectors w !! t = Some sl → group_step E fuel w (Selector_Start (te_Outbound E) sl w).2
  | step_urltest_start t u : urltests w !! t = Some u → group_step E fuel w (URLTest_Start (te_Outbound E) u w).2
  | step_choose t sl storeErr o : selectors w !! t = Some sl → group_step E fuel w (SelectOutbound storeErr o sl w).2
  | step_selector_conn t sl conn external :
      selectors w !! t = Some sl → group_step E fuel w (Selector_NewConn conn external sl w).2
  | step_selector_close t sl element :
      selectors w !! t = Some sl →
      group_step E fuel w (set_selector (with_interrupt (Group_Remove element (sl_interruptGroup sl)) sl) w)
  | step_urltest_conn t u g conn external :
      urltests w !! t = Some u → ut_group u = Some g → group_step E fuel w (URLTest_NewConn conn external u g w).2
  | step_urltest_close t u element :
      urltests w !! t = Some u →
      group_step E fuel w (set_urltest (with_ug (λ g, ug_set_interrupt (Group_Remove element (ug_interruptGroup g)) g) u) w)
  | step_history f : group_step E fuel w (set_history f w)
  | step_update t u w' :
      urltests w !! t = Some u → performUpdateCheck (te_Network E) fuel u w = Ok w' → group_step E fuel w w'
  | step_urlTest force t r : urlTest E fuel force fuel t w = Ok r → group_step E fuel w r.2.

Lemma group_step_ok E fuel s w w' : group_step E fuel w w' → groups_ok s w → groups_ok s w'.
Proof.
  intros Hstep Hw. destruct Hstep as [t sl Hsl|t u Hu|t sl err o Hsl|t sl c e Hsl|t sl el Hsl|t u g c e Hu Hg|t u el Hu|f|t u w' Hu Hp|force t r Hr].
  - by eapply Selector_Start_ok.
  - by eapply URLTest_Start_ok.
  - by eapply SelectOutbound_ok.
  - by eapply Selector_NewConn_ok.
  - destruct (proj1 Hw t sl Hsl) as [<- ???]. by apply set_selector_ok.
  - eapply with_ug_ok; [done..|]. by intros ? _ [???].
  - eapply with_ug_ok; [done..|]. by intros ? _ [???].
  - done.
  - by eapply performUpdateCheck_ok.
  - by eapply urlTest_ok.
Qed.
Lemma reachable_ok E fuel s w w' : rtc (group_step E fuel) w w' → groups_ok s w → groups_ok s w'.
Proof. induction 1; eauto using group_step_ok. Qed.

Definition Selected_in (leafNetwork : string → list string) (fuel : nat) (w : groups) : string → string → option (result (option string)) :=
  Selected_of w (Network leafNetwork w fuel) (RealTag leafNetwork w fuel).

(** (C17) Whatever is done with the groups of a configuration, a group selects one of
    its members, and once the groups are started, following the selections from
    any outbound comes to an end, without a panic, at an outbound that is no
    group, or at none when no member supports the network. *)
Theorem selection_follows_groups E s w0 w :
  schedule i_tag i_deps ∅ s → constructed s w0 → rtc (group_step E (length s)) w0 w →
  (∀ x network d, x ∈ s → Selected_in (te_Network E) (length s) w (i_tag x) network = Some (Ok (Some d)) → d ∈ i_deps x) ∧
  (started w → ∀ x network, x ∈ s → ∃ t, RealTag (te_Network E) w (length s) (i_tag x) network = Ok t ∧ plain s w t).
Proof.
  intros Hsch Hc Hw. apply (reachable_ok _ _ s) in Hw; [|by apply constructed_ok]. split.
  - intros x network d Hx. by apply (Selected_of_member _ _ _ s).
  - intros Hst x network (s1 & s2 & Hs)%list_elem_of_split.
    apply (RealTag_total s Hsch _ w Hw _ s1 x s2); [done..|]. rewrite Hs, length_app. cbn. lia.
Qed.

(** ** The choice is near the fastest *)

Section near.
Context (w : groups) (networks : string → result (list string)) (realTag : string → string → result string).
Context (g : URLTestGroup) (network : string).

(** A member that supports the network and has been measured. *)
Definition measured (d : string) (h : URLTestHistory) : Prop := load_of w realTag d network = Ok (Some h).
Definition candidate (d : string) (h : URLTestHistory) : Prop :=
  (∃ ns, networks d = Ok ns ∧ network ∈ ns) ∧ measured d h.
(** A delay the 16-bit comparison is right for. *)
Definition sane (h : URLTestHistory) : Prop := (0 < h_Delay h)%Z ∧ (h_Delay h + tolerance g < 2^16)%Z.
Definition near (l : list string) (o : string) (h : URLTestHistory) : Prop :=
  measured o h ∧ (0 < h_Delay h)%Z ∧ ∀ d h', d ∈ l → candidate d h' → (h_Delay h ≤ h_Delay h' + tolerance g)%Z.
Definition holder (minDelay : Z) (minOutbound : option string) : Prop :=
  match minOutbound with
  | None => minDelay = 0%Z
  | Some o => ∃ h, measured o h ∧ h_Delay h = minDelay ∧ (0 < minDelay)%Z
  end.
Definition within (l : list string) (delay : Z) : Prop :=
  ∀ d h, d ∈ l → candidate d h → (delay ≤ h_Delay h + tolerance g)%Z.
(** What the loop gives: something near all members, no slower than what it
    started with, and that itself when it is within the tolerance of them all;
    nothing only when there was nothing. *)
Definition chosen (l : list string) (minDelay : Z) (minOutbound r : option string) : Prop :=
  match r with
  | None => minOutbound = None ∧ ∀ d h, d ∈ l → ¬ candidate d h
  | Some o => ∃ h, near l o h ∧
      (minOutbound ≠ None → (h_Delay h ≤ minDelay)%Z ∧ (within l minDelay → minOutbound = Some o))
  end.
Lemma candidate_unique d h h' : candidate d h → candidate d h' → h = h'.
Proof. unfold candidate, measured. intros [_ H1] [_ H2]. rewrite H1 in H2. by simplify_eq. Qed.
Lemma within_cons d l delay : within (d :: l) delay ↔ (∀ h, candidate d h → (delay ≤ h_Delay h + tolerance g)%Z) ∧ within l delay.
Proof.
  unfold within. split; [intros H; split; intros; eapply H; eauto; [by left|by right]|].
  intros [H1 H2] d' h [->|?]%elem_of_cons; eauto.
Qed.
Lemma near_within l o h : near l o h ↔ measured o h ∧ (0 < h_Delay h)%Z ∧ within l (h_Delay h).
Proof. done. Qed.
Lemma chosen_kept d l minDelay minOutbound r :
  (minOutbound = None → ∀ h, ¬ candidate d h) → (∀ h, candidate d h → (minDelay ≤ h_Delay h + tolerance g)%Z) →
  chosen l minDelay minOutbound r → chosen (d :: l) minDelay minOutbound r.
Proof.
  intros Hnone Hd. destruct r as [o|]; cbn.
  - intros (h & (Hm & Hp & Hl)%near_within & Hmo). exists h. rewrite near_within, !within_cons.
    destruct minOutbound as [o'|]; [|naive_solver]. destruct Hmo as [Hle Hs]; [done|].
    split_and!; [done..| |done|naive_solver]. intros h' Hc. specialize (Hd h' Hc). lia.
  - intros [-> Hl]. split; [done|]. intros d' h [->|?]%elem_of_cons; eauto.
Qed.
Lemma chosen_taken d h l minDelay minOutbound r :
  candidate d h → (0 ≤ tolerance g)%Z → (minOutbound ≠ None → (h_Delay h + tolerance g < minDelay)%Z) →
  chosen l (h_Delay h) (Some d) r → chosen (d :: l) minDelay minOutbound r.
Proof.
  intros Hc Htol Hlt. destruct r as [o|]; cbn; [|by intros []].
  intros (h' & (Hm & Hp & Hl)%near_within & [Hle _]); [done|]. exists h'. rewrite near_within, !within_cons. split_and!; [done..| |done|].
  - intros h'' Hc'. rewrite (candidate_unique _ _ _ Hc' Hc). lia.
  - intros Hmo. specialize (Hlt Hmo). split; [lia|]. intros [Hd _]. specialize (Hd h Hc). lia.
Qed.
Lemma select_go_near l minDelay minOutbound r :
  (0 ≤ tolerance g)%Z → (∀ d h, d ∈ l → candidate d h → sane h) → holder minDelay minOutbound →
  select_go w networks realTag g network l minDelay minOutbound = Ok r → chosen l minDelay minOutbound r.
Proof.
  intros Htol. revert minDelay minOutbound. induction l as [|d l IH]; intros md mo Hsane Hh; cbn [select_go].
  { intros [= <-]. destruct mo as [o|]; [|split; [done|set_solver]].
    destruct Hh as (h & Hm & <- & Hp). exists h. split; [split_and!; [done..|set_solver]|done]. }
  intros (ns & Hns & Hr)%result_bind_Ok.
  assert (∀ d h, d ∈ l → candidate d h → sane h) as Hsane' by (intros; eapply Hsane; [by right|done]).
  assert ((∀ h, ¬ candidate d h) → select_go w networks realTag g network l md mo = Ok r → chosen (d :: l) md mo r) as Hskip.
  { intros Hnot Hr'. apply chosen_kept; [done|by intros h ?%Hnot|]. by apply IH. }
  case_bool_decide as Hin; cbn in Hr.
  2:{ apply Hskip; [|done]. intros h [(ns' & Hns' & ?) _]. rewrite Hns in Hns'. by simplify_eq. }
  apply result_bind_Ok in Hr as ([h|] & Hload & Hr).
  2:{ apply Hskip; [|done]. intros h [_ Hm]. unfold measured in Hm. rewrite Hload in Hm. by simplify_eq. }
  assert (candidate d h) as Hc by (split; [by eexists|done]).
  destruct (Hsane d h) as [Hpos Hsmall]; [by left|done|]. rewrite u16_small in Hr by lia.
  destruct (_ || _) eqn:Hrep.
  - apply (chosen_taken d h); [done..| |apply IH; [done|by exists h|done]].
    intros Hmo. destruct mo as [o|]; [|done]. destruct Hh as (? & _ & _ & ?). lia.
  - apply chosen_kept; [intros ->; cbn in Hh; lia| |by apply IH].
    intros h' Hc'. rewrite (candidate_unique _ _ _ Hc' Hc). lia.
Qed.
End near.

Lemma Select_near w networks realTag network tags g r :
  urlgroup_ok tags g → (0 ≤ tolerance g)%Z →
  (∀ d h, d ∈ tags → candidate w networks realTag network d h → sane g h) →
  (∀ d h, d ∈ tags → measured w realTag network d h → (0 < h_Delay h)%Z) →
  (∃ d h, d ∈ tags ∧ candidate w networks realTag network d h) →
  Select w networks realTag g network = Ok r →
  ∃ o h, r = (Some o, true) ∧ near w networks realTag g network tags o h.
Proof.
  intros Hg Htol Hsane Hpos (d & h & Hd & Hc) (i & Hi & (m & Hm & Hr)%result_bind_Ok)%result_bind_Ok.
  rewrite (ugok_outbounds _ _ Hg) in Hm.
  apply select_go_near in Hm; [|done..|].
  - destruct m as [o|]; [|by destruct Hm as [_ Hm]; apply (Hm d h) in Hc]. destruct Hm as (h' & Hn & _).
    exists o, h'. by simplify_eq.
  - unfold select_init in Hi. destruct (current network g) as [o|] eqn:Ho; [|by simplify_eq].
    apply result_bind_Ok in Hi as ([h'|] & Hl & [= <-]); [|done].
    exists h'. split_and!; [done..|]. eapply (Hpos o); [by apply (current_member _ _ network Hg)|done].
Qed.

(** ** Testing plain members *)

Section plain_members.
Context (E : TestEnv) (fuel : nat).
Definition leaf_in (w : groups) (d : string) : Prop := selectors w !! d = None ∧ urltests w !! d = None.

Lemma RealTag_leaf w d network : leaf_in w d → RealTag (te_Network E) w (S fuel) d network = Ok d.
Proof. intros [H1 H2]. cbn [RealTag]. unfold Selected_of. by rewrite H1, H2. Qed.
Lemma Network_leaf w d : leaf_in w d → Network (te_Network E) w (S fuel) d = Ok (te_Network E d).
Proof. intros [H1 H2]. cbn [Network]. by rewrite H1, H2. Qed.
Lemma measured_leaf w d network h :
  leaf_in w d → measured w (RealTag (te_Network E) w (S fuel)) network d h ↔ LoadURLTestHistory d (history w) = Some h.
Proof. intros Hl. unfold measured, load_of. rewrite (RealTag_leaf _ _ _ Hl). cbn. split; [by intros [= ->]|by intros ->]. Qed.

(** The loop hands every plain member to the batch. *)
Lemma test_leaves_go nested w outbounds b n :
  Forall (leaf_in w) outbounds → b_groups b = [] →
  ∃ b', foldl (test_one (te_Outbound E) (te_seen E) (te_now E) n true nested w) (Ok b) outbounds = Ok b' ∧ b_groups b' = [] ∧ checked b' = checked b ∪ list_to_set outbounds ∧
        ∃ l, b_tasks b' = b_tasks b ++ (TestLeaf <$> l) ∧ ∀ d, d ∈ l ↔ d ∈ outbounds ∧ d ∉ checked b.
Proof.
  intros Hl. revert b. induction Hl as [|d outbounds [H1 H2] Hl IH]; intros b Hb; cbn [foldl].
  { exists b. split_and!; [done|done|set_solver|]. exists []. split; [by rewrite app_nil_r|set_solver]. }
  unfold test_one at 2. change (Ok b ≫= ?f) with (f b). cbv beta. case_bool_decide as Hd.
  { destruct (IH b Hb) as (b' & ? & ? & ? & l & ? & Hin). exists b'. split_and!; [done..|set_solver|].
    exists l. split; [done|]. intros e. rewrite Hin. set_solver. }
  rewrite H2, H1. cbn [negb andb].
  destruct (IH (MkBatch ({[d]} ∪ checked b) (b_groups b) (b_tasks b ++ [TestLeaf d]))) as (b' & ? & ? & Hc & l & Ht & Hin); [done|].
  exists b'. split_and!; [done..|cbn in Hc; set_solver|]. exists (d :: l). cbn in Ht, Hin. rewrite Ht, <- app_assoc. split; [done|].
  intros e. rewrite elem_of_cons, Hin. destruct (decide (e = d)); set_solver.
Qed.
Lemma test_leaves w outbounds n :
  Forall (leaf_in w) outbounds →
  ∃ b l, test (te_Outbound E) (te_seen E) (te_now E) n true (S fuel) w outbounds NewBatch = Ok b ∧
         b_groups b = [] ∧ b_tasks b = TestLeaf <$> l ∧ ∀ d, d ∈ l ↔ d ∈ outbounds.
Proof.
  intros Hl. destruct (test_leaves_go (test (te_Outbound E) (te_seen E) (te_now E) n true fuel w) w outbounds NewBatch n Hl eq_refl) as (b & ? & ? & _ & l & ? & Hin).
  exists b, l. split_and!; [done..|]. intros d. rewrite Hin. set_solver.
Qed.

Definition outcome_history (d : string) : option URLTestHistory :=
  match ms_result (te_measure E d) with Ok delay => Some (MkURLTestHistory (ms_now (te_measure E d)) delay) | _ => None end.
(** Measuring the members, in any order, leaves exactly their outcomes. *)
Lemma run_leaves nested l w r :
  (∀ d, d ∈ l → ms_cancelled (te_measure E d) = false) → is_Some (history w) →
  ∃ r' w', foldl (run_task E nested) (Ok (r, w)) (TestLeaf <$> l) = Ok (r', w') ∧
    selectors w' = selectors w ∧ urltests w' = urltests w ∧ is_Some (history w') ∧
    ∀ d, LoadURLTestHistory d (history w') = if bool_decide (d ∈ l) then outcome_history d else LoadURLTestHistory d (history w).
Proof.
  revert r w. induction l as [|d l IH]; intros r w Hc Hh; cbn [foldl fmap list_fmap].
  { eexists r, w. by repeat split. }
  change (run_task E nested (Ok (r, w)) (TestLeaf d)) with (Ok (run_leaf d (te_measure E d) r w)).
  destruct (run_leaf d (te_measure E d) r w) as [r1 w1] eqn:H1.
  assert (selectors w1 = selectors w ∧ urltests w1 = urltests w ∧ is_Some (history w1) ∧
    ∀ e, LoadURLTestHistory e (history w1) = if bool_decide (e = d) then outcome_history d else LoadURLTestHistory e (history w))
    as (Hs & Hu & Hh1 & Hload).
  { destruct Hh as [hs Hh]. unfold run_leaf in H1. rewrite Hc in H1 by left. unfold outcome_history.
    destruct (ms_result (te_measure E d)); simplify_eq; cbn; rewrite Hh; (split_and!; [done|done|by eexists|]); intros t;
      case_bool_decide as He; subst; cbn; by rewrite ?lookup_insert_eq, ?lookup_insert_ne, ?lookup_delete_eq, ?lookup_delete_ne. }
  destruct (IH r1 w1) as (r' & w' & -> & Hs' & Hu' & Hh' & Hload'); [intros; apply Hc; by right|done|].
  exists r', w'. split_and!; [done|congruence..|done|]. intros e. rewrite Hload', Hload.
  repeat case_bool_decide; subst; try done; set_solver.
Qed.

(** By the measurements, [o] is within the tolerance of every member that
    supports the network. *)
Definition supports_measured (hs : option HistoryStorage) (network d : string) (h : URLTestHistory) : Prop :=
  network ∈ te_Network E d ∧ LoadURLTestHistory d hs = Some h.
Definition fast (hs : option HistoryStorage) (tol : Z) (tags : list string) (network o : string) : Prop :=
  o ∈ tags ∧ ∃ h, LoadURLTestHistory o hs = Some h ∧
    ∀ d h', d ∈ tags → supports_measured hs network d h' → (h_Delay h ≤ h_Delay h' + tol)%Z.
Definition picks_fast (hs : option HistoryStorage) (tags : list string) (network : string) (g : URLTestGroup) : Prop :=
  (∃ d h, d ∈ tags ∧ supports_measured hs network d h) → ∃ o, current network g = Some o ∧ fast hs (tolerance g) tags network o.
(** The measurements the comparison of delays is right for. *)
Definition sane_history (hs : option HistoryStorage) (tol : Z) (tags : list string) : Prop :=
  (0 ≤ tol)%Z ∧ ∀ d h, d ∈ tags → LoadURLTestHistory d hs = Some h → (0 < h_Delay h)%Z ∧ (h_Delay h + tol < 2^16)%Z.

Lemma candidate_leaf w d network h :
  leaf_in w d → candidate w (Network (te_Network E) w (S fuel)) (RealTag (te_Network E) w (S fuel)) network d h ↔
                supports_measured (history w) network d h.
Proof.
  intros Hl. unfold candidate, supports_measured. rewrite (Network_leaf _ _ Hl), (measured_leaf _ _ _ _ Hl). naive_solver.
Qed.
Lemma Select_fast w tags g network :
  urlgroup_ok tags g → Forall (leaf_in w) tags → sane_history (history w) (tolerance g) tags →
  ∃ r, Select_in (te_Network E) (S fuel) w g network = Ok r ∧
    ((∃ d h, d ∈ tags ∧ supports_measured (history w) network d h) →
     ∃ o, r = (Some o, true) ∧ fast (history w) (tolerance g) tags network o).
Proof.
  intros Hg Hl [Htol Hh]. rewrite Forall_forall in Hl. unfold Select_in.
  destruct (Select_total w (Network (te_Network E) w (S fuel)) (RealTag (te_Network E) w (S fuel)) tags g network Hg) as [r Hr].
  { intros d Hd. split; [rewrite Network_leaf by auto|rewrite RealTag_leaf by auto]; by eexists. }
  exists r. split; [done|]. intros (d & h & Hd & Hc). pose proof (Select_member _ _ _ _ _ _ _ Hg Hr) as Hin.
  eapply Select_near in Hr as (o & h' & -> & Hm & _ & Hn); [|done..| | |].
  - exists o. specialize (Hin o eq_refl). split; [done|]. split; [done|]. exists h'. split; [by apply (measured_leaf w o network); auto|].
    intros e h'' He Hc'. apply (Hn e); [done|]. by apply candidate_leaf; auto.
  - intros e h'' He [_ Hc']%candidate_leaf; [|by auto]. by apply (Hh e).
  - intros e h'' He Hc'%measured_leaf; [|by auto]. by apply (Hh e).
  - exists d, h. split; [done|]. by apply candidate_leaf; auto.
Qed.
Lemma update_half_fast w tags g network :
  network = NetworkTCP ∨ network = NetworkUDP →
  urlgroup_ok tags g → Forall (leaf_in w) tags → sane_history (history w) (tolerance g) tags →
  ∃ g' b1 b2, update_half (te_Network E) (S fuel) network g w = Ok (g', b1, b2) ∧ urlgroup_ok tags g' ∧
    tolerance g' = tolerance g ∧ picks_fast (history w) tags network g' ∧
    ∀ n, n ≠ network → current n g' = current n g.
Proof.
  intros Hnet Hg Hl Hh. destruct (Select_fast w tags g network Hg Hl Hh) as (r & Hr & Hfast).
  assert (∃ x, update_half (te_Network E) (S fuel) network g w = Ok x) as [[[g' b1] b2] Hx].
  { unfold update_half. rewrite Hr; cbn. repeat case_match; by eexists. }
  exists g', b1, b2. split; [done|]. split; [by apply (update_half_ok _ _ _ _ _ _ _ Hg Hx)|].
  unfold update_half in Hx. rewrite Hr in Hx; cbn in Hx.
  assert (∀ o, current network (set_current network o g) = Some o ∧ tolerance (set_current network o g) = tolerance g ∧
               ∀ n, n ≠ network → current n (set_current network o g) = current n g) as Hset.
  { intros o. destruct Hnet as [-> | ->]; (split_and!; [done..|]); intros n Hn; unfold current, set_current; cbn;
      by repeat case_bool_decide. }
  assert (tolerance g' = tolerance g ∧ ∀ n, n ≠ network → current n g' = current n g) as [Ht Hn].
  { destruct r.1 as [o|]; [|by simplify_eq]. destruct (Hset o) as (_ & ? & ?). case_match; by simplify_eq. }
  split_and!; [done| |done]. intros (o & -> & Ho)%Hfast. exists o. rewrite Ht. split; [|done]. cbn in Hx.
  destruct (_ || _) eqn:Hb; simplify_eq; [apply Hset|]. apply orb_false_iff in Hb as [_ Hb].
  case_bool_decide as Hne; [done|]. by destruct (decide (current network g' = Some o)).
Qed.
End plain_members.

Section tested.
Context (E : TestEnv) (fuel : nat).

(** Writing the group itself does not make a group of a plain member. *)
Lemma leaf_in_urltest w tag u u' d :
  urltests w !! tag = Some u → ut_tag u' = tag → leaf_in w d → leaf_in (set_urltest u' w) d.
Proof. intros Hu <- [H1 H2]. split; [done|]. cbn. rewrite lookup_insert_ne; congruence. Qed.
Lemma leaves_in_urltest w tag u u' tags :
  urltests w !! tag = Some u → ut_tag u' = tag → Forall (leaf_in w) tags → Forall (leaf_in (set_urltest u' w)) tags.
Proof. intros ?? Hl. eapply Forall_impl; [done|]. intros. by eapply leaf_in_urltest. Qed.

Lemma performUpdateCheck_fast w tag u g :
  urltests w !! tag = Some u → ut_tag u = tag → ut_group u = Some g → urlgroup_ok (ut_tags u) g →
  Forall (leaf_in w) (ut_tags u) → sane_history (history w) (tolerance g) (ut_tags u) →
  ∃ w' g', performUpdateCheck (te_Network E) (S fuel) u w = Ok w' ∧ urltests w' !! tag = Some (with_group g' u) ∧
    tolerance g' = tolerance g ∧
    picks_fast E (history w) (ut_tags u) NetworkTCP g' ∧ picks_fast E (history w) (ut_tags u) NetworkUDP g'.
Proof.
  intros Hu Htag Hg Hok Hl Hh. unfold performUpdateCheck. rewrite Hg.
  destruct (update_half_fast E fuel w (ut_tags u) g NetworkTCP) as (g1 & b1 & b2 & -> & Hok1 & Ht1 & Htcp & _); [by left|done..|].
  cbn [mbind result_bind fst snd].
  destruct (update_half_fast E fuel (set_urltest (with_group g1 u) w) (ut_tags u) g1 NetworkUDP)
    as (g2 & b3 & b4 & -> & _ & Ht2 & Hudp & Hother); [by right|done| |by rewrite Ht1|].
  { by eapply leaves_in_urltest. }
  cbn [mbind result_bind fst snd]. set (i := if _ : bool then Interrupt _ _ else _). clearbody i.
  eexists _, (ug_set_interrupt i.2 g2). split; [done|].
  assert (∀ n, current n (ug_set_interrupt i.2 g2) = current n g2) as Hcur by done.
  split_and!; [case_match; cbn; by rewrite Htag, lookup_insert_eq|cbn; congruence| |].
  - intros (o & Ho & Hf)%Htcp. exists o. rewrite Hcur, Hother by done. cbn. rewrite Ht2. done.
  - intros (o & Ho & Hf)%Hudp. by exists o.
Qed.

Lemma picks_fast_measured hs tags :
  (∀ d, d ∈ tags → LoadURLTestHistory d hs = outcome_history E d) → ∀ network g, picks_fast E hs tags network g → ∀ d delay,
  d ∈ tags → network ∈ te_Network E d → ms_result (te_measure E d) = Ok delay →
  ∃ o delay', current network g = Some o ∧ o ∈ tags ∧ ms_result (te_measure E o) = Ok delay' ∧ (delay' ≤ delay + tolerance g)%Z.
Proof.
  intros Hload network g Hpf d delay Hd Hn Hr.
  assert (supports_measured E hs network d (MkURLTestHistory (ms_now (te_measure E d)) delay)) as Hsm.
  { split; [done|]. rewrite Hload by done. unfold outcome_history. by rewrite Hr. }
  destruct Hpf as (o & Ho & Hoin & h & Hoh & Hfast); [by eexists _, _|].
  rewrite Hload in Hoh by done. unfold outcome_history in Hoh.
  destruct (ms_result (te_measure E o)) as [delay'| |] eqn:Hro; simplify_eq.
  exists o, delay'. split_and!; [done..|]. specialize (Hfast _ _ Hd Hsm). cbn in Hfast. lia.
Qed.

(** (C18) A forced test of a URL-test group ends with a choice, for each network,
    whose measured delay is within the tolerance of the delay of every member
    that was measured and supports the network: whatever was selected and
    measured before, and in whatever order the measurements are taken.  It is
    stated for a started group whose members are plain outbounds, that is not
    being tested already, with a history to write to and a tolerance that is not
    negative, for a test in which no measurement is cancelled; and for delays
    that are above 0 and whose sum with the tolerance stays below 2^16.  The last
    two conditions are needed, since the code takes a delay of 0 for a missing
    one and adds delays in 16 bits: [zero_delay_displaced] and [select_wraps]
    show that the group may keep a slow member otherwise. *)
Theorem urltest_uses_fast_member depth s w tag u g :
  groups_ok s w → urltests w !! tag = Some u → ut_group u = Some g → checking g = false → is_Some (history w) →
  Forall (leaf_in w) (ut_tags u) → (∀ d, ms_cancelled (te_measure E d) = false) → (∀ l, te_order E l ≡ₚ l) →
  (0 ≤ tolerance g)%Z →
  (∀ d delay, d ∈ ut_tags u → ms_result (te_measure E d) = Ok delay → (0 < delay)%Z ∧ (delay + tolerance g < 2^16)%Z) →
  ∃ results w' g', urlTest E (S fuel) true (S depth) tag w = Ok (results, w') ∧
    urltests w' !! tag = Some (with_group g' u) ∧ checking g' = false ∧
    ∀ network d delay, network = NetworkTCP ∨ network = NetworkUDP →
      d ∈ ut_tags u → network ∈ te_Network E d → ms_result (te_measure E d) = Ok delay →
      ∃ o delay', current network g' = Some o ∧ o ∈ ut_tags u ∧ ms_result (te_measure E o) = Ok delay' ∧
        (delay' ≤ delay + tolerance g)%Z.
Proof.
  intros Hw Hu Hg Hcheck Hh Hl Hcanc Hord Htol Hms. destruct (proj2 Hw _ _ Hu) as [Htag _ Hok]. specialize (Hok g Hg).
  cbn [urlTest]. rewrite (on_group_eq _ _ _ _ _ Hu Hg), Hcheck.
  set (u1 := with_ug (ug_set_checking true) u). set (w1 := set_urltest u1 w).
  assert (Hg1 : ut_group u1 = Some (ug_set_checking true g)) by (cbn; by rewrite Hg).
  assert (Hl1 : Forall (leaf_in w1) (ut_tags u)) by by eapply leaves_in_urltest.
  assert (Hu1 : urltests w1 !! tag = Some u1) by (cbn; by rewrite <- Htag, lookup_insert_eq).
  unfold URLTestOutbounds. rewrite (ugok_outbounds _ _ Hok).
  destruct (test_leaves E fuel w1 (ut_tags u) (ug_interval g) Hl1) as (b & l & -> & Hbg & Hbt & Hin). cbn [mbind result_bind].
  pose proof (Hord (b_tasks b)) as Hp. rewrite Hbt in Hp at 2.
  apply (Permutation_map_inv TestLeaf) in Hp as (l' & -> & Hp). change (map TestLeaf l') with (TestLeaf <$> l').
  destruct (run_leaves E (urlTest E (S fuel) true depth) l' w1 ∅) as (r2 & w2 & -> & Hs2 & Hu2 & Hh2 & Hload); [done|done|].
  cbn [mbind result_bind fst snd]. rewrite Hbg. cbn [group_results mbind result_bind fst snd].
  assert (Hload' : ∀ d, d ∈ ut_tags u → LoadURLTestHistory d (history w2) = outcome_history E d).
  { intros d Hd. rewrite Hload, bool_decide_true; [done|]. by rewrite <- Hp, Hin. }
  assert (Hu2' : urltests w2 !! tag = Some u1) by by rewrite Hu2.
  cbn [fst snd]. rewrite (on_group_eq _ _ _ _ _ Hu2' Hg1).
  destruct (performUpdateCheck_fast w2 tag u1 (ug_set_checking true g)) as (w3 & g3 & -> & Hu3 & Ht3 & Htcp & Hudp);
    [done..| | | |].
  { by destruct Hok. }
  { eapply Forall_impl; [done|]. unfold leaf_in. by rewrite Hs2, Hu2. }
  { split; [done|]. intros d h Hd Hdh. rewrite Hload' in Hdh by done. unfold outcome_history in Hdh.
    destruct (ms_result (te_measure E d)) as [delay| |] eqn:Hr; simplify_eq/=. by apply (Hms d). }
  cbn [mbind result_bind]. rewrite (on_group_eq _ _ _ _ _ Hu3 eq_refl).
  eexists _, _, (ug_set_checking false g3). split; [done|].
  split_and!; [cbn; by rewrite Htag, lookup_insert_eq|done|].
  pose proof (picks_fast_measured _ _ Hload') as Hpick. cbn in Ht3. rewrite <- Ht3.
  intros network d delay [-> | ->]; by apply (Hpick _ g3).
Qed.
End tested.

(** ** The router's assumption *)

(** What the router sees of the groups ([RouterEnv.rv_Selected]). *)
Definition selection (leafNetwork : string → list string) (fuel : nat) (w : groups) (tag : string)
    : option (string → option string) :=
  if bool_decide (is_Some (selectors w !! tag)) || bool_decide (is_Some (urltests w !! tag))
  then Some (λ network, match Selected_in leafNetwork fuel w tag network with Some (Ok d) => d | _ => None end)
  else None.
Lemma groups_discharge s w leafNetwork fuel x f network o :
  groups_ok s w → x ∈ s → selection leafNetwork fuel w (i_tag x) = Some f → f network = Some o → o ∈ i_deps x.
Proof.
  unfold selection. intros Hw Hx Hf. destruct (_ || _); simplify_eq.
  destruct (Selected_in leafNetwork fuel w (i_tag x) network) as [[d| |]|] eqn:Hs; try done. intros ->.
  by eapply Selected_of_member.
Qed.

(** ** A choice survives a restart *)

Lemma find_members_all Outbound i tags found :
  (∀ d, d ∈ tags → Outbound d = true) → find_members Outbound i tags found = (found ++ tags, Ok tt).
Proof.
  revert i found. induction tags as [|t tags IH]; intros i found H; cbn [find_members]; [by rewrite app_nil_r|].
  rewrite (H t) by left. rewrite IH, <- app_assoc; [done|]. intros; apply H; by right.
Qed.
(** What [SelectOutbound] was told is what a selector with the same tag, which
    still has that member, selects when it is started with the same cache file. *)
Theorem choice_survives_restart Outbound o sl w opts sl' w' :
  is_Some (cacheFile w) → sl_tag sl ≠ ""%string → o ≠ ""%string → o ∈ sl_outbounds sl → selected sl ≠ Some o →
  NewSelector (sl_tag sl) opts = Ok sl' → o ∈ so_Outbounds opts → (∀ d, d ∈ so_Outbounds opts → Outbound d = true) →
  cacheFile w' = cacheFile (SelectOutbound None o sl w).2 →
  (SelectOutbound None o sl w).1 = true ∧
  (Selector_Start Outbound sl' w').1 = Ok tt ∧
  selected <$> selectors (Selector_Start Outbound sl' w').2 !! sl_tag sl = Some (Some o).
Proof.
  intros [c Hc] Htag Ho Hin Hne Hnew Hopt Hout Hcache.
  assert (cacheFile (SelectOutbound None o sl w).2 = Some (<[sl_tag sl := o]> c) ∧ (SelectOutbound None o sl w).1 = true) as [Hc' ->].
  { unfold SelectOutbound, store_choice. rewrite (bool_decide_true (o ∈ _)) by done. cbn. rewrite !bool_decide_false by done. cbn. by rewrite Hc. }
  apply NewSelector_inv in Hnew as ->. split; [done|]. unfold Selector_Start. cbn [sl_tags sl_outbounds].
  rewrite find_members_all by done. cbn [fst snd mbind result_bind app].
  set (m := ∅ ∪ list_to_set (so_Outbounds opts)). set (new := MkSelector _ _ _ _ _ _ _).
  assert (initial_choice m new w' = Ok o) as ->.
  { unfold initial_choice, cached_choice. cbn [sl_tag new]. rewrite bool_decide_false, Hcache, Hc' by done. cbn.
    unfold LoadSelected. rewrite lookup_insert_eq. cbn. rewrite !bool_decide_true by (done || set_solver). done. }
  cbn. rewrite lookup_insert_eq. done.
Qed.

(** ** One testing goroutine per ticker *)

Definition ticking_ok (k : Ticking) : Prop :=
  tk_close k = false ∧
  match ticker k with
  | None => loops k = [] ∧ running k = ∅ ∧ registered k = ∅
  | Some t => (∃ pc, loops k = [(t, pc)]) ∧ running k = {[t]} ∧ registered k = {[t]}
  end.
Lemma ticking_step_ok interval idle k k' : ticking_step interval idle k k' → ticking_ok k → ticking_ok k'.
Proof.
  unfold ticking_ok. intros Hstep [Hopen Hk]. destruct Hstep as [now|now|now t pc rest1 rest2 k' Hl Hs].
  - done.
  - unfold Touch. destruct (tk_started k); [|done]. destruct (ticker k) as [t|] eqn:Ht; cbn; [done|].
    destruct Hk as (-> & -> & ->). split_and!; [done|by eexists|set_solver..].
  - destruct (ticker k) as [t'|] eqn:Ht; [|destruct Hk as (Hn & _); rewrite Hn in Hl; by destruct rest1].
    destruct Hk as ([pc' Hpc] & Hr & Hg). rewrite Hpc in Hl. symmetry in Hl.
    apply app_singleton in Hl as [[-> [= -> -> ->]]|[_ ?]]; [|done].
    destruct Hs; cbn.
    + case_match; cbn; rewrite Ht; by eauto.
    + by rewrite Hopen in *.
    + rewrite Ht. by eauto.
    + rewrite Ht. by eauto.
    + rewrite bool_decide_true by done. cbn. split_and!; [done..|set_solver|set_solver].
Qed.
(** Until it is closed, a group has one goroutine for its ticker and none
    without, and every other ticker is stopped and unregistered. *)
Theorem one_loop_per_ticker interval idle k : rtc (ticking_step interval idle) NewTicking k → ticking_ok k.
Proof.
  assert (ticking_ok NewTicking) as H0 by done. intros H. revert H0. induction H; eauto using ticking_step_ok.
Qed.
(** Closing it stops what is left. *)
Lemma close_releases interval idle k : rtc (ticking_step interval idle) NewTicking k →
  ∃ k', URLTestGroup_Close k = Ok k' ∧ ticker k' = None ∧ running k' = ∅ ∧ registered k' = ∅.
Proof.
  intros [Hopen Hk]%one_loop_per_ticker. unfold URLTestGroup_Close. destruct (ticker k) as [t|] eqn:Ht; [|by exists k; naive_solver].
  destruct Hk as (_ & Hr & Hg). cbn. rewrite Hopen. eexists. split_and!; [done..| |]; cbn; set_solver.
Qed.

(** ** Examples *)

Definition plain_item (id : nat) (tag : string) : Item := MkItem id "direct" tag [] KPlain.
Definition items1 : list Item :=
  [plain_item 1 "a"; plain_item 2 "b"; MkItem 3 "selector" "s" ["a"; "b"] KLifecycle;
   MkItem 4 "urltest" "u" ["a"; "b"] KLifecycle].
Definition both_networks (tag : string) : list string := [NetworkTCP; NetworkUDP].
Definition delays1 (tag : string) : measurement :=
  MkMeasurement (Ok (if bool_decide (tag = "a"%string) then 200%Z else 100%Z)) 5 false.
Definition env1 : TestEnv := MkTestEnv both_networks (λ _, true) (λ _, None) (λ _, 0%Z) delays1 id.
Definition selector1 : Selector := MkSelector "s" ["a"; "b"] "" ∅ None NewGroup false.
Definition urltest1 : URLTest := MkURLTest "u" ["a"; "b"] (MkURLTestOptions ["a"; "b"] "" 0 0 0 false) None.
Definition groups0 : groups :=
  MkGroups {["s" := selector1]} {["u" := urltest1]} (Some NewHistoryStorage) (Some ∅) [].
Definition groups1 : groups := (URLTest_Start (te_Outbound env1) urltest1 (Selector_Start (te_Outbound env1) selector1 groups0).2).2.
Definition ugroup1 : URLTestGroup := MkURLTestGroup ["a"; "b"] DefaultURLTestInterval 50 DefaultURLTestIdleTimeout false None None NewGroup false.

Ltac each_item H :=
  unfold items1 in H; repeat (apply elem_of_cons in H as [->|H]); [..|by apply elem_of_nil in H].
Lemma groups0_constructed : constructed items1 groups0.
Proof.
  split; apply map_Forall_singleton.
  - split; [by exists (MkSelectorOptions ["a"; "b"] "" false)|]. intros x Hx. each_item Hx; by cbn.
  - split; [by exists (MkURLTestOptions ["a"; "b"] "" 0 0 0 false)|]. intros x Hx. each_item Hx; by cbn.
Qed.
Lemma items1_scheduled : schedule i_tag i_deps ∅ items1.
Proof. cbn. set_solver. Qed.
Lemma groups1_reachable : rtc (group_step env1 4) groups0 groups1.
Proof.
  eapply rtc_l; [by apply (step_selector_start _ _ _ "s" selector1)|].
  eapply rtc_l; [by apply (step_urltest_start _ _ _ "u" urltest1)|]. apply rtc_refl.
Qed.
Lemma groups1_started : started groups1.
Proof.
  assert (groups1 = MkGroups {["s" := with_selected {["a"; "b"]} (Some "a"%string) selector1]}
    {["u" := with_group ugroup1 urltest1]} (Some NewHistoryStorage) (Some ∅) []) as -> by (vm_compute; reflexivity).
  split; apply map_Forall_singleton; by eexists.
Qed.
Lemma groups1_ok : groups_ok items1 groups1.
Proof. eapply reachable_ok; [exact groups1_reachable|]. apply constructed_ok, groups0_constructed. Qed.

(** A selector and a URL-test group over two outbounds, both started. *)
Lemma selection_follows_groups_witness :
  (∀ x network d, x ∈ items1 → Selected_in (te_Network env1) (length items1) groups1 (i_tag x) network = Some (Ok (Some d)) → d ∈ i_deps x) ∧
  (∀ x network, x ∈ items1 →
    ∃ t, RealTag (te_Network env1) groups1 (length items1) (i_tag x) network = Ok t ∧ plain items1 groups1 t).
Proof.
  destruct (selection_follows_groups env1 items1 groups0 groups1) as [Hmember Hreal].
  - exact items1_scheduled.
  - exact groups0_constructed.
  - exact groups1_reachable.
  - split; [exact Hmember|exact (Hreal groups1_started)].
Defined.
(** "a" takes 200 ms and "b" 100 ms: with a tolerance of 50 ms "b" is used. *)
Lemma urltest_uses_fast_member_witness :
  ∃ results w' g', urlTest env1 4 true 4 "u" groups1 = Ok (results, w') ∧
    urltests w' !! "u"%string = Some (with_group g' (with_group ugroup1 urltest1)) ∧ checking g' = false ∧
    ∀ network d delay, network = NetworkTCP ∨ network = NetworkUDP →
      d ∈ ut_tags (with_group ugroup1 urltest1) → network ∈ te_Network env1 d → ms_result (te_measure env1 d) = Ok delay →
      ∃ o delay', current network g' = Some o ∧ o ∈ ut_tags (with_group ugroup1 urltest1) ∧
        ms_result (te_measure env1 o) = Ok delay' ∧ (delay' ≤ delay + tolerance ugroup1)%Z.
Proof.
  apply (urltest_uses_fast_member env1 3 3 items1 groups1 "u" (with_group ugroup1 urltest1) ugroup1).
  - exact groups1_ok.
  - reflexivity.
  - reflexivity.
  - reflexivity.
  - by eexists.
  - repeat constructor.
  - reflexivity.
  - reflexivity.
  - done.
  - intros d delay _ [= <-]. case_bool_decide; cbn; lia.
Defined.
Example tested_group : ∃ w', urlTest env1 4 true 4 "u" groups1 = Ok ({["a" := 200%Z; "b" := 100%Z]}, w') ∧
  (u ← urltests w' !! "u"%string; g ← ut_group u; selectedOutboundTCP g) = Some "b"%string.
Proof. eexists. split; reflexivity. Qed.

Definition with_delays (l : list (string * Z)) (w : groups) : groups :=
  set_history (λ h, foldl (λ h x, StoreURLTestHistory x.1 (MkURLTestHistory 0 x.2) h) h l) w.
Definition choice (l : list (string * Z)) : result (option string * bool) :=
  Select_in both_networks 4 (with_delays l groups1) ugroup1 NetworkTCP.
Example select_fastest : choice [("a", 200%Z); ("b", 100%Z)]%string = Ok (Some "b"%string, true).
Proof. reflexivity. Qed.
(** A delay near the top of its 16 bits wraps when the tolerance is added, and
    the slow member replaces the fast one. *)
Example select_wraps : choice [("a", 100%Z); ("b", 65500%Z)]%string = Ok (Some "b"%string, true).
Proof. reflexivity. Qed.
(** A delay below one millisecond is 0, which stands for no delay yet: the member
    is replaced by any that follows. *)
Example zero_delay_displaced : choice [("a", 0%Z); ("b", 900%Z)]%string = Ok (Some "b"%string, true).
Proof. reflexivity. Qed.

(** The selector had been told to use "a"; a dial through it is under way when
    it is told to use "b": the connection is entered after the interrupt and
    stays open on the old choice. *)
Example stale_connection_survives : ∃ sl, selectors groups1 !! "s"%string = Some sl ∧ Selector_target sl = Ok "a"%string ∧
  let w := (SelectOutbound None "b" sl groups1).2 in
  ∃ sl', selectors w !! "s"%string = Some sl' ∧ selected sl' = Some "b"%string ∧
    let w' := (Selector_NewConn 7 false sl' w).2 in
    closed w' = [] ∧ (λ sl, connections (sl_interruptGroup sl)) <$> selectors w' !! "s"%string = Some [(0, MkConnItem 7 false)].
Proof. eexists. split_and!; [reflexivity..|]. eexists. by split_and!. Qed.

(** A dial through a nested group that fails: the measurement is kept under the
    tag of the plain outbound, so nothing is forgotten and the group goes on
    preferring the member that fails. *)
Definition nested_group : URLTestGroup :=
  MkURLTestGroup ["s"; "b"]%string DefaultURLTestInterval 50 DefaultURLTestIdleTimeout false (Some "s"%string) None NewGroup false.
Definition nested_urltest : URLTest :=
  MkURLTest "n" ["s"; "b"]%string (MkURLTestOptions ["s"; "b"]%string "" 0 0 0 false) (Some nested_group).
Definition nested0 : groups := with_delays [("a", 100%Z); ("b", 300%Z)]%string (set_urltest nested_urltest groups1).
Example nested_failure_kept :
  let w := (URLTest_DialContext both_networks 4 NetworkTCP NetworkTCP (λ _, Err (EStd "EOF")) false nested_urltest nested0).2 in
  LoadURLTestHistory "a" (history w) = Some (MkURLTestHistory 0 100) ∧
  Select_in both_networks 4 w nested_group NetworkTCP = Ok (Some "s"%string, true).
Proof. by split. Qed.

(** The choice that is in force is not stored: when the cache file names a member
    that was removed, choosing the default leaves that name in the file. *)
Example choice_in_force_not_stored :
  let w := set_cache (λ _, {["s" := "gone"]}) groups0 in
  let w := (Selector_Start (te_Outbound env1) selector1 w).2 in
  ∃ sl, selectors w !! "s"%string = Some sl ∧ SelectOutbound None "a" sl w = (true, w) ∧ cacheFile w = Some {["s" := "gone"]}.
Proof. eexists. split_and!; reflexivity. Qed.

(** A connection that touches the group after it was closed makes a ticker that
    nothing stops and that no goroutine reads; the group does not test again, and
    closing it once more panics. *)
Example touch_after_close : ∃ k1 k2 k3,
  URLTestGroup_Close (Touch 1 (PostStart 0 NewTicking)) = Ok k1 ∧
  rtc (ticking_step 3 30) (Touch 2 k1) k2 ∧ loops k2 = [] ∧ running k2 = {[1]} ∧ ticker k2 = Some 1 ∧
  Touch 9 k2 = k3 ∧ loops k3 = [] ∧ URLTestGroup_Close k2 = Panic close_of_closed.
Proof.
  eexists _, _, _. split; [reflexivity|]. split.
  { eapply rtc_l; [eapply (step_loop _ _ _ 2 0 LStart [] _); [reflexivity|constructor]|].
    eapply rtc_l; [eapply (step_loop _ _ _ 2 0 LWait [] _); [reflexivity|by constructor 2]|].
    eapply rtc_l; [eapply (step_loop _ _ _ 2 1 LStart [] _); [reflexivity|constructor]|].
    eapply rtc_l; [eapply (step_loop _ _ _ 2 1 LWait [] _); [reflexivity|by constructor 2]|]. apply rtc_refl. }
  split_and!; reflexivity.
Qed.
