(* ===== verification/References.v ===== *)
(** * Which outbounds are in use: [src/route/reference_rule.go] and [reference.go]

    The reference manager keeps the idle connections of the outbounds and DNS
    servers that traffic can reach in the current clash mode and lets the others
    close theirs.  [evaluateRule] decides what can be known of a rule without a
    request, [collectRuleReferences] walks the rules as the router would, and
    [update] follows the references from there.

    In ReferenceProofs.v, [static_sound] says that what is known statically of a
    rule holds of every request; [visit_reachable] that the search finds exactly
    what can be reached; [update_keeps] that after an update every outbound that
    keeps idle connections has been told whether it is in use;
    [routed_outbound_kept] that this covers the outbound the router sends a
    connection to and every member of the chain of groups it follows from there.

    A search takes as much fuel as its queue and the lists of references have
    entries: every turn takes one entry from the queue, and a list is appended
    once. *)

From S2P Require Import Prelude GoStrings NetAddr RuleContext RuleItems RuleMatch RuleSpec RuleBuild Bytes.
From S2P Require Import Slices Quic DnsActions DnsCache DnsMode Sniff RouteAction Route.

Local Open Scope Z_scope.

(** ** What is known of a rule without a request *)

Inductive staticMatch := staticMatchUnknown | staticMatchNever | staticMatchAlways.
#[export] Instance staticMatch_eq_dec : EqDecision staticMatch.
Proof. solve_decision. Defined.
Definition invert_static (m : staticMatch) : staticMatch :=
  match m with
  | staticMatchNever => staticMatchAlways
  | staticMatchAlways => staticMatchNever
  | staticMatchUnknown => staticMatchUnknown
  end.

Section evaluate.
Context `{UnicodeTables}.

Definition evaluateClashMode (clashMode mode : string) (invert otherConditions : bool) : staticMatch :=
  let m :=
    if negb (bool_decide (clashMode = ""%string)) && negb (EqualFold clashMode mode) then staticMatchNever
    else if negb otherConditions then staticMatchAlways
    else staticMatchUnknown in
  if invert then invert_static m else m.
(** The loop, whose [break]s end it with what is known. *)
Fixpoint logical_go (logicalMode : string) (matches : list staticMatch) (m : staticMatch) : staticMatch :=
  match matches with
  | [] => m
  | ruleMatch :: matches =>
      if bool_decide (logicalMode = "and"%string) && bool_decide (ruleMatch = staticMatchNever) then staticMatchNever
      else if bool_decide (logicalMode = "or"%string) && bool_decide (ruleMatch = staticMatchAlways) then staticMatchAlways
      else logical_go logicalMode matches (if bool_decide (ruleMatch = staticMatchUnknown) then staticMatchUnknown else m)
  end.
Definition evaluateLogical (matches : list staticMatch) (logicalMode : string) (invert : bool) : staticMatch :=
  let m := logical_go logicalMode matches
             (if bool_decide (logicalMode = "and"%string) then staticMatchAlways else staticMatchNever) in
  if invert then invert_static m else m.

(** The conditions without [clash_mode] and [invert]; comparing them with the
    zero value is what [IsValid] does too. *)
Definition without_clash (o : MatchOptions) : MatchOptions :=
  MkMatchOptions (o_Inbound o) (o_IPVersion o) (o_QueryType o) (o_QueryClientSubnet o) (o_QueryDNSSEC o)
    (o_Network o) (o_AuthUser o) (o_Protocol o) (o_Client o) (o_Domain o) (o_DomainSuffix o)
    (o_DomainKeyword o) (o_DomainRegex o) (o_Geosite o) (o_SourceGeoIP o) (o_GeoIP o) (o_SourceIPCIDR o)
    (o_SourceIPIsPrivate o) (o_IPCIDR o) (o_IPIsPrivate o) (o_IPAcceptAny o) (o_SourcePort o) (o_SourcePortRange o)
    (o_Port o) (o_PortRange o) (o_ProcessName o) (o_ProcessPath o) (o_ProcessPathRegex o) (o_PackageName o)
    (o_PackageNameRegex o) (o_User o) (o_UserID o) (o_Outbound o) "" (o_NetworkType o)
    (o_NetworkIsExpensive o) (o_NetworkIsConstrained o) (o_WIFISSID o) (o_WIFIBSSID o) (o_InterfaceAddress o)
    (o_NetworkInterfaceAddress o) (o_DefaultInterfaceAddress o) (o_SourceMACAddress o) (o_SourceHostname o)
    (o_PreferredBy o) (o_RuleSet o) (o_RuleSetIPCIDRMatchSource o) (o_RuleSetIPCIDRAcceptEmpty o)
    (o_Deprecated_RulesetIPCIDRMatchSource o) (o_ResponseRcode o) (o_ResponseAnswer o) (o_ResponseNs o)
    (o_ResponseExtra o) false (o_DomainMatcher o) (o_SourceIPSet o) (o_IPSet o) (o_AdGuardDomain o)
    (o_AdGuardDomainMatcher o).
Definition other_conditions (o : MatchOptions) : bool := default_IsValid (without_clash o) no_rule_action.
Definition other_dns_conditions (o : MatchOptions) (m : DNSRuleMatchResponse) : bool :=
  dns_IsValid (without_clash o) m no_action.

Fixpoint evaluateRule (rule : RuleOptions) (mode : string) : staticMatch :=
  match rule with
  | RuleDefault _ o _ => evaluateClashMode (o_ClashMode o) mode (o_Invert o) (other_conditions o)
  | RuleLogical logicalMode rules invert _ => evaluateLogical ((λ sub, evaluateRule sub mode) <$> rules) logicalMode invert
  | RuleUnknown _ => staticMatchUnknown
  end.
Fixpoint evaluateDNSRule (rule : DNSRuleOptions) (mode : string) : staticMatch :=
  match rule with
  | DNSDefault _ o m _ => evaluateClashMode (o_ClashMode o) mode (o_Invert o) (other_dns_conditions o m)
  | DNSLogical logicalMode rules invert _ => evaluateLogical ((λ sub, evaluateDNSRule sub mode) <$> rules) logicalMode invert
  | DNSUnknown _ => staticMatchUnknown
  end.

(** ** The references of the rules *)

(** What the action of a rule refers to, and whether it ends the walk. *)
Record references := MkRefs { rf_outbounds : list string; rf_transports : list string; rf_final : bool }.
Definition action_references (a : RuleActionOptions) : references :=
  if act_is a "route" then MkRefs [rt_Outbound (ac_RouteOptions a)] [] true
  else if act_is a "bypass" then
    if bool_decide (rt_Outbound (ac_BypassOptions a) = ""%string) then MkRefs [] [] false
    else MkRefs [rt_Outbound (ac_BypassOptions a)] [] true
  else if act_is a "reject" || act_is a "hijack-dns" then MkRefs [] [] true
  else if act_is a "resolve" then MkRefs [] [rs_Server (ac_ResolveOptions a)] false
  else MkRefs [] [] false.
Definition dns_action_references (a : DNSRuleAction) : references :=
  if action_is a "route" then MkRefs [] [ra_Server (da_RouteOptions a)] true
  else if action_is a "evaluate" then MkRefs [] [ev_Server (da_EvaluateOptions a)] false
  else if action_is a "respond" || action_is a "reject" || action_is a "predefined" then MkRefs [] [] true
  else MkRefs [] [] false.
Definition no_references : references := MkRefs [] [] false.
Definition options_references (rule : RuleOptions) : references :=
  match rule with RuleDefault _ _ a | RuleLogical _ _ _ a => action_references a | RuleUnknown _ => no_references end.
Definition dns_options_references (rule : DNSRuleOptions) : references :=
  match rule with DNSDefault _ _ _ a | DNSLogical _ _ _ a => dns_action_references a | DNSUnknown _ => no_references end.
(** The walk over rules of which [known] and [refs] say what is known and what
    they refer to: the outbounds and transports it appends, and whether a rule
    that always matches hides the default. *)
Section collect.
Context {R : Type} (known : R → staticMatch) (refs : R → references).
Fixpoint collect (rules : list R) : list string * list string * bool :=
  match rules with
  | [] => ([], [], false)
  | rule :: rules =>
      if bool_decide (known rule = staticMatchNever) then collect rules
      else
        let r := refs rule in
        if rf_final r && bool_decide (known rule = staticMatchAlways) then (rf_outbounds r, rf_transports r, true)
        else let x := collect rules in (rf_outbounds r ++ x.1.1, rf_transports r ++ x.1.2, x.2)
  end.
End collect.
Definition collectRuleReferences (rules : list RuleOptions) (mode : string) : list string * list string * bool :=
  collect (λ r, evaluateRule r mode) options_references rules.
Definition collectDNSRuleReferences (rules : list DNSRuleOptions) (mode : string) : list string * list string * bool :=
  collect (λ r, evaluateDNSRule r mode) dns_options_references rules.
End evaluate.

(** ** Following the references *)

Section visit.
(** The references of an outbound that is loaded, the selected members of a
    group, the dependencies of another. *)
Context (Outbound : string → option (list string)).
Fixpoint visit (fuel : nat) (queue : list string) (seen : gset string) : option (gset string) :=
  match queue with
  | [] => Some seen
  | tag :: queue =>
      match fuel with
      | O => None
      | S fuel =>
          if bool_decide (tag = ""%string) || bool_decide (tag ∈ seen) then visit fuel queue seen
          else match Outbound tag with
               | None => visit fuel queue seen
               | Some refs => visit fuel (queue ++ refs) ({[tag]} ∪ seen)
               end
      end
  end.
(** The search over DNS servers also appends the outbounds they refer to. *)
Context (Transport : string → option (list string * list string)).
Fixpoint visit_transports (fuel : nat) (queue : list string) (seen : gset string) (outboundQueue : list string)
    : option (gset string * list string) :=
  match queue with
  | [] => Some (seen, outboundQueue)
  | tag :: queue =>
      match fuel with
      | O => None
      | S fuel =>
          if bool_decide (tag = ""%string) || bool_decide (tag ∈ seen) then visit_transports fuel queue seen outboundQueue
          else match Transport tag with
               | None => visit_transports fuel queue seen outboundQueue
               | Some (deps, refs) => visit_transports fuel (queue ++ deps) ({[tag]} ∪ seen) (outboundQueue ++ refs)
               end
      end
  end.
End visit.

(** ** The manager *)

(** What [update] reads of the other parts of the program.  An outbound or a DNS
    server that keeps idle connections is a keeper. *)
Record RefEnv := MkRefEnv {
  re_mode : string;
  re_defaultTransport : option string;
  re_DomainResolver : string;
  re_defaultOutbound : option string;
  re_endpoints : list string;
  re_referrers : list string;                         (* of inbounds, services and the HTTP clients *)
  re_Outbound : string → option (list string);
  re_Transport : string → option (list string * list string);
  re_outbounds : list (string * bool);                (* tags, and whether they are keepers *)
  re_transports : list (string * bool);
}.
Record ReferenceManager := MkReferenceManager {
  rm_rules : list RuleOptions;
  rm_dnsRules : list DNSRuleOptions;
  staticOutbounds : list string;
  staticTransports : list string;
  keepOutbounds : gmap string bool;                   (* keepIdle, the outbounds in it *)
  keepTransports : gmap string bool;                  (* and the DNS servers *)
  unreferencedTransports : option (gset string);
}.
(** [resolver] is the server of [domain_resolver] in the dial options, if an
    outbound or endpoint has such options and sets it. *)
Definition appendDomainResolver (transports : list string) (resolver : option string) : list string :=
  match resolver with
  | Some server => if bool_decide (server = ""%string) then transports else transports ++ [server]
  | None => transports
  end.
(** [ntp] is whether the NTP client is enabled, and its detour. *)
Definition NewReferenceManager (ntp : option (bool * string)) (outbounds endpoints : list (option string))
    (rules : list RuleOptions) (dnsRules : list DNSRuleOptions) : ReferenceManager :=
  let outs := match ntp with Some (true, detour) => if bool_decide (detour = ""%string) then [] else [detour] | _ => [] end in
  MkReferenceManager rules dnsRules outs (foldl appendDomainResolver (foldl appendDomainResolver [] outbounds) endpoints) ∅ ∅ None.
(** The calls [update] makes, in order. *)
Inductive idle_call := KeepOutbound (tag : string) (keep : bool) | KeepTransport (tag : string) (keep : bool) | ResetTransport (tag : string).

(** [applyKeepIdle] *)
Definition applyKeepIdle (call : string → bool → idle_call) (previous : gmap string bool) (x : gmap string bool * list idle_call)
    (tag : string) (keep : bool) : gmap string bool * list idle_call :=
  (<[tag := keep]> x.1, if bool_decide (previous !! tag = Some keep) then x.2 else x.2 ++ [call tag keep]).
Definition keep_outbound (m : ReferenceManager) (referenced : gset string) (x : gmap string bool * list idle_call) (o : string * bool)
    : gmap string bool * list idle_call :=
  if o.2 then applyKeepIdle KeepOutbound (keepOutbounds m) x o.1 (bool_decide (o.1 ∈ referenced)) else x.
Definition keep_transport (m : ReferenceManager) (referenced : gset string)
    (x : gmap string bool * list idle_call * gset string) (t : string * bool) : gmap string bool * list idle_call * gset string :=
  if t.2 then (applyKeepIdle KeepTransport (keepTransports m) x.1 t.1 (bool_decide (t.1 ∈ referenced)), x.2)
  else if bool_decide (t.1 ∈ referenced) then x
  else
    (x.1.1,
     match unreferencedTransports m with
     | Some before => if bool_decide (t.1 ∈ before) then x.1.2 else x.1.2 ++ [ResetTransport t.1]
     | None => x.1.2
     end, {[t.1]} ∪ x.2).

(** ** Starting route rules: [abstractDefaultRule.Start] with the items of a
    route rule, and [abstractLogicalRule.Start]

    [PreferredByItem.Start] looks its outbounds up, [ClashModeItem.Start] the mode
    manager, [RuleSetItem.Start] the rule-sets; no other item starts anything. *)
Record RouteStartEnv := MkRouteStartEnv {
  rse_RuleSet : string → option (RuleSet Rule);
  rse_Preferred : string → option (string * option PreferredRoutes);
  rse_ClashMode : bool;
}.
Section route_start.
Context (S : RouteStartEnv).
Definition route_start_item (it : RuleItem) : result RuleItem :=
  match it with
  | PreferredByItem tags outbounds =>
      added ← map_result (λ _ tag,
                match rse_Preferred S tag with
                | None => Err (EFmt "outbound not found: " [tag])
                | Some (type, None) => Err (EFmt "outbound type does not support preferred routes: " [type])
                | Some (_, Some preferred) => Ok preferred
                end) 0%nat tags;
      Ok (PreferredByItem tags (outbounds ++ added))
  | ClashModeItem _ mode => Ok (ClashModeItem (rse_ClashMode S) mode)
  | _ => Ok it
  end.
Definition route_start_items (l : list RuleItem) : result (list RuleItem) := map_result (λ _, route_start_item) 0%nat l.
Definition route_default_Start (r : default_rule) : result default_rule :=
  all ← route_start_items (allItems r);
  set ← (match ruleSetItem r with
         | None => Ok None
         | Some i => i ← RuleSetItem_Start (MkStartEnv (rse_RuleSet S) (λ _, None) false) i; Ok (Some i)
         end);
  it ← route_start_items (items r); sa ← route_start_items (sourceAddressItems r); sp ← route_start_items (sourcePortItems r);
  da ← route_start_items (destinationAddressItems r); dc ← route_start_items (destinationIPCIDRItems r);
  dp ← route_start_items (destinationPortItems r);
  Ok (MkDefaultRule it sa sp da dc dp all set (d_invert r)).
Fixpoint route_rule_Start (rule : Rule) : result Rule :=
  match rule with
  | DefaultRule r => r ← route_default_Start r; Ok (DefaultRule r)
  | LogicalRule l =>
      rules ← start_all route_rule_Start (l_rules l); Ok (LogicalRule (MkLogicalRule rules (l_mode l) (l_invert l)))
  | _ => Ok rule       (* not route rules *)
  end.
(** [Router.Start], its rules. *)
Definition start_rules (rules : list RouteRule) : result (list RouteRule) :=
  map_result (λ i r, x ← cause ("initialize rule[" +:+ Itoa (Z.of_nat i) +:+ "]") (route_rule_Start (rr_rule r)); Ok (MkRouteRule x (rr_action r))) 0%nat rules.
End route_start.

Section update.
Context `{UnicodeTables} (V : RefEnv) (fuel : nat).

(** The queues [update] starts with. *)
Definition transport_queue (m : ReferenceManager) : list string :=
  let dns := collectDNSRuleReferences (rm_dnsRules m) (re_mode V) in
  let rules := collectRuleReferences (rm_rules m) (re_mode V) in
  staticTransports m ++ dns.1.2 ++ (if dns.2 then [] else option_list (re_defaultTransport V)) ++ [re_DomainResolver V] ++ rules.1.2.
Definition outbound_queue (m : ReferenceManager) : list string :=
  let rules := collectRuleReferences (rm_rules m) (re_mode V) in
  staticOutbounds m ++ rules.1.1 ++ (if rules.2 then [] else option_list (re_defaultOutbound V)) ++ re_endpoints V ++ re_referrers V.
Definition referenced (m : ReferenceManager) : option (gset string * gset string) :=
  t ← visit_transports (re_Transport V) fuel (transport_queue m) ∅ (outbound_queue m);
  o ← visit (re_Outbound V) fuel t.2 ∅;
  Some (t.1, o).
Definition update (m : ReferenceManager) : option (list idle_call * ReferenceManager) :=
  r ← referenced m;
  let o := foldl (keep_outbound m r.2) (∅, []) (re_outbounds V) in
  let t := foldl (keep_transport m r.1) (∅, o.2, ∅) (re_transports V) in
  Some (t.1.2, MkReferenceManager (rm_rules m) (rm_dnsRules m) (staticOutbounds m) (staticTransports m) o.1 t.1.1 (Some t.2)).
End update.
