(* ===== verification/ReferenceProofs.v ===== *)
(** * The reference manager never forgets an outbound in use

    [static_sound]: what [evaluateRule] knows of a rule holds of every request.
    [visit_reachable]: the search ends with exactly what can be reached.
    [update_keeps]: what a keeper of idle connections was last told is whether it
    is in use.  [routed_outbound_kept]: the outbound the router sends a connection
    to, and everything the groups on the way select, is told to keep its idle
    connections. *)

From S2P Require Import Prelude GoStrings NetAddr RuleContext RuleItems RuleMatch RuleSpec RuleBuild Bytes.
From S2P Require Import Slices Quic DnsActions DnsCache DnsMode Sniff RouteAction Route RouteProofs References.

Local Open Scope Z_scope.

(** What is used of [strings.EqualFold]. *)
Class FoldLaws `{UnicodeTables} := {
  EqualFold_sym s t : EqualFold s t = EqualFold t s;
  EqualFold_empty s : EqualFold s "" = true → s = ""%string;
}.
#[export] Instance identity_laws : @FoldLaws unicode_identity.
Proof.
  split; unfold EqualFold.
  - intros s t. rewrite andb_comm. destruct (_ && _); cbn; apply bool_decide_ext; intuition congruence.
  - intros s. destruct (_ && _); cbn; rewrite bool_decide_eq_true; destruct s; done.
Qed.

(** ** The rule built from the options *)

Section built.
Context (B : BuildEnv).

Lemma run_steps_keep it l r r' : it ∈ items r → run_steps l r = Ok r' → it ∈ items r'.
Proof.
  revert r. induction l as [|s l IH]; intros r Hr; cbn; [by intros [= <-]|].
  intros (r1 & H1 & H2)%result_bind_Ok. apply (IH r1); [|done]. clear IH H2.
  assert (∀ ds it', it ∈ items (append_into ds it' r)) as Happ by (intros ds it'; by apply (append_into_keeps ds GItems)).
  destruct s as [g b it'|g b rit|b e|b i]; cbn in *.
  - injection H1 as <-. destruct b; [apply Happ|done].
  - destruct b; [|by injection H1 as <-]. apply result_bind_Ok in H1 as (it' & _ & [= <-]). apply Happ.
  - destruct b; [done|]. by injection H1 as <-.
  - injection H1 as <-. by destruct b.
Qed.
Lemma run_steps_adds it l r r' : Add [To GItems; ToAll] true it ∈ l → run_steps l r = Ok r' → it ∈ items r'.
Proof.
  revert r. induction l as [|s l IH]; intros r; [by intros ?%elem_of_nil|].
  intros [<-|Hin]%elem_of_cons; cbn [run_steps]; [|intros (r1 & H1 & H2)%result_bind_Ok; by eapply IH].
  apply run_steps_keep. change (items ?x) with (group_items GItems x).
  rewrite append_into_groups, decide_True by done. set_solver.
Qed.
Ltac find_step := first
  [ apply elem_of_cons; left; reflexivity
  | apply elem_of_app; left; find_step
  | apply elem_of_app; right; find_step
  | apply elem_of_cons; right; find_step ].
Lemma clash_item_added o r :
  run_steps (default_rule_steps B o) (empty_rule (o_Invert o)) = Ok r → o_ClashMode o ≠ ""%string →
  ClashModeItem false (o_ClashMode o) ∈ items r ∧ allItems r ≠ [].
Proof.
  intros Hr Hc.
  assert (ClashModeItem false (o_ClashMode o) ∈ items r) as Hin.
  { eapply run_steps_adds; [|done].
    replace true with (negb (bool_decide (o_ClashMode o = ""%string))) by by rewrite bool_decide_eq_false_2.
    unfold default_rule_steps. find_step. }
  split; [done|]. intros Ha.
  assert (allItems r ≡ₚ groups_concat r) as Hu
    by (by eapply run_steps_union; [apply default_rule_steps_kind| |exact Hr]).
  rewrite Ha in Hu. apply Permutation_nil_l in Hu. symmetry in Hu. unfold groups_concat in Hu. rewrite !app_nil in Hu.
  destruct Hu as [Hi _]. rewrite Hi in Hin. by apply elem_of_nil in Hin.
Qed.
Lemma nonempty_false {A} (l : list A) : nonempty l = false → l = [].
Proof. unfold nonempty. by destruct l. Qed.
(** Steps whose condition fails do nothing. *)
Definition active (s : step) : bool :=
  match s with Add _ b _ | AddE _ b _ | FailIf b _ | SetRuleSet b _ => b end.
Fixpoint active_steps (l : list step) : list step :=
  match l with [] => [] | s :: l => if active s then s :: active_steps l else active_steps l end.
Lemma run_steps_active l r : run_steps l r = run_steps (active_steps l) r.
Proof.
  revert r. induction l as [|s l IH]; intros r; [done|]. cbn [run_steps active_steps].
  destruct (active s) eqn:Hs; [cbn [run_steps]; by destruct (run_step s r); cbn|].
  destruct s; cbn in Hs; subst; apply IH.
Qed.
Lemma active_steps_app l l' : active_steps (l ++ l') = active_steps l ++ active_steps l'.
Proof. induction l as [|s l IH]; [done|]. cbn. rewrite IH. by destruct (active s). Qed.
(** With no other condition the rule has at most the item of the mode. *)
Lemma bare_rule o r :
  run_steps (default_rule_steps B o) (empty_rule (o_Invert o)) = Ok r → other_conditions o = false →
  let l := if bool_decide (o_ClashMode o = ""%string) then [] else [ClashModeItem false (o_ClashMode o)] in
  r = MkDefaultRule l [] [] [] [] [] l None (o_Invert o).
Proof.
  intros Hr Ho. unfold other_conditions, default_IsValid in Ho. cbn in Ho.
  rewrite !orb_false_iff, negb_false_iff, bool_decide_eq_true in Ho. destruct_and! Ho.
  rewrite run_steps_active in Hr.
  assert (active_steps (default_rule_steps B o) =
          if bool_decide (o_ClashMode o = ""%string) then [] else [Add [To GItems; ToAll] true (ClashModeItem false (o_ClashMode o))]) as El.
  { unfold default_rule_steps, ip_version_steps, domain_steps, geo_steps, port_steps, process_steps, network_steps,
      interface_steps, source_steps, rule_set_steps. rewrite !active_steps_app. cbn [active_steps active].
    repeat match goal with H : ?b = false |- _ => rewrite H; clear H end.
    repeat match goal with H : o_IPVersion o = 0%Z |- _ => rewrite H; clear H end.
    change (bool_decide (0 < 0)%Z) with false. cbn [andb orb app]. by destruct (bool_decide (o_ClashMode o = _)). }
  rewrite El in Hr. clear El. cbn zeta. destruct (bool_decide (o_ClashMode o = ""%string)); cbn [run_steps run_step mbind result_bind] in Hr; by injection Hr as <-.
Qed.
End built.

(** ** What is known statically is so for every request *)

Lemma RuleOptions_deep_ind (P : RuleOptions → Prop) :
  (∀ t o a, P (RuleDefault t o a)) → (∀ t, P (RuleUnknown t)) →
  (∀ mode rules invert a, Forall P rules → P (RuleLogical mode rules invert a)) → ∀ r, P r.
Proof.
  intros Hd Hu Hl. fix IH 1. intros [t o a|mode rules invert a|t]; [apply Hd| |apply Hu].
  apply Hl. induction rules as [|r rules IHr]; constructor; [apply IH|exact IHr].
Qed.

(** An inverted rule without conditions: it matches everything, inverted or not,
    while [evaluateRule] inverts. *)
Definition bare_inverted (o : MatchOptions) : bool :=
  o_Invert o && bool_decide (o_ClashMode o = ""%string) && negb (other_conditions o).
Fixpoint no_bare_inverted (r : RuleOptions) : bool :=
  match r with
  | RuleDefault _ o _ => negb (bare_inverted o)
  | RuleLogical _ rules _ _ => forallb no_bare_inverted rules
  | RuleUnknown _ => true
  end.

Section static.
Context `{FoldLaws} (E : RuleEnv) (S : RouteStartEnv).
(** The items of the rules find the mode manager of the environment. *)
Definition same_mode : Prop := rse_ClashMode S = bool_decide (is_Some (env_ClashMode E)).
Definition current_mode : string := default ""%string (env_ClashMode E).
Context (Hmode : same_mode).

(** [v] is known of [rule]; the conditions put off are part of it, as an outer
    inverted rule asks for them. *)
Definition known_of (rule : Rule) (v : staticMatch) : Prop := ∀ m, deferred m = 0 →
  match v with
  | staticMatchUnknown => True
  | staticMatchNever => (rule_Match E rule m).1 = false
  | staticMatchAlways => (rule_Match E rule m).1 = true ∧ deferred (rule_Match E rule m).2 = 0
  end.

Lemma route_start_items_spec l l' : route_start_items S l = Ok l' → Forall2 (λ a b, route_start_item S a = Ok b) l l'.
Proof. intros Hl%map_result_Forall2. eapply Forall2_impl; [done|]. by intros a b [_ Hab]. Qed.
Lemma started_clash_item l l' m :
  route_start_items S l = Ok l' → ClashModeItem false m ∈ l → ClashModeItem (rse_ClashMode S) m ∈ l'.
Proof.
  intros Hl%route_start_items_spec (i & Hi)%list_elem_of_lookup.
  destruct (Forall2_lookup_l _ _ _ _ _ Hl Hi) as (b & Hb & [= <-]). by apply list_elem_of_lookup_2 in Hb.
Qed.
Lemma started_nonempty l l' : route_start_items S l = Ok l' → l ≠ [] → nonempty l' = true.
Proof. intros Hl%route_start_items_spec. by destruct Hl. Qed.
Lemma route_default_Start_inv r r' : route_default_Start S r = Ok r' →
  route_start_items S (items r) = Ok (items r') ∧ route_start_items S (allItems r) = Ok (allItems r') ∧ d_invert r' = d_invert r.
Proof.
  unfold route_default_Start. intros Hr.
  repeat (apply result_bind_Ok in Hr as (? & ? & Hr)). by simplify_eq/=.
Qed.

(** The mode is not the one the rule asks for. *)
Lemma wrong_mode_never r c :
  ClashModeItem (rse_ClashMode S) c ∈ items r → nonempty (allItems r) = true → EqualFold c current_mode = false →
  known_of (DefaultRule r) (if d_invert r then staticMatchAlways else staticMatchNever).
Proof.
  intros Hin Ha Hf.
  assert (∀ m, matchAllItems E (items r) m = false) as Hall.
  { intros m'. apply not_true_is_false. intros Ht. unfold matchAllItems in Ht. rewrite forallb_forall in Ht.
    apply list_elem_of_In, Ht in Hin. cbn in Hin. unfold ClashModeItem_Match in Hin. rewrite Hmode in Hin.
    unfold current_mode in Hf. destruct (env_ClashMode E) as [mode|]; cbn in *; [|done].
    rewrite EqualFold_sym in Hin. congruence. }
  intros m' Hm'. cbn [rule_Match]. unfold default_Match, matchInner. rewrite Ha; cbn [negb andb].
  destruct (evaluateGroups E r m') as [g m1]. rewrite Hall. cbn. by destruct (d_invert r).
Qed.
(** A rule with nothing but the mode, which is the one it asks for. *)
Lemma bare_match l invert m :
  (∀ m, matchAllItems E l m = true) → deferred m = 0 →
  let r := MkDefaultRule l [] [] [] [] [] l None invert in
  l ≠ [] ∨ invert = false →
  (rule_Match E (DefaultRule r) m).1 = negb invert ∧ deferred (rule_Match E (DefaultRule r) m).2 = 0.
Proof.
  intros Hl Hm r Hne. cbn [rule_Match]. unfold default_Match, r. cbn [allItems ruleSetItem].
  destruct l as [|it l]; [by destruct Hne as [? | ->]|].
  change (nonempty (it :: l)) with true. cbn [negb andb]. unfold matchInner.
  assert (evaluateGroups E (MkDefaultRule (it :: l) [] [] [] [] [] (it :: l) None invert) m = (MkGroups 0 0, m)) as ->.
  { unfold evaluateGroups, destinationIPCIDRMatchesSource, destinationIPCIDRMatchesDestination. cbn. by rewrite !andb_false_r. }
  cbn [items]. rewrite Hl. cbn [negb ruleSetItem d_invert]. change (group_done (MkGroups 0 0)) with true.
  cbn [satisfied]. rewrite Hm. change (and_not 0 0) with 0. by destruct invert.
Qed.
Lemma default_known B o r r' :
  run_steps (default_rule_steps B o) (empty_rule (o_Invert o)) = Ok r → route_default_Start S r = Ok r' →
  bare_inverted o = false →
  known_of (DefaultRule r') (evaluateClashMode (o_ClashMode o) current_mode (o_Invert o) (other_conditions o)).
Proof.
  intros Hr Hr' Hbare. unfold evaluateClashMode.
  pose proof (run_steps_invert _ _ _ Hr) as Hinv. cbn in Hinv.
  destruct (route_default_Start_inv _ _ Hr') as (Hi & Ha & Hinv'). rewrite Hinv in Hinv'.
  destruct (negb (bool_decide (o_ClashMode o = _)) && _) eqn:Hc.
  - apply andb_true_iff in Hc as [Hne%negb_true_iff%bool_decide_eq_false Hf%negb_true_iff].
    destruct (clash_item_added B o r Hr Hne) as [Hin Hall].
    pose proof (wrong_mode_never r' (o_ClashMode o) (started_clash_item _ _ _ Hi Hin) (started_nonempty _ _ Ha Hall) Hf) as Hk.
    rewrite Hinv' in Hk. by destruct (o_Invert o).
  - destruct (other_conditions o) eqn:Ho; cbn [negb]; [by destruct (o_Invert o)|].
    pose proof (bare_rule B o r Hr Ho) as ->. cbn in Hr'. clear Hr Hi Ha Hinv.
    unfold bare_inverted in Hbare. rewrite Ho in Hbare. cbn [negb] in Hbare. rewrite andb_true_r in Hbare.
    case_bool_decide as Hm.
    + rewrite andb_true_r in Hbare. injection Hr' as <-. intros m Hd. rewrite Hbare.
      apply (bare_match [] false m); auto.
    + injection Hr' as <-. cbn in Hc. apply negb_false_iff in Hc. intros m Hd.
      destruct (bare_match [ClashModeItem (rse_ClashMode S) (o_ClashMode o)] (o_Invert o) m) as [Hb Hdef]; [|done|by left|].
      * intros m'. cbn. rewrite andb_true_r. unfold ClashModeItem_Match. rewrite Hmode. unfold current_mode in Hc.
        destruct (env_ClashMode E) as [mode|]; cbn in *; [by rewrite EqualFold_sym|].
        by apply EqualFold_empty in Hc.
      * by destruct (o_Invert o).
Qed.

(** *** Logical rules *)

Lemma logical_go_Never mode vs v : logical_go mode vs v = staticMatchNever →
  v = staticMatchNever ∧ Forall (λ x, x ≠ staticMatchUnknown ∧ (mode = "or"%string → x = staticMatchNever)) vs ∨
  mode = "and"%string ∧ staticMatchNever ∈ vs.
Proof.
  revert v. induction vs as [|x vs IH]; intros v; cbn [logical_go]; [by left|].
  destruct (bool_decide (mode = "and"%string) && bool_decide (x = staticMatchNever)) eqn:Ha.
  { apply andb_true_iff in Ha as [Hm%bool_decide_eq_true ->%bool_decide_eq_true]. right. split; [done|by left]. }
  destruct (bool_decide (mode = "or"%string) && _) eqn:Ho; [done|].
  intros [[Hv Hvs]|[Hm Hin]]%IH; [left|right; split; [done|by right]].
  case_bool_decide as Hx; [done|]. split; [done|]. constructor; [|done]. split; [done|]. intros ->.
  rewrite bool_decide_true in Ho by done. cbn in Ho. apply bool_decide_eq_false in Ho. by destruct x.
Qed.
Lemma logical_go_Always mode vs v : logical_go mode vs v = staticMatchAlways →
  v = staticMatchAlways ∧ Forall (λ x, x ≠ staticMatchUnknown ∧ (mode = "and"%string → x = staticMatchAlways)) vs ∨
  mode = "or"%string ∧ staticMatchAlways ∈ vs.
Proof.
  revert v. induction vs as [|x vs IH]; intros v; cbn [logical_go]; [by left|].
  destruct (bool_decide (mode = "and"%string) && _) eqn:Ha; [done|].
  destruct (bool_decide (mode = "or"%string) && bool_decide (x = staticMatchAlways)) eqn:Ho.
  { apply andb_true_iff in Ho as [Hm%bool_decide_eq_true ->%bool_decide_eq_true]. right. split; [done|by left]. }
  intros [[Hv Hvs]|[Hm Hin]]%IH; [left|right; split; [done|by right]].
  case_bool_decide as Hx; [done|]. split; [done|]. constructor; [|done]. split; [done|]. intros ->.
  rewrite bool_decide_true in Ha by done. cbn in Ha. apply bool_decide_eq_false in Ha. by destruct x.
Qed.

Lemma known_reset rule v m : known_of rule v →
  match v with
  | staticMatchUnknown => True
  | staticMatchNever => (rule_Match E rule (ResetRuleCache m)).1 = false
  | staticMatchAlways => (rule_Match E rule (ResetRuleCache m)).1 = true ∧ deferred (rule_Match E rule (ResetRuleCache m)).2 = 0
  end.
Proof. intros Hk. by apply (Hk (ResetRuleCache m)). Qed.
Lemma and_loop_never rules vs d m :
  Forall2 known_of rules vs → staticMatchNever ∈ vs → (and_loop (rule_Match E) rules d m).1.1 = false.
Proof.
  intros Hk. revert d m. induction Hk as [|rule v rules vs Hv Hk IH]; intros d m; [by intros ?%elem_of_nil|].
  intros Hin. cbn. pose proof (known_reset _ _ m Hv) as Hr. destruct (rule_Match E rule (ResetRuleCache m)) as [b m1]. cbn in Hr.
  apply elem_of_cons in Hin as [<-|Hin]; [by rewrite Hr|]. destruct b; cbn; [by apply IH|done].
Qed.
Lemma and_loop_always rules vs m :
  Forall2 known_of rules vs → Forall (eq staticMatchAlways) vs → ∃ m', and_loop (rule_Match E) rules 0 m = (true, 0, m').
Proof.
  intros Hk. revert m. induction Hk as [|rule v rules vs Hv Hk IH]; intros m; [by eexists|].
  intros [<- Hvs]%Forall_cons. cbn. destruct (known_reset _ _ m Hv) as [Hb Hd].
  destruct (rule_Match E rule (ResetRuleCache m)) as [b m1]. cbn in Hb, Hd. rewrite Hb, Hd. by apply IH.
Qed.
Lemma or_loop_always rules vs b d m :
  Forall2 known_of rules vs → staticMatchAlways ∈ vs → ∃ m', or_loop (rule_Match E) rules b d m = (true, 0, m').
Proof.
  intros Hk. revert b d m. induction Hk as [|rule v rules vs Hv Hk IH]; intros b d m; [by intros ?%elem_of_nil|].
  intros Hin. cbn. pose proof (known_reset _ _ m Hv) as Hr. destruct (rule_Match E rule (ResetRuleCache m)) as [b1 m1]. cbn in Hr.
  apply elem_of_cons in Hin as [<-|Hin].
  - destruct Hr as [-> Hd]. rewrite bool_decide_true by done. by eexists.
  - destruct b1; [case_bool_decide; [by eexists|]|]; by apply IH.
Qed.
Lemma or_loop_never rules vs b d m :
  Forall2 known_of rules vs → Forall (eq staticMatchNever) vs → ∃ m', or_loop (rule_Match E) rules b d m = (b, d, m').
Proof.
  intros Hk. revert m. induction Hk as [|rule v rules vs Hv Hk IH]; intros m; [by eexists|].
  intros [<- Hvs]%Forall_cons. cbn. pose proof (known_reset _ _ m Hv) as Hb. cbn in Hb.
  destruct (rule_Match E rule (ResetRuleCache m)) as [b1 m1]. cbn in Hb. rewrite Hb. by apply IH.
Qed.
(** What the loop of a logical rule gives when [v] is known of it. *)
Lemma loop_known mode t rules vs m :
  read_mode mode = Ok t → Forall2 known_of rules vs →
  let x := match t with
           | LogicalTypeAnd => and_loop (rule_Match E) rules 0 m
           | LogicalTypeOr => or_loop (rule_Match E) rules false 0 m
           end in
  match logical_go mode vs (if bool_decide (mode = "and"%string) then staticMatchAlways else staticMatchNever) with
  | staticMatchUnknown => True
  | staticMatchNever => x.1.1 = false
  | staticMatchAlways => x.1.1 = true ∧ x.1.2 = 0
  end.
Proof.
  unfold read_mode. intros Hm Hk.
  case_bool_decide as Ha; [subst; injection Hm as <-|case_bool_decide as Ho; [subst; injection Hm as <-|done]]; cbn zeta.
  - destruct (logical_go _ _ _) eqn:Hg; [done| |].
    + apply logical_go_Never in Hg as [[? _]|[_ Hin]]; [done|by apply (and_loop_never _ vs)].
    + apply logical_go_Always in Hg as [[_ Hall]|[? _]]; [|done].
      destruct (and_loop_always rules vs m Hk) as [m' ->]; [|done].
      eapply Forall_impl; [done|]. intros x [_ Hx]. symmetry. by apply Hx.
  - destruct (logical_go _ _ _) eqn:Hg; [done| |].
    + apply logical_go_Never in Hg as [[_ Hall]|[? _]]; [|done].
      destruct (or_loop_never rules vs false 0 m Hk) as [m' ->]; [|done].
      eapply Forall_impl; [done|]. intros x [_ Hx]. symmetry. by apply Hx.
    + apply logical_go_Always in Hg as [[? _]|[_ Hin]]; [done|]. by destruct (or_loop_always rules vs false 0 m Hk Hin) as [m' ->].
Qed.
Lemma logical_known mode t rules vs invert :
  read_mode mode = Ok t → Forall2 known_of rules vs →
  known_of (LogicalRule (MkLogicalRule rules t invert)) (evaluateLogical vs mode invert).
Proof.
  intros Ht Hk m Hm. pose proof (loop_known mode t rules vs m Ht Hk) as Hx. cbn zeta in Hx.
  unfold evaluateLogical. cbn [rule_Match]. unfold logical_Match. cbn [l_mode l_rules l_invert].
  destruct (match t with LogicalTypeAnd => _ | LogicalTypeOr => _ end) as [[b d] m1]. cbn [fst snd] in Hx.
  assert (deferred (restore (snapshotRuleMatch m) m1) = 0) as Hd by exact Hm. rewrite Hd.
  destruct (logical_go _ _ _); [by destruct invert| |].
  - subst b. destruct invert; cbn [invert_static negb fst snd]; [by split|done].
  - destruct Hx as [-> ->]. destruct invert; cbn [invert_static negb fst snd]; [done|by split].
Qed.

(** *** Every rule *)

Context `{SniffLib} (PlatformSupported : bool) (parse : string → Z → Socksaddr) (B : BuildEnv).
Lemma started_subs l l' : start_all (route_rule_Start S) l = Ok l' → Forall2 (λ a b, route_rule_Start S a = Ok b) l l'.
Proof.
  revert l'. induction l as [|r l IH]; intros l'; cbn [start_all]; [intros [= <-]; constructor|].
  intros (x & Hx & (xs & Hxs & [= <-])%result_bind_Ok)%result_bind_Ok. constructor; eauto.
Qed.
Lemma subs_known subs rrs rules :
  Forall (λ o, ∀ check rr rule, NewRule PlatformSupported parse B check o = Ok rr → route_rule_Start S (rr_rule rr) = Ok rule →
               no_bare_inverted o = true → known_of rule (evaluateRule o current_mode)) subs →
  Forall2 (λ o rr, ∃ check, NewRule PlatformSupported parse B check o = Ok rr) subs rrs →
  Forall2 (λ a b, route_rule_Start S a = Ok b) (rr_rule <$> rrs) rules → forallb no_bare_inverted subs = true →
  Forall2 known_of rules ((λ o, evaluateRule o current_mode) <$> subs).
Proof.
  intros Hsubs Hnew. revert rules. induction Hnew as [|o rr subs rrs [check Ho] Hnew IH]; intros rules Hstart Hnb.
  { inversion Hstart. constructor. }
  apply Forall_cons in Hsubs as [Hk Hsubs]. cbn in Hnb. apply andb_true_iff in Hnb as [Hb Hnb].
  inversion Hstart as [|? rule ? rules' Hr Hrs]; subst. cbn. constructor; [by eapply Hk|by apply IH].
Qed.
Lemma static_sound o check rr rule :
  NewRule PlatformSupported parse B check o = Ok rr → route_rule_Start S (rr_rule rr) = Ok rule →
  no_bare_inverted o = true → known_of rule (evaluateRule o current_mode).
Proof.
  revert check rr rule. induction o as [t o a|t|mode rules invert a IH] using RuleOptions_deep_ind; intros check rr rule;
    cbn [NewRule]; [|done|].
  - destruct (negb _); [done|]. intros (_ & _ & ([x r] & Hx & [= <-])%result_bind_Ok)%result_bind_Ok. cbn [rr_rule snd route_rule_Start].
    intros (r' & Hr' & [= <-])%result_bind_Ok Hb.
    apply result_bind_Ok in Hx as (y & _ & (r0 & Hr & [= <- <-])%result_bind_Ok).
    cbn in Hb. apply negb_true_iff in Hb. by eapply default_known.
  - intros (valid & _ & Hn)%result_bind_Ok. destruct (negb valid); [done|].
    apply result_bind_Ok in Hn as (_ & _ & Hn). unfold NewLogicalRule in Hn.
    apply result_bind_Ok in Hn as (y & _ & (md & Hmd & (sb & Hsb & [= <-])%result_bind_Ok)%result_bind_Ok).
    cbn [rr_rule route_rule_Start l_rules l_mode l_invert].
    intros (rules' & Hrs%started_subs & [= <-])%result_bind_Ok Hb. cbn [evaluateRule].
    apply (logical_known mode); [done|]. apply (subs_known rules sb); [done| |done|done].
    apply map_result_Forall2 in Hsb. eapply Forall2_impl; [done|].
    intros o rr (j & (_ & _ & Hj%cause_Ok)%result_bind_Ok). by eexists.
Qed.

(** ** The walk of the router *)

(** The outbound a final action names. *)
Definition outbound_of (a : RuleAction) : option string :=
  match a with
  | ActRoute out _ => Some out
  | ActBypass out _ => if bool_decide (out = ""%string) then None else Some out
  | _ => None
  end.
Definition action_agrees (a : RuleAction) (r : references) : Prop :=
  is_final a = rf_final r ∧ ∀ out, outbound_of a = Some out → out ∈ rf_outbounds r.
Lemma NewRuleAction_agrees a x : NewRuleAction PlatformSupported parse a = Ok (Some x) → action_agrees x (action_references a).
Proof.
  unfold NewRuleAction, action_references, act_is, action_agrees. intros Hx.
  case_bool_decide; [done|].
  case_bool_decide as Ha1; [apply result_bind_Ok in Hx as (? & _ & [= <-]); split; [done|]; cbn; intros ? [= <-]; by left|].
  case_bool_decide as Ha2; [apply result_bind_Ok in Hx as (? & _ & [= <-]); by rewrite Ha2|].
  case_bool_decide as Ha3.
  { apply result_bind_Ok in Hx as (? & _ & [= <-]). cbn. case_bool_decide; cbn; [done|]. split; [done|]. intros ? [= <-]. by left. }
  case_bool_decide as Ha4; [by simplify_eq|]. case_bool_decide as Ha5; [by simplify_eq|].
  case_bool_decide as Ha6; [apply result_bind_Ok in Hx as (? & _ & [= <-]); by rewrite Ha6|].
  case_bool_decide as Ha7; [by simplify_eq|done].
Qed.
Definition rule_agrees (o : RuleOptions) (rule : RouteRule) : Prop :=
  known_of (rr_rule rule) (evaluateRule o current_mode) ∧
  ∀ a, rr_action rule = Some a → action_agrees a (options_references o).
(** The rules the router has, from the options of the configuration. *)
Definition running_rules (opts : list RuleOptions) (rules : list RouteRule) : Prop :=
  ∃ built, build_rules PlatformSupported parse B opts = Ok built ∧ start_rules S built = Ok rules.
Lemma NewRule_action check o rr a :
  NewRule PlatformSupported parse B check o = Ok rr → rr_action rr = Some a → action_agrees a (options_references o).
Proof.
  destruct o as [t o b|mode rules invert b|t]; cbn [NewRule]; [| |done].
  - destruct (negb _); [done|]. intros (_ & _ & ([x r] & Hx & [= <-])%result_bind_Ok)%result_bind_Ok.
    apply result_bind_Ok in Hx as (y & Hy%cause_Ok & (r0 & _ & [= <- <-])%result_bind_Ok). cbn. intros ->. by apply NewRuleAction_agrees.
  - intros (valid & _ & Hn)%result_bind_Ok. destruct (negb valid); [done|].
    apply result_bind_Ok in Hn as (_ & _ & (y & Hy%cause_Ok & (md & _ & (sb & _ & [= <-])%result_bind_Ok)%result_bind_Ok)%result_bind_Ok).
    cbn. intros ->. by apply NewRuleAction_agrees.
Qed.
Lemma running_agree opts rules :
  running_rules opts rules → forallb no_bare_inverted opts = true → Forall2 rule_agrees opts rules.
Proof.
  intros (built & Hb%map_result_Forall2 & Hs%map_result_Forall2). revert rules Hs.
  induction Hb as [|o rr opts built (j & (_ & _ & Ho%cause_Ok)%result_bind_Ok) Hb IH]; intros rules Hs Hn.
  { inversion Hs. constructor. }
  cbn in Hn. apply andb_true_iff in Hn as [Hn1 Hn2].
  inversion Hs as [|? rule ? rules' (k & (x & Hx%cause_Ok & [= <-])%result_bind_Ok) Hs']; subst. constructor; [|by apply IH].
  split; cbn; [by eapply static_sound|]. intros a. by eapply NewRule_action.
Qed.

Section walk.
Context (V : RouterEnv).
(** What the walk decides is among the references: the outbound of the rule, or
    the default outbound, which is not hidden when no rule was final. *)
Definition walk_referenced (x : list string * list string * bool) (w : walked) : Prop :=
  match wk_selected w with
  | Some (_, rule) => ∀ a out, rr_action rule = Some a → outbound_of a = Some out → out ∈ x.1.1
  | None => wk_fatal w = None → x.2 = false
  end.
Lemma walk_referenced_mono (x y : list string * list string * bool) w :
  x.1.1 ⊆ y.1.1 → y.2 = x.2 → walk_referenced x w → walk_referenced y w.
Proof. unfold walk_referenced. intros Hin ->. destruct (wk_selected w) as [[? ?]|]; [eauto|done]. Qed.
Lemma collect_cons o opts w :
  (evaluateRule o current_mode = staticMatchAlways → rf_final (options_references o) = false) →
  walk_referenced (collectRuleReferences opts current_mode) w → walk_referenced (collectRuleReferences (o :: opts) current_mode) w.
Proof.
  intros Hf. unfold collectRuleReferences. cbn [collect]. case_bool_decide; [done|].
  destruct (_ && _) eqn:Hb; [apply andb_true_iff in Hb as [Hb Hk%bool_decide_eq_true]; rewrite Hf in Hb by done; done|].
  apply walk_referenced_mono; cbn; [set_solver|done].
Qed.
Lemma collect_head o opts out :
  evaluateRule o current_mode ≠ staticMatchNever → out ∈ rf_outbounds (options_references o) →
  out ∈ (collectRuleReferences (o :: opts) current_mode).1.1.
Proof.
  intros Hk Hin. unfold collectRuleReferences. cbn [collect]. rewrite bool_decide_eq_false_2 by done.
  destruct (_ && _); cbn; set_solver.
Qed.
Lemma match_go_referenced opts rules i m inp buffers packets w :
  Forall2 rule_agrees opts rules → match_go E V rules i m inp buffers packets = Ok w →
  walk_referenced (collectRuleReferences opts current_mode) w.
Proof.
  intros Hr. revert i m inp buffers packets. induction Hr as [|o rule opts rules [Hk Ha] Hr IH]; intros i m inp buffers packets;
    cbn [match_go].
  { by intros [= <-]. }
  pose proof (known_reset _ _ (mt_context m) Hk) as Hm. unfold try_rule.
  destruct (rule_Match E (rr_rule rule) (ResetRuleCache (mt_context m))) as [b c]. cbn [fst snd] in Hm.
  destruct b; cbn [negb].
  2:{ intros Hw%IH. apply collect_cons; [|done]. intros Hn. rewrite Hn in Hm. by destruct Hm. }
  assert (evaluateRule o current_mode ≠ staticMatchNever) as Hnever by (intros Hn; by rewrite Hn in Hm).
  destruct (rr_action rule) as [a|] eqn:Hact; [|done]. destruct (Ha a eq_refl) as [Hf Hout].
  assert (∀ m inp buffers packets, is_final a = false → match_go E V rules (Datatypes.S i) m inp buffers packets = Ok w →
            walk_referenced (collectRuleReferences (o :: opts) current_mode) w) as Hgo.
  { intros m' inp' buffers' packets' Hnf Hw%IH. apply collect_cons; [|done]. by rewrite <- Hf. }
  assert (∀ m' e, walk_referenced (collectRuleReferences (o :: opts) current_mode) (MkWalked m' inp buffers packets None (Some e))) as Hfatal by done.
  assert (∀ m', walk_referenced (collectRuleReferences (o :: opts) current_mode) (MkWalked m' inp buffers packets (Some (i, rule)) None)) as Hfin.
  { intros m' a' out Ha' Ho. rewrite Hact in Ha'. simplify_eq. apply collect_head; auto. }
  destruct a as [out ro|ro|out ro|method noDrop| |sn|server ro]; cbn [is_final] in *.
  - intros [= <-]. apply Hfin.
  - by apply Hgo.
  - destruct (negb _); [intros [= <-]; apply Hfin|by apply Hgo].
  - intros [= <-]. apply Hfin.
  - intros [= <-]. apply Hfin.
  - destruct inp as [cn|cn].
    + intros (x & _ & Hw)%result_bind_Ok. by eapply Hgo.
    + intros (x & _ & Hw)%result_bind_Ok. destruct (sr_fatal x); [by simplify_eq|by eapply Hgo].
  - destruct (actionResolve V server ro _); [by apply Hgo|by intros [= <-]|done].
Qed.
End walk.
End static.

(** ** The search *)

Section search.
Context (Outbound : string → option (list string)).

(** A tag that is loaded, and what can be reached from the entries of a queue. *)
Definition loaded (tag : string) : Prop := tag ≠ ""%string ∧ is_Some (Outbound tag).
Inductive reachable (roots : list string) : string → Prop :=
  | reach_root tag : tag ∈ roots → loaded tag → reachable roots tag
  | reach_ref tag refs tag' : reachable roots tag → Outbound tag = Some refs → tag' ∈ refs → loaded tag' → reachable roots tag'.

(** [seen] is reachable and closed but for the entries still in the queue. *)
Record searching (roots queue : list string) (seen : gset string) : Prop := {
  se_seen tag : tag ∈ seen → reachable roots tag;
  se_queue tag : tag ∈ queue → loaded tag → reachable roots tag;
  se_roots tag : tag ∈ roots → loaded tag → tag ∈ seen ∨ tag ∈ queue;
  se_closed tag refs tag' : tag ∈ seen → Outbound tag = Some refs → tag' ∈ refs → loaded tag' → tag' ∈ seen ∨ tag' ∈ queue;
}.
Lemma searching_skip roots tag queue seen :
  searching roots (tag :: queue) seen → (loaded tag → tag ∈ seen) → searching roots queue seen.
Proof. intros [H1 H2 H3 H4] Hs. split; [done|set_solver|set_solver|]. intros t refs t' Ht Hr Ht' Hl. destruct (H4 t refs t'); set_solver. Qed.
Lemma searching_visit roots tag queue seen refs :
  searching roots (tag :: queue) seen → tag ≠ ""%string → Outbound tag = Some refs →
  searching roots (queue ++ refs) ({[tag]} ∪ seen).
Proof.
  intros [H1 H2 H3 H4] Hne Ho. assert (loaded tag) as Hl by (split; [done|by eexists]).
  assert (reachable roots tag) as Hr by (apply H2; [by left|done]). split.
  - set_solver.
  - intros t [?|?]%elem_of_app Hlt; [apply H2; [by right|done]|by eapply reach_ref].
  - intros t Ht Hlt. destruct (H3 t Ht Hlt); set_solver.
  - intros t refs' t' [->%elem_of_singleton|Ht]%elem_of_union Hr' Ht' Hlt.
    + rewrite Ho in Hr'. simplify_eq. set_solver.
    + destruct (H4 t refs' t' Ht Hr' Ht' Hlt); set_solver.
Qed.
Lemma searching_done roots seen : searching roots [] seen → ∀ tag, tag ∈ seen ↔ reachable roots tag.
Proof.
  intros [H1 H2 H3 H4] tag. split; [apply H1|]. induction 1 as [tag Hin Hl|tag refs tag' _ IH Hr Hin Hl].
  - destruct (H3 tag Hin Hl) as [?|?%elem_of_nil]; done.
  - destruct (H4 tag refs tag' IH Hr Hin Hl) as [?|?%elem_of_nil]; done.
Qed.
Lemma visit_searching roots fuel queue seen seen' :
  searching roots queue seen → visit Outbound fuel queue seen = Some seen' → searching roots [] seen'.
Proof.
  revert queue seen. induction fuel as [|fuel IH]; intros queue seen Hs.
  all: destruct queue as [|tag queue]; cbn [visit]; [by intros [= <-]|try done].
  destruct (_ || _) eqn:Hb.
  - apply IH. eapply searching_skip; [done|]. intros [Hne _]. apply orb_true_iff in Hb as [Hb|Hb]; by apply bool_decide_eq_true in Hb.
  - apply orb_false_iff in Hb as [Hne%bool_decide_eq_false Hns%bool_decide_eq_false].
    destruct (Outbound tag) as [refs|] eqn:Ho.
    + by apply IH, searching_visit.
    + apply IH. eapply searching_skip; [done|]. intros [_ [? Ho']]. by rewrite Ho in Ho'.
Qed.
Lemma searching_start roots : searching roots roots ∅.
Proof. split; [set_solver|intros; by apply reach_root|set_solver|set_solver]. Qed.

(** *** Its fuel *)

Definition cost (tag : string) : nat := match Outbound tag with Some refs => length refs | None => 0 end.
Definition costs (known : list string) (seen : gset string) : nat :=
  sum_list ((λ t, if bool_decide (t ∈ seen) then 0%nat else cost t) <$> known).
Lemma costs_mono known seen seen' : seen ⊆ seen' → (costs known seen' ≤ costs known seen)%nat.
Proof. intros Hs. induction known as [|t known IH]; [done|]. unfold costs in *. cbn. repeat case_bool_decide; set_solver by lia. Qed.
Lemma costs_visit known seen tag refs :
  tag ∈ known → tag ∉ seen → Outbound tag = Some refs →
  (length refs + costs known ({[tag]} ∪ seen) ≤ costs known seen)%nat.
Proof.
  intros Hin Hns Ho. induction known as [|t known IH]; [by apply elem_of_nil in Hin|].
  pose proof (costs_mono known seen ({[tag]} ∪ seen) ltac:(set_solver)) as Hm. unfold costs in *. cbn.
  apply elem_of_cons in Hin as [<-|Hin].
  - rewrite bool_decide_eq_true_2, bool_decide_eq_false_2 by set_solver. unfold cost at 2. rewrite Ho. lia.
  - specialize (IH Hin). destruct (decide (t ∈ seen)).
    + rewrite !bool_decide_eq_true_2 by set_solver. lia.
    + rewrite (bool_decide_eq_false_2 (t ∈ seen)) by done. case_bool_decide; lia.
Qed.
(** As much fuel as the queue and the lists of references are long is enough. *)
Lemma visit_total known fuel queue seen :
  (∀ tag, is_Some (Outbound tag) → tag ∈ known) → (length queue + costs known seen ≤ fuel)%nat →
  is_Some (visit Outbound fuel queue seen).
Proof.
  intros Hk. revert queue seen. induction fuel as [|fuel IH]; intros queue seen Hf.
  all: destruct queue as [|tag queue]; cbn [visit]; [by eexists|cbn in Hf; try lia].
  destruct (_ || _) eqn:Hb; [apply IH; lia|].
  apply orb_false_iff in Hb as [_ Hns%bool_decide_eq_false].
  destruct (Outbound tag) as [refs|] eqn:Ho; [|apply IH; lia].
  pose proof (costs_visit known seen tag refs (Hk tag ltac:(by eexists)) Hns Ho). apply IH. rewrite length_app. lia.
Qed.
(** The search ends with exactly what can be reached. *)
Theorem visit_reachable known fuel roots :
  (∀ tag, is_Some (Outbound tag) → tag ∈ known) → (length roots + costs known ∅ ≤ fuel)%nat →
  ∃ seen, visit Outbound fuel roots ∅ = Some seen ∧ ∀ tag, tag ∈ seen ↔ reachable roots tag.
Proof.
  intros Hk Hf. destruct (visit_total known fuel roots ∅ Hk Hf) as [seen Hs]. exists seen. split; [done|].
  apply searching_done. by eapply visit_searching; [apply searching_start|].
Qed.
End search.

(** *** The search over DNS servers *)

Section transports.
Context (Transport : string → option (list string * list string)).
Definition dependencies (tag : string) : option (list string) := fst <$> Transport tag.
Definition detours (tag : string) : option (list string) := snd <$> Transport tag.

Lemma visit_transports_visit fuel queue seen outs :
  visit dependencies fuel queue seen = fst <$> visit_transports Transport fuel queue seen outs.
Proof.
  revert queue seen outs. induction fuel as [|fuel IH]; intros [|tag queue] seen outs; cbn [visit visit_transports]; try done.
  destruct (_ || _); [apply IH|]. unfold dependencies at 1. destruct (Transport tag) as [[deps refs]|]; cbn; apply IH.
Qed.
(** The queue of outbounds only grows, by the references of each server once. *)
Lemma visit_transports_outs known fuel queue seen outs r :
  (∀ tag, is_Some (Transport tag) → tag ∈ known) → visit_transports Transport fuel queue seen outs = Some r →
  outs ⊆ r.2 ∧ (length r.2 ≤ length outs + costs detours known seen)%nat.
Proof.
  intros Hk. revert queue seen outs. induction fuel as [|fuel IH]; intros [|tag queue] seen outs; cbn [visit_transports];
    try done; try (intros [= <-]; cbn; split; [done|lia]).
  destruct (_ || _) eqn:Hb; [apply IH|]. apply orb_false_iff in Hb as [_ Hns%bool_decide_eq_false].
  destruct (Transport tag) as [[deps refs]|] eqn:Ht; [|apply IH]. intros [Hin Hl]%IH.
  assert (detours tag = Some refs) as Hd by (unfold detours; by rewrite Ht).
  pose proof (costs_visit detours known seen tag refs (Hk tag ltac:(rewrite Ht; by eexists)) Hns Hd).
  rewrite length_app in Hl. split; [set_solver|lia].
Qed.
Lemma visit_transports_total known fuel queue outs :
  (∀ tag, is_Some (Transport tag) → tag ∈ known) → (length queue + costs dependencies known ∅ ≤ fuel)%nat →
  is_Some (visit_transports Transport fuel queue ∅ outs).
Proof.
  intros Hk Hf. destruct (visit_total dependencies known fuel queue ∅) as [x Hx]; [|done|].
  - intros tag [? Ht]. apply Hk. unfold dependencies in Ht. destruct (Transport tag); [by eexists|done].
  - rewrite (visit_transports_visit _ _ _ outs) in Hx. destruct (visit_transports _ _ _ _ _); [by eexists|done].
Qed.
End transports.

(** ** The update *)

(** What the keepers among the outbounds were told last. *)
Definition hear (flags : gmap string bool) (c : idle_call) : gmap string bool :=
  match c with KeepOutbound tag keep => <[tag := keep]> flags | _ => flags end.
Definition told (calls : list idle_call) (flags : gmap string bool) : gmap string bool := foldl hear flags calls.
#[local] Arguments told : simpl never.
Lemma told_cons c b flags : told (c :: b) flags = told b (hear flags c).
Proof. done. Qed.
Lemma told_app a b flags : told (a ++ b) flags = told b (told a flags).
Proof. apply foldl_app. Qed.

(** The loop over the outbounds: the keepers behind it are recorded with
    whether they are referenced and know it; the others are as before. *)
Lemma keep_outbounds_told m os flags l x :
  (∀ t, keepOutbounds m !! t = flags !! t) → NoDup l.*1 →
  (∀ t, t ∈ l.*1 → told x.2 flags !! t = flags !! t) →
  let y := foldl (keep_outbound m os) x l in
  (∀ t, (t, true) ∈ l → y.1 !! t = Some (bool_decide (t ∈ os)) ∧ told y.2 flags !! t = Some (bool_decide (t ∈ os))) ∧
  (∀ t, t ∉ l.*1 → y.1 !! t = x.1 !! t ∧ told y.2 flags !! t = told x.2 flags !! t).
Proof.
  intros Hflags. revert x. induction l as [|[tag keeper] l IH]; intros x Hnd Hx; cbn zeta; [split; [set_solver|done]|].
  cbn [foldl]. apply NoDup_cons in Hnd as [Hni Hnd].
  assert (Hhead : ∀ t, t ≠ tag → (keep_outbound m os x (tag, keeper)).1 !! t = x.1 !! t ∧
            told (keep_outbound m os x (tag, keeper)).2 flags !! t = told x.2 flags !! t).
  { intros t Ht. unfold keep_outbound, applyKeepIdle. cbn. destruct keeper; [|done]. cbn. rewrite lookup_insert_ne by done.
    split; [done|]. destruct (bool_decide (_ = Some _)); [done|]. rewrite told_app, told_cons. cbn. unfold told. cbn. by rewrite lookup_insert_ne. }
  destruct (IH (keep_outbound m os x (tag, keeper)) Hnd) as [Hin Hout].
  { intros t Ht. destruct (Hhead t) as [_ ->]; [by intros ->|]. apply Hx. by right. }
  split.
  - intros t [[= -> <-]|Ht]%elem_of_cons; [|by apply Hin].
    destruct (Hout tag Hni) as [-> ->]. unfold keep_outbound, applyKeepIdle. cbn. rewrite lookup_insert_eq. split; [done|].
    destruct (bool_decide (_ = Some _)) eqn:Hp.
    + apply bool_decide_eq_true in Hp. by rewrite Hx, <- Hflags by (by left).
    + rewrite told_app, told_cons. unfold told. cbn. by rewrite lookup_insert_eq.
  - intros t Ht. cbn in Ht. rewrite elem_of_cons in Ht. destruct (Hout t) as [-> ->]; [tauto|]. apply Hhead. tauto.
Qed.
(** The loop over the DNS servers tells the outbounds nothing. *)
Lemma keep_transports_told m ts flags l x :
  told (foldl (keep_transport m ts) x l).1.2 flags = told x.1.2 flags.
Proof.
  revert x. induction l as [|[tag keeper] l IH]; intros x; [done|]. cbn [foldl]. rewrite IH. unfold keep_transport, applyKeepIdle. cbn.
  repeat (case_match || case_bool_decide); cbn; try done; by rewrite told_app.
Qed.
(** After an update the keepers among the outbounds know whether they are
    referenced, as long as they knew what the manager has recorded. *)
Lemma update_keeps `{UnicodeTables} V fuel m calls m' flags ts os :
  (∀ t, keepOutbounds m !! t = flags !! t) → NoDup (re_outbounds V).*1 →
  referenced V fuel m = Some (ts, os) → update V fuel m = Some (calls, m') →
  ∀ t, (t, true) ∈ re_outbounds V → told calls flags !! t = Some (bool_decide (t ∈ os)) ∧ keepOutbounds m' !! t = told calls flags !! t.
Proof.
  intros Hflags Hnd Hr. unfold update. rewrite Hr. cbn [mbind option_bind fst snd]. intros [= <- <-] t Ht.
  destruct (keep_outbounds_told m os flags (re_outbounds V) (∅, []) Hflags Hnd) as [Hin _]; [done|].
  rewrite keep_transports_told. cbn [fst snd keepOutbounds]. by destruct (Hin t Ht) as [-> ->].
Qed.

(** ** From the router to the keepers *)

Section routed.
Context `{FoldLaws, SniffLib} (PlatformSupported : bool) (parse : string → Z → Socksaddr) (B : BuildEnv).
Context (E : RuleEnv) (S : RouteStartEnv) (V : RouterEnv) (R : RefEnv) (m : ReferenceManager).

(** The manager and the router look at the same configuration: the same mode,
    rules, default and outbounds; what a group selects is one of its references. *)
Record same_box (rules : list RouteRule) : Prop := {
  sb_item_mode : same_mode E S;
  sb_mode : re_mode R = current_mode E;
  sb_rules : running_rules S PlatformSupported parse B (rm_rules m) rules;
  sb_default : re_defaultOutbound R = Some (rv_Default V);
  sb_loaded o : o ∈ rv_outbounds V → loaded (re_Outbound R) o;
  sb_selected tag f network d : rv_Selected V tag = Some f → f network = Some d →
    d ∈ rv_outbounds V ∧ ∃ refs, re_Outbound R tag = Some refs ∧ d ∈ refs;
}.
(** Enough fuel: the entries of the queues and of all lists of references. *)
Definition enough_fuel (outbounds transports : list string) (fuel : nat) : Prop :=
  (∀ tag, is_Some (re_Outbound R tag) → tag ∈ outbounds) ∧ (∀ tag, is_Some (re_Transport R tag) → tag ∈ transports) ∧
  (length (transport_queue R m) + costs (dependencies (re_Transport R)) transports ∅ ≤ fuel)%nat ∧
  (length (outbound_queue R m) + costs (detours (re_Transport R)) transports ∅ + costs (re_Outbound R) outbounds ∅ ≤ fuel)%nat.
(** The outbound a walk decides on. *)
Definition routed_to (w : walked) (tag : string) : Prop :=
  match wk_selected w with
  | Some (_, rule) => ∃ a, rr_action rule = Some a ∧ outbound_of a = Some tag
  | None => tag = rv_Default V
  end.

Lemma referenced_total outbounds transports fuel : enough_fuel outbounds transports fuel →
  ∃ ts os roots, referenced R fuel m = Some (ts, os) ∧ outbound_queue R m ⊆ roots ∧
    ∀ tag, tag ∈ os ↔ reachable (re_Outbound R) roots tag.
Proof.
  intros (Ho & Ht & Hf1 & Hf2). unfold referenced.
  destruct (visit_transports_total (re_Transport R) transports fuel (transport_queue R m) (outbound_queue R m) Ht Hf1) as [x Hx].
  destruct (visit_transports_outs _ transports _ _ _ _ _ Ht Hx) as [Hin Hl]. rewrite Hx. cbn [mbind option_bind].
  destruct (visit_reachable (re_Outbound R) outbounds fuel x.2 Ho) as (os & -> & Hos); [lia|].
  by exists x.1, os, x.2.
Qed.
Lemma routed_root rules mt inp w tag :
  same_box rules → forallb no_bare_inverted (rm_rules m) = true → matchRule E V rules mt inp = Ok w → wk_fatal w = None →
  routed_to w tag → tag ∈ outbound_queue R m.
Proof.
  intros Hb Hn Hw Hfatal Htag. unfold matchRule in Hw. destruct (prepareMatchMetadata E V mt) as [mt'| |]; [|by simplify_eq|done].
  pose proof (running_agree E S (sb_item_mode _ Hb) _ _ _ _ _ (sb_rules _ Hb) Hn) as Hagree.
  eapply match_go_referenced in Hw; [|exact (sb_item_mode _ Hb)| |exact Hagree]; [|done..]. unfold walk_referenced in Hw. unfold routed_to in Htag.
  unfold outbound_queue. rewrite (sb_mode _ Hb).
  destruct (wk_selected w) as [[i rule]|].
  - destruct Htag as (a & Ha & Hout). specialize (Hw a tag Ha Hout). set_solver.
  - rewrite (Hw Hfatal), (sb_default _ Hb), Htag. cbn. set_solver.
Qed.
Lemma resolve_go_reachable roots rules fuel chain o network l :
  same_box rules → reachable (re_Outbound R) roots o → Forall (reachable (re_Outbound R) roots) chain →
  resolve_go V fuel chain o network = Ok l → Forall (reachable (re_Outbound R) roots) l.
Proof.
  intros Hb. revert chain o. induction fuel as [|fuel IH]; intros chain o Ho Hc; cbn [resolve_go].
  all: destruct (rv_Selected V o) as [f|] eqn:Hf; [destruct (f network) as [d|] eqn:Hd; try done|by case_bool_decide; intros [= <-]].
  destruct (sb_selected _ Hb o f network d Hf Hd) as (Hdv & refs & Hrefs & Hin).
  assert (reachable (re_Outbound R) roots d) by (eapply reach_ref; eauto using sb_loaded).
  apply IH; [done|]. apply Forall_app. split; [done|by apply Forall_singleton].
Qed.

(** (C38) The reference manager forgets no outbound in use.  Let manager and
    router look at the same configuration ([same_box]: the same clash mode,
    started rules, default outbound and loaded outbounds, and groups that select
    among their own references), with tags listed once, the manager's notes
    matching what the outbounds were last told, and no inverted rule without
    conditions (for those it fails: bare_inverted_unreferenced).  Then an update
    ends, with fuel for the queues and all lists of references, and for every
    connection whose walk over the rules ends without an error, each outbound
    that can keep idle connections on its way has been told to: the outbound a
    rule sends the connection to, or the default when no rule does, and what the
    groups from there select. *)
Theorem routed_outbound_kept rules outbounds transports fuel flags mt inp w tag network chain :
  same_box rules → forallb no_bare_inverted (rm_rules m) = true → enough_fuel outbounds transports fuel →
  NoDup (re_outbounds R).*1 → (∀ t, keepOutbounds m !! t = flags !! t) →
  matchRule E V rules mt inp = Ok w → wk_fatal w = None → routed_to w tag → tag ∈ rv_outbounds V →
  resolveOutbound V tag network = Ok chain →
  ∃ calls m', update R fuel m = Some (calls, m') ∧
    ∀ t, t ∈ chain → (t, true) ∈ re_outbounds R → told calls flags !! t = Some true ∧ keepOutbounds m' !! t = Some true.
Proof.
  intros Hb Hn Hfuel Hnd Hflags Hw Hfatal Htag Hin Hchain.
  destruct (referenced_total _ _ _ Hfuel) as (ts & os & roots & Hr & Hroots & Hos).
  assert (∃ calls m', update R fuel m = Some (calls, m')) as (calls & m' & Hu).
  { unfold update. rewrite Hr. by eexists _, _. }
  exists calls, m'. split; [done|]. intros t Ht Hk.
  assert (reachable (re_Outbound R) roots tag) as Hreach.
  { apply reach_root; [|by eapply sb_loaded]. apply Hroots. by eapply routed_root. }
  assert (Forall (reachable (re_Outbound R) roots) chain) as Hall.
  { eapply resolve_go_reachable; [done|exact Hreach|by apply Forall_singleton|exact Hchain]. }
  rewrite Forall_forall in Hall. apply Hall, Hos in Ht.
  destruct (update_keeps R fuel m calls m' flags ts os Hflags Hnd Hr Hu t Hk) as [Htold ->].
  rewrite Htold, bool_decide_eq_true_2 by done. done.
Qed.
End routed.

(** ** Examples *)

Definition mode_options (mode : string) (invert : bool) : MatchOptions :=
  MkMatchOptions [] 0 [] [] false [] [] [] [] [] [] [] [] [] [] [] [] false [] false false [] [] [] []
    [] [] [] [] [] [] [] [] mode [] false false [] [] [] [] [] [] [] [] [] false false false None [] [] []
    invert None None None [] None.
Definition route_action (tag : string) : RuleActionOptions :=
  MkRuleActionOptions "route" (MkRouteActionOptions tag no_raw) no_raw (MkRouteActionOptions "" no_raw) (MkRejectAction "" false)
    (MkSniffOptions [] 0) (MkResolveOptions "" 0 0 false false None None).
(** In the mode "Direct" connections go to "direct", in any other mode through
    the selector; the mode is "rule". *)
Definition options2 : list RuleOptions :=
  [RuleDefault true (mode_options "Direct" false) (route_action "direct"); RuleDefault true (mode_options "Rule" false) (route_action "select")].
Definition env2 : RuleEnv :=
  MkRuleEnv (env_IsIP env0) (env_IsIPv6 env0) (env_IsPublicAddr env0) (env_AddrFromIP env0) (env_IsDuplicate env0)
    (env_CanonicalName env0) None [] [] [] None (env_WIFIState env0) (Some "rule"%string) false.
Definition start2 : RouteStartEnv := MkRouteStartEnv (λ _, None) (λ _, None) true.
Definition parse2 (host : string) (port : Z) : Socksaddr := no_socksaddr.
Definition mode_rule (mode out : string) : RouteRule :=
  let l := [ClashModeItem true mode] in MkRouteRule (DefaultRule (MkDefaultRule l [] [] [] [] [] l None false)) (Some (ActRoute out no_override)).
Definition rules2 : list RouteRule := [mode_rule "Direct" "direct"; mode_rule "Rule" "select"].
Definition refs2 (tag : string) : option (list string) :=
  if bool_decide (tag = "select"%string) then Some ["proxy"%string]
  else if bool_decide (tag ∈ ["direct"; "proxy"]%string) then Some [] else None.
Definition renv2 : RefEnv :=
  MkRefEnv "rule" None "" (Some "direct"%string) [] [] refs2 (λ _, None) [("direct"%string, true); ("proxy"%string, true); ("select"%string, false)] [].
Definition manager2 : ReferenceManager := NewReferenceManager None [] [] options2 [].
Lemma same_box2 : @same_box plain_lib false parse2 build0 env2 start2 router0 renv2 manager2 rules2.
Proof.
  split; try done.
  - exists [MkRouteRule (DefaultRule (MkDefaultRule [ClashModeItem false "Direct"] [] [] [] [] [] [ClashModeItem false "Direct"] None false)) (Some (ActRoute "direct" no_override));
            MkRouteRule (DefaultRule (MkDefaultRule [ClashModeItem false "Rule"] [] [] [] [] [] [ClashModeItem false "Rule"] None false)) (Some (ActRoute "select" no_override))].
    split; vm_compute; reflexivity.
  - intros o Ho. cbn in Ho. rewrite !elem_of_cons in Ho. destruct Ho as [->|[->|[->|Ho]]]; [by split; [|eexists]..|by apply elem_of_nil in Ho].
  - intros tag f network d. cbn. case_bool_decide; [|done]. subst. intros [= <-] [= <-]. split; [cbn; set_solver|].
    eexists. split; [reflexivity|]. by left.
Qed.
Lemma routed_outbound_kept_witness : ∃ w calls m',
  @matchRule _ plain_lib env2 router0 rules2 tcp_metadata (InStream ssh_stream) = Ok w ∧
  update renv2 10 manager2 = Some (calls, m') ∧
  ∀ t, t ∈ ["select"; "proxy"]%string → (t, true) ∈ re_outbounds renv2 → told calls ∅ !! t = Some true ∧ keepOutbounds m' !! t = Some true.
Proof.
  destruct (@matchRule _ plain_lib env2 router0 rules2 tcp_metadata (InStream ssh_stream)) as [w|e|p] eqn:Hw; [|by vm_compute in Hw..].
  assert (wk_fatal w = None ∧ routed_to router0 w "select") as [Hfatal Hto].
  { vm_compute in Hw. injection Hw as <-. split; [done|]. by eexists. }
  destruct (@routed_outbound_kept _ identity_laws plain_lib false parse2 build0 env2 start2 router0 renv2 manager2 rules2
    ["direct"; "proxy"; "select"]%string [] 10 ∅ tcp_metadata (InStream ssh_stream) w "select" "tcp" ["select"; "proxy"]%string)
    as (calls & m' & Hu & Hk).
  - exact same_box2.
  - reflexivity.
  - split_and!; [|by intros tag [? ?]|apply Nat.leb_le; reflexivity|apply Nat.leb_le; reflexivity].
    intros tag. cbn. unfold refs2. case_bool_decide as H1; [intros _; subst; by right; right; left|].
    case_bool_decide as H2; [|by intros [? ?]]. intros _. apply elem_of_cons in H2 as [->|H2]; [by left|].
    apply list_elem_of_singleton in H2 as ->. by right; left.
  - apply (bool_decide_eq_true_1 _). vm_compute. reflexivity.
  - done.
  - exact Hw.
  - exact Hfatal.
  - exact Hto.
  - apply (bool_decide_eq_true_1 _). vm_compute. reflexivity.
  - reflexivity.
  - exists w, calls, m'. split; [reflexivity|]. split; [exact Hu|exact Hk].
Defined.

(** An inverted rule without conditions sends every connection to its outbound,
    but the manager takes it for a rule that never matches. *)
Example bare_inverted_unreferenced :
  let o := RuleDefault true (mode_options "" true) (route_action "proxy") in
  collectRuleReferences [o] "" = ([], [], false) ∧
  ∃ r, @NewRule plain_lib false parse2 build0 true o = Ok r ∧ rr_action r = Some (ActRoute "proxy" no_override) ∧
       ∀ E m, (rule_Match E (rr_rule r) m).1 = true.
Proof. split; [reflexivity|]. eexists. split; [vm_compute; reflexivity|]. split; [reflexivity|]. reflexivity. Qed.
