(* ===== verification/Float64.v ===== *)
(** * float64 rates

    The panel sends speed limits as JSON numbers, that is float64 values in
    Mbit/s, and the client turns them into whole bytes per second.  float64 is
    the binary64 format of [SpecFloat] (53 bits of precision, exponent below
    1024), whose operations compute. *)

From S2P Require Import Prelude.
From Stdlib Require Import SpecFloat.

Abbreviation float64 := spec_float.

Definition fmul : float64 → float64 → float64 := SFmul 53 1024.
Definition fdiv : float64 → float64 → float64 := SFdiv 53 1024.
Definition flt : float64 → float64 → bool := SFltb.
Definition float64_of_Z (z : Z) : float64 := binary_normalize 53 1024 z 0 false.

#[export] Instance float64_eq_dec : EqDecision float64.
Proof. solve_decision. Defined.

(** uint64(f): the fraction is discarded.  When the value does not fit, the
    Go specification leaves the result to the implementation, so it is a
    parameter. *)
Class FloatConv := { f2u_out_of_range : float64 → Z }.
#[export] Instance floatconv_amd64 : FloatConv | 100 := {| f2u_out_of_range _ := (2^63)%Z |}.

Definition f2u64 `{FloatConv} (x : float64) : Z :=
  match x with
  | S754_zero _ => 0
  | S754_finite s m e =>
      let a := if bool_decide (0 ≤ e)%Z then (Z.pos m * 2 ^ e)%Z else (Z.pos m / 2 ^ (- e))%Z in
      if bool_decide (a = 0)%Z then 0%Z
      else if s then f2u_out_of_range x
      else if bool_decide (a < 2 ^ 64)%Z then a else f2u_out_of_range x
  | _ => f2u_out_of_range x
  end%Z.

Definition fpos (x : float64) : bool := flt (S754_zero false) x.

(** [uint64((x * 1000000) / 8)] *)
Definition mbps_to_Bps `{FloatConv} (x : float64) : Z :=
  f2u64 (fdiv (fmul x (float64_of_Z 1000000)) (float64_of_Z 8)).

(** The choice every response parser makes: a limit set in panel.json wins
    over the one the panel sends. *)
Definition speed_limit `{FloatConv} (local panel : float64) : Z :=
  if fpos local then mbps_to_Bps local else mbps_to_Bps panel.

(** Whole Mbit/s up to 2.5 Gbit/s convert without rounding, and are positive
    unless zero. *)
Definition mbps_exact `{FloatConv} (z : Z) : bool :=
  bool_decide (mbps_to_Bps (float64_of_Z z) = z * 125000)%Z &&
  (bool_decide (z = 0)%Z || fpos (float64_of_Z z)).

Lemma mbps_exact_upto `{F : FloatConv} z : (0 ≤ z ≤ 2500)%Z → mbps_exact z = true.
Proof.
  intros Hz.
  assert (forallb mbps_exact (seqZ 0 2501) = true) as H.
  { destruct F as [oor]. vm_compute. reflexivity. }
  rewrite forallb_forall in H. apply H. apply list_elem_of_In, elem_of_seqZ. lia.
Qed.

Lemma mbps_to_Bps_exact `{FloatConv} z :
  (0 ≤ z ≤ 2500)%Z → mbps_to_Bps (float64_of_Z z) = (z * 125000)%Z.
Proof.
  intros [E _]%mbps_exact_upto%andb_true_iff. by apply bool_decide_eq_true in E.
Qed.

Lemma fpos_of_Z_small z : (0 < z ≤ 2500)%Z → fpos (float64_of_Z z) = true.
Proof.
  intros Hz. assert (0 ≤ z ≤ 2500)%Z as H by lia.
  apply mbps_exact_upto, andb_true_iff in H as [_ H].
  by rewrite bool_decide_eq_false_2 in H by lia.
Qed.
#[export] Hint Resolve mbps_to_Bps_exact fpos_of_Z_small : singr.
