(* ===== verification/Api.v ===== *)
(** * poet/api: what a panel and a node exchange

    The data types of package [poet/api], the sentinel errors, and the [API]
    interface the controller drives a panel through. *)

From S2P Require Import Prelude Float64.

Definition UserNotModified : string := "users not modified".
Definition NodeNotModified : string := "node not modified".
Definition RuleNotModified : string := "rules not modified".

(** api.Config *)
Record ApiConfig := {
  cfg_APIHost : string; cfg_NodeID : Z; cfg_Key : string; cfg_InTag : string;
  cfg_NodeType : string; cfg_EnableVless : bool; cfg_VlessFlow : string;
  cfg_Timeout : Z; cfg_SpeedLimit : float64; cfg_DeviceLimit : Z;
  cfg_RuleListPath : string; cfg_DisableCustomConfig : bool;
}.

Record NodeStatus := { ns_CPU : float64; ns_Mem : float64; ns_Disk : float64; ns_Uptime : Z }.

Record REALITYConfig := {
  re_Dest : string; re_ProxyProtocolVer : Z; re_ServerNames : list string;
  re_PrivateKey : string; re_MinClientVer : string; re_MaxClientVer : string;
  re_MaxTimeDiff : Z; re_ShortIds : list string;
}.
(** [new(api.REALITYConfig)] *)
Definition REALITYConfig_zero : REALITYConfig :=
  {| re_Dest := ""; re_ProxyProtocolVer := 0; re_ServerNames := []; re_PrivateKey := "";
     re_MinClientVer := ""; re_MaxClientVer := ""; re_MaxTimeDiff := 0; re_ShortIds := [] |}.

Record NodeInfo := {
  ni_NodeType : string; ni_PanelNodeType : string; ni_NodeID : Z;
  ni_Port : Z;              (* uint32 *)
  ni_SpeedLimit : Z;        (* uint64, bytes per second *)
  ni_AlterID : Z;           (* uint16 *)
  ni_TransportProtocol : string; ni_FakeType : string;
  ni_Host : string; ni_Path : string; ni_EnableTLS : bool; ni_EnableVless : bool;
  ni_VlessFlow : string; ni_CypherMethod : string; ni_ServerKey : string;
  ni_ServiceName : string; ni_Header : string; ni_TrafficRate : float64;
  ni_EnableREALITY : bool; ni_REALITYConfig : option REALITYConfig;
  ni_RelayServer : string; ni_RelayPort : Z;
}.

Record UserInfo := {
  ui_UID : Z; ui_Email : string; ui_UUID : string; ui_Passwd : string;
  ui_Port : Z; ui_AlterID : Z; ui_Flow : string; ui_Method : string;
  ui_SpeedLimit : Z;        (* uint64, bytes per second *)
  ui_DeviceLimit : Z;
}.

Record OnlineUser := { ou_UID : Z; ou_IP : string }.
Record UserTraffic := { ut_UID : Z; ut_Email : string; ut_Upload : Z; ut_Download : Z }.
Record ClientInfo := { ci_APIHost : string; ci_NodeID : Z; ci_Key : string; ci_NodeType : string }.

(** A compiled pattern is known by its source text; [None] is a nil pointer. *)
Record DetectRule := { dr_ID : Z; dr_Pattern : option string }.
Record DetectResult := { de_UID : Z; de_RuleID : Z }.

#[export] Instance OnlineUser_eq_dec : EqDecision OnlineUser.
Proof. solve_decision. Defined.
#[export] Instance UserTraffic_eq_dec : EqDecision UserTraffic.
Proof. solve_decision. Defined.
#[export] Instance DetectResult_eq_dec : EqDecision DetectResult.
Proof. solve_decision. Defined.
#[export] Instance UserInfo_eq_dec : EqDecision UserInfo.
Proof. solve_decision. Defined.

(** Package [regexp]: which patterns compile, and what they match. *)
Class Regexp := { regexp_ok : string → bool; regexp_match : string → string → bool }.
(** A literal pattern matches the strings equal to it; enough for examples. *)
#[export] Instance regexp_literal : Regexp | 100 :=
  {| regexp_ok p := negb (bool_decide (p = "(")); regexp_match p s := bool_decide (p = s) |}.

(** api.NodeTypeMismatch *)
Definition NodeTypeMismatch (inboundType panelNodeType : string) : error :=
  let panelNodeType := if bool_decide (panelNodeType = "") then "(empty)" else panelNodeType in
  EFmt "panel node resolves to type %s, but its panel.json intag points at a %s inbound: the panel node's ws path (/anytls, /hy2, /naive) picks the protocol"
    [panelNodeType; inboundType].

(** The [API] interface.  A call threads the client's state and returns what
    the Go method returns; [W] is what the outside world answers during the
    call. *)
Class PanelAPI (C W : Type) := {
  GetNodeInfo : C → W → C * result NodeInfo;
  GetUserList : C → W → C * result (list UserInfo);
  ReportNodeStatus : C → W → NodeStatus → C * result unit;
  ReportNodeOnlineUsers : C → W → list OnlineUser → C * result unit;
  ReportUserTraffic : C → W → list UserTraffic → C * result unit;
  Describe : C → ClientInfo;
  GetNodeRule : C → W → C * result (list DetectRule);
  ReportIllegal : C → W → list DetectResult → C * result unit;
}.
