(* ===== verification/Version.v ===== *)
(** * compareVersion (poet/api/sspanel/sspanel.go)

    The panel's version decides which API dialect the client speaks.  The
    source walks both strings with two indices; the model keeps the unread
    suffixes, and the reference definition compares the dotted components as
    numbers, missing ones counting as zero. *)

From S2P Require Import Prelude GoStrings.
From Stdlib Require Import Ascii.

Open Scope Z_scope.

(** [x*10 + int(version[i]-'0')]: the byte subtraction wraps at 8 bits, the
    accumulator at 64. *)
Definition add_digit (x : Z) (c : ascii) : Z :=
  i64 (x * 10 + u8 (Z.of_nat (code c) - 48)).

(** One inner loop with its [i++]: the component's value and the suffix after
    the dot, empty when the index has run past the end. *)
Fixpoint read_component (x : Z) (s : string) : Z * string :=
  match s with
  | "" => (x, "")
  | String c s' =>
      if bool_decide (c = "."%char) then (x, s') else read_component (add_digit x c) s'
  end.

Fixpoint compare_go (fuel : nat) (v1 v2 : string) : Z :=
  match fuel with
  | O => 0
  | S fuel =>
      match v1, v2 with
      | "", "" => 0
      | _, _ =>
          let '(x, v1') := read_component 0 v1 in
          let '(y, v2') := read_component 0 v2 in
          if bool_decide (y < x) then 1
          else if bool_decide (x < y) then -1
          else compare_go fuel v1' v2'
      end
  end.

(** Every iteration consumes a byte of some non-empty suffix, so the total
    length is fuel enough. *)
Definition compareVersion (version1 version2 : string) : Z :=
  compare_go (S (String.length version1 + String.length version2)) version1 version2.

(** ** Reference: lexicographic comparison of the dotted components *)

Definition component (s : string) : Z := fst (read_component 0 s).
Definition components (s : string) : list Z := component <$> Split "." s.

Fixpoint compare_padded (l1 l2 : list Z) : Z :=
  match l1, l2 with
  | [], [] => 0
  | x :: l1, [] => if bool_decide (0 < x) then 1 else if bool_decide (x < 0) then -1 else compare_padded l1 []
  | [], y :: l2 => if bool_decide (y < 0) then 1 else if bool_decide (0 < y) then -1
                   else (fix right l2 := match l2 with
                         | [] => 0
                         | y :: l2 => if bool_decide (y < 0) then 1 else if bool_decide (0 < y) then -1 else right l2
                         end) l2
  | x :: l1, y :: l2 => if bool_decide (y < x) then 1 else if bool_decide (x < y) then -1 else compare_padded l1 l2
  end.

Lemma compare_padded_cons x y l1 l2 :
  compare_padded (x :: l1) (y :: l2)
  = if bool_decide (y < x) then 1 else if bool_decide (x < y) then -1 else compare_padded l1 l2.
Proof. done. Qed.
Lemma compare_padded_nil_cons y l2 :
  compare_padded [] (y :: l2)
  = if bool_decide (y < 0) then 1 else if bool_decide (0 < y) then -1 else compare_padded [] l2.
Proof. by destruct l2. Qed.

Lemma compare_padded_cons_nil x l1 :
  compare_padded (x :: l1) []
  = if bool_decide (0 < x) then 1 else if bool_decide (x < 0) then -1 else compare_padded l1 [].
Proof. done. Qed.

(** Lists of components that compare alike: [1.0] and [1] do. *)
Definition alike (l l' : list Z) : Prop :=
  ∀ m, compare_padded l m = compare_padded l' m ∧ compare_padded m l = compare_padded m l'.

#[export] Instance alike_equiv : Equivalence alike.
Proof.
  split.
  - by intros l m.
  - intros l l' H m. by destruct (H m) as [-> ->].
  - intros l l' l'' H H' m. destruct (H m) as [-> ->]. apply H'.
Qed.

Lemma alike_cons x l l' : alike l l' → alike (x :: l) (x :: l').
Proof.
  intros H [|y m].
  - rewrite !compare_padded_nil_cons, !compare_padded_cons_nil.
    destruct (H []) as [-> ->]. done.
  - rewrite !compare_padded_cons. destruct (H m) as [-> ->]. done.
Qed.

Lemma alike_zero : alike [0] [].
Proof.
  intros [|y m]; [done|].
  rewrite !compare_padded_cons, compare_padded_nil_cons, compare_padded_cons_nil. done.
Qed.

#[export] Instance compare_padded_proper :
  Proper (alike ==> alike ==> eq) compare_padded.
Proof. intros l l' H m m' H'. destruct (H m) as [-> _], (H' l') as [_ ->]. done. Qed.

(** One component read off a string. *)
Lemma read_component_split x s y s' :
  read_component x s = (y, s') →
  ∃ w, lacks "." w = true ∧ y = fst (read_component x w) ∧
       ((s = w ∧ s' = "") ∨ s = w +:+ String "." s').
Proof.
  revert x. induction s as [|c s IH]; intros x; cbn.
  - intros [= <- <-]. exists "". auto.
  - case_bool_decide as Hc.
    + intros [= <- <-]. subst. exists "". auto.
    + intros (w & Hw & -> & Hs)%IH. exists (String c w). split; [|split].
      * unfold lacks in *. cbn. by rewrite bool_decide_eq_false_2.
      * cbn. by rewrite bool_decide_eq_false_2.
      * destruct Hs as [[-> ->]| ->]; auto.
Qed.

Lemma components_read s y s' :
  read_component 0 s = (y, s') →
  alike (components s) (y :: components s')
  ∧ (String.length s' ≤ String.length s - 1)%nat.
Proof.
  intros (w & Hw & -> & Hs)%read_component_split. unfold components.
  destruct Hs as [[-> ->]| ->].
  - rewrite (Split_lacks _ w) by done. split; [|cbn; lia].
    apply alike_cons. symmetry. apply alike_zero.
  - rewrite Split_app by done. split; [done|]. rewrite string_length_app. cbn. lia.
Qed.

Lemma compare_go_components fuel v1 v2 :
  (String.length v1 + String.length v2 < fuel)%nat →
  compare_go fuel v1 v2 = compare_padded (components v1) (components v2).
Proof.
  revert v1 v2. induction fuel as [|fuel IH]; intros v1 v2 Hf; [lia|].
  assert ((v1 = "" ∧ v2 = "") ∨ (0 < String.length v1 + String.length v2)%nat) as [[-> ->]|Hne].
  { destruct v1, v2; cbn; auto; right; lia. }
  { done. }
  destruct (read_component 0 v1) as [x v1'] eqn:E1, (read_component 0 v2) as [y v2'] eqn:E2.
  apply components_read in E1 as E1'. apply components_read in E2 as E2'.
  destruct E1' as [H1 L1], E2' as [H2 L2]. rewrite H1, H2, compare_padded_cons.
  rewrite <- IH by lia. cbn [compare_go]. rewrite E1, E2.
  destruct v1, v2; [cbn in Hne; lia|done..].
Qed.

(** What [Itoa] prints is read back as one component. *)
Lemma read_component_digits s x n :
  all_chars is_digit s = true → digits_go (Z.to_N x) s = Some n →
  (0 ≤ x) → (Z.of_N n < 2 ^ 63) → read_component x s = (Z.of_N n, "").
Proof.
  revert x. induction s as [|c s IH]; intros x Hs Hn Hx Hlt; cbn in *.
  - simplify_eq. by rewrite Z2N.id.
  - apply andb_true_iff in Hs as [Hc Hs]. rewrite Hc in Hn.
    rewrite bool_decide_eq_false_2 by (by intros ->).
    unfold is_digit in Hc. apply bool_decide_eq_true in Hc.
    assert (add_digit x c = x * 10 + Z.of_N (digit_val c)) as ->.
    { unfold add_digit, digit_val.
      assert (u8 (Z.of_nat (code c) - 48) = Z.of_N (N.of_nat (code c - 48))) as ->
        by (unfold u8; rewrite Z.mod_small by lia; lia).
      apply i64_small. unfold in_i64.
      assert (∀ a t m, digits_go a t = Some m → (a ≤ m)%N) as Hmono.
      { clear. intros a t. revert a. induction t as [|d t IHt]; cbn; intros a m; [intros [= ->]; lia|].
        destruct (is_digit d); [|done]. intros ?%IHt. lia. }
      apply Hmono in Hn. unfold digit_val in Hn. lia. }
    apply IH; [done| |lia|done].
    rewrite <- Hn. f_equal. lia.
Qed.

Lemma component_Itoa z : (0 ≤ z < 2 ^ 63) → component (Itoa z) = z.
Proof.
  intros Hz. unfold component. rewrite (read_component_digits _ 0 (Z.to_N z)); [cbn; lia|..]; try lia.
  - apply Itoa_digits. lia.
  - rewrite Itoa_nonneg by lia. pose proof (parse_digits_pretty (Z.to_N z)) as H.
    unfold parse_digits in H. by destruct (pretty (Z.to_N z)).
Qed.

Lemma components_Join l :
  l ≠ [] → Forall (λ z, 0 ≤ z < 2 ^ 63) l → components (Join "." (Itoa <$> l)) = l.
Proof.
  intros Hne Hl. unfold components. rewrite (Split_Join "."%char).
  - rewrite <- list_fmap_compose. induction Hl; cbn; [done|].
    f_equal; [by apply component_Itoa|]. destruct l; [done|]. by apply IHHl.
  - by destruct l.
  - apply Forall_fmap. eapply Forall_impl; [exact Hl|]. intros z [Hz _]. by apply Itoa_lacks.
Qed.

(** compareVersion terminates with the answer of the reference: the
    dotted components compared left to right as numbers, a missing component
    counting as zero. *)
Theorem compareVersion_components v1 v2 :
  compareVersion v1 v2 = compare_padded (components v1) (components v2).
Proof. unfold compareVersion. apply compare_go_components. lia. Qed.
