(* ===== verification/SspanelParse.v ===== *)
(** * poet/api/sspanel: reading the panel's answers

    The response types of [model.go] and the parsers of [sspanel.go] that turn
    a node's address string or custom_config into a [NodeInfo].  An index out
    of range is a run-time panic in Go, so it is the [Panic] outcome here. *)

From S2P Require Import Prelude GoStrings Float64 Api Version.
From Stdlib Require Import Ascii.

Open Scope Z_scope.

(** ** model.go *)

Record NodeInfoResponse := {
  nr_Group : Z; nr_Class : Z; nr_SpeedLimit : float64; nr_TrafficRate : float64; nr_Sort : Z;
  nr_RawServerString : string; nr_Type : string; nr_CustomConfig : string; nr_Version : string;
}.

Record CustomConfig := {
  cc_OffsetPortNode : string; cc_Host : string; cc_Method : string; cc_TLS : string;
  cc_EnableVless : string; cc_Network : string; cc_Security : string; cc_Path : string;
  cc_VerifyCert : bool; cc_Obfs : string; cc_Header : string; cc_AllowInsecure : string;
  cc_Servicename : string; cc_EnableXtls : string; cc_Flow : string;
  cc_EnableREALITY : bool; cc_RealityOpts : option REALITYConfig;
}.

Record UserResponse := {
  ur_ID : Z; ur_Email : string; ur_Passwd : string; ur_Port : Z; ur_Method : string;
  ur_SpeedLimit : float64; ur_DeviceLimit : Z; ur_NodeConnector : Z; ur_UUID : string;
  ur_AliveIP : Z;
}.

Record Response := { rs_Ret : Z; rs_Data : string }.
Record RuleItem := { ri_ID : Z; ri_Content : string }.
Record IllegalItem := { il_ID : Z; il_UID : Z }.
Record SystemLoad := { sl_Uptime : string; sl_Load : string }.

(** Package [encoding/json], for the types the client decodes and the one map
    it encodes. *)
Class PanelJson := {
  unmarshal_node : string → result NodeInfoResponse;
  unmarshal_users : string → result (list UserResponse);
  unmarshal_rules : string → result (list RuleItem);
  unmarshal_custom : string → result CustomConfig;
  marshal_header : string → string;   (* json.Marshal of the map type -> headerType *)
}.

(** ** The client *)

Record APIClient := {
  c_APIHost : string; c_NodeID : Z; c_Key : string; c_NodeType : string;
  c_EnableVless : bool; c_VlessFlow : string; c_SpeedLimit : float64; c_DeviceLimit : Z;
  c_DisableCustomConfig : bool; c_LocalRuleList : list DetectRule;
  c_LastReportOnline : gmap Z Z; c_version : string; c_eTags : gmap string string;
  c_expiredWarned : bool;
}.

Definition index {A} (l : list A) (i : nat) : result A :=
  match l !! i with Some x => Ok x | None => Panic "index out of range" end.
(** [l[3:5]]; a slice from [strings.Split] has no spare capacity. *)
Definition slice_3_5 {A} (l : list A) : result (list A) :=
  if bool_decide (5 ≤ length l)%nat then Ok (take 2 (drop 3 l)) else Panic "slice bounds out of range".

Section parse.
Context `{UnicodeTables, FloatConv, PanelJson}.

Definition normalizeNodeType (nodeType : string) : string := ToLower (TrimSpace nodeType).

Definition normalizeAnyTLSPath (path : string) : string :=
  TrimPrefix (ToLower (TrimSpace path)) "/".

Definition isAnyTLSAlias (transportProtocol path : string) : bool :=
  EqualFold (TrimSpace transportProtocol) "ws" && bool_decide (normalizeAnyTLSPath path = "anytls").
Definition isHysteria2Alias (transportProtocol path : string) : bool :=
  EqualFold (TrimSpace transportProtocol) "ws" && bool_decide (normalizeAnyTLSPath path = "hy2").
Definition isNaiveAlias (transportProtocol path : string) : bool :=
  EqualFold (TrimSpace transportProtocol) "ws" && bool_decide (normalizeAnyTLSPath path = "naive").

(** The if/else chain both parsers use: node type and effective transport. *)
Definition apply_alias (nodeType transport path : string) : string * string :=
  if isAnyTLSAlias transport path then ("anytls", "tcp")
  else if isHysteria2Alias transport path then ("hysteria2", "udp")
  else if isNaiveAlias transport path then ("naive", "tcp")
  else (nodeType, transport).

(** *** ParseV2rayNodeResponse *)

Definition v2ray_field (st : bool * string) (value : string) : bool * string :=
  let '(enableTLS, transport) := st in
  let value := ToLower (TrimSpace value) in
  if bool_decide (value = "tls") then (true, transport)
  else if bool_decide (value = "") then (enableTLS, transport)
  else (enableTLS, value).

Record V2rayExtra := {
  vx_path : string; vx_host : string; vx_serviceName : string;
  vx_headerType : string; vx_relayServer : string; vx_relayPort : Z;
}.
Definition V2rayExtra_zero : V2rayExtra := Build_V2rayExtra "" "" "" "" "" 0.

Definition v2ray_item (x : V2rayExtra) (item : string) : result V2rayExtra :=
  let conf := Split "=" item in
  key0 ← index conf 0;
  let key := ToLower (TrimSpace key0) in
  if bool_decide (key = "") then Ok x
  else if bool_decide (length conf < 2)%nat then Ok x
  else
    value0 ← index conf 1;
    let value := TrimSpace value0 in
    if bool_decide (key = "path") then
      Ok (Build_V2rayExtra (TrimSpace (Join "=" (drop 1 conf))) (vx_host x) (vx_serviceName x)
            (vx_headerType x) (vx_relayServer x) (vx_relayPort x))
    else if bool_decide (key = "host") then
      Ok (Build_V2rayExtra (vx_path x) value (vx_serviceName x)
            (vx_headerType x) (vx_relayServer x) (vx_relayPort x))
    else if bool_decide (key = "servicename") then
      Ok (Build_V2rayExtra (vx_path x) (vx_host x) value
            (vx_headerType x) (vx_relayServer x) (vx_relayPort x))
    else if bool_decide (key = "headertype") then
      Ok (Build_V2rayExtra (vx_path x) (vx_host x) (vx_serviceName x)
            value (vx_relayServer x) (vx_relayPort x))
    else if bool_decide (key = "relay_server") then
      Ok (Build_V2rayExtra (vx_path x) (vx_host x) (vx_serviceName x)
            (vx_headerType x) value (vx_relayPort x))
    else if bool_decide (key = "relay_port") then
      match ParseUint value 32 with
      | Ok p => Ok (Build_V2rayExtra (vx_path x) (vx_host x) (vx_serviceName x)
                      (vx_headerType x) (vx_relayServer x) p)
      | Err e => Err (EWrap "invalid relay_port %q: %w" e)
      | Panic w => Panic w
      end
    else Ok x.

Fixpoint v2ray_items (x : V2rayExtra) (items : list string) : result V2rayExtra :=
  match items with
  | [] => Ok x
  | item :: items => x' ← v2ray_item x item; v2ray_items x' items
  end.

Definition traffic_rate (r : NodeInfoResponse) : float64 :=
  if fpos (nr_TrafficRate r) then nr_TrafficRate r else float64_of_Z 1.

Definition ParseV2rayNodeResponse (c : APIClient) (r : NodeInfoResponse) : result NodeInfo :=
  if bool_decide (nr_RawServerString r = "") then Err (ENew "no server info in response")
  else
    let serverConf := Split ";" (nr_RawServerString r) in
    if bool_decide (length serverConf < 6)%nat then
      Err (EFmt "invalid v2ray server info %q: expected at least 6 fields" [nr_RawServerString r])
    else
      f1 ← index serverConf 1; parsedPort ← ParseInt f1 32;
      let port := u32 parsedPort in
      f2 ← index serverConf 2; parsedAlterID ← ParseInt f2 16;
      let alterID := u16 parsedAlterID in
      fields ← slice_3_5 serverConf;
      let '(enableTLS, transportProtocol) := foldl v2ray_field (false, "") fields in
      f5 ← index serverConf 5;
      x ← v2ray_items V2rayExtra_zero (Split "|" f5);
      let speedLimit := speed_limit (c_SpeedLimit c) (nr_SpeedLimit r) in
      let header := if bool_decide (vx_headerType x = "") then "" else marshal_header (vx_headerType x) in
      let '(nodeType, effectiveTransport) := apply_alias (c_NodeType c) transportProtocol (vx_path x) in
      Ok {| ni_NodeType := nodeType; ni_PanelNodeType := c_NodeType c; ni_NodeID := c_NodeID c;
            ni_Port := port; ni_SpeedLimit := speedLimit; ni_AlterID := alterID;
            ni_TransportProtocol := effectiveTransport; ni_FakeType := "";
            ni_Host := vx_host x; ni_Path := vx_path x; ni_EnableTLS := enableTLS;
            ni_EnableVless := c_EnableVless c; ni_VlessFlow := c_VlessFlow c;
            ni_CypherMethod := ""; ni_ServerKey := ""; ni_ServiceName := vx_serviceName x;
            ni_Header := header; ni_TrafficRate := traffic_rate r; ni_EnableREALITY := false;
            ni_REALITYConfig := None; ni_RelayServer := vx_relayServer x;
            ni_RelayPort := u32 (vx_relayPort x) |}.

(** The NodeInfo literal of the parsers below: all other fields are zero. *)
Definition legacy_node (c : APIClient) (port speedLimit : Z) (transport : string)
    (tls : bool) (path host serviceName : string) : NodeInfo :=
  {| ni_NodeType := c_NodeType c; ni_PanelNodeType := ""; ni_NodeID := c_NodeID c;
     ni_Port := port; ni_SpeedLimit := speedLimit; ni_AlterID := 0;
     ni_TransportProtocol := transport; ni_FakeType := ""; ni_Host := host; ni_Path := path;
     ni_EnableTLS := tls; ni_EnableVless := false; ni_VlessFlow := ""; ni_CypherMethod := "";
     ni_ServerKey := ""; ni_ServiceName := serviceName; ni_Header := "";
     ni_TrafficRate := float64_of_Z 0; ni_EnableREALITY := false; ni_REALITYConfig := None;
     ni_RelayServer := ""; ni_RelayPort := 0 |}.

(** *** ParseSSPluginNodeResponse *)

Definition plugin_field (st : bool * string) (value : string) : bool * string :=
  let '(enableTLS, transport) := st in
  if bool_decide (value = "tls") then (true, transport)
  else if bool_decide (value = "ws") then (enableTLS, "ws")
  else if bool_decide (value = "obfs") then (enableTLS, "tcp")
  else (enableTLS, transport).

Definition plugin_item (st : string * string) (item : string) : result (string * string) :=
  let '(path, host) := st in
  let conf := Split "=" item in
  key ← index conf 0;
  if bool_decide (key = "") then Ok (path, host)
  else
    value ← index conf 1;
    if bool_decide (key = "path") then Ok (Join "=" (drop 1 conf), host)
    else if bool_decide (key = "host") then Ok (path, value)
    else Ok (path, host).

Fixpoint plugin_items (st : string * string) (items : list string) : result (string * string) :=
  match items with
  | [] => Ok st
  | item :: items => st' ← plugin_item st item; plugin_items st' items
  end.

Definition ParseSSPluginNodeResponse (c : APIClient) (r : NodeInfoResponse) : result NodeInfo :=
  let serverConf := Split ";" (nr_RawServerString r) in
  f1 ← index serverConf 1; parsedPort ← ParseInt f1 32;
  let port := u32 (u32 parsedPort - 1) in
  if bool_decide (port ≤ 0) then Err (ENew "Shadowsocks-Plugin listen port must bigger than 1")
  else
    fields ← slice_3_5 serverConf;
    let '(enableTLS, transportProtocol) := foldl plugin_field (false, "") fields in
    f5 ← index serverConf 5;
    ph ← plugin_items ("", "") (Split "|" f5);
    let '(path, host) := ph in
    let speedLimit := speed_limit (c_SpeedLimit c) (nr_SpeedLimit r) in
    Ok (legacy_node c port speedLimit transportProtocol enableTLS path host "").

(** *** ParseTrojanNodeResponse *)

Fixpoint span (p : ascii → bool) (s : string) : string * string :=
  match s with
  | "" => ("", "")
  | String c t => if p c then let '(a, b) := span p t in (String c a, b) else ("", s)
  end.
Definition is_word (c : ascii) : bool :=
  is_digit c || is_upper c || bool_decide (97 ≤ code c ≤ 122)%nat || bool_decide (c = "_"%char).

(** FindStringSubmatch: the leftmost position where the pattern matches. *)
Fixpoint find_submatch (m : string → option string) (s : string) : option string :=
  match m s with
  | Some x => Some x
  | None => match s with "" => None | String _ t => find_submatch m t end
  end.
Definition nonempty (s : string) : option string := match s with "" => None | _ => Some s end.

(** [port=(\d+)#?], [port=\d+#(\d+)], [host=([\w.]+)\|?]: each class is
    followed by a character outside it, so greedy runs need no backtracking. *)
Definition firstPortRe (s : string) : option string :=
  rest ← strip_prefix "port=" s; nonempty (fst (span is_digit rest)).
Definition secondPortRe (s : string) : option string :=
  rest ← strip_prefix "port=" s;
  _ ← nonempty (fst (span is_digit rest));
  rest ← strip_prefix "#" (snd (span is_digit rest));
  nonempty (fst (span is_digit rest)).
Definition hostRe (s : string) : option string :=
  rest ← strip_prefix "host=" s;
  nonempty (fst (span (λ c, is_word c || bool_decide (c = "."%char)) rest)).

Definition trojan_item (st : string * string) (item : string) : result (string * string) :=
  let '(transport, serviceName) := st in
  let conf := Split "=" item in
  key ← index conf 0;
  if bool_decide (key = "") then Ok (transport, serviceName)
  else
    value ← index conf 1;
    if bool_decide (key = "grpc") then Ok ("grpc", serviceName)
    else if bool_decide (key = "servicename") then Ok (transport, value)
    else Ok (transport, serviceName).

Fixpoint trojan_items (st : string * string) (items : list string) : result (string * string) :=
  match items with
  | [] => Ok st
  | item :: items => st' ← trojan_item st item; trojan_items st' items
  end.

Definition ParseTrojanNodeResponse (c : APIClient) (r : NodeInfoResponse) : result NodeInfo :=
  let raw := nr_RawServerString r in
  if bool_decide (raw = "") then Err (ENew "no server info in response")
  else
    let outsidePort := default "" (find_submatch firstPortRe raw) in
    let insidePort := default "" (find_submatch secondPortRe raw) in
    let host := default "" (find_submatch hostRe raw) in
    let p := if bool_decide (insidePort = "") then outsidePort else insidePort in
    parsedPort ← ParseInt p 32;
    let port := u32 parsedPort in
    let serverConf := Split ";" raw in
    f1 ← index serverConf 1;
    ts ← trojan_items ("tcp", "") (Split "|" f1);
    let '(transportProtocol, serviceName) := ts in
    let speedLimit := speed_limit (c_SpeedLimit c) (nr_SpeedLimit r) in
    Ok (legacy_node c port speedLimit transportProtocol true "" host serviceName).

(** *** ParseSSPanelNodeInfo (custom_config dialect) *)

Definition custom_transport (nodeType : string) (cc : CustomConfig) : string * string * bool * bool :=
  let t := normalizeNodeType nodeType in
  if bool_decide (t = "shadowsocks") then (nodeType, "tcp", false, false)
  else if bool_decide (t = "v2ray") || bool_decide (t = "vmess") then
    let enableTLS := bool_decide (cc_Security cc = "tls") || bool_decide (cc_Security cc = "xtls") in
    let enableVless := bool_decide (cc_EnableVless cc = "1") in
    let '(nodeType', transport) := apply_alias nodeType (cc_Network cc) (cc_Path cc) in
    (nodeType', transport, enableTLS, enableVless)
  else if bool_decide (t = "trojan") then
    (nodeType, if bool_decide (cc_Network cc = "") then "tcp" else cc_Network cc, true, false)
  else if bool_decide (t = "tuic") then (nodeType, "udp", false, false)
  else if bool_decide (t = "hysteria") || bool_decide (t = "hysteria2") then (nodeType, "udp", false, false)
  else (nodeType, "", false, false).

Definition ParseSSPanelNodeInfo (c : APIClient) (r : NodeInfoResponse) : result NodeInfo :=
  if bool_decide (nr_CustomConfig r = "") then Err (ENew "custom_config is empty, disable custom config")
  else
    match unmarshal_custom (nr_CustomConfig r) with
    | Panic w => Panic w
    | Err e => Err (EWrap "custom_config format error: %v" e)
    | Ok cc =>
        let speedLimit := speed_limit (c_SpeedLimit c) (nr_SpeedLimit r) in
        parsedPort ← ParseInt (cc_OffsetPortNode cc) 32;
        let port := u32 parsedPort in
        let '(nodeType, transportProtocol, enableTLS, enableVless) := custom_transport (c_NodeType c) cc in
        let realityConfig := default REALITYConfig_zero (cc_RealityOpts cc) in
        Ok {| ni_NodeType := nodeType; ni_PanelNodeType := c_NodeType c; ni_NodeID := c_NodeID c;
              ni_Port := port; ni_SpeedLimit := speedLimit; ni_AlterID := 0;
              ni_TransportProtocol := transportProtocol; ni_FakeType := "";
              ni_Host := cc_Host cc; ni_Path := cc_Path cc; ni_EnableTLS := enableTLS;
              ni_EnableVless := enableVless; ni_VlessFlow := cc_Flow cc;
              ni_CypherMethod := cc_Method cc; ni_ServerKey := "";
              ni_ServiceName := cc_Servicename cc; ni_Header := cc_Header cc;
              ni_TrafficRate := traffic_rate r; ni_EnableREALITY := cc_EnableREALITY cc;
              ni_REALITYConfig := Some realityConfig; ni_RelayServer := ""; ni_RelayPort := 0 |}
    end.

(** *** ParseUserListResponse *)

(** The device limit of one user, or [None] when no device is left for it. *)
Definition user_device_limit (c : APIClient) (user : UserResponse) : option Z :=
  let deviceLimit :=
    if bool_decide (0 < c_DeviceLimit c) then c_DeviceLimit c
    else if bool_decide (ur_DeviceLimit user = 0) then ur_NodeConnector user
    else ur_DeviceLimit user in
  if bool_decide (0 < deviceLimit) && bool_decide (0 < ur_AliveIP user) then
    let lastOnline := default 0 (c_LastReportOnline c !! ur_ID user) in
    let localDeviceLimit := i64 (deviceLimit - ur_AliveIP user + lastOnline) in
    if bool_decide (0 < localDeviceLimit) then Some localDeviceLimit
    else if bool_decide (0 < lastOnline) then Some lastOnline
    else None
  else Some deviceLimit.

Definition user_info (c : APIClient) (user : UserResponse) (deviceLimit : Z) : UserInfo :=
  {| ui_UID := ur_ID user; ui_Email := ur_Email user; ui_UUID := ur_UUID user;
     ui_Passwd := ur_Passwd user; ui_Port := ur_Port user; ui_AlterID := 0; ui_Flow := "";
     ui_Method := ur_Method user;
     ui_SpeedLimit := speed_limit (c_SpeedLimit c) (ur_SpeedLimit user);
     ui_DeviceLimit := deviceLimit |}.

Definition clear_online (c : APIClient) : APIClient :=
  {| c_APIHost := c_APIHost c; c_NodeID := c_NodeID c; c_Key := c_Key c; c_NodeType := c_NodeType c;
     c_EnableVless := c_EnableVless c; c_VlessFlow := c_VlessFlow c; c_SpeedLimit := c_SpeedLimit c;
     c_DeviceLimit := c_DeviceLimit c; c_DisableCustomConfig := c_DisableCustomConfig c;
     c_LocalRuleList := c_LocalRuleList c; c_LastReportOnline := ∅; c_version := c_version c;
     c_eTags := c_eTags c; c_expiredWarned := c_expiredWarned c |}.

Fixpoint parse_users (c : APIClient) (users : list UserResponse) : list UserInfo :=
  match users with
  | [] => []
  | user :: users =>
      match user_device_limit c user with
      | Some deviceLimit => user_info c user deviceLimit :: parse_users c users
      | None => parse_users c users
      end
  end.

(** The deferred closure clears LastReportOnline on the way out. *)
Definition ParseUserListResponse (c : APIClient) (users : list UserResponse)
    : APIClient * result (list UserInfo) :=
  (clear_online c, Ok (parse_users c users)).
End parse.

(** ** Facts *)

Lemma index_some {A} (l : list A) i x : l !! i = Some x → index l i = Ok x.
Proof. unfold index. by intros ->. Qed.
Lemma index_lt {A} (l : list A) i : (i < length l)%nat → ∃ x, index l i = Ok x.
Proof. intros [x Hx]%lookup_lt_is_Some. exists x. by apply index_some. Qed.
Lemma index_Split_0 sep s : ∃ w, index (Split sep s) 0 = Ok w.
Proof. destruct (Split_cons sep s) as (w & ws & ->). by exists w. Qed.

Lemma ParseInt_no_panic s bits : is_panic (ParseInt s bits) = false.
Proof.
  unfold ParseInt. destruct (match s with String "-" t => (true, t) | String "+" t => (false, t) | _ => (false, s) end) as [neg body].
  destruct (parse_digits body), neg; repeat case_bool_decide; done.
Qed.
Lemma ParseUint_no_panic s bits : is_panic (ParseUint s bits) = false.
Proof. unfold ParseUint. destruct (parse_digits s); [case_bool_decide|]; done. Qed.

Lemma bind_no_panic {A B} (r : result A) (f : A → result B) :
  is_panic r = false → (∀ a, r = Ok a → is_panic (f a) = false) → is_panic (r ≫= f) = false.
Proof. destruct r; cbn; auto. Qed.

Section facts.
Context `{UnicodeTables, FloatConv, PanelJson}.

Lemma v2ray_item_no_panic x item : is_panic (v2ray_item x item) = false.
Proof.
  unfold v2ray_item. destruct (index_Split_0 "=" item) as [k ->]. cbn.
  repeat case_bool_decide; try done;
    (destruct (index_lt (Split "=" item) 1) as [v ->]; [lia|]); try done.
  cbn. pose proof (ParseUint_no_panic (TrimSpace v) 32). by destruct (ParseUint _ _).
Qed.

Lemma v2ray_items_no_panic items x : is_panic (v2ray_items x items) = false.
Proof.
  revert x. induction items as [|i items IH]; intros x; cbn; [done|].
  apply bind_no_panic; [apply v2ray_item_no_panic|auto].
Qed.

(** Reading an address of the documented form. *)
Definition render_address (domain : string) (port : Z) (path host : string) : string :=
  domain +:+ String ";" (Itoa port +:+ String ";" ("0" +:+ String ";" ("ws" +:+ String ";"
    ("" +:+ String ";" (("path=" +:+ path) +:+ String "|" ("host=" +:+ host)))))).

Lemma lacks_app sep a b : lacks sep (a +:+ b) = lacks sep a && lacks sep b.
Proof. apply all_chars_app. Qed.

Lemma v2ray_item_path x path :
  all_chars is_plain path = true →
  v2ray_item x ("path=" +:+ path)
  = Ok (Build_V2rayExtra path (vx_host x) (vx_serviceName x) (vx_headerType x)
          (vx_relayServer x) (vx_relayPort x)).
Proof.
  intros Hp. unfold v2ray_item.
  assert (Split "=" ("path=" +:+ path) = "path" :: Split "=" path) as ->
    by (apply (Split_app "=" "path" path); done).
  destruct (Split_cons "=" path) as (w & ws & E). rewrite E. cbn -[Join].
  rewrite (TrimSpace_plain "path"), (ToLower_plain "path") by done.
  rewrite <- E, Join_Split, TrimSpace_plain by done. done.
Qed.

Lemma v2ray_item_host x host :
  all_chars is_plain host = true → lacks "=" host = true →
  v2ray_item x ("host=" +:+ host)
  = Ok (Build_V2rayExtra (vx_path x) host (vx_serviceName x) (vx_headerType x)
          (vx_relayServer x) (vx_relayPort x)).
Proof.
  intros Hp Hl. unfold v2ray_item.
  assert (Split "=" ("host=" +:+ host) = ["host"; host]) as ->.
  { rewrite <- (Split_lacks "=" host) by done. apply (Split_app "=" "host" host); done. }
  cbn. rewrite (TrimSpace_plain "host"), (ToLower_plain "host"), TrimSpace_plain by done. done.
Qed.

Lemma Split_address domain port path host :
  lacks ";" domain = true → 0 ≤ port → lacks ";" path = true → lacks ";" host = true →
  Split ";" (render_address domain port path host)
  = [domain; Itoa port; "0"; "ws"; ""; ("path=" +:+ path) +:+ String "|" ("host=" +:+ host)].
Proof.
  intros Hd Hp Hpa Hh. unfold render_address.
  rewrite Split_app by done. rewrite Split_app by (by apply Itoa_lacks).
  rewrite !Split_app by done. rewrite Split_lacks; [done|].
  change (String "|" ("host=" +:+ host)) with ("|host=" +:+ host).
  by rewrite !lacks_app, Hpa, Hh.
Qed.

(** The documented node address [domain;port;0;ws;;path=P|host=H] is
    read back: port, path and host are exactly the ones written, and the path
    alone picks protocol and transport. *)
Theorem ParseV2ray_roundtrip c r domain port path host :
  nr_RawServerString r = render_address domain port path host →
  lacks ";" domain = true → domain ≠ "" → 0 ≤ port < 2 ^ 31 →
  all_chars is_plain path = true → lacks ";" path = true → lacks "|" path = true →
  all_chars is_plain host = true → lacks ";" host = true → lacks "|" host = true →
  lacks "=" host = true →
  ∃ ni, ParseV2rayNodeResponse c r = Ok ni
    ∧ ni_Port ni = port ∧ ni_Path ni = path ∧ ni_Host ni = host ∧ ni_EnableTLS ni = false
    ∧ (ni_NodeType ni, ni_TransportProtocol ni) = apply_alias (c_NodeType c) "ws" path
    ∧ ni_SpeedLimit ni = speed_limit (c_SpeedLimit c) (nr_SpeedLimit r).
Proof.
  intros Hr Hd Hne Hp Hpp Hps Hpb Hhp Hhs Hhb Hhe.
  unfold ParseV2rayNodeResponse. rewrite Hr.
  rewrite bool_decide_eq_false_2 by (unfold render_address; by destruct domain).
  rewrite Split_address by (done || lia).
  assert (v2ray_items V2rayExtra_zero (Split "|" (("path=" +:+ path) +:+ String "|" ("host=" +:+ host)))
          = Ok (Build_V2rayExtra path host "" "" "" 0)) as Hx.
  { rewrite Split_app, (Split_lacks "|" (_ +:+ host)) by (by rewrite lacks_app, ?Hpb, ?Hhb).
    cbn -[v2ray_item]. rewrite v2ray_item_path by done.
    cbn -[v2ray_item]. by rewrite v2ray_item_host. }
  set (f5 := ("path=" +:+ path) +:+ String "|" ("host=" +:+ host)) in *.
  rewrite bool_decide_eq_false_2 by (cbn; lia). unfold mbind, result_bind.
  change (index _ 1) with (Ok (Itoa port)). cbv beta iota. rewrite ParseInt_Itoa by lia.
  change (index _ 2) with (Ok "0"). cbv beta iota zeta. change (ParseInt "0" 16) with (Ok 0).
  change (slice_3_5 _) with (Ok ["ws"; ""]). cbv beta iota.
  change (foldl v2ray_field (false, "") ["ws"; ""]) with (false, "ws"). cbv beta iota.
  change (index _ 5) with (Ok f5). cbv beta iota. rewrite Hx. cbn [vx_path].
  destruct (apply_alias (c_NodeType c) "ws" path) as [nt tr] eqn:Ea.
  eexists; split; [reflexivity|]. cbn -[u32]. rewrite u32_small by lia. auto 10.
Qed.

(** Whatever address string the panel sends, the V2ray parser (the one
    every SingR node goes through) returns a node or an error; it never
    panics. *)
Theorem ParseV2ray_no_panic c r : is_panic (ParseV2rayNodeResponse c r) = false.
Proof.
  unfold ParseV2rayNodeResponse. case_bool_decide; [done|].
  case_bool_decide as Hl; [done|]. set (conf := Split ";" (nr_RawServerString r)) in *.
  destruct (index_lt conf 1) as [f1 ->]; [lia|]. destruct (index_lt conf 2) as [f2 E2]; [lia|].
  destruct (index_lt conf 5) as [f5 E5]; [lia|].
  apply bind_no_panic; [done|intros ? _].
  apply bind_no_panic; [apply ParseInt_no_panic|intros p _]. rewrite E2.
  apply bind_no_panic; [done|intros ? _].
  apply bind_no_panic; [apply ParseInt_no_panic|intros pa _].
  unfold slice_3_5. rewrite bool_decide_eq_true_2 by lia. cbn [mbind result_bind].
  destruct (foldl _ _ _) as [tls tr]. rewrite E5. cbn [mbind result_bind].
  apply bind_no_panic; [apply v2ray_items_no_panic|intros x _].
  by destruct (apply_alias _ _ _).
Qed.

Lemma strip_slash path name :
  lacks "/" name = true → (TrimPrefix path "/" = name ↔ path = String "/" name ∨ path = name).
Proof.
  intros Hn. unfold TrimPrefix. destruct path as [|a p]; cbn.
  - split; [naive_solver|]. intros [?|?]; [done|naive_solver].
  - case_bool_decide as Ha; [subst a|]; cbn.
    + split; [naive_solver|]. intros [[= ->]|<-]; [done|]. by vm_compute in Hn.
    + split; [naive_solver|]. intros [[= -> _]|?]; [done|naive_solver].
Qed.

(** The table of the documentation: on a ws node the path [/anytls],
    [/hy2] or [/naive], with or without the slash, selects anytls over tcp,
    hysteria2 over udp or naive over tcp, and every other (lower-case,
    unspaced) path keeps the configured node type and transport. *)
Theorem apply_alias_table nodeType path :
  all_chars is_plain path = true →
  apply_alias nodeType "ws" path =
    if bool_decide (path = "/anytls" ∨ path = "anytls") then ("anytls", "tcp")
    else if bool_decide (path = "/hy2" ∨ path = "hy2") then ("hysteria2", "udp")
    else if bool_decide (path = "/naive" ∨ path = "naive") then ("naive", "tcp")
    else (nodeType, "ws").
Proof.
  intros Hp. unfold apply_alias, isAnyTLSAlias, isHysteria2Alias, isNaiveAlias.
  assert (EqualFold (TrimSpace "ws") "ws" = true) as -> by done. cbn [andb].
  unfold normalizeAnyTLSPath. rewrite TrimSpace_plain, ToLower_plain by done.
  rewrite (bool_decide_ext _ _ (strip_slash path "anytls" eq_refl)).
  rewrite (bool_decide_ext _ _ (strip_slash path "hy2" eq_refl)).
  rewrite (bool_decide_ext _ _ (strip_slash path "naive" eq_refl)). done.
Qed.

Lemma trojan_items_flag st items item :
  item ∈ items → item ≠ "" → lacks "=" item = true →
  is_panic (trojan_items st items) = true.
Proof.
  intros Hin Hne Hl. revert st. induction Hin as [x l|x item' l Hin IH]; intros [t s]; cbn [trojan_items trojan_item].
  - rewrite Split_lacks by done. cbn. by rewrite bool_decide_eq_false_2.
  - destruct (index_Split_0 "=" item') as [k ->]. cbn -[index].
    case_bool_decide; [by apply IH|].
    destruct (index (Split "=" item') 1) as [v|e|w] eqn:E; cbn; [|by unfold index in E; case_match|done].
    repeat case_bool_decide; by apply IH.
Qed.

(** The Trojan parser panics on every address that carries a bare flag:
    an item of the second field without an equals sign, such as the [grpc]
    its own switch looks for. *)
Theorem ParseTrojan_flag_panics c r f0 f1 rest item port :
  nr_RawServerString r ≠ "" →
  Split ";" (nr_RawServerString r) = f0 :: f1 :: rest →
  ParseInt (match find_submatch secondPortRe (nr_RawServerString r) with
            | Some p => p | None => default "" (find_submatch firstPortRe (nr_RawServerString r)) end) 32 = Ok port →
  item ∈ Split "|" f1 → item ≠ "" → lacks "=" item = true →
  is_panic (ParseTrojanNodeResponse c r) = true.
Proof.
  intros Hne Hs Hp Hin Hi Hl. unfold ParseTrojanNodeResponse.
  rewrite bool_decide_eq_false_2 by done.
  assert (∀ p, find_submatch secondPortRe (nr_RawServerString r) = Some p → p ≠ "") as Hsec.
  { generalize (nr_RawServerString r). intros s. induction s as [|ch s IH]; intros p; cbn [find_submatch].
    - done.
    - destruct (secondPortRe (String ch s)) as [q|] eqn:E; [|apply IH]. intros [= ->].
      unfold secondPortRe in E. repeat (apply bind_Some in E as (? & ? & E)).
      unfold nonempty in E. by case_match; simplify_eq. }
  destruct (find_submatch secondPortRe _) as [p|]; cbn [from_option id] in *.
  - rewrite bool_decide_eq_false_2 by (by apply Hsec). rewrite Hp, Hs. cbn.
    pose proof (trojan_items_flag ("tcp", "") _ _ Hin Hi Hl). by destruct (trojan_items _ _).
  - rewrite bool_decide_eq_true_2 by done. rewrite Hp, Hs. cbn.
    pose proof (trojan_items_flag ("tcp", "") _ _ Hin Hi Hl). by destruct (trojan_items _ _).
Qed.

(** The configured device limit of a user, before alive devices count. *)
Definition configured_limit (c : APIClient) (u : UserResponse) : Z :=
  if bool_decide (0 < c_DeviceLimit c) then c_DeviceLimit c
  else if bool_decide (ur_DeviceLimit u = 0) then ur_NodeConnector u else ur_DeviceLimit u.
Definition last_online (c : APIClient) (u : UserResponse) : Z :=
  default 0 (c_LastReportOnline c !! ur_ID u).

Lemma user_device_limit_spec c u :
  in_i64 (configured_limit c u - ur_AliveIP u + last_online c u) →
  match user_device_limit c u with
  | Some lim =>
      if bool_decide (0 < configured_limit c u ∧ 0 < ur_AliveIP u)
      then 0 < lim ∧ (lim + (ur_AliveIP u - last_online c u) = configured_limit c u
                      ∨ lim = last_online c u)
      else lim = configured_limit c u
  | None => configured_limit c u ≤ ur_AliveIP u - last_online c u ∧ last_online c u ≤ 0
  end.
Proof.
  intros Hr. unfold user_device_limit. fold (configured_limit c u) (last_online c u).
  rewrite i64_small by done.
  repeat case_bool_decide; cbn; destruct_and?; try (by exfalso; tauto); try done; lia.
Qed.

(** Sharing a user's devices between nodes: the users keep the panel's
    order; with a positive limit and devices online elsewhere, the local
    limit of a kept user is positive and, unless it is the number this node
    itself reported last, local limit plus the devices seen elsewhere is
    exactly the configured limit; a user is left out only when no device is
    left and this node reported none.  The report counters are cleared. *)
Theorem ParseUserList_devices c users c' us :
  ParseUserListResponse c users = (c', Ok us) →
  (∀ u, u ∈ users → in_i64 (configured_limit c u - ur_AliveIP u + last_online c u)) →
  c_LastReportOnline c' = ∅
  ∧ (ui_UID <$> us) `sublist_of` (ur_ID <$> users)
  ∧ (∀ i, i ∈ us → ∃ u, u ∈ users ∧ i = user_info c u (ui_DeviceLimit i)
      ∧ if bool_decide (0 < configured_limit c u ∧ 0 < ur_AliveIP u)
        then 0 < ui_DeviceLimit i
           ∧ (ui_DeviceLimit i + (ur_AliveIP u - last_online c u) = configured_limit c u
              ∨ ui_DeviceLimit i = last_online c u)
        else ui_DeviceLimit i = configured_limit c u)
  ∧ (∀ u, u ∈ users → (∀ l, user_info c u l ∉ us) →
      configured_limit c u ≤ ur_AliveIP u - last_online c u ∧ last_online c u ≤ 0).
Proof.
  unfold ParseUserListResponse. intros [= <- <-] Hr. split; [done|].
  induction users as [|u users IH].
  { cbn. split; [done|]. split; intros i Hi; by apply elem_of_nil in Hi. }
  destruct IH as (IHs & IHk & IHd); [intros; apply Hr; by right|].
  pose proof (user_device_limit_spec c u (Hr u ltac:(left))) as Hu.
  cbn [parse_users]. destruct (user_device_limit c u) as [lim|].
  - cbn. split; [by apply sublist_skip|]. split.
    + intros i [->|Hi]%elem_of_cons.
      * exists u. split; [left|]. split; [done|]. cbn. done.
      * destruct (IHk i Hi) as (v & Hv & ?). exists v. split; [by right|done].
    + intros v [->|Hv]%elem_of_cons Hno.
      * exfalso. apply (Hno lim). left.
      * apply IHd; [done|]. intros l Hin. apply (Hno l). by right.
  - cbn. split; [by apply sublist_cons|]. split.
    + intros i Hi. destruct (IHk i Hi) as (v & Hv & ?). exists v. split; [by right|done].
    + intros v [->|Hv]%elem_of_cons Hno; [done|]. by apply IHd.
Qed.
End facts.

(** ** Concrete inputs *)

#[export] Instance json_reject : PanelJson | 100 :=
  {| unmarshal_node _ := Err (EStd "json"); unmarshal_users _ := Err (EStd "json");
     unmarshal_rules _ := Err (EStd "json"); unmarshal_custom _ := Err (EStd "json");
     marshal_header t := t |}.

Definition client0 : APIClient :=
  {| c_APIHost := "https://panel.example.com"; c_NodeID := 44; c_Key := "key"; c_NodeType := "V2ray";
     c_EnableVless := false; c_VlessFlow := ""; c_SpeedLimit := float64_of_Z 0; c_DeviceLimit := 0;
     c_DisableCustomConfig := true; c_LocalRuleList := []; c_LastReportOnline := {[ 7 := 1 ]};
     c_version := ""; c_eTags := ∅; c_expiredWarned := false |}.

Definition node_response (raw : string) : NodeInfoResponse :=
  {| nr_Group := 0; nr_Class := 0; nr_SpeedLimit := float64_of_Z 100; nr_TrafficRate := float64_of_Z 1;
     nr_Sort := 11; nr_RawServerString := raw; nr_Type := ""; nr_CustomConfig := ""; nr_Version := "2021.5" |}.

Definition user_response (id alive : Z) : UserResponse :=
  {| ur_ID := id; ur_Email := ""; ur_Passwd := "p"; ur_Port := 0; ur_Method := "";
     ur_SpeedLimit := float64_of_Z 8; ur_DeviceLimit := 3; ur_NodeConnector := 0; ur_UUID := "uuid";
     ur_AliveIP := alive |}.

Definition address0 : NodeInfoResponse :=
  node_response "sa.example.com;14555;0;ws;;path=/anytls|host=example.com".

Lemma ParseV2ray_roundtrip_witness :
  ∃ ni, ParseV2rayNodeResponse client0 address0 = Ok ni
      ∧ ni_Port ni = 14555 ∧ ni_Path ni = "/anytls" ∧ ni_Host ni = "example.com" ∧ ni_EnableTLS ni = false
      ∧ (ni_NodeType ni, ni_TransportProtocol ni) = apply_alias (c_NodeType client0) "ws" "/anytls"
      ∧ ni_SpeedLimit ni = speed_limit (c_SpeedLimit client0) (nr_SpeedLimit address0).
Proof.
  apply (ParseV2ray_roundtrip client0 address0 "sa.example.com" 14555 "/anytls" "example.com");
    try (vm_compute; reflexivity); [discriminate|lia].
Defined.

Lemma apply_alias_table_witness : apply_alias "V2ray" "ws" "hy2" = ("hysteria2", "udp").
Proof. rewrite (apply_alias_table "V2ray" "hy2"); vm_compute; reflexivity. Defined.

Lemma ParseTrojan_flag_panics_witness :
  is_panic (ParseTrojanNodeResponse client0 (node_response "gz.aaa.com;port=443#12345|host=hk.aaa.com|grpc")) = true.
Proof.
  apply (ParseTrojan_flag_panics client0 _ "gz.aaa.com" "port=443#12345|host=hk.aaa.com|grpc" [] "grpc" 12345);
    try (vm_compute; reflexivity); [discriminate| |discriminate].
  replace (Split "|" _) with ["port=443#12345"; "host=hk.aaa.com"; "grpc"] by (vm_compute; reflexivity).
  do 2 right; left.
Defined.

Lemma ParseUserList_devices_witness :
  ∃ c' us, ParseUserListResponse client0 [user_response 7 3; user_response 8 3; user_response 9 0] = (c', Ok us)
    ∧ (ui_UID <$> us) = [7; 9] ∧ (ui_DeviceLimit <$> us) = [1; 3] ∧ c_LastReportOnline c' = ∅.
Proof.
  eexists _, _; split; [reflexivity|]. split; [vm_compute; reflexivity|]. split; [vm_compute; reflexivity|].
  eapply (ParseUserList_devices client0 [user_response 7 3; user_response 8 3; user_response 9 0]);
    [reflexivity|].
  intros u Hu. repeat (apply elem_of_cons in Hu as [->|Hu]; [split; vm_compute; congruence|]).
  by apply elem_of_nil in Hu.
Defined.
