(* ===== verification/SspanelClient.v ===== *)
(** * poet/api/sspanel: the panel client

    The client's HTTP calls.  resty and the network are outside: a call is
    given, for each request it makes, the outcome resty hands back ([net]).
    The model keeps what the source does around it: the query and the
    [If-None-Match] header it sends, the 304 sentinel errors, the checks of
    [parseResponse], and when an ETag is remembered. *)

From S2P Require Import Prelude GoStrings Float64 Api Version SspanelParse.

Open Scope Z_scope.

(** ** Requests and outcomes *)

Inductive post_body :=
  | BodyLoad (l : SystemLoad)
  | BodyOnline (l : list OnlineUser)
  | BodyTraffic (l : list (Z * Z * Z))      (* user_id, u, d *)
  | BodyIllegal (l : list IllegalItem).

Inductive request :=
  | Get (path : string) (params : list (string * string)) (if_none_match : option string)
  | Post (path : string) (params : list (string * string)) (body : post_body).

Inductive http_error := DeadlineExceeded | NetTimeout | NetOther (what : string).

Record http_response := { hr_StatusCode : Z; hr_ETag : string; hr_Result : Response }.

Inductive http_outcome :=
  | HttpErr (e : http_error)
  | HttpNil                       (* err == nil && res == nil *)
  | HttpRes (r : http_response).

Abbreviation network := (request → http_outcome).

(** The retry condition [New] installs: only connection-level failures, never
    a timeout and never an HTTP answer, since the panel may have counted it. *)
Definition retryCondition (o : http_outcome) : bool :=
  match o with
  | HttpErr DeadlineExceeded => false
  | HttpErr NetTimeout => false
  | HttpErr (NetOther _) => true
  | HttpNil | HttpRes _ => false
  end.

Definition readLocalRuleList (path : string) : list DetectRule := [].

(** New: the timeout in seconds and the client. *)
Definition New (cfg : ApiConfig) : Z * APIClient :=
  ((if bool_decide (0 < cfg_Timeout cfg) then cfg_Timeout cfg else 20),
   {| c_APIHost := cfg_APIHost cfg; c_NodeID := cfg_NodeID cfg; c_Key := cfg_Key cfg;
      c_NodeType := cfg_NodeType cfg; c_EnableVless := cfg_EnableVless cfg;
      c_VlessFlow := cfg_VlessFlow cfg; c_SpeedLimit := cfg_SpeedLimit cfg;
      c_DeviceLimit := cfg_DeviceLimit cfg; c_DisableCustomConfig := cfg_DisableCustomConfig cfg;
      c_LocalRuleList := readLocalRuleList (cfg_RuleListPath cfg);
      c_LastReportOnline := ∅; c_version := ""; c_eTags := ∅; c_expiredWarned := false |}).

Definition assembleURL (c : APIClient) (path : string) : string := c_APIHost c +:+ path.

Definition parseResponse (c : APIClient) (o : http_outcome) (path : string) : result Response :=
  match o with
  | HttpErr _ => Err (EFmt "request %s failed: %s" [assembleURL c path])
  | HttpNil => Err (EFmt "request %s failed: empty response" [assembleURL c path])
  | HttpRes r =>
      if bool_decide (400 < hr_StatusCode r) then Err (EFmt "request %s failed: %s, %v" [assembleURL c path])
      else if bool_decide (rs_Ret (hr_Result r) ≠ 1) then Err (EFmt "ret %s invalid" [])
      else Ok (hr_Result r)
  end.

Definition is_304 (o : http_outcome) : bool :=
  match o with HttpRes r => bool_decide (hr_StatusCode r = 304) | _ => false end.
Definition response_etag (o : http_outcome) : string :=
  match o with HttpRes r => hr_ETag r | _ => "" end.

(** ** Client state updates *)

Definition set_etag (c : APIClient) (key etag : string) : APIClient :=
  if bool_decide (etag = "") then c else
  {| c_APIHost := c_APIHost c; c_NodeID := c_NodeID c; c_Key := c_Key c; c_NodeType := c_NodeType c;
     c_EnableVless := c_EnableVless c; c_VlessFlow := c_VlessFlow c; c_SpeedLimit := c_SpeedLimit c;
     c_DeviceLimit := c_DeviceLimit c; c_DisableCustomConfig := c_DisableCustomConfig c;
     c_LocalRuleList := c_LocalRuleList c; c_LastReportOnline := c_LastReportOnline c;
     c_version := c_version c; c_eTags := <[key := etag]> (c_eTags c);
     c_expiredWarned := c_expiredWarned c |}.

Definition set_version (c : APIClient) (version : string) (warned : bool) : APIClient :=
  {| c_APIHost := c_APIHost c; c_NodeID := c_NodeID c; c_Key := c_Key c; c_NodeType := c_NodeType c;
     c_EnableVless := c_EnableVless c; c_VlessFlow := c_VlessFlow c; c_SpeedLimit := c_SpeedLimit c;
     c_DeviceLimit := c_DeviceLimit c; c_DisableCustomConfig := c_DisableCustomConfig c;
     c_LocalRuleList := c_LocalRuleList c; c_LastReportOnline := c_LastReportOnline c;
     c_version := version; c_eTags := c_eTags c; c_expiredWarned := warned |}.

Definition set_online (c : APIClient) (m : gmap Z Z) : APIClient :=
  {| c_APIHost := c_APIHost c; c_NodeID := c_NodeID c; c_Key := c_Key c; c_NodeType := c_NodeType c;
     c_EnableVless := c_EnableVless c; c_VlessFlow := c_VlessFlow c; c_SpeedLimit := c_SpeedLimit c;
     c_DeviceLimit := c_DeviceLimit c; c_DisableCustomConfig := c_DisableCustomConfig c;
     c_LocalRuleList := c_LocalRuleList c; c_LastReportOnline := m;
     c_version := c_version c; c_eTags := c_eTags c; c_expiredWarned := c_expiredWarned c |}.

Definition node_id_param (c : APIClient) : list (string * string) := [("node_id", Itoa (c_NodeID c))].
Definition node_path (c : APIClient) : string := "/mod_mu/nodes/" +:+ Itoa (c_NodeID c) +:+ "/info".
Definition etag_header (c : APIClient) (key : string) : option string :=
  Some (default "" (c_eTags c !! key)).

Section client.
Context `{UnicodeTables, FloatConv, PanelJson, Regexp}.

(** *** GetNodeInfo *)

(** The old Shadowsocks dialect asks for the user list and then ignores it. *)
Definition ParseSSNodeResponse (c : APIClient) (net : network) (r : NodeInfoResponse) : result NodeInfo :=
  let path := "/mod_mu/users" in
  response ← parseResponse c (net (Get path (node_id_param c) None)) path;
  match unmarshal_users (rs_Data response) with
  | Panic w => Panic w
  | Err e => Err (EWrap "unmarshal %s failed: %s" e)
  | Ok _ =>
      let speedLimit := speed_limit (c_SpeedLimit c) (nr_SpeedLimit r) in
      Ok (legacy_node c 0 speedLimit "tcp" false "" "" "")
  end.

Definition parse_node (c : APIClient) (net : network) (isExpired : bool) (r : NodeInfoResponse)
    : result NodeInfo :=
  if c_DisableCustomConfig c || isExpired then
    let t := normalizeNodeType (c_NodeType c) in
    let wrapped :=
      if bool_decide (t = "v2ray") || bool_decide (t = "vmess") then Some (ParseV2rayNodeResponse c r)
      else if bool_decide (t = "trojan") then Some (ParseTrojanNodeResponse c r)
      else if bool_decide (t = "shadowsocks") then Some (ParseSSNodeResponse c net r)
      else if bool_decide (t = "shadowsocks-plugin") then Some (ParseSSPluginNodeResponse c r)
      else None in
    match wrapped with
    | None => Err (EFmt "unsupported Node type: %s" [c_NodeType c])
    | Some (Err e) => Err (EWrap "parse node info failed: %s, Error: %s" e)
    | Some r => r
    end
  else
    match ParseSSPanelNodeInfo c r with
    | Err e => Err (EWrap "parse node info failed: %s, Error: %s, Please check the doc of custom_config" e)
    | r => r
    end.

Definition GetNodeInfo (c : APIClient) (net : network) : APIClient * result NodeInfo :=
  let path := node_path c in
  let o := net (Get path [] (etag_header c "node")) in
  if is_304 o then (c, Err (ENew NodeNotModified))
  else
    match parseResponse c o path with
    | Err e => (c, Err e)
    | Panic w => (c, Panic w)
    | Ok response =>
        match unmarshal_node (rs_Data response) with
        | Err e => (c, Err (EWrap "unmarshal %s failed: %s" e))
        | Panic w => (c, Panic w)
        | Ok r =>
            let isExpired := bool_decide (compareVersion (nr_Version r) "2021.11" = -1) in
            let warned := c_expiredWarned c || isExpired in
            let c1 := set_version c (nr_Version r) warned in
            match parse_node c1 net isExpired r with
            | Ok ni => (set_etag c1 "node" (response_etag o), Ok ni)
            | Err e => (c1, Err e)
            | Panic w => (c1, Panic w)
            end
        end
    end.

(** *** GetUserList *)

Definition GetUserList (c : APIClient) (net : network) : APIClient * result (list UserInfo) :=
  let path := "/mod_mu/users" in
  let o := net (Get path (node_id_param c) (etag_header c "users")) in
  if is_304 o then (c, Err (ENew UserNotModified))
  else
    match parseResponse c o path with
    | Err e => (c, Err e)
    | Panic w => (c, Panic w)
    | Ok response =>
        match unmarshal_users (rs_Data response) with
        | Err e => (c, Err (EWrap "unmarshal %s failed: %s" e))
        | Panic w => (c, Panic w)
        | Ok us =>
            match ParseUserListResponse c us with
            | (c1, Ok userList) => (set_etag c1 "users" (response_etag o), Ok userList)
            | (c1, Err e) => (c1, Err (EFmt "parse user list failed: %s" []))
            | (c1, Panic w) => (c1, Panic w)
            end
        end
    end.

(** *** GetNodeRule *)

Fixpoint compile_rules (acc : list DetectRule) (rules : list RuleItem) : result (list DetectRule) :=
  match rules with
  | [] => Ok acc
  | r :: rules =>
      if regexp_ok (ri_Content r)
      then compile_rules (acc ++ [{| dr_ID := ri_ID r; dr_Pattern := Some (ri_Content r) |}]) rules
      else Err (EWrap "compile detect rule %d failed: %w" (EStd "regexp"))
  end.

Definition GetNodeRule (c : APIClient) (net : network) : APIClient * result (list DetectRule) :=
  let path := "/mod_mu/func/detect_rules" in
  let o := net (Get path [] (etag_header c "rules")) in
  if is_304 o then (c, Err (ENew RuleNotModified))
  else
    match parseResponse c o path with
    | Err e => (c, Err e)
    | Panic w => (c, Panic w)
    | Ok response =>
        match unmarshal_rules (rs_Data response) with
        | Err e => (c, Err (EWrap "unmarshal %s failed: %s" e))
        | Panic w => (c, Panic w)
        | Ok items =>
            match compile_rules (c_LocalRuleList c) items with
            | Ok rules => (set_etag c "rules" (response_etag o), Ok rules)
            | Err e => (c, Err e)
            | Panic w => (c, Panic w)
            end
        end
    end.

(** *** Reports *)

Definition discard (r : result Response) : result unit :=
  match r with Ok _ => Ok tt | Err e => Err e | Panic w => Panic w end.

(** The [%.2f] rendering of the load numbers is left to package fmt. *)
Context (fmt_load : NodeStatus → string).

Definition ReportNodeStatus (c : APIClient) (net : network) (s : NodeStatus) : APIClient * result unit :=
  if bool_decide (compareVersion (c_version c) "2023.2" = -1) then
    let path := node_path c in
    let body := BodyLoad {| sl_Uptime := Itoa (ns_Uptime s); sl_Load := fmt_load s |} in
    (c, discard (parseResponse c (net (Post path [] body)) path))
  else (c, Ok tt).

Definition count_online (m : gmap Z Z) (u : OnlineUser) : gmap Z Z :=
  match m !! ou_UID u with
  | Some v => <[ou_UID u := v + 1]> m
  | None => <[ou_UID u := 1]> m
  end.

Definition ReportNodeOnlineUsers (c : APIClient) (net : network) (l : list OnlineUser)
    : APIClient * result unit :=
  let c1 := set_online c (foldl count_online ∅ l) in
  let path := "/mod_mu/users/aliveip" in
  (c1, discard (parseResponse c1 (net (Post path (node_id_param c1) (BodyOnline l))) path)).

Definition traffic_body (l : list UserTraffic) : post_body :=
  BodyTraffic ((λ t, (ut_UID t, ut_Upload t, ut_Download t)) <$> l).

Definition ReportUserTraffic (c : APIClient) (net : network) (l : list UserTraffic)
    : APIClient * result unit :=
  let path := "/mod_mu/users/traffic" in
  (c, discard (parseResponse c (net (Post path (node_id_param c) (traffic_body l))) path)).

Definition ReportIllegal (c : APIClient) (net : network) (l : list DetectResult)
    : APIClient * result unit :=
  let path := "/mod_mu/users/detectlog" in
  let body := BodyIllegal ((λ r, {| il_ID := de_RuleID r; il_UID := de_UID r |}) <$> l) in
  (c, discard (parseResponse c (net (Post path (node_id_param c) body)) path)).

Definition Describe (c : APIClient) : ClientInfo :=
  {| ci_APIHost := c_APIHost c; ci_NodeID := c_NodeID c; ci_Key := c_Key c; ci_NodeType := c_NodeType c |}.

(** The client implements the [API] interface. *)
#[export] Instance sspanel_api : PanelAPI APIClient network :=
  {| Api.GetNodeInfo := GetNodeInfo; Api.GetUserList := GetUserList;
     Api.ReportNodeStatus := ReportNodeStatus; Api.ReportNodeOnlineUsers := ReportNodeOnlineUsers;
     Api.ReportUserTraffic := ReportUserTraffic; Api.Describe := Describe;
     Api.GetNodeRule := GetNodeRule; Api.ReportIllegal := ReportIllegal |}.
End client.

(** ** Facts *)

Section facts.
Context `{UnicodeTables, FloatConv, PanelJson, Regexp}.

Definition commit_etag {A} (key etag : string) (r : result A) (m : gmap string string) : gmap string string :=
  match r with Ok _ => if bool_decide (etag = "") then m else <[key := etag]> m | _ => m end.

Lemma set_etag_eTags c key etag :
  c_eTags (set_etag c key etag) = if bool_decide (etag = "") then c_eTags c else <[key := etag]> (c_eTags c).
Proof. unfold set_etag. by case_bool_decide. Qed.

(** An ETag is remembered exactly when the answer it came with was
    accepted: node, user and rule requests that fail in any way (transport,
    status, ret, JSON, parse, regexp) or answer 304 leave the ETags alone, so
    the next request asks again for the same version. *)
Theorem etags_committed c net :
  (let '(c', r) := GetNodeInfo c net in
   c_eTags c' = commit_etag "node"
     (response_etag (net (Get (node_path c) [] (etag_header c "node")))) r (c_eTags c))
  ∧ (let '(c', r) := GetUserList c net in
   c_eTags c' = commit_etag "users"
     (response_etag (net (Get "/mod_mu/users" (node_id_param c) (etag_header c "users")))) r (c_eTags c))
  ∧ (let '(c', r) := GetNodeRule c net in
   c_eTags c' = commit_etag "rules"
     (response_etag (net (Get "/mod_mu/func/detect_rules" [] (etag_header c "rules")))) r (c_eTags c)).
Proof.
  split; [|split].
  - unfold GetNodeInfo. set (o := net _). destruct (is_304 o); [done|].
    destruct (parseResponse _ _ _); [|done..]. destruct (unmarshal_node _); [|done..].
    destruct (parse_node _ _ _ _); [|done..]. by rewrite set_etag_eTags.
  - unfold GetUserList. set (o := net _). destruct (is_304 o); [done|].
    destruct (parseResponse _ _ _); [|done..]. destruct (unmarshal_users _); [|done..].
    cbn. by rewrite set_etag_eTags.
  - unfold GetNodeRule. set (o := net _). destruct (is_304 o); [done|].
    destruct (parseResponse _ _ _); [|done..]. destruct (unmarshal_rules _); [|done..].
    destruct (compile_rules _ _); [|done..]. by rewrite set_etag_eTags.
Qed.

Definition reports_of (uid : Z) (l : list OnlineUser) : Z :=
  Z.of_nat (length (filter (λ u, ou_UID u = uid) l)).

Lemma count_online_spec l m uid :
  default 0 (foldl count_online m l !! uid) = default 0 (m !! uid) + reports_of uid l.
Proof.
  revert m. induction l as [|u l IH]; intros m; cbn [foldl]; [unfold reports_of; cbn; lia|].
  rewrite IH. unfold reports_of. rewrite filter_cons. unfold count_online.
  destruct (decide (ou_UID u = uid)) as [<-|Hne].
  - destruct (m !! ou_UID u) eqn:E; rewrite lookup_insert_eq; cbn; lia.
  - destruct (m !! ou_UID u) eqn:E; rewrite lookup_insert_ne by done; lia.
Qed.

(** The devices this node reports are the ones the next user list credits
    back: after ReportNodeOnlineUsers the count kept for a user is the number
    of addresses reported for it, whether or not the panel accepted the
    report, and the following accepted user list clears it. *)
Theorem online_reports_credited c net net' l c' us :
  GetUserList (fst (ReportNodeOnlineUsers c net l)) net' = (c', Ok us) →
  (∀ u, last_online (fst (ReportNodeOnlineUsers c net l)) u = reports_of (ur_ID u) l)
  ∧ (∀ u, last_online c' u = 0).
Proof.
  intros HG. split.
  - intros u. unfold last_online. cbn. rewrite count_online_spec. rewrite lookup_empty. cbn. lia.
  - unfold GetUserList in HG. set (o := net' _) in HG. destruct (is_304 o); [done|].
    destruct (parseResponse _ _ _); [|done..]. destruct (unmarshal_users _); [|done..].
    cbn in HG. injection HG as <- _. intros u.
    unfold last_online, set_etag. case_bool_decide; done.
Qed.

(** A node of the old Shadowsocks dialect never gets a port: whatever
    the panel answers, the parsed node has port 0 (which the controller
    refuses to start). *)
Theorem ParseSSNode_no_port c net r ni :
  ParseSSNodeResponse c net r = Ok ni → ni_Port ni = 0 ∧ ni_CypherMethod ni = "".
Proof.
  unfold ParseSSNodeResponse. intros (resp & _ & Hn)%result_bind_Ok.
  destruct (unmarshal_users _); simplify_eq. done.
Qed.
End facts.

(** ** Concrete inputs *)

#[export] Instance json_users : PanelJson | 90 :=
  {| unmarshal_node _ := Ok address0; unmarshal_users _ := Ok [user_response 7 3];
     unmarshal_rules _ := Ok []; unmarshal_custom _ := Err (EStd "json"); marshal_header t := t |}.

Definition answer (etag : string) : http_outcome :=
  HttpRes {| hr_StatusCode := 200; hr_ETag := etag; hr_Result := {| rs_Ret := 1; rs_Data := "" |} |}.

Lemma online_reports_credited_witness :
  last_online (fst (ReportNodeOnlineUsers client0 (λ _, HttpNil)
    [{| ou_UID := 7; ou_IP := "1.1.1.1" |}; {| ou_UID := 7; ou_IP := "2.2.2.2" |}])) (user_response 7 0) = 2.
Proof.
  refine (proj1 (online_reports_credited client0 (λ _, HttpNil) (λ _, answer "e") _ _ _ _) (user_response 7 0)).
  reflexivity.
Defined.

Lemma ParseSSNode_no_port_witness :
  ∃ ni, ParseSSNodeResponse client0 (λ _, answer "") address0 = Ok ni ∧ ni_Port ni = 0.
Proof.
  eexists; split; [reflexivity|].
  apply (ParseSSNode_no_port client0 (λ _, answer "") address0). reflexivity.
Defined.
