(* ===== verification/Authenticator.v ===== *)
(** * poet/controller/user.go: users, their counters, and the authenticator

    A Go [*User] is shared: the authenticator's table, the connections that
    count bytes and the report loop all hold the pointer.  The model keeps the
    users in a store indexed by pointer, and the table maps a hash to a
    pointer, so a connection opened before a user is removed keeps counting
    into an object the table no longer reaches. *)

From S2P Require Import Prelude Float64 Api.

Open Scope Z_scope.

(** rate.Limiter of golang.org/x/time/rate: the two numbers SingR sets. *)
Record Limiter := { lim_Limit : float64; lim_Burst : Z }.

Record User := {
  u_sent : Z; u_recv : Z; u_lastSent : Z; u_lastRecv : Z; u_sendSpeed : Z; u_recvSpeed : Z;
  u_hash : string; u_UID : Z; u_Email : string; u_UUID : string; u_Passwd : string;
  u_ipTable : gset string; u_ipNum : Z; u_counterSeen : bool; u_maxIPNum : Z;
  u_limiter : option Limiter; u_cancelled : bool;
}.

(** &User{hash, UID, ctx, cancel}: everything else is the zero value. *)
Definition new_user (hash : string) (uid : Z) : User :=
  {| u_sent := 0; u_recv := 0; u_lastSent := 0; u_lastRecv := 0; u_sendSpeed := 0; u_recvSpeed := 0;
     u_hash := hash; u_UID := uid; u_Email := ""; u_UUID := ""; u_Passwd := "";
     u_ipTable := ∅; u_ipNum := 0; u_counterSeen := false; u_maxIPNum := 0;
     u_limiter := None; u_cancelled := false |}.

(** ** Field updates *)

Definition set_counters (u : User) (sent recv lastSent lastRecv : Z) : User :=
  {| u_sent := sent; u_recv := recv; u_lastSent := lastSent; u_lastRecv := lastRecv;
     u_sendSpeed := u_sendSpeed u; u_recvSpeed := u_recvSpeed u; u_hash := u_hash u; u_UID := u_UID u;
     u_Email := u_Email u; u_UUID := u_UUID u; u_Passwd := u_Passwd u; u_ipTable := u_ipTable u;
     u_ipNum := u_ipNum u; u_counterSeen := u_counterSeen u; u_maxIPNum := u_maxIPNum u;
     u_limiter := u_limiter u; u_cancelled := u_cancelled u |}.
Definition set_ips (u : User) (ips : gset string) (n : Z) : User :=
  {| u_sent := u_sent u; u_recv := u_recv u; u_lastSent := u_lastSent u; u_lastRecv := u_lastRecv u;
     u_sendSpeed := u_sendSpeed u; u_recvSpeed := u_recvSpeed u; u_hash := u_hash u; u_UID := u_UID u;
     u_Email := u_Email u; u_UUID := u_UUID u; u_Passwd := u_Passwd u; u_ipTable := ips;
     u_ipNum := n; u_counterSeen := u_counterSeen u; u_maxIPNum := u_maxIPNum u;
     u_limiter := u_limiter u; u_cancelled := u_cancelled u |}.
Definition set_limits (u : User) (maxIP : Z) (l : option Limiter) : User :=
  {| u_sent := u_sent u; u_recv := u_recv u; u_lastSent := u_lastSent u; u_lastRecv := u_lastRecv u;
     u_sendSpeed := u_sendSpeed u; u_recvSpeed := u_recvSpeed u; u_hash := u_hash u; u_UID := u_UID u;
     u_Email := u_Email u; u_UUID := u_UUID u; u_Passwd := u_Passwd u; u_ipTable := u_ipTable u;
     u_ipNum := u_ipNum u; u_counterSeen := u_counterSeen u; u_maxIPNum := maxIP;
     u_limiter := l; u_cancelled := u_cancelled u |}.
Definition set_profile (u : User) (email uuid passwd : string) : User :=
  {| u_sent := u_sent u; u_recv := u_recv u; u_lastSent := u_lastSent u; u_lastRecv := u_lastRecv u;
     u_sendSpeed := u_sendSpeed u; u_recvSpeed := u_recvSpeed u; u_hash := u_hash u; u_UID := u_UID u;
     u_Email := email; u_UUID := uuid; u_Passwd := passwd; u_ipTable := u_ipTable u;
     u_ipNum := u_ipNum u; u_counterSeen := u_counterSeen u; u_maxIPNum := u_maxIPNum u;
     u_limiter := u_limiter u; u_cancelled := u_cancelled u |}.
Definition set_flags (u : User) (seen cancelled : bool) : User :=
  {| u_sent := u_sent u; u_recv := u_recv u; u_lastSent := u_lastSent u; u_lastRecv := u_lastRecv u;
     u_sendSpeed := u_sendSpeed u; u_recvSpeed := u_recvSpeed u; u_hash := u_hash u; u_UID := u_UID u;
     u_Email := u_Email u; u_UUID := u_UUID u; u_Passwd := u_Passwd u; u_ipTable := u_ipTable u;
     u_ipNum := u_ipNum u; u_counterSeen := seen; u_maxIPNum := u_maxIPNum u;
     u_limiter := u_limiter u; u_cancelled := cancelled |}.

(** ** Methods of User *)

Definition AddIP (u : User) (ip : string) : User * bool :=
  if bool_decide (ip ∈ u_ipTable u) then (u, true)
  else if bool_decide (0 < u_maxIPNum u) && bool_decide (u_maxIPNum u < u_ipNum u + 1) then (u, false)
  else (set_ips u ({[ip]} ∪ u_ipTable u) (i32 (u_ipNum u + 1)), true).

Definition DelIP (u : User) (ip : string) : User * bool :=
  if bool_decide (ip ∉ u_ipTable u) then (u, false)
  else (set_ips u (u_ipTable u ∖ {[ip]}) (i32 (u_ipNum u - 1)), true).

Definition GetIPNumber (u : User) : Z := u_ipNum u.
Definition SetIPLimit (u : User) (n : Z) : User := set_limits u n (u_limiter u).
Definition GetIPLimit (u : User) : Z := u_maxIPNum u.

(** waitChunked: [wait] is the limiter's WaitN, which may depend on the calls
    made so far; the result carries the chunks that were requested. *)
Fixpoint wait_loop (fuel : nat) (wait : list Z → Z → option error) (burst n : Z) (done : list Z)
    : list Z * option error :=
  match fuel with
  | O => (done, None)
  | S fuel =>
      if bool_decide (0 < n) then
        let chunk := if bool_decide (burst < n) then burst else n in
        match wait done chunk with
        | Some e => (done ++ [chunk], Some e)
        | None => wait_loop fuel wait burst (n - chunk) (done ++ [chunk])
        end
      else (done, None)
  end.

Definition waitChunked (wait : list Z → Z → option error) (l : Limiter) (n : Z) : list Z * option error :=
  let burst := lim_Burst l in
  if bool_decide (burst ≤ 0) then ([], None)
  else wait_loop (Z.to_nat n) wait burst n [].

Definition WaitN (wait : list Z → Z → option error) (u : User) (n : Z) : list Z * option error :=
  if bool_decide (n ≤ 0) then ([], None)
  else match u_limiter u with
       | None => ([], None)
       | Some l => waitChunked wait l n
       end.

Definition SetSpeedLimit (u : User) (bytesPerSec : Z) : User :=
  set_limits u (u_maxIPNum u)
    (if bool_decide (bytesPerSec ≤ 0) then None
     else Some {| lim_Limit := float64_of_Z bytesPerSec; lim_Burst := bytesPerSec |}).

Definition GetSpeedLimit `{FloatConv} (u : User) : Z :=
  match u_limiter u with None => 0 | Some l => f2u64 (lim_Limit l) end.

Definition SetTraffic (u : User) (send recv : Z) : User :=
  set_counters u send recv (u_lastSent u) (u_lastRecv u).
Definition GetTraffic (u : User) : Z * Z := (u_sent u, u_recv u).

Definition ResetTraffic (u : User) : User * (Z * Z) :=
  (set_counters u 0 0 0 0, (u_sent u, u_recv u)).

(** Range over the table, deleting each entry; the order of the list is the
    map's business. *)
Definition ResetIPTable (u : User) : User * list string :=
  let ips := elements (u_ipTable u) in
  (set_ips u ∅ (i32 (u_ipNum u - Z.of_nat (length ips))), ips).

Definition GetSpeed (u : User) : Z * Z := (u_sendSpeed u, u_recvSpeed u).

(** CompareAndSwap(false, true) *)
Definition MarkCounterAttached (u : User) : User * bool :=
  (set_flags u true (u_cancelled u), negb (u_counterSeen u)).

Definition Close (u : User) : User :=
  let '(u, _) := ResetTraffic u in set_flags u (u_counterSeen u) true.

(** What a counted connection does with the pointers of GetTrafficPointer:
    atomic additions to the two counters. *)
Definition count_sent (u : User) (n : Z) : User :=
  set_counters u (i64 (u_sent u + n)) (u_recv u) (u_lastSent u) (u_lastRecv u).
Definition count_recv (u : User) (n : Z) : User :=
  set_counters u (u_sent u) (i64 (u_recv u + n)) (u_lastSent u) (u_lastRecv u).

(** ** The authenticator *)

Record Authenticator := {
  a_users : gmap string nat;        (* hash -> pointer *)
  a_aliases : gmap string string;   (* alias -> hash *)
  a_heap : list User;               (* every User ever allocated, by pointer *)
}.

Definition NewAuthenticator : Authenticator := {| a_users := ∅; a_aliases := ∅; a_heap := [] |}.

Definition update_user (a : Authenticator) (l : nat) (f : User → User) : Authenticator :=
  {| a_users := a_users a; a_aliases := a_aliases a; a_heap := alter f l (a_heap a) |}.

Definition AddUser (a : Authenticator) (hash : string) (uid : Z) : Authenticator * result unit :=
  match a_users a !! hash with
  | Some _ => (a, Err (EFmt "hash %s already exists" [hash]))
  | None =>
      ({| a_users := <[hash := length (a_heap a)]> (a_users a); a_aliases := a_aliases a;
          a_heap := a_heap a ++ [new_user hash uid] |}, Ok tt)
  end.

Definition deleteAliases (a : Authenticator) (hash : string) : Authenticator :=
  {| a_users := a_users a; a_aliases := filter (λ '(_, canonical), canonical ≠ hash) (a_aliases a);
     a_heap := a_heap a |}.

Definition DelUser (a : Authenticator) (hash : string) : Authenticator * result unit :=
  match a_users a !! hash with
  | None => (a, Err (EFmt "hash %s not found" [hash]))
  | Some l =>
      let a := update_user a l Close in
      let a := {| a_users := delete hash (a_users a); a_aliases := a_aliases a; a_heap := a_heap a |} in
      (deleteAliases a hash, Ok tt)
  end.

Definition LoadUser (a : Authenticator) (hash : string) : option nat :=
  match a_users a !! hash with
  | Some l => Some l
  | None => canonical ← a_aliases a !! hash; a_users a !! canonical
  end.

Definition store_alias (hash : string) (m : gmap string string) (alias : string) : gmap string string :=
  if bool_decide (alias = "" ∨ alias = hash) then m else <[alias := hash]> m.

Definition SetUserAliases (a : Authenticator) (hash : string) (aliases : list string) : Authenticator :=
  let a := deleteAliases a hash in
  {| a_users := a_users a; a_aliases := foldl (store_alias hash) (a_aliases a) aliases; a_heap := a_heap a |}.

Definition SetUserProfile (a : Authenticator) (hash : string) (info : UserInfo) : Authenticator :=
  match LoadUser a hash with
  | None => a
  | Some l => update_user a l (λ u, set_profile u (ui_Email info) (ui_UUID info) (ui_Passwd info))
  end.

Definition SetUserSpeedLimit (a : Authenticator) (hash : string) (bytesPerSec : Z) : Authenticator * bool :=
  match LoadUser a hash with
  | None => (a, false)
  | Some l => (update_user a l (λ u, SetSpeedLimit u (i64 bytesPerSec)), true)
  end.

Definition SetUserDeviceLimit (a : Authenticator) (hash : string) (maxDevices : Z) : Authenticator * bool :=
  match LoadUser a hash with
  | None => (a, false)
  | Some l => (update_user a l (λ u, SetIPLimit u maxDevices), true)
  end.

Definition ListUsers `{RangeOrder} (a : Authenticator) : list nat := (range (a_users a)).*2.

(** ** Device tables *)

Inductive ip_op := OpAdd (ip : string) | OpDel (ip : string) | OpReset.
Definition ip_step (u : User) (o : ip_op) : User :=
  match o with
  | OpAdd ip => fst (AddIP u ip) | OpDel ip => fst (DelIP u ip) | OpReset => fst (ResetIPTable u)
  end.

(** The atomic counter is the size of the table, and the limit holds. *)
Definition ip_ok (u : User) : Prop :=
  u_ipNum u = Z.of_nat (size (u_ipTable u))
  ∧ (0 < u_maxIPNum u → Z.of_nat (size (u_ipTable u)) ≤ u_maxIPNum u)
  ∧ Z.of_nat (size (u_ipTable u)) < 2 ^ 31.

Lemma ip_step_max u o : u_maxIPNum (ip_step u o) = u_maxIPNum u.
Proof.
  destruct o as [ip|ip|]; cbn; [unfold AddIP|unfold DelIP|done];
    repeat case_bool_decide; done.
Qed.

Lemma size_add (s : gset string) ip : ip ∉ s → size ({[ip]} ∪ s) = S (size s).
Proof. intros. rewrite size_union by set_solver. by rewrite size_singleton. Qed.
Lemma size_del (s : gset string) ip : ip ∈ s → size s = S (size (s ∖ {[ip]})).
Proof.
  intros Hin. rewrite <- (size_add (s ∖ {[ip]}) ip) by set_solver.
  f_equal. apply leibniz_equiv. intros x. destruct (decide (x = ip)); set_solver.
Qed.

Lemma ip_step_ok u o : 0 < u_maxIPNum u < 2 ^ 31 → ip_ok u → ip_ok (ip_step u o).
Proof.
  intros Hm (Hn & Hl & Hb). destruct o as [ip|ip|]; cbn.
  - unfold AddIP. case_bool_decide as Hin; [done|].
    destruct (bool_decide (0 < u_maxIPNum u) && _) eqn:E; [done|].
    apply andb_false_iff in E as [E|E]; apply bool_decide_eq_false in E; [lia|].
    unfold ip_ok. cbn. rewrite (size_add _ _ Hin), i32_small by lia. lia.
  - unfold DelIP. case_bool_decide as Hin; [done|].
    assert (ip ∈ u_ipTable u) as Hin' by (destruct (decide (ip ∈ u_ipTable u)); tauto).
    apply size_del in Hin'. unfold ip_ok. cbn. rewrite i32_small by lia. lia.
  - unfold ip_ok. cbn. rewrite Hn. unfold size, set_size. cbn.
    rewrite Z.sub_diag, elements_empty, i32_small by lia. cbn. lia.
Qed.

(** Under a device limit a user's table never holds more addresses than
    the limit, and the counter shown to the panel is the table's size, after
    any sequence of AddIP, DelIP and ResetIPTable; AddIP refuses exactly the
    new addresses that would exceed the limit. *)
Theorem device_limit_respected hash uid limit ops :
  0 < limit < 2 ^ 31 →
  let u := foldl ip_step (SetIPLimit (new_user hash uid) limit) ops in
  Z.of_nat (size (u_ipTable u)) ≤ limit
  ∧ GetIPNumber u = Z.of_nat (size (u_ipTable u))
  ∧ ∀ ip, snd (AddIP u ip) = false ↔ (ip ∉ u_ipTable u) ∧ Z.of_nat (size (u_ipTable u)) = limit.
Proof.
  intros Hl u.
  assert (ip_ok u ∧ u_maxIPNum u = limit) as [(Hn & Hle & _) Hm].
  { unfold u. apply foldl_inv.
    - split; [|done]. unfold ip_ok. cbn. unfold size, set_size. cbn. rewrite elements_empty. cbn. lia.
    - intros v o _ [Hok Hv]. rewrite ip_step_max. split; [|done]. apply ip_step_ok; [lia|done]. }
  rewrite Hm in Hle. split; [lia|]. split; [done|]. intros ip. unfold AddIP. rewrite Hm, Hn.
  case_bool_decide as Hin; cbn; [naive_solver|].
  rewrite (bool_decide_eq_true_2 (0 < limit)) by lia. cbn. case_bool_decide; cbn; [|naive_solver lia].
  split; [|done]. intros _. split; [done|lia].
Qed.

Lemma device_limit_respected_witness :
  GetIPNumber (foldl ip_step (SetIPLimit (new_user "u1" 1) 2) [OpAdd "a"; OpAdd "b"; OpAdd "c"; OpDel "a"; OpAdd "a"])
  = 2 ∧ 2 ≤ 2.
Proof.
  split; [vm_compute; reflexivity|].
  pose proof (device_limit_respected "u1" 1 2 [OpAdd "a"; OpAdd "b"; OpAdd "c"; OpDel "a"; OpAdd "a"] ltac:(lia)) as [H _].
  vm_compute in H. exact H.
Defined.

(** ** Traffic accounting *)

(** What happens to a user's counters, in the order the atomics execute:
    bytes counted by connections and drains by the report loop. *)
Inductive traffic_op := CountSent (n : Z) | CountRecv (n : Z) | Drain.

Definition traffic_step (st : User * list (Z * Z)) (o : traffic_op) : User * list (Z * Z) :=
  let '(u, drained) := st in
  match o with
  | CountSent n => (count_sent u n, drained)
  | CountRecv n => (count_recv u n, drained)
  | Drain => let '(u, p) := ResetTraffic u in (u, drained ++ [p])
  end.

Fixpoint sum_by {A} (f : A → Z) (l : list A) : Z :=
  match l with [] => 0 | a :: l => f a + sum_by f l end.
Definition sent_of (o : traffic_op) : Z := match o with CountSent n => n | _ => 0 end.
Definition recv_of (o : traffic_op) : Z := match o with CountRecv n => n | _ => 0 end.

Lemma sum_by_app {A} (f : A → Z) l1 l2 : sum_by f (l1 ++ l2) = sum_by f l1 + sum_by f l2.
Proof. induction l1 as [|a l1 IH]; cbn; [done|]. rewrite IH. lia. Qed.

Lemma traffic_step_conserves ops u drained u' drained' :
  in_i64 (u_sent u) → in_i64 (u_recv u) →
  foldl traffic_step (u, drained) ops = (u', drained') →
  i64 (sum_by fst drained' + u_sent u') = i64 (sum_by fst drained + u_sent u + sum_by sent_of ops)
  ∧ i64 (sum_by snd drained' + u_recv u') = i64 (sum_by snd drained + u_recv u + sum_by recv_of ops)
  ∧ in_i64 (u_sent u') ∧ in_i64 (u_recv u').
Proof.
  revert u drained. induction ops as [|o ops IH]; intros u drained Hs Hr.
  { cbn. intros [= <- <-]. by rewrite !Z.add_0_r. }
  cbn [foldl traffic_step sum_by]. destruct o as [n|n|]; cbn [ResetTraffic]; intros HE;
    apply IH in HE as (E1 & E2 & ? & ?);
    try solve [cbn; auto using i64_range | unfold in_i64; cbn; lia].
  - cbn in E1, E2. cbn [sent_of recv_of]. split; [|split; [|done]]; [rewrite E1|rewrite E2; f_equal; lia].
    rewrite (Z.add_comm (sum_by fst drained)), <- Z.add_assoc, i64_add. f_equal. lia.
  - cbn in E1, E2. cbn [sent_of recv_of]. split; [|split; [|done]]; [rewrite E1; f_equal; lia|rewrite E2].
    rewrite (Z.add_comm (sum_by snd drained)), <- Z.add_assoc, i64_add. f_equal. lia.
  - cbn in E1, E2. cbn [sent_of recv_of]. rewrite sum_by_app in E1, E2. cbn in E1, E2. split; [|split; [|done]];
      [rewrite E1|rewrite E2]; f_equal; lia.
Qed.

(** Every counted byte is drained exactly once: in any interleaving of
    counting and draining, the drained amounts plus what is still in the
    counters equal the bytes counted, per direction (as int64 sums, and exactly
    when the total fits). *)
Theorem traffic_conserved hash uid ops u drained :
  foldl traffic_step (new_user hash uid, []) ops = (u, drained) →
  i64 (sum_by fst drained + u_sent u) = i64 (sum_by sent_of ops)
  ∧ i64 (sum_by snd drained + u_recv u) = i64 (sum_by recv_of ops)
  ∧ (in_i64 (sum_by sent_of ops) → in_i64 (sum_by fst drained + u_sent u) →
     sum_by fst drained + u_sent u = sum_by sent_of ops).
Proof.
  intros (E1 & E2 & _)%traffic_step_conserves; [|by cbn..].
  split; [done|]. split; [done|]. intros Hs Hd.
  by rewrite (i64_small (sum_by fst drained + _)), i64_small in E1.
Qed.

Lemma traffic_conserved_witness :
  let st := foldl traffic_step (new_user "u1" 1, []) [CountSent 10; Drain; CountRecv 5; CountSent 7; Drain; CountSent 1] in
  st.2 = [(10, 0); (7, 5)] ∧ i64 (sum_by fst st.2 + u_sent st.1) = i64 18.
Proof.
  split; [reflexivity|].
  refine (proj1 (traffic_conserved "u1" 1 [CountSent 10; Drain; CountRecv 5; CountSent 7; Drain; CountSent 1] _ _ _)).
  reflexivity.
Defined.

(** ** The shared rate limiter *)

Lemma wait_loop_spec fuel wait burst n d chunks e :
  0 < burst → 0 ≤ n → (Z.to_nat n ≤ fuel)%nat →
  wait_loop fuel wait burst n d = (chunks, e) →
  ∃ new, chunks = d ++ new ∧ Forall (λ c, 0 < c ≤ burst) new
    ∧ sum_by id new ≤ n ∧ (e = None → sum_by id new = n).
Proof.
  intros Hb. revert n d. induction fuel as [|fuel IH]; intros n d Hn Hf; cbn.
  { intros [= <- <-]. exists []. rewrite app_nil_r. cbn. split_and!; auto; lia. }
  case_bool_decide as Hpos.
  2: { intros [= <- <-]. exists []. rewrite app_nil_r. cbn. split_and!; auto; lia. }
  set (chunk := if bool_decide (burst < n) then burst else n).
  assert (0 < chunk ≤ burst ∧ chunk ≤ n) as [Hc Hcn] by (unfold chunk; case_bool_decide; lia).
  destruct (wait d chunk) as [err|].
  - intros [= <- <-]. exists [chunk]. cbn. split_and!; auto; try lia. done.
  - intros (new & -> & Hf' & Hs & Hd)%IH; [|lia..]. exists (chunk :: new).
    rewrite <- app_assoc. cbn. split_and!; auto.
    + cbn in *. lia.
    + intros He. specialize (Hd He). cbn in *. lia.
Qed.

(** WaitN charges the bucket for exactly the bytes asked, in chunks the
    limiter accepts: every request is positive and at most the burst, their sum
    is n when no wait fails and never more than n, and the loop ends. *)
Theorem WaitN_charges wait u bps n chunks e :
  0 < bps → 0 < n →
  WaitN wait (SetSpeedLimit u bps) n = (chunks, e) →
  Forall (λ c, 0 < c ≤ bps) chunks ∧ sum_by id chunks ≤ n ∧ (e = None → sum_by id chunks = n).
Proof.
  intros Hb Hn. unfold WaitN, SetSpeedLimit. cbn.
  rewrite !bool_decide_eq_false_2 by lia. unfold waitChunked. cbn [lim_Burst].
  rewrite bool_decide_eq_false_2 by lia.
  intros (new & -> & ?)%wait_loop_spec; [done|lia..].
Qed.

Lemma WaitN_charges_witness :
  WaitN (λ _ _, None) (SetSpeedLimit (new_user "u1" 1) 100) 250 = ([100; 100; 50], None)
  ∧ sum_by id [100; 100; 50] = 250.
Proof.
  split; [reflexivity|].
  refine (proj2 (proj2 (WaitN_charges (λ _ _, None) (new_user "u1" 1) 100 250 [100; 100; 50] None _ _ _)) _);
    [lia|lia|reflexivity|reflexivity].
Defined.

(** ** The authenticator as a finite map

    Pointers are an implementation detail: seen from the table, the
    authenticator is a map from hashes to users. *)

Definition abs (a : Authenticator) : gmap string User := omap (λ l, a_heap a !! l) (a_users a).

(** Every table entry points at an allocated user that carries its key. *)
Definition auth_ok (a : Authenticator) : Prop :=
  ∀ h l, a_users a !! h = Some l → ∃ u, a_heap a !! l = Some u ∧ u_hash u = h.

Lemma lookup_abs a h : abs a !! h = a_users a !! h ≫= λ l, a_heap a !! l.
Proof. unfold abs. by rewrite lookup_omap. Qed.
#[global] Arguments abs : simpl never.

Lemma auth_ok_lt a h l : auth_ok a → a_users a !! h = Some l → (l < length (a_heap a))%nat.
Proof. intros Hok (u & Hu & _)%Hok. eauto using lookup_lt_Some. Qed.

Lemma auth_ok_inj a h h' l :
  auth_ok a → a_users a !! h = Some l → a_users a !! h' = Some l → h = h'.
Proof. intros Hok (u & Hu & <-)%Hok (u' & Hu' & <-)%Hok. congruence. Qed.

Lemma abs_is_Some a h : auth_ok a → is_Some (abs a !! h) ↔ is_Some (a_users a !! h).
Proof.
  intros Hok. rewrite lookup_abs. destruct (a_users a !! h) as [l|] eqn:E; cbn; [|done].
  apply Hok in E as (u & -> & _). split; eauto.
Qed.

Lemma dom_abs a : auth_ok a → dom (abs a) = dom (a_users a).
Proof. intros Hok. apply set_eq. intros h. by rewrite !elem_of_dom, abs_is_Some. Qed.

Lemma auth_ok_update a l f :
  (∀ u, u_hash (f u) = u_hash u) → auth_ok a → auth_ok (update_user a l f).
Proof.
  intros Hf Hok h k (u & Hu & <-)%Hok. cbn.
  destruct (decide (k = l)) as [->|Hne].
  - exists (f u). split; [|done]. rewrite list_lookup_alter_eq, Hu. done.
  - exists u. rewrite list_lookup_alter_ne by done. done.
Qed.

Lemma abs_update a h l f :
  auth_ok a → a_users a !! h = Some l → abs (update_user a l f) = alter f h (abs a).
Proof.
  intros Hok Hl. apply map_eq. intros h'. rewrite lookup_abs. cbn.
  destruct (decide (h = h')) as [<-|Hne].
  - rewrite lookup_alter_eq, lookup_abs, Hl. cbn. apply list_lookup_alter_eq.
  - rewrite lookup_alter_ne, lookup_abs by done.
    destruct (a_users a !! h') as [l'|] eqn:E; [|done]. cbn.
    apply list_lookup_alter_ne. intros ->. eauto using auth_ok_inj.
Qed.

(** Counting through the pointer of a user that was removed reaches no entry. *)
Lemma abs_update_orphan a l f :
  (∀ h, a_users a !! h ≠ Some l) → abs (update_user a l f) = abs a.
Proof.
  intros Hno. apply map_eq. intros h. rewrite !lookup_abs. cbn.
  destruct (a_users a !! h) as [k|] eqn:E; [|done]. cbn.
  apply list_lookup_alter_ne. intros ->. by apply (Hno h).
Qed.

Lemma auth_ok_AddUser a h uid : auth_ok a → auth_ok (AddUser a h uid).1.
Proof.
  intros Hok. unfold AddUser. destruct (a_users a !! h) eqn:E; [done|]. intros h' l. cbn.
  rewrite lookup_insert. case_decide as Hh.
  - intros [= <-]. subst h'. exists (new_user h uid).
    rewrite lookup_app_r, Nat.sub_diag by lia. done.
  - intros (u & Hu & Hh')%Hok. exists u. split; [|done].
    rewrite lookup_app_l; [done|]. eauto using lookup_lt_Some.
Qed.

Lemma abs_AddUser a h uid :
  auth_ok a → abs (AddUser a h uid).1
              = match abs a !! h with Some _ => abs a | None => <[h := new_user h uid]> (abs a) end.
Proof.
  intros Hok. pose proof (abs_is_Some a h Hok) as HS. unfold AddUser.
  destruct (a_users a !! h) as [l|] eqn:E; cbn.
  { destruct (abs a !! h); [done|]. destruct HS as [_ []]; eauto. done. }
  destruct (abs a !! h) eqn:Ea; [destruct HS as [[] _]; eauto; done|].
  apply map_eq. intros h'. rewrite lookup_abs. cbn. rewrite !lookup_insert. case_decide as Hh.
  - cbn. rewrite lookup_app_r, Nat.sub_diag by lia. done.
  - rewrite lookup_abs. destruct (a_users a !! h') as [l'|] eqn:E'; [|done]. cbn.
    apply lookup_app_l. eauto using auth_ok_lt.
Qed.

Lemma u_hash_Close u : u_hash (Close u) = u_hash u.
Proof. done. Qed.

Lemma auth_ok_DelUser a h : auth_ok a → auth_ok (DelUser a h).1.
Proof.
  intros Hok. unfold DelUser. destruct (a_users a !! h) as [l|] eqn:E; [|done]. cbn.
  pose proof (auth_ok_update a l Close u_hash_Close Hok) as Hok'.
  intros h' l'. cbn. intros [_ Hl']%lookup_delete_Some. by apply Hok'.
Qed.

Lemma abs_DelUser a h : auth_ok a → abs (DelUser a h).1 = delete h (abs a).
Proof.
  intros Hok. unfold DelUser. destruct (a_users a !! h) as [l|] eqn:E; cbn.
  - apply map_eq. intros h'. rewrite lookup_abs. cbn. rewrite !lookup_delete.
    case_decide as Hh; [done|]. rewrite lookup_abs.
    destruct (a_users a !! h') as [l'|] eqn:E'; [|done]. cbn.
    apply list_lookup_alter_ne. intros ->. eauto using auth_ok_inj.
  - symmetry. apply delete_id. by rewrite lookup_abs, E.
Qed.

#[export] Hint Resolve auth_ok_AddUser auth_ok_DelUser : singr.

(** *** Specification: a map of users and a map of aliases *)

Record auth_spec := { s_users : gmap string User; s_aliases : gmap string string }.

Inductive auth_op :=
  | AAdd (hash : string) (uid : Z) | ADel (hash : string)
  | AAliases (hash : string) (aliases : list string)
  | AProfile (hash : string) (info : UserInfo)
  | ASpeed (hash : string) (bps : Z) | ADevice (hash : string) (n : Z).

Definition auth_step (a : Authenticator) (o : auth_op) : Authenticator :=
  match o with
  | AAdd h uid => fst (AddUser a h uid)
  | ADel h => fst (DelUser a h)
  | AAliases h l => SetUserAliases a h l
  | AProfile h info => SetUserProfile a h info
  | ASpeed h bps => fst (SetUserSpeedLimit a h bps)
  | ADevice h n => fst (SetUserDeviceLimit a h n)
  end.

(** The hash a name stands for: itself, or the user it is an alias of. *)
Definition resolve (s : auth_spec) (name : string) : option string :=
  match s_users s !! name with
  | Some _ => Some name
  | None => h ← s_aliases s !! name; _ ← s_users s !! h; Some h
  end.

Definition spec_alter (s : auth_spec) (name : string) (f : User → User) : auth_spec :=
  match resolve s name with
  | Some h => {| s_users := alter f h (s_users s); s_aliases := s_aliases s |}
  | None => s
  end.

Definition drop_aliases (h : string) (m : gmap string string) : gmap string string :=
  filter (λ '(_, c), c ≠ h) m.

Definition spec_step (s : auth_spec) (o : auth_op) : auth_spec :=
  match o with
  | AAdd h uid =>
      match s_users s !! h with
      | Some _ => s
      | None => {| s_users := <[h := new_user h uid]> (s_users s); s_aliases := s_aliases s |}
      end
  | ADel h =>
      match s_users s !! h with
      | Some _ => {| s_users := delete h (s_users s); s_aliases := drop_aliases h (s_aliases s) |}
      | None => s
      end
  | AAliases h l =>
      {| s_users := s_users s; s_aliases := foldl (store_alias h) (drop_aliases h (s_aliases s)) l |}
  | AProfile h info => spec_alter s h (λ u, set_profile u (ui_Email info) (ui_UUID info) (ui_Passwd info))
  | ASpeed h bps => spec_alter s h (λ u, SetSpeedLimit u (i64 bps))
  | ADevice h n => spec_alter s h (λ u, SetIPLimit u n)
  end.

Definition view (a : Authenticator) : auth_spec := {| s_users := abs a; s_aliases := a_aliases a |}.

Lemma LoadUser_resolve a name :
  auth_ok a → LoadUser a name = h ← resolve (view a) name; a_users a !! h.
Proof.
  intros Hok. unfold LoadUser, resolve. cbn.
  pose proof (abs_is_Some a name Hok) as HS.
  destruct (a_users a !! name) as [l|] eqn:E.
  - destruct (abs a !! name); cbn; [by rewrite E|]. destruct HS as [_ []]; eauto. done.
  - destruct (abs a !! name); [destruct HS as [[] _]; eauto; done|].
    destruct (a_aliases a !! name) as [h|]; [|done]. cbn.
    pose proof (abs_is_Some a h Hok) as HS'.
    destruct (a_users a !! h) eqn:E'; cbn.
    + destruct (abs a !! h); cbn; [by rewrite E'|]. destruct HS' as [_ []]; eauto. done.
    + destruct (abs a !! h); [destruct HS' as [[] _]; eauto; done|done].
Qed.

Lemma LoadUser_update a name f :
  auth_ok a → (∀ u, u_hash (f u) = u_hash u) →
  let a' := match LoadUser a name with Some l => update_user a l f | None => a end in
  auth_ok a' ∧ view a' = spec_alter (view a) name f.
Proof.
  intros Hok Hf. rewrite LoadUser_resolve by done. unfold spec_alter.
  destruct (resolve (view a) name) as [h|] eqn:Er; cbn; [|done].
  assert (is_Some (a_users a !! h)) as [l Hl].
  { apply abs_is_Some; [done|]. revert Er. unfold resolve. cbn.
    destruct (abs a !! name) eqn:E; [intros [= <-]; eauto|].
    destruct (a_aliases a !! name) as [h'|]; [|done]. cbn.
    destruct (abs a !! h') eqn:E'; [|done]. cbn. intros [= <-]. eauto. }
  rewrite Hl. split; [by apply auth_ok_update|].
  unfold view. cbn. f_equal. by apply abs_update.
Qed.

Lemma auth_step_refines a o :
  auth_ok a → auth_ok (auth_step a o) ∧ view (auth_step a o) = spec_step (view a) o.
Proof.
  intros Hok. destruct o as [h uid|h|h l|h info|h bps|h n]; cbn [auth_step spec_step].
  - split; [eauto with singr|]. unfold view. rewrite abs_AddUser by done. cbn [s_users].
    pose proof (abs_is_Some a h Hok) as HS. unfold AddUser.
    destruct (abs a !! h), (a_users a !! h); cbn; try done.
  - split; [eauto with singr|]. unfold view. rewrite abs_DelUser by done. cbn [s_users].
    pose proof (abs_is_Some a h Hok) as HS. unfold DelUser.
    destruct (a_users a !! h) as [l|], (abs a !! h) eqn:Ea; cbn; try done.
    + destruct HS as [_ []]; eauto. done.
    + destruct HS as [[] _]; eauto. done.
    + by rewrite delete_id.
  - done.
  - unfold SetUserProfile. by apply LoadUser_update.
  - unfold SetUserSpeedLimit.
    pose proof (LoadUser_update a h (λ u, SetSpeedLimit u (i64 bps)) Hok ltac:(done)) as H.
    by destruct (LoadUser a h).
  - unfold SetUserDeviceLimit.
    pose proof (LoadUser_update a h (λ u, SetIPLimit u n) Hok ltac:(done)) as H.
    by destruct (LoadUser a h).
Qed.

(** (C14) Seen through its table, the authenticator is the specification: after
    any sequence of operations from a new authenticator, the users reachable by
    hash and the aliases are those of the map specification, and a name loads
    the user its hash or alias stands for. *)
Theorem authenticator_refines ops :
  let a := foldl auth_step NewAuthenticator ops in
  let s := foldl spec_step {| s_users := ∅; s_aliases := ∅ |} ops in
  view a = s
  ∧ ∀ name, (LoadUser a name ≫= λ l, a_heap a !! l) = (resolve s name ≫= λ h, s_users s !! h).
Proof.
  intros a s.
  assert (auth_ok a ∧ view a = s) as [Hok Hv].
  { unfold a, s.
    assert (auth_ok NewAuthenticator) as H0 by (intros h l; cbn; by rewrite lookup_empty).
    assert (view NewAuthenticator = {| s_users := ∅; s_aliases := ∅ |}) as <- by done.
    revert H0. generalize NewAuthenticator. induction ops as [|o ops IH]; intros b Hb; cbn; [done|].
    destruct (auth_step_refines b o Hb) as [Hb' <-]. by apply IH. }
  split; [done|]. intros name. rewrite LoadUser_resolve by done. rewrite Hv, <- Hv.
  destruct (resolve (view a) name) as [h|]; cbn; [|done]. by rewrite lookup_abs.
Qed.
