(* ===== verification/PanelUsers.v ===== *)
(** * Runtime user tables of the panel-driven inbounds

    adapter/pinbound.go states what the controller may ask of an inbound:
    replace all users, or add and remove some.  This file models the user side
    of the three inbounds that implement it (pinbound.go of anytls, hysteria2
    and naive, and naive's own table in singr_users.go) and states the
    contract the controller's theorems are proved against. *)

From S2P Require Import Prelude GoStrings Float64 Api.

(** ** The contract *)

(** [fmt.Sprintf("u%d", user.UID)], the runtime name of a panel user. *)
Definition user_name (uid : Z) : string := "u" +:+ Itoa uid.

(** buildAnyTLSPassword, buildHysteria2Password, buildNaivePassword *)
Definition user_password (u : UserInfo) : string :=
  if bool_decide (ui_UUID u = "") then ui_Passwd u else ui_UUID u.

#[export] Instance user_name_inj : Inj (=) (=) user_name.
Proof. intros x y H. unfold user_name in H. by apply (inj _), (inj pretty) in H. Qed.

(** adapter.PInbound and adapter.PIncrementalUserInbound for an inbound whose
    state is [I].  [users_view] is the table authentication uses. *)
Class UserInbound (I : Type) := {
  RefreshUsers : I → list UserInfo → I;
  AddUsers : I → list UserInfo → I;
  RemoveUsers : I → list string → I;
  users_view : I → gmap string string;   (* runtime name -> password *)
}.

(** The table a list of users should produce: later entries win. *)
Definition entry (u : UserInfo) : string * string := (user_name (ui_UID u), user_password u).
Definition insert_users (m : gmap string string) (us : list UserInfo) : gmap string string :=
  foldl (λ m u, <[user_name (ui_UID u) := user_password u]> m) m us.
Definition delete_names (m : gmap string string) (names : list string) : gmap string string :=
  foldl (λ m n, delete n m) m names.

(** Passwords identify users: no two names of a table share one. *)
Definition passwords_distinct (m : gmap string string) : Prop :=
  ∀ n n' p, m !! n = Some p → m !! n' = Some p → n = n'.

(** The contract: on tables with distinct passwords each call has the effect
    its name says.  [inbound_ok] is whatever the inbound keeps invariant. *)
Class UserInboundSpec (I : Type) `{UserInbound I} := {
  inbound_ok : I → Prop;
  inbound_distinct : ∀ i, inbound_ok i → passwords_distinct (users_view i);
  RefreshUsers_spec : ∀ i us, inbound_ok i → passwords_distinct (insert_users ∅ us) →
    NoDup (ui_UID <$> us) →
    inbound_ok (RefreshUsers i us) ∧ users_view (RefreshUsers i us) = insert_users ∅ us;
  AddUsers_spec : ∀ i us, inbound_ok i → passwords_distinct (insert_users (users_view i) us) →
    NoDup (ui_UID <$> us) →
    inbound_ok (AddUsers i us) ∧ users_view (AddUsers i us) = insert_users (users_view i) us;
  RemoveUsers_spec : ∀ i names, inbound_ok i →
    inbound_ok (RemoveUsers i names) ∧ users_view (RemoveUsers i names) = delete_names (users_view i) names;
}.

(** *** Tables built from lists *)

Definition insert_pairs (m : gmap string string) (l : list (string * string)) : gmap string string :=
  foldl (λ m '(n, p), <[n := p]> m) m l.

Lemma insert_users_pairs m us : insert_users m us = insert_pairs m (entry <$> us).
Proof. revert m. induction us as [|u us IH]; intros m; [done|]. cbn. apply IH. Qed.

Lemma insert_pairs_notin m l n : n ∉ l.*1 → insert_pairs m l !! n = m !! n.
Proof.
  revert m. induction l as [|[n' p] l IH]; intros m Hn; [done|]. cbn in *.
  rewrite IH by set_solver. apply lookup_insert_ne. set_solver.
Qed.

Lemma insert_pairs_in m l n p : NoDup l.*1 → (n, p) ∈ l → insert_pairs m l !! n = Some p.
Proof.
  revert m. induction l as [|[n' p'] l IH]; intros m Hnd Hin; [set_solver|].
  cbn in Hnd. apply NoDup_cons in Hnd as [Hn' Hnd]. cbn.
  apply elem_of_cons in Hin as [[= -> ->]|Hin]; [|by apply IH].
  rewrite insert_pairs_notin by done. apply lookup_insert_eq.
Qed.

Lemma entry_NoDup us : NoDup (ui_UID <$> us) → NoDup (entry <$> us).*1.
Proof.
  intros H. rewrite <- list_fmap_compose.
  replace ((fst ∘ entry) <$> us) with (user_name <$> (ui_UID <$> us)).
  - by apply (NoDup_fmap_2 user_name).
  - rewrite <- list_fmap_compose. done.
Qed.

Lemma lookup_delete_names m names n :
  delete_names m names !! n = if decide (n ∈ names) then None else m !! n.
Proof.
  revert m. induction names as [|n' names IH]; intros m; cbn; [by rewrite decide_False by set_solver|].
  rewrite IH. destruct (decide (n ∈ names)).
  - by rewrite decide_True by set_solver.
  - rewrite lookup_delete. repeat case_decide; set_solver.
Qed.

Lemma zip_entries us :
  zip ((λ u, user_name (ui_UID u)) <$> us) (user_password <$> us) = entry <$> us.
Proof. induction us as [|u us IH]; cbn; [done|]. by rewrite IH. Qed.

(** ** Naive: the table of singr_users.go *)

Module Naive.
Record userTable := { byPassword : gmap string string; byName : gmap string string }.

Definition empty_table : userTable := {| byPassword := ∅; byName := ∅ |}.

(** replace: both maps are rebuilt from scratch. *)
Definition replace (t : userTable) (names passwords : list string) : userTable :=
  foldl (λ t '(name, password),
           {| byPassword := <[password := name]> (byPassword t);
              byName := <[name := password]> (byName t) |})
    empty_table (zip names passwords).

Definition add1 (t : userTable) (name password : string) : userTable :=
  let byPassword1 :=
    match byName t !! name with
    | Some oldPassword => if bool_decide (oldPassword ≠ password) then delete oldPassword (byPassword t) else byPassword t
    | None => byPassword t
    end in
  let byName1 :=
    match byPassword1 !! password with
    | Some oldName => if bool_decide (oldName ≠ name) then delete oldName (byName t) else byName t
    | None => byName t
    end in
  {| byPassword := <[password := name]> byPassword1; byName := <[name := password]> byName1 |}.

Definition add (t : userTable) (names passwords : list string) : userTable :=
  foldl (λ t '(name, password), add1 t name password) t (zip names passwords).

Definition remove1 (t : userTable) (name : string) : userTable :=
  match byName t !! name with
  | Some password => {| byPassword := delete password (byPassword t); byName := delete name (byName t) |}
  | None => t
  end.

Definition remove (t : userTable) (names : list string) : userTable := foldl remove1 t names.

Definition lookup (t : userTable) (password : string) : option string := byPassword t !! password.

Definition newUserTable (users : list (string * string)) : userTable :=
  add empty_table users.*1 users.*2.

Definition buildNaiveUsers (users : list UserInfo) : list string * list string :=
  ((λ u, user_name (ui_UID u)) <$> users, user_password <$> users).

#[export] Instance naive_users : UserInbound userTable :=
  {| RefreshUsers t us := let '(names, passwords) := buildNaiveUsers us in replace t names passwords;
     AddUsers t us := let '(names, passwords) := buildNaiveUsers us in add t names passwords;
     RemoveUsers t names := remove t names;
     users_view := byName |}.

(** The two maps are inverse to each other. *)
Definition table_ok (t : userTable) : Prop :=
  ∀ n p, byPassword t !! p = Some n ↔ byName t !! n = Some p.

Lemma table_ok_empty : table_ok empty_table.
Proof. intros n p. cbn. by rewrite !lookup_empty. Qed.

Lemma table_ok_distinct t : table_ok t → passwords_distinct (byName t).
Proof. intros Hok n n' p Hn%Hok Hn'%Hok. congruence. Qed.

(** Under the invariant, adding a user is a last-writer-wins update: the
    name gets the password, and a name that had the password loses it. *)
Lemma add1_byName t n p n' :
  table_ok t →
  byName (add1 t n p) !! n' =
    if decide (n' = n) then Some p else if decide (byName t !! n' = Some p) then None else byName t !! n'.
Proof.
  intros Hok. unfold add1. cbn [byName]. rewrite lookup_insert.
  destruct (decide (n = n')) as [->|Hn]; [by rewrite decide_True|].
  rewrite (decide_False (P := n' = n)) by done. destruct (decide _) as [Hp|Hp].
  - (* n' had the password *)
    apply Hok in Hp. destruct (byName t !! n) as [q|] eqn:En.
    + apply Hok in En. case_bool_decide as Hq.
      * rewrite lookup_delete_ne, Hp, bool_decide_eq_true_2, lookup_delete_eq by congruence. done.
      * assert (q = p) as -> by (by destruct (decide (q = p))). congruence.
    + rewrite Hp, bool_decide_eq_true_2, lookup_delete_eq by congruence. done.
  - destruct (match byName t !! n with Some _ => _ | None => _ end !! p) as [m|] eqn:Em; [|done].
    case_bool_decide; [|done]. rewrite lookup_delete_ne; [done|]. intros ->.
    apply Hp, Hok. destruct (byName t !! n); [case_bool_decide|]; try done.
    by apply lookup_delete_Some in Em as [_ ?].
Qed.

Lemma add1_byPassword t n p p' :
  table_ok t →
  byPassword (add1 t n p) !! p' =
    if decide (p' = p) then Some n else if decide (byPassword t !! p' = Some n) then None else byPassword t !! p'.
Proof.
  intros Hok. unfold add1. cbn [byPassword]. rewrite lookup_insert.
  destruct (decide (p = p')) as [->|Hne]; [by rewrite decide_True|].
  rewrite (decide_False (P := p' = p)) by done.
  destruct (byName t !! n) as [q|] eqn:En.
  - apply Hok in En. case_bool_decide as Hq.
    + rewrite lookup_delete. case_decide as Hd.
      * subst. by rewrite decide_True.
      * rewrite decide_False; [done|]. intros Hp. apply Hd. apply Hok in Hp, En. congruence.
    + assert (q = p) as -> by (by destruct (decide (q = p))).
      rewrite decide_False; [done|]. intros Hp%Hok. apply Hok in En. congruence.
  - rewrite decide_False; [done|]. intros Hp%Hok. congruence.
Qed.

Lemma add1_ok t n p : table_ok t → table_ok (add1 t n p).
Proof.
  intros Hok n' p'. rewrite add1_byName, add1_byPassword by done. pose proof (Hok n' p') as H.
  repeat case_decide; simplify_eq; try naive_solver;
    repeat match goal with H : byName _ !! _ = Some _ |- _ => apply Hok in H end;
    naive_solver.
Qed.

Lemma add_ok t names passwords : table_ok t → table_ok (add t names passwords).
Proof. intros Hok. unfold add. apply foldl_inv; [done|]. intros a [n p] _. apply add1_ok. Qed.

Lemma remove1_ok t n : table_ok t → table_ok (remove1 t n).
Proof.
  intros Hok n' p'. unfold remove1. destruct (byName t !! n) as [p|] eqn:En; [|apply Hok]. cbn.
  rewrite !lookup_delete_Some. pose proof (Hok n' p') as H. apply Hok in En as En'.
  split; intros [Hne Hl]; split; try naive_solver; intros ->; apply Hok in Hl; congruence.
Qed.

Lemma remove1_byName t n : byName (remove1 t n) = delete n (byName t).
Proof.
  unfold remove1. destruct (byName t !! n) eqn:E; [done|]. by rewrite delete_id.
Qed.

Lemma remove_spec t names :
  table_ok t → table_ok (remove t names) ∧ byName (remove t names) = delete_names (byName t) names.
Proof.
  revert t. induction names as [|n names IH]; intros t Hok; [done|]. cbn.
  rewrite <- remove1_byName. apply IH. by apply remove1_ok.
Qed.

Definition add_pairs (t : userTable) (l : list (string * string)) : userTable :=
  foldl (λ t '(n, p), add1 t n p) t l.

(** A batch may pass a password from one user to another (a swap): entries
    stolen on the way are restored by the time the batch ends. *)
Lemma add_pairs_byName t m l :
  table_ok t → NoDup l.*1 → passwords_distinct (insert_pairs m l) →
  (∀ n p, byName t !! n = Some p → m !! n = Some p) →
  (∀ n p, m !! n = Some p → n ∉ l.*1 → byName t !! n = Some p) →
  table_ok (add_pairs t l) ∧ byName (add_pairs t l) = insert_pairs m l.
Proof.
  revert t m. induction l as [|[n0 p0] l IH]; intros t m Hok Hnd Hd Ha Hb.
  { split; [done|]. apply map_eq. intros n. apply option_eq. intros p. split; [apply Ha|].
    intros Hm. apply Hb; [done|]. cbn. set_solver. }
  cbn in Hnd. apply NoDup_cons in Hnd as [Hn0 Hnd]. cbn in Hd |- *. apply IH; try done.
  - by apply add1_ok.
  - intros n p. rewrite add1_byName by done.
    case_decide; [intros [= <-]; subst; apply lookup_insert_eq|].
    case_decide; [done|]. intros Hn. rewrite lookup_insert_ne by done. by apply Ha.
  - intros n p Hm Hn. rewrite add1_byName by done.
    destruct (decide (n = n0)) as [->|Hne]; [by rewrite lookup_insert_eq in Hm|].
    assert (byName t !! n = Some p) as Hbn.
    { apply Hb; [by rewrite lookup_insert_ne in Hm|]. cbn. set_solver. }
    case_decide as Hp; [|done]. exfalso. apply Hne.
    assert (p = p0) as -> by congruence.
    apply (Hd n n0 p0); rewrite insert_pairs_notin by done; [done|apply lookup_insert_eq].
Qed.

Lemma replace_spec t l :
  NoDup l.*1 → passwords_distinct (insert_pairs ∅ l) →
  table_ok (replace t l.*1 l.*2) ∧ byName (replace t l.*1 l.*2) = insert_pairs ∅ l.
Proof.
  intros Hnd Hd. unfold replace. rewrite zip_fst_snd.
  assert (∀ t', byName (foldl (λ t '(name, password),
             {| byPassword := <[password:=name]> (byPassword t);
                byName := <[name:=password]> (byName t) |}) t' l) = insert_pairs (byName t') l) as HN.
  { clear. induction l as [|[n p] l IH]; intros t'; cbn; [done|]. by rewrite IH. }
  split; [|by rewrite HN]. intros n p. rewrite HN.
  change (byName empty_table) with (∅ : gmap string string). revert n p.
  assert (∀ l0 l1, l = l0 ++ l1 → ∀ t', 
    (∀ n p, byPassword t' !! p = Some n ↔ (n, p) ∈ l0) →
    ∀ n p, byPassword (foldl (λ t '(name, password),
             {| byPassword := <[password:=name]> (byPassword t);
                byName := <[name:=password]> (byName t) |}) t' l1) !! p = Some n ↔ (n, p) ∈ l) as HP.
  { intros l0 l1 ->. revert l0 Hnd Hd HN. induction l1 as [|[n1 p1] l1 IH]; intros l0 Hnd Hd HN t' Ht n p.
    - cbn. rewrite app_nil_r. apply Ht.
    - cbn. replace (l0 ++ (n1, p1) :: l1) with ((l0 ++ [(n1, p1)]) ++ l1) in * by (by rewrite <- app_assoc).
      apply IH; [done..|]. cbn. intros n' p'. rewrite lookup_insert, elem_of_app, list_elem_of_singleton.
      case_decide as Hp; [subst p'|rewrite Ht; naive_solver].
      split; [naive_solver|]. intros [Hin|[= ->]]; [|done]. f_equal. symmetry.
      apply (Hd n' n1 p1); apply insert_pairs_in; try done; set_solver. }
  intros n p. rewrite (HP [] l eq_refl empty_table) by (intros; cbn; rewrite lookup_empty; set_solver).
  split; [by apply insert_pairs_in|]. intros Hl.
  destruct (decide (n ∈ l.*1)) as [[[n' p'] [-> Hin]]%list_elem_of_fmap|Hn].
  - cbn in Hl. rewrite (insert_pairs_in _ _ _ _ Hnd Hin) in Hl. by simplify_eq.
  - rewrite insert_pairs_notin, lookup_empty in Hl by done. done.
Qed.

#[export] Program Instance naive_users_spec : UserInboundSpec userTable :=
  {| inbound_ok := table_ok |}.
Next Obligation. intros i Hi. by apply table_ok_distinct. Qed.
Next Obligation.
  intros i us Hi Hd Hnd. cbn. rewrite insert_users_pairs in *.
  pose proof (replace_spec i (entry <$> us) (entry_NoDup us Hnd) Hd) as H.
  by rewrite <- !list_fmap_compose in H.
Qed.
Next Obligation.
  intros i us Hi Hd Hnd. cbn. unfold add. rewrite zip_entries. rewrite insert_users_pairs in *.
  apply (add_pairs_byName i (byName i)); auto using entry_NoDup.
Qed.
Next Obligation. intros i names Hi. by apply remove_spec. Qed.

(** *** Any history of panel updates *)

Inductive table_op := TAdd (names passwords : list string) | TRemove (names : list string).
Definition table_step (t : userTable) (o : table_op) : userTable :=
  match o with TAdd names passwords => add t names passwords | TRemove names => remove t names end.

Lemma table_steps_ok users ops : table_ok (foldl table_step (newUserTable users) ops).
Proof.
  apply foldl_inv; [apply add_ok, table_ok_empty|].
  intros t [names passwords|names] _ Ht; [by apply add_ok|by apply remove_spec].
Qed.

(** After any history of incremental updates the naive table is a
    one-to-one correspondence between names and passwords: a password
    authenticates as exactly the one user whose current password it is, and a
    removed user's password authenticates as nobody. *)
Theorem naive_table_one_to_one users ops :
  let t := foldl table_step (newUserTable users) ops in
  (∀ p n, lookup t p = Some n ↔ byName t !! n = Some p)
  ∧ (∀ n n' p, byName t !! n = Some p → byName t !! n' = Some p → n = n')
  ∧ (∀ names p n, lookup (remove t names) p = Some n ↔ lookup t p = Some n ∧ n ∉ names).
Proof.
  intros t. pose proof (table_steps_ok users ops) as Hok. fold t in Hok. split; [|split].
  - intros p n. apply Hok.
  - intros n n' p. by apply table_ok_distinct.
  - intros names p n. destruct (remove_spec t names Hok) as [Hok' HN].
    unfold lookup. rewrite (Hok' n p), (Hok n p), HN, lookup_delete_names.
    case_decide; naive_solver.
Qed.

(** The full-refresh path does not keep that correspondence: when two
    users of the list share a password, removing the first one also removes
    the password of the second, who stays in the table but can no longer
    authenticate; the incremental path keeps the second one working. *)
Theorem naive_replace_shared_password t n1 n2 p :
  n1 ≠ n2 →
  lookup (remove (replace t [n1; n2] [p; p]) [n1]) p = None
  ∧ byName (remove (replace t [n1; n2] [p; p]) [n1]) !! n2 = Some p
  ∧ lookup (remove (add empty_table [n1; n2] [p; p]) [n1]) p = Some n2.
Proof.
  intros Hne.
  assert (remove (replace t [n1; n2] [p; p]) [n1]
          = {| byPassword := delete p (byPassword (replace t [n1; n2] [p; p]));
               byName := delete n1 (byName (replace t [n1; n2] [p; p])) |}) as ->.
  { cbn. unfold remove1. cbn. by rewrite lookup_insert_ne, lookup_insert_eq. }
  split; [apply lookup_delete_eq|]. split.
  - cbn [byName]. rewrite lookup_delete_ne by done. apply lookup_insert_eq.
  - set (t' := add empty_table [n1; n2] [p; p]).
    assert (table_ok t') as Hok by apply add_ok, table_ok_empty.
    destruct (remove_spec t' [n1] Hok) as [Hok' HN]. apply Hok'.
    rewrite HN, lookup_delete_names, decide_False by set_solver.
    unfold t', add. cbn [zip zip_with foldl].
    rewrite add1_byName, decide_True by auto using add1_ok, table_ok_empty. done.
Qed.

Lemma naive_replace_shared_password_witness :
  lookup (remove (replace empty_table ["u1"; "u2"] ["same"; "same"]) ["u1"]) "same" = None.
Proof.
  exact (proj1 (naive_replace_shared_password empty_table "u1" "u2" "same" ltac:(discriminate))).
Defined.
End Naive.

(** ** AnyTLS and Hysteria2: tables inside the protocol services

    sing-anytls and the sing-quic fork keep the users in their own services.
    What SingR relies on is their documented contract: UpdateUsers replaces
    the table, AddUsers inserts or updates, RemoveUsers drops by name.  Nothing
    is said of an AddUsers after which two names would share a password. *)

Class UserService (Sv : Type) := {
  svc_new : Sv;
  svc_UpdateUsers : Sv → list (string * string) → Sv;
  svc_AddUsers : Sv → list (string * string) → Sv;
  svc_RemoveUsers : Sv → list string → Sv;
  svc_table : Sv → gmap string string;
}.
Class UserServiceSpec (Sv : Type) `{UserService Sv} := {
  svc_new_spec : svc_table svc_new = ∅;
  svc_UpdateUsers_spec : ∀ s l, NoDup l.*1 → svc_table (svc_UpdateUsers s l) = insert_pairs ∅ l;
  svc_AddUsers_spec : ∀ s l, NoDup l.*1 → passwords_distinct (insert_pairs (svc_table s) l) →
    svc_table (svc_AddUsers s l) = insert_pairs (svc_table s) l;
  svc_RemoveUsers_spec : ∀ s l, svc_table (svc_RemoveUsers s l) = delete_names (svc_table s) l;
}.

(** A service that is just the table, to evaluate examples with. *)
#[export] Instance map_service : UserService (gmap string string) | 100 :=
  {| svc_new := ∅; svc_UpdateUsers _ l := insert_pairs ∅ l; svc_AddUsers m l := insert_pairs m l;
     svc_RemoveUsers m l := delete_names m l; svc_table m := m |}.
#[export] Instance map_service_spec : UserServiceSpec (gmap string string) | 100.
Proof. by split. Qed.

Module Anytls.
Section anytls.
Context {Sv : Type} `{UserServiceSpec Sv}.

(** buildAnyTLSUsers: one anytls.User per panel user. *)
Definition buildAnyTLSUsers (users : list UserInfo) : list (string * string) := entry <$> users.

#[export] Instance anytls_users : UserInbound Sv :=
  {| RefreshUsers s us := svc_UpdateUsers s (buildAnyTLSUsers us);
     AddUsers s us := svc_AddUsers s (buildAnyTLSUsers us);
     RemoveUsers s names := svc_RemoveUsers s names;
     users_view := svc_table |}.

Lemma passwords_distinct_delete m names :
  passwords_distinct m → passwords_distinct (delete_names m names).
Proof.
  intros Hd n n' p. rewrite !lookup_delete_names. repeat case_decide; try done. apply Hd.
Qed.

#[export] Program Instance anytls_users_spec : UserInboundSpec Sv :=
  {| inbound_ok s := passwords_distinct (svc_table s) |}.
Next Obligation. done. Qed.
Next Obligation.
  intros s us Hs Hd Hnd. cbn. rewrite insert_users_pairs in *.
  rewrite svc_UpdateUsers_spec by (by apply entry_NoDup). done.
Qed.
Next Obligation.
  intros s us Hs Hd Hnd. cbn in *. rewrite insert_users_pairs in *.
  rewrite svc_AddUsers_spec; [done|by apply entry_NoDup|done].
Qed.
Next Obligation.
  intros s names Hs. cbn. rewrite svc_RemoveUsers_spec. split; [|done].
  by apply passwords_distinct_delete.
Qed.
End anytls.
End Anytls.

Module Hysteria2.
(** The part of the Inbound the user operations touch: the mirror
    [currentUsers] and the live service. *)
Record users_state (Sv : Type) := { currentUsers : gmap string string; service : Sv }.
Arguments currentUsers {Sv} _.
Arguments service {Sv} _.

Definition buildHysteria2Users (users : list UserInfo) : list string * list string :=
  ((λ u, user_name (ui_UID u)) <$> users, user_password <$> users).

Section hysteria2.
Context {Sv : Type} `{UserServiceSpec Sv}.

Definition hy2_RefreshUsers (h : users_state Sv) (us : list UserInfo) : users_state Sv :=
  let '(names, passwords) := buildHysteria2Users us in
  {| currentUsers := insert_pairs ∅ (zip names passwords);
     service := svc_UpdateUsers (service h) (zip names passwords) |}.
Definition hy2_AddUsers (h : users_state Sv) (us : list UserInfo) : users_state Sv :=
  let '(names, passwords) := buildHysteria2Users us in
  {| currentUsers := insert_pairs (currentUsers h) (zip names passwords);
     service := svc_AddUsers (service h) (zip names passwords) |}.
Definition hy2_RemoveUsers (h : users_state Sv) (names : list string) : users_state Sv :=
  {| currentUsers := delete_names (currentUsers h) names;
     service := svc_RemoveUsers (service h) names |}.

(** applyUsersLocked: push the mirror into a (new) service. *)
Definition applyUsersLocked `{RangeOrder} (h : users_state Sv) (s : Sv) : Sv :=
  svc_UpdateUsers s (range (currentUsers h)).

#[export] Instance hysteria2_users : UserInbound (users_state Sv) :=
  {| RefreshUsers := hy2_RefreshUsers; AddUsers := hy2_AddUsers; RemoveUsers := hy2_RemoveUsers;
     users_view h := svc_table (service h) |}.

(** The mirror is the service's table, so a rebuilt service can be refilled. *)
Definition mirror_ok (h : users_state Sv) : Prop :=
  currentUsers h = svc_table (service h) ∧ passwords_distinct (currentUsers h).

#[export] Program Instance hysteria2_users_spec : UserInboundSpec (users_state Sv) :=
  {| inbound_ok := mirror_ok |}.
Next Obligation. intros h [Hm Hd]. cbn. by rewrite <- Hm. Qed.
Next Obligation.
  intros h us Hs Hd Hnd. cbn. unfold mirror_ok. cbn. rewrite zip_entries.
  rewrite insert_users_pairs in *. rewrite svc_UpdateUsers_spec by (by apply entry_NoDup). done.
Qed.
Next Obligation.
  intros h us [Hm Hs] Hd Hnd. cbn in *. unfold mirror_ok. cbn. rewrite zip_entries.
  rewrite insert_users_pairs in *. rewrite svc_AddUsers_spec; [|by apply entry_NoDup|done].
  rewrite Hm. done.
Qed.
Next Obligation.
  intros h names [Hm Hs]. cbn. unfold mirror_ok. cbn. rewrite svc_RemoveUsers_spec, Hm.
  split; [|done]. split; [done|]. rewrite <- Hm. by apply Anytls.passwords_distinct_delete.
Qed.

Lemma insert_pairs_range `{RangeOrder} (m : gmap string string) : insert_pairs ∅ (range m) = m.
Proof.
  apply map_eq. intros n. apply option_eq. intros p.
  destruct (decide (n ∈ (range m).*1)) as [[[n' p'] [-> Hin]]%list_elem_of_fmap|Hn].
  - cbn. rewrite (insert_pairs_in _ _ _ _ (NoDup_range_fst m) Hin).
    apply elem_of_range in Hin. by rewrite Hin.
  - rewrite insert_pairs_notin, lookup_empty by done. split; [done|]. intros Hm.
    destruct Hn. apply list_elem_of_fmap. exists (n, p). split; [done|]. by apply elem_of_range.
Qed.

(** A service built from scratch and refilled from the mirror has the users
    the old one had. *)
Lemma applyUsersLocked_table `{RangeOrder} h s :
  mirror_ok h → svc_table (applyUsersLocked h s) = svc_table (service h).
Proof.
  intros [Hm _]. unfold applyUsersLocked.
  rewrite svc_UpdateUsers_spec by apply NoDup_range_fst. by rewrite insert_pairs_range.
Qed.
End hysteria2.
End Hysteria2.
