(* ===== verification/Controller.v ===== *)
(** * poet/controller: one panel node

    The controller owns a node: it polls the panel, computes the difference
    between the panel's user list and its own, pushes it into the inbound and
    the authenticator, drains the traffic counters and reports them.  State is
    passed explicitly; the panel and the inbound are used only through their
    interfaces, and [k_calls] records, in order, the reports handed to the
    panel client. *)

From S2P Require Import Prelude GoStrings Float64 Api Authenticator PanelUsers.

Open Scope Z_scope.

(** controller.Config *)
Record Config := {
  cf_PanelType : string; cf_UpdatePeriodic : Z; cf_ListenIP : string; cf_SendIP : string;
  cf_EnableDeviceLimit : bool;
}.

(** Reports handed to the panel client. *)
Inductive panel_call :=
  | CallTraffic (l : list UserTraffic)
  | CallOnline (l : list OnlineUser)
  | CallIllegal (l : list DetectResult)
  | CallStatus (s : NodeStatus).

(** What the controller asks of an inbound.  The three booleans are the
    outcomes of Go's type assertions; [W] is what the machine answers during
    the call (ports that bind, certificates that load). *)
Class PanelInbound (I W : Type) := {
  is_PIncremental : bool;     (* in.(adapter.PIncrementalUserInbound) *)
  is_PInbound : bool;         (* in.(adapter.PInbound) *)
  is_PConfigurable : bool;    (* in.(adapter.PStartupConfigurableInbound) *)
  pi_AddUsers : I → W → list UserInfo → I * result unit;
  pi_RemoveUsers : I → W → list string → I * result unit;
  pi_RefreshUsers : I → W → list UserInfo → I * result unit;
  pi_ConfigureFromPanelNode : I → W → NodeInfo → I * result unit;
}.

(** ** Pure parts of control.go *)

Definition trafficForSSPanel (sent recv : Z) : Z * Z := (sent, recv).

Definition determineRate (nodeLimit userLimit : Z) : Z :=
  if bool_decide (nodeLimit = 0) || bool_decide (userLimit = 0) then
    if bool_decide (userLimit < nodeLimit) then nodeLimit else userLimit
  else if bool_decide (nodeLimit < userLimit) then nodeLimit else userLimit.

Definition userMaterialChanged (a b : UserInfo) : bool :=
  bool_decide (ui_UUID a ≠ ui_UUID b) || bool_decide (ui_Passwd a ≠ ui_Passwd b)
  || bool_decide (ui_Email a ≠ ui_Email b) || bool_decide (ui_Port a ≠ ui_Port b)
  || bool_decide (ui_SpeedLimit a ≠ ui_SpeedLimit b) || bool_decide (ui_DeviceLimit a ≠ ui_DeviceLimit b).

(** One iteration of the first loop of diffUsers.  The maps only ever hold
    non-nil pointers, so a value stands for the pointer. *)
Definition diff_user (old : gmap string UserInfo) (hashFn : UserInfo → string)
    (st : gmap string UserInfo * list string * list string) (u : UserInfo)
    : gmap string UserInfo * list string * list string :=
  let '(next, added, changed) := st in
  let hash := hashFn u in
  match next !! hash with
  | Some _ => (next, added, changed)
  | None =>
      let next := <[hash := u]> next in
      match old !! hash with
      | None => (next, added ++ [hash], changed)
      | Some oldUser =>
          if userMaterialChanged oldUser u then (next, added, changed ++ [hash])
          else (next, added, changed)
      end
  end.

Record user_diff := {
  d_next : gmap string UserInfo; d_added : list string; d_deleted : list string; d_changed : list string;
}.

Definition diffUsers `{RangeOrder} (old : gmap string UserInfo) (newList : list UserInfo)
    (hashFn : UserInfo → string) : user_diff :=
  let '(next, added, changed) := foldl (diff_user old hashFn) (∅, [], []) newList in
  let deleted := filter (λ hash, next !! hash = None) (range old).*1 in
  {| d_next := next; d_added := added; d_deleted := deleted; d_changed := changed |}.

Definition usersFromMap `{RangeOrder} (users : gmap string UserInfo) : list UserInfo := (range users).*2.

Definition usersForHashes (users : gmap string UserInfo) (hashes : list string) : list UserInfo :=
  omap (λ hash, users !! hash) hashes.

Definition detectDedupTTL : Z := 60 * 10 ^ 9.   (* nanoseconds *)

Section controller.
Context `{RangeOrder, Regexp} {C W : Type} `{PanelAPI C W} {I WI : Type} `{PanelInbound I WI}.

Record Controller := {
  k_config : Config;
  k_client : C;
  k_nodeInfo : option NodeInfo;
  k_Tag : string;
  k_usersMap : gmap string UserInfo;
  k_startAt : Z;
  k_inbound : I;
  k_author : Authenticator;
  k_detectRules : option (list DetectRule);
  k_detectResults : list DetectResult;
  k_detectDedup : gmap (Z * Z) Z;
  k_detectGetWarns : Z;
  k_reloadPending : bool;
  k_userSyncPending : bool;
  k_lastUserList : list UserInfo;
  k_tasksStarted : bool;
  k_calls : list panel_call;
}.

(** Field updates. *)
Definition with_client (c : Controller) (x : C) : Controller :=
  {| k_config := k_config c; k_client := x; k_nodeInfo := k_nodeInfo c; k_Tag := k_Tag c;
     k_usersMap := k_usersMap c; k_startAt := k_startAt c; k_inbound := k_inbound c;
     k_author := k_author c; k_detectRules := k_detectRules c;
     k_detectResults := k_detectResults c; k_detectDedup := k_detectDedup c;
     k_detectGetWarns := k_detectGetWarns c; k_reloadPending := k_reloadPending c;
     k_userSyncPending := k_userSyncPending c; k_lastUserList := k_lastUserList c;
     k_tasksStarted := k_tasksStarted c; k_calls := k_calls c |}.
Definition with_calls (c : Controller) (x : list panel_call) : Controller :=
  {| k_config := k_config c; k_client := k_client c; k_nodeInfo := k_nodeInfo c;
     k_Tag := k_Tag c; k_usersMap := k_usersMap c; k_startAt := k_startAt c;
     k_inbound := k_inbound c; k_author := k_author c; k_detectRules := k_detectRules c;
     k_detectResults := k_detectResults c; k_detectDedup := k_detectDedup c;
     k_detectGetWarns := k_detectGetWarns c; k_reloadPending := k_reloadPending c;
     k_userSyncPending := k_userSyncPending c; k_lastUserList := k_lastUserList c;
     k_tasksStarted := k_tasksStarted c; k_calls := x |}.
Definition with_node (c : Controller) (n : option NodeInfo) (t : string) : Controller :=
  {| k_config := k_config c; k_client := k_client c; k_nodeInfo := n; k_Tag := t;
     k_usersMap := k_usersMap c; k_startAt := k_startAt c; k_inbound := k_inbound c;
     k_author := k_author c; k_detectRules := k_detectRules c;
     k_detectResults := k_detectResults c; k_detectDedup := k_detectDedup c;
     k_detectGetWarns := k_detectGetWarns c; k_reloadPending := k_reloadPending c;
     k_userSyncPending := k_userSyncPending c; k_lastUserList := k_lastUserList c;
     k_tasksStarted := k_tasksStarted c; k_calls := k_calls c |}.
Definition with_usersMap (c : Controller) (m : gmap string UserInfo) : Controller :=
  {| k_config := k_config c; k_client := k_client c; k_nodeInfo := k_nodeInfo c;
     k_Tag := k_Tag c; k_usersMap := m; k_startAt := k_startAt c; k_inbound := k_inbound c;
     k_author := k_author c; k_detectRules := k_detectRules c;
     k_detectResults := k_detectResults c; k_detectDedup := k_detectDedup c;
     k_detectGetWarns := k_detectGetWarns c; k_reloadPending := k_reloadPending c;
     k_userSyncPending := k_userSyncPending c; k_lastUserList := k_lastUserList c;
     k_tasksStarted := k_tasksStarted c; k_calls := k_calls c |}.
Definition with_inbound (c : Controller) (i : I) : Controller :=
  {| k_config := k_config c; k_client := k_client c; k_nodeInfo := k_nodeInfo c;
     k_Tag := k_Tag c; k_usersMap := k_usersMap c; k_startAt := k_startAt c; k_inbound := i;
     k_author := k_author c; k_detectRules := k_detectRules c;
     k_detectResults := k_detectResults c; k_detectDedup := k_detectDedup c;
     k_detectGetWarns := k_detectGetWarns c; k_reloadPending := k_reloadPending c;
     k_userSyncPending := k_userSyncPending c; k_lastUserList := k_lastUserList c;
     k_tasksStarted := k_tasksStarted c; k_calls := k_calls c |}.
Definition with_author (c : Controller) (a : Authenticator) : Controller :=
  {| k_config := k_config c; k_client := k_client c; k_nodeInfo := k_nodeInfo c;
     k_Tag := k_Tag c; k_usersMap := k_usersMap c; k_startAt := k_startAt c;
     k_inbound := k_inbound c; k_author := a; k_detectRules := k_detectRules c;
     k_detectResults := k_detectResults c; k_detectDedup := k_detectDedup c;
     k_detectGetWarns := k_detectGetWarns c; k_reloadPending := k_reloadPending c;
     k_userSyncPending := k_userSyncPending c; k_lastUserList := k_lastUserList c;
     k_tasksStarted := k_tasksStarted c; k_calls := k_calls c |}.
Definition with_detectRules (c : Controller) (r : option (list DetectRule)) (w : Z) : Controller :=
  {| k_config := k_config c; k_client := k_client c; k_nodeInfo := k_nodeInfo c;
     k_Tag := k_Tag c; k_usersMap := k_usersMap c; k_startAt := k_startAt c;
     k_inbound := k_inbound c; k_author := k_author c; k_detectRules := r;
     k_detectResults := k_detectResults c; k_detectDedup := k_detectDedup c;
     k_detectGetWarns := w; k_reloadPending := k_reloadPending c;
     k_userSyncPending := k_userSyncPending c; k_lastUserList := k_lastUserList c;
     k_tasksStarted := k_tasksStarted c; k_calls := k_calls c |}.
Definition with_detects (c : Controller) (l : list DetectResult) (d : gmap (Z * Z) Z) : Controller :=
  {| k_config := k_config c; k_client := k_client c; k_nodeInfo := k_nodeInfo c;
     k_Tag := k_Tag c; k_usersMap := k_usersMap c; k_startAt := k_startAt c;
     k_inbound := k_inbound c; k_author := k_author c; k_detectRules := k_detectRules c;
     k_detectResults := l; k_detectDedup := d; k_detectGetWarns := k_detectGetWarns c;
     k_reloadPending := k_reloadPending c; k_userSyncPending := k_userSyncPending c;
     k_lastUserList := k_lastUserList c; k_tasksStarted := k_tasksStarted c;
     k_calls := k_calls c |}.
Definition with_reload (c : Controller) (b : bool) : Controller :=
  {| k_config := k_config c; k_client := k_client c; k_nodeInfo := k_nodeInfo c;
     k_Tag := k_Tag c; k_usersMap := k_usersMap c; k_startAt := k_startAt c;
     k_inbound := k_inbound c; k_author := k_author c; k_detectRules := k_detectRules c;
     k_detectResults := k_detectResults c; k_detectDedup := k_detectDedup c;
     k_detectGetWarns := k_detectGetWarns c; k_reloadPending := b;
     k_userSyncPending := k_userSyncPending c; k_lastUserList := k_lastUserList c;
     k_tasksStarted := k_tasksStarted c; k_calls := k_calls c |}.
Definition with_pending (c : Controller) (b : bool) (l : list UserInfo) : Controller :=
  {| k_config := k_config c; k_client := k_client c; k_nodeInfo := k_nodeInfo c;
     k_Tag := k_Tag c; k_usersMap := k_usersMap c; k_startAt := k_startAt c;
     k_inbound := k_inbound c; k_author := k_author c; k_detectRules := k_detectRules c;
     k_detectResults := k_detectResults c; k_detectDedup := k_detectDedup c;
     k_detectGetWarns := k_detectGetWarns c; k_reloadPending := k_reloadPending c;
     k_userSyncPending := b; k_lastUserList := l; k_tasksStarted := k_tasksStarted c;
     k_calls := k_calls c |}.
Definition with_tasks (c : Controller) (b : bool) : Controller :=
  {| k_config := k_config c; k_client := k_client c; k_nodeInfo := k_nodeInfo c;
     k_Tag := k_Tag c; k_usersMap := k_usersMap c; k_startAt := k_startAt c;
     k_inbound := k_inbound c; k_author := k_author c; k_detectRules := k_detectRules c;
     k_detectResults := k_detectResults c; k_detectDedup := k_detectDedup c;
     k_detectGetWarns := k_detectGetWarns c; k_reloadPending := k_reloadPending c;
     k_userSyncPending := k_userSyncPending c; k_lastUserList := k_lastUserList c;
     k_tasksStarted := b; k_calls := k_calls c |}.

(** What the outside answers during one activity. *)
Record Env := { e_net : W; e_inb : WI; e_now : Z; e_sys : result NodeStatus }.

Definition buildUserHash (c : Controller) (u : UserInfo) : string :=
  if bool_decide (cf_PanelType (k_config c) = "SSpanel") then user_name (ui_UID u) else ui_UUID u.

(** New *)
Definition new_controller (config : Config) (client : C) (inbound : I) (now : Z) : Controller :=
  {| k_config := config; k_client := client; k_nodeInfo := None; k_Tag := ""; k_usersMap := ∅;
     k_startAt := now; k_inbound := inbound; k_author := NewAuthenticator; k_detectRules := None;
     k_detectResults := []; k_detectDedup := ∅; k_detectGetWarns := 0; k_reloadPending := false;
     k_userSyncPending := false; k_lastUserList := []; k_tasksStarted := false; k_calls := [] |}.

Definition nodeSpeedLimit (c : Controller) : Z :=
  match k_nodeInfo c with Some n => ni_SpeedLimit n | None => 0 end.

(** *** Limits *)

Definition ApplyUserLimits (c : Controller) (hash : string) (info : UserInfo) : Controller :=
  let a := fst (SetUserSpeedLimit (k_author c) hash (determineRate (nodeSpeedLimit c) (ui_SpeedLimit info))) in
  let a := if cf_EnableDeviceLimit (k_config c) then fst (SetUserDeviceLimit a hash (ui_DeviceLimit info)) else a in
  with_author c a.

Definition refreshAllSpeedLimits (c : Controller) : Controller :=
  foldl (λ c '(hash, u), ApplyUserLimits c hash u) c (range (k_usersMap c)).

(** *** User synchronisation *)

Definition call_traffic (c : Controller) (e : Env) (l : list UserTraffic) : Controller * result unit :=
  let '(client, r) := ReportUserTraffic (k_client c) (e_net e) l in
  (with_calls (with_client c client) (k_calls c ++ [CallTraffic l]), r).

(** Drain one user's counters into the report. *)
Definition dump_user (st : Authenticator * list UserTraffic) (hash : string) : Authenticator * list UserTraffic :=
  let '(a, report) := st in
  match LoadUser a hash ≫= λ l, (λ u, (l, u)) <$> a_heap a !! l with
  | None => (a, report)
  | Some (l, u) =>
      let '(u', (sent, recv)) := ResetTraffic u in
      let a' := update_user a l (λ _, u') in
      if bool_decide (sent = 0) && bool_decide (recv = 0) then (a', report)
      else let '(up, down) := trafficForSSPanel sent recv in
           (a', report ++ [{| ut_UID := u_UID u; ut_Email := u_Email u; ut_Upload := up; ut_Download := down |}])
  end.

(** A failed report is only logged: the bytes are discarded. *)
Definition dumpTrafficForDeleted (c : Controller) (e : Env) (deleted : list string) : Controller * result unit :=
  let '(a, report) := foldl dump_user (k_author c, []) deleted in
  let c := with_author c a in
  if bool_decide (report = []) then (c, Ok tt) else call_traffic c e report.

Definition applyRuntimeUserDelta (c : Controller) (e : Env) (deleted : list string)
    (deltaAddedChangedUsers runtimeUsers : list UserInfo) : I * result unit :=
  let i := k_inbound c in
  if is_PIncremental then
    let '(i, r) := if bool_decide (deleted = []) then (i, Ok tt) else pi_RemoveUsers i (e_inb e) deleted in
    match r with
    | Ok _ =>
        if bool_decide (deltaAddedChangedUsers = []) then (i, Ok tt)
        else pi_AddUsers i (e_inb e) deltaAddedChangedUsers
    | _ => (i, r)
    end
  else if is_PInbound then pi_RefreshUsers i (e_inb e) runtimeUsers
  else (i, Err (ENew "inbound type does not support user refresh")).

Definition install_user (next : gmap string UserInfo) (c : Controller) (hash : string) : Controller :=
  match next !! hash with
  | None => c
  | Some u =>
      let a := SetUserProfile (k_author c) hash u in
      let a := SetUserAliases a hash [ui_UUID u; ui_Passwd u; ui_Email u] in
      ApplyUserLimits (with_author c a) hash u
  end.

Definition add_user (next : gmap string UserInfo) (a : Authenticator) (hash : string) : Authenticator :=
  match next !! hash with
  | None => a
  | Some u => fst (AddUser a hash (ui_UID u))
  end.

(** The part of syncUserList after the runtime accepted the delta. *)
Definition commit_users (c : Controller) (d : user_diff) : Controller :=
  let c := with_pending c false [] in
  let c := with_author c (foldl (λ a hash, fst (DelUser a hash)) (k_author c) (d_deleted d)) in
  let c := with_author c (foldl (add_user (d_next d)) (k_author c) (d_added d)) in
  let c := with_usersMap c (d_next d) in
  let c := foldl (install_user (d_next d)) c (d_added d) in
  foldl (install_user (d_next d)) c (d_changed d).

(** syncUserList from the point where the list to apply is known. *)
Definition sync_list (c : Controller) (e : Env) (userInfo : list UserInfo) : Controller * result unit :=
  let d := diffUsers (k_usersMap c) userInfo (buildUserHash c) in
  let c := if bool_decide (d_deleted d = []) then c else fst (dumpTrafficForDeleted c e (d_deleted d)) in
  let runtimeUsers := usersFromMap (d_next d) in
  let delta := usersForHashes (d_next d) (d_added d ++ d_changed d) in
  let shouldRefresh :=
    negb (bool_decide (d_added d = []) && bool_decide (d_deleted d = []) && bool_decide (d_changed d = [])) in
  let '(i, r) := if shouldRefresh then applyRuntimeUserDelta c e (d_deleted d) delta runtimeUsers
                 else (k_inbound c, Ok tt) in
  let c := with_inbound c i in
  match r with
  | Ok _ => (commit_users c d, Ok tt)
  | Err err => (with_pending c true userInfo, Err err)
  | Panic w => (c, Panic w)
  end.

Definition syncUserList (c : Controller) (e : Env) : Controller * result unit :=
  let '(client, r) := GetUserList (k_client c) (e_net e) in
  let c := with_client c client in
  match r with
  | Panic w => (c, Panic w)
  | Err err =>
      if negb (is_text err UserNotModified) then (c, Err err)
      else if negb (k_userSyncPending c) then (c, Ok tt)
      else sync_list c e (k_lastUserList c)
  | Ok userInfo => sync_list c e userInfo
  end.

(** *** Audit rules *)

Definition refreshDetectRules (c : Controller) (e : Env) : Controller * result unit :=
  let '(client, r) := GetNodeRule (k_client c) (e_net e) in
  let c := with_client c client in
  match r with
  | Ok rules => (with_detectRules c (Some rules) 0, Ok tt)
  | Err err =>
      if is_text err RuleNotModified then (c, Ok tt)
      else (with_detectRules c (k_detectRules c) (k_detectGetWarns c + 1), Ok tt)
  | Panic w => (c, Panic w)
  end.

Definition recordDetect (c : Controller) (now uid ruleID : Z) : Controller :=
  match k_detectDedup c !! (uid, ruleID) with
  | Some exp =>
      if bool_decide (now < exp) then c
      else
        let dedup := <[(uid, ruleID) := now + detectDedupTTL]> (k_detectDedup c) in
        let dedup := if bool_decide (4096 < Z.of_nat (size dedup))
                     then filter (λ '(_, exp), ¬ (exp < now)) dedup else dedup in
        with_detects c (k_detectResults c ++ [{| de_UID := uid; de_RuleID := ruleID |}]) dedup
  | None =>
      let dedup := <[(uid, ruleID) := now + detectDedupTTL]> (k_detectDedup c) in
      let dedup := if bool_decide (4096 < Z.of_nat (size dedup))
                   then filter (λ '(_, exp), ¬ (exp < now)) dedup else dedup in
      with_detects c (k_detectResults c ++ [{| de_UID := uid; de_RuleID := ruleID |}]) dedup
  end.

Fixpoint first_match (host : string) (rules : list DetectRule) : option Z :=
  match rules with
  | [] => None
  | r :: rules =>
      match dr_Pattern r with
      | Some p => if regexp_match p host then Some (dr_ID r) else first_match host rules
      | None => first_match host rules
      end
  end.

Definition MatchAudit (c : Controller) (now uid : Z) (host : string) : Controller * option Z :=
  if bool_decide (host = "") then (c, None)
  else match k_detectRules c with
       | None => (c, None)
       | Some rules =>
           match first_match host rules with
           | Some id => (recordDetect c now uid id, Some id)
           | None => (c, None)
           end
       end.

Definition drainDetectResults (c : Controller) : Controller * list DetectResult :=
  (with_detects c [] (k_detectDedup c), k_detectResults c).

(** *** The node monitor *)

Definition delayed (c : Controller) (e : Env) : bool :=
  bool_decide (e_now e - k_startAt c < cf_UpdatePeriodic (k_config c) * 10 ^ 9).

Definition configure_inbound (c : Controller) (e : Env) : I * result unit :=
  match k_nodeInfo c with
  | Some n => pi_ConfigureFromPanelNode (k_inbound c) (e_inb e) n
  | None => (k_inbound c, Ok tt)
  end.

(** The tail of nodeInfoMonitor, after a successful user sync. *)
Definition monitor_reload (c : Controller) (e : Env) (nodeInfoChanged : bool) : Controller * result unit :=
  if (nodeInfoChanged || k_reloadPending c) && is_PConfigurable then
    let '(i, r) := configure_inbound c e in
    match r with
    | Ok _ => (with_reload (with_inbound c i) false, Ok tt)
    | Err _ => (with_reload (with_inbound c i) true, Ok tt)
    | Panic w => (with_inbound c i, Panic w)
    end
  else (c, Ok tt).

Definition nodeInfoMonitor (c : Controller) (e : Env) : Controller * result unit :=
  if delayed c e then (c, Ok tt)
  else
    let '(client, r) := GetNodeInfo (k_client c) (e_net e) in
    let c := with_client c client in
    let next :=
      match r with
      | Ok n => Some (true, Some n)
      | Err err => if is_text err NodeNotModified then Some (false, k_nodeInfo c) else None
      | Panic _ => None
      end in
    match next with
    | None => match r with Panic w => (c, Panic w) | _ => (c, Ok tt) end
    | Some (nodeInfoChanged, newNodeInfo) =>
        match newNodeInfo with
        | None => (c, Panic "nil pointer dereference")
        | Some n =>
            if bool_decide (ni_Port n = 0) then (c, Err (ENew "server port must > 0"))
            else
              let prevNodeSpeedLimit := nodeSpeedLimit c in
              let c := with_node c (Some n) (k_Tag c) in
              let '(c, r) := syncUserList c e in
              match r with
              | Panic w => (c, Panic w)
              | Err _ => (c, Ok tt)
              | Ok _ =>
                  let c := if bool_decide (ni_SpeedLimit n = prevNodeSpeedLimit) then c
                           else refreshAllSpeedLimits c in
                  let '(c, r) := refreshDetectRules c e in
                  match r with
                  | Panic w => (c, Panic w)
                  | _ => monitor_reload c e nodeInfoChanged
                  end
              end
        end
    end.

(** *** The user monitor *)

(** One iteration of the reporting loop. *)
Definition report_user (st : Authenticator * list UserTraffic * list OnlineUser) (l : nat)
    : Authenticator * list UserTraffic * list OnlineUser :=
  let '(a, traffic, online) := st in
  match a_heap a !! l with
  | None => (a, traffic, online)
  | Some u =>
      let '(u1, (sent, recv)) := ResetTraffic u in
      if bool_decide (sent = 0) && bool_decide (recv = 0)
      then (update_user a l (λ _, u1), traffic, online)
      else
        let '(up, down) := trafficForSSPanel sent recv in
        let '(u2, iplist) := ResetIPTable u1 in
        (update_user a l (λ _, u2),
         traffic ++ [{| ut_UID := u_UID u; ut_Email := u_Email u; ut_Upload := up; ut_Download := down |}],
         online ++ ((λ ip, {| ou_UID := u_UID u; ou_IP := ip |}) <$> iplist))
  end.

Definition call_online (c : Controller) (e : Env) (l : list OnlineUser) : Controller :=
  let '(client, _) := ReportNodeOnlineUsers (k_client c) (e_net e) l in
  with_calls (with_client c client) (k_calls c ++ [CallOnline l]).
Definition call_illegal (c : Controller) (e : Env) (l : list DetectResult) : Controller :=
  let '(client, _) := ReportIllegal (k_client c) (e_net e) l in
  with_calls (with_client c client) (k_calls c ++ [CallIllegal l]).
Definition call_status (c : Controller) (e : Env) (s : NodeStatus) : Controller :=
  let '(client, _) := ReportNodeStatus (k_client c) (e_net e) s in
  with_calls (with_client c client) (k_calls c ++ [CallStatus s]).

Definition userInfoMonitor (c : Controller) (e : Env) : Controller * result unit :=
  if delayed c e then (c, Ok tt)
  else
    let c := match e_sys e with Ok s => call_status c e s | _ => c end in
    let '(a, userTraffic, onlineUsers) :=
      foldl report_user (k_author c, [], []) (ListUsers (k_author c)) in
    let c := with_author c a in
    let c := if bool_decide (userTraffic = []) then c else fst (call_traffic c e userTraffic) in
    let c := if bool_decide (onlineUsers = []) then c else call_online c e onlineUsers in
    let '(c, hits) := drainDetectResults c in
    let c := if bool_decide (hits = []) then c else call_illegal c e hits in
    (c, Ok tt).

(** *** Start and connections *)

Definition buildNodeTag (c : Controller) (n : NodeInfo) : string :=
  ni_NodeType n +:+ "_" +:+ cf_ListenIP (k_config c) +:+ "_" +:+ Itoa (ni_Port n).

Definition Start (c : Controller) (e : Env) : Controller * result unit :=
  let '(client, r) := GetNodeInfo (k_client c) (e_net e) in
  let c := with_client c client in
  match r with
  | Panic w => (c, Panic w)
  | Err err => (c, Err err)
  | Ok n =>
      if bool_decide (ni_Port n = 0) then (c, Err (ENew "server port must > 0"))
      else
        let c := with_node c (Some n) (buildNodeTag c n) in
        let '(i, r) := if is_PConfigurable then pi_ConfigureFromPanelNode (k_inbound c) (e_inb e) n
                       else (k_inbound c, Ok tt) in
        let c := with_inbound c i in
        match r with
        | Panic w => (c, Panic w)
        | Err err => (c, Err err)
        | Ok _ =>
            let '(c, r) := syncUserList c e in
            match r with
            | Ok _ => (with_tasks c true, Ok tt)
            | r => (c, r)
            end
        end
  end.

(** LoadOrCreateUserCounter: the user's pointer, whose counters the
    connection will use.  The verdict of AddIP is not looked at. *)
Definition LoadOrCreateUserCounter (c : Controller) (user source : string) : Controller * result nat :=
  match LoadUser (k_author c) user with
  | None => (c, Err (EFmt "hash:%s is not in user map" [user]))
  | Some l =>
      (with_author c (update_user (k_author c) l (λ u, fst (AddIP (fst (MarkCounterAttached u)) source))), Ok l)
  end.
End controller.

Arguments Controller : clear implicits.
Arguments Env : clear implicits.
