(* ===== verification/UserSync.v ===== *)
(** * User synchronisation: what a controller tick does to the runtime

    The user list of the panel reaches three places: the inbound's runtime
    table, the controller's own map and the authenticator.  This file states
    what an inbound promises to the controller, and proves that the delta the
    controller computes is the right one, that applying it is the same as
    refreshing the whole table, and that a failed tick is repaired by the
    retries. *)

From S2P Require Import Prelude GoStrings Float64 Api Authenticator PanelUsers Controller.

Open Scope Z_scope.

(** ** diffUsers *)

(** The user a list stands for under a hash: the first one with it. *)
Definition first_wins (hashFn : UserInfo → string) (l : list UserInfo) (h : string) : option UserInfo :=
  head (filter (λ u, hashFn u = h) l).

(** What the first loop of diffUsers has after reading the prefix [l]. *)
Record diff_inv (old : gmap string UserInfo) (hashFn : UserInfo → string) (l : list UserInfo)
    (st : gmap string UserInfo * list string * list string) : Prop := {
  di_next : ∀ h, st.1.1 !! h = first_wins hashFn l h;
  di_added : ∀ h, h ∈ st.1.2 ↔ is_Some (st.1.1 !! h) ∧ old !! h = None;
  di_changed : ∀ h, h ∈ st.2 ↔
    ∃ o u, old !! h = Some o ∧ st.1.1 !! h = Some u ∧ userMaterialChanged o u = true;
  di_nodup : NoDup (st.1.2 ++ st.2);
}.

Lemma first_wins_snoc hashFn l u h :
  first_wins hashFn (l ++ [u]) h =
    match first_wins hashFn l h with
    | Some v => Some v
    | None => if decide (hashFn u = h) then Some u else None
    end.
Proof.
  unfold first_wins. rewrite filter_app. cbn.
  destruct (filter _ l); cbn; [|done]. by case_decide.
Qed.

Lemma diff_inv_step old hashFn l st u :
  diff_inv old hashFn l st → diff_inv old hashFn (l ++ [u]) (diff_user old hashFn st u).
Proof.
  destruct st as [[next added] changed]. intros [Hn Ha Hc Hd]. cbn in *.
  unfold diff_user. set (h0 := hashFn u).
  destruct (next !! h0) as [v|] eqn:E0.
  { split; cbn; auto. intros h. rewrite first_wins_snoc, <- Hn.
    destruct (next !! h) eqn:E; [done|]. case_decide; [|done]. subst h. unfold h0 in *. congruence. }
  assert (∀ h, <[h0:=u]> next !! h = first_wins hashFn (l ++ [u]) h) as Hn'.
  { intros h. rewrite first_wins_snoc, <- Hn, lookup_insert. unfold h0 in *.
    repeat case_decide; simplify_eq; try done; [by rewrite E0|]. by destruct (next !! h). }
  assert (h0 ∉ added) as Hna by (intros [[? ?] _]%Ha; congruence).
  assert (h0 ∉ changed) as Hnc by (intros (? & ? & _ & ? & _)%Hc; congruence).
  assert (∀ h, is_Some (<[h0:=u]> next !! h) ↔ h = h0 ∨ is_Some (next !! h)) as HS.
  { intros h. rewrite lookup_insert_is_Some'. naive_solver. }
  assert (∀ h v, <[h0:=u]> next !! h = Some v ↔ (h = h0 ∧ v = u) ∨ (next !! h = Some v)) as HV.
  { intros h v. rewrite lookup_insert_Some. split; [naive_solver|].
    intros [[-> ->]|Hh]; [naive_solver|]. right. split; [congruence|done]. }
  destruct (old !! h0) as [o|] eqn:Eo; [destruct (userMaterialChanged o u) eqn:Em|];
    split; cbn; auto; intros.
  - rewrite HS, Ha. naive_solver congruence.
  - rewrite elem_of_app, list_elem_of_singleton, Hc. setoid_rewrite HV. naive_solver congruence.
  - rewrite app_assoc. apply NoDup_app. split; [done|]. split; [set_solver|apply NoDup_singleton].
  - rewrite HS, Ha. naive_solver congruence.
  - rewrite Hc. setoid_rewrite HV. naive_solver congruence.
  - rewrite elem_of_app, list_elem_of_singleton, HS, Ha. naive_solver congruence.
  - rewrite Hc. setoid_rewrite HV. naive_solver congruence.
  - rewrite <- app_assoc. apply NoDup_app in Hd as (H1 & H2 & H3).
    apply NoDup_app. split; [done|]. split; [set_solver|]. apply NoDup_app.
    split; [apply NoDup_singleton|]. split; [set_solver|done].
Qed.

Lemma diff_inv_foldl old hashFn l :
  diff_inv old hashFn l (foldl (diff_user old hashFn) (∅, [], []) l).
Proof.
  induction l as [|u l IH] using rev_ind.
  - split; cbn; [done|..]; intros; rewrite ?lookup_empty; try constructor; set_solver.
  - rewrite foldl_app. cbn. by apply diff_inv_step.
Qed.

(** The meaning of the four results of diffUsers. *)
Record diff_ok (old : gmap string UserInfo) (newList : list UserInfo) (hashFn : UserInfo → string)
    (d : user_diff) : Prop := {
  do_next : ∀ h, d_next d !! h = first_wins hashFn newList h;
  do_added : ∀ h, h ∈ d_added d ↔ is_Some (d_next d !! h) ∧ old !! h = None;
  do_deleted : ∀ h, h ∈ d_deleted d ↔ is_Some (old !! h) ∧ d_next d !! h = None;
  do_changed : ∀ h, h ∈ d_changed d ↔
    ∃ o u, old !! h = Some o ∧ d_next d !! h = Some u ∧ userMaterialChanged o u = true;
  do_nodup : NoDup (d_added d ++ d_changed d ++ d_deleted d);
}.

Lemma diffUsers_ok `{RangeOrder} old newList hashFn :
  diff_ok old newList hashFn (diffUsers old newList hashFn).
Proof.
  unfold diffUsers. destruct (foldl _ _ _) as [[next added] changed] eqn:E.
  pose proof (diff_inv_foldl old hashFn newList) as [Hn Ha Hc Hd]. rewrite E in *. cbn in *.
  assert (∀ h, h ∈ filter (λ h, next !! h = None) (range old).*1 ↔ is_Some (old !! h) ∧ next !! h = None) as Hdel.
  { intros h. rewrite list_elem_of_filter, list_elem_of_fmap. split.
    - intros [? ([h' u] & -> & ?%elem_of_range)]. eauto.
    - intros [[u Hu] ?]. split; [done|]. exists (h, u). split; [done|]. by apply elem_of_range. }
  split; cbn; [done..|].
  rewrite app_assoc. apply NoDup_app. split; [done|]. split.
  - intros h Hh [[? ?] Hno]%Hdel. apply elem_of_app in Hh as [[[? ?] ?]%Ha|(?&?&_&?&_)%Hc]; congruence.
  - apply NoDup_filter, NoDup_range_fst.
Qed.

(** (C33) diffUsers computes the difference between the two user sets: the next
    map is the list with the first entry of a hash winning, and the three lists
    partition what must be done, each hash once: added are the new ones,
    deleted the vanished ones, changed the ones whose material differs. *)
Theorem diffUsers_correct `{RangeOrder} old newList hashFn :
  let d := diffUsers old newList hashFn in
  (∀ h, d_next d !! h = first_wins hashFn newList h)
  ∧ (∀ h, h ∈ d_added d ↔ is_Some (d_next d !! h) ∧ old !! h = None)
  ∧ (∀ h, h ∈ d_deleted d ↔ is_Some (old !! h) ∧ d_next d !! h = None)
  ∧ (∀ h, h ∈ d_changed d ↔
      ∃ o u, old !! h = Some o ∧ d_next d !! h = Some u ∧ userMaterialChanged o u = true)
  ∧ NoDup (d_added d ++ d_changed d ++ d_deleted d).
Proof. destruct (diffUsers_ok old newList hashFn). by split_and!. Qed.

(** ** What an inbound promises to the controller

    A user call either takes effect as a whole or fails and leaves the runtime
    table as it was.  [pu_view] is the table authentication uses. *)
Class PanelUsers (I WI : Type) `{PanelInbound I WI} := {
  pu_ok : I → Prop;
  pu_view : I → gmap string string;
  pu_AddUsers : ∀ i w us, pu_ok i → passwords_distinct (insert_users (pu_view i) us) →
    NoDup (ui_UID <$> us) →
    pu_ok (pi_AddUsers i w us).1
    ∧ pu_view (pi_AddUsers i w us).1
      = if is_ok (pi_AddUsers i w us).2 then insert_users (pu_view i) us else pu_view i;
  pu_RemoveUsers : ∀ i w names, pu_ok i →
    pu_ok (pi_RemoveUsers i w names).1
    ∧ pu_view (pi_RemoveUsers i w names).1
      = if is_ok (pi_RemoveUsers i w names).2 then delete_names (pu_view i) names else pu_view i;
  pu_RefreshUsers : ∀ i w us, pu_ok i → passwords_distinct (insert_users ∅ us) →
    NoDup (ui_UID <$> us) →
    pu_ok (pi_RefreshUsers i w us).1
    ∧ pu_view (pi_RefreshUsers i w us).1
      = if is_ok (pi_RefreshUsers i w us).2 then insert_users ∅ us else pu_view i;
}.

(** The runtime table a controller map stands for. *)
Definition runtime_of (m : gmap string UserInfo) : gmap string string := user_password <$> m.

(** The keys of the map are the runtime names of its users. *)
Definition keys_ok (m : gmap string UserInfo) : Prop :=
  ∀ h u, m !! h = Some u → user_name (ui_UID u) = h.

Lemma usersForHashes_names m hs :
  keys_ok m → Forall (λ h, is_Some (m !! h)) hs → (entry <$> usersForHashes m hs).*1 = hs.
Proof.
  intros Hk. induction 1 as [|h hs [u Hu] _ IH]; [done|].
  unfold usersForHashes in *. cbn. rewrite Hu. cbn. rewrite IH. by rewrite (Hk _ _ Hu).
Qed.

Lemma usersForHashes_entry m hs h p :
  keys_ok m → (h, p) ∈ entry <$> usersForHashes m hs → runtime_of m !! h = Some p.
Proof.
  intros Hk (u & [= -> ->] & (h' & _ & Hu)%list_elem_of_omap)%list_elem_of_fmap.
  rewrite (Hk _ _ Hu). unfold runtime_of. by rewrite lookup_fmap, Hu.
Qed.

(** Inserting the users of [hs] into a table that already agrees with [m]
    elsewhere gives the table of [m]. *)
Lemma insert_delta m hs t :
  keys_ok m → NoDup hs → Forall (λ h, is_Some (m !! h)) hs →
  (∀ h, h ∉ hs → t !! h = runtime_of m !! h) →
  insert_users t (usersForHashes m hs) = runtime_of m.
Proof.
  intros Hk Hnd Hin Ht. rewrite insert_users_pairs. apply map_eq. intros h.
  pose proof (usersForHashes_names m hs Hk Hin) as Hns.
  destruct (decide (h ∈ hs)) as [Hh|Hh].
  - assert (∃ p, (h, p) ∈ entry <$> usersForHashes m hs) as [p Hp].
    { rewrite <- Hns in Hh. apply list_elem_of_fmap in Hh as ([h' p] & -> & ?). eauto. }
    rewrite (insert_pairs_in _ _ h p) by (by rewrite ?Hns). symmetry. by eapply usersForHashes_entry.
  - rewrite insert_pairs_notin by (by rewrite Hns). auto.
Qed.

Lemma usersForHashes_UIDs m hs :
  keys_ok m → NoDup hs → Forall (λ h, is_Some (m !! h)) hs → NoDup (ui_UID <$> usersForHashes m hs).
Proof.
  intros Hk Hnd Hin. rewrite <- (usersForHashes_names m hs Hk Hin) in Hnd.
  rewrite <- list_fmap_compose in Hnd. apply (NoDup_fmap_1 user_name).
  by rewrite <- list_fmap_compose.
Qed.

Lemma usersFromMap_hashes `{RangeOrder} m : usersFromMap m = usersForHashes m (range m).*1.
Proof.
  unfold usersFromMap, usersForHashes.
  assert (∀ l, (∀ h u, (h, u) ∈ l → m !! h = Some u) → l.*2 = omap (λ h, m !! h) l.*1) as Hl.
  { induction l as [|[h u] l IH]; intros Hl; [done|]. cbn.
    rewrite (Hl h u) by left. rewrite <- IH; [done|]. intros; apply Hl; by right. }
  apply Hl. intros h u. apply elem_of_range.
Qed.

Lemma range_hashes_in `{RangeOrder} {V} (m : gmap string V) : Forall (λ h, is_Some (m !! h)) (range m).*1.
Proof.
  apply Forall_forall. intros h ([h' u] & -> & ?%elem_of_range)%list_elem_of_fmap. eauto.
Qed.

Lemma keys_ok_first_wins m l :
  (∀ h, m !! h = first_wins (λ u, user_name (ui_UID u)) l h) → keys_ok m.
Proof.
  intros Hm h u. rewrite Hm. unfold first_wins. intros Hu.
  assert (u ∈ filter (λ u, user_name (ui_UID u) = h) l) as [? _]%list_elem_of_filter; [|done].
  destruct (filter _ l); cbn in *; [done|]. simplify_eq. left.
Qed.

Lemma unchanged_password o u : userMaterialChanged o u = false → user_password o = user_password u.
Proof.
  unfold userMaterialChanged. rewrite !orb_false_iff, !bool_decide_eq_false.
  intros ((((( ?& ?)& _)& _)& _)& _). unfold user_password.
  by replace (ui_UUID u) with (ui_UUID o) by (by destruct (decide (ui_UUID o = ui_UUID u)));
    replace (ui_Passwd u) with (ui_Passwd o) by (by destruct (decide (ui_Passwd o = ui_Passwd u))).
Qed.

(** After the deletions the table differs from the next one only at the
    hashes of the delta. *)
Lemma delta_rest old l hashFn d D h :
  diff_ok old l hashFn d → (∀ x, x ∈ D → x ∈ d_deleted d) → h ∉ d_added d ++ d_changed d →
  delete_names (delete_names (runtime_of old) D) (d_deleted d) !! h = runtime_of (d_next d) !! h.
Proof.
  intros [Hn Ha Hdel Hc _] HD Hh. apply not_elem_of_app in Hh as [Hna Hnc].
  rewrite !lookup_delete_names. rewrite Ha in Hna. rewrite Hc in Hnc.
  unfold runtime_of. rewrite !lookup_fmap. case_decide as Hd.
  - apply Hdel in Hd as [_ ->]. done.
  - rewrite decide_False by auto. rewrite Hdel in Hd.
    destruct (old !! h) as [o|] eqn:Eo, (d_next d !! h) as [u|] eqn:Eu; cbn; try done.
    + f_equal. apply unchanged_password. destruct (userMaterialChanged o u) eqn:Em; [|done]. naive_solver.
    + exfalso. eauto.
    + exfalso. eauto.
Qed.

Lemma delta_in_next old l hashFn d :
  diff_ok old l hashFn d → Forall (λ h, is_Some (d_next d !! h)) (d_added d ++ d_changed d).
Proof.
  intros [_ Ha _ Hc _]. apply Forall_forall. intros h [[? _]%Ha|(?&?&_&?&_)%Hc]%elem_of_app; eauto.
Qed.

Lemma delta_nodup old l hashFn d :
  diff_ok old l hashFn d → NoDup (d_added d ++ d_changed d).
Proof. intros [_ _ _ _ Hnd]. rewrite app_assoc in Hnd. by apply NoDup_app in Hnd as [? _]. Qed.

(** ** The runtime follows the controller's map *)

Section sync.
Context `{RangeOrder, Regexp} {C W : Type} `{PanelAPI C W} {I WI : Type} `{PanelInbound I WI}
  `{!PanelUsers I WI}.
Implicit Types (c : Controller C I) (e : Env W WI).

Definition is_sspanel c : Prop := cf_PanelType (k_config c) = "SSpanel".

(** The runtime table lags behind the map by the removals in [D]; with
    [D = []] it is the map's table. *)
Definition lags c (D : list string) : Prop :=
  pu_ok (k_inbound c) ∧ keys_ok (k_usersMap c)
  ∧ pu_view (k_inbound c) = delete_names (runtime_of (k_usersMap c)) D.
Definition tracks c : Prop := lags c [].

Definition sync_target c (l : list UserInfo) : user_diff :=
  diffUsers (k_usersMap c) l (buildUserHash c).

Lemma buildUserHash_sspanel c : is_sspanel c → buildUserHash c = λ u, user_name (ui_UID u).
Proof. intros Hs. unfold buildUserHash. by rewrite Hs. Qed.

Lemma target_keys c l : is_sspanel c → keys_ok (d_next (sync_target c l)).
Proof.
  intros Hs. unfold sync_target. rewrite buildUserHash_sspanel by done.
  eapply keys_ok_first_wins, do_next, diffUsers_ok.
Qed.

(** What a call may leave behind: the next table when it succeeded, and
    otherwise a table that lags by some of the removals. *)
Definition delta_result c (d : user_diff) (r : I * result unit) : Prop :=
  pu_ok r.1
  ∧ if is_ok r.2 then pu_view r.1 = runtime_of (d_next d)
    else ∃ D, (∀ x, x ∈ D → x ∈ d_deleted d) ∧ pu_view r.1 = delete_names (runtime_of (k_usersMap c)) D.

Lemma apply_add c e l d D i :
  let delta := usersForHashes (d_next d) (d_added d ++ d_changed d) in
  diff_ok (k_usersMap c) l (buildUserHash c) d → keys_ok (d_next d) →
  passwords_distinct (runtime_of (d_next d)) → (∀ x, x ∈ D → x ∈ d_deleted d) → pu_ok i →
  pu_view i = delete_names (delete_names (runtime_of (k_usersMap c)) D) (d_deleted d) →
  delta_result c d (if bool_decide (delta = []) then (i, Ok tt) else pi_AddUsers i (e_inb e) delta).
Proof.
  intros delta Hd Hk Hp HD Hok Hv.
  assert (insert_users (pu_view i) delta = runtime_of (d_next d)) as Hins.
  { rewrite Hv. apply insert_delta; eauto using delta_nodup, delta_in_next.
    intros h. by eapply delta_rest. }
  case_bool_decide as He; unfold delta_result; cbn.
  - split; [done|]. rewrite He in Hins. by rewrite <- Hins.
  - destruct (pu_AddUsers i (e_inb e) delta Hok) as [Hi Hvi].
    + by rewrite Hins.
    + eauto using usersForHashes_UIDs, delta_nodup, delta_in_next.
    + split; [done|]. destruct (is_ok _); [by rewrite Hvi|].
      exists (D ++ d_deleted d). split; [intros x [?|?]%elem_of_app; auto|].
      rewrite Hvi, Hv. unfold delete_names. by rewrite foldl_app.
Qed.

Lemma apply_refresh c e d D :
  keys_ok (d_next d) → passwords_distinct (runtime_of (d_next d)) →
  lags c D → (∀ x, x ∈ D → x ∈ d_deleted d) →
  delta_result c d (pi_RefreshUsers (k_inbound c) (e_inb e) (usersFromMap (d_next d))).
Proof.
  intros Hk Hp (Hok & Hko & Hv) HD.
  assert (insert_users ∅ (usersFromMap (d_next d)) = runtime_of (d_next d)) as Hins.
  { rewrite usersFromMap_hashes. apply insert_delta; auto using NoDup_range_fst, range_hashes_in.
    intros h Hh. rewrite lookup_empty. unfold runtime_of. rewrite lookup_fmap.
    destruct (d_next d !! h) as [u|] eqn:E; [|done]. destruct Hh.
    apply list_elem_of_fmap. exists (h, u). by rewrite elem_of_range. }
  destruct (pu_RefreshUsers (k_inbound c) (e_inb e) (usersFromMap (d_next d)) Hok) as [Hi' Hvi'].
  { by rewrite Hins. }
  { rewrite usersFromMap_hashes. auto using usersForHashes_UIDs, NoDup_range_fst, range_hashes_in. }
  split; [done|]. rewrite Hins in Hvi'. destruct (is_ok _); [done|].
  exists D. split; [done|]. by rewrite Hvi'.
Qed.

Lemma applyRuntimeUserDelta_spec c e l d D :
  diff_ok (k_usersMap c) l (buildUserHash c) d → keys_ok (d_next d) →
  passwords_distinct (runtime_of (d_next d)) →
  lags c D → (∀ x, x ∈ D → x ∈ d_deleted d) →
  delta_result c d
    (applyRuntimeUserDelta c e (d_deleted d) (usersForHashes (d_next d) (d_added d ++ d_changed d))
       (usersFromMap (d_next d))).
Proof.
  intros Hd Hk Hp Hl HD. unfold applyRuntimeUserDelta.
  destruct is_PIncremental; [|destruct is_PInbound; [by eapply apply_refresh|]].
  - destruct Hl as (Hok & Hko & Hv). destruct (bool_decide (d_deleted d = [])) eqn:He.
    + apply bool_decide_eq_true in He. eapply apply_add; eauto. by rewrite He.
    + destruct (pu_RemoveUsers (k_inbound c) (e_inb e) (d_deleted d) Hok) as [Hi' Hvi'].
      destruct (pi_RemoveUsers _ _ _) as [i' [[]|err|w]]; cbn in *.
      { eapply apply_add; eauto. by rewrite Hvi', Hv. }
      all: split; [done|]; exists D; split; [done|]; cbn; by rewrite Hvi'.
  - destruct Hl as (Hok & Hko & Hv). split; [done|]. cbn. eauto.
Qed.

(** *** What the calls leave alone *)

Lemma with_author_same c : with_author c (k_author c) = c.
Proof. by destruct c. Qed.

(** A foldl of steps that only write the authenticator. *)
Lemma foldl_author {A} (f : Controller C I → A → Controller C I) c l :
  (∀ c a, ∃ au, f c a = with_author c au) → ∃ au, foldl f c l = with_author c au.
Proof.
  intros Hf. revert c. induction l as [|a l IH]; intros c; cbn.
  - exists (k_author c). by rewrite with_author_same.
  - destruct (Hf c a) as [au ->]. destruct (IH (with_author c au)) as [au' ->]. by exists au'.
Qed.

Lemma install_user_author next c h : ∃ au, install_user next c h = with_author c au.
Proof.
  unfold install_user. destruct (next !! h); [|exists (k_author c); by rewrite with_author_same].
  unfold ApplyUserLimits. eexists. reflexivity.
Qed.

Lemma commit_users_shape c d :
  ∃ au, commit_users c d = with_author (with_usersMap (with_pending c false []) (d_next d)) au.
Proof.
  unfold commit_users.
  match goal with |- context [foldl (install_user _) ?c1 (d_added d)] =>
    destruct (foldl_author (install_user (d_next d)) c1 (d_added d)) as [au ->];
      [intros; apply install_user_author|] end.
  match goal with |- context [foldl (install_user _) ?c1 (d_changed d)] =>
    destruct (foldl_author (install_user (d_next d)) c1 (d_changed d)) as [au' ->];
      [intros; apply install_user_author|] end.
  exists au'. reflexivity.
Qed.

Lemma dump_shape c e deleted :
  ∃ au cl calls, fst (dumpTrafficForDeleted c e deleted) = with_author (with_calls (with_client c cl) calls) au.
Proof.
  unfold dumpTrafficForDeleted, call_traffic. destruct (foldl dump_user _ _) as [a report].
  case_bool_decide; cbn.
  - exists a, (k_client c), (k_calls c). by destruct c.
  - destruct (ReportUserTraffic _ _ _) as [cl r]. cbn. by exists a, cl, (k_calls c ++ [CallTraffic report]).
Qed.

(** *** One synchronisation *)

Lemma lags_no_delta c l d D :
  diff_ok (k_usersMap c) l (buildUserHash c) d → lags c D → (∀ x, x ∈ D → x ∈ d_deleted d) →
  d_added d = [] → d_deleted d = [] → d_changed d = [] →
  pu_view (k_inbound c) = runtime_of (d_next d).
Proof.
  intros Hd (_ & _ & Hv) HD Ea Ed Ec. apply map_eq. intros h.
  rewrite <- (delta_rest _ _ _ _ D h Hd HD) by (rewrite Ea, Ec; apply not_elem_of_nil).
  by rewrite Ed, Hv.
Qed.

(** The controller's fields that a sync leaves alone or sets. *)
Definition sync_outcome c (l : list UserInfo) (d : user_diff) (c' : Controller C I) (r : result unit) : Prop :=
  k_config c' = k_config c ∧
  match r with
  | Ok _ => tracks c' ∧ k_usersMap c' = d_next d ∧ k_userSyncPending c' = false
  | Err _ =>
      (∃ D, (∀ x, x ∈ D → x ∈ d_deleted d) ∧ lags c' D)
      ∧ k_usersMap c' = k_usersMap c ∧ k_userSyncPending c' = true ∧ k_lastUserList c' = l
  | Panic _ =>
      (∃ D, (∀ x, x ∈ D → x ∈ d_deleted d) ∧ lags c' D)
      ∧ k_usersMap c' = k_usersMap c ∧ k_userSyncPending c' = k_userSyncPending c
      ∧ k_lastUserList c' = k_lastUserList c
  end.

Lemma sync_list_outcome c e l D :
  let d := sync_target c l in
  is_sspanel c → passwords_distinct (runtime_of (d_next d)) →
  lags c D → (∀ x, x ∈ D → x ∈ d_deleted d) →
  sync_outcome c l d (sync_list c e l).1 (sync_list c e l).2.
Proof.
  intros d Hs Hp Hl HD. pose proof (target_keys c l Hs) as Hk. fold d in Hk.
  pose proof (diffUsers_ok (k_usersMap c) l (buildUserHash c)) as Hd.
  change (diffUsers _ _ _) with d in Hd.
  unfold sync_list. change (diffUsers _ _ _) with d.
  set (c1 := if bool_decide (d_deleted d = []) then c else _).
  assert (∃ au cl calls, c1 = with_author (with_calls (with_client c cl) calls) au) as (au & cl & calls & ->).
  { unfold c1. case_bool_decide; [|apply dump_shape]. exists (k_author c), (k_client c), (k_calls c). by destruct c. }
  set (c1 := with_author _ au).
  assert (lags c1 D) as Hl1 by exact Hl.
  assert (diff_ok (k_usersMap c1) l (buildUserHash c1) d) as Hd1 by exact Hd.
  set (ir := if negb _ then _ else _).
  assert (delta_result c1 d ir) as [Hok Hr].
  { unfold ir. destruct (negb _) eqn:En; [by eapply applyRuntimeUserDelta_spec|].
    apply negb_false_iff, andb_true_iff in En as [[Ea Ed]%andb_true_iff Ec].
    apply bool_decide_eq_true in Ea, Ed, Ec. split; [apply Hl1|]. cbn. by eapply lags_no_delta. }
  destruct ir as [i [[]|err|w]]; cbn in Hok, Hr |- *.
  - destruct (commit_users_shape (with_inbound c1 i) d) as [au' ->].
    split; [done|]. split; [|done]. split; [done|]. split; [done|]. exact Hr.
  - destruct Hr as (D' & HD' & Hv). split; [done|]. split; [|done].
    exists D'. split; [done|]. split; [done|]. split; [apply Hl|]. exact Hv.
  - destruct Hr as (D' & HD' & Hv). split; [done|]. split; [|done].
    exists D'. split; [done|]. split; [done|]. split; [apply Hl|]. exact Hv.
Qed.

(** (C1) With the SSpanel panel type, take a synchronisation that starts with
    the runtime table and the controller's map in step ([tracks]: so it is after
    the first and after every successful synchronisation, by this theorem) and a
    list after which no two runtime names share a password.  If it succeeds, it
    installs exactly the list: the delta pushed through AddUsers and RemoveUsers
    (or the full refresh) leaves the runtime table in which a user's name has
    the password of the first list entry with that UID, and no other name
    authenticates; and table and map are in step again. *)
Theorem sync_installs_panel_list c e l c' :
  is_sspanel c → tracks c →
  passwords_distinct (runtime_of (d_next (sync_target c l))) →
  sync_list c e l = (c', Ok tt) →
  tracks c'
  ∧ (∀ uid, pu_view (k_inbound c') !! user_name uid
            = user_password <$> head (filter (λ u, ui_UID u = uid) l))
  ∧ (∀ name, is_Some (pu_view (k_inbound c') !! name) → ∃ u, u ∈ l ∧ name = user_name (ui_UID u)).
Proof.
  intros Hs Ht Hp E.
  destruct (sync_list_outcome c e l [] Hs Hp Ht) as [_ Ho]; [intros x []%not_elem_of_nil|].
  rewrite E in Ho. cbn [fst snd] in Ho. destruct Ho as (Ht' & Hm & _). split; [done|].
  assert (∀ h, pu_view (k_inbound c') !! h
               = user_password <$> first_wins (λ u, user_name (ui_UID u)) l h) as Hv.
  { intros h. destruct Ht' as (_ & _ & ->). unfold delete_names. cbn. unfold runtime_of.
    rewrite lookup_fmap, Hm. rewrite <- (buildUserHash_sspanel c Hs). f_equal. apply do_next with (1 := diffUsers_ok _ _ _). }
  split.
  - intros uid. rewrite Hv. unfold first_wins. do 2 f_equal.
    apply list_filter_iff. intros u. split; [by intros ?%(inj _)|by intros ->].
  - intros name [p Hn]. rewrite Hv in Hn. unfold first_wins in Hn.
    destruct (filter _ l) as [|u us] eqn:Ef; [done|]. exists u.
    assert (u ∈ filter (λ u, user_name (ui_UID u) = name) l) as [? ?]%list_elem_of_filter; [|done].
    rewrite Ef. left.
Qed.

(** *** Failed synchronisations are retried under 304 answers *)

Definition answers_304 e : Prop :=
  ∀ cl : C, ∃ cl' err, GetUserList cl (e_net e) = (cl', Err err) ∧ is_text err UserNotModified = true.

(** The inbound accepts every user call of this activity. *)
Definition accepts e : Prop :=
  ∀ c deleted delta runtime, is_ok (applyRuntimeUserDelta c e deleted delta runtime).2 = true.

(** [c] is on its way from [c0] to the list [l]. *)
Definition heading c0 (l : list UserInfo) c : Prop :=
  k_config c = k_config c0 ∧
  if k_userSyncPending c
  then k_usersMap c = k_usersMap c0 ∧ k_lastUserList c = l
       ∧ ∃ D, (∀ x, x ∈ D → x ∈ d_deleted (sync_target c0 l)) ∧ lags c D
  else tracks c ∧ k_usersMap c = d_next (sync_target c0 l).

Lemma sync_target_eq c c0 l :
  k_config c = k_config c0 → k_usersMap c = k_usersMap c0 → sync_target c l = sync_target c0 l.
Proof.
  intros Hc Hm. unfold sync_target. rewrite Hm.
  by replace (buildUserHash c) with (buildUserHash c0) by (unfold buildUserHash; by rewrite Hc).
Qed.

Lemma heading_step c0 l c e :
  is_sspanel c0 → passwords_distinct (runtime_of (d_next (sync_target c0 l))) →
  answers_304 e → heading c0 l c → heading c0 l (syncUserList c e).1.
Proof.
  intros Hs Hp He [Hcfg Hc]. unfold syncUserList.
  destruct (He (k_client c)) as (cl & err & -> & ->). cbn.
  destruct (k_userSyncPending c) eqn:Epend; cbn; [|split; [done|]; cbn; by rewrite Epend].
  destruct Hc as (Hm & Hl & D & HD & Hlag).
  set (c1 := with_client c cl).
  assert (sync_target c1 l = sync_target c0 l) as Ht by (by apply sync_target_eq).
  pose proof (sync_list_outcome c1 e l D) as Ho. cbn zeta in Ho. rewrite Ht in Ho.
  rewrite Hl. change (k_lastUserList c1) with (k_lastUserList c).
  assert (is_sspanel c1) as Hs1 by (unfold is_sspanel; cbn; by rewrite Hcfg).
  specialize (Ho Hs1 Hp Hlag HD).
  destruct (sync_list c1 e l) as [c' [[]|er|w]]; cbn in Ho |- *; destruct Ho as [Hcfg' Ho];
    (split; [by rewrite Hcfg'|]).
  - destruct Ho as (Ht' & Hm' & ->). done.
  - destruct Ho as (HD' & Hm' & -> & Hl'). rewrite Hm'. done.
  - destruct Ho as (HD' & Hm' & -> & Hl'). cbn. rewrite Epend, Hm', Hl'. done.
Qed.

Lemma accepts_settles c e :
  accepts e → answers_304 e → k_userSyncPending (syncUserList c e).1 = false.
Proof.
  intros Ha He. unfold syncUserList. destruct (He (k_client c)) as (cl & err & -> & ->). cbn.
  destruct (k_userSyncPending c) eqn:Ep; [|done]. cbn. unfold sync_list.
  set (d := diffUsers _ _ _). set (c1 := if bool_decide _ then _ else _).
  set (ir := if negb _ then _ else _).
  assert (is_ok ir.2 = true) as Hok by (unfold ir; destruct (negb _); [apply Ha|done]).
  destruct ir as [i [[]|er|w]]; try done. cbn.
  by destruct (commit_users_shape (with_inbound c1 i) d) as [au ->].
Qed.

Lemma settled_stays c e :
  answers_304 e → k_userSyncPending c = false → k_userSyncPending (syncUserList c e).1 = false.
Proof.
  intros He Hc. unfold syncUserList. destruct (He (k_client c)) as (cl & err & -> & ->). cbn. by rewrite Hc.
Qed.

(** (C35) A list the runtime refused is not lost.  With the SSpanel panel type,
    take a synchronisation that starts with the runtime table and the map in
    step and a list after which no two runtime names share a password, and let
    it fail anywhere (removals done or not).  Under any number of 304 answers:
    while the sync is pending the controller's map is the old one and the list
    is kept; once it is settled the map is that of the list and the runtime is
    in step with it; and one cycle in which the inbound accepts the calls
    settles it. *)
Theorem sync_retry_converges c e l c1 err es :
  is_sspanel c → tracks c → passwords_distinct (runtime_of (d_next (sync_target c l))) →
  sync_list c e l = (c1, Err err) → Forall answers_304 es →
  let c2 := foldl (λ c e, (syncUserList c e).1) c1 es in
  (k_userSyncPending c2 = true → k_usersMap c2 = k_usersMap c ∧ k_lastUserList c2 = l)
  ∧ (k_userSyncPending c2 = false → tracks c2 ∧ k_usersMap c2 = d_next (sync_target c l))
  ∧ (Exists accepts es → k_userSyncPending c2 = false).
Proof.
  intros Hs Ht Hp E Hes c2.
  assert (heading c l c2) as [_ Hh].
  { unfold c2. apply foldl_inv.
    - destruct (sync_list_outcome c e l [] Hs Hp Ht) as [Hcfg Ho]; [intros x []%not_elem_of_nil|].
      rewrite E in Hcfg, Ho. cbn [fst snd] in Hcfg, Ho. destruct Ho as (HD & Hm & Hpe & Hl). split; [done|]. by rewrite Hpe.
    - intros b e' He'. apply heading_step; auto. by eapply Forall_forall. }
  split_and!.
  - intros Hpe. rewrite Hpe in Hh. by destruct Hh as (? & ? & _).
  - intros Hpe. by rewrite Hpe in Hh.
  - intros Hex. unfold c2. clear -Hes Hex.
    revert c1. induction Hes as [|e' es He' Hes IH]; intros c1; [by inversion Hex|]. cbn.
    inversion Hex as [? ? Ha|? ? Hex']; subst; [|by apply IH].
    pose proof (accepts_settles c1 e' Ha He') as Hset. revert Hset.
    generalize (syncUserList c1 e').1. clear -Hes.
    induction Hes as [|e'' es He'' Hes IH]; intros b Hb; [done|]. cbn.
    apply IH. by apply settled_stays.
Qed.
End sync.

(** ** Inbounds that meet the contract, and a scripted panel

    A [UserInbound] whose calls are sometimes refused: [w] says whether this
    activity's AddUsers goes through.  The inbounds of the repository never
    refuse a user call. *)
Section plain.
Context {I : Type} `{UserInboundSpec I}.

#[export] Instance plain_inbound : PanelInbound I bool | 50 :=
  {| is_PIncremental := true; is_PInbound := true; is_PConfigurable := false;
     pi_AddUsers i (w : bool) us := if w then (AddUsers i us, Ok tt) else (i, Err (ENew "refused"));
     pi_RemoveUsers i (_ : bool) names := (RemoveUsers i names, Ok tt);
     pi_RefreshUsers i (w : bool) us := if w then (RefreshUsers i us, Ok tt) else (i, Err (ENew "refused"));
     pi_ConfigureFromPanelNode i (_ : bool) (_ : NodeInfo) := (i, Ok tt) |}.

#[export] Program Instance plain_users : PanelUsers I bool | 50 :=
  {| pu_ok := inbound_ok; pu_view := users_view |}.
Next Obligation. intros i [] us Hok Hd Hnd; cbn; [by apply AddUsers_spec|done]. Qed.
Next Obligation. intros i w names Hok; cbn. by apply RemoveUsers_spec. Qed.
Next Obligation. intros i [] us Hok Hd Hnd; cbn; [by apply RefreshUsers_spec|done]. Qed.
End plain.

(** A panel whose answers to the three fetches are given; reports succeed. *)
Record script := {
  sc_node : result NodeInfo; sc_users : result (list UserInfo); sc_rules : result (list DetectRule);
}.
#[export] Instance scripted_panel : PanelAPI unit script | 50 :=
  {| GetNodeInfo c w := (c, sc_node w); GetUserList c w := (c, sc_users w);
     GetNodeRule c w := (c, sc_rules w); ReportNodeStatus c (_ : script) (_ : NodeStatus) := (c, Ok tt);
     ReportNodeOnlineUsers c (_ : script) (_ : list OnlineUser) := (c, Ok tt); ReportUserTraffic c (_ : script) (_ : list UserTraffic) := (c, Ok tt);
     ReportIllegal c (_ : script) (_ : list DetectResult) := (c, Ok tt);
     Describe (_ : unit) := {| ci_APIHost := ""; ci_NodeID := 0; ci_Key := ""; ci_NodeType := "" |} |}.

Definition user0 (uid : Z) (uuid : string) (speed : Z) : UserInfo :=
  {| ui_UID := uid; ui_Email := ""; ui_UUID := uuid; ui_Passwd := ""; ui_Port := 0; ui_AlterID := 0;
     ui_Method := ""; ui_Flow := ""; ui_SpeedLimit := speed; ui_DeviceLimit := 0 |}.
Definition config0 : Config :=
  {| cf_PanelType := "SSpanel"; cf_UpdatePeriodic := 60; cf_ListenIP := "0.0.0.0"; cf_SendIP := "";
     cf_EnableDeviceLimit := true |}.
Definition script0 : script :=
  {| sc_node := Err (ENew NodeNotModified); sc_users := Err (ENew UserNotModified);
     sc_rules := Err (ENew RuleNotModified) |}.
Definition env0 (accept : bool) (w : script) : Env script bool :=
  {| e_net := w; e_inb := accept; e_now := 100 * 10 ^ 9; e_sys := Err (EStd "stat") |}.
Definition controller0 : Controller unit Naive.userTable :=
  new_controller config0 tt Naive.empty_table 0.

#[local] Existing Instance Naive.naive_users.
#[local] Existing Instance Naive.naive_users_spec.

Lemma controller0_tracks : tracks (WI := bool) controller0.
Proof.
  split; [apply Naive.table_ok_empty|]. split; [|done].
  intros h u. cbn. by rewrite lookup_empty.
Qed.

Lemma passwords_distinct_values (m : gmap string string) :
  bool_decide (NoDup (map_to_list m).*2) = true → passwords_distinct m.
Proof.
  intros Hnd%bool_decide_eq_true n n' p Hn%elem_of_map_to_list Hn'%elem_of_map_to_list.
  apply list_elem_of_lookup in Hn as [i Hi], Hn' as [j Hj].
  assert (i = j) as <-.
  { eapply (NoDup_lookup _ i j p Hnd); rewrite list_lookup_fmap; by rewrite ?Hi, ?Hj. }
  congruence.
Qed.

Definition users0 : list UserInfo := [user0 1 "a" 0; user0 2 "b" 0; user0 1 "c" 0].

Lemma sync_installs_panel_list_witness :
  (sync_list controller0 (env0 true script0) users0).2 = Ok tt
  ∧ pu_view (k_inbound (sync_list controller0 (env0 true script0) users0).1) !! "u1" = Some "a".
Proof.
  split; [vm_compute; reflexivity|].
  refine (proj1 (proj2 (sync_installs_panel_list controller0 (env0 true script0) users0 _ _ _ _ _)) 1).
  - reflexivity.
  - exact controller0_tracks.
  - apply passwords_distinct_values. vm_compute. reflexivity.
  - apply injective_projections; [reflexivity|vm_compute; reflexivity].
Defined.

Lemma sync_retry_converges_witness :
  let c1 := (sync_list controller0 (env0 false script0) users0).1 in
  k_userSyncPending c1 = true
  ∧ k_userSyncPending (foldl (λ c e, (syncUserList c e).1) c1 [env0 false script0; env0 true script0]) = false.
Proof.
  split; [vm_compute; reflexivity|].
  refine (proj2 (proj2 (sync_retry_converges controller0 (env0 false script0) users0 _ (ENew "refused")
    [env0 false script0; env0 true script0] _ _ _ _ _)) _).
  - reflexivity.
  - exact controller0_tracks.
  - apply passwords_distinct_values. vm_compute. reflexivity.
  - apply injective_projections; [reflexivity|vm_compute; reflexivity].
  - repeat constructor; intros cl; exists cl, (ENew UserNotModified); done.
  - right; left. intros c deleted delta runtime. unfold applyRuntimeUserDelta. cbn. by repeat case_bool_decide.
Defined.
