(* ===== verification/ControllerInv.v ===== *)
(** * The controller's state: map, authenticator and limits agree

    The controller keeps the panel's users twice: in [usersMap], against which
    the next list is compared, and in the authenticator, which connections look
    up.  This file proves that the two agree in every state the controller can
    reach, and that the limits installed for connections are the panel's. *)

From S2P Require Import Prelude GoStrings Float64 Api Authenticator PanelUsers Controller UserSync.

Open Scope Z_scope.

(** ** Pointwise effects on the authenticator's table *)

Lemma lookup_abs_update a l f h :
  abs (update_user a l f) !! h =
    if bool_decide (a_users a !! h = Some l) then f <$> (abs a !! h) else abs a !! h.
Proof.
  rewrite !lookup_abs. cbn. case_bool_decide as Hl.
  - rewrite Hl. cbn. apply list_lookup_alter_eq.
  - destruct (a_users a !! h) as [l'|]; [|done]. cbn. apply list_lookup_alter_ne. congruence.
Qed.

Lemma LoadUser_hash a h l : a_users a !! h = Some l → LoadUser a h = Some l.
Proof. intros Hl. unfold LoadUser. by rewrite Hl. Qed.

Lemma del_users_abs a hs :
  auth_ok a →
  let a' := foldl (λ a h, fst (DelUser a h)) a hs in
  auth_ok a' ∧ ∀ h, abs a' !! h = if decide (h ∈ hs) then None else abs a !! h.
Proof.
  revert a. induction hs as [|h0 hs IH]; intros a Hok; cbn.
  { split; [done|]. intros h. by rewrite decide_False by apply not_elem_of_nil. }
  destruct (IH (DelUser a h0).1) as [Hok' Hl]; [by apply auth_ok_DelUser|].
  split; [done|]. intros h. rewrite Hl, abs_DelUser by done. rewrite lookup_delete.
  repeat case_decide; set_solver.
Qed.

Lemma add_users_abs next a hs :
  auth_ok a →
  let a' := foldl (add_user next) a hs in
  auth_ok a' ∧ ∀ h, abs a' !! h =
    match abs a !! h with
    | Some u => Some u
    | None => if decide (h ∈ hs) then (λ u, new_user h (ui_UID u)) <$> (next !! h) else None
    end.
Proof.
  revert a. induction hs as [|h0 hs IH]; intros a Hok; cbn.
  { split; [done|]. intros h. rewrite decide_False by apply not_elem_of_nil. by destruct (abs a !! h). }
  unfold add_user at 2 4. destruct (next !! h0) as [u0|] eqn:E0; cbn.
  - destruct (IH (AddUser a h0 (ui_UID u0)).1) as [Hok' Hl]; [by apply auth_ok_AddUser|].
    split; [done|]. intros h. rewrite Hl, abs_AddUser by done.
    destruct (abs a !! h0) as [v|] eqn:Ev.
    + destruct (abs a !! h) eqn:Eh; [done|]. assert (h ≠ h0) by congruence.
      repeat case_decide; set_solver.
    + rewrite lookup_insert. destruct (decide (h0 = h)) as [<-|Hne].
      * rewrite Ev, decide_True, E0 by left. done.
      * destruct (abs a !! h); [done|]. repeat case_decide; set_solver.
  - destruct (IH a Hok) as [Hok' Hl]. split; [done|]. intros h. rewrite Hl.
    destruct (abs a !! h); [done|]. destruct (decide (h = h0)) as [->|Hne].
    + rewrite E0. repeat case_decide; done.
    + repeat case_decide; set_solver.
Qed.

(** What install_user leaves in a user: its profile and its limits. *)
Definition limiter_for (nodeLimit : Z) (info : UserInfo) : option Limiter :=
  let bps := i64 (determineRate nodeLimit (ui_SpeedLimit info)) in
  if bool_decide (bps ≤ 0) then None
  else Some {| lim_Limit := float64_of_Z bps; lim_Burst := bps |}.
Definition installed (cfg : Config) (nodeLimit : Z) (info : UserInfo) (u : User) : User :=
  set_limits (set_profile u (ui_Email info) (ui_UUID info) (ui_Passwd info))
    (if cf_EnableDeviceLimit cfg then ui_DeviceLimit info else u_maxIPNum u)
    (limiter_for nodeLimit info).

Section limits.
Context {C I : Type}.
Implicit Types c : Controller C I.

(** The limits alone. *)
Definition relimited (cfg : Config) (nodeLimit : Z) (info : UserInfo) (u : User) : User :=
  set_limits u (if cf_EnableDeviceLimit cfg then ui_DeviceLimit info else u_maxIPNum u)
    (limiter_for nodeLimit info).

Lemma ApplyUserLimits_abs c h l info :
  auth_ok (k_author c) → a_users (k_author c) !! h = Some l →
  let c' := ApplyUserLimits c h info in
  auth_ok (k_author c')
  ∧ a_users (k_author c') = a_users (k_author c)
  ∧ ∀ h', abs (k_author c') !! h' =
      if decide (h' = h) then relimited (k_config c) (nodeSpeedLimit c) info <$> (abs (k_author c) !! h')
      else abs (k_author c) !! h'.
Proof.
  intros Hok Hl. unfold ApplyUserLimits, SetUserSpeedLimit, SetUserDeviceLimit, relimited, limiter_for.
  rewrite (LoadUser_hash _ _ _ Hl). cbn [fst k_author with_author].
  set (bps := i64 _). set (f := λ u, SetSpeedLimit u bps).
  assert (auth_ok (update_user (k_author c) l f)) as Hok1 by (by apply auth_ok_update).
  destruct (cf_EnableDeviceLimit _).
  - rewrite (LoadUser_hash _ _ l) by done. cbn [fst].
    split; [by apply auth_ok_update|]. split; [done|]. intros h'.
    rewrite !(abs_update _ h l) by done. rewrite !lookup_alter.
    destruct (decide (h = h')) as [<-|Hne]; [rewrite !(decide_True (P := h = h)) by done|by rewrite !decide_False by done].
    by destruct (abs (k_author c) !! h).
  - split; [done|]. split; [done|]. intros h'. rewrite (abs_update _ h l) by done. rewrite lookup_alter.
    destruct (decide (h = h')) as [<-|Hne]; [by rewrite !(decide_True (P := h = h))|by rewrite !decide_False by done].
Qed.

Lemma install_user_abs next c h l info :
  auth_ok (k_author c) → a_users (k_author c) !! h = Some l → next !! h = Some info →
  let c' := install_user next c h in
  auth_ok (k_author c')
  ∧ a_users (k_author c') = a_users (k_author c)
  ∧ ∀ h', abs (k_author c') !! h' =
      if decide (h' = h) then installed (k_config c) (nodeSpeedLimit c) info <$> (abs (k_author c) !! h')
      else abs (k_author c) !! h'.
Proof.
  intros Hok Hl Hn. unfold install_user. rewrite Hn. unfold SetUserProfile. rewrite (LoadUser_hash _ _ _ Hl).
  set (f := λ u, set_profile u _ _ _).
  set (a := SetUserAliases (update_user (k_author c) l f) h _).
  assert (auth_ok a) as Hok1 by (by apply (auth_ok_update (k_author c) l f)).
  destruct (ApplyUserLimits_abs (with_author c a) h l info Hok1 Hl) as (H1 & H2 & H3).
  split; [done|]. split; [done|]. intros h'. rewrite H3. cbn [k_author with_author k_config].
  change (abs a) with (abs (update_user (k_author c) l f)).
  rewrite (abs_update _ h l) by done. rewrite lookup_alter.
  destruct (decide (h = h')) as [<-|Hne]; [rewrite !(decide_True (P := h = h)) by done|by rewrite !decide_False by done].
    by destruct (abs (k_author c) !! h).
Qed.

Lemma foldl_install_abs next c hs :
  auth_ok (k_author c) → NoDup hs →
  (∀ h, h ∈ hs → is_Some (next !! h) ∧ is_Some (a_users (k_author c) !! h)) →
  let c' := foldl (install_user next) c hs in
  auth_ok (k_author c')
  ∧ a_users (k_author c') = a_users (k_author c)
  ∧ ∀ h, abs (k_author c') !! h =
      if decide (h ∈ hs)
      then info ← next !! h; installed (k_config c) (nodeSpeedLimit c) info <$> (abs (k_author c) !! h)
      else abs (k_author c) !! h.
Proof.
  revert c. induction hs as [|h0 hs IH]; intros c Hok Hnd Hin; cbn.
  { split_and!; [done..|]. intros h. by rewrite decide_False by apply not_elem_of_nil. }
  apply NoDup_cons in Hnd as [Hh0 Hnd].
  destruct (Hin h0) as [[info Hi] [l Hl]]; [left|].
  destruct (install_user_abs next c h0 l info Hok Hl Hi) as (H1 & H2 & H3).
  destruct (install_user_author next c h0) as [au Hau]. rewrite Hau in *.
  destruct (IH (with_author c au)) as (H4 & H5 & H6); [done|done| |].
  { intros h Hh. rewrite H2. apply Hin. by right. }
  split; [done|]. split; [by rewrite H5|]. intros h. rewrite H6, H3.
  change (k_config (with_author c au)) with (k_config c).
  change (nodeSpeedLimit (with_author c au)) with (nodeSpeedLimit c).
  destruct (decide (h = h0)) as [->|Hne].
  - rewrite decide_False by done. rewrite decide_True by left. by rewrite Hi.
  - repeat case_decide; set_solver.
Qed.
End limits.

(** ** Changes that only touch counters, addresses and flags

    Draining counters, counting bytes and recording addresses happen between
    and during the synchronisations; none of them touches what the panel
    configured.  [same_faces] is the resulting equivalence. *)

Definition face (u : User) : string * Z * string * string * string * Z * option Limiter :=
  (u_hash u, u_UID u, u_Email u, u_UUID u, u_Passwd u, u_maxIPNum u, u_limiter u).

Definition same_faces (a a' : Authenticator) : Prop :=
  a_users a' = a_users a ∧ a_aliases a' = a_aliases a ∧ face <$> a_heap a' = face <$> a_heap a.

#[export] Instance same_faces_equiv : Equivalence same_faces.
Proof.
  split.
  - intros a. done.
  - intros a b (? & ? & ?). done.
  - intros a b c (E1 & E2 & E3) (E4 & E5 & E6). split_and!; congruence.
Qed.

Lemma same_faces_update a l f : (∀ u, face (f u) = face u) → same_faces a (update_user a l f).
Proof.
  intros Hf. split; [done|]. split; [done|]. cbn. apply list_eq. intros i. rewrite !list_lookup_fmap.
  destruct (decide (i = l)) as [->|Hne].
  - rewrite list_lookup_alter_eq. destruct (a_heap a !! l); cbn; [by rewrite Hf|done].
  - by rewrite list_lookup_alter_ne.
Qed.

Lemma same_faces_heap a a' l :
  same_faces a a' → face <$> (a_heap a' !! l) = face <$> (a_heap a !! l).
Proof. intros (_ & _ & E). rewrite <- !list_lookup_fmap. by rewrite E. Qed.

Lemma same_faces_abs a a' h : same_faces a a' → face <$> (abs a' !! h) = face <$> (abs a !! h).
Proof.
  intros E. rewrite !lookup_abs. pose proof E as (-> & _).
  destruct (a_users a !! h) as [l|]; [|done]. by apply same_faces_heap.
Qed.

#[export] Instance auth_ok_proper : Proper (same_faces ==> iff) auth_ok.
Proof.
  assert (∀ a a', same_faces a a' → auth_ok a → auth_ok a') as H.
  { intros a a' E Hok h l. pose proof E as (-> & _). intros (u & Hu & Hh)%Hok.
    pose proof (same_faces_heap a a' l E) as F. rewrite Hu in F.
    destruct (a_heap a' !! l) as [u'|]; [|done]. exists u'. split; [done|]. cbn in F. by simplify_eq. }
  intros a a' E. split; [by apply H|]. apply H. by symmetry.
Qed.

Lemma dump_user_faces st h : same_faces st.1 (dump_user st h).1.
Proof.
  destruct st as [a report]. unfold dump_user.
  destruct (LoadUser a h ≫= _) as [[l u]|] eqn:E; [|done]. cbn [ResetTraffic].
  assert (same_faces a (update_user a l (λ _, set_counters u 0 0 0 0))) as Hs; [|by destruct (_ && _)].
  assert (a_heap a !! l = Some u) as Hl.
  { destruct (LoadUser a h) as [l'|]; [|done]. cbn in E. destruct (a_heap a !! l') eqn:E'; cbn in E; by simplify_eq. }
  split; [done|]. split; [done|]. cbn. apply list_eq. intros i. rewrite !list_lookup_fmap.
  destruct (decide (i = l)) as [->|Hne].
  - rewrite list_lookup_alter_eq, Hl. done.
  - by rewrite list_lookup_alter_ne.
Qed.

Lemma dump_users_faces st hs : same_faces st.1 (foldl dump_user st hs).1.
Proof.
  revert st. induction hs as [|h hs IH]; intros st; [done|]. cbn.
  etransitivity; [apply dump_user_faces|apply IH].
Qed.

Lemma report_user_faces st l : same_faces st.1.1 (report_user st l).1.1.
Proof.
  destruct st as [[a traffic] online]. unfold report_user.
  destruct (a_heap a !! l) as [u|] eqn:Hl; [|done].
  assert (∀ v, face v = face u → same_faces a (update_user a l (λ _, v))) as Hs.
  { intros v Hv. split; [done|]. split; [done|]. cbn. apply list_eq. intros i. rewrite !list_lookup_fmap.
    destruct (decide (i = l)) as [->|Hne].
    - rewrite list_lookup_alter_eq, Hl. cbn. by rewrite Hv.
    - by rewrite list_lookup_alter_ne. }
  cbn [ResetTraffic ResetIPTable]. destruct (_ && _); by apply Hs.
Qed.

Lemma report_users_faces st ls : same_faces st.1.1 (foldl report_user st ls).1.1.
Proof.
  revert st. induction ls as [|l ls IH]; intros st; [done|]. cbn.
  etransitivity; [apply report_user_faces|apply IH].
Qed.

(** ** The relation between the authenticator and the map *)

(** A relation a synchronisation maintains, under a configuration and a node
    speed limit. *)
Record sync_rel (cfg : Config) (nl : Z) (R : User → UserInfo → Prop) : Prop := {
  sr_face : ∀ u u' i, face u' = face u → R u i → R u' i;
  sr_uid : ∀ u i, R u i → u_UID u = ui_UID i;
  sr_install : ∀ u i, u_UID u = ui_UID i → R (installed cfg nl i u) i;
  sr_same : ∀ u o i, R u o → userMaterialChanged o i = false → ui_UID o = ui_UID i → R u i;
}.

Definition profiled (cfg : Config) (u : User) (i : UserInfo) : Prop :=
  u_UID u = ui_UID i ∧ u_Email u = ui_Email i ∧ u_UUID u = ui_UUID i ∧ u_Passwd u = ui_Passwd i
  ∧ (cf_EnableDeviceLimit cfg = true → u_maxIPNum u = ui_DeviceLimit i).
Definition limited (cfg : Config) (nl : Z) (u : User) (i : UserInfo) : Prop :=
  profiled cfg u i ∧ u_limiter u = limiter_for nl i.

Lemma material_same o i : userMaterialChanged o i = false →
  ui_UUID o = ui_UUID i ∧ ui_Passwd o = ui_Passwd i ∧ ui_Email o = ui_Email i
  ∧ ui_SpeedLimit o = ui_SpeedLimit i ∧ ui_DeviceLimit o = ui_DeviceLimit i.
Proof.
  unfold userMaterialChanged. rewrite !orb_false_iff, !bool_decide_eq_false.
  intros (((((H1 & H2) & H3) & _) & H4) & H5). apply dec_stable in H1, H2, H3, H4, H5. done.
Qed.

Lemma profiled_sync cfg nl : sync_rel cfg nl (profiled cfg).
Proof.
  split.
  - intros u u' i E. unfold face in E. simplify_eq. unfold profiled. intuition congruence.
  - by intros u i (? & _).
  - intros u i Hu. unfold profiled, installed. cbn. split_and!; try done. by intros ->.
  - intros u o i (H1 & H2 & H3 & H4 & H5) (E1 & E2 & E3 & E4 & E5)%material_same Hu.
    unfold profiled. rewrite H1, H2, H3, H4, E1, E2, E3, <- E5. done.
Qed.

Lemma limited_sync cfg nl : sync_rel cfg nl (limited cfg nl).
Proof.
  destruct (profiled_sync cfg nl) as [P1 P2 P3 P4]. split.
  - intros u u' i E [Hp Hl]. split; [by eapply P1|]. unfold face in E. simplify_eq. congruence.
  - intros u i [Hp _]. auto.
  - intros u i Hu. split; [auto|done].
  - intros u o i [Hp Hl] Hm Hu. split; [eauto|]. apply material_same in Hm as (_ & _ & _ & Es & _).
    rewrite Hl. unfold limiter_for. by rewrite Es.
Qed.

Section agreement.
Context `{RangeOrder, Regexp} {C W : Type} `{PanelAPI C W} {I WI : Type} `{PanelInbound I WI}.
Implicit Types (c : Controller C I) (e : Env W WI) (R : User → UserInfo → Prop).

Definition related R (a : Authenticator) (m : gmap string UserInfo) : Prop :=
  auth_ok a ∧ ∀ h, option_Forall2 R (abs a !! h) (m !! h).
Definition agree R c : Prop := keys_ok (k_usersMap c) ∧ related R (k_author c) (k_usersMap c).

Lemma related_faces cfg nl R a a' m :
  sync_rel cfg nl R → same_faces a a' → related R a m → related R a' m.
Proof.
  intros HR E [Hok Hr]. split; [by rewrite <- E|]. intros h. specialize (Hr h).
  pose proof (same_faces_abs a a' h E) as F.
  destruct (abs a !! h) as [u|], (abs a' !! h) as [u'|]; cbn in F; try done.
  inversion Hr; subst. constructor. eapply sr_face; [done| |done]. congruence.
Qed.

Lemma related_Some R a m h u : related R a m → abs a !! h = Some u → ∃ i, m !! h = Some i ∧ R u i.
Proof. intros [_ Hr] Hu. specialize (Hr h). rewrite Hu in Hr. inversion Hr; subst. eauto. Qed.
Lemma related_Some_r R a m h i : related R a m → m !! h = Some i → ∃ u, abs a !! h = Some u ∧ R u i.
Proof. intros [_ Hr] Hi. specialize (Hr h). rewrite Hi in Hr. inversion Hr; subst. eauto. Qed.
Lemma related_None R a m h : related R a m → abs a !! h = None ↔ m !! h = None.
Proof. intros [_ Hr]. specialize (Hr h). inversion Hr; subst; done. Qed.

(** The table after the deletions and additions of a commit. *)
Lemma commit_table a d :
  auth_ok a →
  let a' := foldl (add_user (d_next d)) (foldl (λ a h, fst (DelUser a h)) a (d_deleted d)) (d_added d) in
  auth_ok a' ∧ ∀ h, abs a' !! h =
    match (if decide (h ∈ d_deleted d) then None else abs a !! h) with
    | Some u => Some u
    | None => if decide (h ∈ d_added d) then (λ u, new_user h (ui_UID u)) <$> (d_next d !! h) else None
    end.
Proof.
  intros Hok. destruct (del_users_abs a (d_deleted d) Hok) as [Hok1 Hl1].
  destruct (add_users_abs (d_next d) _ (d_added d) Hok1) as [Hok2 Hl2].
  split; [done|]. intros h. rewrite Hl2, Hl1. done.
Qed.

(** The table after the whole commit. *)
Lemma commit_users_abs c l d :
  diff_ok (k_usersMap c) l (buildUserHash c) d → auth_ok (k_author c) →
  (∀ h, abs (k_author c) !! h = None ↔ k_usersMap c !! h = None) →
  auth_ok (k_author (commit_users c d))
  ∧ ∀ h, abs (k_author (commit_users c d)) !! h =
      i ← d_next d !! h;
      match k_usersMap c !! h with
      | None => Some (installed (k_config c) (nodeSpeedLimit c) i (new_user h (ui_UID i)))
      | Some o =>
          (if userMaterialChanged o i then installed (k_config c) (nodeSpeedLimit c) i else id)
            <$> (abs (k_author c) !! h)
      end.
Proof.
  intros [_ Ha Hdel Hc Hnd] Hok0 Hdom0.
  destruct (commit_table (k_author c) d Hok0) as [Hok Htab].
  unfold commit_users. cbn [k_author with_pending with_author]. set (a := foldl (add_user _) _ _) in *.
  set (c1 := with_usersMap _ _).
  assert (∀ h, abs a !! h =
    i ← d_next d !! h; match k_usersMap c !! h with None => Some (new_user h (ui_UID i)) | Some _ => abs (k_author c) !! h end) as Htab'.
  { intros h. rewrite Htab. specialize (Ha h). specialize (Hdel h). specialize (Hdom0 h).
    destruct (d_next d !! h) as [i|] eqn:Ei, (k_usersMap c !! h) as [o|] eqn:Eo; cbn.
    - rewrite (decide_False (P := h ∈ d_deleted d)) by naive_solver.
      destruct (abs (k_author c) !! h) eqn:E; [done|]. naive_solver.
    - rewrite (proj2 Hdom0) by done. rewrite (decide_True (P := h ∈ d_added d)) by naive_solver.
      by destruct (decide _).
    - rewrite (decide_True (P := h ∈ d_deleted d)) by naive_solver.
      by rewrite (decide_False (P := h ∈ d_added d)) by naive_solver.
    - rewrite (proj2 Hdom0) by done. rewrite (decide_False (P := h ∈ d_added d)) by naive_solver.
      by destruct (decide _). }
  assert (∀ h, is_Some (d_next d !! h) → is_Some (a_users a !! h)) as Hdom.
  { intros h [i Hi]. apply abs_is_Some; [done|]. rewrite Htab', Hi. cbn. specialize (Hdom0 h).
    destruct (k_usersMap c !! h); [|eauto]. destruct (abs (k_author c) !! h) eqn:E; [eauto|]. naive_solver. }
  apply NoDup_app in Hnd as (Hnd1 & Hdisj & Hnd2). apply NoDup_app in Hnd2 as (Hnd2 & _ & _).
  destruct (foldl_install_abs (d_next d) c1 (d_added d)) as (Ho1 & Hu1 & Hl1); [done|done| |].
  { intros h [Hs _]%Ha. split; [done|]. by apply Hdom. }
  destruct (foldl_author (install_user (d_next d)) c1 (d_added d)) as [au1 Eau1];
    [intros; apply install_user_author|]. rewrite Eau1 in *.
  destruct (foldl_install_abs (d_next d) (with_author c1 au1) (d_changed d)) as (Ho2 & Hu2 & Hl2); [done|done| |].
  { intros h (o & i & _ & Hi & _)%Hc. split; [eauto|]. rewrite Hu1. apply Hdom. eauto. }
  split; [done|]. intros h. rewrite Hl2, Hl1. change (k_author c1) with a. rewrite Htab'.
  specialize (Ha h). specialize (Hc h).
  destruct (d_next d !! h) as [i|] eqn:Ei; cbn.
  2: { destruct (decide (h ∈ d_changed d)), (decide (h ∈ d_added d)); done. }
  destruct (k_usersMap c !! h) as [o|] eqn:Eo.
  - rewrite (decide_False (P := h ∈ d_added d)) by naive_solver.
    destruct (userMaterialChanged o i) eqn:Em.
    + by rewrite decide_True by naive_solver.
    + rewrite decide_False by naive_solver congruence. by rewrite option_fmap_id.
  - rewrite (decide_False (P := h ∈ d_changed d)) by naive_solver.
    by rewrite (decide_True (P := h ∈ d_added d)) by naive_solver.
Qed.

Lemma commit_users_agree R c l d :
  sync_rel (k_config c) (nodeSpeedLimit c) R →
  diff_ok (k_usersMap c) l (buildUserHash c) d → keys_ok (d_next d) →
  agree R c → agree R (commit_users c d).
Proof.
  intros HR Hd Hk [Hko Hrel].
  destruct (commit_users_abs c l d Hd (proj1 Hrel)) as [Hok Hl].
  { intros h. by eapply related_None. }
  destruct (commit_users_shape c d) as [au E]. rewrite E in *.
  split; [exact Hk|]. split; [done|]. intros h. rewrite Hl.
  change (k_usersMap (with_author _ au)) with (d_next d).
  destruct (d_next d !! h) as [i|] eqn:Ei; cbn; [|constructor].
  destruct (k_usersMap c !! h) as [o|] eqn:Eo; [|constructor; by eapply sr_install].
  destruct (related_Some_r R _ _ _ _ Hrel Eo) as (u & -> & Hu).
  assert (ui_UID o = ui_UID i) as Euid by (apply (inj user_name); by rewrite (Hko h o), (Hk h i)).
  cbn. constructor. destruct (userMaterialChanged o i) eqn:Em.
  - eapply sr_install; [done|]. by rewrite (sr_uid _ _ _ HR _ _ Hu).
  - by eapply sr_same.
Qed.

(** *** Every activity keeps the agreement *)

(** What an activity of the controller may do to the parts the agreement is
    about. *)
Record keeps R c c' : Prop := {
  kp_config : k_config c' = k_config c;
  kp_agree : agree R c → agree R c';
}.

#[export] Instance keeps_preorder R : PreOrder (keeps R).
Proof.
  split; [by split|]. intros c1 c2 c3 [E1 A1] [E2 A2]. split; [congruence|auto].
Qed.

Lemma keeps_faces cfg nl R c c' :
  sync_rel cfg nl R → k_config c' = k_config c → k_usersMap c' = k_usersMap c →
  same_faces (k_author c) (k_author c') → keeps R c c'.
Proof.
  intros HR Ec Em Ef. split; [done|]. intros [Hk Hr]. split; rewrite Em; [done|].
  by eapply related_faces.
Qed.

Lemma dump_keeps cfg nl R c e hs : sync_rel cfg nl R → keeps R c (fst (dumpTrafficForDeleted c e hs)).
Proof.
  intros HR. pose proof (dump_users_faces (k_author c, []) hs) as Hf.
  unfold dumpTrafficForDeleted, call_traffic. destruct (foldl dump_user _ _) as [a report].
  case_bool_decide; cbn; [|destruct (ReportUserTraffic _ _ _)]; by eapply keeps_faces.
Qed.

Lemma sync_list_keeps R c e l :
  is_sspanel c → sync_rel (k_config c) (nodeSpeedLimit c) R →
  keeps R c (sync_list c e l).1 ∧ k_nodeInfo (sync_list c e l).1 = k_nodeInfo c.
Proof.
  intros Hs HR. unfold sync_list. set (d := diffUsers _ _ _).
  set (c1 := if bool_decide (d_deleted d = []) then c else _).
  assert (keeps R c c1) as K1 by (unfold c1; case_bool_decide; [done|by eapply dump_keeps]).
  assert (k_nodeInfo c1 = k_nodeInfo c ∧ k_usersMap c1 = k_usersMap c) as [En Em].
  { unfold c1. case_bool_decide; [done|]. by destruct (dump_shape c e (d_deleted d)) as (au & cl & calls & ->). }
  destruct (if negb _ then _ else _) as [i r].
  assert (keeps R c1 (with_inbound c1 i)) as K2 by (by apply keeps_faces with (1 := HR)).
  destruct r as [[]|err|w]; cbn [fst].
  - destruct (commit_users_shape (with_inbound c1 i) d) as [au Eau].
    split; [|by rewrite Eau]. etransitivity; [exact K1|]. etransitivity; [exact K2|].
    split; [by rewrite Eau|]. intros Ha. eapply (commit_users_agree R _ l); [| | |done].
    + unfold nodeSpeedLimit. cbn. rewrite En. by rewrite (kp_config _ _ _ K1).
    + replace (buildUserHash (with_inbound c1 i)) with (buildUserHash c).
      * cbn. rewrite Em. apply diffUsers_ok.
      * unfold buildUserHash. cbn. by rewrite (kp_config _ _ _ K1).
    + by apply target_keys.
  - split; [|done]. etransitivity; [exact K1|]. by apply keeps_faces with (1 := HR).
  - split; [|done]. by etransitivity.
Qed.

Lemma syncUserList_keeps R c e :
  is_sspanel c → sync_rel (k_config c) (nodeSpeedLimit c) R →
  keeps R c (syncUserList c e).1 ∧ k_nodeInfo (syncUserList c e).1 = k_nodeInfo c.
Proof.
  intros Hs HR. unfold syncUserList. destruct (GetUserList _ _) as [cl [us|err|w]];
    [| |split; [by apply keeps_faces with (1 := HR)|done]];
    set (c1 := with_client c cl);
    assert (keeps R c c1) as K1 by (by apply keeps_faces with (1 := HR)).
  - destruct (sync_list_keeps R c1 e us) as [K2 En]; [done|done|]. split; [by etransitivity|done].
  - destruct (negb (is_text err UserNotModified)); [done|].
    destruct (negb (k_userSyncPending c1)); [done|].
    destruct (sync_list_keeps R c1 e (k_lastUserList c1)) as [K2 En]; [done|done|].
    split; [by etransitivity|done].
Qed.

Lemma ApplyUserLimits_config c h info :
  k_config (ApplyUserLimits c h info) = k_config c ∧ k_usersMap (ApplyUserLimits c h info) = k_usersMap c
  ∧ nodeSpeedLimit (ApplyUserLimits c h info) = nodeSpeedLimit c.
Proof. done. Qed.

Definition apply_limits c (p : string * UserInfo) : Controller C I := ApplyUserLimits c p.1 p.2.

Lemma apply_limits_step c h i :
  related (profiled (k_config c)) (k_author c) (k_usersMap c) → k_usersMap c !! h = Some i →
  let c' := ApplyUserLimits c h i in
  related (profiled (k_config c)) (k_author c') (k_usersMap c)
  ∧ ∀ h', u_limiter <$> (abs (k_author c') !! h') =
      if decide (h' = h) then Some (limiter_for (nodeSpeedLimit c) i)
      else u_limiter <$> (abs (k_author c) !! h').
Proof.
  intros Hr Hi. destruct (related_Some_r _ _ _ _ _ Hr Hi) as (u & Hu & Hp).
  assert (is_Some (a_users (k_author c) !! h)) as [l Hl] by (apply abs_is_Some; [apply Hr|eauto]).
  destruct (ApplyUserLimits_abs c h l i (proj1 Hr) Hl) as (Ho & _ & Habs). split.
  - split; [done|]. intros h'. rewrite Habs. case_decide as Hh; [subst h'|apply Hr].
    rewrite Hu, Hi. cbn. constructor. destruct Hp as (E1 & E2 & E3 & E4 & E5).
    unfold profiled, relimited. cbn. split_and!; try done. by intros ->.
  - intros h'. rewrite Habs. case_decide; [subst; by rewrite Hu|done].
Qed.

Lemma apply_limits_all l c :
  (∀ h i, (h, i) ∈ l → k_usersMap c !! h = Some i) →
  related (profiled (k_config c)) (k_author c) (k_usersMap c) →
  let c' := foldl apply_limits c l in
  k_config c' = k_config c ∧ k_usersMap c' = k_usersMap c ∧ k_nodeInfo c' = k_nodeInfo c
  ∧ related (profiled (k_config c)) (k_author c') (k_usersMap c)
  ∧ ∀ h i, k_usersMap c !! h = Some i →
      u_limiter <$> (abs (k_author c') !! h) =
        if decide (h ∈ l.*1) then Some (limiter_for (nodeSpeedLimit c) i)
        else u_limiter <$> (abs (k_author c) !! h).
Proof.
  revert c. induction l as [|[h0 i0] l IH]; intros c Hin Hr; cbn.
  { split_and!; [done..|]. intros h i _. by rewrite decide_False by apply not_elem_of_nil. }
  assert (k_usersMap c !! h0 = Some i0) as Hi0 by (apply Hin; left).
  destruct (apply_limits_step c h0 i0 Hr Hi0) as [Hr2 Hl2].
  destruct (IH (apply_limits c (h0, i0))) as (F1 & F2 & F3 & F4 & F5); [|exact Hr2|].
  { intros h i Hhi. apply Hin. by right. }
  split; [exact F1|]. split; [exact F2|]. split; [exact F3|]. split; [exact F4|].
  intros h i Hi. rewrite (F5 h i Hi). unfold apply_limits at 2. cbn [fst snd]. rewrite Hl2.
  change (nodeSpeedLimit (apply_limits c (h0, i0))) with (nodeSpeedLimit c).
  destruct (decide (h = h0)) as [->|Hne].
  - rewrite (decide_True (P := h0 ∈ h0 :: _)) by left. assert (i = i0) as -> by congruence. by destruct (decide _).
  - destruct (decide (h ∈ l.*1)), (decide (h ∈ h0 :: l.*1)); set_solver.
Qed.

(** Reapplying the limits gives every user the limiter of the current node. *)
Lemma refreshAllSpeedLimits_spec c :
  agree (profiled (k_config c)) c →
  let c' := refreshAllSpeedLimits c in
  k_config c' = k_config c ∧ k_nodeInfo c' = k_nodeInfo c
  ∧ agree (limited (k_config c) (nodeSpeedLimit c)) c'.
Proof.
  intros [Hk Hrel]. unfold refreshAllSpeedLimits.
  assert (∀ l c1, foldl (λ c '(hash, u), ApplyUserLimits c hash u) c1 l = foldl apply_limits c1 l) as ->.
  { induction l as [|[h i] l IH]; intros c1; cbn; [done|apply IH]. }
  destruct (apply_limits_all (range (k_usersMap c)) c) as (E1 & E2 & E3 & Hr & Hl);
    [by intros h i ?%elem_of_range|done|].
  split; [done|]. split; [done|]. split; rewrite E2; [done|]. split; [apply Hr|]. intros h.
  pose proof (proj2 Hr h) as Hh. specialize (Hl h).
  destruct (k_usersMap c !! h) as [i|] eqn:Ei; inversion Hh as [u i' Hp Eu|Eu]; subst; [|constructor].
  constructor. split; [done|]. specialize (Hl i eq_refl). rewrite <- Eu, decide_True in Hl.
  { by injection Hl. }
  apply list_elem_of_fmap. exists (h, i). by rewrite elem_of_range.
Qed.
End agreement.

(** ** Reachable states *)

Section reachability.
Context `{RangeOrder, Regexp} {C W : Type} `{PanelAPI C W} {I WI : Type} `{PanelInbound I WI}.
Implicit Types (c : Controller C I) (e : Env W WI).

(** Everything that touches a controller: its start, its two periodic tasks,
    and the connections, which attach to a user, count bytes through the
    pointer they were given (also after the user is gone) and are audited. *)
Inductive event :=
  | EvStart (e : Env W WI) | EvNodeTick (e : Env W WI) | EvUserTick (e : Env W WI)
  | EvConnect (user source : string) | EvSent (l : nat) (n : Z) | EvRecv (l : nat) (n : Z)
  | EvAudit (now uid : Z) (host : string).

Definition ctl_step c (ev : event) : Controller C I :=
  match ev with
  | EvStart e => (Start c e).1
  | EvNodeTick e => (nodeInfoMonitor c e).1
  | EvUserTick e => (userInfoMonitor c e).1
  | EvConnect user source => (LoadOrCreateUserCounter c user source).1
  | EvSent l n => with_author c (update_user (k_author c) l (λ u, count_sent u n))
  | EvRecv l n => with_author c (update_user (k_author c) l (λ u, count_recv u n))
  | EvAudit now uid host => (MatchAudit c now uid host).1
  end.

(** Writes to the other fields. *)
Lemma keeps_other R c c' :
  k_config c' = k_config c → k_usersMap c' = k_usersMap c → k_author c' = k_author c → keeps R c c'.
Proof. intros Ec Em Ea. split; [done|]. unfold agree. by rewrite Em, Ea. Qed.

Lemma refreshDetectRules_other c e :
  k_config (refreshDetectRules c e).1 = k_config c ∧ k_usersMap (refreshDetectRules c e).1 = k_usersMap c
  ∧ k_author (refreshDetectRules c e).1 = k_author c ∧ k_nodeInfo (refreshDetectRules c e).1 = k_nodeInfo c
  ∧ k_reloadPending (refreshDetectRules c e).1 = k_reloadPending c.
Proof.
  unfold refreshDetectRules. destruct (GetNodeRule _ _) as [cl [rules|err|w]]; cbn; [done| |done].
  by destruct (is_text _ _).
Qed.

Lemma monitor_reload_other c e b :
  k_config (monitor_reload c e b).1 = k_config c ∧ k_usersMap (monitor_reload c e b).1 = k_usersMap c
  ∧ k_author (monitor_reload c e b).1 = k_author c.
Proof.
  unfold monitor_reload. destruct (_ && _); [|done]. by destruct (configure_inbound c e) as [i [[]|err|w]].
Qed.

Lemma monitor_tail_keeps R c e b :
  keeps R c (let '(c, r) := refreshDetectRules c e in
             match r with Panic w => (c, Panic w) | _ => monitor_reload c e b end).1.
Proof.
  destruct (refreshDetectRules_other c e) as (E1 & E2 & E3 & _).
  destruct (refreshDetectRules c e) as [c1 r]. cbn [fst] in *.
  transitivity c1; [by apply keeps_other|].
  destruct (monitor_reload_other c1 e b) as (F1 & F2 & F3). destruct r; [by apply keeps_other..|done].
Qed.

Lemma agree_weaken cfg nl c : agree (limited cfg nl) c → agree (profiled cfg) c.
Proof.
  intros [Hk [Hok Hr]]. split; [done|]. split; [done|]. intros h. specialize (Hr h).
  inversion Hr as [? ? [? _]|]; by constructor.
Qed.

Lemma refreshAll_keeps cfg c :
  k_config c = cfg → agree (profiled cfg) c →
  k_config (refreshAllSpeedLimits c) = cfg ∧ agree (profiled cfg) (refreshAllSpeedLimits c).
Proof.
  intros <- Ha. destruct (refreshAllSpeedLimits_spec c Ha) as (E1 & _ & Ha').
  split; [done|]. by eapply agree_weaken.
Qed.

(** [consistent cfg c]: configuration [cfg], and map and authenticator agree. *)
Definition consistent cfg c : Prop := k_config c = cfg ∧ agree (profiled cfg) c.

Lemma consistent_keeps cfg c c' : keeps (profiled cfg) c c' → consistent cfg c → consistent cfg c'.
Proof. intros [Ec Ha] [E A]. split; [congruence|auto]. Qed.

Lemma consistent_other cfg c c' :
  k_config c' = k_config c → k_usersMap c' = k_usersMap c → k_author c' = k_author c →
  consistent cfg c → consistent cfg c'.
Proof. intros. eapply consistent_keeps; [by apply keeps_other|done]. Qed.

Lemma consistent_faces cfg c c' :
  k_config c' = k_config c → k_usersMap c' = k_usersMap c → same_faces (k_author c) (k_author c') →
  consistent cfg c → consistent cfg c'.
Proof. intros. eapply consistent_keeps; [|done]. by apply keeps_faces with (1 := profiled_sync cfg 0). Qed.

Lemma syncUserList_consistent cfg c e :
  cf_PanelType cfg = "SSpanel" → consistent cfg c → consistent cfg (syncUserList c e).1.
Proof.
  intros Hs [E A]. eapply consistent_keeps; [|by split].
  apply syncUserList_keeps; [unfold is_sspanel; by rewrite E|]. rewrite E. apply profiled_sync.
Qed.

Lemma nodeInfoMonitor_consistent cfg c e :
  cf_PanelType cfg = "SSpanel" → consistent cfg c → consistent cfg (nodeInfoMonitor c e).1.
Proof.
  intros Hs Hc. unfold nodeInfoMonitor. destruct (delayed c e); [done|].
  destruct (GetNodeInfo _ _) as [cl r]. set (next := match r with Ok _ => _ | _ => _ end).
  destruct next as [[changed [n|]]|].
  - case_bool_decide; [done|]. set (c1 := with_node _ _ _).
    assert (consistent cfg c1) as Hc1 by (by eapply consistent_other).
    pose proof (syncUserList_consistent cfg c1 e Hs Hc1) as Hc2.
    destruct (syncUserList c1 e) as [c2 [[]|err|w]]; cbn [fst] in *; [|done..].
    set (c3 := if bool_decide _ then _ else _).
    assert (consistent cfg c3) as Hc3.
    { unfold c3. case_bool_decide; [done|]. destruct Hc2 as [E2 A2]. by apply refreshAll_keeps. }
    eapply consistent_keeps; [apply monitor_tail_keeps|done].
  - done.
  - by destruct r.
Qed.

Lemma userInfoMonitor_consistent cfg c e :
  consistent cfg c → consistent cfg (userInfoMonitor c e).1.
Proof.
  intros Hc. unfold userInfoMonitor. destruct (delayed c e); [done|].
  set (c1 := match e_sys e with Ok _ => _ | _ => _ end).
  assert (consistent cfg c1) as Hc1.
  { unfold c1, call_status. destruct (e_sys e); [|done..]. by destruct (ReportNodeStatus _ _ _). }
  pose proof (report_users_faces (k_author c1, [], []) (ListUsers (k_author c1))) as Hf.
  destruct (foldl report_user _ _) as [[a traffic] online]. cbn [fst] in Hf.
  set (c2 := with_author c1 a).
  assert (consistent cfg c2) as Hc2 by (by eapply consistent_faces with (c := c1)).
  set (c3 := if bool_decide (traffic = []) then _ else _).
  assert (consistent cfg c3) as Hc3.
  { unfold c3, call_traffic. case_bool_decide; [done|]. by destruct (ReportUserTraffic _ _ _). }
  set (c4 := if bool_decide (online = []) then _ else _).
  assert (consistent cfg c4) as Hc4.
  { unfold c4, call_online. case_bool_decide; [done|]. by destruct (ReportNodeOnlineUsers _ _ _). }
  cbn [drainDetectResults]. unfold drainDetectResults, call_illegal. case_bool_decide; [done|].
  by destruct (ReportIllegal _ _ _).
Qed.

Lemma Start_consistent cfg c e :
  cf_PanelType cfg = "SSpanel" → consistent cfg c → consistent cfg (Start c e).1.
Proof.
  intros Hs Hc. unfold Start. destruct (GetNodeInfo _ _) as [cl [n|err|w]]; [|done..].
  case_bool_decide; [done|]. set (c1 := with_node _ _ _).
  destruct (if is_PConfigurable then _ else _) as [i [[]|err|w]]; [|done..].
  set (c2 := with_inbound c1 i). assert (consistent cfg c2) as Hc2 by (by eapply consistent_other).
  pose proof (syncUserList_consistent cfg c2 e Hs Hc2) as Hc3.
  by destruct (syncUserList c2 e) as [c3 [[]|err|w]].
Qed.

Lemma recordDetect_other c now uid id :
  k_config (recordDetect c now uid id) = k_config c ∧ k_usersMap (recordDetect c now uid id) = k_usersMap c
  ∧ k_author (recordDetect c now uid id) = k_author c.
Proof. unfold recordDetect. destruct (_ !! _); [case_bool_decide|]; done. Qed.

Lemma ctl_step_consistent cfg c ev :
  cf_PanelType cfg = "SSpanel" → consistent cfg c → consistent cfg (ctl_step c ev).
Proof.
  intros Hs Hc. destruct ev as [e|e|e|user source|l n|l n|now uid host]; cbn.
  - by apply Start_consistent.
  - by apply nodeInfoMonitor_consistent.
  - by apply userInfoMonitor_consistent.
  - unfold LoadOrCreateUserCounter. destruct (LoadUser _ _) as [l|]; [|done]. cbn.
    eapply consistent_faces; [..|done]; try done. apply same_faces_update. intros u.
    unfold AddIP. by repeat case_match.
  - eapply consistent_faces; [..|done]; try done. by apply same_faces_update.
  - eapply consistent_faces; [..|done]; try done. by apply same_faces_update.
  - unfold MatchAudit. case_bool_decide; [done|]. destruct (k_detectRules c) as [rules|]; [|done].
    destruct (first_match host rules) as [id|]; [|done].
    destruct (recordDetect_other c now uid id) as (? & ? & ?). by eapply consistent_other.
Qed.

Lemma reachable_consistent config client inbound now evs :
  cf_PanelType config = "SSpanel" →
  consistent config (foldl ctl_step (new_controller config client inbound now) evs).
Proof.
  intros Hs. apply foldl_inv.
  - split; [done|]. split; [intros h u; cbn; by rewrite lookup_empty|].
    split; [intros h l; cbn; by rewrite lookup_empty|]. intros h. rewrite lookup_abs. cbn.
    rewrite !lookup_empty. constructor.
  - intros c ev _. by apply ctl_step_consistent.
Qed.

(** *** Aliases

    Apart from its runtime name a user is found under its UUID, password and
    email.  Every alias stored belongs to a user of the map and is one of that
    user's credentials. *)

Definition credentials (i : UserInfo) : list string := [ui_UUID i; ui_Passwd i; ui_Email i].

Definition aliased c : Prop :=
  ∀ alias h, a_aliases (k_author c) !! alias = Some h →
  alias ≠ "" ∧ ∃ i, k_usersMap c !! h = Some i ∧ alias ∈ credentials i.

Lemma aliased_same c c' :
  a_aliases (k_author c') = a_aliases (k_author c) → k_usersMap c' = k_usersMap c → aliased c → aliased c'.
Proof. unfold aliased. by intros -> ->. Qed.

Lemma del_users_aliases hs a alias h :
  a_aliases (foldl (λ a h, (DelUser a h).1) a hs) !! alias = Some h →
  a_aliases a !! alias = Some h ∧ (h ∈ hs → a_users a !! h = None).
Proof.
  revert a. induction hs as [|h0 hs IH]; intros a; cbn [foldl]; [by intros; split; [|intros ?%not_elem_of_nil]|].
  intros [Ha Hin]%IH. unfold DelUser in Ha, Hin. destruct (a_users a !! h0) as [l|] eqn:El.
  - cbn in Ha, Hin. apply map_lookup_filter_Some in Ha as [Ha Hne]. split; [done|].
    intros [->|Hh]%elem_of_cons; [done|]. specialize (Hin Hh). by rewrite lookup_delete_ne in Hin.
  - cbn in Ha, Hin. split; [done|]. intros [->|Hh]%elem_of_cons; auto.
Qed.

Lemma store_aliases_lookup hash l m alias h :
  foldl (store_alias hash) m l !! alias = Some h →
  (h = hash ∧ alias ∈ l ∧ alias ≠ "") ∨ m !! alias = Some h.
Proof.
  revert m. induction l as [|x l IH]; intros m; cbn [foldl]; [by right|].
  intros [(-> & Hin & Hne)|Hm]%IH; [left; split_and!; [done|by right|done]|].
  unfold store_alias in Hm. case_bool_decide as Hx; [by right|].
  apply lookup_insert_Some in Hm as [[-> ->]|[_ Hm]]; [|by right]. left. split_and!; [done|left|]. intros ->. apply Hx. by left.
Qed.

Lemma install_user_aliases next c h0 alias h :
  a_aliases (k_author (install_user next c h0)) !! alias = Some h →
  match next !! h0 with
  | Some i => (h = h0 ∧ alias ∈ credentials i ∧ alias ≠ "") ∨ (h ≠ h0 ∧ a_aliases (k_author c) !! alias = Some h)
  | None => a_aliases (k_author c) !! alias = Some h
  end.
Proof.
  unfold install_user. destruct (next !! h0) as [i|]; [|done].
  assert (∀ c, a_aliases (k_author (ApplyUserLimits c h0 i)) = a_aliases (k_author c)) as ->.
  { clear. intros c. unfold ApplyUserLimits, SetUserSpeedLimit, SetUserDeviceLimit. cbn.
    by destruct (cf_EnableDeviceLimit _); repeat case_match. }
  cbn [k_author with_author SetUserAliases a_aliases]. intros [?|Ha]%store_aliases_lookup; [by left|]. right.
  cbn in Ha. apply map_lookup_filter_Some in Ha as [Ha Hne]. split; [done|]. revert Ha. unfold SetUserProfile. by case_match.
Qed.

Lemma install_users_aliases next hs c alias h :
  a_aliases (k_author (foldl (install_user next) c hs)) !! alias = Some h →
  (∃ i, next !! h = Some i ∧ alias ∈ credentials i ∧ alias ≠ "")
  ∨ (a_aliases (k_author c) !! alias = Some h ∧ (h ∈ hs → next !! h = None)).
Proof.
  revert c. induction hs as [|h0 hs IH]; intros c; cbn [foldl]; [intros ?; right; split; [done|by intros ?%not_elem_of_nil]|].
  intros [?|[Ha Hin]]%IH; [by left|]. apply install_user_aliases in Ha. destruct (next !! h0) as [i|] eqn:Ei.
  - destruct Ha as [(-> & ? & ?)|[Hne Ha]]; [left; eauto|]. right. split; [done|]. intros [->|?]%elem_of_cons; [done|auto].
  - right. split; [done|]. intros [->|?]%elem_of_cons; auto.
Qed.

Lemma add_users_aliases next hs a : a_aliases (foldl (add_user next) a hs) = a_aliases a.
Proof.
  revert a. induction hs as [|h hs IH]; intros a; [done|]. cbn. rewrite IH. unfold add_user, AddUser. by repeat case_match.
Qed.

Lemma commit_users_aliased c l d :
  diff_ok (k_usersMap c) l (buildUserHash c) d → (∀ h, is_Some (k_usersMap c !! h) → is_Some (a_users (k_author c) !! h)) →
  aliased c → aliased (commit_users c d).
Proof.
  intros [_ Hadd Hdel Hch _] Hsub Ha alias h.
  assert (k_usersMap (commit_users c d) = d_next d) as -> by (by destruct (commit_users_shape c d) as [au ->]).
  unfold commit_users. rewrite <- foldl_app. intros Hl.
  apply install_users_aliases in Hl as [(i & Hi & Hin & Hne)|[Hl Hno]]; [eauto|].
  cbn in Hl. rewrite add_users_aliases in Hl. apply del_users_aliases in Hl as [Hl Hdl].
  destruct (Ha alias h Hl) as (Hne & o & Ho & Hin). split; [done|].
  destruct (d_next d !! h) as [i|] eqn:Ei.
  - exists i. split; [done|]. destruct (userMaterialChanged o i) eqn:Em.
    + discriminate Hno. apply elem_of_app. right. apply Hch. eauto.
    + apply material_same in Em as (E1 & E2 & E3 & _). unfold credentials. by rewrite <- E1, <- E2, <- E3.
  - assert (h ∈ d_deleted d) as Hd by (apply Hdel; rewrite Ho; eauto).
    specialize (Hdl Hd). destruct (Hsub h) as [x Hx]; [by rewrite Ho|]. congruence.
Qed.

Lemma sync_list_aliased cfg c e l :
  consistent cfg c → aliased c → aliased (sync_list c e l).1.
Proof.
  intros [_ [_ [Hok Hr]]] Ha. unfold sync_list. set (d := diffUsers _ _ _).
  set (c1 := if bool_decide (d_deleted d = []) then c else _).
  assert (k_config c1 = k_config c ∧ k_usersMap c1 = k_usersMap c ∧ same_faces (k_author c) (k_author c1)) as (Ec & Em & Hf).
  { unfold c1. case_bool_decide; [done|]. unfold dumpTrafficForDeleted.
    pose proof (dump_users_faces (k_author c, []) (d_deleted d)) as Hf.
    destruct (foldl dump_user _ _) as [a report]. cbn [fst] in Hf. case_bool_decide; [done|].
    unfold call_traffic. by destruct (ReportUserTraffic _ _ _). }
  assert (aliased c1) as Ha1 by (eapply aliased_same; [apply Hf|done|done]).
  destruct (if negb _ then _ else _) as [i [[]|err|w]]; cbn [fst]; [|done..].
  apply (commit_users_aliased _ l); [|cbn|done].
  - replace (buildUserHash (with_inbound c1 i)) with (buildUserHash c) by (unfold buildUserHash; cbn; by rewrite Ec).
    cbn. rewrite Em. apply diffUsers_ok.
  - destruct Hf as (-> & _). rewrite Em. intros h [o Ho]. apply abs_is_Some; [done|].
    specialize (Hr h). rewrite Ho in Hr. inversion Hr. eauto.
Qed.

Lemma syncUserList_aliased cfg c e : consistent cfg c → aliased c → aliased (syncUserList c e).1.
Proof.
  intros Hc Ha. unfold syncUserList. destruct (GetUserList _ _) as [cl [us|err|w]]; [| |done].
  - by apply (sync_list_aliased cfg).
  - destruct (negb _); [done|]. destruct (negb _); [done|]. by apply (sync_list_aliased cfg).
Qed.

Lemma refreshAll_aliases c :
  a_aliases (k_author (refreshAllSpeedLimits c)) = a_aliases (k_author c)
  ∧ k_usersMap (refreshAllSpeedLimits c) = k_usersMap c.
Proof.
  unfold refreshAllSpeedLimits. generalize (range (k_usersMap c)). intros l. revert c.
  induction l as [|[h i] l IH]; intros c; [done|]. cbn [foldl]. destruct (IH (ApplyUserLimits c h i)) as [-> ->].
  split; [|done]. unfold ApplyUserLimits, SetUserSpeedLimit, SetUserDeviceLimit. cbn.
  by destruct (cf_EnableDeviceLimit _); repeat case_match.
Qed.

Lemma nodeInfoMonitor_aliased cfg c e :
  consistent cfg c → aliased c → aliased (nodeInfoMonitor c e).1.
Proof.
  intros Hc Ha. unfold nodeInfoMonitor. destruct (delayed c e); [done|].
  destruct (GetNodeInfo _ _) as [cl r]. set (next := match r with Ok _ => _ | _ => _ end).
  destruct next as [[changed [n|]]|]; [|done|by destruct r].
  case_bool_decide; [done|]. set (c1 := with_node _ _ _).
  pose proof (syncUserList_aliased cfg c1 e Hc Ha) as Ha2.
  destruct (syncUserList c1 e) as [c2 [[]|err|w]]; cbn [fst] in *; [|done..].
  set (c3 := if bool_decide _ then _ else _).
  assert (aliased c3) as Ha3.
  { unfold c3. case_bool_decide; [done|]. by eapply aliased_same; [apply refreshAll_aliases..|]. }
  destruct (refreshDetectRules_other c3 e) as (_ & E2 & E3 & _). destruct (refreshDetectRules c3 e) as [c4 r4].
  cbn [fst] in *. assert (aliased c4) as Ha4 by (eapply aliased_same; [by rewrite E3|done..]).
  destruct (monitor_reload_other c4 e changed) as (_ & F2 & F3).
  destruct r4; [eapply aliased_same; [by rewrite F3|done..]..|done].
Qed.

Lemma userInfoMonitor_same c e :
  a_aliases (k_author (userInfoMonitor c e).1) = a_aliases (k_author c)
  ∧ k_usersMap (userInfoMonitor c e).1 = k_usersMap c.
Proof.
  unfold userInfoMonitor. destruct (delayed c e); [done|].
  set (c1 := match e_sys e with Ok _ => _ | _ => _ end).
  assert (k_author c1 = k_author c ∧ k_usersMap c1 = k_usersMap c) as [<- <-].
  { unfold c1, call_status. destruct (e_sys e); [|done..]. by destruct (ReportNodeStatus _ _ _). }
  pose proof (report_users_faces (k_author c1, [], []) (ListUsers (k_author c1))) as (_ & Ea & _).
  destruct (foldl report_user _ _) as [[a traffic] online]. cbn [fst] in Ea. rewrite <- Ea.
  unfold drainDetectResults, call_traffic, call_online, call_illegal.
  repeat (case_bool_decide || case_match); simplify_eq; done.
Qed.

Lemma ctl_step_aliased cfg c ev : consistent cfg c → aliased c → aliased (ctl_step c ev).
Proof.
  intros Hc Ha. destruct ev as [e|e|e|user source|l n|l n|now uid host]; cbn [ctl_step].
  - unfold Start. destruct (GetNodeInfo _ _) as [cl [n|err|w]]; [|done..].
    case_bool_decide; [done|]. set (c1 := with_node _ _ _).
    destruct (if is_PConfigurable then _ else _) as [i [[]|err|w]]; [|done..].
    pose proof (syncUserList_aliased cfg (with_inbound c1 i) e Hc Ha) as Ha2.
    by destruct (syncUserList _ e) as [c3 [[]|err|w]].
  - by apply (nodeInfoMonitor_aliased cfg).
  - by eapply aliased_same; [apply userInfoMonitor_same..|].
  - unfold LoadOrCreateUserCounter. by destruct (LoadUser _ _).
  - done.
  - done.
  - unfold MatchAudit. case_bool_decide; [done|]. destruct (k_detectRules c) as [rules|]; [|done].
    destruct (first_match host rules) as [id|]; [|done].
    destruct (recordDetect_other c now uid id) as (_ & E2 & E3). cbn [fst]. eapply aliased_same; [by rewrite E3|done..].
Qed.

Lemma reachable_aliased config client inbound now evs :
  cf_PanelType config = "SSpanel" → aliased (foldl ctl_step (new_controller config client inbound now) evs).
Proof.
  intros Hs. induction evs as [|ev evs IH] using rev_ind.
  - intros alias h. cbn. by rewrite lookup_empty.
  - rewrite foldl_app. cbn. eapply ctl_step_aliased; [by apply reachable_consistent|done].
Qed.


(** (C36) With the SSpanel panel type, in any state where the user table agrees
    with the map on profiles (every reachable one), take a node tick that
    fetches a node with a port and whose user sync goes through.  If the node's
    speed limit changed, or the users' limiters were the right ones for the old
    limit (which a failed sync in an earlier tick can spoil: node_change_lost),
    then after the tick every user's limiter is the one determineRate gives for
    the new node limit and the user's own limit, also for the users the sync did
    not touch. *)
Theorem node_tick_limits c e cl n :
  is_sspanel c → agree (profiled (k_config c)) c →
  ni_SpeedLimit n ≠ nodeSpeedLimit c ∨ agree (limited (k_config c) (nodeSpeedLimit c)) c →
  delayed c e = false → GetNodeInfo (k_client c) (e_net e) = (cl, Ok n) → ni_Port n ≠ 0 →
  (syncUserList (with_node (with_client c cl) (Some n) (k_Tag c)) e).2 = Ok tt →
  agree (limited (k_config c) (ni_SpeedLimit n)) (nodeInfoMonitor c e).1.
Proof.
  intros Hs Hpr Ha Hd Hg Hp Hsync. unfold nodeInfoMonitor. rewrite Hd, Hg, bool_decide_eq_false_2 by done.
  cbn [k_Tag with_client]. set (c1 := with_node _ _ _) in *.
  assert (is_sspanel c1) as Hs1 by done.
  destruct (syncUserList_keeps (profiled (k_config c)) c1 e Hs1 (profiled_sync _ _)) as [[Ec K1] En].
  destruct (syncUserList_keeps (limited (k_config c) (ni_SpeedLimit n)) c1 e Hs1 (limited_sync _ _)) as [[_ K2] _].
  destruct (syncUserList c1 e) as [c2 r]. cbn [fst snd] in *. subst r.
  set (c3 := if bool_decide _ then _ else _). apply monitor_tail_keeps. unfold c3. case_bool_decide as Hsp.
  - apply K2. destruct Ha as [Hne|Ha]; [by destruct Hne|]. rewrite Hsp. exact Ha.
  - assert (agree (profiled (k_config c)) c2) as Hp2 by (by apply K1).
    change (k_config c) with (k_config c1) in *. rewrite <- Ec in *.
    destruct (refreshAllSpeedLimits_spec c2 Hp2) as (_ & _ & Hl).
    replace (ni_SpeedLimit n) with (nodeSpeedLimit c2); [exact Hl|]. unfold nodeSpeedLimit. by rewrite En.
Qed.

(** A user sync leaves the node and the reload flag alone. *)
Lemma sync_list_frame c e l :
  k_nodeInfo (sync_list c e l).1 = k_nodeInfo c ∧ k_reloadPending (sync_list c e l).1 = k_reloadPending c.
Proof.
  unfold sync_list. set (d := diffUsers _ _ _). set (c1 := if bool_decide (d_deleted d = []) then c else _).
  assert (k_nodeInfo c1 = k_nodeInfo c ∧ k_reloadPending c1 = k_reloadPending c) as [<- <-].
  { unfold c1. case_bool_decide; [done|]. by destruct (dump_shape c e (d_deleted d)) as (au & cl & calls & ->). }
  destruct (if negb _ then _ else _) as [i [[]|err|w]]; [|done..]. cbn [fst].
  by destruct (commit_users_shape (with_inbound c1 i) d) as [au ->].
Qed.

Lemma syncUserList_frame c e :
  k_nodeInfo (syncUserList c e).1 = k_nodeInfo c ∧ k_reloadPending (syncUserList c e).1 = k_reloadPending c.
Proof.
  unfold syncUserList. destruct (GetUserList _ _) as [cl [us|err|w]];
    [apply (sync_list_frame (with_client c cl))| |done].
  destruct (negb (is_text err UserNotModified)); [done|]. cbn [k_userSyncPending with_client].
  destruct (negb (k_userSyncPending c)); [done|apply (sync_list_frame (with_client c cl))].
Qed.

(** A node change fetched in a tick whose user sync failed is lost: the
    new node is remembered, but neither the limits nor the inbound have been
    updated and no retry is scheduled; as long as the panel then answers
    NodeNotModified, a tick only syncs the users and the audit rules. *)
Theorem node_change_lost c e cl n err e2 cl2 err2 :
  delayed c e = false → GetNodeInfo (k_client c) (e_net e) = (cl, Ok n) → ni_Port n ≠ 0 →
  (syncUserList (with_node (with_client c cl) (Some n) (k_Tag c)) e).2 = Err err →
  k_reloadPending c = false →
  let c1 := ctl_step c (EvNodeTick e) in
  delayed c1 e2 = false →
  GetNodeInfo (k_client c1) (e_net e2) = (cl2, Err err2) → is_text err2 NodeNotModified = true →
  nodeInfoMonitor c e = (c1, Ok tt)
  ∧ c1 = (syncUserList (with_node (with_client c cl) (Some n) (k_Tag c)) e).1
  ∧ nodeInfoMonitor c1 e2 =
      let '(c2, r) := syncUserList (with_node (with_client c1 cl2) (Some n) (k_Tag c1)) e2 in
      match r with
      | Panic w => (c2, Panic w)
      | Err _ => (c2, Ok tt)
      | Ok _ => refreshDetectRules c2 e2
      end.
Proof.
  intros Hd Hg Hp Hsync Hrl c1 Hd2 Hg2 Ht. change (ctl_step c (EvNodeTick e)) with (nodeInfoMonitor c e).1 in c1.
  assert (nodeInfoMonitor c e = (c1, Ok tt)
          ∧ c1 = (syncUserList (with_node (with_client c cl) (Some n) (k_Tag c)) e).1) as [E1 E2].
  { subst c1. unfold nodeInfoMonitor. rewrite Hd, Hg, bool_decide_eq_false_2 by done.
    cbn [k_Tag with_client]. destruct (syncUserList _ e) as [c2 r]. cbn in *. by subst r. }
  assert (k_nodeInfo c1 = Some n ∧ k_reloadPending c1 = false) as [Hn Hr1].
  { rewrite E2. destruct (syncUserList_frame (with_node (with_client c cl) (Some n) (k_Tag c)) e) as [-> ->]. done. }
  split; [done|]. split; [done|]. unfold nodeInfoMonitor at 1. rewrite Hd2, Hg2, Ht.
  cbn [k_nodeInfo with_client k_Tag]. rewrite Hn, bool_decide_eq_false_2 by done.
  set (cs := with_node (with_client c1 cl2) (Some n) (k_Tag c1)).
  pose proof (proj2 (syncUserList_frame cs e2)) as Hr2.
  destruct (syncUserList cs e2) as [c2 [[]|er|w]]; try done. cbn [fst] in Hr2.
  rewrite bool_decide_eq_true_2 by (unfold nodeSpeedLimit; cbn; by rewrite Hn).
  destruct (refreshDetectRules_other c2 e2) as (_ & _ & _ & _ & Hr3).
  destruct (GetNodeRule (k_client c2) (e_net e2)) as [cl3 r3] eqn:Eg.
  destruct (refreshDetectRules c2 e2) as [c3 r] eqn:Er. cbn [fst] in Hr3.
  assert (monitor_reload c3 e2 false = (c3, Ok tt)) as Hm.
  { unfold monitor_reload. rewrite Hr3, Hr2. change (k_reloadPending cs) with (k_reloadPending c1). by rewrite Hr1. }
  rewrite Hm. destruct r as [[]|er|w]; try done.
  unfold refreshDetectRules in Er. rewrite Eg in Er. destruct r3 as [|er3|]; [done| |done].
  by destruct (is_text er3 RuleNotModified).
Qed.

(** The device limit does not keep a connection out: a known user's
    connection is accepted from any address, also when the address is refused
    by the user's device table; the address is then not recorded at all. *)
Theorem device_limit_not_enforced c user source l u :
  LoadUser (k_author c) user = Some l → a_heap (k_author c) !! l = Some u →
  (AddIP u source).2 = false →
  (LoadOrCreateUserCounter c user source).2 = Ok l
  ∧ ∃ u', a_heap (k_author (ctl_step c (EvConnect user source))) !! l = Some u'
    ∧ u_ipTable u' = u_ipTable u ∧ source ∉ u_ipTable u'.
Proof.
  intros Hl Hu Hadd. unfold ctl_step, LoadOrCreateUserCounter. rewrite Hl. split; [done|]. cbn.
  exists (fst (AddIP (fst (MarkCounterAttached u)) source)).
  rewrite list_lookup_alter_eq, Hu. split; [done|]. revert Hadd.
  unfold AddIP. cbn [MarkCounterAttached fst set_flags u_ipTable u_maxIPNum u_ipNum].
  case_bool_decide; [done|]. by destruct (_ && _).
Qed.
End reachability.

(** ** What a controller never changes *)

Section frozen.
Context `{RangeOrder, Regexp} {C W : Type} `{PanelAPI C W} {I WI : Type} `{PanelInbound I WI}.
Implicit Types (c : Controller C I) (e : Env W WI).

(** Its configuration, and whether its tasks have been launched. *)
Definition frozen c : Config * bool := (k_config c, k_tasksStarted c).

Lemma sync_list_frozen c e l : frozen (sync_list c e l).1 = frozen c.
Proof.
  unfold sync_list. set (d := diffUsers _ _ _). set (c1 := if bool_decide (d_deleted d = []) then c else _).
  assert (frozen c1 = frozen c) as <-.
  { unfold c1. case_bool_decide; [done|]. by destruct (dump_shape c e (d_deleted d)) as (au & cl & calls & ->). }
  destruct (if negb _ then _ else _) as [i [[]|err|w]]; [|done..]. cbn [fst].
  by destruct (commit_users_shape (with_inbound c1 i) d) as [au ->].
Qed.

Lemma syncUserList_frozen c e : frozen (syncUserList c e).1 = frozen c.
Proof.
  unfold syncUserList. destruct (GetUserList _ _) as [cl [us|err|w]];
    [apply (sync_list_frozen (with_client c cl))| |done].
  destruct (negb (is_text err UserNotModified)); [done|]. cbn [k_userSyncPending with_client].
  destruct (negb (k_userSyncPending c)); [done|apply (sync_list_frozen (with_client c cl))].
Qed.

Lemma refreshAll_frozen c : frozen (refreshAllSpeedLimits c) = frozen c.
Proof.
  unfold refreshAllSpeedLimits. generalize (range (k_usersMap c)) as l. intros l.
  apply (foldl_inv (λ c', frozen c' = frozen c)); [done|]. by intros c' [h u] _ <-.
Qed.

Lemma nodeInfoMonitor_frozen c e : frozen (nodeInfoMonitor c e).1 = frozen c.
Proof.
  unfold nodeInfoMonitor. destruct (delayed c e); [done|].
  destruct (GetNodeInfo _ _) as [cl r]. set (next := match r with Ok _ => _ | _ => _ end).
  destruct next as [[changed [n|]]|]; [|done|by destruct r]. case_bool_decide; [done|].
  set (c1 := with_node _ _ _). pose proof (syncUserList_frozen c1 e) as Hs.
  destruct (syncUserList c1 e) as [c2 [[]|err|w]]; cbn [fst] in Hs; [|done..].
  set (c3 := if bool_decide _ then _ else _).
  assert (frozen c3 = frozen c) as Hc3.
  { unfold c3. case_bool_decide; [done|]. by rewrite refreshAll_frozen, Hs. }
  assert (frozen (refreshDetectRules c3 e).1 = frozen c3) as Hd.
  { unfold refreshDetectRules. destruct (GetNodeRule _ _) as [cl' [rules|err|w]]; cbn; [done| |done].
    by destruct (is_text _ _). }
  destruct (refreshDetectRules c3 e) as [c4 [[]|err|w]]; cbn [fst] in Hd; rewrite <- Hc3, <- Hd; [| |done];
    unfold monitor_reload; (destruct (_ && _); [|done]); by destruct (configure_inbound c4 e) as [i [[]|?|?]].
Qed.

Lemma userInfoMonitor_frozen c e : frozen (userInfoMonitor c e).1 = frozen c.
Proof.
  unfold userInfoMonitor. destruct (delayed c e); [done|].
  set (c1 := match e_sys e with Ok _ => _ | _ => _ end).
  assert (frozen c1 = frozen c) as <-.
  { unfold c1, call_status. destruct (e_sys e); [|done..]. by destruct (ReportNodeStatus _ _ _). }
  destruct (foldl report_user _ _) as [[au traffic] online].
  set (c2 := with_author c1 au). set (c3 := if bool_decide (traffic = []) then _ else _).
  assert (frozen c3 = frozen c1) as <-.
  { unfold c3, call_traffic. case_bool_decide; [done|]. by destruct (ReportUserTraffic _ _ _). }
  set (c4 := if bool_decide (online = []) then _ else _).
  assert (frozen c4 = frozen c3) as <-.
  { unfold c4, call_online. case_bool_decide; [done|]. by destruct (ReportNodeOnlineUsers _ _ _). }
  unfold drainDetectResults, call_illegal. case_bool_decide; [done|]. by destruct (ReportIllegal _ _ _).
Qed.

(** Start launches the tasks when it succeeds, and only then. *)
Lemma Start_frozen c e :
  match Start c e with
  | (c', Ok _) => frozen c' = (k_config c, true) ∧ ∃ n, k_nodeInfo c' = Some n ∧ ni_Port n ≠ 0
  | (c', _) => frozen c' = frozen c
  end.
Proof.
  unfold Start. destruct (GetNodeInfo _ _) as [cl [n|err|w]]; [|done..].
  case_bool_decide as Hp; [done|]. set (c1 := with_node _ _ _).
  destruct (if is_PConfigurable then _ else _) as [i [[]|err|w]]; [|done..].
  pose proof (syncUserList_frozen (with_inbound c1 i) e) as Hf.
  pose proof (syncUserList_frame (with_inbound c1 i) e) as [Hn _].
  destruct (syncUserList (with_inbound c1 i) e) as [c2 [[]|err|w]]; cbn [fst] in Hf, Hn; [|done..].
  split; [|exists n; by split]. unfold frozen in *. cbn. by injection Hf as -> _.
Qed.
End frozen.

(** ** Concrete runs *)

#[local] Existing Instance Naive.naive_users.

Definition node0 (port speed : Z) : NodeInfo :=
  {| ni_NodeType := "naive"; ni_PanelNodeType := "naive"; ni_NodeID := 1; ni_Port := port;
     ni_SpeedLimit := speed; ni_AlterID := 0; ni_TransportProtocol := "tcp"; ni_FakeType := "";
     ni_Host := ""; ni_Path := ""; ni_EnableTLS := true; ni_EnableVless := false; ni_VlessFlow := "";
     ni_CypherMethod := ""; ni_ServerKey := ""; ni_ServiceName := ""; ni_Header := "";
     ni_TrafficRate := float64_of_Z 1; ni_EnableREALITY := false; ni_REALITYConfig := None;
     ni_RelayServer := ""; ni_RelayPort := 0 |}.

Definition script1 (n : NodeInfo) (us : list UserInfo) : script :=
  {| sc_node := Ok n; sc_users := Ok us; sc_rules := Err (ENew RuleNotModified) |}.
Definition run0 : list event :=
  [EvStart (env0 true (script1 (node0 443 0) [user0 1 "a" 7; user0 2 "b" 0]));
   EvConnect "u1" "9.9.9.9"; EvSent 0 10;
   EvNodeTick (env0 true (script1 (node0 443 5) [user0 2 "b" 0; user0 3 "d" 3]))].
Definition started0 : Controller unit Naive.userTable := foldl ctl_step controller0 run0.


Lemma node_tick_limits_witness :
  agree (limited config0 9)
    (nodeInfoMonitor started0 (env0 true (script1 (node0 443 9) [user0 1 "a" 7; user0 2 "b" 0]))).1.
Proof.
  apply (node_tick_limits started0 (env0 true (script1 (node0 443 9) [user0 1 "a" 7; user0 2 "b" 0])) tt (node0 443 9)).
  - reflexivity.
  - exact (proj2 (reachable_consistent config0 tt Naive.empty_table 0 run0 eq_refl)).
  - left. vm_compute. discriminate.
  - vm_compute; reflexivity.
  - reflexivity.
  - vm_compute; congruence.
  - vm_compute; reflexivity.
Defined.

(** A node whose limit drops from 9 to 5 in the tick in which AddUsers is
    refused; the next tick applies the users but not the limit. *)
Lemma node_change_lost_witness :
  let c := (nodeInfoMonitor controller0 (env0 true (script1 (node0 443 9) [user0 1 "a" 7]))).1 in
  let e := env0 false (script1 (node0 443 5) [user0 1 "a" 7; user0 2 "b" 0]) in
  let c1 := (nodeInfoMonitor c e).1 in
  nodeInfoMonitor c e = (c1, Ok tt)
  ∧ u_limiter <$> (abs (k_author (nodeInfoMonitor c1 (env0 true script0)).1) !! "u1") = Some (limiter_for 9 (user0 1 "a" 7)).
Proof.
  intros c e c1. split.
  - refine (proj1 (node_change_lost c e tt (node0 443 5) (ENew "refused") (env0 true script0) tt
      (ENew NodeNotModified) _ _ _ _ _ _ _ _)); try (vm_compute; reflexivity). vm_compute; congruence.
  - vm_compute; reflexivity.
Defined.

Lemma device_limit_not_enforced_witness :
  let u := set_ips (SetIPLimit (new_user "u1" 1) 1) {["1.1.1.1"]} 1 in
  let c := with_author controller0 {| a_users := {["u1" := 0%nat]}; a_aliases := ∅; a_heap := [u] |} in
  (LoadOrCreateUserCounter c "u1" "2.2.2.2").2 = Ok 0%nat
  ∧ ∃ u', a_heap (k_author (ctl_step (W := script) (WI := bool) c (EvConnect "u1" "2.2.2.2"))) !! 0%nat = Some u'
    ∧ u_ipTable u' = u_ipTable u ∧ "2.2.2.2" ∉ u_ipTable u'.
Proof.
  apply (device_limit_not_enforced (with_author controller0
    {| a_users := {["u1" := 0%nat]}; a_aliases := ∅;
       a_heap := [set_ips (SetIPLimit (new_user "u1" 1) 1) {["1.1.1.1"]} 1] |}) "u1" "2.2.2.2" 0
    (set_ips (SetIPLimit (new_user "u1" 1) 1) {["1.1.1.1"]} 1)); vm_compute; reflexivity.
Defined.
