(* ===== verification/Accounting.v ===== *)
(** * Traffic accounting and audit reports

    The counters a connection adds to live in user objects it keeps after the
    user is removed; they are drained by the periodic report, by the dump before
    a deletion, and by Close.  This file has the sums over the store and what
    each drain does to them (Ticks.v follows the bytes through whole
    interleaved runs), the periodic report, and the audit hits. *)

From Stdlib Require Import Sorted.
From S2P Require Import Prelude GoStrings Float64 Api Authenticator PanelUsers Controller UserSync ControllerInv.

Open Scope Z_scope.

Inductive dir := Up | Down.

(** A user's counter, seen from one UID; and a report's share of it. *)
Definition cnt (d : dir) (uid : Z) (u : User) : Z :=
  if bool_decide (u_UID u = uid) then match d with Up => u_sent u | Down => u_recv u end else 0.
Definition rep (d : dir) (uid : Z) (t : UserTraffic) : Z :=
  if bool_decide (ut_UID t = uid) then match d with Up => ut_Upload t | Down => ut_Download t end else 0.

(** Bytes still in user objects, reachable or not. *)
Definition held (d : dir) (uid : Z) (a : Authenticator) : Z := sum_by (cnt d uid) (a_heap a).
(** Bytes in the traffic reports handed to the panel client. *)
Definition call_bytes (d : dir) (uid : Z) (k : panel_call) : Z :=
  match k with CallTraffic l => sum_by (rep d uid) l | _ => 0 end.
Definition reported (d : dir) (uid : Z) (calls : list panel_call) : Z := sum_by (call_bytes d uid) calls.

(** ** Sums over the store *)

Lemma sum_by_alter {A} (f : A → Z) (g : A → A) l (xs : list A) :
  sum_by f (alter g l xs) = sum_by f xs + match xs !! l with Some x => f (g x) - f x | None => 0 end.
Proof.
  revert l. induction xs as [|x xs IH]; intros [|l]; simpl; [done..|unfold alter; simpl; lia|]. unfold alter in *. simpl. rewrite IH. lia.
Qed.

Section held.
Context (d : dir) (uid : Z).

Lemma held_update a l f :
  (∀ u, cnt d uid (f u) = cnt d uid u) → held d uid (update_user a l f) = held d uid a.
Proof.
  intros Hf. unfold held. cbn. rewrite sum_by_alter. destruct (a_heap a !! l); [rewrite Hf|]; lia.
Qed.

Lemma held_AddUser a h id : held d uid (AddUser a h id).1 = held d uid a.
Proof.
  unfold AddUser. destruct (a_users a !! h); [done|]. unfold held. cbn.
  rewrite sum_by_app. cbn. unfold cnt. cbn. case_bool_decide; destruct d; lia.
Qed.

(** *** Drains *)

Lemma dump_user_bytes st h :
  held d uid (dump_user st h).1 + sum_by (rep d uid) (dump_user st h).2
  = held d uid st.1 + sum_by (rep d uid) st.2.
Proof.
  destruct st as [a report]. unfold dump_user.
  destruct (LoadUser a h ≫= _) as [[l u]|] eqn:E; [|done]. cbn [ResetTraffic].
  assert (a_heap a !! l = Some u) as Hl.
  { destruct (LoadUser a h) as [l'|]; [|done]. cbn in E. destruct (a_heap a !! l') eqn:E'; cbn in E; by simplify_eq. }
  assert (held d uid (update_user a l (λ _, set_counters u 0 0 0 0)) = held d uid a - cnt d uid u) as Hh.
  { unfold held. cbn. rewrite sum_by_alter, Hl. unfold cnt. cbn. case_bool_decide; destruct d; lia. }
  destruct (bool_decide (u_sent u = 0) && bool_decide (u_recv u = 0)) eqn:Ez; cbn [fst snd trafficForSSPanel].
  - apply andb_true_iff in Ez as [Es%bool_decide_eq_true Er%bool_decide_eq_true].
    rewrite Hh. unfold cnt. rewrite Es, Er. case_bool_decide; destruct d; lia.
  - rewrite Hh, sum_by_app. cbn. unfold rep, cnt. cbn. lia.
Qed.

Lemma report_user_bytes st l :
  held d uid (report_user st l).1.1 + sum_by (rep d uid) (report_user st l).1.2
  = held d uid st.1.1 + sum_by (rep d uid) st.1.2.
Proof.
  destruct st as [[a traffic] online]. unfold report_user.
  destruct (a_heap a !! l) as [u|] eqn:Hl; [|done].
  assert (∀ v, u_UID v = u_UID u → u_sent v = 0 → u_recv v = 0 →
    held d uid (update_user a l (λ _, v)) = held d uid a - cnt d uid u) as Hh.
  { intros v E1 E2 E3. unfold held. cbn. rewrite sum_by_alter, Hl. unfold cnt. rewrite E1, E2, E3.
    case_bool_decide; destruct d; lia. }
  cbn [ResetTraffic ResetIPTable].
  destruct (bool_decide (u_sent u = 0) && bool_decide (u_recv u = 0)) eqn:Ez; cbn [fst snd trafficForSSPanel].
  - apply andb_true_iff in Ez as [Es%bool_decide_eq_true Er%bool_decide_eq_true].
    rewrite Hh by done. unfold cnt. rewrite Es, Er. case_bool_decide; destruct d; lia.
  - rewrite Hh, sum_by_app by done. cbn. unfold rep, cnt. cbn. lia.
Qed.

End held.

(** *** An empty user *)

Definition drained (u : User) : Prop := u_sent u = 0 ∧ u_recv u = 0.

Lemma drained_cnt d uid u : drained u → cnt d uid u = 0.
Proof. intros [Hs Hr]. unfold cnt. rewrite Hs, Hr. by case_bool_decide; destruct d. Qed.

(** ** Bytes counted by the connections *)

Section controller_bytes.
Context {C W I WI : Type}.
Implicit Types (c : Controller C I).
Context (d : dir) (uid : Z).

(** The bytes an event counts for the UID, in the state it happens in. *)
Definition bytes c (ev : @event W WI) : Z :=
  match ev, d with
  | EvSent l n, Up | EvRecv l n, Down =>
      match a_heap (k_author c) !! l with
      | Some u => if bool_decide (u_UID u = uid) then n else 0
      | None => 0
      end
  | _, _ => 0
  end.
End controller_bytes.

(** ** The periodic report *)

(** The record a user contributes: none when both counters are zero. *)
Definition record_of (u : User) : option UserTraffic :=
  if bool_decide (u_sent u = 0) && bool_decide (u_recv u = 0) then None
  else Some {| ut_UID := u_UID u; ut_Email := u_Email u; ut_Upload := u_sent u; ut_Download := u_recv u |}.
(** The addresses it contributes; a user without traffic is not online. *)
Definition online_of (u : User) : list OnlineUser :=
  match record_of u with
  | None => []
  | Some _ => (λ ip, {| ou_UID := u_UID u; ou_IP := ip |}) <$> elements (u_ipTable u)
  end.

Definition traffic_calls (calls : list panel_call) : list (list UserTraffic) :=
  omap (λ k, match k with CallTraffic l => Some l | _ => None end) calls.
Definition online_calls (calls : list panel_call) : list (list OnlineUser) :=
  omap (λ k, match k with CallOnline l => Some l | _ => None end) calls.

Lemma report_user_spec a t o l u :
  a_heap a !! l = Some u →
  let r := report_user (a, t, o) l in
  r.1.2 = t ++ option_list (record_of u) ∧ r.2 = o ++ online_of u
  ∧ a_users r.1.1 = a_users a
  ∧ (∃ v, a_heap r.1.1 !! l = Some v ∧ drained v)
  ∧ ∀ l', l' ≠ l → a_heap r.1.1 !! l' = a_heap a !! l'.
Proof.
  intros Hl. unfold report_user, record_of, online_of, record_of. rewrite Hl. cbn [ResetTraffic ResetIPTable].
  destruct (_ && _); cbn [fst snd trafficForSSPanel option_list update_user a_users a_heap]; rewrite ?app_nil_r;
    (split_and!; [done..| |intros l' Hne; by apply list_lookup_alter_ne]);
    rewrite list_lookup_alter_eq, Hl; eexists; done.
Qed.

Lemma report_users_spec ls a t o :
  NoDup ls → (∀ l, l ∈ ls → is_Some (a_heap a !! l)) →
  let r := foldl report_user (a, t, o) ls in
  r.1.2 = t ++ omap (λ l, a_heap a !! l ≫= record_of) ls
  ∧ r.2 = o ++ concat ((λ l, default [] (online_of <$> a_heap a !! l)) <$> ls)
  ∧ a_users r.1.1 = a_users a
  ∧ (∀ l, l ∈ ls → ∃ v, a_heap r.1.1 !! l = Some v ∧ drained v)
  ∧ ∀ l, l ∉ ls → a_heap r.1.1 !! l = a_heap a !! l.
Proof.
  revert a t o. induction ls as [|l0 ls IH]; intros a t o Hnd Hin.
  { cbn. rewrite !app_nil_r. split_and!; [done..| |done]. by intros l ?%not_elem_of_nil. }
  apply NoDup_cons in Hnd as [Hl0 Hnd]. destruct (Hin l0) as [u0 Hu0]; [left|]. cbn [foldl].
  destruct (report_user_spec a t o l0 u0 Hu0) as (E1 & E2 & E3 & (v0 & Hv0 & Hz0) & E5).
  destruct (report_user (a, t, o) l0) as [[a1 t1] o1]. cbn [fst snd] in *. subst t1 o1.
  destruct (IH a1 (t ++ option_list (record_of u0)) (o ++ online_of u0)) as (F1 & F2 & F3 & F4 & F5); [done| |].
  { intros l Hl. rewrite E5 by (intros ->; done). apply Hin. by right. }
  split_and!.
  - rewrite F1, <- app_assoc. f_equal. cbn. rewrite Hu0. cbn.
    rewrite (omap_ext_in _ (λ l, a_heap a !! l ≫= record_of)); [by destruct (record_of u0)|].
    intros l Hl. by rewrite E5 by (intros ->; done).
  - rewrite F2, <- app_assoc. f_equal. cbn. rewrite Hu0. cbn. do 2 f_equal.
    apply list_fmap_ext. intros i l Hl%list_elem_of_lookup_2. by rewrite E5 by (intros ->; done).
  - by rewrite F3.
  - intros l [->|Hl]%elem_of_cons; [|by apply F4]. rewrite F5 by done. eauto.
  - intros l [Hne Hl]%not_elem_of_cons. rewrite F5 by done. by apply E5.
Qed.

Lemma ListUsers_NoDup `{RangeOrder} a : auth_ok a → NoDup (ListUsers a).
Proof.
  intros Hok. unfold ListUsers.
  assert (∀ ps : list (string * nat), NoDup ps.*1 → (∀ h l, (h, l) ∈ ps → a_users a !! h = Some l) → NoDup ps.*2) as Hps.
  { induction ps as [|[h l] ps IH]; cbn; intros Hnd Hin; [constructor|].
    apply NoDup_cons in Hnd as [Hh Hnd]. apply NoDup_cons. split.
    - intros ([h' l'] & -> & Hin')%list_elem_of_fmap. apply Hh. apply list_elem_of_fmap.
      exists (h', l'). split; [|done]. cbn. apply (auth_ok_inj a h h' l'); [done|apply Hin; left|apply Hin; by right].
    - apply IH; [done|]. intros h' l' ?. apply Hin. by right. }
  apply Hps; [apply NoDup_range_fst|]. intros h l. apply elem_of_range.
Qed.

Section report.
Context `{RangeOrder, Regexp} {C W : Type} `{PanelAPI C W} {I WI : Type} `{PanelInbound I WI}.
Implicit Types (c : Controller C I) (e : Env W WI).

Lemma call_status_same c e s :
  k_author (call_status c e s) = k_author c
  ∧ traffic_calls (k_calls (call_status c e s)) = traffic_calls (k_calls c)
  ∧ online_calls (k_calls (call_status c e s)) = online_calls (k_calls c).
Proof.
  unfold call_status, traffic_calls, online_calls. destruct (ReportNodeStatus _ _ _). cbn.
  by rewrite !omap_app, !app_nil_r.
Qed.

(** The users of the table, in the order the tick visits them. *)
Definition live_users (a : Authenticator) : list User := omap (λ l, a_heap a !! l) (ListUsers a).

Lemma live_users_perm a : auth_ok a → live_users a ≡ₚ (map_to_list (abs a)).*2.
Proof.
  intros Hok. unfold live_users, ListUsers.
  set (ps := omap (λ p, (p.1,.) <$> (a_heap a !! p.2)) (range (a_users a))).
  assert (∀ qs : list (string * nat), (∀ h l, (h, l) ∈ qs → a_users a !! h = Some l) →
    omap (λ l, a_heap a !! l) qs.*2 = (omap (λ p, (p.1,.) <$> (a_heap a !! p.2)) qs).*2
    ∧ (omap (λ p, (p.1,.) <$> (a_heap a !! p.2)) qs).*1 = qs.*1) as Hqs.
  { induction qs as [|[h l] qs IH]; intros Hin; [done|].
    destruct IH as [E1 E2]; [intros; apply Hin; by right|].
    destruct (Hok h l) as (u & Hu & _); [apply Hin; left|]. cbn. rewrite Hu. cbn. by rewrite E1, E2. }
  destruct (Hqs (range (a_users a))) as [-> E2]; [intros h l; apply elem_of_range|].
  apply Permutation_map. fold ps in E2 |- *. apply NoDup_Permutation.
  - apply (NoDup_fmap_1 fst). rewrite E2. apply NoDup_range_fst.
  - apply NoDup_map_to_list.
  - intros [h u]. rewrite elem_of_map_to_list, lookup_abs. unfold ps. rewrite list_elem_of_omap. split.
    + intros ([h' l] & Hin%elem_of_range & Hu). cbn in Hu. destruct (a_heap a !! l) eqn:E; cbn in Hu; [|done].
      simplify_eq. by rewrite Hin.
    + destruct (a_users a !! h) as [l|] eqn:El; [|done]. cbn. intros Hu.
      exists (h, l). rewrite elem_of_range. cbn. by rewrite Hu.
Qed.

Lemma live_users_omap {B} (f : User → option B) a :
  omap (λ l, a_heap a !! l ≫= f) (ListUsers a) = omap f (live_users a).
Proof.
  unfold live_users. induction (ListUsers a) as [|l ls IH]; [done|]. cbn.
  destruct (a_heap a !! l) as [u|]; cbn; [destruct (f u)|]; by rewrite IH.
Qed.

Lemma live_users_concat {B} (f : User → list B) a :
  concat ((λ l, default [] (f <$> a_heap a !! l)) <$> ListUsers a) = concat (f <$> live_users a).
Proof.
  unfold live_users. induction (ListUsers a) as [|l ls IH]; [done|]. cbn.
  destruct (a_heap a !! l) as [u|]; cbn; by rewrite IH.
Qed.

(** What the reporting calls of a tick add to the record of calls. *)
Lemma tick_calls c e (traffic : list UserTraffic) (online : list OnlineUser) :
  let c3 := if bool_decide (traffic = []) then c else fst (call_traffic c e traffic) in
  let c4 := if bool_decide (online = []) then c3 else call_online c3 e online in
  k_author c4 = k_author c
  ∧ traffic_calls (k_calls c4) = traffic_calls (k_calls c) ++ (if bool_decide (traffic = []) then [] else [traffic])
  ∧ online_calls (k_calls c4) = online_calls (k_calls c) ++ (if bool_decide (online = []) then [] else [online]).
Proof.
  unfold call_traffic, call_online, traffic_calls, online_calls.
  repeat case_bool_decide; cbn; try destruct (ReportUserTraffic _ _ _); cbn;
    try destruct (ReportNodeOnlineUsers _ _ _); cbn; rewrite ?omap_app; cbn; by rewrite ?app_nil_r.
Qed.

(** One report tick, whatever the panel answers: afterwards every
    user of the table has zero counters, and the tick has handed over one
    traffic report with exactly one record, carrying the counted bytes, for
    each user with traffic, and the addresses of just those users as online;
    nothing is sent when nobody had traffic. *)
Theorem user_tick_reports c e :
  auth_ok (k_author c) → delayed c e = false →
  let c' := (userInfoMonitor c e).1 in
  (∀ h u, abs (k_author c') !! h = Some u → drained u)
  ∧ ∃ users, users ≡ₚ (map_to_list (abs (k_author c))).*2
    ∧ traffic_calls (k_calls c') = traffic_calls (k_calls c)
        ++ (let l := omap record_of users in if bool_decide (l = []) then [] else [l])
    ∧ online_calls (k_calls c') = online_calls (k_calls c)
        ++ (let l := concat (online_of <$> users) in if bool_decide (l = []) then [] else [l]).
Proof.
  intros Hok Hd c'. unfold c', userInfoMonitor. rewrite Hd.
  set (c1 := match e_sys e with Ok _ => _ | _ => _ end).
  assert (k_author c1 = k_author c ∧ traffic_calls (k_calls c1) = traffic_calls (k_calls c)
          ∧ online_calls (k_calls c1) = online_calls (k_calls c)) as (Ea & Et & Eo).
  { unfold c1. destruct (e_sys e); [apply call_status_same|done..]. }
  rewrite Ea. set (a := k_author c) in *.
  destruct (report_users_spec (ListUsers a) a [] []) as (F1 & F2 & F3 & F4 & F5).
  { by apply ListUsers_NoDup. }
  { intros l ([h l'] & -> & Hl%elem_of_range)%list_elem_of_fmap. apply Hok in Hl as (u & Hu & _). eauto. }
  destruct (foldl report_user _ _) as [[a' traffic] online]. cbn [fst snd] in *.
  rewrite live_users_omap in F1. rewrite live_users_concat in F2. cbn in F1, F2. subst traffic online.
  destruct (tick_calls (with_author c1 a') e (omap record_of (live_users a)) (concat (online_of <$> live_users a)))
    as (G1 & G2 & G3). cbn zeta in G1, G2, G3 |- *. change (k_author (with_author c1 a')) with a' in G1. set (c4 := if bool_decide (concat _ = []) then _ else _) in *.
  clearbody c4. unfold drainDetectResults. cbn [fst].
  set (c5 := if bool_decide (k_detectResults c4 = []) then _ else _).
  assert (k_author c5 = a' ∧ traffic_calls (k_calls c5) = traffic_calls (k_calls c4)
          ∧ online_calls (k_calls c5) = online_calls (k_calls c4)) as (K1 & K2 & K3).
  { unfold c5, call_illegal, traffic_calls, online_calls. destruct (bool_decide (k_detectResults c4 = [])); [by split; [exact G1|]|].
    destruct (ReportIllegal _ _ _). split; [exact G1|]. cbn [k_calls with_calls with_client with_detects].
    by rewrite !omap_app, !app_nil_r. }
  rewrite K1, K2, K3, G2, G3. cbn [k_calls with_author]. rewrite Et, Eo. split.
  - intros h u. rewrite lookup_abs, F3. destruct (a_users a !! h) as [l|] eqn:El; [|done]. cbn. intros Hu.
    destruct (F4 l) as (v & Hv & Hz); [|congruence]. apply list_elem_of_fmap. exists (h, l). by rewrite elem_of_range.
  - exists (live_users a). split; [by apply live_users_perm|done].
Qed.
End report.

(** ** Audit hits *)

(** A hit at a time, for a user and a rule; and the drain of the report loop. *)
Inductive audit_op := AHit (now uid rule : Z) | ADrain.

Section audit.
Context {C I : Type}.
Implicit Types c : Controller C I.

Definition audit_step (st : Controller C I * list DetectResult) (o : audit_op) : Controller C I * list DetectResult :=
  let '(c, out) := st in
  match o with
  | AHit now uid rule => (recordDetect c now uid rule, out)
  | ADrain => let '(c, hits) := drainDetectResults c in (c, out ++ hits)
  end.

(** Reference: remember when each pair was last reported, for ever, and
    report a hit when that was at least a cooldown ago. *)
Fixpoint reports (last : Z * Z → option Z) (ops : list audit_op) : list DetectResult :=
  match ops with
  | [] => []
  | ADrain :: ops => reports last ops
  | AHit now uid rule :: ops =>
      let suppressed :=
        match last (uid, rule) with Some t => bool_decide (now < t + detectDedupTTL) | None => false end in
      if suppressed then reports last ops
      else {| de_UID := uid; de_RuleID := rule |}
           :: reports (λ k, if bool_decide (k = (uid, rule)) then Some now else last k) ops
  end.

Definition op_time (o : audit_op) : option Z := match o with AHit now _ _ => Some now | ADrain => None end.
(** The clock does not go back. *)
Definition in_order (ops : list audit_op) : Prop := StronglySorted Z.le (omap op_time ops).

(** The pruned map against the full memory, at time [t]: only entries that
    can suppress nothing any more may be missing. *)
Definition dedup_ok (t : Z) (m : gmap (Z * Z) Z) (last : Z * Z → option Z) : Prop :=
  ∀ k, match last k with
       | Some s => m !! k = Some (s + detectDedupTTL) ∨ (m !! k = None ∧ s + detectDedupTTL < t)
       | None => m !! k = None
       end.

Lemma dedup_ok_later t t' m last : t ≤ t' → dedup_ok t m last → dedup_ok t' m last.
Proof. intros Ht Hm k. specialize (Hm k). destruct (last k); [|done]. destruct Hm as [|[? ?]]; [auto|]. right. split; [done|lia]. Qed.

(** The entry a recorded hit leaves, with the pruning. *)
Definition dedup_insert (m : gmap (Z * Z) Z) (now : Z) (k : Z * Z) : gmap (Z * Z) Z :=
  let m := <[k := now + detectDedupTTL]> m in
  if bool_decide (4096 < Z.of_nat (size m)) then filter (λ '(_, exp), ¬ (exp < now)) m else m.

Lemma recordDetect_cases c now uid rule :
  recordDetect c now uid rule =
    if match k_detectDedup c !! (uid, rule) with Some exp => bool_decide (now < exp) | None => false end
    then c
    else with_detects c (k_detectResults c ++ [{| de_UID := uid; de_RuleID := rule |}])
           (dedup_insert (k_detectDedup c) now (uid, rule)).
Proof. unfold recordDetect. destruct (_ !! _); [by case_bool_decide|done]. Qed.

Lemma dedup_insert_ok t m last now k :
  t ≤ now → dedup_ok t m last →
  dedup_ok now (dedup_insert m now k) (λ k', if bool_decide (k' = k) then Some now else last k').
Proof.
  intros Ht Hm. apply (dedup_ok_later _ now) in Hm; [|done].
  assert (dedup_ok now (<[k := now + detectDedupTTL]> m) (λ k', if bool_decide (k' = k) then Some now else last k')) as Hi.
  { intros k'. case_bool_decide as Hk; [subst k'; left; apply lookup_insert_eq|].
    rewrite lookup_insert_ne by done. apply Hm. }
  unfold dedup_insert. cbn zeta. destruct (bool_decide (4096 < _)); [|exact Hi]. intros k'. specialize (Hi k').
  cbn beta in Hi |- *. revert Hi. destruct (if bool_decide (k' = k) then Some now else last k') as [s|]; intros Hi.
  - destruct Hi as [Hi|[Hi Hs]].
    + destruct (decide (s + detectDedupTTL < now)) as [Hlt|Hge].
      * right. split; [|done]. apply map_lookup_filter_None. right. intros x Hx. rewrite Hi in Hx. simplify_eq. tauto.
      * left. by apply map_lookup_filter_Some.
    + right. split; [|done]. apply map_lookup_filter_None. by left.
  - apply map_lookup_filter_None. by left.
Qed.

Lemma audit_run ops : ∀ t c out last,
  Forall (λ o, match op_time o with Some now => t ≤ now | None => True end) ops → in_order ops →
  dedup_ok t (k_detectDedup c) last →
  let st := foldl audit_step (c, out) ops in
  st.2 ++ k_detectResults st.1 = out ++ k_detectResults c ++ reports last ops.
Proof.
  induction ops as [|o ops IH]; intros t c out last Ht Hso Hm; cbn [foldl reports]; [by rewrite app_nil_r|].
  apply Forall_cons in Ht as [Ho Ht]. destruct o as [now uid rule|]; cbn [audit_step].
  2: { cbn [drainDetectResults]. unfold drainDetectResults. rewrite (IH t) with (last := last); [|done..].
       cbn [k_detectResults with_detects]. by rewrite <- app_assoc. }
  unfold in_order in Hso. cbn in Hso. apply StronglySorted_inv in Hso as [Hso Hall]. cbn in Ho.
  assert (Forall (λ o, match op_time o with Some now' => now ≤ now' | None => True end) ops) as Ht'.
  { apply Forall_forall. intros o Hin. destruct (op_time o) as [now'|] eqn:Eo; [|done].
    rewrite List.Forall_forall in Hall. apply Hall, list_elem_of_In, list_elem_of_omap. eauto. }
  assert ((match k_detectDedup c !! (uid, rule) with Some exp => bool_decide (now < exp) | None => false end)
          = match last (uid, rule) with Some s => bool_decide (now < s + detectDedupTTL) | None => false end) as Esup.
  { specialize (Hm (uid, rule)). destruct (last (uid, rule)) as [s|]; [|by rewrite Hm].
    destruct Hm as [->|[-> Hs]]; [done|]. symmetry. apply bool_decide_eq_false. lia. }
  rewrite recordDetect_cases, Esup. destruct (match last (uid, rule) with Some _ => _ | None => _ end).
  - apply (IH now); [done..|]. by eapply dedup_ok_later.
  - rewrite (IH now) with (last := λ k, if bool_decide (k = (uid, rule)) then Some now else last k).
    + cbn [k_detectResults with_detects]. by rewrite <- !app_assoc.
    + done.
    + done.
    + by apply (dedup_insert_ok t).
Qed.

(** (C37) Audit reports are the hits with a 60-second cooldown per user and
    rule: over any sequence of hits and drains with a clock that does not go
    back, what the drains took out plus what is still buffered is exactly the
    reference that never forgets a report; bounding the dedup map by pruning
    does not show. *)
Theorem audit_reports_deduplicated config client inbound t0 ops :
  in_order ops →
  let st := foldl audit_step (new_controller config client inbound t0, []) ops in
  st.2 ++ k_detectResults st.1 = reports (λ _, None) ops.
Proof.
  intros Hso st. set (t := default 0 (head (omap op_time ops))). unfold st.
  rewrite (audit_run ops t) with (last := λ _, None); [done| |done|].
  - apply Forall_forall. intros o Ho. destruct (op_time o) as [now|] eqn:Eo; [|done].
    assert (now ∈ omap op_time ops) as Hin by (apply list_elem_of_omap; eauto). unfold in_order in Hso.
    unfold t. destruct (omap op_time ops) as [|x xs]; [by apply not_elem_of_nil in Hin|]. cbn.
    apply StronglySorted_inv in Hso as [_ Hall]. apply elem_of_cons in Hin as [->|Hin]; [lia|].
    rewrite List.Forall_forall in Hall. by apply Hall, list_elem_of_In.
  - intros k. cbn. by rewrite lookup_empty.
Qed.
End audit.

(** ** Concrete runs *)

#[local] Existing Instance Naive.naive_users.

Definition busy0 : Controller unit Naive.userTable :=
  foldl ctl_step started0 [EvConnect "u2" "7.7.7.7"; EvSent 1 5; EvRecv 1 6].

Lemma user_tick_reports_witness :
  traffic_calls (k_calls (userInfoMonitor busy0 (env0 true script0)).1)
  = [[{| ut_UID := 1; ut_Email := ""; ut_Upload := 10; ut_Download := 0 |}];
     [{| ut_UID := 2; ut_Email := ""; ut_Upload := 5; ut_Download := 6 |}]]
  ∧ ∀ h u, abs (k_author (userInfoMonitor busy0 (env0 true script0)).1) !! h = Some u → drained u.
Proof.
  split; [vm_compute; reflexivity|].
  refine (proj1 (user_tick_reports busy0 (env0 true script0) _ _)); [|vm_compute; reflexivity].
  assert (busy0 = foldl ctl_step (new_controller config0 tt Naive.empty_table 0)
    (run0 ++ [EvConnect "u2" "7.7.7.7"; EvSent 1 5; EvRecv 1 6])) as E by reflexivity.
  rewrite E. apply reachable_consistent. reflexivity.
Defined.

Lemma audit_reports_deduplicated_witness :
  let ops := [AHit 0 1 9; AHit 5 1 9; ADrain; AHit (30 * 10 ^ 9) 2 9; AHit (61 * 10 ^ 9) 1 9] in
  let st := foldl audit_step (controller0, []) ops in
  st.2 ++ k_detectResults st.1
  = [{| de_UID := 1; de_RuleID := 9 |}; {| de_UID := 2; de_RuleID := 9 |}; {| de_UID := 1; de_RuleID := 9 |}].
Proof.
  cbn zeta. refine (eq_trans (audit_reports_deduplicated config0 tt Naive.empty_table 0 _ _) _).
  - repeat constructor; lia.
  - reflexivity.
Defined.
