(* ===== verification/Ticks.v ===== *)
(** * The periodic tasks, step by step

    The two periodic tasks of a controller run in goroutines of their own,
    beside the connections that count traffic.  Controller.v gives each tick as
    one function; here a tick is split where the code can be interrupted: at
    every user whose counters are drained, at every panel or runtime call, at
    every user deleted, added or set up.  The machine interleaves the steps of
    both ticks with the connections' counting in any order and keeps a ledger of
    where the drained bytes went.  Run without interruption, the steps of a tick
    compute what Controller.v says. *)

From S2P Require Import Prelude GoStrings Float64 Api Authenticator PanelUsers Controller UserSync ControllerInv Accounting.

Open Scope Z_scope.

(** Where drained bytes went: into a report the panel took, into one it did not
    take (the code logs the error and forgets them), or away with a user whose
    counters were not zero when it was closed. *)
Inductive entry :=
  | Accepted (l : list UserTraffic) | Refused (l : list UserTraffic) | Dropped (u : User).

Section machine.
Context `{RangeOrder, Regexp} {C W : Type} `{PanelAPI C W} {I WI : Type} `{PanelInbound I WI}.
Implicit Types (c : Controller C I) (e : Env W WI).

(** What the user synchronisation was called for. *)
Inductive caller := ForStart | ForNode (n : NodeInfo) (prevNodeSpeedLimit : Z) (nodeInfoChanged : bool).

(** Where a synchronisation stands: draining the users to delete, reporting
    them, handing the delta to the runtime, deleting, adding, setting up. *)
Inductive sync_pc :=
  | SIdle
  | SDump (e : Env W WI) (k : caller) (userInfo : list UserInfo) (dd : user_diff)
      (todo done : list string) (report : list UserTraffic)
  | SApply (e : Env W WI) (k : caller) (userInfo : list UserInfo) (dd : user_diff)
  | SDel (e : Env W WI) (k : caller) (dd : user_diff) (todo : list string)
  | SAdd (e : Env W WI) (k : caller) (dd : user_diff) (todo : list string)
  | SInstall (e : Env W WI) (k : caller) (dd : user_diff) (todo : list string).

(** Where a user tick stands. *)
Inductive user_pc :=
  | UIdle
  | UDrain (e : Env W WI) (todo : list nat) (traffic : list UserTraffic) (online : list OnlineUser).

Record machine := {
  m_c : Controller C I;
  m_sync : sync_pc;
  m_user : user_pc;
  m_ledger : list entry }.

Definition booked (r : result unit) (l : list UserTraffic) : entry :=
  match r with Ok _ => Accepted l | _ => Refused l end.

(** syncUserList up to the list to apply; [inr] is an early return. *)
Definition sync_fetch c e : Controller C I * (list UserInfo + result unit) :=
  let '(client, r) := GetUserList (k_client c) (e_net e) in
  let c := with_client c client in
  match r with
  | Panic w => (c, inr (Panic w))
  | Err err =>
      if negb (is_text err UserNotModified) then (c, inr (Err err))
      else if negb (k_userSyncPending c) then (c, inr (Ok tt))
      else (c, inl (k_lastUserList c))
  | Ok userInfo => (c, inl userInfo)
  end.

(** What the caller does with syncUserList's result. *)
Definition sync_return c e (k : caller) (r : result unit) : Controller C I :=
  match r, k with
  | Ok _, ForStart => with_tasks c true
  | Ok _, ForNode n prev changed =>
      let c := if bool_decide (ni_SpeedLimit n = prev) then c else refreshAllSpeedLimits c in
      let '(c, r) := refreshDetectRules c e in
      match r with Panic _ => c | _ => (monitor_reload c e changed).1 end
  | _, _ => c
  end.

(** Enter syncUserList. *)
Definition sync_enter c e (k : caller) : Controller C I * sync_pc :=
  let '(c, r) := sync_fetch c e in
  match r with
  | inr r => (sync_return c e k r, SIdle)
  | inl userInfo =>
      let dd := diffUsers (k_usersMap c) userInfo (buildUserHash c) in
      (c, SDump e k userInfo dd (d_deleted dd) [] [])
  end.

Definition enter_start c e : Controller C I * sync_pc :=
  let '(client, r) := GetNodeInfo (k_client c) (e_net e) in
  let c := with_client c client in
  match r with
  | Ok n =>
      if bool_decide (ni_Port n = 0) then (c, SIdle)
      else
        let c := with_node c (Some n) (buildNodeTag c n) in
        let '(i, r) := if is_PConfigurable then pi_ConfigureFromPanelNode (k_inbound c) (e_inb e) n
                       else (k_inbound c, Ok tt) in
        let c := with_inbound c i in
        match r with Ok _ => sync_enter c e ForStart | _ => (c, SIdle) end
  | _ => (c, SIdle)
  end.

Definition enter_node c e : Controller C I * sync_pc :=
  if delayed c e then (c, SIdle)
  else
    let '(client, r) := GetNodeInfo (k_client c) (e_net e) in
    let c := with_client c client in
    let next :=
      match r with
      | Ok n => Some (true, Some n)
      | Err err => if is_text err NodeNotModified then Some (false, k_nodeInfo c) else None
      | Panic _ => None
      end in
    match next with
    | Some (changed, Some n) =>
        if bool_decide (ni_Port n = 0) then (c, SIdle)
        else sync_enter (with_node c (Some n) (k_Tag c)) e (ForNode n (nodeSpeedLimit c) changed)
    | _ => (c, SIdle)
    end.

(** One step of a synchronisation. *)
Definition sync_step c (pc : sync_pc) : Controller C I * sync_pc * list entry :=
  match pc with
  | SIdle => (c, SIdle, [])
  | SDump e k l dd (hash :: todo) done report =>
      let '(a, report) := dump_user (k_author c, report) hash in
      (with_author c a, SDump e k l dd todo (done ++ [hash]) report, [])
  | SDump e k l dd [] done report =>
      if bool_decide (report = []) then (c, SApply e k l dd, [])
      else let '(c, r) := call_traffic c e report in (c, SApply e k l dd, [booked r report])
  | SApply e k l dd =>
      let runtimeUsers := usersFromMap (d_next dd) in
      let delta := usersForHashes (d_next dd) (d_added dd ++ d_changed dd) in
      let shouldRefresh :=
        negb (bool_decide (d_added dd = []) && bool_decide (d_deleted dd = []) && bool_decide (d_changed dd = [])) in
      let '(i, r) := if shouldRefresh then applyRuntimeUserDelta c e (d_deleted dd) delta runtimeUsers
                     else (k_inbound c, Ok tt) in
      let c := with_inbound c i in
      match r with
      | Ok _ => (with_pending c false [], SDel e k dd (d_deleted dd), [])
      | Err err => (sync_return (with_pending c true l) e k (Err err), SIdle, [])
      | Panic w => (sync_return c e k (Panic w), SIdle, [])
      end
  | SDel e k dd (hash :: todo) =>
      let dropped := match abs (k_author c) !! hash with Some u => [Dropped u] | None => [] end in
      (with_author c (DelUser (k_author c) hash).1, SDel e k dd todo, dropped)
  | SDel e k dd [] => (c, SAdd e k dd (d_added dd), [])
  | SAdd e k dd (hash :: todo) =>
      (with_author c (add_user (d_next dd) (k_author c) hash), SAdd e k dd todo, [])
  | SAdd e k dd [] => (with_usersMap c (d_next dd), SInstall e k dd (d_added dd ++ d_changed dd), [])
  | SInstall e k dd (hash :: todo) => (install_user (d_next dd) c hash, SInstall e k dd todo, [])
  | SInstall e k dd [] => (sync_return c e k (Ok tt), SIdle, [])
  end.

(** Enter and step a user tick. *)
Definition enter_user c e : Controller C I * user_pc :=
  if delayed c e then (c, UIdle)
  else
    let c := match e_sys e with Ok s => call_status c e s | _ => c end in
    (c, UDrain e (ListUsers (k_author c)) [] []).

Definition user_step c (pc : user_pc) : Controller C I * user_pc * list entry :=
  match pc with
  | UIdle => (c, UIdle, [])
  | UDrain e (l :: todo) traffic online =>
      let '(a, traffic, online) := report_user (k_author c, traffic, online) l in
      (with_author c a, UDrain e todo traffic online, [])
  | UDrain e [] traffic online =>
      let '(c, entries) :=
        if bool_decide (traffic = []) then (c, [])
        else let '(c, r) := call_traffic c e traffic in (c, [booked r traffic]) in
      let c := if bool_decide (online = []) then c else call_online c e online in
      let '(c, hits) := drainDetectResults c in
      (if bool_decide (hits = []) then c else call_illegal c e hits, UIdle, entries)
  end.

(** What can happen: a start or a tick begins (each task runs one tick at a
    time), a pending one takes a step, or a connection does something. *)
Inductive move :=
  | MStart (e : Env W WI) | MNode (e : Env W WI) | MUser (e : Env W WI)
  | MSyncStep | MUserStep
  | MConnect (user source : string) | MSent (l : nat) (n : Z) | MRecv (l : nat) (n : Z)
  | MAudit (now uid : Z) (host : string).

Definition with_c m c : machine :=
  {| m_c := c; m_sync := m_sync m; m_user := m_user m; m_ledger := m_ledger m |}.

Definition m_step (m : machine) (mv : move) : machine :=
  let c := m_c m in
  let enter '(c, pc) := {| m_c := c; m_sync := pc; m_user := m_user m; m_ledger := m_ledger m |} in
  match mv with
  | MStart e => match m_sync m with SIdle => enter (enter_start c e) | _ => m end
  | MNode e => match m_sync m with SIdle => enter (enter_node c e) | _ => m end
  | MUser e =>
      match m_user m with
      | UIdle => let '(c, pc) := enter_user c e in
                 {| m_c := c; m_sync := m_sync m; m_user := pc; m_ledger := m_ledger m |}
      | _ => m
      end
  | MSyncStep =>
      let '(c, pc, entries) := sync_step c (m_sync m) in
      {| m_c := c; m_sync := pc; m_user := m_user m; m_ledger := m_ledger m ++ entries |}
  | MUserStep =>
      let '(c, pc, entries) := user_step c (m_user m) in
      {| m_c := c; m_sync := m_sync m; m_user := pc; m_ledger := m_ledger m ++ entries |}
  | MConnect user source => with_c m (ctl_step c (EvConnect user source))
  | MSent l n => with_c m (ctl_step c (EvSent l n))
  | MRecv l n => with_c m (ctl_step c (EvRecv l n))
  | MAudit now uid host => with_c m (ctl_step c (EvAudit now uid host))
  end.

Definition m_init c : machine := {| m_c := c; m_sync := SIdle; m_user := UIdle; m_ledger := [] |}.

(** Run a synchronisation, or a user tick, to its end. *)
Fixpoint sync_run (fuel : nat) c (pc : sync_pc) : Controller C I * sync_pc :=
  match fuel, pc with
  | _, SIdle | O, _ => (c, pc)
  | S fuel, _ => let '(c, pc, _) := sync_step c pc in sync_run fuel c pc
  end.
Fixpoint user_run (fuel : nat) c (pc : user_pc) : Controller C I * user_pc :=
  match fuel, pc with
  | _, UIdle | O, _ => (c, pc)
  | S fuel, _ => let '(c, pc, _) := user_step c pc in user_run fuel c pc
  end.
End machine.

(** ** A tick alone is the tick of Controller.v *)

Section uninterrupted.
Context `{RangeOrder, Regexp} {C W : Type} `{PanelAPI C W} {I WI : Type} `{PanelInbound I WI}.
Implicit Types (c r : Controller C I) (e : Env W WI).

Definition finishes c (pc : @sync_pc W WI) r : Prop := ∃ n, ∀ m, (n ≤ m)%nat → sync_run m c pc = (r, SIdle).

Lemma finishes_idle c : finishes c SIdle c.
Proof. exists O. by intros [|m]. Qed.

Lemma finishes_step c pc c1 pc1 es r :
  sync_step c pc = (c1, pc1, es) → finishes c1 pc1 r → finishes c pc r.
Proof.
  intros Es [n Hn]. exists (S n). intros [|m] Hm; [lia|].
  destruct pc; try (cbn in Es; simplify_eq; specialize (Hn m ltac:(lia)); by destruct m);
    cbn [sync_run]; rewrite Es; apply Hn; lia.
Qed.

Lemma finishes_install e k dd todo c r :
  finishes (foldl (install_user (d_next dd)) c todo) (SInstall e k dd []) r → finishes c (SInstall e k dd todo) r.
Proof. revert c. induction todo as [|h todo IH]; intros c Hf; [done|]. eapply finishes_step; [done|]. by apply IH. Qed.

Lemma finishes_add e k dd todo c r :
  finishes (with_author c (foldl (add_user (d_next dd)) (k_author c) todo)) (SAdd e k dd []) r →
  finishes c (SAdd e k dd todo) r.
Proof.
  revert c. induction todo as [|h todo IH]; intros c Hf; [by destruct c|].
  eapply finishes_step; [done|]. by apply IH.
Qed.

Lemma finishes_del e k dd todo c r :
  finishes (with_author c (foldl (λ a h, (DelUser a h).1) (k_author c) todo)) (SDel e k dd []) r →
  finishes c (SDel e k dd todo) r.
Proof.
  revert c. induction todo as [|h todo IH]; intros c Hf; [by destruct c|].
  eapply finishes_step; [done|]. by apply IH.
Qed.

Lemma finishes_dump e k l dd todo : ∀ dn report c r,
  let st := foldl dump_user (k_author c, report) todo in
  finishes (with_author c st.1) (SDump e k l dd [] (dn ++ todo) st.2) r →
  finishes c (SDump e k l dd todo dn report) r.
Proof.
  induction todo as [|h todo IH]; intros dn report c r; cbn [foldl].
  { cbn. rewrite app_nil_r. by destruct c. }
  cbv zeta. intros Hf. destruct (dump_user (k_author c, report) h) as [a rep'] eqn:Ed.
  eapply finishes_step; [cbn [sync_step]; by rewrite Ed|]. apply IH. by rewrite <- app_assoc.
Qed.

Lemma sync_list_finishes c e k userInfo :
  let dd := diffUsers (k_usersMap c) userInfo (buildUserHash c) in
  let '(c', r) := sync_list c e userInfo in
  finishes c (SDump e k userInfo dd (d_deleted dd) [] []) (sync_return c' e k r).
Proof.
  intros dd. unfold sync_list. fold dd.
  set (c1 := if bool_decide (d_deleted dd = []) then c else _).
  assert (∀ r, finishes c1 (SApply e k userInfo dd) r →
               finishes c (SDump e k userInfo dd (d_deleted dd) [] []) r) as Hdump.
  { intros r Hf. apply finishes_dump. unfold c1, dumpTrafficForDeleted in Hf.
    destruct (foldl dump_user (k_author c, []) (d_deleted dd)) as [a report] eqn:Ed. cbn [fst snd].
    case_bool_decide as Hnil.
    { rewrite Hnil in Ed. cbn in Ed. simplify_eq. eapply finishes_step; [done|]. by destruct c. }
    destruct (bool_decide (report = [])) eqn:Er.
    - eapply finishes_step; [cbn [sync_step]; by rewrite Er|]. done.
    - destruct (call_traffic (with_author c a) e report) as [c2 r2] eqn:Ec.
      eapply finishes_step; [cbn [sync_step]; by rewrite Er, Ec|]. done. }
  set (out := if negb _ then applyRuntimeUserDelta c1 e _ _ _ else _).
  destruct out as [i r] eqn:Eo. unfold out in Eo.
  destruct r as [[]|err|w]; apply Hdump; (eapply finishes_step; [cbn [sync_step]; by rewrite Eo|]); [|by apply finishes_idle..].
  apply finishes_del. eapply finishes_step; [done|]. apply finishes_add. eapply finishes_step; [done|].
  apply finishes_install. eapply finishes_step; [done|]. rewrite foldl_app. apply finishes_idle.
Qed.

Lemma syncUserList_finishes c e k :
  let '(c', r) := syncUserList c e in
  let '(c1, pc) := sync_enter c e k in finishes c1 pc (sync_return c' e k r).
Proof.
  unfold syncUserList, sync_enter, sync_fetch. destruct (GetUserList _ _) as [cl [us|err|w]].
  - apply sync_list_finishes.
  - destruct (negb _); [apply finishes_idle|]. destruct (negb _); [apply finishes_idle|]. apply sync_list_finishes.
  - apply finishes_idle.
Qed.

(** The steps of a node tick, run alone, end, and compute nodeInfoMonitor. *)
Lemma node_tick_split c e :
  let '(c1, pc) := enter_node c e in finishes c1 pc (nodeInfoMonitor c e).1.
Proof.
  unfold enter_node, nodeInfoMonitor. destruct (delayed c e); [apply finishes_idle|].
  destruct (GetNodeInfo _ _) as [cl r]. set (next := match r with Ok _ => _ | _ => _ end).
  destruct next as [[changed [n|]]|]; [|apply finishes_idle|destruct r; apply finishes_idle].
  case_bool_decide; [apply finishes_idle|]. set (c1 := with_node _ _ _).
  pose proof (syncUserList_finishes c1 e (ForNode n (nodeSpeedLimit (with_client c cl)) changed)) as Hs.
  destruct (syncUserList c1 e) as [c2 r2]. destruct (sync_enter c1 e _) as [c3 pc].
  destruct r2 as [[]|err|w]; [|exact Hs..]. cbn [sync_return] in Hs.
  set (c4 := if bool_decide _ then _ else _) in *. by destruct (refreshDetectRules c4 e) as [c5 [[]|err|w]].
Qed.

(** The same for the synchronisation Start makes. *)
Lemma start_split c e :
  let '(c1, pc) := enter_start c e in finishes c1 pc (Start c e).1.
Proof.
  unfold enter_start, Start. destruct (GetNodeInfo _ _) as [cl [n|err|w]]; [|apply finishes_idle..].
  case_bool_decide; [apply finishes_idle|]. set (c1 := with_node _ _ _).
  destruct (if is_PConfigurable then _ else _) as [i [[]|err|w]]; [|apply finishes_idle..].
  pose proof (syncUserList_finishes (with_inbound c1 i) e ForStart) as Hs.
  destruct (syncUserList _ e) as [c2 [[]|err|w]]; by destruct (sync_enter _ e _) as [c3 pc].
Qed.

(** And for a user tick: the drains of [ls], then the reports. *)
Lemma user_run_drain e ls : ∀ c tr on m,
  (length ls < m)%nat →
  user_run m c (UDrain e ls tr on)
  = let '(a, tr, on) := foldl report_user (k_author c, tr, on) ls in
    ((user_step (with_author c a) (UDrain e [] tr on)).1.1, UIdle).
Proof.
  induction ls as [|l ls IH]; intros c tr on [|m] Hm; cbn [length] in Hm; try lia.
  - cbn [user_run foldl]. replace (with_author c (k_author c)) with c by (by destruct c). cbn [user_step].
    destruct (if bool_decide (tr = []) then _ else _) as [c1 es]. cbn [drainDetectResults fst]. by destruct m.
  - cbn [user_run user_step foldl]. destruct (report_user (k_author c, tr, on) l) as [[a tr1] on1] eqn:Er.
    rewrite IH by lia. cbn [k_author with_author]. by destruct (foldl report_user _ _) as [[? ?] ?].
Qed.

Lemma user_tick_split c e :
  ∃ n, ∀ m, (n ≤ m)%nat →
  user_run m (enter_user c e).1 (enter_user c e).2 = ((userInfoMonitor c e).1, UIdle).
Proof.
  unfold enter_user, userInfoMonitor. destruct (delayed c e); cbn [fst snd]; [exists O; by intros [|m]|].
  set (c1 := match e_sys e with Ok _ => _ | _ => _ end).
  exists (S (length (ListUsers (k_author c1)))). intros m Hm. rewrite user_run_drain by lia.
  destruct (foldl report_user _ _) as [[a tr] on]. cbn [user_step].
  case_bool_decide; cbn [fst drainDetectResults]; [done|]. by destruct (call_traffic _ e tr).
Qed.
End uninterrupted.

(** ** Following the bytes *)

Definition accepted_bytes (d : dir) (uid : Z) (en : entry) : Z :=
  match en with Accepted l => sum_by (rep d uid) l | _ => 0 end.
Definition refused_bytes (d : dir) (uid : Z) (en : entry) : Z :=
  match en with Refused l => sum_by (rep d uid) l | _ => 0 end.
Definition dropped_bytes (d : dir) (uid : Z) (en : entry) : Z :=
  match en with Dropped u => cnt d uid u | _ => 0 end.

(** The report an entry stands for. *)
Definition entry_report (en : entry) : option (list UserTraffic) :=
  match en with Accepted l | Refused l => Some l | Dropped _ => None end.

(** Deleting a user takes its counters away. *)
Lemma held_DelUser_drop d uid a h :
  held d uid (DelUser a h).1 + match abs a !! h with Some u => cnt d uid u | None => 0 end = held d uid a.
Proof.
  rewrite lookup_abs. unfold DelUser. destruct (a_users a !! h) as [l|]; [|cbn; lia]. unfold held. cbn.
  rewrite sum_by_alter. destruct (a_heap a !! l) as [u|]; [|cbn; lia].
  unfold cnt. cbn. case_bool_decide; destruct d; lia.
Qed.

(** *** Users that are empty *)

Definition all_drained (hs : list string) (a : Authenticator) : Prop :=
  ∀ h u, h ∈ hs → abs a !! h = Some u → drained u.

Lemma lookup_abs_update_inv a l f h u :
  abs (update_user a l f) !! h = Some u →
  (abs a !! h = Some u ∧ a_users a !! h ≠ Some l) ∨ (a_users a !! h = Some l ∧ ∃ v, a_heap a !! l = Some v ∧ u = f v).
Proof.
  rewrite lookup_abs_update, !lookup_abs. case_bool_decide as Hl; [|by left]. rewrite Hl. cbn.
  destruct (a_heap a !! l) as [v|] eqn:E; [|done]. intros [= <-]. right. eauto.
Qed.

(** A write that leaves an empty user empty. *)
Lemma drained_update hs a l f :
  (∀ v, a_heap a !! l = Some v → drained v → drained (f v)) →
  all_drained hs a → all_drained hs (update_user a l f).
Proof.
  intros Hf Hd h u Hh [[Hu _]|(Hl & v & Hv & ->)]%lookup_abs_update_inv; [by eapply Hd|].
  apply Hf; [done|]. eapply Hd; [done|]. by rewrite lookup_abs, Hl.
Qed.

(** A write to a user that is not one of them. *)
Lemma drained_update_other hs a l f :
  (∀ h, h ∈ hs → a_users a !! h ≠ Some l) → all_drained hs a → all_drained hs (update_user a l f).
Proof. intros Ho Hd h u Hh [[Hu _]|[Hl _]]%lookup_abs_update_inv; [by eapply Hd|]. by destruct (Ho h Hh). Qed.

Lemma drained_DelUser h hs a : all_drained (h :: hs) a → all_drained hs (DelUser a h).1.
Proof.
  intros Hd h' u Hh'. unfold DelUser. destruct (a_users a !! h) as [l|] eqn:El; [|intros; eapply Hd; [by right|done]].
  rewrite lookup_abs. cbn. rewrite lookup_delete. case_decide as Hne; [done|]. intros Hu.
  assert (abs (update_user a l Close) !! h' = Some u) as [[Hu' _]|(_ & v & _ & ->)]%lookup_abs_update_inv by (by rewrite lookup_abs).
  - eapply Hd; [by right|done].
  - done.
Qed.

Lemma dump_user_shape a report h :
  (dump_user (a, report) h).1 = a ∧ LoadUser a h ≫= (λ l, a_heap a !! l) = None
  ∨ ∃ l u, LoadUser a h = Some l ∧ a_heap a !! l = Some u
      ∧ (dump_user (a, report) h).1 = update_user a l (λ _, set_counters u 0 0 0 0).
Proof.
  unfold dump_user. destruct (LoadUser a h) as [l|]; cbn; [|by left].
  destruct (a_heap a !! l) as [u|] eqn:E; cbn; [|by left]. right. exists l, u. by destruct (_ && _).
Qed.

Lemma drained_dump hs a report h : all_drained hs a → all_drained (hs ++ [h]) (dump_user (a, report) h).1.
Proof.
  intros Hd. destruct (dump_user_shape a report h) as [[-> Hno]|(l & u & Hl & Hu & ->)]; intros h' v Hh'.
  - apply elem_of_app in Hh' as [Hh'|Hh'%list_elem_of_singleton]; [by eapply Hd|subst h'].
    rewrite lookup_abs. destruct (a_users a !! h) as [k|] eqn:Ek; [|done]. cbn.
    rewrite (LoadUser_hash _ _ _ Ek) in Hno. cbn in Hno. by rewrite Hno.
  - intros [[Hv Hne]|(Hl' & w & Hw & ->)]%lookup_abs_update_inv; [|done].
    apply elem_of_app in Hh' as [Hh'|Hh'%list_elem_of_singleton]; [by eapply Hd|subst h'].
    destruct (a_users a !! h) as [k|] eqn:Ek; [|by rewrite lookup_abs, Ek in Hv].
    rewrite (LoadUser_hash _ _ _ Ek) in Hl. congruence.
Qed.

(** Changes of the authenticator that move no bytes. *)
Record gentle (a a' : Authenticator) : Prop := {
  gentle_held d uid : held d uid a' = held d uid a;
  gentle_ok : auth_ok a → auth_ok a' }.

#[export] Instance gentle_preorder : PreOrder gentle.
Proof.
  split.
  - intros a. by split.
  - intros a b c [H1 H2] [H3 H4]. split; [intros; by rewrite H3, H1|auto].
Qed.

Lemma gentle_update a l f :
  (∀ u, u_UID (f u) = u_UID u ∧ u_sent (f u) = u_sent u ∧ u_recv (f u) = u_recv u ∧ u_hash (f u) = u_hash u) →
  gentle a (update_user a l f).
Proof.
  intros Hf. split.
  - intros d uid. apply held_update. intros u. destruct (Hf u) as (E1 & E2 & E3 & _). unfold cnt. by rewrite E1, E2, E3.
  - apply auth_ok_update. apply Hf.
Qed.

Lemma gentle_AddUser a h uid : gentle a (AddUser a h uid).1.
Proof. split; [intros; apply held_AddUser|apply auth_ok_AddUser]. Qed.

Section frames.
Context `{RangeOrder, Regexp} {C W : Type} `{PanelAPI C W} {I WI : Type} `{PanelInbound I WI}.
Implicit Types (c : Controller C I) (e : Env W WI).

(** A controller step that moves no bytes and makes no panel call. *)
Definition calm_step c c' : Prop := gentle (k_author c) (k_author c') ∧ k_calls c' = k_calls c.

#[local] Instance calm_preorder : PreOrder calm_step.
Proof.
  split; [by intros c|]. intros c1 c2 c3 [? E1] [? E2]. split; [by etrans|congruence].
Qed.

Lemma ApplyUserLimits_calm c h i : calm_step c (ApplyUserLimits c h i).
Proof.
  assert (∀ a n, gentle a (SetUserSpeedLimit a h n).1) as Hs.
  { intros a n. unfold SetUserSpeedLimit. destruct (LoadUser a h); [by apply gentle_update|done]. }
  assert (∀ a n, gentle a (SetUserDeviceLimit a h n).1) as Hd.
  { intros a n. unfold SetUserDeviceLimit. destruct (LoadUser a h); [by apply gentle_update|done]. }
  split; [|done]. unfold ApplyUserLimits. cbn [k_author with_author].
  destruct (cf_EnableDeviceLimit _); [|apply Hs]. etrans; [apply Hs|apply Hd].
Qed.

Lemma install_user_calm next c h : calm_step c (install_user next c h).
Proof.
  unfold install_user. destruct (next !! h) as [i|]; [|done]. etrans; [|apply ApplyUserLimits_calm].
  split; [|done]. unfold SetUserProfile. cbn [k_author with_author].
  assert (∀ a l, gentle a (SetUserAliases a h l)) as Ha by (intros a l; by split).
  etrans; [|apply Ha]. destruct (LoadUser _ h); [by apply gentle_update|done].
Qed.

Lemma sync_return_calm c e k r : calm_step c (sync_return c e k r).
Proof.
  unfold sync_return. destruct r as [[]|err|w]; [|by destruct k..]. destruct k as [|n prev changed]; [done|].
  set (c1 := if bool_decide _ then c else _).
  assert (calm_step c c1) as ->.
  { unfold c1. case_bool_decide; [done|]. unfold refreshAllSpeedLimits. generalize (range (k_usersMap c)). intros l.
    clear. revert c. induction l as [|[h i] l IH]; intros c; [done|]. cbn. etrans; [apply ApplyUserLimits_calm|apply IH]. }
  generalize c1. clear c1 c. intros c.
  assert (∀ c, calm_step c (monitor_reload c e changed).1) as Hm.
  { clear c. intros c. unfold monitor_reload. destruct (_ && _); [|done]. by destruct (configure_inbound c e) as [i [[]|err|w]]. }
  unfold refreshDetectRules. destruct (GetNodeRule _ _) as [cl [rules|err|w]]; [etrans; [|apply Hm]; done| |done].
  destruct (is_text _ _); (etrans; [|apply Hm]; done).
Qed.

Lemma sync_enter_calm c e k : calm_step c (sync_enter c e k).1.
Proof.
  unfold sync_enter, sync_fetch. destruct (GetUserList _ _) as [cl [us|err|w]]; [done| |].
  - destruct (negb _); [cbn [fst]; etrans; [|apply sync_return_calm]; done|].
    destruct (negb _); [cbn [fst]; etrans; [|apply sync_return_calm]; done|done].
  - cbn [fst]; etrans; [|apply sync_return_calm]; done.
Qed.

Lemma enter_node_calm c e : calm_step c (enter_node c e).1.
Proof.
  unfold enter_node. destruct (delayed c e); [done|]. destruct (GetNodeInfo _ _) as [cl r].
  set (next := match r with Ok _ => _ | _ => _ end). destruct next as [[changed [n|]]|]; [|done..].
  case_bool_decide; [done|]. etrans; [|apply sync_enter_calm]. done.
Qed.

Lemma enter_start_calm c e : calm_step c (enter_start c e).1.
Proof.
  unfold enter_start. destruct (GetNodeInfo _ _) as [cl [n|err|w]]; [|done..]. case_bool_decide; [done|].
  destruct (if is_PConfigurable then _ else _) as [i [[]|err|w]]; [|done..]. etrans; [|apply sync_enter_calm]. done.
Qed.

(** What the other reporting calls leave alone. *)
Lemma call_status_frame c e s :
  k_author (call_status c e s) = k_author c
  ∧ traffic_calls (k_calls (call_status c e s)) = traffic_calls (k_calls c).
Proof. unfold call_status, traffic_calls. destruct (ReportNodeStatus _ _ _). cbn. by rewrite omap_app, app_nil_r. Qed.
Lemma call_online_frame c e l :
  k_author (call_online c e l) = k_author c
  ∧ traffic_calls (k_calls (call_online c e l)) = traffic_calls (k_calls c).
Proof. unfold call_online, traffic_calls. destruct (ReportNodeOnlineUsers _ _ _). cbn. by rewrite omap_app, app_nil_r. Qed.
Lemma call_illegal_frame c e l :
  k_author (call_illegal c e l) = k_author c
  ∧ traffic_calls (k_calls (call_illegal c e l)) = traffic_calls (k_calls c).
Proof. unfold call_illegal, traffic_calls. destruct (ReportIllegal _ _ _). cbn. by rewrite omap_app, app_nil_r. Qed.
Lemma call_traffic_frame c e l :
  k_author (call_traffic c e l).1 = k_author c
  ∧ traffic_calls (k_calls (call_traffic c e l).1) = traffic_calls (k_calls c) ++ [l].
Proof. unfold call_traffic, traffic_calls. destruct (ReportUserTraffic _ _ _). cbn. by rewrite omap_app. Qed.
End frames.

(** ** Conservation *)

Section conservation.
Context `{RangeOrder, Regexp} {C W : Type} `{PanelAPI C W} {I WI : Type} `{PanelInbound I WI}.
Implicit Types (c : Controller C I) (e : Env W WI) (m : @machine C W I WI).

(** Bytes drained into a report that is not sent yet. *)
Definition in_flight (d : dir) (uid : Z) m : Z :=
  match m_sync m with SDump _ _ _ _ _ _ report => sum_by (rep d uid) report | _ => 0 end
  + match m_user m with UDrain _ _ traffic _ => sum_by (rep d uid) traffic | _ => 0 end.

Definition ledger_total (d : dir) (uid : Z) (es : list entry) : Z :=
  sum_by (accepted_bytes d uid) es + sum_by (refused_bytes d uid) es + sum_by (dropped_bytes d uid) es.

Definition m_total (d : dir) (uid : Z) m : Z :=
  ledger_total d uid (m_ledger m) + in_flight d uid m + held d uid (k_author (m_c m)).

Lemma ledger_total_app d uid xs ys :
  ledger_total d uid (xs ++ ys) = ledger_total d uid xs + ledger_total d uid ys.
Proof. unfold ledger_total. rewrite !sum_by_app. lia. Qed.

Lemma ledger_booked d uid r l : ledger_total d uid [booked r l] = sum_by (rep d uid) l.
Proof. unfold ledger_total. destruct r as [[]|err|w]; cbn; lia. Qed.

(** The bytes a move counts. *)
Definition m_bytes (d : dir) (uid : Z) m (mv : @move W WI) : Z :=
  match mv with
  | MSent l n => bytes d uid (m_c m) (EvSent (W := W) (WI := WI) l n)
  | MRecv l n => bytes d uid (m_c m) (EvRecv (W := W) (WI := WI) l n)
  | _ => 0
  end.

Fixpoint m_counted (d : dir) (uid : Z) m (mvs : list (@move W WI)) : Z :=
  match mvs with [] => 0 | mv :: mvs => m_bytes d uid m mv + m_counted d uid (m_step m mv) mvs end.

Lemma sync_step_total d uid c pc up lg :
  let '(c', pc', es) := sync_step c pc in
  m_total d uid {| m_c := c'; m_sync := pc'; m_user := up; m_ledger := lg ++ es |}
  = m_total d uid {| m_c := c; m_sync := pc; m_user := up; m_ledger := lg |}.
Proof.
  unfold m_total, in_flight. cbn [m_c m_sync m_user m_ledger].
  destruct pc as [|e k l dd [|h todo] dn report|e k l dd|e k dd [|h todo]|e k dd [|h todo]|e k dd [|h todo]];
    cbn [sync_step]; rewrite ?app_nil_r; cbn [k_author with_usersMap]; try lia.
  - case_bool_decide as Er; [subst report; rewrite app_nil_r; cbn; lia|].
    destruct (call_traffic_frame c e report) as [Ea _]. destruct (call_traffic c e report) as [c' r].
    cbn [fst] in Ea. rewrite ledger_total_app, ledger_booked, Ea. lia.
  - pose proof (dump_user_bytes d uid (k_author c, report) h) as Hb.
    destruct (dump_user _ h) as [a report']. cbn [fst snd k_author with_author] in *. rewrite app_nil_r. lia.
  - destruct (if negb _ then _ else _) as [i [[]|err|w]]; rewrite app_nil_r; [cbn; lia|by destruct k..].
  - pose proof (held_DelUser_drop d uid (k_author c) h) as Hd. cbn [k_author with_author].
    rewrite ledger_total_app. destruct (abs (k_author c) !! h); unfold ledger_total at 2; cbn; lia.
  - unfold add_user. destruct (d_next dd !! h) as [i|]; [|cbn; lia]. cbn [k_author with_author].
    rewrite held_AddUser. lia.
  - destruct (sync_return_calm c e k (Ok tt)) as [[Hh _] _]. rewrite Hh. lia.
  - destruct (install_user_calm (d_next dd) c h) as [[Hh _] _]. rewrite Hh. lia.
Qed.

Lemma user_step_total d uid c pc sp lg :
  let '(c', pc', es) := user_step c pc in
  m_total d uid {| m_c := c'; m_sync := sp; m_user := pc'; m_ledger := lg ++ es |}
  = m_total d uid {| m_c := c; m_sync := sp; m_user := pc; m_ledger := lg |}.
Proof.
  unfold m_total, in_flight. cbn [m_c m_sync m_user m_ledger].
  destruct pc as [|e [|l todo] traffic online]; cbn [user_step]; [by rewrite app_nil_r| |].
  - set (p := if bool_decide (traffic = []) then _ else _).
    assert (k_author p.1 = k_author c ∧ ledger_total d uid p.2 = sum_by (rep d uid) traffic) as [Ea Et].
    { unfold p. case_bool_decide as Er; [by subst traffic|].
      destruct (call_traffic_frame c e traffic) as [E _]. destruct (call_traffic c e traffic) as [c' r].
      split; [done|apply ledger_booked]. }
    destruct p as [c1 es]. cbn [fst snd drainDetectResults] in *. rewrite ledger_total_app, Et.
    assert (∀ x : Controller C I, k_author (if bool_decide (k_detectResults x = []) then with_detects x [] (k_detectDedup x)
      else call_illegal (with_detects x [] (k_detectDedup x)) e (k_detectResults x)) = k_author x) as ->.
    { intros x. case_bool_decide; [done|]. by destruct (call_illegal_frame (with_detects x [] (k_detectDedup x)) e (k_detectResults x)) as [-> _]. }
    case_bool_decide; [|destruct (call_online_frame c1 e online) as [-> _]]; rewrite Ea; lia.
  - pose proof (report_user_bytes d uid (k_author c, traffic, online) l) as Hb.
    destruct (report_user _ l) as [[a tr] on]. cbn [fst snd k_author with_author] in *. rewrite app_nil_r. lia.
Qed.

(** A tick that was just entered has drained nobody. *)
Definition fresh_sync (pc : @sync_pc W WI) : Prop :=
  pc = SIdle ∨ ∃ e k l dd, pc = SDump e k l dd (d_deleted dd) [] [].

Lemma enter_fresh c e : fresh_sync (enter_node c e).2 ∧ fresh_sync (enter_start c e).2.
Proof.
  assert (∀ c k, fresh_sync (sync_enter c e k).2) as Hs.
  { clear c. intros c k. unfold sync_enter, sync_fetch, fresh_sync.
    destruct (GetUserList _ _) as [cl [us|err|w]]; cbn [snd]; [right; eauto 10| |by left].
    destruct (negb _); [by left|]. destruct (negb _); [by left|]. right. cbn [snd]. eauto 10. }
  split.
  - unfold enter_node. destruct (delayed c e); [by left|]. destruct (GetNodeInfo _ _) as [cl r].
    set (next := match r with Ok _ => _ | _ => _ end). destruct next as [[changed [n|]]|]; [|by left..].
    case_bool_decide; [by left|apply Hs].
  - unfold enter_start. destruct (GetNodeInfo _ _) as [cl [n|err|w]]; [|by left..]. case_bool_decide; [by left|].
    destruct (if is_PConfigurable then _ else _) as [i [[]|err|w]]; [apply Hs|by left..].
Qed.

(** Counting through a pointer, as an int64 sum. *)
Lemma count_held d uid a l f n x :
  (∀ u, u_UID (f u) = u_UID u ∧
        cnt d uid (f u) = if bool_decide (u_UID u = uid) then i64 (cnt d uid u + n) else cnt d uid u) →
  i64 (x + held d uid (update_user a l f))
  = i64 (x + held d uid a + match a_heap a !! l with
                            | Some u => if bool_decide (u_UID u = uid) then n else 0 | None => 0 end).
Proof.
  intros Hf. unfold held. cbn [update_user a_heap]. rewrite sum_by_alter.
  destruct (a_heap a !! l) as [u|]; [|f_equal; lia]. destruct (Hf u) as [_ ->].
  case_bool_decide; [|f_equal; lia]. set (X := sum_by _ _). set (s := cnt d uid u).
  replace (x + (X + (i64 (s + n) - s))) with (i64 (s + n) + (x + X - s)) by lia. rewrite i64_add. f_equal. lia.
Qed.

Lemma m_step_total d uid m mv : i64 (m_total d uid (m_step m mv)) = i64 (m_total d uid m + m_bytes d uid m mv).
Proof.
  destruct mv as [e|e|e| | |user source|l n|l n|now u host]; cbn [m_bytes]; rewrite ?Z.add_0_r.
  - f_equal. cbn [m_step]. destruct (m_sync m) eqn:Es; [|done..].
    destruct (enter_start_calm (m_c m) e) as [[Hh _] _]. pose proof (proj2 (enter_fresh (m_c m) e)) as Hf.
    destruct (enter_start (m_c m) e) as [c pc]. cbn [fst snd] in *. unfold m_total, in_flight. cbn [m_c m_sync m_user m_ledger].
    rewrite Hh, Es. by destruct Hf as [->|(e' & k & l & dd & ->)].
  - f_equal. cbn [m_step]. destruct (m_sync m) eqn:Es; [|done..].
    destruct (enter_node_calm (m_c m) e) as [[Hh _] _]. pose proof (proj1 (enter_fresh (m_c m) e)) as Hf.
    destruct (enter_node (m_c m) e) as [c pc]. cbn [fst snd] in *. unfold m_total, in_flight. cbn [m_c m_sync m_user m_ledger].
    rewrite Hh, Es. by destruct Hf as [->|(e' & k & l & dd & ->)].
  - f_equal. cbn [m_step]. destruct (m_user m) eqn:Eu; [|done]. unfold enter_user.
    destruct (delayed (m_c m) e); unfold m_total, in_flight; cbn [m_c m_sync m_user m_ledger]; rewrite Eu; [done|].
    destruct (e_sys e) as [s|err|w]; [|done..]. by destruct (call_status_frame (m_c m) e s) as [-> _].
  - f_equal. cbn [m_step]. pose proof (sync_step_total d uid (m_c m) (m_sync m) (m_user m) (m_ledger m)) as Ht.
    destruct (sync_step _ _) as [[c pc] es]. rewrite Ht. by destruct m.
  - f_equal. cbn [m_step]. pose proof (user_step_total d uid (m_c m) (m_user m) (m_sync m) (m_ledger m)) as Ht.
    destruct (user_step _ _) as [[c pc] es]. rewrite Ht. by destruct m.
  - f_equal. unfold m_total. f_equal. cbn. unfold LoadOrCreateUserCounter. destruct (LoadUser _ _) as [l|]; [|done].
    cbn. apply held_update. intros v. unfold AddIP, MarkCounterAttached. by repeat case_match.
  - unfold m_total. cbn [m_step with_c m_c m_ledger ctl_step bytes k_author with_author]. destruct d.
    + apply count_held. intros v. split; [done|]. unfold cnt. cbn. by destruct (bool_decide (u_UID v = uid)).
    + rewrite Z.add_0_r. f_equal. f_equal. by apply held_update.
  - unfold m_total. cbn [m_step with_c m_c m_ledger ctl_step bytes k_author with_author]. destruct d.
    + rewrite Z.add_0_r. f_equal. f_equal. by apply held_update.
    + apply count_held. intros v. split; [done|]. unfold cnt. cbn. by destruct (bool_decide (u_UID v = uid)).
  - f_equal. unfold m_total. f_equal. cbn. unfold MatchAudit. case_bool_decide; [done|].
    destruct (k_detectRules _) as [rules|]; [|done]. destruct (first_match host rules) as [id|]; [|done].
    cbn. unfold recordDetect. destruct (_ !! _); [case_bool_decide|]; done.
Qed.

Lemma m_run_total d uid m mvs : i64 (m_total d uid (foldl m_step m mvs)) = i64 (m_total d uid m + m_counted d uid m mvs).
Proof.
  revert m. induction mvs as [|mv mvs IH]; intros m; cbn [foldl m_counted]; [by rewrite Z.add_0_r|].
  rewrite IH, <- i64_add, m_step_total, i64_add. f_equal. lia.
Qed.

(** *** Reports and the ledger *)

Lemma sync_step_calls c (pc : @sync_pc W WI) :
  let '(c', _, es) := sync_step c pc in
  traffic_calls (k_calls c') = traffic_calls (k_calls c) ++ omap entry_report es.
Proof.
  destruct pc as [|e k l dd [|h todo] dn report|e k l dd|e k dd [|h todo]|e k dd [|h todo]|e k dd [|h todo]];
    cbn [sync_step]; try (cbn; by rewrite app_nil_r).
  - case_bool_decide; [cbn; by rewrite app_nil_r|]. destruct (call_traffic_frame c e report) as [_ E].
    destruct (call_traffic c e report) as [c' [[]|err|w]]; exact E.
  - destruct (dump_user _ h). cbn. by rewrite app_nil_r.
  - destruct (if negb _ then _ else _) as [i [[]|err|w]]; cbn; by rewrite app_nil_r.
  - cbn. destruct (abs _ !! h); cbn; by rewrite app_nil_r.
  - destruct (sync_return_calm c e k (Ok tt)) as [_ ->]. by rewrite app_nil_r.
  - destruct (install_user_calm (d_next dd) c h) as [_ ->]. by rewrite app_nil_r.
Qed.

Lemma user_step_calls c (pc : @user_pc W WI) :
  let '(c', _, es) := user_step c pc in
  traffic_calls (k_calls c') = traffic_calls (k_calls c) ++ omap entry_report es.
Proof.
  destruct pc as [|e [|l todo] traffic online]; cbn [user_step]; [cbn; by rewrite app_nil_r| |].
  - set (p := if bool_decide (traffic = []) then _ else _).
    assert (traffic_calls (k_calls p.1) = traffic_calls (k_calls c) ++ omap entry_report p.2) as Ep.
    { unfold p. case_bool_decide; [cbn; by rewrite app_nil_r|]. destruct (call_traffic_frame c e traffic) as [_ E].
      destruct (call_traffic c e traffic) as [c' [[]|err|w]]; exact E. }
    destruct p as [c1 es]. cbn [fst snd drainDetectResults] in *. rewrite <- Ep.
    set (c2 := if bool_decide (online = []) then c1 else _).
    assert (traffic_calls (k_calls c2) = traffic_calls (k_calls c1)) as <-
      by (unfold c2; case_bool_decide; [done|apply call_online_frame]).
    case_bool_decide; [done|]. by rewrite (proj2 (call_illegal_frame _ _ _)).
  - destruct (report_user _ l) as [[a tr] on]. cbn. by rewrite app_nil_r.
Qed.

Lemma m_step_calls m mv :
  traffic_calls (k_calls (m_c m)) = omap entry_report (m_ledger m) →
  traffic_calls (k_calls (m_c (m_step m mv))) = omap entry_report (m_ledger (m_step m mv)).
Proof.
  intros Hm. destruct mv as [e|e|e| | |user source|l n|l n|now u host]; cbn [m_step].
  - destruct (m_sync m); [|done..]. destruct (enter_start_calm (m_c m) e) as [_ E].
    destruct (enter_start (m_c m) e). cbn [m_c m_ledger fst] in *. by rewrite E.
  - destruct (m_sync m); [|done..]. destruct (enter_node_calm (m_c m) e) as [_ E].
    destruct (enter_node (m_c m) e). cbn [m_c m_ledger fst] in *. by rewrite E.
  - destruct (m_user m); [|done]. unfold enter_user. destruct (delayed (m_c m) e); [done|].
    destruct (e_sys e) as [s|err|w]; [|done..]. cbn [m_c m_ledger]. by rewrite (proj2 (call_status_frame _ _ _)).
  - pose proof (sync_step_calls (m_c m) (m_sync m)) as E. destruct (sync_step _ _) as [[c pc] es].
    cbn [m_c m_ledger]. by rewrite omap_app, E, Hm.
  - pose proof (user_step_calls (m_c m) (m_user m)) as E. destruct (user_step _ _) as [[c pc] es].
    cbn [m_c m_ledger]. by rewrite omap_app, E, Hm.
  - cbn. unfold LoadOrCreateUserCounter. by destruct (LoadUser _ _).
  - done.
  - done.
  - cbn. unfold MatchAudit. case_bool_decide; [done|].
    destruct (k_detectRules _) as [rules|]; [|done]. destruct (first_match host rules) as [id|]; [|done].
    cbn. unfold recordDetect. destruct (_ !! _); [case_bool_decide|]; done.
Qed.

(** *** The window of a deletion *)

(** The users that were drained for their deletion and are not deleted yet. *)
Definition awaiting (pc : @sync_pc W WI) : list string :=
  match pc with
  | SDump _ _ _ _ _ dn _ => dn
  | SApply _ _ _ dd => d_deleted dd
  | SDel _ _ _ todo => todo
  | _ => []
  end.

(** A move that counts nothing on such a user. *)
Definition quiet_move m (mv : @move W WI) : Prop :=
  match mv with
  | MSent l _ | MRecv l _ => ∀ h, h ∈ awaiting (m_sync m) → a_users (k_author (m_c m)) !! h ≠ Some l
  | _ => True
  end.
Fixpoint quiet_run m (mvs : list (@move W WI)) : Prop :=
  match mvs with [] => True | mv :: mvs => quiet_move m mv ∧ quiet_run (m_step m mv) mvs end.

Record settled m : Prop := {
  settled_ok : auth_ok (k_author (m_c m));
  settled_awaiting : all_drained (awaiting (m_sync m)) (k_author (m_c m));
  settled_dump : match m_sync m with SDump _ _ _ dd todo dn _ => d_deleted dd = dn ++ todo | _ => True end;
  settled_ledger : ∀ u, Dropped u ∈ m_ledger m → drained u }.

Lemma all_drained_nil a : all_drained [] a.
Proof. by intros h u ?%not_elem_of_nil. Qed.
#[local] Hint Resolve all_drained_nil : core.

Lemma sync_step_settled c pc up lg :
  settled {| m_c := c; m_sync := pc; m_user := up; m_ledger := lg |} →
  let '(c', pc', es) := sync_step c pc in
  settled {| m_c := c'; m_sync := pc'; m_user := up; m_ledger := lg ++ es |}.
Proof.
  intros [Hok Haw Hdd Hlg]. cbn [m_c m_sync m_user m_ledger] in *.
  assert (∀ c' pc', auth_ok (k_author c') → all_drained (awaiting pc') (k_author c') →
    match pc' with SDump _ _ _ dd todo dn _ => d_deleted dd = dn ++ todo | _ => True end →
    settled {| m_c := c'; m_sync := pc'; m_user := up; m_ledger := lg ++ [] |}) as Hkeep.
  { intros c' pc' H3 H4 H5. split; [done..|]. cbn. by rewrite app_nil_r. }
  destruct pc as [|e k l dd [|h todo] dn report|e k l dd|e k dd [|h todo]|e k dd [|h todo]|e k dd [|h todo]];
    cbn [sync_step]; try (apply Hkeep; cbn; by auto).
  - rewrite app_nil_r in Hdd. subst dn. cbn in Haw. case_bool_decide; [by apply Hkeep|].
    destruct (call_traffic_frame c e report) as [Ea _]. destruct (call_traffic c e report) as [c' r].
    cbn [fst] in Ea. split; cbn [m_c m_sync m_ledger awaiting]; rewrite ?Ea; [done..|].
    intros u [Hu|Hu]%elem_of_app; [by apply Hlg|]. by destruct r as [[]|err|w]; apply list_elem_of_singleton in Hu.
  - pose proof (drained_dump dn (k_author c) report h Haw) as Hd.
    pose proof (dump_user_faces (k_author c, report) h) as Hf.
    destruct (dump_user (k_author c, report) h) as [a report']. apply Hkeep; cbn [k_author with_author fst] in *.
    + by rewrite <- Hf.
    + done.
    + by rewrite <- app_assoc.
  - destruct (if negb _ then _ else _) as [i [[]|err|w]]; apply Hkeep; cbn; auto; by destruct k.
  - split; cbn [m_c m_sync m_ledger awaiting k_author with_author].
    + by apply auth_ok_DelUser.
    + by apply drained_DelUser.
    + done.
    + intros u [Hu|Hu]%elem_of_app; [by apply Hlg|]. destruct (abs (k_author c) !! h) as [v|] eqn:Ev; [|by apply not_elem_of_nil in Hu].
      apply list_elem_of_singleton in Hu. simplify_eq. eapply Haw; [left|done].
  - apply Hkeep; cbn; auto. unfold add_user. destruct (d_next dd !! h); [by apply auth_ok_AddUser|done].
  - apply Hkeep; [|cbn; auto..]. by apply (sync_return_calm c e k (Ok tt)).
  - apply Hkeep; [|cbn; auto..]. by apply (install_user_calm (d_next dd) c h).
Qed.

Lemma report_user_shape a tr on l :
  (report_user (a, tr, on) l).1.1 = a
  ∨ ∃ u v, a_heap a !! l = Some u ∧ u_hash v = u_hash u ∧ drained v
      ∧ (report_user (a, tr, on) l).1.1 = update_user a l (λ _, v).
Proof.
  unfold report_user. destruct (a_heap a !! l) as [u|]; [|by left]. right. exists u. cbn [ResetTraffic ResetIPTable].
  destruct (_ && _); cbn [trafficForSSPanel fst]; eexists; (split_and!; [done|..|reflexivity]); done.
Qed.

Lemma auth_ok_set a l u v : a_heap a !! l = Some u → u_hash v = u_hash u → auth_ok a → auth_ok (update_user a l (λ _, v)).
Proof.
  intros Hu Hv Hok h k (w & Hw & <-)%Hok. cbn. destruct (decide (k = l)) as [->|Hne].
  - exists v. rewrite list_lookup_alter_eq, Hw. split; [done|]. congruence.
  - exists w. by rewrite list_lookup_alter_ne.
Qed.

Lemma user_step_settled c pc sp lg :
  settled {| m_c := c; m_sync := sp; m_user := pc; m_ledger := lg |} →
  let '(c', pc', es) := user_step c pc in
  settled {| m_c := c'; m_sync := sp; m_user := pc'; m_ledger := lg ++ es |}.
Proof.
  intros [Hok Haw Hdd Hlg]. cbn [m_c m_sync m_user m_ledger] in *.
  destruct pc as [|e [|l todo] traffic online]; cbn [user_step].
  - by split; cbn; rewrite ?app_nil_r.
  - set (p := if bool_decide (traffic = []) then _ else _).
    assert (k_author p.1 = k_author c ∧ ∀ u, Dropped u ∉ p.2) as [Ea Hno].
    { unfold p. case_bool_decide; [split; [done|]; by intros u ?%not_elem_of_nil|].
      destruct (call_traffic_frame c e traffic) as [E _]. destruct (call_traffic c e traffic) as [c' r].
      split; [done|]. by destruct r as [[]|err|w]; intros u ?%list_elem_of_singleton. }
    destruct p as [c1 es]. cbn [fst snd drainDetectResults] in *.
    set (c2 := if bool_decide (online = []) then c1 else _).
    assert (k_author c2 = k_author c) as E2
      by (unfold c2; case_bool_decide; [done|by rewrite (proj1 (call_online_frame _ _ _))]).
    set (c3 := if bool_decide _ then _ else _). assert (k_author c3 = k_author c) as E3.
    { unfold c3. case_bool_decide; [done|by rewrite (proj1 (call_illegal_frame _ _ _))]. }
    split; cbn [m_c m_sync m_ledger]; rewrite ?E3; [done..|].
    intros u [Hu|Hu]%elem_of_app; [by apply Hlg|by destruct (Hno u)].
  - pose proof (report_user_shape (k_author c) traffic online l) as Hs.
    destruct (report_user _ l) as [[a tr] on]. cbn [fst] in Hs.
    split; cbn [m_c m_sync m_ledger k_author with_author]; rewrite ?app_nil_r; [..|done].
    + destruct Hs as [->|(u & v & Hu & Hv & _ & ->)]; [done|by eapply auth_ok_set].
    + destruct Hs as [->|(u & v & _ & _ & Hv & ->)]; [done|by apply drained_update].
    + done.
Qed.

Lemma settled_author m a :
  auth_ok a → all_drained (awaiting (m_sync m)) a → settled m → settled (with_c m (with_author (m_c m) a)).
Proof. intros H3 H4 [_ _ H5 H6]. by split. Qed.

Lemma settled_enter m c pc :
  settled m → auth_ok (k_author c) → fresh_sync pc →
  settled {| m_c := c; m_sync := pc; m_user := m_user m; m_ledger := m_ledger m |}.
Proof.
  intros [_ _ _ Hlg] Hok Hf. split; cbn [m_c m_sync m_ledger]; [done| | |done].
  - destruct Hf as [->|(e & k & l & dd & ->)]; cbn; auto.
  - by destruct Hf as [->|(e & k & l & dd & ->)].
Qed.

Lemma m_step_settled m mv : quiet_move m mv → settled m → settled (m_step m mv).
Proof.
  intros Hq Hm. destruct mv as [e|e|e| | |user source|l n|l n|now u host]; cbn [m_step].
  - destruct (m_sync m); [|done..]. destruct (enter_start_calm (m_c m) e) as [[_ Hg] _].
    pose proof (proj2 (enter_fresh (m_c m) e)) as Hf. destruct (enter_start _ _). apply settled_enter; [done|apply Hg, Hm|done].
  - destruct (m_sync m); [|done..]. destruct (enter_node_calm (m_c m) e) as [[_ Hg] _].
    pose proof (proj1 (enter_fresh (m_c m) e)) as Hf. destruct (enter_node _ _). apply settled_enter; [done|apply Hg, Hm|done].
  - destruct (m_user m); [|done]. unfold enter_user. destruct Hm as [H3 H4 H5 H6].
    destruct (delayed (m_c m) e); [by split|]. destruct (e_sys e) as [s|err|w]; [|by split..].
    split; cbn [m_c m_sync m_ledger]; rewrite ?(proj1 (call_status_frame _ _ _)); done.
  - pose proof (sync_step_settled (m_c m) (m_sync m) (m_user m) (m_ledger m)) as Hs.
    destruct (sync_step _ _) as [[c pc] es]. apply Hs. by destruct m.
  - pose proof (user_step_settled (m_c m) (m_user m) (m_sync m) (m_ledger m)) as Hs.
    destruct (user_step _ _) as [[c pc] es]. apply Hs. by destruct m.
  - cbn. unfold LoadOrCreateUserCounter. destruct (LoadUser _ _) as [l|]; [|by destruct m].
    assert (∀ v, u_hash (AddIP (MarkCounterAttached v).1 source).1 = u_hash v
                 ∧ (drained v → drained (AddIP (MarkCounterAttached v).1 source).1)) as Hf.
    { intros v. unfold AddIP, MarkCounterAttached. by repeat case_match. }
    apply settled_author; [apply auth_ok_update; [apply Hf|apply Hm]| |done]. apply drained_update; [|apply Hm].
    intros v _. apply Hf.
  - apply settled_author; [by apply auth_ok_update, Hm| |done]. by apply drained_update_other, Hm.
  - apply settled_author; [by apply auth_ok_update, Hm| |done]. by apply drained_update_other, Hm.
  - assert (k_author (MatchAudit (m_c m) now u host).1 = k_author (m_c m)) as Ea.
    { unfold MatchAudit. case_bool_decide; [done|]. destruct (k_detectRules _) as [rules|]; [|done].
      destruct (first_match host rules) as [id|]; [|done]. cbn. unfold recordDetect. destruct (_ !! _); [case_bool_decide|]; done. }
    destruct Hm as [H3 H4 H5 H6]. split; cbn [with_c ctl_step m_c m_sync m_ledger]; rewrite ?Ea; done.
Qed.

Lemma quiet_run_settled m mvs : quiet_run m mvs → settled m → settled (foldl m_step m mvs).
Proof.
  revert m. induction mvs as [|mv mvs IH]; intros m Hq Hm; [done|]. destruct Hq as [Hq Hqs].
  apply IH; [done|by apply m_step_settled].
Qed.

Lemma drained_ledger d uid es : (∀ u, Dropped u ∈ es → drained u) → sum_by (dropped_bytes d uid) es = 0.
Proof.
  intros Hes. induction es as [|en es IH]; [done|]. cbn. rewrite IH by (intros u Hu; apply Hes; by right).
  destruct en as [l|l|u]; [done..|]. cbn. rewrite drained_cnt; [done|]. apply Hes. left.
Qed.

(** (C3) Where every counted byte goes.  In any interleaving of the steps of a
    start, of node ticks (which add, change and delete users, or fail), of user
    ticks and of connections counting in between, also through pointers of
    deleted users, the bytes counted for a UID in one direction are, as int64
    sums, those in reports the panel accepted, plus those in reports it did not
    accept (whose bytes the code gives up), plus those dropped when a deleted
    user was closed, plus those drained into a report not sent yet, plus those
    still in user objects (also in those of deleted users, which connections
    still open go on counting in and nothing reports); the reports are exactly the traffic calls made, in
    order.  And bytes are dropped only in the window of a deletion: if no
    connection counts on a user between the drain made for its deletion and the
    deletion, nothing is dropped. *)
Theorem bytes_conserved d uid config (client : C) (inbound : I) now mvs :
  let m0 := m_init (new_controller config client inbound now) in
  let m := foldl m_step m0 mvs in
  i64 (sum_by (accepted_bytes d uid) (m_ledger m) + sum_by (refused_bytes d uid) (m_ledger m)
       + sum_by (dropped_bytes d uid) (m_ledger m) + in_flight d uid m + held d uid (k_author (m_c m)))
  = i64 (m_counted d uid m0 mvs)
  ∧ traffic_calls (k_calls (m_c m)) = omap entry_report (m_ledger m)
  ∧ (quiet_run m0 mvs → sum_by (dropped_bytes d uid) (m_ledger m) = 0).
Proof.
  intros m0 m. split_and!.
  - exact (m_run_total d uid m0 mvs).
  - unfold m. assert (traffic_calls (k_calls (m_c m0)) = omap entry_report (m_ledger m0)) as H0' by done.
    revert H0'. generalize m0. clear. induction mvs as [|mv mvs IH]; intros m0 Hm; [done|].
    apply IH. by apply m_step_calls.
  - intros Hq. apply drained_ledger. apply (quiet_run_settled m0 mvs Hq). split; cbn; auto.
    + intros h l Hl. unfold NewAuthenticator in Hl. cbn in Hl. by rewrite lookup_empty in Hl.
    + by intros u ?%not_elem_of_nil.
Qed.
End conservation.

(** ** Concrete interleavings *)

#[local] Existing Instance Naive.naive_users.

(** u1 is deleted while u2 keeps counting; the report of u1 is refused or
    accepted as the script says. *)
Definition start_moves : list (@move script bool) :=
  MStart (env0 true (script1 (node0 443 0) [user0 1 "a" 7; user0 2 "b" 0]))
  :: replicate 12 MSyncStep ++ [MConnect "u1" "9.9.9.9"; MSent 0 10].
Definition delete_moves (late : list (@move script bool)) : list (@move script bool) :=
  start_moves
  ++ [MNode (env0 true (script1 (node0 443 0) [user0 2 "b" 0])); MSyncStep; MSyncStep] ++ late
  ++ replicate 6 MSyncStep ++ [MUser (env0 true script0)] ++ replicate 3 MUserStep.

Definition machine0 : @machine unit script Naive.userTable bool := m_init (new_controller config0 tt Naive.empty_table 0).
Definition late_machine (late : list (@move script bool)) : @machine unit script Naive.userTable bool :=
  foldl m_step machine0 (delete_moves late).

(** u1 counts 10 bytes, is drained and reported, and deleted; u2's 3 bytes fall
    in the window, are kept, and go out with the next user tick. *)
Lemma bytes_conserved_witness :
  let m := late_machine [MSent 1 3] in
  i64 (sum_by (accepted_bytes Up 1) (m_ledger m) + sum_by (refused_bytes Up 1) (m_ledger m)
       + sum_by (dropped_bytes Up 1) (m_ledger m) + in_flight Up 1 m + held Up 1 (k_author (m_c m))) = 10
  ∧ traffic_calls (k_calls (m_c m))
    = [[{| ut_UID := 1; ut_Email := ""; ut_Upload := 10; ut_Download := 0 |}];
       [{| ut_UID := 2; ut_Email := ""; ut_Upload := 3; ut_Download := 0 |}]]
  ∧ sum_by (dropped_bytes Up 1) (m_ledger m) = 0.
Proof.
  destruct (bytes_conserved Up 1 config0 tt Naive.empty_table 0 (delete_moves [MSent 1 3])) as (E & Ec & Hq).
  split; [refine (eq_trans E _); vm_compute; reflexivity|].
  split; [refine (eq_trans Ec _); vm_compute; reflexivity|].
  apply Hq. unfold delete_moves, start_moves. cbn [app replicate quiet_run quiet_move]. repeat split.
  - intros h Hh. exfalso. revert Hh. set (l := awaiting _). assert (l = []) as -> by (vm_compute; reflexivity).
    apply not_elem_of_nil.
  - intros h Hh. set (l := awaiting _) in Hh. assert (l = ["u1"]) as E1 by (vm_compute; reflexivity).
    rewrite E1 in Hh. apply list_elem_of_singleton in Hh as ->. vm_compute. discriminate.
Defined.

(** A connection of the user being deleted that counts after the drain and
    before the deletion: its 5 bytes are in no report and in no counter. *)
Lemma late_bytes_dropped :
  let m := late_machine [MSent 0 5] in
  m_sync m = SIdle ∧ m_user m = UIdle
  ∧ m_counted Up 1 machine0 (delete_moves [MSent 0 5]) = 15
  ∧ reported Up 1 (k_calls (m_c m)) = 10 ∧ held Up 1 (k_author (m_c m)) = 0
  ∧ sum_by (dropped_bytes Up 1) (m_ledger m) = 5.
Proof. vm_compute. repeat split; reflexivity. Qed.
