(* ===== verification/Reload.v ===== *)
(** * Hot reload of the panel-driven inbounds

    ConfigureFromPanelNode lets the panel move an inbound to another port or
    another SNI while it serves.  The three inbounds do it differently: anytls
    and naive start the new listener before they close the old one and swap the
    TLS configuration in place, hysteria2 rebuilds its QUIC service and, when
    the port stays, has to close the old socket first.  The model keeps the
    sockets and the started TLS configurations the process holds, so that
    rollback and leaks can be stated.  This file has what the three share; each
    inbound has its own file. *)

From S2P Require Import Prelude GoStrings Float64 Api.

Open Scope Z_scope.

(** ** Options and resources shared by the inbounds *)

(** option.InboundTLSOptions, the fields the reload reads or writes. *)
Record tls_opts := { tls_Enabled : bool; tls_ServerName : string; tls_ALPN : list string }.
(** The protocol's inbound options: the port, and the TLS block. *)
Record lopts := { o_ListenPort : Z; o_TLS : option tls_opts }.

#[export] Instance tls_opts_eq_dec : EqDecision tls_opts.
Proof. solve_decision. Defined.
#[export] Instance lopts_eq_dec : EqDecision lopts.
Proof. solve_decision. Defined.

(** A socket: (is it TCP, port). *)
Definition sock : Type := bool * Z.
Definition tcp (port : Z) : sock := (true, port).
Definition udp (port : Z) : sock := (false, port).

(** What the machine answers while a call runs: [None] is success. *)
Record machine := {
  m_tls_new : tls_opts → option error;      (* tls.NewServer: certificates, keys *)
  m_tls_start : tls_opts → option error;    (* ServerConfig.Start *)
  m_bind : sock → option error;             (* ports held by other processes *)
  m_serve : sock → option (bool * error);   (* the QUIC stack on a bound UDP socket; on failure,
                                               whether it closed the socket *)
  m_build : option error;                   (* what else buildComponents needs *)
}.

(** A TLS configuration object and a listener object. *)
Record tls_conf := { tc_opts : tls_opts; tc_alpn : list string; tc_started : bool }.
Record lis := { ln_port : Z; ln_socks : gset sock }.

(** Sockets and started TLS configurations held by the process. *)
Record resources := { r_socks : gset sock; r_tls : Z }.

Definition new_listener (o : lopts) : lis := {| ln_port := o_ListenPort o; ln_socks := ∅ |}.
Definition new_tls (t : tls_opts) : tls_conf := {| tc_opts := t; tc_alpn := tls_ALPN t; tc_started := false |}.

(** listenConfig.Listen: a socket this process holds cannot be bound again. *)
Definition bind (m : machine) (r : resources) (l : lis) (s : sock) : resources * lis * result unit :=
  if bool_decide (s ∈ r_socks r) then (r, l, Err (EStd "bind: address already in use"))
  else match m_bind m s with
       | Some e => (r, l, Err e)
       | None => ({| r_socks := {[s]} ∪ r_socks r; r_tls := r_tls r |},
                  {| ln_port := ln_port l; ln_socks := {[s]} ∪ ln_socks l |}, Ok tt)
       end.
Definition close_listener (r : resources) (l : lis) : resources * lis :=
  ({| r_socks := r_socks r ∖ ln_socks l; r_tls := r_tls r |}, {| ln_port := ln_port l; ln_socks := ∅ |}).

(** The socket is closed by someone else than the listener. *)
Definition drop_sock (r : resources) (l : lis) (s : sock) : resources * lis :=
  ({| r_socks := r_socks r ∖ {[s]}; r_tls := r_tls r |},
   {| ln_port := ln_port l; ln_socks := ln_socks l ∖ {[s]} |}).

(** Bring a QUIC service up on the listener's UDP port. *)
Definition serve_udp (m : machine) (r : resources) (l : lis) : resources * lis * result unit :=
  let s := udp (ln_port l) in
  match bind m r l s with
  | (r, l, Ok _) =>
      match m_serve m s with
      | None => (r, l, Ok tt)
      | Some (closed, e) => let '(r, l) := if closed : bool then drop_sock r l s else (r, l) in (r, l, Err e)
      end
  | bad => bad
  end.

(** A TLS configuration holds a resource (its watchers and ACME service) from a
    Start that succeeded on.  Of a Start that failed the library is taken to
    leave nothing running. *)
Definition start_tls (m : machine) (r : resources) (t : tls_conf) : resources * tls_conf * result unit :=
  match m_tls_start m (tc_opts t) with
  | Some e => (r, t, Err e)
  | None => ({| r_socks := r_socks r; r_tls := r_tls r + 1 |},
             {| tc_opts := tc_opts t; tc_alpn := tc_alpn t; tc_started := true |}, Ok tt)
  end.
Definition close_tls (r : resources) (t : tls_conf) : resources :=
  {| r_socks := r_socks r; r_tls := r_tls r - (if tc_started t then 1 else 0) |}.
Definition close_tls_opt (r : resources) (t : option tls_conf) : resources :=
  match t with Some t => close_tls r t | None => r end.

(** The options a node asks for: the panel's port, and its host as SNI; the
    TLS block is copied before it is changed. *)
Definition panel_opts (o : lopts) (n : NodeInfo) : lopts :=
  {| o_ListenPort := u16 (ni_Port n);
     o_TLS :=
       if bool_decide (ni_Host n = "") then o_TLS o
       else match o_TLS o with
            | None => Some {| tls_Enabled := true; tls_ServerName := ni_Host n; tls_ALPN := [] |}
            | Some t => Some {| tls_Enabled := tls_Enabled t; tls_ServerName := ni_Host n; tls_ALPN := tls_ALPN t |}
            end |}.
Definition sni (o : lopts) : string := match o_TLS o with Some t => tls_ServerName t | None => "" end.
Definition tls_enabled (o : lopts) : option tls_opts :=
  match o_TLS o with Some t => if tls_Enabled t then Some t else None | None => None end.

(** The two guards in front of every reload. *)
Definition check_node (inboundType portError : string) (n : NodeInfo) : option error :=
  if bool_decide (ni_NodeType n ≠ inboundType) then Some (NodeTypeMismatch inboundType (ni_NodeType n))
  else if bool_decide (ni_Port n ≤ 0) || bool_decide (65535 < ni_Port n)
       then Some (EFmt portError [Itoa (ni_Port n)])
  else None.

(** ** Shared lemmas *)

Lemma resources_eq r r' : r_socks r = r_socks r' → r_tls r = r_tls r' → r = r'.
Proof. destruct r, r'; cbn. congruence. Qed.

Lemma check_node_ok ty pe n :
  check_node ty pe n = None → ni_NodeType n = ty ∧ 0 < ni_Port n ≤ 65535.
Proof.
  unfold check_node. case_bool_decide as Ht; [done|].
  destruct (bool_decide (ni_Port n ≤ 0)) eqn:E1; [done|]. destruct (bool_decide (65535 < ni_Port n)) eqn:E2; [done|].
  apply bool_decide_eq_false in E1, E2. intros _. split; [done|lia].
Qed.

Lemma panel_opts_sni o n :
  sni (panel_opts o n) = sni o → o_TLS (panel_opts o n) = o_TLS o.
Proof.
  unfold sni, panel_opts. cbn. case_bool_decide as Hh; [done|].
  destruct (o_TLS o) as [[en sn alpn]|]; cbn; intros E; [by rewrite E|done].
Qed.

Lemma panel_opts_same o n :
  o_ListenPort (panel_opts o n) = o_ListenPort o → sni (panel_opts o n) = sni o → panel_opts o n = o.
Proof.
  intros Ep Es%panel_opts_sni. destruct (panel_opts o n), o; cbn in *. congruence.
Qed.

Lemma panel_opts_enabled o n :
  sni (panel_opts o n) = sni o → tls_enabled (panel_opts o n) = tls_enabled o.
Proof. intros E%panel_opts_sni. unfold tls_enabled. by rewrite E. Qed.

(** A panel host turns TLS on when there was none, and otherwise leaves the
    switch alone. *)
Lemma panel_opts_off o n : tls_enabled (panel_opts o n) = None → tls_enabled o = None.
Proof.
  unfold tls_enabled, panel_opts. cbn. case_bool_decide; [done|].
  destruct (o_TLS o) as [[[] sn alpn]|]; cbn; done.
Qed.

(** The number of started TLS configurations a serving inbound has. *)
Definition tls_count (o : lopts) : Z := match tls_enabled o with Some _ => 1 | None => 0 end.

Lemma bind_cases m r l s :
  (∃ e, bind m r l s = (r, l, Err e))
  ∨ ((s ∉ r_socks r) ∧ bind m r l s = ({| r_socks := {[s]} ∪ r_socks r; r_tls := r_tls r |},
                  {| ln_port := ln_port l; ln_socks := {[s]} ∪ ln_socks l |}, Ok tt)).
Proof.
  unfold bind. case_bool_decide; [left; eauto|]. destruct (m_bind m s); [left|right]; eauto.
Qed.

Lemma start_tls_cases m r t :
  (∃ e, start_tls m r t = (r, t, Err e))
  ∨ start_tls m r t = ({| r_socks := r_socks r; r_tls := r_tls r + 1 |},
                       {| tc_opts := tc_opts t; tc_alpn := tc_alpn t; tc_started := true |}, Ok tt).
Proof. unfold start_tls. destruct (m_tls_start m _); [left|right]; eauto. Qed.

(** ** A machine on which everything works, and ones on which something fails *)

Definition fine : machine :=
  {| m_tls_new _ := None; m_tls_start _ := None; m_bind _ := None; m_serve _ := None; m_build := None |}.
Definition port_taken : machine :=
  {| m_tls_new _ := None; m_tls_start _ := None; m_bind _ := Some (EStd "bind"); m_serve _ := None; m_build := None |}.
Definition quic_broken : machine :=
  {| m_tls_new _ := None; m_tls_start _ := None; m_bind _ := None; m_serve _ := Some (false, EStd "quic");
     m_build := None |}.

Definition opts0 : lopts :=
  {| o_ListenPort := 443; o_TLS := Some {| tls_Enabled := true; tls_ServerName := "a.example"; tls_ALPN := [] |} |}.
Definition panel_node (ty host : string) (port : Z) : NodeInfo :=
  {| ni_NodeType := ty; ni_PanelNodeType := ty; ni_NodeID := 1; ni_Port := port; ni_SpeedLimit := 0; ni_AlterID := 0;
     ni_TransportProtocol := "tcp"; ni_FakeType := ""; ni_Host := host; ni_Path := ""; ni_EnableTLS := true;
     ni_EnableVless := false; ni_VlessFlow := ""; ni_CypherMethod := ""; ni_ServerKey := ""; ni_ServiceName := "";
     ni_Header := ""; ni_TrafficRate := float64_of_Z 1; ni_EnableREALITY := false; ni_REALITYConfig := None;
     ni_RelayServer := ""; ni_RelayPort := 0 |}.
