(* ===== verification/AnytlsInbound.v ===== *)
(** * protocol/anytls/inbound.go: the anytls inbound

    Creation, start, shutdown and hot reload of the anytls inbound.  The TLS
    configuration lives outside the service, so a reload swaps the listener and
    the configuration and leaves the service and its users alone. *)

From S2P Require Import Prelude GoStrings Float64 Api PanelUsers Reload.

Open Scope Z_scope.

Section anytls.
Context {Sv : Type}.

Record Inbound := {
  options : lopts; tlsConfig : option tls_conf; listener : lis; service : Sv;
  started : bool; held : resources;
}.

(** NewInbound, once the service exists. *)
Definition NewInbound (m : machine) (o : lopts) (s : Sv) : result Inbound :=
  match tls_enabled o with
  | Some t =>
      match m_tls_new m t with
      | Some e => Err e
      | None => Ok {| options := o; tlsConfig := Some (new_tls t); listener := new_listener o; service := s;
                      started := false; held := {| r_socks := ∅; r_tls := 0 |} |}
      end
  | None => Ok {| options := o; tlsConfig := None; listener := new_listener o; service := s;
                  started := false; held := {| r_socks := ∅; r_tls := 0 |} |}
  end.

(** Before Start: stash the options and rebuild what is not started yet. *)
Definition configure_unstarted (h : Inbound) (m : machine) (newOpts : lopts) : Inbound * result unit :=
  let done (t : option tls_conf) (r : resources) :=
    ({| options := newOpts; tlsConfig := t; listener := new_listener newOpts; service := service h;
        started := started h; held := r |}, Ok tt) in
  match tls_enabled newOpts with
  | Some t =>
      match m_tls_new m t with
      | Some e => (h, Err e)
      | None => done (Some (new_tls t)) (close_tls_opt (held h) (tlsConfig h))
      end
  | None => done (tlsConfig h) (held h)
  end.

(** After Start: the new TLS configuration, built and started. *)
Definition live_tls (h : Inbound) (m : machine) (newOpts : lopts) (sniChanged : bool)
    : resources * result (option tls_conf) :=
  match (if sniChanged then tls_enabled newOpts else None) with
  | None => (held h, Ok None)
  | Some t =>
      match m_tls_new m t with
      | Some e => (held h, Err e)
      | None =>
          match start_tls m (held h) (new_tls t) with
          | (r, tc, Ok _) => (r, Ok (Some tc))
          | (r, _, Err e) => (r, Err (EWrap "start reloaded anytls tls" e))
          | (r, _, Panic w) => (r, Panic w)
          end
      end
  end.

(** Then the new listener, then the swaps. *)
Definition configure_live (h : Inbound) (m : machine) (newOpts : lopts) (portChanged sniChanged : bool)
    : Inbound * result unit :=
  let failed r (bad : result unit) :=
    ({| options := options h; tlsConfig := tlsConfig h; listener := listener h; service := service h;
        started := started h; held := r |}, bad) in
  match live_tls h m newOpts sniChanged with
  | (r, Err e) => failed r (Err e)
  | (r, Panic w) => failed r (Panic w)
  | (r, Ok newTLS) =>
      let lisr : resources * lis * result unit :=
        if portChanged then
          match bind m r (new_listener newOpts) (tcp (o_ListenPort newOpts)) with
          | (r, l, Ok _) => (fst (close_listener r (listener h)), l, Ok tt)
          | (r, _, Err e) =>
              (close_tls_opt r newTLS, listener h, Err (EWrap "start reloaded anytls listener on port " e))
          | (r, _, Panic w) => (r, listener h, Panic w)
          end
        else (r, listener h, Ok tt) in
      match lisr with
      | (r, l, Ok _) =>
          let '(r, t) := match newTLS with
                         | Some nt => (close_tls_opt r (tlsConfig h), Some nt)
                         | None => (r, tlsConfig h)
                         end in
          ({| options := newOpts; tlsConfig := t; listener := l; service := service h;
              started := started h; held := r |}, Ok tt)
      | (r, _, bad) => failed r bad
      end
  end.

Definition ConfigureFromPanelNode (h : Inbound) (m : machine) (n : NodeInfo) : Inbound * result unit :=
  match check_node "anytls" "invalid anytls listen port from panel: " n with
  | Some e => (h, Err e)
  | None =>
      let newOpts := panel_opts (options h) n in
      let portChanged := negb (bool_decide (o_ListenPort newOpts = o_ListenPort (options h))) in
      let sniChanged := negb (bool_decide (sni newOpts = sni (options h))) in
      if started h && negb portChanged && negb sniChanged then (h, Ok tt)
      else if negb (started h) then configure_unstarted h m newOpts
      else configure_live h m newOpts portChanged sniChanged
  end.

Definition Start (h : Inbound) (m : machine) : Inbound * result unit :=
  let set t l st r :=
    {| options := options h; tlsConfig := t; listener := l; service := service h; started := st; held := r |} in
  match (match tlsConfig h with
         | Some t => let '(r, t, e) := start_tls m (held h) t in (r, Some t, e)
         | None => (held h, None, Ok tt)
         end) with
  | (r, t, Ok _) =>
      match bind m r (listener h) (tcp (ln_port (listener h))) with
      | (r, l, Ok _) => (set t l true r, Ok tt)
      | (r, l, bad) => (set t l (started h) r, bad)
      end
  | (r, t, bad) => (set t (listener h) (started h) r, bad)
  end.

Definition Close (h : Inbound) : Inbound :=
  let '(r, l) := close_listener (held h) (listener h) in
  let r := close_tls_opt r (tlsConfig h) in
  {| options := options h;
     tlsConfig := (λ t, {| tc_opts := tc_opts t; tc_alpn := tc_alpn t; tc_started := false |}) <$> tlsConfig h;
     listener := l; service := service h; started := started h; held := r |}.
End anytls.
Arguments Inbound : clear implicits.

(** ** Rollback and lifecycle *)

Section facts.
Context {Sv : Type}.
Implicit Types h : Inbound Sv.

Definition running_tls (o : lopts) : option tls_conf :=
  (λ t, {| tc_opts := t; tc_alpn := tls_ALPN t; tc_started := true |}) <$> tls_enabled o.

(** Serving its options: one socket, on the port, and the TLS
    configuration of the options, and nothing else held. *)
Definition up h : Prop :=
  started h = true
  ∧ r_socks (held h) = {[tcp (o_ListenPort (options h))]}
  ∧ ln_socks (listener h) = {[tcp (o_ListenPort (options h))]}
  ∧ tlsConfig h = running_tls (options h)
  ∧ r_tls (held h) = tls_count (options h).

Lemma anytls_live_tls_cases h m o b :
  (∃ e, live_tls h m o b = (held h, Err e))
  ∨ (live_tls h m o b = (held h, Ok None) ∧ (b = true → tls_enabled o = None))
  ∨ (∃ t, b = true ∧ tls_enabled o = Some t ∧
       live_tls h m o b = ({| r_socks := r_socks (held h); r_tls := r_tls (held h) + 1 |},
         Ok (Some {| tc_opts := t; tc_alpn := tls_ALPN t; tc_started := true |}))).
Proof.
  unfold live_tls. destruct b; [|by right; left]. destruct (tls_enabled o) as [t|]; [|by right; left].
  destruct (m_tls_new m t); [left; eauto|].
  destruct (start_tls_cases m (held h) (new_tls t)) as [[e ->]| ->]; [left; eauto|right; right; eauto].
Qed.

(** A reload of a serving inbound, with the panel's options. *)
Lemma anytls_live_cases h m n (o := panel_opts (options h) n) :
  up h →
  let pc := negb (bool_decide (o_ListenPort o = o_ListenPort (options h))) in
  let sc := negb (bool_decide (sni o = sni (options h))) in
  let '(h', r) := configure_live h m o pc sc in
  match r with
  | Ok _ => up h' ∧ options h' = o ∧ service h' = service h
  | Err _ => h' = h
  | Panic _ => False
  end.
Proof.
  intros (Hst & Hso & Hls & Htc & Hrt) pc sc. unfold configure_live.
  assert (sc = false → tls_enabled o = tls_enabled (options h)) as Hsame.
  { intros E%negb_false_iff%bool_decide_eq_true. by apply panel_opts_enabled. }
  assert (pc = false → o_ListenPort o = o_ListenPort (options h)) as Hport.
  { by intros E%negb_false_iff%bool_decide_eq_true. }
  destruct (anytls_live_tls_cases h m o sc) as [[e ->]|[[-> Hn]|(t & Hsc & Ht & ->)]].
  - by destruct h.
  - assert (tls_enabled o = tls_enabled (options h)) as Et.
    { destruct sc eqn:E; [|by apply Hsame]. specialize (Hn eq_refl). rewrite Hn. symmetry. by eapply panel_opts_off. }
    destruct pc eqn:Epc.
    + destruct (bind_cases m (held h) (new_listener o) (tcp (o_ListenPort o))) as [[e ->]|[Hs ->]]; [by destruct h|].
      split; [|done]. unfold up, running_tls, tls_count. cbn. rewrite Et. split_and!; try done;
        rewrite ?Hls, ?Hso in *; set_solver.
    + split; [|done]. unfold up, running_tls, tls_count. cbn [options tlsConfig listener started held].
      rewrite Et, Hport by done. done.
  - assert (r_tls (held h) - match tlsConfig h with Some _ => 1 | None => 0 end = 0) as Hz.
    { rewrite Htc, Hrt. unfold running_tls, tls_count. by destruct (tls_enabled (options h)). }
    assert (∀ r, r_tls (close_tls_opt r (tlsConfig h)) = r_tls r - match tlsConfig h with Some _ => 1 | None => 0 end
                 ∧ r_socks (close_tls_opt r (tlsConfig h)) = r_socks r) as Hcl.
    { intros r. rewrite Htc. unfold running_tls. destruct (tls_enabled (options h)); cbn; split; try done; lia. }
    destruct pc eqn:Epc.
    + destruct (bind_cases m {| r_socks := r_socks (held h); r_tls := r_tls (held h) + 1 |} (new_listener o)
        (tcp (o_ListenPort o))) as [[e ->]|[Hs ->]].
      * destruct h as [ho ht hl hs hst hr]; cbn in *. f_equal. apply resources_eq; cbn; [done|lia].
      * split; [|done]. unfold up, running_tls, tls_count. cbn [options tlsConfig listener started held].
        rewrite Ht. split_and!; try done; [rewrite (proj2 (Hcl _))| |rewrite (proj1 (Hcl _))]; cbn in *;
          [rewrite Hls, Hso in *; set_solver|set_solver|lia].
    + split; [|done]. unfold up, running_tls, tls_count. cbn [options tlsConfig listener started held].
      rewrite Ht. destruct (Hcl {| r_socks := r_socks (held h); r_tls := r_tls (held h) + 1 |}) as [E1 E2].
      rewrite Hport by done. split_and!; try done; [by rewrite E2|rewrite E1; cbn; lia].
Qed.

Lemma anytls_outcome h m n :
  up h →
  let '(h', r) := ConfigureFromPanelNode h m n in
  match r with
  | Ok _ => up h' ∧ options h' = panel_opts (options h) n ∧ o_ListenPort (options h') = ni_Port n
            ∧ service h' = service h
  | Err _ => h' = h
  | Panic _ => False
  end.
Proof.
  intros Hup. unfold ConfigureFromPanelNode.
  destruct (check_node _ _ n) eqn:Ec; [done|]. apply check_node_ok in Ec as [_ Hp].
  pose proof (anytls_live_cases h m n Hup) as Hl. cbn zeta in Hl |- *.
  assert (o_ListenPort (panel_opts (options h) n) = ni_Port n) as Ep by (cbn; apply u16_small; lia).
  rewrite (proj1 Hup) in *. cbn [negb andb].
  destruct (negb (negb _) && negb (negb _)) eqn:E.
  - rewrite !negb_involutive in E. apply andb_true_iff in E as [E1%bool_decide_eq_true E2%bool_decide_eq_true].
    rewrite (panel_opts_same _ _ E1 E2). split_and!; [done..| |done]. by rewrite <- E1.
  - destruct (configure_live _ _ _ _ _) as [h' [[]|e|w]]; [|done..].
    destruct Hl as (Hu & Ho & Hs). by rewrite Ho.
Qed.

(** (C27) A reload of a serving anytls inbound is atomic.  If it succeeds,
    the inbound serves exactly the panel's port with the TLS configuration
    of the panel's SNI; if it fails, for a wrong node type, a port out of
    range, a certificate that does not load, or a port that does not bind,
    nothing has changed: the same socket, the same TLS configuration, and
    no socket or configuration is left open.  The users are kept. *)
Theorem anytls_reload_atomic h m n :
  up h →
  let '(h', r) := ConfigureFromPanelNode h m n in
  match r with
  | Ok _ => up h' ∧ options h' = panel_opts (options h) n ∧ o_ListenPort (options h') = ni_Port n
            ∧ service h' = service h
  | Err _ => h' = h
  | Panic _ => False
  end.
Proof. apply anytls_outcome. Qed.

(** Configured but not started: nothing is held. *)
Definition ready h : Prop :=
  started h = false ∧ held h = {| r_socks := ∅; r_tls := 0 |}
  ∧ listener h = new_listener (options h) ∧ tlsConfig h = new_tls <$> tls_enabled (options h).

Lemma NewInbound_ready m o s h : NewInbound m o s = Ok h → ready h ∧ options h = o ∧ service h = s.
Proof.
  unfold NewInbound. destruct (tls_enabled o) as [t|] eqn:Et; [destruct (m_tls_new m t); [done|]|];
    intros [= <-]; unfold ready; cbn; rewrite Et; done.
Qed.

Lemma configure_ready h m n :
  ready h → let '(h', r) := ConfigureFromPanelNode h m n in
  ready h' ∧ service h' = service h ∧ (is_ok r = true → options h' = panel_opts (options h) n).
Proof.
  intros Hr. pose proof Hr as (Hs & Hh & Hl & Ht). unfold ConfigureFromPanelNode.
  destruct (check_node _ _ n); [done|]. rewrite Hs. cbn [negb andb]. unfold configure_unstarted.
  destruct (tls_enabled (panel_opts (options h) n)) as [t|] eqn:Et.
  - destruct (m_tls_new m t); [done|]. split; [|done]. unfold ready. cbn [options tlsConfig listener started held].
    rewrite Et, Hh, Ht. split_and!; try done. by destruct (tls_enabled (options h)).
  - split; [|done]. unfold ready. cbn [options tlsConfig listener started held].
    rewrite Et, Ht. split_and!; try done. by rewrite (panel_opts_off _ _ Et).
Qed.

Lemma Start_up h m h' : ready h → Start h m = (h', Ok tt) → up h' ∧ options h' = options h ∧ service h' = service h.
Proof.
  intros (Hs & Hh & Hl & Ht). unfold Start. rewrite Hl, Ht, Hh.
  assert (∀ r t, r = {| r_socks := ∅; r_tls := tls_count (options h) |} → t = running_tls (options h) →
    (let '(r', l, ok) := bind m r (new_listener (options h)) (tcp (o_ListenPort (options h))) in
     match ok with
     | Ok _ => ({| options := options h; tlsConfig := t; listener := l; service := service h; started := true; held := r' |}, Ok tt)
     | bad => ({| options := options h; tlsConfig := t; listener := l; service := service h; started := started h; held := r' |}, bad)
     end) = (h', Ok tt) → up h' ∧ options h' = options h ∧ service h' = service h) as Hb.
  { intros r t -> ->. destruct (bind_cases m {| r_socks := ∅; r_tls := tls_count (options h) |} (new_listener (options h))
      (tcp (o_ListenPort (options h)))) as [[e ->]|[_ ->]]; [done|]. intros [= <-].
    split; [|done]. unfold up. cbn. split_and!; try done; set_solver. }
  revert Hb. unfold running_tls, tls_count. destruct (tls_enabled (options h)) as [t|]; cbn [fmap option_fmap option_map].
  - destruct (start_tls_cases m {| r_socks := ∅; r_tls := 0 |} (new_tls t)) as [[e ->]| ->]; [done|]. cbn.
    intros Hb. apply Hb; done.
  - cbn. intros Hb. apply Hb; done.
Qed.

(** From creation to shutdown: an inbound that is created, configured
    by the panel and started, each without error, serves exactly what the
    panel asked for, and Close then releases every socket and every TLS
    configuration, also after any number of reloads. *)
Theorem anytls_lifecycle m o s h n h1 m1 h2 reloads :
  NewInbound m o s = Ok h → ConfigureFromPanelNode h m n = (h1, Ok tt) → Start h1 m1 = (h2, Ok tt) →
  let h3 := foldl (λ h '(m, n), (ConfigureFromPanelNode h m n).1) h2 reloads in
  up h2 ∧ o_ListenPort (options h2) = ni_Port n ∧ service h2 = s
  ∧ up h3 ∧ service h3 = s ∧ held (Close h3) = {| r_socks := ∅; r_tls := 0 |}.
Proof.
  intros (Hr & Ho & Hsv)%NewInbound_ready Hc Hst h3.
  pose proof (configure_ready h m n Hr) as Hr1. rewrite Hc in Hr1. destruct Hr1 as (Hr1 & Hs1 & Ho1).
  destruct (Start_up h1 m1 h2 Hr1 Hst) as (Hu & Ho2 & Hs2).
  assert (up h3 ∧ service h3 = s) as [Hu3 Hs3].
  { unfold h3. apply foldl_inv; [split; congruence|]. intros b [m' n'] _ [Hb Hsb].
    unfold ConfigureFromPanelNode. destruct (check_node _ _ n'); [done|]. cbn zeta.
    rewrite (proj1 Hb). cbn [negb andb].
    destruct (negb (negb _) && negb (negb _)); [done|].
    pose proof (anytls_live_cases b m' n' Hb) as Hl. cbn zeta in Hl.
    destruct (configure_live _ _ _ _ _) as [b' [[]|e|w]]; cbn [fst]; [|by subst|done].
    destruct Hl as (? & _ & ?). split; congruence. }
  split; [done|]. split.
  { rewrite Ho2, Ho1, Ho by done. cbn. apply u16_small. revert Hc. unfold ConfigureFromPanelNode.
    destruct (check_node _ _ n) eqn:Ec; [done|]. apply check_node_ok in Ec. lia. }
  split; [congruence|]. split; [done|]. split; [done|].
  destruct Hu3 as (_ & Hso & Hls & Htc & Hrt). unfold Close. cbn. apply resources_eq.
  - rewrite Htc. unfold running_tls. destruct (tls_enabled (options h3)); cbn; rewrite Hso, Hls; set_solver.
  - rewrite Htc. unfold running_tls. revert Hrt. unfold tls_count. destruct (tls_enabled (options h3)); cbn; lia.
Qed.

(** anytls has no such guard: a panel tick that arrives after Close
    and asks for another port binds it on the closed inbound, and nothing
    closes it any more. *)
Theorem anytls_reopens_after_close h m n :
  up h → ni_NodeType n = "anytls" → 0 < ni_Port n ≤ 65535 → ni_Port n ≠ o_ListenPort (options h) →
  ni_Host n = "" → m_bind m (tcp (ni_Port n)) = None →
  let '(h', r) := ConfigureFromPanelNode (Close h) m n in
  r = Ok tt ∧ r_socks (held (Close h)) = ∅ ∧ r_socks (held h') = {[tcp (ni_Port n)]}.
Proof.
  intros (Hst & Hso & Hls & Htc & Hrt) Ht Hp Hne Hh Hb.
  assert (r_socks (held (Close h)) = ∅) as Hc0.
  { unfold Close. cbn. rewrite Htc. unfold running_tls. destruct (tls_enabled (options h)); cbn; rewrite Hso, Hls; set_solver. }
  assert (options (Close h) = options h ∧ started (Close h) = true ∧ ln_socks (listener (Close h)) = ∅) as (Ho & Hs & Hl) by done.
  revert Hc0 Ho Hs Hl. generalize (Close h). intros c Hc0 Ho Hs Hl. unfold ConfigureFromPanelNode, check_node.
  rewrite (bool_decide_eq_false_2 (ni_NodeType n ≠ "anytls")) by tauto.
  rewrite (bool_decide_eq_false_2 (ni_Port n ≤ 0)), (bool_decide_eq_false_2 (65535 < ni_Port n)) by lia.
  rewrite Ho, Hs. cbn [orb negb andb].
  assert (panel_opts (options h) n = {| o_ListenPort := ni_Port n; o_TLS := o_TLS (options h) |}) as Eo.
  { unfold panel_opts. by rewrite bool_decide_eq_true_2, u16_small by (done || lia). }
  rewrite Eo. cbn [o_ListenPort o_TLS].
  rewrite (bool_decide_eq_false_2 (ni_Port n = _)) by done. rewrite !(bool_decide_eq_true_2 (sni _ = _)) by done.
  cbn [negb andb]. unfold configure_live, live_tls, bind. cbn [o_ListenPort new_listener ln_port ln_socks].
  rewrite (bool_decide_eq_false_2 (tcp (ni_Port n) ∈ r_socks (held c))) by (rewrite Hc0; set_solver). rewrite Hb. cbn. rewrite Hc0, Hl. split_and!; [done..|set_solver].
Qed.
End facts.

(** ** Concrete reloads *)

Definition anytls0 : Inbound unit :=
  match NewInbound fine opts0 tt with Ok h => (Start h fine).1 | _ => Build_Inbound opts0 None (new_listener opts0) tt false {| r_socks := ∅; r_tls := 0 |} end.

Lemma anytls0_up : up anytls0.
Proof. split_and!; vm_compute; reflexivity. Qed.

Lemma anytls_reload_atomic_witness :
  (ConfigureFromPanelNode anytls0 port_taken (panel_node "anytls" "b.example" 8443)).1 = anytls0
  ∧ r_socks (held (ConfigureFromPanelNode anytls0 fine (panel_node "anytls" "b.example" 8443)).1) = {[tcp 8443]}.
Proof.
  split; [|vm_compute; reflexivity].
  pose proof (anytls_reload_atomic anytls0 port_taken (panel_node "anytls" "b.example" 8443) anytls0_up) as Hw.
  vm_compute in Hw. vm_compute. exact Hw.
Defined.

Lemma anytls_lifecycle_witness :
  let h := match NewInbound fine opts0 tt with Ok h => h | _ => anytls0 end in
  let h1 := (ConfigureFromPanelNode h fine (panel_node "anytls" "" 8443)).1 in
  o_ListenPort (options (Start h1 fine).1) = 8443.
Proof.
  intros h h1.
  refine (proj1 (proj2 (anytls_lifecycle fine opts0 tt h (panel_node "anytls" "" 8443) h1 fine (Start h1 fine).1 [] _ _ _)));
    vm_compute; reflexivity.
Defined.

Lemma anytls_reopens_after_close_witness :
  r_socks (held (ConfigureFromPanelNode (Close anytls0) fine (panel_node "anytls" "" 8443)).1) = {[tcp 8443]}.
Proof.
  pose proof (anytls_reopens_after_close anytls0 fine (panel_node "anytls" "" 8443) anytls0_up eq_refl
    ltac:(vm_compute; done) ltac:(vm_compute; done) eq_refl eq_refl) as Hw.
  vm_compute in Hw. vm_compute. exact (proj2 (proj2 Hw)).
Defined.
