(* ===== verification/NaiveInbound.v ===== *)
(** * protocol/naive: the naive inbound and its reload

    NewInbound and Start of inbound.go, and singr_reload.go: one inbound serves
    HTTP/2 on TCP and HTTP/3 on UDP on the same port, and reads its TLS
    configuration per connection, so an SNI change touches no socket. *)

From S2P Require Import Prelude GoStrings Float64 Api PanelUsers Reload.

Open Scope Z_scope.

Record Inbound := {
  options : lopts; tlsConfig : option tls_conf; listener : lis; users : Naive.userTable;
  net_tcp : bool; net_udp : bool;      (* n.network *)
  started : bool; closed : bool; held : resources;
}.

(** The ALPN list newNaiveTLS leaves in the configuration. *)
Definition naive_alpn (isTCP isUDP : bool) (protos : list string) : list string :=
  let protos :=
    if isTCP then
      match protos with
      | [] => ["h2"; "http/1.1"]
      | _ => if bool_decide ("h2" ∈ protos) then protos else "h2" :: protos
      end
    else protos in
  if isUDP && negb (bool_decide ("h3" ∈ protos)) then protos ++ ["h3"] else protos.

(** newNaiveTLS; tls.NewServer gives no configuration when TLS is disabled. *)
Definition newNaiveTLS (m : machine) (o : lopts) (isTCP isUDP : bool) : result (option tls_conf) :=
  match tls_enabled o with
  | None => Ok None
  | Some t =>
      match m_tls_new m t with
      | Some e => Err e
      | None => Ok (Some {| tc_opts := t; tc_alpn := naive_alpn isTCP isUDP (tls_ALPN t); tc_started := false |})
      end
  end.

Definition NewInbound (m : machine) (o : lopts) (isTCP isUDP : bool) (us : list (string * string)) : result Inbound :=
  if isUDP && bool_decide (tls_enabled o = None) then Err (ENew "TLS is required for QUIC server")
  else
    t ← newNaiveTLS m o isTCP isUDP;
    Ok {| options := o; tlsConfig := t; listener := new_listener o; users := Naive.newUserTable us;
          net_tcp := isTCP; net_udp := isUDP; started := false; closed := false;
          held := {| r_socks := ∅; r_tls := 0 |} |}.

(** serve: HTTP/2 on TCP, then HTTP/3 on UDP; an HTTP/3 failure closes the
    HTTP server, and with it the TCP socket. *)
Definition serve (n : Inbound) (m : machine) (r : resources) (l : lis) : resources * lis * result unit :=
  let tcpr := if net_tcp n then bind m r l (tcp (ln_port l)) else (r, l, Ok tt) in
  match tcpr with
  | (r, l, Ok _) =>
      if net_udp n then
        match serve_udp m r l with
        | (r, l, Err e) =>
            let '(r, l) := if net_tcp n then drop_sock r l (tcp (ln_port l)) else (r, l) in
            (r, l, Err (EWrap "start naive http3" e))
        | ok => ok
        end
      else (r, l, Ok tt)
  | bad => bad
  end.

Definition set_live (n : Inbound) (o : lopts) (t : option tls_conf) (l : lis) (st : bool) (r : resources) : Inbound :=
  {| options := o; tlsConfig := t; listener := l; users := users n; net_tcp := net_tcp n; net_udp := net_udp n;
     started := st; closed := closed n; held := r |}.

Definition configure_unstarted (n : Inbound) (m : machine) (newOpts : lopts) : Inbound * result unit :=
  match tls_enabled newOpts with
  | None => (set_live n newOpts (tlsConfig n) (new_listener newOpts) (started n) (held n), Ok tt)
  | Some _ =>
      match newNaiveTLS m newOpts (net_tcp n) (net_udp n) with
      | Ok t => (set_live n newOpts t (new_listener newOpts) (started n) (close_tls_opt (held n) (tlsConfig n)), Ok tt)
      | Err e => (n, Err e)
      | Panic w => (n, Panic w)
      end
  end.

(** The new TLS configuration of a live reload, built and started. *)
Definition live_tls (n : Inbound) (m : machine) (newOpts : lopts) (sniChanged : bool)
    : resources * result (option tls_conf) :=
  match (if sniChanged then tls_enabled newOpts else None) with
  | None => (held n, Ok None)
  | Some _ =>
      match newNaiveTLS m newOpts (net_tcp n) (net_udp n) with
      | Ok (Some t) =>
          match start_tls m (held n) t with
          | (r, t, Ok _) => (r, Ok (Some t))
          | (r, _, Err e) => (r, Err (EWrap "start reloaded naive tls" e))
          | (r, _, Panic w) => (r, Panic w)
          end
      | Ok None => (held n, Panic "nil pointer dereference")
      | Err e => (held n, Err e)
      | Panic w => (held n, Panic w)
      end
  end.

Definition configure_live (n : Inbound) (m : machine) (newOpts : lopts) (portChanged sniChanged : bool)
    : Inbound * result unit :=
  let failed r (bad : result unit) := (set_live n (options n) (tlsConfig n) (listener n) (started n) r, bad) in
  match live_tls n m newOpts sniChanged with
  | (r, Err e) => failed r (Err e)
  | (r, Panic w) => failed r (Panic w)
  | (r, Ok newTLS) =>
      let lisr : resources * lis * result unit :=
        if portChanged then
          match serve n m r (new_listener newOpts) with
          | (r, l, Ok _) => (fst (close_listener r (listener n)), l, Ok tt)
          | (r, l, Err e) =>
              let r := fst (close_listener r l) in
              (close_tls_opt r newTLS, listener n, Err (EWrap "start reloaded naive listener on port " e))
          | (r, l, Panic w) => (r, listener n, Panic w)
          end
        else (r, listener n, Ok tt) in
      match lisr with
      | (r, l, Ok _) =>
          match newTLS with
          | Some t => (set_live n newOpts (Some t) l (started n) (close_tls_opt r (tlsConfig n)), Ok tt)
          | None => (set_live n newOpts (tlsConfig n) l (started n) r, Ok tt)
          end
      | (r, _, bad) => failed r bad
      end
  end.

Definition ConfigureFromPanelNode (n : Inbound) (m : machine) (nodeInfo : NodeInfo) : Inbound * result unit :=
  match check_node "naive" "invalid naive listen port from panel: " nodeInfo with
  | Some e => (n, Err e)
  | None =>
      if closed n then (n, Ok tt)
      else
        let newOpts := panel_opts (options n) nodeInfo in
        let portChanged := negb (bool_decide (o_ListenPort newOpts = o_ListenPort (options n))) in
        let sniChanged := negb (bool_decide (sni newOpts = sni (options n))) in
        if started n && negb portChanged && negb sniChanged then (n, Ok tt)
        else if negb (started n) then configure_unstarted n m newOpts
        else configure_live n m newOpts portChanged sniChanged
  end.

Definition Start (n : Inbound) (m : machine) : Inbound * result unit :=
  match (match tlsConfig n with
         | Some t =>
             match start_tls m (held n) t with
             | (r, t, Err e) => (r, Some t, Err (EWrap "create TLS config" e))
             | (r, t, ok) => (r, Some t, ok)
             end
         | None => (held n, None, Ok tt)
         end) with
  | (r, t, Ok _) =>
      match serve n m r (listener n) with
      | (r, l, Ok _) => (set_live n (options n) t l true r, Ok tt)
      | (r, l, bad) => (set_live n (options n) t l (started n) r, bad)
      end
  | (r, t, bad) => (set_live n (options n) t (listener n) (started n) r, bad)
  end.

Definition Close (n : Inbound) : Inbound :=
  if closed n then n
  else
    let '(r, l) := close_listener (held n) (listener n) in
    let r := close_tls_opt r (tlsConfig n) in
    {| options := options n;
       tlsConfig := (λ t, {| tc_opts := tc_opts t; tc_alpn := tc_alpn t; tc_started := false |}) <$> tlsConfig n;
       listener := l; users := users n; net_tcp := net_tcp n; net_udp := net_udp n;
       started := started n; closed := true; held := r |}.

(** ** Rollback and shutdown *)

Implicit Types n : Inbound.

(** The sockets of a port: TCP for HTTP/2, UDP for HTTP/3. *)
Definition port_socks n (p : Z) : gset sock :=
  (if net_tcp n then {[tcp p]} else ∅) ∪ (if net_udp n then {[udp p]} else ∅).
Definition running_tls n (o : lopts) : option tls_conf :=
  (λ t, {| tc_opts := t; tc_alpn := naive_alpn (net_tcp n) (net_udp n) (tls_ALPN t); tc_started := true |})
    <$> tls_enabled o.

Definition up n : Prop :=
  started n = true ∧ closed n = false
  ∧ r_socks (held n) = port_socks n (o_ListenPort (options n))
  ∧ ln_socks (listener n) = port_socks n (o_ListenPort (options n))
  ∧ tlsConfig n = running_tls n (options n)
  ∧ r_tls (held n) = tls_count (options n).

Lemma naive_live_tls_cases n m o b :
  (∃ e, live_tls n m o b = (held n, Err e))
  ∨ (live_tls n m o b = (held n, Ok None) ∧ (b = true → tls_enabled o = None))
  ∨ (b = true ∧ is_Some (tls_enabled o) ∧
       live_tls n m o b = ({| r_socks := r_socks (held n); r_tls := r_tls (held n) + 1 |}, Ok (running_tls n o))).
Proof.
  unfold live_tls, running_tls, newNaiveTLS. destruct b; [|by right; left].
  destruct (tls_enabled o) as [t|] eqn:Et; [|by right; left]. destruct (m_tls_new m t); [left; eauto|].
  set (tc := Build_tls_conf _ _ _).
  destruct (start_tls_cases m (held n) tc) as [[e ->]| ->]; [left; eauto|right; right; eauto].
Qed.

(** Serving on a port none of whose sockets is held takes both sockets; if it
    fails, closing the listener gives everything back. *)
Lemma serve_cases n m r l :
  ln_socks l = ∅ → (∀ b, (b, ln_port l) ∉ r_socks r) →
  (∃ r' l' e, serve n m r l = (r', l', Err e) ∧ r_socks r' ∖ ln_socks l' = r_socks r ∧ r_tls r' = r_tls r)
  ∨ (∃ r' l', serve n m r l = (r', l', Ok tt) ∧ r_socks r' = port_socks n (ln_port l) ∪ r_socks r
       ∧ ln_socks l' = port_socks n (ln_port l) ∧ r_tls r' = r_tls r).
Proof.
  intros Hl Hfree. unfold serve, port_socks. set (p := ln_port l) in *.
  pose proof (Hfree true) as Ht. pose proof (Hfree false) as Hf. unfold tcp, udp, serve_udp, bind, drop_sock.
  destruct (net_tcp n), (net_udp n); cbn; fold p;
    repeat (case_bool_decide || case_match); simplify_eq/=; fold p;
    first [left; do 3 eexists; split; [reflexivity|]; cbn; split; [set_solver|done]
          |right; do 2 eexists; split; [reflexivity|]; cbn; split_and!; [set_solver..|done]
          |left; do 3 eexists; split; [reflexivity|]; cbn; rewrite ?Hl; split; [|done]; set_solver].
Qed.

Lemma naive_port_socks_free n p p' b : p ≠ p' → (b, p') ∉ port_socks n p.
Proof. intros Hne. unfold port_socks, tcp, udp. destruct (net_tcp n), (net_udp n); set_solver. Qed.

Lemma naive_close_running n o r :
  r_tls (close_tls_opt r (running_tls n o)) = r_tls r - tls_count o
  ∧ r_socks (close_tls_opt r (running_tls n o)) = r_socks r.
Proof. unfold running_tls, tls_count. destruct (tls_enabled o); cbn; split; try done; lia. Qed.

(** The listener part of a live reload, on resources [r] that hold the
    serving sockets and one started configuration too many for [newTLS]. *)
Definition live_listener n (m : machine) (o : lopts) (pc : bool) (r : resources) (newTLS : option tls_conf)
    : resources * lis * result unit :=
  if pc then
    match serve n m r (new_listener o) with
    | (r, l, Ok _) => (fst (close_listener r (listener n)), l, Ok tt)
    | (r, l, Err e) =>
        (close_tls_opt (fst (close_listener r l)) newTLS, listener n,
         Err (EWrap "start reloaded naive listener on port " e))
    | (r, l, Panic w) => (r, listener n, Panic w)
    end
  else (r, listener n, Ok tt).

Lemma live_listener_cases n m o pc r newTLS :
  r_socks r = port_socks n (o_ListenPort (options n)) → ln_socks (listener n) = port_socks n (o_ListenPort (options n)) →
  (pc = true ↔ o_ListenPort o ≠ o_ListenPort (options n)) →
  (∃ r' e, live_listener n m o pc r newTLS = (r', listener n, Err e)
     ∧ r_socks r' = r_socks r
     ∧ r_tls r' = r_tls r - match newTLS with Some t => if tc_started t then 1 else 0 | None => 0 end)
  ∨ (∃ r' l', live_listener n m o pc r newTLS = (r', l', Ok tt)
     ∧ r_socks r' = port_socks n (o_ListenPort o) ∧ ln_socks l' = port_socks n (o_ListenPort o) ∧ r_tls r' = r_tls r).
Proof.
  intros Hr Hl Hpc. unfold live_listener. destruct pc.
  - destruct Hpc as [Hne _]. specialize (Hne eq_refl).
    destruct (serve_cases n m r (new_listener o)) as [(r' & l' & e & -> & E1 & E2)|(r' & l' & -> & E1 & E2 & E3)].
    { done. } { intros b. rewrite Hr. by apply naive_port_socks_free. }
    + left. do 2 eexists. split; [done|]. destruct newTLS as [[? ? []]|]; cbn; rewrite E1, E2; split; try done; lia.
    + right. do 2 eexists. split; [done|]. cbn. rewrite E1, E2, E3, Hl, Hr. cbn. split_and!; [|done..].
      assert (port_socks n (o_ListenPort o) ## port_socks n (o_ListenPort (options n))) as Hd.
      { intros [b p] Hb. intros Hb'. assert (p = o_ListenPort o) as ->.
        { destruct (decide (o_ListenPort o = p)); [done|]. by apply (naive_port_socks_free n _ p b) in Hb. }
        by apply (naive_port_socks_free n (o_ListenPort (options n)) (o_ListenPort o) b) in Hb'. }
      set_solver.
  - right. do 2 eexists. split; [done|]. destruct (decide (o_ListenPort o = o_ListenPort (options n))) as [->|Hne]; [done|].
    by apply Hpc in Hne.
Qed.

Lemma naive_live_cases n m nodeInfo (o := panel_opts (options n) nodeInfo) :
  up n →
  let pc := negb (bool_decide (o_ListenPort o = o_ListenPort (options n))) in
  let sc := negb (bool_decide (sni o = sni (options n))) in
  let '(n', r) := configure_live n m o pc sc in
  match r with
  | Ok _ => up n' ∧ options n' = o ∧ users n' = users n
  | Err _ => n' = n
  | Panic _ => False
  end.
Proof.
  intros (Hst & Hcl & Hso & Hls & Htc & Hrt) pc sc. unfold configure_live.
  assert (pc = true ↔ o_ListenPort o ≠ o_ListenPort (options n)) as Hpc.
  { unfold pc. by rewrite negb_true_iff, bool_decide_eq_false. }
  assert (∀ r, r = held n → set_live n (options n) (tlsConfig n) (listener n) (started n) r = n) as Hid
    by (intros r ->; by destruct n).
  destruct (naive_live_tls_cases n m o sc) as [[e ->]|[[-> Hn]|(Hsc & Ht & ->)]]; [by apply Hid|..].
  - assert (tls_enabled o = tls_enabled (options n)) as Et.
    { destruct sc eqn:E; [rewrite Hn by done; symmetry; by eapply panel_opts_off, Hn|].
      apply negb_false_iff, bool_decide_eq_true in E. by apply panel_opts_enabled. }
    change (if pc then _ else _) with (live_listener n m o pc (held n) None).
    destruct (live_listener_cases n m o pc (held n) None Hso Hls Hpc) as [(r' & e & -> & E1 & E2)|(r' & l' & -> & E1 & E2 & E3)].
    + apply Hid, resources_eq; [done|]. rewrite E2. lia.
    + split; [|done]. unfold up, running_tls, tls_count. cbn. fold o. rewrite Et, E3. by split_and!.
  - change (if pc then _ else _) with
      (live_listener n m o pc {| r_socks := r_socks (held n); r_tls := r_tls (held n) + 1 |} (running_tls n o)).
    destruct (live_listener_cases n m o pc {| r_socks := r_socks (held n); r_tls := r_tls (held n) + 1 |}
      (running_tls n o) Hso Hls Hpc) as [(r' & e & -> & E1 & E2)|(r' & l' & -> & E1 & E2 & E3)].
    + apply Hid, resources_eq; [done|]. rewrite E2. destruct Ht as [t Ht]. unfold running_tls. rewrite Ht. cbn. lia.
    + destruct (running_tls n o) as [tc|] eqn:Er; [|unfold running_tls in Er; destruct Ht as [t Ht]; by rewrite Ht in Er].
      split; [|done]. unfold up. cbn [options tlsConfig listener started closed held set_live users].
      rewrite Htc. destruct (naive_close_running n (options n) r') as [F1 F2]. rewrite F1, F2, E3.
      split_and!; try done. unfold tls_count in *. destruct Ht as [t Ht]. rewrite Ht. cbn. lia.
Qed.

Lemma naive_outcome n m nodeInfo :
  up n →
  let '(n', r) := ConfigureFromPanelNode n m nodeInfo in
  match r with
  | Ok _ => up n' ∧ options n' = panel_opts (options n) nodeInfo ∧ o_ListenPort (options n') = ni_Port nodeInfo
            ∧ users n' = users n
  | Err _ => n' = n
  | Panic _ => False
  end.
Proof.
  intros Hup. unfold ConfigureFromPanelNode.
  destruct (check_node _ _ nodeInfo) eqn:Ec; [done|]. apply check_node_ok in Ec as [_ Hp].
  pose proof Hup as (Hst & Hcl & _). rewrite Hcl.
  pose proof (naive_live_cases n m nodeInfo Hup) as Hl. cbn zeta in Hl |- *.
  assert (o_ListenPort (panel_opts (options n) nodeInfo) = ni_Port nodeInfo) as Ep by (cbn; apply u16_small; lia).
  rewrite Hst in *. cbn [negb andb]. destruct (negb (negb _) && negb (negb _)) eqn:E.
  - rewrite !negb_involutive in E. apply andb_true_iff in E as [E1%bool_decide_eq_true E2%bool_decide_eq_true].
    rewrite (panel_opts_same _ _ E1 E2). split_and!; [done..| |done]. by rewrite <- E1.
  - destruct (configure_live _ _ _ _ _) as [n' [[]|e|w]]; [|done..].
    destruct Hl as (Hu & Ho & Hs). by rewrite Ho.
Qed.

(** (C28) The same for naive, which serves HTTP/2 and HTTP/3 on one port: a
    reload either moves both protocols to the panel's port and SNI, or leaves
    both where they were with nothing leaked, also when TCP binds and QUIC
    does not; no user is dropped, and every configuration swapped in offers
    the same protocols. *)
Theorem naive_reload_atomic n m nodeInfo :
  up n →
  let '(n', r) := ConfigureFromPanelNode n m nodeInfo in
  match r with
  | Ok _ => up n' ∧ options n' = panel_opts (options n) nodeInfo ∧ o_ListenPort (options n') = ni_Port nodeInfo
            ∧ users n' = users n
  | Err _ => n' = n
  | Panic _ => False
  end.
Proof. apply naive_outcome. Qed.

(** A closed naive inbound stays closed: Close releases everything, a
    second Close changes nothing, and panel ticks still in flight after the
    shutdown open nothing. *)
Theorem naive_stays_closed n ticks :
  up n →
  let c := Close n in
  held c = {| r_socks := ∅; r_tls := 0 |} ∧ Close c = c
  ∧ foldl (λ n '(m, nodeInfo), (ConfigureFromPanelNode n m nodeInfo).1) c ticks = c.
Proof.
  intros (Hst & Hcl & Hso & Hls & Htc & Hrt) c.
  assert (closed c = true) as Hc by (unfold c, Close; by rewrite Hcl).
  split_and!.
  - unfold c, Close. rewrite Hcl. cbn. rewrite Htc.
    apply resources_eq; [rewrite (proj2 (naive_close_running _ _ _))|rewrite (proj1 (naive_close_running _ _ _))]; cbn;
      [rewrite Hso, Hls; set_solver|lia].
  - unfold Close at 1. by rewrite Hc.
  - induction ticks as [|[m nodeInfo] ticks IH]; [done|]. cbn [foldl].
    replace (ConfigureFromPanelNode c m nodeInfo).1 with c; [exact IH|]. unfold ConfigureFromPanelNode.
    destruct (check_node _ _ nodeInfo); [done|]. by rewrite Hc.
Qed.

(** ** Concrete reloads *)

Definition naive0 : Inbound :=
  match NewInbound fine opts0 true true [] with
  | Ok n => (Start n fine).1
  | _ => Build_Inbound opts0 None (new_listener opts0) Naive.empty_table true true false false {| r_socks := ∅; r_tls := 0 |}
  end.

Lemma naive0_up : up naive0.
Proof. split_and!; vm_compute; reflexivity. Qed.

(** TCP binds on the new port, QUIC does not: both stay on the old one. *)
Lemma naive_reload_atomic_witness :
  (ConfigureFromPanelNode naive0 quic_broken (panel_node "naive" "b.example" 8443)).1 = naive0
  ∧ r_socks (held (ConfigureFromPanelNode naive0 fine (panel_node "naive" "b.example" 8443)).1) = {[tcp 8443; udp 8443]}.
Proof.
  split; [|vm_compute; reflexivity].
  pose proof (naive_reload_atomic naive0 quic_broken (panel_node "naive" "b.example" 8443) naive0_up) as Hw.
  vm_compute in Hw. vm_compute. exact Hw.
Defined.

Lemma naive_stays_closed_witness :
  (ConfigureFromPanelNode (Close naive0) fine (panel_node "naive" "b.example" 8443)).1 = Close naive0.
Proof.
  exact (proj2 (proj2 (naive_stays_closed naive0 [(fine, panel_node "naive" "b.example" 8443)] naive0_up))).
Defined.
