(* ===== verification/Hysteria2Inbound.v ===== *)
(** * protocol/hysteria2/inbound.go: the hysteria2 inbound

    The TLS configuration is baked into the QUIC service, so a reload rebuilds
    the service and refills it from the mirror of the users.  When only the SNI
    changes the UDP port must be freed first: there is no way back if the restart
    fails. *)

From S2P Require Import Prelude GoStrings Float64 Api PanelUsers Reload.

Open Scope Z_scope.

(** The options buildComponents looks at.  [h_listen4]/[h_listen6] say what
    the listen address is: an IPv4 address, a specific IPv6 address. *)
Record hopts := {
  h_base : lopts;
  h_Obfs : option (string * string);              (* type, password *)
  h_Masquerade : option string;                   (* type *)
  h_RealmIPVersion : option Z; h_listen4 : bool; h_listen6 : bool;
}.

(** The QUIC service: its users, the obfuscation password it was built with,
    and whether it runs. *)
Record svc (Sv : Type) := { sv_users : Sv; sv_salamander : string; sv_gecko : string; sv_running : bool }.
Arguments sv_users {Sv} _.
Arguments sv_salamander {Sv} _.
Arguments sv_gecko {Sv} _.
Arguments sv_running {Sv} _.

Section hysteria2.
Context {Sv : Type} `{UserServiceSpec Sv, RangeOrder}.

Record Inbound := {
  options : hopts; tlsConfig : tls_conf; listener : lis; service : svc Sv;
  currentUsers : gmap string string; started : bool; held : resources;
}.

(** The obfuscation passwords: an empty salamander password falls back to
    the SNI. *)
Definition obfs_passwords (o : hopts) : result (string * string) :=
  match h_Obfs o with
  | None => Ok ("", "")
  | Some (ty, password) =>
      if bool_decide (ty = "salamander") then
        Ok (if bool_decide (password = "") then sni (h_base o) else password, "")
      else if bool_decide (ty = "gecko") then Ok ("", password)
      else Err (EFmt "unknown obfs type: " [ty])
  end.

(** buildMasqueradeHandler's checks on the type; reading the directory and
    parsing the URL are part of [m_build]. *)
Definition masquerade_ok (o : hopts) : result unit :=
  match h_Masquerade o with
  | None => Ok tt
  | Some ty =>
      if bool_decide (ty ∈ [""; "file"; "proxy"; "string"]) then Ok tt
      else Err (EFmt "unknown masquerade type: " [ty])
  end.

Definition realm_ok (o : hopts) : result unit :=
  match h_RealmIPVersion o with
  | Some 6 => if h_listen4 o then Err (ENew "realm.ip_version 6 conflicts with listen address ") else Ok tt
  | Some 4 => if h_listen6 o then Err (ENew "realm.ip_version 4 conflicts with listen address ") else Ok tt
  | _ => Ok tt
  end.

Definition buildComponents (m : machine) (o : hopts) : result (tls_conf * lis * svc Sv) :=
  match tls_enabled (h_base o) with
  | None => Err (ENew "TLS required")
  | Some t =>
      match m_tls_new m t with
      | Some e => Err e
      | None =>
          '(salamander, gecko) ← obfs_passwords o;
          _ ← masquerade_ok o;
          _ ← realm_ok o;
          match m_build m with
          | Some e => Err e
          | None => Ok (new_tls t, new_listener (h_base o),
                        {| sv_users := svc_new; sv_salamander := salamander; sv_gecko := gecko; sv_running := false |})
          end
      end
  end.

Definition startComponents (m : machine) (r : resources) (t : tls_conf) (l : lis) (s : svc Sv)
    : resources * tls_conf * lis * svc Sv * result unit :=
  match start_tls m r t with
  | (r, t, Ok _) =>
      match serve_udp m r l with
      | (r, l, Ok _) =>
          (r, t, l, {| sv_users := sv_users s; sv_salamander := sv_salamander s; sv_gecko := sv_gecko s;
                       sv_running := true |}, Ok tt)
      | (r, l, bad) => (r, t, l, s, bad)
      end
  | (r, t, bad) => (r, t, l, s, bad)
  end.

Definition stop_svc (s : svc Sv) : svc Sv :=
  {| sv_users := sv_users s; sv_salamander := sv_salamander s; sv_gecko := sv_gecko s; sv_running := false |}.

(** closeComponents: the service, the listener, and the TLS configuration
    if one is given. *)
Definition closeComponents (r : resources) (t : option tls_conf) (l : lis) (s : svc Sv)
    : resources * lis * svc Sv :=
  let '(r, l) := close_listener r l in (close_tls_opt r t, l, stop_svc s).

Definition applyUsers (users : gmap string string) (s : svc Sv) : svc Sv :=
  {| sv_users := svc_UpdateUsers (sv_users s) (range users); sv_salamander := sv_salamander s;
     sv_gecko := sv_gecko s; sv_running := sv_running s |}.

Definition NewInbound (m : machine) (o : hopts) (us : list (string * string)) : result Inbound :=
  '(t, l, s) ← buildComponents m o;
  Ok {| options := o; tlsConfig := t; listener := l;
        service := {| sv_users := svc_UpdateUsers (sv_users s) us; sv_salamander := sv_salamander s;
                      sv_gecko := sv_gecko s; sv_running := sv_running s |};
        currentUsers := insert_pairs ∅ us; started := false;
        held := {| r_socks := ∅; r_tls := 0 |} |}.

Definition panel_hopts (o : hopts) (n : NodeInfo) : hopts :=
  {| h_base := panel_opts (h_base o) n; h_Obfs := h_Obfs o; h_Masquerade := h_Masquerade o;
     h_RealmIPVersion := h_RealmIPVersion o; h_listen4 := h_listen4 o; h_listen6 := h_listen6 o |}.

(** The live rebuild.  On an SNI-only change the old service is closed
    before the new one starts. *)
Definition configure_live (h : Inbound) (m : machine) (newOpts : hopts) (portChanged : bool)
    (c : tls_conf * lis * svc Sv) : Inbound * result unit :=
  let '(newTLS, newListener, newService) := c in
  let newService := applyUsers (currentUsers h) newService in
  let '(r, oldListener, oldService) :=
    if portChanged then (held h, listener h, service h)
    else closeComponents (held h) None (listener h) (service h) in
  match startComponents m r newTLS newListener newService with
  | (r, t, l, s, Ok _) =>
      let s := applyUsers (currentUsers h) s in
      let r := if portChanged
               then fst (fst (closeComponents r (Some (tlsConfig h)) oldListener oldService))
               else close_tls r (tlsConfig h) in
      ({| options := newOpts; tlsConfig := t; listener := l; service := s; currentUsers := currentUsers h;
          started := started h; held := r |}, Ok tt)
  | (r, t, l, s, bad) =>
      let '(r, _, _) := closeComponents r (Some t) l s in
      ({| options := options h; tlsConfig := tlsConfig h; listener := oldListener; service := oldService;
          currentUsers := currentUsers h; started := started h; held := r |},
       match bad with Err e => Err (EWrap "start reloaded hysteria2 listener on port " e) | bad => bad end)
  end.

Definition ConfigureFromPanelNode (h : Inbound) (m : machine) (n : NodeInfo) : Inbound * result unit :=
  match check_node "hysteria2" "invalid hysteria2 listen port from panel: " n with
  | Some e => (h, Err e)
  | None =>
      let newOpts := panel_hopts (options h) n in
      let portChanged := negb (bool_decide (o_ListenPort (h_base newOpts) = o_ListenPort (h_base (options h)))) in
      let sniChanged := negb (bool_decide (sni (h_base newOpts) = sni (h_base (options h)))) in
      if started h && negb portChanged && negb sniChanged then (h, Ok tt)
      else
        match buildComponents m newOpts with
        | Err e => (h, Err e)
        | Panic w => (h, Panic w)
        | Ok c =>
            if negb (started h) then
              let '(t, l, s) := c in
              let '(r, _) := close_listener (held h) (listener h) in
              ({| options := newOpts; tlsConfig := t; listener := l; service := applyUsers (currentUsers h) s;
                  currentUsers := currentUsers h; started := started h; held := close_tls r (tlsConfig h) |}, Ok tt)
            else configure_live h m newOpts portChanged c
        end
  end.

Definition Start (h : Inbound) (m : machine) : Inbound * result unit :=
  let '(r, t, l, s, res) := startComponents m (held h) (tlsConfig h) (listener h) (service h) in
  ({| options := options h; tlsConfig := t; listener := l; service := s; currentUsers := currentUsers h;
      started := if is_ok res then true else started h; held := r |}, res).

Definition Close (h : Inbound) : Inbound :=
  let '(r, l, s) := closeComponents (held h) (Some (tlsConfig h)) (listener h) (service h) in
  {| options := options h;
     tlsConfig := {| tc_opts := tc_opts (tlsConfig h); tc_alpn := tc_alpn (tlsConfig h); tc_started := false |};
     listener := l; service := s; currentUsers := currentUsers h; started := started h; held := r |}.
End hysteria2.
Arguments Inbound : clear implicits.

(** ** Rollback and recovery *)

Section facts.
Context {Sv : Type} `{UserServiceSpec Sv, RangeOrder}.
Implicit Types h : Inbound Sv.

(** A started inbound, serving ([b]) or down: either way its TLS
    configuration is the one of its options, its service carries the
    obfuscation passwords of its options, and it holds nothing else. *)
Definition wired h (b : bool) : Prop :=
  let p := o_ListenPort (h_base (options h)) in
  started h = true
  ∧ r_socks (held h) = (if b then {[udp p]} else ∅)
  ∧ ln_socks (listener h) = (if b then {[udp p]} else ∅)
  ∧ (∃ t, tls_enabled (h_base (options h)) = Some t
          ∧ tlsConfig h = {| tc_opts := t; tc_alpn := tls_ALPN t; tc_started := true |})
  ∧ r_tls (held h) = 1
  ∧ sv_running (service h) = b
  ∧ obfs_passwords (options h) = Ok (sv_salamander (service h), sv_gecko (service h)).

(** The service has the users of the mirror. *)
Definition mirrored h : Prop := svc_table (sv_users (service h)) = currentUsers h.
Definition live h (b : bool) : Prop := wired h b ∧ mirrored h.

Lemma buildComponents_ok m o t l s :
  buildComponents m o = Ok (t, l, s) →
  tls_enabled (h_base o) = Some (tc_opts t) ∧ t = new_tls (tc_opts t) ∧ l = new_listener (h_base o)
  ∧ obfs_passwords o = Ok (sv_salamander s, sv_gecko s) ∧ sv_running s = false.
Proof.
  unfold buildComponents. destruct (tls_enabled _) as [to|]; [|done]. destruct (m_tls_new m to); [done|].
  intros ([sal gecko] & Hp & Hb)%result_bind_Ok. apply result_bind_Ok in Hb as (_ & _ & Hb).
  apply result_bind_Ok in Hb as (_ & _ & Hb). destruct (m_build m); [done|]. injection Hb as <- <- <-. done.
Qed.

Lemma buildComponents_no_panic m o w : buildComponents m o ≠ Panic w.
Proof.
  unfold buildComponents. destruct (tls_enabled _) as [to|]; [|done]. destruct (m_tls_new m to); [done|].
  unfold obfs_passwords, masquerade_ok, realm_ok.
  destruct (h_Obfs o) as [[ty pw]|]; cbn; repeat case_match; done.
Qed.

(** Starting on a free port takes the socket; a failure is undone by
    closing the components. *)
Lemma startComponents_cases m r t l (s : svc Sv) :
  ln_socks l = ∅ → tc_started t = false → (udp (ln_port l) ∉ r_socks r) →
  (∃ r' t' l' s' e, startComponents m r t l s = (r', t', l', s', Err e)
     ∧ fst (fst (closeComponents r' (Some t') l' s')) = r)
  ∨ startComponents m r t l s =
      ({| r_socks := {[udp (ln_port l)]} ∪ r_socks r; r_tls := r_tls r + 1 |},
       {| tc_opts := tc_opts t; tc_alpn := tc_alpn t; tc_started := true |},
       {| ln_port := ln_port l; ln_socks := {[udp (ln_port l)]} |},
       {| sv_users := sv_users s; sv_salamander := sv_salamander s; sv_gecko := sv_gecko s; sv_running := true |}, Ok tt).
Proof.
  intros Hl Ht Hfree. unfold startComponents.
  destruct (start_tls_cases m r t) as [[e ->]| ->].
  { left. do 5 eexists. split; [done|]. apply resources_eq; cbn; rewrite ?Hl, ?Ht; [set_solver|lia]. }
  unfold serve_udp. set (r1 := {| r_socks := r_socks r; r_tls := r_tls r + 1 |}).
  destruct (bind_cases m r1 l (udp (ln_port l))) as [[e ->]|[_ ->]].
  { left. do 5 eexists. split; [done|]. apply resources_eq; cbn; rewrite ?Hl; [set_solver|lia]. }
  destruct (m_serve m (udp (ln_port l))) as [[closed e]|].
  - left. destruct closed; do 5 eexists; (split; [done|]); apply resources_eq; cbn; rewrite ?Hl; try lia; set_solver.
  - right. cbn. by rewrite Hl, (right_id_L ∅ (∪)).
Qed.

Lemma hy2_live_cases h m n b c (o := panel_hopts (options h) n) :
  wired h b → buildComponents m o = Ok c →
  let pc := negb (bool_decide (o_ListenPort (h_base o) = o_ListenPort (h_base (options h)))) in
  let '(h', r) := configure_live h m o pc c in
  currentUsers h' = currentUsers h ∧
  match r with
  | Ok _ => wired h' true ∧ mirrored h' ∧ options h' = o
  | Err _ => if pc then h' = h
             else wired h' false ∧ sv_users (service h') = sv_users (service h) ∧ options h' = options h
  | Panic _ => False
  end.
Proof.
  intros (Hst & Hso & Hls & (t0 & Ht0 & Htc) & Hrt & Hrun & Hpw) Hb pc. destruct c as [[t l] s].
  apply buildComponents_ok in Hb as (Ht & Et & El & Ep & Er).
  assert (ln_port l = o_ListenPort (h_base o) ∧ ln_socks l = ∅ ∧ tc_started t = false) as (Hlp & Hln & Hts).
  { rewrite El, Et. done. }
  assert (∀ s1 : svc Sv, svc_table (sv_users (applyUsers (currentUsers h) s1)) = currentUsers h) as Hap.
  { intros s1. cbn. rewrite svc_UpdateUsers_spec by apply NoDup_range_fst. apply Hysteria2.insert_pairs_range. }
  unfold configure_live. destruct pc eqn:Epc.
  - apply negb_true_iff, bool_decide_eq_false in Epc.
    destruct (startComponents_cases m (held h) t l (applyUsers (currentUsers h) s)) as [(r' & t' & l' & s' & e & -> & Ecl)| ->];
      [done|done|rewrite Hlp, Hso; destruct b; set_solver|..].
    + destruct (closeComponents r' (Some t') l' s') as [[r2 l2] s2]. cbn in Ecl. subst r2. split; [done|]. by destruct h.
    + split; [done|]. split; [|split; [apply Hap|done]]. unfold wired. cbn [options started held listener tlsConfig service currentUsers].
      split_and!; try done.
      * cbn. rewrite Hso, Hls, Hlp. destruct b; set_solver.
      * cbn. by rewrite Hlp.
      * exists (tc_opts t). split; [done|]. by rewrite Et.
      * cbn. rewrite Htc. cbn. lia.
  - apply negb_false_iff, bool_decide_eq_true in Epc.
    unfold closeComponents at 1. cbn [close_listener close_tls_opt].
    set (r0 := {| r_socks := r_socks (held h) ∖ ln_socks (listener h); r_tls := r_tls (held h) |}).
    assert (r_socks r0 = ∅) as Hr0 by (unfold r0; cbn; rewrite Hso, Hls; set_solver).
    destruct (startComponents_cases m r0 t l (applyUsers (currentUsers h) s)) as [(r' & t' & l' & s' & e & -> & Ecl)| ->];
      [done|done|rewrite Hr0; set_solver|..].
    + destruct (closeComponents r' (Some t') l' s') as [[r2 l2] s2]. cbn in Ecl. subst r2. split; [done|].
      split; [|done]. unfold wired. cbn. split_and!; try done. eauto.
    + split; [done|]. split; [|split; [apply Hap|done]]. unfold wired. cbn [options started held listener tlsConfig service currentUsers].
      split_and!; try done.
      * cbn [close_tls r_socks]. rewrite Hr0, Hlp. set_solver.
      * cbn. by rewrite Hlp.
      * exists (tc_opts t). split; [done|]. by rewrite Et.
      * cbn. rewrite Htc. cbn. lia.
Qed.

Lemma reload_wired h m n b :
  wired h b →
  let '(h', r) := ConfigureFromPanelNode h m n in
  currentUsers h' = currentUsers h ∧
  match r with
  | Ok _ => options h' = panel_hopts (options h) n
            ∧ (if bool_decide (panel_opts (h_base (options h)) n = h_base (options h)) then h' = h
               else wired h' true ∧ mirrored h')
  | Err _ => h' = h
      ∨ (o_ListenPort (h_base (panel_hopts (options h) n)) = o_ListenPort (h_base (options h))
         ∧ panel_opts (h_base (options h)) n ≠ h_base (options h)
         ∧ wired h' false ∧ sv_users (service h') = sv_users (service h) ∧ options h' = options h)
  | Panic _ => False
  end.
Proof.
  intros Hl. unfold ConfigureFromPanelNode. destruct (check_node _ _ n) eqn:Ec; [by split; [|left]|]. cbn zeta.
  rewrite (proj1 Hl). cbn [negb andb]. set (o := panel_hopts (options h) n).
  destruct (negb (negb _) && negb (negb _)) eqn:E.
  { rewrite !negb_involutive in E. apply andb_true_iff in E as [E1%bool_decide_eq_true E2%bool_decide_eq_true].
    pose proof (panel_opts_same _ _ E1 E2) as Eo. split; [done|].
    rewrite bool_decide_eq_true_2 by done. split; [|done]. unfold o, panel_hopts. rewrite Eo. by destruct (options h). }
  assert (panel_opts (h_base (options h)) n ≠ h_base (options h)) as Hne.
  { intros Eo. rewrite !negb_involutive in E. apply andb_false_iff in E as [E%bool_decide_eq_false|E%bool_decide_eq_false];
      apply E; unfold o; cbn [panel_hopts h_base]; by rewrite Eo. }
  destruct (buildComponents m o) as [c|e|w] eqn:Eb; [|by split; [|left]|by apply buildComponents_no_panic in Eb].
  pose proof (hy2_live_cases h m n b c Hl Eb) as Hc. cbn zeta in Hc. fold o in Hc.
  destruct (configure_live h m o _ c) as [h' [[]|e|w]]; destruct Hc as [Hcu Hc]; (split; [done|]).
  - rewrite bool_decide_eq_false_2 by done. tauto.
  - case_bool_decide as Epc; cbn [negb] in Hc; [right; tauto|by left].
  - done.
Qed.

(** (C29) Reloading hysteria2.  Whether it is serving or down, a reload that
    returns no error after a change leaves it serving the panel's port and
    SNI, with every user the old service had and the obfuscation password of
    the new options.  A failure leaves it exactly as it was, except when
    only the SNI changed and the restart failed: then it is down, holds no
    socket, and keeps its old options and its users, so the same node is
    tried again. *)
Theorem hysteria2_reload h m n b :
  live h b →
  let '(h', r) := ConfigureFromPanelNode h m n in
  currentUsers h' = currentUsers h ∧
  match r with
  | Ok _ => options h' = panel_hopts (options h) n
            ∧ (if bool_decide (panel_opts (h_base (options h)) n = h_base (options h)) then h' = h else live h' true)
  | Err _ => h' = h ∨ (o_ListenPort (h_base (panel_hopts (options h) n)) = o_ListenPort (h_base (options h))
                       ∧ live h' false ∧ options h' = options h)
  | Panic _ => False
  end.
Proof.
  intros [Hw Hm]. pose proof (reload_wired h m n b Hw) as Hr.
  destruct (ConfigureFromPanelNode h m n) as [h' [[]|e|w]]; [| |done]; destruct Hr as [Hcu Hr]; (split; [done|]).
  - destruct Hr as [Ho Hr]. split; [done|]. by case_bool_decide.
  - destruct Hr as [->|(Hp & Hne & Hw' & Hs & Ho)]; [by left|right]. split; [done|]. split; [|done].
    split; [done|]. unfold mirrored. by rewrite Hs, Hcu.
Qed.

(** An inbound that a failed SNI restart left down is not brought back
    by the panel returning to the SNI it still has in its options: the
    reload sees no change, reports success and touches nothing, so the
    inbound stays down (and the controller's retry flag is cleared). *)
Theorem hysteria2_revert_stays_down h m n :
  live h false → ni_NodeType n = "hysteria2" → 0 < ni_Port n ≤ 65535 →
  panel_opts (h_base (options h)) n = h_base (options h) →
  ConfigureFromPanelNode h m n = (h, Ok tt) ∧ r_socks (held h) = ∅ ∧ sv_running (service h) = false.
Proof.
  intros [(Hst & Hso & _ & _ & _ & Hrun & _) _] Ht Hp Eo. split; [|done].
  unfold ConfigureFromPanelNode, check_node.
  rewrite (bool_decide_eq_false_2 (ni_NodeType n ≠ "hysteria2")) by tauto.
  rewrite (bool_decide_eq_false_2 (ni_Port n ≤ 0)), (bool_decide_eq_false_2 (65535 < ni_Port n)) by lia.
  cbn [orb]. rewrite Hst. cbn [panel_hopts h_base]. by rewrite Eo, !bool_decide_eq_true_2.
Qed.
End facts.

(** ** Concrete reloads *)

Definition hopts0 : hopts :=
  {| h_base := opts0; h_Obfs := Some ("salamander", ""); h_Masquerade := None; h_RealmIPVersion := None;
     h_listen4 := false; h_listen6 := false |}.
Definition hy2_start (m : machine) (o : hopts) : option (Inbound (gmap string string)) :=
  match NewInbound m o [("u1", "secret")] with Ok h => Some (Start h m).1 | _ => None end.

(** The SNI restart fails on a machine whose port is taken, the panel goes back
    to the old SNI. *)
Definition hy2_dummy : Inbound (gmap string string) :=
  Build_Inbound hopts0 (new_tls {| tls_Enabled := true; tls_ServerName := ""; tls_ALPN := [] |}) (new_listener opts0)
    {| sv_users := ∅; sv_salamander := ""; sv_gecko := ""; sv_running := false |} ∅ false {| r_socks := ∅; r_tls := 0 |}.
Definition hy2_0 : Inbound (gmap string string) := default hy2_dummy (hy2_start fine hopts0).
Definition hy2_down : Inbound (gmap string string) :=
  (ConfigureFromPanelNode hy2_0 port_taken (panel_node "hysteria2" "b.example" 443)).1.

Lemma hy2_0_live : live hy2_0 true.
Proof.
  split; [|vm_compute; reflexivity].
  split_and!; try (vm_compute; reflexivity). eexists. split; vm_compute; reflexivity.
Qed.
Lemma hy2_down_live : live hy2_down false.
Proof.
  split; [|vm_compute; reflexivity].
  split_and!; try (vm_compute; reflexivity). eexists. split; vm_compute; reflexivity.
Qed.

Lemma hysteria2_reload_witness :
  let h := (ConfigureFromPanelNode hy2_down fine (panel_node "hysteria2" "b.example" 443)).1 in
  sv_salamander (service h) = "b.example" ∧ r_socks (held h) = {[udp 443]} ∧ currentUsers h = currentUsers hy2_down.
Proof.
  cbn zeta. pose proof (hysteria2_reload hy2_down fine (panel_node "hysteria2" "b.example" 443) false hy2_down_live) as Hw.
  destruct (ConfigureFromPanelNode hy2_down fine _) as [h r] eqn:E.
  split; [|split].
  - replace h with (h, r).1 by reflexivity. rewrite <- E. vm_compute; reflexivity.
  - replace h with (h, r).1 by reflexivity. rewrite <- E. vm_compute; reflexivity.
  - exact (proj1 Hw).
Defined.

Lemma hysteria2_revert_stays_down_witness :
  ConfigureFromPanelNode hy2_down fine (panel_node "hysteria2" "a.example" 443) = (hy2_down, Ok tt)
  ∧ r_socks (held hy2_down) = ∅.
Proof.
  destruct (hysteria2_revert_stays_down hy2_down fine (panel_node "hysteria2" "a.example" 443) hy2_down_live
    eq_refl ltac:(vm_compute; done) ltac:(vm_compute; reflexivity)) as (H1 & H2 & _).
  split; [exact H1|exact H2].
Defined.
