(* ===== verification/ReloadRetry.v ===== *)
(** * The inbounds under the controller

    The three inbounds as implementations of what the controller asks of an
    inbound, and the controller's reload retry proved against that interface:
    a node change is either in effect or scheduled to be tried again. *)

From S2P Require Import Prelude GoStrings Float64 Api Authenticator PanelUsers Controller UserSync ControllerInv.
From S2P Require Import Reload AnytlsInbound NaiveInbound Hysteria2Inbound.

Open Scope Z_scope.

(** ** From a user table inside an inbound to the controller's view of it *)

Section lens.
Context {I U WI : Type} `{UserInboundSpec U}.
Context (get : I → U) (set : I → U → I) (conf : I → WI → NodeInfo → I * result unit).
Context (get_set : ∀ i u, get (set i u) = u).

Definition lens_inbound : PanelInbound I WI :=
  {| is_PIncremental := true; is_PInbound := true; is_PConfigurable := true;
     pi_AddUsers i _ us := (set i (AddUsers (get i) us), Ok tt);
     pi_RemoveUsers i _ names := (set i (RemoveUsers (get i) names), Ok tt);
     pi_RefreshUsers i _ us := (set i (RefreshUsers (get i) us), Ok tt);
     pi_ConfigureFromPanelNode := conf |}.

Lemma lens_users : @PanelUsers I WI lens_inbound.
Proof.
  refine (@Build_PanelUsers I WI lens_inbound (λ i, inbound_ok (get i)) (λ i, users_view (get i)) _ _ _);
    intros i w us Hok; cbn; rewrite get_set; [apply AddUsers_spec|apply RemoveUsers_spec|apply RefreshUsers_spec]; done.
Defined.
End lens.

Section instances.
Context {Sv : Type} `{UserServiceSpec Sv, RangeOrder}.

Definition anytls_set (h : AnytlsInbound.Inbound Sv) (s : Sv) : AnytlsInbound.Inbound Sv :=
  {| AnytlsInbound.options := AnytlsInbound.options h; AnytlsInbound.tlsConfig := AnytlsInbound.tlsConfig h;
     AnytlsInbound.listener := AnytlsInbound.listener h; AnytlsInbound.service := s;
     AnytlsInbound.started := AnytlsInbound.started h; AnytlsInbound.held := AnytlsInbound.held h |}.
#[export] Instance anytls_panel : PanelInbound (AnytlsInbound.Inbound Sv) machine | 10 :=
  @lens_inbound _ Sv machine Anytls.anytls_users AnytlsInbound.service anytls_set AnytlsInbound.ConfigureFromPanelNode.
#[export] Instance anytls_panel_users : PanelUsers (AnytlsInbound.Inbound Sv) machine | 10.
Proof. apply (lens_users (H0 := Anytls.anytls_users_spec)). done. Defined.

Definition naive_set (n : NaiveInbound.Inbound) (t : Naive.userTable) : NaiveInbound.Inbound :=
  {| NaiveInbound.options := NaiveInbound.options n; NaiveInbound.tlsConfig := NaiveInbound.tlsConfig n;
     NaiveInbound.listener := NaiveInbound.listener n; NaiveInbound.users := t;
     NaiveInbound.net_tcp := NaiveInbound.net_tcp n; NaiveInbound.net_udp := NaiveInbound.net_udp n;
     NaiveInbound.started := NaiveInbound.started n; NaiveInbound.closed := NaiveInbound.closed n;
     NaiveInbound.held := NaiveInbound.held n |}.
#[export] Instance naive_panel : PanelInbound NaiveInbound.Inbound machine | 10 :=
  @lens_inbound _ Naive.userTable machine Naive.naive_users NaiveInbound.users naive_set NaiveInbound.ConfigureFromPanelNode.
#[export] Instance naive_panel_users : PanelUsers NaiveInbound.Inbound machine | 10.
Proof. apply (lens_users (H0 := Naive.naive_users_spec)). done. Defined.

(** The user operations of hysteria2 write the mirror and the service. *)
Definition hy2_users (h : Hysteria2Inbound.Inbound Sv) : Hysteria2.users_state Sv :=
  {| Hysteria2.currentUsers := Hysteria2Inbound.currentUsers h;
     Hysteria2.service := Hysteria2Inbound.sv_users (Hysteria2Inbound.service h) |}.
Definition hy2_set (h : Hysteria2Inbound.Inbound Sv) (u : Hysteria2.users_state Sv) : Hysteria2Inbound.Inbound Sv :=
  let s := Hysteria2Inbound.service h in
  {| Hysteria2Inbound.options := Hysteria2Inbound.options h;
     Hysteria2Inbound.tlsConfig := Hysteria2Inbound.tlsConfig h;
     Hysteria2Inbound.listener := Hysteria2Inbound.listener h;
     Hysteria2Inbound.service :=
       {| Hysteria2Inbound.sv_users := Hysteria2.service u;
          Hysteria2Inbound.sv_salamander := Hysteria2Inbound.sv_salamander s;
          Hysteria2Inbound.sv_gecko := Hysteria2Inbound.sv_gecko s;
          Hysteria2Inbound.sv_running := Hysteria2Inbound.sv_running s |};
     Hysteria2Inbound.currentUsers := Hysteria2.currentUsers u;
     Hysteria2Inbound.started := Hysteria2Inbound.started h; Hysteria2Inbound.held := Hysteria2Inbound.held h |}.
#[export] Instance hysteria2_panel : PanelInbound (Hysteria2Inbound.Inbound Sv) machine | 10 :=
  @lens_inbound _ (Hysteria2.users_state Sv) machine Hysteria2.hysteria2_users hy2_users hy2_set
    Hysteria2Inbound.ConfigureFromPanelNode.
#[export] Instance hysteria2_panel_users : PanelUsers (Hysteria2Inbound.Inbound Sv) machine | 10.
Proof. apply (lens_users (H0 := Hysteria2.hysteria2_users_spec)). by intros i []. Defined.
End instances.

(** ** What a reload promises

    [pr_towards i n]: the inbound serves, or a reload to [n] would still
    change something.  From there a reload to [n] that reports success serves
    [n], and one that fails is still on its way.  The user operations do not
    interfere. *)
Class PanelReload (I WI : Type) `{PanelInbound I WI} := {
  pr_towards : I → NodeInfo → Prop;
  pr_serves : I → NodeInfo → Prop;
  pr_configurable : is_PConfigurable = true;
  pr_configure : ∀ i w n, pr_towards i n →
    let '(i', r) := pi_ConfigureFromPanelNode i w n in
    match r with
    | Ok _ => pr_serves i' n ∧ ∀ n', pr_towards i' n'
    | Err _ => pr_towards i' n
    | Panic _ => False
    end;
  pr_AddUsers : ∀ i w us n,
    (pr_towards i n → pr_towards (pi_AddUsers i w us).1 n) ∧ (pr_serves i n → pr_serves (pi_AddUsers i w us).1 n);
  pr_RemoveUsers : ∀ i w names n,
    (pr_towards i n → pr_towards (pi_RemoveUsers i w names).1 n) ∧ (pr_serves i n → pr_serves (pi_RemoveUsers i w names).1 n);
  pr_RefreshUsers : ∀ i w us n,
    (pr_towards i n → pr_towards (pi_RefreshUsers i w us).1 n) ∧ (pr_serves i n → pr_serves (pi_RefreshUsers i w us).1 n);
}.

(** The options are the panel's: a reload to the node would change nothing. *)
Definition settled_opts (o : lopts) (n : NodeInfo) : Prop := o_ListenPort o = u16 (ni_Port n) ∧ panel_opts o n = o.

Lemma panel_opts_settled o n : settled_opts (panel_opts o n) n.
Proof.
  split; [done|]. unfold panel_opts. cbn. destruct (bool_decide (ni_Host n = "")) eqn:E; [done|].
  by destruct (o_TLS o).
Qed.

#[export] Program Instance anytls_reload `{UserServiceSpec Sv} : PanelReload (AnytlsInbound.Inbound Sv) machine | 10 :=
  {| pr_towards h _ := AnytlsInbound.up h;
     pr_serves h n := AnytlsInbound.up h ∧ settled_opts (AnytlsInbound.options h) n |}.
Next Obligation. done. Qed.
Next Obligation.
  intros Sv ? ? h m n Hup. cbn. pose proof (AnytlsInbound.anytls_outcome h m n Hup) as Hc.
  destruct (AnytlsInbound.ConfigureFromPanelNode h m n) as [h' [[]|e|w]]; [|by subst|done].
  destruct Hc as (Hu & Ho & _). split; [|done]. split; [done|]. rewrite Ho. apply panel_opts_settled.
Qed.
Next Obligation. done. Qed.
Next Obligation. done. Qed.
Next Obligation. done. Qed.

#[export] Program Instance naive_reload : PanelReload NaiveInbound.Inbound machine | 10 :=
  {| pr_towards n _ := NaiveInbound.up n;
     pr_serves n nodeInfo := NaiveInbound.up n ∧ settled_opts (NaiveInbound.options n) nodeInfo |}.
Next Obligation. done. Qed.
Next Obligation.
  intros n m nodeInfo Hup. cbn. pose proof (NaiveInbound.naive_outcome n m nodeInfo Hup) as Hc.
  destruct (NaiveInbound.ConfigureFromPanelNode n m nodeInfo) as [n' [[]|e|w]]; [|by subst|done].
  destruct Hc as (Hu & Ho & _). split; [|done]. split; [done|]. rewrite Ho. apply panel_opts_settled.
Qed.
Next Obligation. done. Qed.
Next Obligation. done. Qed.
Next Obligation. done. Qed.

#[export] Program Instance hysteria2_reload_contract `{UserServiceSpec Sv, RangeOrder}
    : PanelReload (Hysteria2Inbound.Inbound Sv) machine | 10 :=
  {| pr_towards h n := Hysteria2Inbound.wired h true
       ∨ (Hysteria2Inbound.wired h false
          ∧ panel_opts (Hysteria2Inbound.h_base (Hysteria2Inbound.options h)) n ≠ Hysteria2Inbound.h_base (Hysteria2Inbound.options h));
     pr_serves h n := Hysteria2Inbound.wired h true ∧ settled_opts (Hysteria2Inbound.h_base (Hysteria2Inbound.options h)) n |}.
Next Obligation. done. Qed.
Next Obligation.
  intros Sv ? ? ? h m n Htow. cbn.
  assert (∃ b, Hysteria2Inbound.wired h b) as [b Hw] by (destruct Htow as [|[? _]]; eauto).
  pose proof (Hysteria2Inbound.reload_wired h m n b Hw) as Hc.
  destruct (Hysteria2Inbound.ConfigureFromPanelNode h m n) as [h' [[]|e|w]]; [| |by destruct Hc]; destruct Hc as [_ Hc].
  - destruct Hc as [Ho Hc].
    assert (Hysteria2Inbound.wired h' true) as Hw'; [|split; [split; [done|rewrite Ho; apply panel_opts_settled]|by left]].
    case_bool_decide; [|by destruct Hc]. subst h'. by destruct Htow as [|[? ?]].
  - destruct Hc as [->|(_ & Hne & Hw' & _ & Ho)]; [done|]. right. by rewrite Ho.
Qed.
Next Obligation. done. Qed.
Next Obligation. done. Qed.
Next Obligation. done. Qed.

(** ** The controller retries until the node is served *)

Section retry.
Context `{RangeOrder, Regexp} {C W : Type} `{PanelAPI C W} {I WI : Type} `{PanelInbound I WI}
  `{!PanelReload I WI}.
Implicit Types (c : Controller C I) (e : Env W WI) (n : NodeInfo).

(** What the user calls keep, a user sync keeps. *)
Definition users_keep (P : I → Prop) : Prop :=
  ∀ i w, P i → (∀ us, P (pi_AddUsers i w us).1) ∧ (∀ names, P (pi_RemoveUsers i w names).1)
               ∧ (∀ us, P (pi_RefreshUsers i w us).1).

Lemma apply_keep P c e deleted delta runtime :
  users_keep P → P (k_inbound c) → P (applyRuntimeUserDelta c e deleted delta runtime).1.
Proof.
  intros HP Hi. unfold applyRuntimeUserDelta. destruct is_PIncremental.
  - set (ir := if bool_decide (deleted = []) then _ else _).
    assert (P ir.1) as Hir by (unfold ir; case_bool_decide; [done|by apply HP]).
    destruct ir as [i [[]|err|w]]; cbn in *; [|done..]. case_bool_decide; [done|by apply HP].
  - destruct is_PInbound; [by apply HP|done].
Qed.

Lemma sync_list_keep P c e l : users_keep P → P (k_inbound c) → P (k_inbound (sync_list c e l).1).
Proof.
  intros HP Hi. unfold sync_list. set (d := diffUsers _ _ _).
  set (c1 := if bool_decide (d_deleted d = []) then c else _).
  assert (k_inbound c1 = k_inbound c) as E1.
  { unfold c1. case_bool_decide; [done|]. by destruct (dump_shape c e (d_deleted d)) as (au & cl & calls & ->). }
  set (ir := if negb _ then _ else _).
  assert (P ir.1) as Hir.
  { unfold ir. destruct (negb _); [apply apply_keep; [done|by rewrite E1]|cbn; by rewrite E1]. }
  destruct ir as [i [[]|err|w]]; cbn [fst] in *; [|done..].
  by destruct (commit_users_shape (with_inbound c1 i) d) as [au ->].
Qed.

Lemma syncUserList_keep P c e : users_keep P → P (k_inbound c) → P (k_inbound (syncUserList c e).1).
Proof.
  intros HP Hi. unfold syncUserList. destruct (GetUserList _ _) as [cl [us|err|w]];
    [by apply sync_list_keep| |done].
  destruct (negb (is_text err UserNotModified)); [done|]. cbn [k_userSyncPending with_client].
  destruct (negb _); [done|by apply sync_list_keep].
Qed.

(** The node [n] is known, and either served or scheduled for a retry. *)
Definition reload_inv n c : Prop :=
  k_nodeInfo c = Some n ∧ pr_towards (k_inbound c) n
  ∧ (k_reloadPending c = false → pr_serves (k_inbound c) n).

Definition node_304 e : Prop :=
  ∀ cl : C, ∃ cl' err, GetNodeInfo cl (e_net e) = (cl', Err err) ∧ is_text err NodeNotModified = true.

(** In state [c], a cycle in which nothing fails. *)
Definition good_at n c e : Prop :=
  delayed c e = false
  ∧ ∃ cl r, GetNodeInfo (k_client c) (e_net e) = (cl, r) ∧
      let s := syncUserList (with_node (with_client c cl) (Some n) (k_Tag c)) e in
      s.2 = Ok tt ∧ (∀ c', (refreshDetectRules c' e).2 = Ok tt)
      ∧ is_ok (pi_ConfigureFromPanelNode (k_inbound s.1) (e_inb e) n).2 = true.

Lemma towards_keep n : users_keep (λ i, pr_towards i n).
Proof. intros i w Hi. split_and!; intros; [by apply pr_AddUsers|by apply pr_RemoveUsers|by apply pr_RefreshUsers]. Qed.
Lemma serves_keep n : users_keep (λ i, pr_serves i n).
Proof. intros i w Hi. split_and!; intros; [by apply pr_AddUsers|by apply pr_RemoveUsers|by apply pr_RefreshUsers]. Qed.

Lemma refreshAll_inbound c :
  k_inbound (refreshAllSpeedLimits c) = k_inbound c ∧ k_nodeInfo (refreshAllSpeedLimits c) = k_nodeInfo c
  ∧ k_reloadPending (refreshAllSpeedLimits c) = k_reloadPending c.
Proof.
  unfold refreshAllSpeedLimits.
  destruct (foldl_author (λ c '(hash, u), ApplyUserLimits c hash u) c (range (k_usersMap c))) as [au ->]; [|done].
  intros c1 [h u]. eexists. reflexivity.
Qed.

Lemma refreshDetectRules_inbound c e : k_inbound (refreshDetectRules c e).1 = k_inbound c.
Proof. unfold refreshDetectRules. destruct (GetNodeRule _ _) as [cl [r|er|w]]; [done|by destruct (is_text _ _)|done]. Qed.

(** The reload step itself: from a state on its way to [n], or serving it. *)
Lemma monitor_reload_inv n c e b :
  k_nodeInfo c = Some n → pr_towards (k_inbound c) n →
  (b = false → k_reloadPending c = false → pr_serves (k_inbound c) n) →
  reload_inv n (monitor_reload c e b).1
  ∧ (is_ok (pi_ConfigureFromPanelNode (k_inbound c) (e_inb e) n).2 = true → k_reloadPending (monitor_reload c e b).1 = false)
  ∧ (b = false → k_reloadPending c = false → k_reloadPending (monitor_reload c e b).1 = false).
Proof.
  intros Hn Ht Hs. unfold monitor_reload. rewrite pr_configurable, andb_true_r.
  destruct (b || k_reloadPending c) eqn:E.
  - unfold configure_inbound. rewrite Hn. pose proof (pr_configure (k_inbound c) (e_inb e) n Ht) as Hc.
    destruct (pi_ConfigureFromPanelNode (k_inbound c) (e_inb e) n) as [i [[]|err|w]]; [| |done].
    + destruct Hc as [Hsv Hto]. split; [|done]. split; [done|]. split; [apply Hto|done].
    + split; [done|]. split; [done|]. intros -> Hp. by rewrite Hp in E.
  - apply orb_false_iff in E as [-> Hp]. split; [|done]. split; [done|]. split; [done|]. intros _. auto.
Qed.

(** The part of a tick after the user sync. *)
Definition tick_tail c e (n : NodeInfo) (prev : Z) (b : bool) : Controller C I * result unit :=
  let c := if bool_decide (ni_SpeedLimit n = prev) then c else refreshAllSpeedLimits c in
  let '(c, r) := refreshDetectRules c e in
  match r with Panic w => (c, Panic w) | _ => monitor_reload c e b end.

Lemma tick_tail_inv n c e b prev :
  k_nodeInfo c = Some n → pr_towards (k_inbound c) n →
  (b = false → k_reloadPending c = false → pr_serves (k_inbound c) n) →
  (b = false ∨ ∀ c', (refreshDetectRules c' e).2 = Ok tt) →
  reload_inv n (tick_tail c e n prev b).1
  ∧ ((∀ c', (refreshDetectRules c' e).2 = Ok tt) → is_ok (pi_ConfigureFromPanelNode (k_inbound c) (e_inb e) n).2 = true →
     k_reloadPending (tick_tail c e n prev b).1 = false)
  ∧ (b = false → k_reloadPending c = false → k_reloadPending (tick_tail c e n prev b).1 = false).
Proof.
  intros Hn Ht Hs Hr. unfold tick_tail.
  set (c1 := if bool_decide _ then c else _).
  assert (k_inbound c1 = k_inbound c ∧ k_nodeInfo c1 = k_nodeInfo c ∧ k_reloadPending c1 = k_reloadPending c) as (E1 & E2 & E3).
  { unfold c1. case_bool_decide; [done|apply refreshAll_inbound]. }
  pose proof (refreshDetectRules_inbound c1 e) as F1.
  destruct (refreshDetectRules_other c1 e) as (_ & _ & _ & F2 & F3).
  assert ((∀ c', (refreshDetectRules c' e).2 = Ok tt) → (refreshDetectRules c1 e).2 = Ok tt) as Hok by auto.
  destruct (refreshDetectRules c1 e) as [c2 r]. cbn [fst snd] in *. rewrite E1 in F1. rewrite E2, Hn in F2. rewrite E3 in F3.
  destruct (monitor_reload_inv n c2 e b) as (G1 & G2 & G3); [done|by rewrite F1|by rewrite F1, F3|].
  rewrite F1 in G2. rewrite F3 in G3. destruct r as [[]|err|w]; [auto..|]. cbn [fst]. split_and!.
  - destruct Hr as [->|Hr]; [|by apply Hok in Hr]. split; [done|]. rewrite F1, F3. auto.
  - intros Hr'. by apply Hok in Hr'.
  - intros _ Hp. by rewrite F3.
Qed.

Lemma tick_304 n c e :
  reload_inv n c → ni_Port n ≠ 0 → node_304 e →
  reload_inv n (nodeInfoMonitor c e).1
  ∧ (good_at n c e ∨ k_reloadPending c = false → k_reloadPending (nodeInfoMonitor c e).1 = false).
Proof.
  intros (Hn & Ht & Hs) Hp He. unfold nodeInfoMonitor, good_at.
  destruct (delayed c e) eqn:Ed; [split; [done|]; by intros [[? _]|]|].
  destruct (He (k_client c)) as (cl & err & -> & ->). cbn [k_nodeInfo with_client k_Tag]. rewrite Hn.
  rewrite bool_decide_eq_false_2 by done. set (c1 := with_node _ _ _).
  destruct (syncUserList_frame c1 e) as [En Er].
  pose proof (syncUserList_keep _ c1 e (towards_keep n) Ht) as Ht2.
  assert (k_reloadPending c = false → pr_serves (k_inbound (syncUserList c1 e).1) n) as Hs2.
  { intros Hf. apply (syncUserList_keep _ c1 e (serves_keep n)). auto. }
  destruct (syncUserList c1 e) as [c2 r] eqn:Es. cbn [fst snd] in *.
  assert (reload_inv n c2) as Hi2 by (split; [done|]; split; [done|]; by rewrite Er).
  assert (∀ cl' r', (cl, Err err : result NodeInfo) = (cl', r') → with_node (with_client c cl') (Some n) (k_Tag c) = c1) as Hcl
    by (by intros cl' r' [= <- <-]).
  destruct r as [[]|er|w].
  2,3: split; [done|]; intros [(_ & cl' & r' & E & Hg)|Hf]; [|exact (eq_trans Er Hf)];
       rewrite (Hcl _ _ E), Es in Hg; by destruct Hg.
  destruct (tick_tail_inv n c2 e false (nodeSpeedLimit (with_client c cl))) as (G1 & G2 & G3);
    [done|done|by rewrite Er|by left|].
  split; [exact G1|]. intros [(_ & cl' & r' & E & Hg)|Hf]; [|apply G3; [done|by rewrite Er]].
  rewrite (Hcl _ _ E), Es in Hg. destruct Hg as (_ & Hr & Hok). by apply G2.
Qed.

Lemma ticks_304 n es c :
  ni_Port n ≠ 0 → Forall node_304 es → reload_inv n c →
  let c' := foldl (λ c e, (nodeInfoMonitor c e).1) c es in
  reload_inv n c' ∧ (k_reloadPending c = false → k_reloadPending c' = false).
Proof.
  intros Hp Hes. revert c. induction Hes as [|e es He Hes IH]; intros c Hc; [done|]. cbn [foldl].
  destruct (tick_304 n c e Hc Hp He) as [Hc2 Hend]. destruct (IH _ Hc2) as [Hc3 Hend2]. auto.
Qed.

(** (C30) A node change reaches the inbound.  Let the inbound be serving before
    the change, or at least ([pr_towards]) be down in a way the new node's
    options still differ from its own (an hysteria2 inbound that is down with
    the new node's options stays down: hysteria2_revert_stays_down).  Take a
    tick that is past the start delay, fetches a new node with a port, syncs the
    users and gets the rules.  Then under any number of cycles in which the panel
    answers NodeNotModified and ports, certificates or user calls fail at will:
    when no retry is pending the inbound serves the node, and one cycle in which
    nothing fails is enough to get there.  This holds of every inbound that keeps
    the reload contract, which anytls, naive and hysteria2 do. *)
Theorem reload_reaches_node c e0 cl n es :
  pr_towards (k_inbound c) n →
  delayed c e0 = false → GetNodeInfo (k_client c) (e_net e0) = (cl, Ok n) → ni_Port n ≠ 0 →
  (syncUserList (with_node (with_client c cl) (Some n) (k_Tag c)) e0).2 = Ok tt →
  (∀ c', (refreshDetectRules c' e0).2 = Ok tt) →
  Forall node_304 es →
  let c' := foldl (λ c e, (nodeInfoMonitor c e).1) (nodeInfoMonitor c e0).1 es in
  (k_reloadPending c' = false → pr_serves (k_inbound c') n)
  ∧ (∀ es1 e es2, es = es1 ++ e :: es2 →
       good_at n (foldl (λ c e, (nodeInfoMonitor c e).1) (nodeInfoMonitor c e0).1 es1) e →
       k_reloadPending c' = false).
Proof.
  intros Ht Hd Hg Hp Hsync Hrules Hes.
  assert (reload_inv n (nodeInfoMonitor c e0).1) as Hinv.
  { unfold nodeInfoMonitor. rewrite Hd, Hg, bool_decide_eq_false_2 by done. cbn [k_Tag with_client].
    set (c1 := with_node _ _ _) in *. destruct (syncUserList_frame c1 e0) as [En _].
    pose proof (syncUserList_keep _ c1 e0 (towards_keep n) Ht) as Ht2.
    destruct (syncUserList c1 e0) as [c2 r]. cbn [fst snd] in *. subst r.
    apply (tick_tail_inv n c2 e0 true (nodeSpeedLimit (with_client c cl))); [done|done|done|by right]. }
  revert Hinv. generalize (nodeInfoMonitor c e0).1. clear -Hes Hp. intros c1 Hinv.
  split; [by apply ticks_304|]. intros es1 e es2 -> Hgood.
  apply Forall_app in Hes as [Hes1 [He Hes2]%Forall_cons].
  destruct (ticks_304 n es1 c1 Hp Hes1 Hinv) as [Hinv1 _]. rewrite foldl_app. cbn [foldl].
  destruct (tick_304 n _ e Hinv1 Hp He) as [Hinv2 Hend]. apply (ticks_304 n es2 _ Hp Hes2 Hinv2). auto.
Qed.
End retry.

(** ** A concrete run: the port is taken at first *)

Definition env_m (m : machine) (w : script) : Env script machine :=
  {| e_net := w; e_inb := m; e_now := 100 * 10 ^ 9; e_sys := Err (EStd "stat") |}.
Definition controller_hy2 : Controller unit (Hysteria2Inbound.Inbound (gmap string string)) :=
  new_controller config0 tt Hysteria2Inbound.hy2_0 0.
Definition node_b : NodeInfo := panel_node "hysteria2" "b.example" 443.

Lemma reload_reaches_node_witness :
  let c1 := (nodeInfoMonitor controller_hy2 (env_m port_taken (script1 node_b []))).1 in
  let c2 := (nodeInfoMonitor c1 (env_m fine script0)).1 in
  k_reloadPending c1 = true ∧ k_reloadPending c2 = false
  ∧ r_socks (Hysteria2Inbound.held (k_inbound c2)) = {[udp 443]}.
Proof.
  split; [vm_compute; reflexivity|]. split; [|vm_compute; reflexivity].
  refine (proj2 (reload_reaches_node controller_hy2 (env_m port_taken (script1 node_b [])) tt node_b
    [env_m fine script0] _ _ _ _ _ _ _) [] (env_m fine script0) [] eq_refl _).
  - left. apply Hysteria2Inbound.hy2_0_live.
  - vm_compute; reflexivity.
  - reflexivity.
  - vm_compute; congruence.
  - vm_compute; reflexivity.
  - intros c'. reflexivity.
  - repeat constructor. intros cl. exists cl, (ENew NodeNotModified). done.
  - split; [vm_compute; reflexivity|]. exists tt, (Err (ENew NodeNotModified)). split; [reflexivity|].
    split; [vm_compute; reflexivity|]. split; [intros c'; reflexivity|vm_compute; reflexivity].
Defined.
