(* ===== verification/Periodic.v ===== *)
(** * poet/common/task/periodic.go: the periodic task as a state machine

    A Periodic is shared by the goroutine that starts it, the timers that fire
    it and whoever closes it.  Each critical section of its mutex is one step;
    Execute runs outside the mutex, so a call may be in flight while the other
    steps happen.  The last part runs the controller's node monitor under the
    task. *)

From S2P Require Import Prelude GoStrings Float64 Api Authenticator PanelUsers Controller UserSync ControllerInv.

(** ** State and steps *)

(** Where a goroutine is: before hasClosed, inside Execute, or in Start after
    checkedExecute returned an error. *)
Inductive pc := Checking | Executing | Failing.

(** [t_start]: the goroutine runs Start's call of checkedExecute, not a timer's. *)
Record thread := { t_start : bool; t_pc : pc }.

(** Which critical section a step is. *)
Inductive label := LStart | LCheck | LReturn | LFail | LFire | LClose.
#[export] Instance label_eq_dec : EqDecision label.
Proof. solve_decision. Defined.

Section periodic.
(** Execute works on the state [S] of the task's owner; [E] is what it reads
    from outside during one call. *)
Context {S E : Type} (execute : S → E → S * result unit).

(** [p_armed] are the timers that have not fired, [p_timer] the one the task
    remembers, [p_next] the next fresh timer. *)
Record Periodic := {
  p_running : bool;
  p_threads : list thread;
  p_armed : gset nat; p_timer : option nat; p_next : nat;
  p_state : S;
}.

Definition new_periodic (s : S) : Periodic :=
  {| p_running := false; p_threads := []; p_armed := ∅; p_timer := None; p_next := 0; p_state := s |}.

Definition with_threads (p : Periodic) (running : bool) (ts : list thread) : Periodic :=
  {| p_running := running; p_threads := ts; p_armed := p_armed p; p_timer := p_timer p;
     p_next := p_next p; p_state := p_state p |}.
Definition with_state (p : Periodic) (s : S) : Periodic :=
  {| p_running := p_running p; p_threads := p_threads p; p_armed := p_armed p; p_timer := p_timer p;
     p_next := p_next p; p_state := s |}.
Definition with_timer (p : Periodic) (armed : gset nat) (timer : option nat) (next : nat) : Periodic :=
  {| p_running := p_running p; p_threads := p_threads p; p_armed := armed; p_timer := timer;
     p_next := next; p_state := p_state p |}.

(** time.AfterFunc, and the store into [t.timer]. *)
Definition arm (p : Periodic) : Periodic :=
  with_timer p ({[p_next p]} ∪ p_armed p) (Some (p_next p)) (Datatypes.S (p_next p)).
(** [t.timer.Stop(); t.timer = nil] *)
Definition stop_timer (p : Periodic) : Periodic :=
  match p_timer p with
  | Some i => with_timer p (p_armed p ∖ {[i]}) None (p_next p)
  | None => p
  end.


Inductive step : Periodic → label → Periodic → Prop :=
  (** Start, first critical section; a running task is left alone. *)
  | StartRunning p : p_running p = true → step p LStart p
  | StartIdle p : p_running p = false →
      step p LStart (with_threads p true ({| t_start := true; t_pc := Checking |} :: p_threads p))
  (** checkedExecute: hasClosed decides between Execute and returning. *)
  | CheckOpen p l1 b l2 :
      p_threads p = l1 ++ {| t_start := b; t_pc := Checking |} :: l2 → p_running p = true →
      step p LCheck (with_threads p true (l1 ++ {| t_start := b; t_pc := Executing |} :: l2))
  | CheckClosed p l1 b l2 :
      p_threads p = l1 ++ {| t_start := b; t_pc := Checking |} :: l2 → p_running p = false →
      step p LCheck (with_threads p false (l1 ++ l2))
  (** Execute returned an error: running is cleared; a goroutine in Start has
      its own error branch still to run. *)
  | ExecuteFails p l1 b l2 e s err :
      p_threads p = l1 ++ {| t_start := b; t_pc := Executing |} :: l2 →
      execute (p_state p) e = (s, Err err) →
      step p LReturn (with_threads (with_state p s) false
        (l1 ++ (if b then [{| t_start := true; t_pc := Failing |}] else []) ++ l2))
  (** Execute returned nil: the next timer is armed, unless closed meanwhile. *)
  | ExecuteOk p l1 b l2 e s :
      p_threads p = l1 ++ {| t_start := b; t_pc := Executing |} :: l2 →
      execute (p_state p) e = (s, Ok tt) → p_running p = true →
      step p LReturn (arm (with_threads (with_state p s) true (l1 ++ l2)))
  | ExecuteOkClosed p l1 b l2 e s :
      p_threads p = l1 ++ {| t_start := b; t_pc := Executing |} :: l2 →
      execute (p_state p) e = (s, Ok tt) → p_running p = false →
      step p LReturn (with_threads (with_state p s) false (l1 ++ l2))
  (** Start's error branch. *)
  | StartFails p l1 b l2 :
      p_threads p = l1 ++ {| t_start := b; t_pc := Failing |} :: l2 →
      step p LFail (with_threads p false (l1 ++ l2))
  (** A timer fires: its goroutine enters checkedExecute. *)
  | Fire p i : i ∈ p_armed p →
      step p LFire (with_timer (with_threads p (p_running p) ({| t_start := false; t_pc := Checking |} :: p_threads p))
                      (p_armed p ∖ {[i]}) (p_timer p) (p_next p))
  | CloseStep p : step p LClose (stop_timer (with_threads p false (p_threads p))).

(** A sequence of steps, with its labels. *)
Inductive steps : Periodic → list label → Periodic → Prop :=
  | steps_nil p : steps p [] p
  | steps_cons p l p' ls p'' : step p l p' → steps p' ls p'' → steps p (l :: ls) p''.

(** ** Runs *)

(** Nothing of an earlier activation is left. *)
Definition idle (p : Periodic) : Prop := p_threads p = [] ∧ p_armed p = ∅.

(** Goroutines and timers that keep the task going. *)
Definition chains (p : Periodic) : nat := length (p_threads p) + size (p_armed p).

(** Runs in which the task is activated only when nothing of it is left, as
    the controller does (it starts each task once). *)
Inductive run (s0 : S) : Periodic → Prop :=
  | run_init : run s0 (new_periodic s0)
  | run_step p l p' : run s0 p → step p l p' → (l = LStart → p_running p = false → idle p) → run s0 p'.

Definition chain_ok (p : Periodic) : Prop :=
  (chains p ≤ 1)%nat ∧ (p_running p = true → chains p = 1%nat)
  ∧ (∀ b, p_running p = true → {| t_start := b; t_pc := Failing |} ∉ p_threads p)
  ∧ (∀ i, i ∈ p_armed p → p_timer p = Some i).

Lemma size_remove (X : gset nat) i : i ∈ X → size X = Datatypes.S (size (X ∖ {[i]})).
Proof.
  intros Hi. transitivity (size ({[i]} ∪ X ∖ {[i]})).
  - f_equal. apply leibniz_equiv. intros x. destruct (decide (x = i)); set_solver.
  - rewrite size_union by set_solver. by rewrite size_singleton.
Qed.

(** With one chain at most, a goroutine excludes every other and every timer. *)
Lemma chain_alone p l1 t l2 :
  (chains p ≤ 1)%nat → p_threads p = l1 ++ t :: l2 → l1 = [] ∧ l2 = [] ∧ p_armed p = ∅.
Proof.
  unfold chains. intros Hc Ht. rewrite Ht, length_app in Hc. cbn in Hc.
  assert (p_armed p = ∅) as -> by (apply leibniz_equiv, size_empty_inv; lia).
  destruct l1, l2; cbn in Hc; [done|lia..].
Qed.

Ltac solve_chain := cbn in *; repeat split; try lia; try congruence; try (by intros; case_all); intros; set_solver.

Lemma chain_ok_step p l p' :
  chain_ok p → step p l p' → (l = LStart → p_running p = false → idle p) → chain_ok p'.
Proof.
  intros (Hc & Hr & Hf & Ht) Hs Hidle.
  destruct Hs as [p Hrun|p Hrun|p l1 b l2 Hth Hrun|p l1 b l2 Hth Hrun|p l1 b l2 e s err Hth Hex
    |p l1 b l2 e s Hth Hex Hrun|p l1 b l2 e s Hth Hex Hrun|p l1 b l2 Hth|p i Hi|p];
    try (destruct (chain_alone _ _ _ _ Hc Hth) as (-> & -> & Harm));
    unfold chain_ok, chains in *; cbn in *; rewrite ?Harm, ?size_empty in *; cbn in *.
  - done.
  - destruct Hidle as [E1 E2]; [done..|]. rewrite E1, E2, size_empty in *. solve_chain.
  - solve_chain.
  - solve_chain.
  - destruct b; cbn; solve_chain.
  - rewrite (right_id_L ∅ (∪)), size_singleton. split; [lia|]. solve_chain.
  - solve_chain.
  - solve_chain.
  - pose proof (size_remove _ _ Hi) as Hsz. split; [lia|]. split; [lia|].
    assert (p_threads p = []) as -> by (destruct (p_threads p); [done|cbn in *; lia]).
    split; [set_solver|]. intros j [? ?]%elem_of_difference. by apply Ht.
  - unfold stop_timer. cbn. destruct (p_timer p) as [i|] eqn:Ei; cbn.
    + assert (p_armed p ∖ {[i]} = ∅) as ->.
      { apply leibniz_equiv. intros j. split; [|set_solver]. intros [Hj Hn]%elem_of_difference.
        apply Ht in Hj. simplify_eq. set_solver. }
      rewrite size_empty. split; [lia|]. solve_chain.
    + rewrite Ei. solve_chain.
Qed.

Lemma run_chain_ok s0 p : run s0 p → chain_ok p.
Proof.
  induction 1 as [|p l p' _ IH Hs Hi]; [|by eapply chain_ok_step].
  unfold chain_ok, chains. cbn. rewrite size_empty. split; [lia|]. done.
Qed.

(** ** A task that stopped stays stopped *)

(** Without Start, a task that is not running and has no call of Execute in
    flight never executes again. *)
Definition quiet (p : Periodic) : Prop :=
  p_running p = false ∧ ∀ b, {| t_start := b; t_pc := Executing |} ∉ p_threads p.

Lemma quiet_step p l p' : quiet p → step p l p' → l ≠ LStart → quiet p' ∧ p_state p' = p_state p.
Proof.
  unfold quiet. intros [Hr He] Hs Hl.
  destruct Hs as [p Hrun|p Hrun|p l1 b l2 Hth Hrun|p l1 b l2 Hth Hrun|p l1 b l2 e s err Hth Hex
    |p l1 b l2 e s Hth Hex Hrun|p l1 b l2 e s Hth Hex Hrun|p l1 b l2 Hth|p i Hi|p]; try congruence; cbn;
    try rewrite Hth in He.
  - set_solver.
  - destruct (He b). set_solver.
  - destruct (He b). set_solver.
  - set_solver.
  - split; [|done]. split; [done|]. set_solver.
  - unfold stop_timer. cbn. by destruct (p_timer p).
Qed.

Lemma quiet_steps p ls p' : quiet p → steps p ls p' → LStart ∉ ls → quiet p' ∧ p_state p' = p_state p.
Proof.
  intros Hq Hs. induction Hs as [|p l p1 ls p2 Hs _ IH]; intros Hl; [done|].
  apply not_elem_of_cons in Hl as [Hl Hls]. destruct (quiet_step _ _ _ Hq Hs (not_eq_sym Hl)) as [Hq1 Heq].
  destruct (IH Hq1 Hls) as [? E2]. split; [done|]. congruence.
Qed.

(** Calls of Execute in flight, and calls that returned during a run. *)
Definition is_executing (t : thread) : bool := match t_pc t with Executing => true | _ => false end.
Definition executing (p : Periodic) : nat := length (filter (λ t, is_executing t) (p_threads p)).
Definition returns (ls : list label) : nat := length (filter (λ l, l = LReturn) ls).

Lemma stopped_step p l p' :
  p_running p = false → step p l p' → l ≠ LStart →
  p_running p' = false ∧ (returns [l] + executing p' = executing p)%nat.
Proof.
  intros Hr Hs Hl. unfold executing, returns.
  destruct Hs as [p Hrun|p Hrun|p l1 b l2 Hth Hrun|p l1 b l2 Hth Hrun|p l1 b l2 e s err Hth Hex
    |p l1 b l2 e s Hth Hex Hrun|p l1 b l2 e s Hth Hex Hrun|p l1 b l2 Hth|p i Hi|p]; try congruence; cbn;
    try (rewrite Hth, !filter_app, !length_app; destruct b; cbn);
    try (unfold stop_timer; cbn; destruct (p_timer p); cbn); split; try done; repeat case_decide; cbn in *; done || lia.
Qed.

Lemma returns_cons l ls : returns (l :: ls) = (returns [l] + returns ls)%nat.
Proof. unfold returns. rewrite !filter_cons, filter_nil. by case_decide. Qed.

Lemma returns_0 ls k p : (returns ls + k = executing p)%nat → executing p = 0%nat → LReturn ∉ ls.
Proof.
  intros Hn H0 Hin. assert (returns ls = 0%nat) as Hz by lia.
  apply nil_length_inv in Hz. assert (LReturn ∈ filter (λ l, l = LReturn) ls) as Hf by by apply list_elem_of_filter.
  rewrite Hz in Hf. set_solver.
Qed.

Lemma stopped_steps p ls p' :
  p_running p = false → steps p ls p' → LStart ∉ ls →
  p_running p' = false ∧ (returns ls + executing p' = executing p)%nat.
Proof.
  intros Hr Hs. induction Hs as [|p l p1 ls p2 Hs _ IH]; intros Hl; [done|].
  apply not_elem_of_cons in Hl as [Hl Hls]. destruct (stopped_step _ _ _ Hr Hs (not_eq_sym Hl)) as [Hr1 H1].
  destruct (IH Hr1 Hls) as [? H2]. split; [done|]. rewrite returns_cons. lia.
Qed.

(** A task activated only when nothing of an earlier activation is left
    never runs two calls of Execute at once; while it is running exactly one
    goroutine or timer keeps it going, so it does not stall; and Close disarms
    it: whatever happens afterwards without a new Start, no timer is armed and
    only the call in flight at Close, if there is one, still returns. *)
Theorem periodic_sequential s0 p p' ls p'' :
  run s0 p → step p LClose p' → steps p' ls p'' → LStart ∉ ls →
  (executing p ≤ 1)%nat ∧ (p_running p = true → chains p = 1%nat)
  ∧ p_armed p' = ∅ ∧ p_running p'' = false ∧ (returns ls ≤ executing p)%nat.
Proof.
  intros (Hc & Hr & _ & Ht)%run_chain_ok Hclose Hs Hl.
  inversion Hclose as [| | | | | | | | |q Eq Elab Ep']; subst. clear Hclose.
  set (p0 := with_threads p false (p_threads p)) in *.
  assert (p_running (stop_timer p0) = false ∧ executing (stop_timer p0) = executing p) as [Hr0 Hx].
  { unfold stop_timer. by destruct (p_timer p0). }
  destruct (stopped_steps _ _ _ Hr0 Hs Hl) as [? Hn]. split; [|split; [done|split; [|split; [done|lia]]]].
  - unfold executing, chains in *. pose proof (length_filter (λ t, is_executing t) (p_threads p)). lia.
  - apply leibniz_equiv. intros j. unfold stop_timer. cbn. destruct (p_timer p) as [i|] eqn:Ei; cbn.
    + split; [|set_solver]. intros [Hj Hn']%elem_of_difference. apply Ht in Hj. simplify_eq. set_solver.
    + split; [|set_solver]. intros Hj%Ht. congruence.
Qed.

(** Close is not final while Start may still come, which is how the
    controller uses the task (it launches Start in a goroutine of its own): a
    Close that overtakes Start is undone by it, and a restart during a call
    of Execute makes two calls overlap, of whose two timers the next Close
    stops only one. *)
Theorem close_can_be_lost s :
  (∃ p, steps (new_periodic s) [LClose; LStart; LCheck] p ∧ p_running p = true ∧ executing p = 1%nat)
  ∧ ∃ p, steps (new_periodic s) [LStart; LCheck; LClose; LStart; LCheck] p ∧ executing p = 2%nat
    ∧ ∀ e1 e2 s1 s2, execute s e1 = (s1, Ok tt) → execute s1 e2 = (s2, Ok tt) →
      ∃ p', steps p [LReturn; LReturn; LClose] p' ∧ size (p_armed p') = 1%nat.
Proof.
  split.
  - eexists. split.
    + econstructor; [apply CloseStep|]. econstructor; [by apply StartIdle|].
      econstructor; [apply (CheckOpen _ [] true []); reflexivity|]. constructor.
    + done.
  - eexists. split; [|split].
    + econstructor; [by apply StartIdle|]. econstructor; [apply (CheckOpen _ [] true []); reflexivity|].
      econstructor; [apply CloseStep|]. econstructor; [by apply StartIdle|].
      econstructor; [apply (CheckOpen _ [] true [{| t_start := true; t_pc := Executing |}]); reflexivity|].
      constructor.
    + done.
    + intros e1 e2 s1 s2 H1 H2. eexists. split.
      * econstructor; [eapply (ExecuteOk _ [] true [{| t_start := true; t_pc := Executing |}]); [done|exact H1|done]|].
        econstructor; [eapply (ExecuteOk _ [] true []); [done|exact H2|done]|].
        econstructor; [apply CloseStep|]. constructor.
      * reflexivity.
Qed.
End periodic.

Arguments Periodic : clear implicits.

(** ** The controller's node monitor under the task *)

Section monitor.
Context `{RangeOrder, Regexp} {C W : Type} `{PanelAPI C W} {I WI : Type} `{PanelInbound I WI}.

Ltac tail_no_error :=
  intros Hbad; exfalso; revert Hbad;
  destruct (syncUserList _ _) as [? [[]|?|?]]; [|done..]; cbn;
  destruct (refreshDetectRules _ _) as [? [[]|?|?]]; unfold monitor_reload; repeat (case_match; cbn); done.

(** The node monitor returns an error for a node without a port, and for
    nothing else: every failed request is logged and swallowed. *)
Lemma nodeInfoMonitor_Err (c : Controller C I) (e : Env W WI) err :
  (nodeInfoMonitor c e).2 = Err err →
  err = ENew "server port must > 0"
  ∧ ∃ n, ni_Port n = 0%Z ∧ ((GetNodeInfo (k_client c) (e_net e)).2 = Ok n ∨ k_nodeInfo c = Some n).
Proof.
  unfold nodeInfoMonitor. destruct (delayed c e); [done|].
  destruct (GetNodeInfo _ _) as [cl [n|er|w]]; cbn.
  - case_bool_decide as Hp; [intros [= <-]; eauto 6|tail_no_error].
  - destruct (is_text er NodeNotModified); [|done].
    destruct (k_nodeInfo c) as [n|] eqn:En; cbn; [|done].
    case_bool_decide as Hp; [intros [= <-]; eauto 6|tail_no_error].
  - done.
Qed.

(** The node monitor answers a node without a port with an error, and
    the task takes any error as the end: once the panel has returned Port 0 in
    one tick, the monitor never runs again and the controller's state no longer
    changes through it, whatever the panel answers later.  No other answer of
    the panel makes the monitor return an error. *)
Theorem node_monitor_stops (c0 : Controller C I) p b (e : Env W WI) cl n err c' :
  let c := p_state p in
  run nodeInfoMonitor c0 p → {| t_start := b; t_pc := Executing |} ∈ p_threads p →
  delayed c e = false → GetNodeInfo (k_client c) (e_net e) = (cl, Ok n) → ni_Port n = 0%Z →
  ((nodeInfoMonitor c' e).2 = Err err → err = ENew "server port must > 0") ∧
  ∃ p', step nodeInfoMonitor p LReturn p' ∧ p_state p' = with_client c cl ∧
    ∀ ls p'', steps nodeInfoMonitor p' ls p'' → LStart ∉ ls →
      p_state p'' = p_state p' ∧ p_running p'' = false ∧ LReturn ∉ ls.
Proof.
  intros c Hrun Hin Hd Hg Hp. split; [by intros [? _]%nodeInfoMonitor_Err|].
  destruct (run_chain_ok _ _ _ Hrun) as (Hc & _). apply list_elem_of_split in Hin as (l1 & l2 & Hth).
  destruct (chain_alone _ _ _ _ Hc Hth) as (-> & -> & _).
  assert (nodeInfoMonitor c e = (with_client c cl, Err (ENew "server port must > 0"))) as Hex.
  { unfold nodeInfoMonitor. by rewrite Hd, Hg, bool_decide_eq_true_2. }
  eexists. split; [exact (ExecuteFails _ _ _ _ _ _ _ _ Hth Hex)|]. split; [done|].
  intros ls p'' Hs Hl. set (p' := with_threads _ _ _) in *.
  assert (quiet p') as Hq by (split; [done|]; intros b'; destruct b; cbn; set_solver).
  destruct (quiet_steps _ _ _ _ Hq Hs Hl) as [[? _] ?]. split; [done|]. split; [done|].
  destruct (stopped_steps _ p' ls p'' eq_refl Hs Hl) as [_ Hn]. by eapply returns_0; destruct b.
Qed.
End monitor.

(** ** Witnesses *)

#[local] Existing Instance Naive.naive_users.

(** A task whose Execute counts its calls, closed during its first call. *)
Definition count_execute (k : nat) (_ : unit) : nat * result unit := (S k, Ok tt).
Definition first_call {A} (s : A) : Periodic A :=
  with_threads (new_periodic s) true [{| t_start := true; t_pc := Executing |}].

Lemma first_call_run {A B} (execute : A → B → A * result unit) s : run execute s (first_call s).
Proof.
  set (p1 := with_threads (new_periodic s) true [{| t_start := true; t_pc := Checking |}]).
  apply (run_step _ _ p1 LCheck); [|by apply (CheckOpen _ p1 [] true [])|done].
  by apply (run_step _ _ (new_periodic s) LStart); [constructor|apply (StartIdle _ (new_periodic s))|].
Qed.

Lemma periodic_sequential_witness :
  let p' := with_threads (first_call 0%nat) false (p_threads (first_call 0%nat)) in
  let p'' := with_threads (with_state p' 1%nat) false [] in
  steps count_execute p' [LReturn] p'' ∧ (returns [LReturn] ≤ executing (first_call 0%nat))%nat.
Proof.
  intros p' p''. assert (steps count_execute p' [LReturn] p'') as Hs.
  { econstructor; [|constructor]. by apply (ExecuteOkClosed count_execute p' [] true [] tt 1%nat). }
  split; [exact Hs|].
  apply (periodic_sequential count_execute 0%nat (first_call 0%nat) p' [LReturn] p'').
  - apply first_call_run.
  - apply (CloseStep count_execute (first_call 0%nat)).
  - exact Hs.
  - set_solver.
Defined.

Lemma node_monitor_stops_witness :
  ∃ p', step nodeInfoMonitor (first_call controller0) LReturn p' ∧ p_state p' = with_client controller0 tt ∧
    ∀ ls p'', steps nodeInfoMonitor p' ls p'' → LStart ∉ ls →
      p_state p'' = p_state p' ∧ p_running p'' = false ∧ LReturn ∉ ls.
Proof.
  apply (node_monitor_stops controller0 (first_call controller0) true
    (env0 true (script1 (node0 0 9) [user0 1 "a" 7])) tt (node0 0 9) (ENew "") controller0).
  - apply first_call_run.
  - left.
  - vm_compute; reflexivity.
  - reflexivity.
  - reflexivity.
Defined.
