(* ===== verification/Panel.v ===== *)
(** * poet/panel, poet/shortcuts and poet.go: nodes, their registration and their life

    The process-wide tables (the singleton of package shortcuts), the panel
    that builds one controller per configured node and starts them, and the
    Start/Stop pair the box calls.  Inbounds and controllers are shared by
    pointer: the tables hold indices into the stores below, and a controller
    works on the inbound object its pointer leads to, which another controller
    may share. *)

From S2P Require Import Prelude GoStrings Float64 Api SspanelParse SspanelClient Authenticator PanelUsers Controller UserSync ControllerInv.

Open Scope Z_scope.

(** panel.NodesConfig; a nil pointer is [None]. *)
Record NodesConfig := {
  nc_PanelType : string; nc_InTag : string; nc_OutTag : string;
  nc_ApiConfig : option ApiConfig; nc_ControllerConfig : option Config;
}.

Definition getDefaultControllerConfig : Config :=
  {| cf_PanelType := ""; cf_UpdatePeriodic := 60; cf_ListenIP := "0.0.0.0"; cf_SendIP := "0.0.0.0";
     cf_EnableDeviceLimit := false |}.

(** dario.cat/mergo: Merge(dst, src, WithOverride) overrides the attributes of
    dst with the non-empty attributes of src. *)
Definition override {A} (zero : A) `{EqDecision A} (dst src : A) : A := if decide (src = zero) then dst else src.
Definition merge_config (dst src : Config) : Config :=
  {| cf_PanelType := override "" (cf_PanelType dst) (cf_PanelType src);
     cf_UpdatePeriodic := override 0 (cf_UpdatePeriodic dst) (cf_UpdatePeriodic src);
     cf_ListenIP := override "" (cf_ListenIP dst) (cf_ListenIP src);
     cf_SendIP := override "" (cf_SendIP dst) (cf_SendIP src);
     cf_EnableDeviceLimit := override false (cf_EnableDeviceLimit dst) (cf_EnableDeviceLimit src) |}.
Class Mergo := {
  Merge : Config → Config → result Config;
  Merge_override : ∀ dst src, Merge dst src = Ok (merge_config dst src);
}.
#[export] Instance mergo_flat : Mergo | 100 :=
  {| Merge dst src := Ok (merge_config dst src); Merge_override _ _ := eq_refl |}.

Section panel.
Context `{RangeOrder, Regexp, Mergo} {W : Type} `{PanelAPI APIClient W} {I WI : Type} `{PanelInbound I WI}.

(** ** The process-wide tables *)

(** A controller object, with the pointer to its inbound. *)
Record node := { nd_inbound : nat; nd_ctl : Controller APIClient I }.

Record singleton := {
  ss_heap : list I;                     (* inbound objects *)
  ss_nodes : list node;                 (* controller objects *)
  ss_Inbounds : gmap string nat;
  ss_InContrls : gmap string nat;
  ss_OutContrls : gmap string nat;
}.

Definition new_singleton : singleton :=
  {| ss_heap := []; ss_nodes := []; ss_Inbounds := ∅; ss_InContrls := ∅; ss_OutContrls := ∅ |}.

(** SetInboud(&inbound, tag): the manager passes a fresh pointer. *)
Definition SetInboud (ss : singleton) (inbound : I) (tag : string) : singleton :=
  {| ss_heap := ss_heap ss ++ [inbound]; ss_nodes := ss_nodes ss;
     ss_Inbounds := <[tag := length (ss_heap ss)]> (ss_Inbounds ss);
     ss_InContrls := ss_InContrls ss; ss_OutContrls := ss_OutContrls ss |}.

Definition SetContrl (ss : singleton) (ct : nat) (inTag outTag : string) : singleton :=
  {| ss_heap := ss_heap ss; ss_nodes := ss_nodes ss; ss_Inbounds := ss_Inbounds ss;
     ss_InContrls := <[inTag := ct]> (ss_InContrls ss);
     ss_OutContrls := <[outTag := ct]> (ss_OutContrls ss) |}.

Definition GetContrlWithInTag (ss : singleton) (inTag : string) : option nat := ss_InContrls ss !! inTag.
Definition GetContrlWithOutTag (ss : singleton) (outTag : string) : option nat := ss_OutContrls ss !! outTag.

Definition set_nodes (ss : singleton) (ns : list node) : singleton :=
  {| ss_heap := ss_heap ss; ss_nodes := ns; ss_Inbounds := ss_Inbounds ss;
     ss_InContrls := ss_InContrls ss; ss_OutContrls := ss_OutContrls ss |}.
Definition set_heap (ss : singleton) (hs : list I) : singleton :=
  {| ss_heap := hs; ss_nodes := ss_nodes ss; ss_Inbounds := ss_Inbounds ss;
     ss_InContrls := ss_InContrls ss; ss_OutContrls := ss_OutContrls ss |}.

(** A method of controller [k]: it runs on the inbound its pointer leads to
    and leaves its changes there. *)
Definition on_node {A} (ss : singleton) (k : nat)
    (f : Controller APIClient I → Controller APIClient I * result A) : singleton * result A :=
  match ss_nodes ss !! k with
  | None => (ss, Panic "nil pointer dereference")
  | Some nd =>
      match ss_heap ss !! nd_inbound nd with
      | None => (ss, Panic "nil pointer dereference")
      | Some i =>
          let '(c, r) := f (with_inbound (nd_ctl nd) i) in
          (set_heap (set_nodes ss (<[k := {| nd_inbound := nd_inbound nd; nd_ctl := c |}]> (ss_nodes ss)))
             (<[nd_inbound nd := k_inbound c]> (ss_heap ss)), r)
      end
  end.

(** ** Panel *)

Record Panel := { pn_Running : bool; pn_Nodes : list nat }.
Definition NewPanel : Panel := {| pn_Running := false; pn_Nodes := [] |}.

(** The configuration a node's controller gets. *)
Definition controller_config (nc : NodesConfig) : result Config :=
  let d := getDefaultControllerConfig in
  let d := {| cf_PanelType := nc_PanelType nc; cf_UpdatePeriodic := cf_UpdatePeriodic d;
              cf_ListenIP := cf_ListenIP d; cf_SendIP := cf_SendIP d;
              cf_EnableDeviceLimit := cf_EnableDeviceLimit d |} in
  match nc_ControllerConfig nc with
  | None => Ok d
  | Some src => match Merge d src with
                | Ok c => Ok c
                | _ => Panic "read Controller Config Failed!"
                end
  end.

(** controller.New and the registration of the object. *)
Definition new_node (ss : singleton) (inbound : nat) (config : Config) (client : APIClient) (now : Z)
    (i : I) : singleton :=
  set_nodes ss (ss_nodes ss ++ [{| nd_inbound := inbound; nd_ctl := new_controller config client i now |}]).

(** One iteration of the loop over NodesConfig.  log.Panic is that of the
    default log factory, which panics. *)
Definition add_node (ss : singleton) (nodes : list nat) (now : Z) (nc : option NodesConfig)
    : singleton * list nat * result unit :=
  match nc with
  | None => (ss, nodes, Panic "nil pointer dereference")
  | Some nc =>
      match nc_ApiConfig nc with
      | None => (ss, nodes, Panic "nil pointer dereference")
      | Some api =>
          match ss_Inbounds ss !! nc_InTag nc with
          | None => (ss, nodes, Ok tt)
          | Some inbound =>
              if bool_decide (nc_PanelType nc = "SSpanel") then
                match controller_config nc, ss_heap ss !! inbound with
                | Ok config, Some i =>
                    let k := length (ss_nodes ss) in
                    let ss := new_node ss inbound config (New api).2 now i in
                    (SetContrl ss k (nc_InTag nc) (nc_OutTag nc), nodes ++ [k], Ok tt)
                | Ok _, None => (ss, nodes, Panic "nil pointer dereference")
                | Err e, _ => (ss, nodes, Err e)
                | Panic w, _ => (ss, nodes, Panic w)
                end
              else (ss, nodes, Panic "unsupport panel type: ")
          end
      end
  end.

Fixpoint add_nodes (ss : singleton) (nodes : list nat) (now : Z) (ncs : list (option NodesConfig))
    : singleton * list nat * result unit :=
  match ncs with
  | [] => (ss, nodes, Ok tt)
  | nc :: rest =>
      match add_node ss nodes now nc with
      | (ss, nodes, Ok _) => add_nodes ss nodes now rest
      | r => r
      end
  end.

(** The loop that starts the nodes; [envs] is what each of them meets. *)
Fixpoint start_nodes (ss : singleton) (envs : nat → Env W WI) (nodes : list nat) : singleton * result unit :=
  match nodes with
  | [] => (ss, Ok tt)
  | k :: rest =>
      match on_node ss k (λ c, Start c (envs k)) with
      | (ss, Ok _) => start_nodes ss envs rest
      | (ss, Err _) => (ss, Panic "Panel Start fialed: ")
      | (ss, Panic w) => (ss, Panic w)
      end
  end.

Definition PanelStart (ss : singleton) (p : Panel) (cfg : list (option NodesConfig)) (now : Z)
    (envs : nat → Env W WI) : singleton * Panel * result unit :=
  match add_nodes ss (pn_Nodes p) now cfg with
  | (ss', nodes, Ok _) =>
      if bool_decide (length nodes = length (pn_Nodes p))
      then (ss', {| pn_Running := pn_Running p; pn_Nodes := nodes |}, Panic "no Node with InTag found!")
      else
        match start_nodes ss' envs nodes with
        | (ss', Ok _) => (ss', {| pn_Running := true; pn_Nodes := nodes |}, Ok tt)
        | (ss', r) => (ss', {| pn_Running := pn_Running p; pn_Nodes := nodes |}, r)
        end
  | (ss', nodes, r) => (ss', {| pn_Running := pn_Running p; pn_Nodes := nodes |}, r)
  end.

(** Controller.Close calls Close on both periodic tasks.  The flag says that
    Start launched them (each in a goroutine of its own) and that they were not
    closed since; whether a task then executes is decided in its own state
    machine, Periodic.v, where a Close that comes before the launched Start is
    lost and a failed Execute ends the task. *)
Definition CloseController (c : Controller APIClient I) : Controller APIClient I * result unit :=
  (with_tasks c false, Ok tt).

Definition PanelClose (ss : singleton) (p : Panel) : singleton * Panel :=
  (foldl (λ ss k, (on_node ss k CloseController).1) ss (pn_Nodes p),
   {| pn_Running := false; pn_Nodes := pn_Nodes p |}).

(** ** poet.go: Start and Stop *)

Record poet := { po_ss : singleton; po_activePanel : option Panel }.

Definition PoetStart (po : poet) (cfg : result (list (option NodesConfig))) (now : Z)
    (envs : nat → Env W WI) : poet * result unit :=
  match cfg with
  | Ok cfg =>
      match PanelStart (po_ss po) NewPanel cfg now envs with
      | (ss, p, Ok _) =>
          let ss := match po_activePanel po with
                    | Some old => if pn_Running old then (PanelClose ss old).1 else ss
                    | None => ss
                    end in
          ({| po_ss := ss; po_activePanel := Some p |}, Ok tt)
      | (ss, _, r) => ({| po_ss := ss; po_activePanel := po_activePanel po |}, r)
      end
  | Err e => (po, Err e)
  | Panic w => (po, Panic w)
  end.

Definition PoetStop (po : poet) : poet :=
  match po_activePanel po with
  | None => po
  | Some p => {| po_ss := (PanelClose (po_ss po) p).1; po_activePanel := None |}
  end.
End panel.

Arguments singleton : clear implicits.
Arguments poet : clear implicits.
Arguments node : clear implicits.

(** ** Well-formed tables *)

Section facts.
Context `{RangeOrder, Regexp, Mergo} {W : Type} `{PanelAPI APIClient W} {I WI : Type} `{PanelInbound I WI}.
Implicit Types (ss : singleton I) (c : Controller APIClient I).

(** Every pointer leads to an object. *)
Definition ss_ok ss : Prop :=
  (∀ tag i, ss_Inbounds ss !! tag = Some i → (i < length (ss_heap ss))%nat)
  ∧ (∀ k nd, ss_nodes ss !! k = Some nd → (nd_inbound nd < length (ss_heap ss))%nat).

(** What one method call on controller [k] does to the tables. *)
Lemma on_node_spec {A} ss k (f : Controller APIClient I → Controller APIClient I * result A) nd :
  ss_ok ss → ss_nodes ss !! k = Some nd →
  ∃ i, ss_heap ss !! nd_inbound nd = Some i ∧
    let r := f (with_inbound (nd_ctl nd) i) in
    let ss' := (on_node ss k f).1 in
    (on_node ss k f).2 = r.2
    ∧ ss_nodes ss' = <[k := {| nd_inbound := nd_inbound nd; nd_ctl := r.1 |}]> (ss_nodes ss)
    ∧ ss_Inbounds ss' = ss_Inbounds ss ∧ ss_InContrls ss' = ss_InContrls ss
    ∧ ss_OutContrls ss' = ss_OutContrls ss ∧ ss_ok ss'.
Proof.
  intros [Hi Hn] Hk. destruct (lookup_lt_is_Some_2 (ss_heap ss) (nd_inbound nd)) as [i Hh]; [by eapply Hn|].
  exists i. split; [done|]. cbn. unfold on_node. rewrite Hk, Hh.
  destruct (f _) as [c r]. cbn. split_and!; try done. split; cbn; rewrite length_insert; [done|].
  intros k' nd' Hk'. destruct (decide (k = k')) as [<-|Hne].
  - rewrite list_lookup_insert_eq in Hk' by (by eapply lookup_lt_Some). simplify_eq/=. by eapply Hn.
  - rewrite list_lookup_insert_ne in Hk' by done. by eapply Hn.
Qed.

Lemma on_node_missing {A} ss k (f : Controller APIClient I → Controller APIClient I * result A) :
  ss_nodes ss !! k = None → on_node ss k f = (ss, Panic "nil pointer dereference").
Proof. intros Hk. unfold on_node. by rewrite Hk. Qed.

(** ** Registration *)

Definition known_in ss (ncs : list (option NodesConfig)) : list NodesConfig :=
  filter (λ nc, is_Some (ss_Inbounds ss !! nc_InTag nc)) (omap id ncs).

(** InContrls after the nodes have been registered from index [base] on. *)
Fixpoint contrl_table (base : nat) (ncs : list NodesConfig) (m : gmap string nat) : gmap string nat :=
  match ncs with
  | [] => m
  | nc :: rest => contrl_table (S base) rest (<[nc_InTag nc := base]> m)
  end.

(** A controller object registered for a node configuration. *)
Definition registered ss (nc : NodesConfig) (nd : node I) : Prop :=
  ss_Inbounds ss !! nc_InTag nc = Some (nd_inbound nd)
  ∧ controller_config nc = Ok (k_config (nd_ctl nd)) ∧ k_tasksStarted (nd_ctl nd) = false.

Lemma add_node_spec ss nodes now nc ss' nodes' :
  ss_ok ss → add_node ss nodes now nc = (ss', nodes', Ok tt) →
  ss_ok ss' ∧ ss_Inbounds ss' = ss_Inbounds ss ∧
  ∃ nc', nc = Some nc' ∧
  match ss_Inbounds ss !! nc_InTag nc' with
  | None => ss' = ss ∧ nodes' = nodes
  | Some _ =>
      nodes' = nodes ++ [length (ss_nodes ss)]
      ∧ ss_InContrls ss' = <[nc_InTag nc' := length (ss_nodes ss)]> (ss_InContrls ss)
      ∧ ∃ nd, ss_nodes ss' = ss_nodes ss ++ [nd] ∧ registered ss nc' nd
  end.
Proof.
  intros Hok. unfold add_node. destruct nc as [nc|]; [|done]. destruct (nc_ApiConfig nc) as [api|]; [|done].
  destruct (ss_Inbounds ss !! nc_InTag nc) as [inb|] eqn:Ei.
  - case_bool_decide; [|done]. destruct (controller_config nc) as [config|err|w] eqn:Ec; [|done..].
    destruct (ss_heap ss !! inb) as [i|] eqn:Eh; [|done]. intros [= <- <-]. cbn.
    split.
    { destruct Hok as [Hi Hn]. split; cbn; [done|]. intros k nd Hk.
      apply lookup_app_Some in Hk as [Hk|[_ Hk]]; [by eapply Hn|].
      apply list_lookup_singleton_Some in Hk as [_ <-]. cbn. by eapply lookup_lt_Some. }
    split; [done|]. exists nc. split; [done|]. rewrite Ei. split; [done|]. split; [done|].
    eexists. split; [done|]. by unfold registered; cbn.
  - intros [= <- <-]. split; [done|]. split; [done|]. exists nc. by rewrite Ei.
Qed.

Lemma add_nodes_spec ncs ss nodes now ss' nodes' :
  ss_ok ss → add_nodes ss nodes now ncs = (ss', nodes', Ok tt) →
  let known := known_in ss ncs in
  ss_ok ss' ∧ ss_Inbounds ss' = ss_Inbounds ss
  ∧ nodes' = nodes ++ seq (length (ss_nodes ss)) (length known)
  ∧ ss_InContrls ss' = contrl_table (length (ss_nodes ss)) known (ss_InContrls ss)
  ∧ ∃ new, ss_nodes ss' = ss_nodes ss ++ new ∧ Forall2 (registered ss) known new.
Proof.
  revert ss nodes. induction ncs as [|nc ncs IH]; intros ss nodes Hok.
  - cbn. intros [= <- <-]. split_and!; try done; [by rewrite app_nil_r|]. exists []. by rewrite app_nil_r.
  - cbn [add_nodes]. destruct (add_node ss nodes now nc) as [[ss1 nodes1] [[]|err|w]] eqn:E1; [|done..].
    intros E2. destruct (add_node_spec _ _ _ _ _ _ Hok E1) as (Hok1 & Hin & nc' & -> & Hcase).
    destruct (IH _ _ Hok1 E2) as (Hok' & Hin' & Hn & Hc & new & Hnew & Hreg).
    unfold known_in in *. rewrite Hin in *. cbn [omap list_omap id]. rewrite filter_cons.
    assert (Forall2 (registered ss) (filter (λ nc, is_Some (ss_Inbounds ss !! nc_InTag nc)) (omap id ncs)) new) as Hreg'.
    { eapply Forall2_impl; [exact Hreg|]. intros ? ? Hr. unfold registered in *. by rewrite Hin in Hr. }
    destruct (ss_Inbounds ss !! nc_InTag nc') as [i|] eqn:Ei.
    + destruct Hcase as (-> & Hc1 & nd & Hnd & Hr). rewrite decide_True by (by eexists).
      rewrite Hnd in Hn, Hc, Hnew. rewrite length_app in Hn, Hc. cbn in Hn, Hc. rewrite Nat.add_1_r in Hn, Hc.
      split; [done|]. split; [done|]. split; [by rewrite Hn, <- app_assoc|].
      split; [by rewrite Hc, Hc1|]. exists (nd :: new). rewrite Hnew, <- app_assoc. split; [done|by constructor].
    + destruct Hcase as [-> ->]. rewrite decide_False by (by intros [? ?]).
      split_and!; try done. by exists new.
Qed.

(** The last node configured for a tag owns it. *)
Lemma contrl_table_other base ncs m tag :
  (∀ nc, nc ∈ ncs → nc_InTag nc ≠ tag) → contrl_table base ncs m !! tag = m !! tag.
Proof.
  revert base m. induction ncs as [|nc ncs IH]; intros base m Hno; [done|]. cbn.
  rewrite IH by (intros nc' Hin; apply Hno; by right). rewrite lookup_insert_ne; [done|]. apply Hno. left.
Qed.
Lemma contrl_table_last base ncs m j nc :
  ncs !! j = Some nc → (∀ j' nc', (j < j')%nat → ncs !! j' = Some nc' → nc_InTag nc' ≠ nc_InTag nc) →
  contrl_table base ncs m !! nc_InTag nc = Some (base + j)%nat.
Proof.
  revert base m j. induction ncs as [|nc0 ncs IH]; intros base m j Hj Hlast; [done|]. cbn.
  destruct j as [|j]; cbn in Hj.
  - simplify_eq. rewrite contrl_table_other; [by rewrite lookup_insert_eq, Nat.add_0_r|].
    intros nc' Hin. apply list_elem_of_lookup in Hin as [j' Hj']. apply (Hlast (S j') nc'); [lia|done].
  - rewrite (IH (S base) _ j Hj); [f_equal; lia|]. intros j' nc' Hlt Hj'. apply (Hlast (S j') nc'); [lia|done].
Qed.

(** ** Starting *)

(** A controller that has been started. *)
Definition started (nd nd' : node I) : Prop :=
  nd_inbound nd' = nd_inbound nd ∧ frozen (nd_ctl nd') = (k_config (nd_ctl nd), true)
  ∧ ∃ n, k_nodeInfo (nd_ctl nd') = Some n ∧ ni_Port n ≠ 0.

Lemma start_nodes_spec envs ks ss ss' :
  ss_ok ss → NoDup ks → (∀ k, k ∈ ks → (k < length (ss_nodes ss))%nat) → start_nodes ss envs ks = (ss', Ok tt) →
  ss_ok ss' ∧ ss_Inbounds ss' = ss_Inbounds ss ∧ ss_InContrls ss' = ss_InContrls ss
  ∧ length (ss_nodes ss') = length (ss_nodes ss)
  ∧ ∀ k nd, ss_nodes ss !! k = Some nd → ∃ nd', ss_nodes ss' !! k = Some nd' ∧
      if decide (k ∈ ks) then started nd nd' else nd' = nd.
Proof.
  revert ss. induction ks as [|k ks IH]; intros ss Hok Hnd Hlt.
  - cbn. intros [= <-]. split_and!; try done. intros k nd Hk. exists nd. split; [done|].
    by rewrite decide_False by apply not_elem_of_nil.
  - cbn [start_nodes]. apply NoDup_cons in Hnd as [Hk Hnd].
    destruct (lookup_lt_is_Some_2 (ss_nodes ss) k) as [nd0 Hk0]; [apply Hlt; left|].
    destruct (on_node_spec ss k (λ c, Start c (envs k)) nd0 Hok Hk0) as (i & Hi & Hr & Hn & E1 & E2 & _ & Hok1).
    destruct (on_node ss k _) as [ss1 r]. cbn [fst snd] in *.
    pose proof (Start_frozen (with_inbound (nd_ctl nd0) i) (envs k)) as Hs.
    destruct (Start (with_inbound (nd_ctl nd0) i) (envs k)) as [c1 r1]. cbn [fst snd] in *. subst r1.
    destruct r as [[]|err|w]; [|done..]. intros Hrest.
    assert (∀ k', k' ∈ ks → (k' < length (ss_nodes ss1))%nat) as Hlt1.
    { intros k' Hk'. rewrite Hn, length_insert. apply Hlt. by right. }
    destruct (IH ss1 Hok1 Hnd Hlt1 Hrest) as (Hok' & F1 & F2 & F3 & F4).
    split; [done|]. split; [congruence|]. split; [congruence|].
    split; [by rewrite F3, Hn, length_insert|]. intros k' nd Hk'.
    destruct (decide (k' = k)) as [->|Hne].
    + assert (nd = nd0) as -> by congruence.
      destruct (F4 k {| nd_inbound := nd_inbound nd0; nd_ctl := c1 |}) as (nd' & Hl & Hd).
      { rewrite Hn, list_lookup_insert_eq; [done|]. apply Hlt. left. }
      rewrite decide_False in Hd by done. subst nd'. eexists. split; [done|].
      rewrite decide_True by left. done.
    + destruct (F4 k' nd) as (nd' & Hl & Hd); [by rewrite Hn, list_lookup_insert_ne|].
      exists nd'. split; [done|]. destruct (decide (k' ∈ ks)), (decide (k' ∈ k :: ks)); set_solver.
Qed.

(** What a successful Panel.Start leaves. *)
Lemma PanelStart_spec ss cfg now (envs : nat → Env W WI) ss' p :
  ss_ok ss → PanelStart ss NewPanel cfg now envs = (ss', p, Ok tt) →
  let base := length (ss_nodes ss) in
  let known := known_in ss cfg in
  ss_ok ss' ∧ known ≠ [] ∧ p = {| pn_Running := true; pn_Nodes := seq base (length known) |}
  ∧ ss_InContrls ss' = contrl_table base known (ss_InContrls ss)
  ∧ length (ss_nodes ss') = (base + length known)%nat
  ∧ (∀ k, (k < base)%nat → ss_nodes ss' !! k = ss_nodes ss !! k)
  ∧ ∀ j nc, known !! j = Some nc →
      ∃ nd nd', ss_nodes ss' !! (base + j)%nat = Some nd' ∧ registered ss nc nd ∧ started nd nd'.
Proof.
  intros Hok. unfold PanelStart. cbn [pn_Nodes NewPanel].
  destruct (add_nodes ss [] now cfg) as [[ss1 nodes] [[]|err|w]] eqn:E1; [|done..].
  destruct (add_nodes_spec _ _ _ _ _ _ Hok E1) as (Hok1 & Hin & -> & Hc & new & Hnew & Hreg). cbn [app].
  set (known := known_in ss cfg) in *. set (base := length (ss_nodes ss)) in *.
  case_bool_decide as Hz; [done|]. rewrite length_seq in Hz.
  pose proof (Forall2_length _ _ _ Hreg) as Hlen.
  destruct (start_nodes ss1 envs _) as [ss2 [[]|err|w]] eqn:E2; [|done..]. intros [= <- <-].
  destruct (start_nodes_spec envs (seq base (length known)) ss1 ss2) as (Hok2 & _ & Hc2 & Hl2 & Hall); try done.
  { apply NoDup_seq. }
  { intros k Hk%elem_of_seq. rewrite Hnew, length_app. fold base. lia. }
  split; [done|]. split; [by destruct known|]. split; [done|]. split; [congruence|].
  split; [rewrite Hl2, Hnew, length_app; fold base; lia|]. split.
  - intros k Hk. destruct (lookup_lt_is_Some_2 (ss_nodes ss) k Hk) as [nd Hnd].
    destruct (Hall k nd) as (nd' & -> & Hd); [by rewrite Hnew, lookup_app_l|].
    rewrite decide_False in Hd by (rewrite elem_of_seq; lia). by subst.
  - intros j nc Hj. destruct (Forall2_lookup_l _ _ _ _ _ Hreg Hj) as (nd & Hnd & Hr).
    destruct (Hall (base + j)%nat nd) as (nd' & Hnd' & Hd).
    { rewrite Hnew, lookup_app_r by (fold base; lia). fold base. by rewrite Nat.add_comm, Nat.add_sub. }
    rewrite decide_True in Hd by (apply elem_of_seq; apply lookup_lt_Some in Hj; lia).
    by exists nd, nd'.
Qed.

(** When Panel.Start returns, it has built, in the order of the
    configuration, one controller for every node whose InTag names an inbound
    (at least one), each bound to that inbound, configured by the defaults
    overridden by the node's own settings, started with a node that has a
    port; a connection on an inbound is charged to the last node configured
    for its tag. *)
Theorem panel_start_registers ss cfg now (envs : nat → Env W WI) ss' p :
  ss_ok ss → PanelStart ss NewPanel cfg now envs = (ss', p, Ok tt) →
  let base := length (ss_nodes ss) in
  let known := known_in ss cfg in
  known ≠ [] ∧ pn_Running p = true ∧ pn_Nodes p = seq base (length known)
  ∧ ∀ j nc, known !! j = Some nc →
      (∃ nd, ss_nodes ss' !! (base + j)%nat = Some nd
        ∧ ss_Inbounds ss !! nc_InTag nc = Some (nd_inbound nd)
        ∧ k_config (nd_ctl nd) = merge_config
            {| cf_PanelType := nc_PanelType nc; cf_UpdatePeriodic := 60; cf_ListenIP := "0.0.0.0";
               cf_SendIP := "0.0.0.0"; cf_EnableDeviceLimit := false |}
            (default getDefaultControllerConfig (nc_ControllerConfig nc))
        ∧ k_tasksStarted (nd_ctl nd) = true
        ∧ ∃ n, k_nodeInfo (nd_ctl nd) = Some n ∧ ni_Port n ≠ 0)
      ∧ ((∀ j' nc', (j < j')%nat → known !! j' = Some nc' → nc_InTag nc' ≠ nc_InTag nc) →
         GetContrlWithInTag ss' (nc_InTag nc) = Some (base + j)%nat).
Proof.
  intros Hok Hs base known.
  destruct (PanelStart_spec _ _ _ _ _ _ Hok Hs) as (_ & Hne & -> & Hc & _ & _ & Hall).
  split; [done|]. split; [done|]. split; [done|]. intros j nc Hj. split.
  - destruct (Hall j nc Hj) as (nd & nd' & Hnd' & (Hi & Hcfg & _) & (Ei & [= Ec Et] & Hn)).
    exists nd'. split; [done|]. rewrite Ei, Et, Ec. split; [done|]. split; [|done].
    unfold controller_config in Hcfg. destruct (nc_ControllerConfig nc) as [src|]; cbn.
    + rewrite Merge_override in Hcfg. by injection Hcfg as <-.
    + by injection Hcfg as <-.
  - intros Hlast. unfold GetContrlWithInTag. rewrite Hc. by apply contrl_table_last.
Qed.

(** ** The life of the process *)

(** Launched and not closed since. *)
Definition running ss (k : nat) : bool :=
  match ss_nodes ss !! k with Some nd => k_tasksStarted (nd_ctl nd) | None => false end.

Definition no_poet : poet I := {| po_ss := new_singleton; po_activePanel := None |}.

(** What happens to the tables: an inbound is created, the box starts or
    closes, a monitor of a controller ticks (also one whose panel is closed,
    since a tick may be in flight).  A panic ends the process. *)
Inductive life_op :=
  | OpInbound (i : I) (tag : string)
  | OpStart (cfg : result (list (option NodesConfig))) (now : Z) (envs : nat → Env W WI)
  | OpStop
  | OpNodeTick (k : nat) (e : Env W WI)
  | OpUserTick (k : nat) (e : Env W WI).

Definition alive (po : poet I) (r : singleton I * result unit) : option (poet I) :=
  if is_panic r.2 then None else Some {| po_ss := r.1; po_activePanel := po_activePanel po |}.

Definition life_step (po : poet I) (op : life_op) : option (poet I) :=
  match op with
  | OpInbound i tag => Some {| po_ss := SetInboud (po_ss po) i tag; po_activePanel := po_activePanel po |}
  | OpStart cfg now envs => let '(po', r) := PoetStart po cfg now envs in if is_panic r then None else Some po'
  | OpStop => Some (PoetStop po)
  | OpNodeTick k e => alive po (on_node (po_ss po) k (λ c, nodeInfoMonitor c e))
  | OpUserTick k e => alive po (on_node (po_ss po) k (λ c, userInfoMonitor c e))
  end.

Fixpoint life (po : poet I) (ops : list life_op) : option (poet I) :=
  match ops with
  | [] => Some po
  | op :: ops => life_step po op ≫= λ po', life po' ops
  end.

(** The running controllers are those of the active panel. *)
Definition panel_nodes (po : poet I) : list nat :=
  match po_activePanel po with Some p => pn_Nodes p | None => [] end.
Definition po_ok (po : poet I) : Prop :=
  ss_ok (po_ss po) ∧ (∀ k, running (po_ss po) k = true ↔ k ∈ panel_nodes po)
  ∧ (∀ p, po_activePanel po = Some p → pn_Running p = true).

(** A method that sets the flag to [b c] changes only its own controller's. *)
Lemma on_node_running {A} ss k (f : Controller APIClient I → Controller APIClient I * result A) (b : bool → bool) :
  (∀ c, k_tasksStarted (f c).1 = b (k_tasksStarted c)) → ss_ok ss →
  ss_ok (on_node ss k f).1
  ∧ ∀ k', running (on_node ss k f).1 k' =
      if decide (k' = k ∧ (k < length (ss_nodes ss))%nat) then b (running ss k') else running ss k'.
Proof.
  intros Hf Hok. destruct (ss_nodes ss !! k) as [nd|] eqn:Hk.
  - destruct (on_node_spec ss k f nd Hok Hk) as (i & _ & _ & Hn & _ & _ & _ & Hok'). split; [done|].
    intros k'. unfold running. rewrite Hn. pose proof (lookup_lt_Some _ _ _ Hk) as Hlt.
    case_decide as Hd.
    + destruct Hd as [-> _]. rewrite list_lookup_insert_eq by done. cbn. by rewrite Hf, Hk.
    + by rewrite list_lookup_insert_ne by naive_solver.
  - rewrite on_node_missing by done. split; [done|]. intros k'.
    rewrite decide_False; [done|]. intros [_ Hlt]. apply lookup_lt_is_Some_2 in Hlt as [? ?]. congruence.
Qed.

Lemma tick_running ss k (f : Controller APIClient I → Controller APIClient I * result unit) :
  (∀ c, frozen (f c).1 = frozen c) → ss_ok ss →
  ss_ok (on_node ss k f).1 ∧ ∀ k', running (on_node ss k f).1 k' = running ss k'.
Proof.
  intros Hf Hok. destruct (on_node_running ss k f id) as [? Hr]; [|done|].
  - intros c. specialize (Hf c). by injection Hf.
  - split; [done|]. intros k'. rewrite Hr. destruct (decide _); reflexivity.
Qed.

Lemma PanelClose_running ss p :
  ss_ok ss → ss_ok (PanelClose ss p).1
  ∧ ∀ k, running (PanelClose ss p).1 k = true ↔ running ss k = true ∧ k ∉ pn_Nodes p.
Proof.
  unfold PanelClose. cbn. generalize (pn_Nodes p) as ks. intros ks. revert ss.
  induction ks as [|k0 ks IH]; intros ss Hok; cbn; [split; [done|set_solver]|].
  destruct (on_node_running ss k0 CloseController (λ _, false)) as [Hok1 Hr]; [done..|].
  destruct (IH _ Hok1) as [Hok2 Hr2]. split; [done|]. intros k. rewrite Hr2, Hr, not_elem_of_cons.
  destruct (decide (k = k0 ∧ (k0 < length (ss_nodes ss))%nat)) as [Hd|Hd].
  { destruct Hd as [-> _]. split; [by intros [? _]|by intros (_ & ? & _)]. }
  split; [|tauto]. intros [Hrun Hks]. split; [done|]. split; [|done]. intros ->. apply Hd. split; [done|]. unfold running in Hrun.
  destruct (ss_nodes ss !! k0) eqn:E; [by eapply lookup_lt_Some|done].
Qed.

Lemma PanelStart_running ss cfg now (envs : nat → Env W WI) ss' p :
  ss_ok ss → PanelStart ss NewPanel cfg now envs = (ss', p, Ok tt) →
  ss_ok ss' ∧ pn_Running p = true
  ∧ (∀ k, k ∈ pn_Nodes p → (length (ss_nodes ss) ≤ k)%nat)
  ∧ ∀ k, running ss' k = true ↔ running ss k = true ∨ k ∈ pn_Nodes p.
Proof.
  intros Hok Hs. destruct (PanelStart_spec _ _ _ _ _ _ Hok Hs) as (Hok' & _ & -> & _ & Hlen & Hlow & Hnew).
  split; [done|]. split; [done|]. cbn [pn_Nodes]. split; [intros k ?%elem_of_seq; lia|]. intros k.
  rewrite elem_of_seq. destruct (decide (k < length (ss_nodes ss))%nat) as [Hlt|Hge].
  - unfold running. rewrite Hlow by done. split; [by left|]. intros [?|?]; [done|lia].
  - assert (running ss k = false) as -> by (unfold running; by rewrite lookup_ge_None_2 by lia).
    destruct (decide (k < length (ss_nodes ss) + length (known_in ss cfg))%nat) as [Hlt|Hge'].
    + destruct (lookup_lt_is_Some_2 (known_in ss cfg) (k - length (ss_nodes ss))) as [nc Hnc]; [lia|].
      destruct (Hnew _ _ Hnc) as (nd & nd' & Hk & _ & (_ & [= _ Ht] & _)).
      replace (length (ss_nodes ss) + (k - length (ss_nodes ss)))%nat with k in Hk by lia.
      unfold running. rewrite Hk, Ht. split; [right; lia|done].
    + unfold running. rewrite lookup_ge_None_2 by lia. split; [done|]. intros [?|?]; [done|lia].
Qed.

(** Panel.Start has no error result: it returns or panics. *)
Lemma add_nodes_no_Err ncs ss nodes now e : (add_nodes ss nodes now ncs).2 ≠ Err e.
Proof.
  revert ss nodes. induction ncs as [|nc ncs IH]; intros ss nodes; cbn; [done|].
  assert ((add_node ss nodes now nc).2 ≠ Err e) as Hne.
  { unfold add_node, controller_config. by repeat case_match. }
  destruct (add_node ss nodes now nc) as [[s2 n2] [[]|e'|?]]; [apply IH|done..].
Qed.
Lemma start_nodes_no_Err (envs : nat → Env W WI) ks ss e : (start_nodes ss envs ks).2 ≠ Err e.
Proof.
  revert ss. induction ks as [|k ks IH]; intros ss; cbn; [done|].
  destruct (on_node ss k _) as [s1 [[]|?|?]]; [apply IH|done..].
Qed.
Lemma PanelStart_no_Err ss p cfg now (envs : nat → Env W WI) e : (PanelStart ss p cfg now envs).2 ≠ Err e.
Proof.
  unfold PanelStart. pose proof (add_nodes_no_Err cfg ss (pn_Nodes p) now e) as Ha.
  destruct (add_nodes _ _ _ _) as [[ss1 nodes] [[]|e1|w1]]; [|done..].
  case_bool_decide; [done|]. pose proof (start_nodes_no_Err envs nodes ss1 e) as Hs.
  by destruct (start_nodes ss1 envs nodes) as [ss2 [[]|e2|w2]].
Qed.

Lemma po_ok_start po cfg now (envs : nat → Env W WI) po' r :
  po_ok po → PoetStart po cfg now envs = (po', r) → is_panic r = false → po_ok po'.
Proof.
  intros Hpo. pose proof Hpo as (Hok & Hrun & Hact).
  unfold PoetStart. destruct cfg as [cfg|err|w]; [|by intros [= <- <-]..].
  destruct (PanelStart (po_ss po) NewPanel cfg now envs) as [[ss p] [[]|err|w]] eqn:Es.
  - intros [= <- <-] _. destruct (PanelStart_running _ _ _ _ _ _ Hok Es) as (Hok1 & Hp & Hnew & Hr1).
    unfold po_ok, panel_nodes in *. cbn.
    destruct (po_activePanel po) as [old|].
    2:{ split; [done|]. split; [|by intros ? [= <-]]. intros k. rewrite Hr1, Hrun, elem_of_nil. tauto. }
    rewrite (Hact old eq_refl). destruct (PanelClose_running ss old Hok1) as [Hok2 Hr2].
    split; [done|]. split; [|by intros ? [= <-]]. intros k. rewrite Hr2, Hr1, Hrun.
    assert (k ∈ pn_Nodes p → k ∉ pn_Nodes old); [|tauto].
    intros Hk%Hnew Hold. apply Hrun in Hold. unfold running in Hold. by rewrite lookup_ge_None_2 in Hold.
  - pose proof (PanelStart_no_Err (po_ss po) NewPanel cfg now envs err) as Hne. by rewrite Es in Hne.
  - by intros [= <- <-].
Qed.

Lemma po_ok_step po op po' : po_ok po → life_step po op = Some po' → po_ok po'.
Proof.
  intros Hpo. pose proof Hpo as (Hok & Hrun & Hact). destruct op as [i tag|cfg now envs| |k e|k e]; cbn.
  - intros [= <-]. split_and!; [|done..]. destruct Hok as [Hi Hn]. split; cbn; rewrite length_app; cbn.
    + intros t j [[_ <-]|[_ Hj]]%lookup_insert_Some; [lia|]. apply Hi in Hj. lia.
    + intros k nd Hk. apply Hn in Hk. lia.
  - destruct (PoetStart po cfg now envs) as [po1 r] eqn:Es. destruct (is_panic r) eqn:Ep; [done|].
    intros [= <-]. by eapply po_ok_start.
  - intros [= <-]. unfold PoetStop. destruct (po_activePanel po) as [p|] eqn:Ea; [|exact Hpo].
    unfold po_ok, panel_nodes in *. rewrite Ea in Hrun. cbn. destruct (PanelClose_running (po_ss po) p Hok) as [Hok2 Hr2]. split; [done|]. split; [|done].
    intros k. rewrite Hr2, Hrun. set_solver.
  - unfold alive. destruct (tick_running (po_ss po) k (λ c, nodeInfoMonitor c e)) as [Hok2 Hr2];
      [intros; apply nodeInfoMonitor_frozen|done|].
    destruct (is_panic _); [done|]. intros [= <-]. split; [done|]. split; [|done]. intros k'. by rewrite Hr2, Hrun.
  - unfold alive. destruct (tick_running (po_ss po) k (λ c, userInfoMonitor c e)) as [Hok2 Hr2];
      [intros; apply userInfoMonitor_frozen|done|].
    destruct (is_panic _); [done|]. intros [= <-]. split; [done|]. split; [|done]. intros k'. by rewrite Hr2, Hrun.
Qed.

(** However the box is started, closed and restarted, and whenever monitors
    tick, the controllers whose tasks were launched and not closed since are
    exactly those of the active panel: a restart closes every controller of an
    earlier panel, and Stop closes all.  What a launched or closed task does is
    the subject of Periodic.v. *)
Theorem poet_lifecycle ops po :
  life no_poet ops = Some po →
  (∀ k, running (po_ss po) k = true ↔ k ∈ panel_nodes po)
  ∧ ∀ k, running (po_ss (PoetStop po)) k = false.
Proof.
  assert (∀ po0, po_ok po0 → life po0 ops = Some po → po_ok po) as Hlife.
  { induction ops as [|op ops IH]; cbn; intros po0 Hpo0; [by intros [= <-]|].
    destruct (life_step po0 op) as [po1|] eqn:E; cbn; [|done]. apply IH. by eapply po_ok_step. }
  intros Hl. assert (po_ok po) as Hpo.
  { eapply Hlife; [|done]. split_and!; [split; cbn; set_solver| |done]. intros k. cbn. set_solver. }
  split; [apply Hpo|]. intros k. destruct (po_ok_step po OpStop _ Hpo eq_refl) as (_ & Hr & _).
  apply not_true_iff_false. rewrite Hr. unfold PoetStop, panel_nodes.
  destruct (po_activePanel po) eqn:E; cbn; [set_solver|]. rewrite E. set_solver.
Qed.
End facts.

(** ** Two nodes that share an inbound, and a restart *)

#[local] Existing Instance Naive.naive_users.

#[export] Instance scripted_client : PanelAPI APIClient script | 50 :=
  {| Api.GetNodeInfo c w := (c, sc_node w); Api.GetUserList c w := (c, sc_users w);
     Api.GetNodeRule c w := (c, sc_rules w); Api.ReportNodeStatus c (_ : script) (_ : NodeStatus) := (c, Ok tt);
     Api.ReportNodeOnlineUsers c (_ : script) (_ : list OnlineUser) := (c, Ok tt);
     Api.ReportUserTraffic c (_ : script) (_ : list UserTraffic) := (c, Ok tt);
     Api.ReportIllegal c (_ : script) (_ : list DetectResult) := (c, Ok tt); Api.Describe := Describe |}.

Definition api0 (id : Z) : ApiConfig :=
  {| cfg_APIHost := "http://panel"; cfg_NodeID := id; cfg_Key := "k"; cfg_InTag := ""; cfg_NodeType := "naive";
     cfg_EnableVless := false; cfg_VlessFlow := ""; cfg_Timeout := 0; cfg_SpeedLimit := float64_of_Z 0;
     cfg_DeviceLimit := 0; cfg_RuleListPath := ""; cfg_DisableCustomConfig := false |}.
Definition nodes0 : list (option NodesConfig) :=
  [Some {| nc_PanelType := "SSpanel"; nc_InTag := "in"; nc_OutTag := "o1"; nc_ApiConfig := Some (api0 1);
           nc_ControllerConfig := None |};
   Some {| nc_PanelType := "SSpanel"; nc_InTag := "absent"; nc_OutTag := "o2"; nc_ApiConfig := Some (api0 2);
           nc_ControllerConfig := None |};
   Some {| nc_PanelType := "SSpanel"; nc_InTag := "in"; nc_OutTag := "o3"; nc_ApiConfig := Some (api0 3);
           nc_ControllerConfig := Some {| cf_PanelType := ""; cf_UpdatePeriodic := 5; cf_ListenIP := "";
             cf_SendIP := ""; cf_EnableDeviceLimit := true |} |}].
Definition envs0 (k : nat) : Env script bool :=
  env0 true (script1 (node0 443 0) [user0 (Z.of_nat k) "a" 7]).
Definition box0 : singleton Naive.userTable := SetInboud new_singleton Naive.empty_table "in".

Lemma panel_start_registers_witness :
  let r := PanelStart box0 NewPanel nodes0 0 envs0 in
  r.2 = Ok tt ∧ GetContrlWithInTag r.1.1 "in" = Some 1%nat.
Proof.
  intros r. assert (ss_ok box0) as Hok.
  { split; cbn; [|done]. intros tag i [[_ <-]|[_ Hb]]%lookup_insert_Some; [lia|]. by rewrite lookup_empty in Hb. }
  assert (r = (r.1.1, r.1.2, Ok tt)) as Hr by (vm_compute; reflexivity).
  split; [rewrite Hr; reflexivity|].
  destruct (panel_start_registers box0 nodes0 0 envs0 r.1.1 r.1.2 Hok Hr) as (_ & _ & _ & Hall).
  destruct (Hall 1%nat {| nc_PanelType := "SSpanel"; nc_InTag := "in"; nc_OutTag := "o3"; nc_ApiConfig := Some (api0 3);
           nc_ControllerConfig := Some {| cf_PanelType := ""; cf_UpdatePeriodic := 5; cf_ListenIP := "";
             cf_SendIP := ""; cf_EnableDeviceLimit := true |} |}) as [_ Hlast]; [vm_compute; reflexivity|].
  apply Hlast. intros j' nc' Hlt Hj'. apply lookup_lt_Some in Hj'.
  change (length (known_in box0 nodes0)) with 2%nat in Hj'. lia.
Defined.

(** Start, a tick, a second Start and a late tick of a closed controller. *)
Definition life0 : list life_op :=
  [OpInbound Naive.empty_table "in"; OpStart (Ok nodes0) 0 envs0; OpNodeTick 0 (envs0 0);
   OpStart (Ok nodes0) 0 envs0; OpUserTick 0 (envs0 0)].

Lemma poet_lifecycle_witness :
  match life no_poet life0 with
  | Some po => panel_nodes po = [2; 3]%nat ∧ ∀ k, running (po_ss po) k = true ↔ k ∈ panel_nodes po
  | None => False
  end.
Proof.
  destruct (life no_poet life0) as [po|] eqn:E; [|vm_compute in E; discriminate].
  split; [vm_compute in E; injection E as <-; reflexivity|].
  exact (proj1 (poet_lifecycle life0 po E)).
Defined.
