(* ===== verification/Startup.v ===== *)
(** * cmd/sing-box/cmd_run.go: the inbounds a SingR process creates

    [create] narrows the inbounds of server.json to those a node of panel.json
    refers to, and points TLS inbounds without a certificate at the default
    one.  The file system and the panel file are given by what they answer. *)

From S2P Require Import Prelude Api Controller SspanelParse SspanelClient PanelUsers Panel.

(** The fields of option.InboundTLSOptions the code looks at; a pointer that is
    only compared with nil is a bool, [to_Reality] keeps the Enabled field. *)
Record InboundTLSOptions := {
  to_Enabled : bool; to_Insecure : bool; to_CertificatePath : string; to_KeyPath : string;
  to_Certificate : list string; to_Key : list string;
  to_CertificateProvider : bool; to_ACME : bool; to_Reality : option bool;
}.

(** option.Inbound: [ib_tls] is [None] when the options are no
    InboundTLSOptionsWrapper, [Some None] when the wrapper holds nil. *)
Record InboundOption := {
  ib_Type : string; ib_Tag : string; ib_tls : option (option InboundTLSOptions);
}.

Definition wanted_tags (nodes : list (option NodesConfig)) : gset string :=
  list_to_set (filter (λ t, t ≠ "") (nc_InTag <$> omap id nodes)).

(** filterInboundsByPanel; [panel] is what LoadPanelConfig returned. *)
Definition filterInboundsByPanel (poetConfigPath : string) (panel : result (list (option NodesConfig)))
    (inbounds : list InboundOption) : list InboundOption :=
  if bool_decide (poetConfigPath = "") then inbounds
  else match panel with
       | Ok nodes =>
           let wanted := wanted_tags nodes in
           if bool_decide (wanted = ∅) then inbounds
           else filter (λ ib, ib_Tag ib ∈ wanted) inbounds
       | _ => inbounds
       end.

Definition certificateUnset (o : InboundTLSOptions) : bool :=
  if bool_decide (to_CertificatePath o ≠ "") || bool_decide (to_KeyPath o ≠ "") then false
  else if bool_decide (to_Certificate o ≠ []) || bool_decide (to_Key o ≠ []) then false
  else if to_CertificateProvider o || to_ACME o then false
  else if match to_Reality o with Some enabled => enabled | None => false end then false
  else negb (to_Insecure o).

Definition defaultCertificateNames : list string := ["default.pem"; "default.crt"].
Definition defaultKeyName : string := "default.key".

(** filepath.Join of an absolute, clean directory that is not the root. *)
Definition path_join (dir name : string) : string := dir +:+ "/" +:+ name.

(** The loop over defaultCertificateNames. *)
Fixpoint pick_certificate (is_file : string → bool) (dir fallback : string) (names : list string) : string :=
  match names with
  | [] => fallback
  | name :: rest =>
      if is_file (path_join dir name) then path_join dir name else pick_certificate is_file dir fallback rest
  end.

Definition default_certificate (is_file : string → bool) (dir : string) (o : InboundTLSOptions) : InboundTLSOptions :=
  {| to_Enabled := to_Enabled o; to_Insecure := to_Insecure o;
     to_CertificatePath := pick_certificate is_file dir (path_join dir "default.pem") defaultCertificateNames;
     to_KeyPath := path_join dir defaultKeyName;
     to_Certificate := to_Certificate o; to_Key := to_Key o;
     to_CertificateProvider := to_CertificateProvider o; to_ACME := to_ACME o; to_Reality := to_Reality o |}.

(** One iteration of applyDefaultCertificatePaths. *)
Definition apply_default (is_file : string → bool) (dir : string) (ib : InboundOption) : InboundOption :=
  match ib_tls ib with
  | Some (Some o) =>
      if to_Enabled o && certificateUnset o
      then {| ib_Type := ib_Type ib; ib_Tag := ib_Tag ib; ib_tls := Some (Some (default_certificate is_file dir o)) |}
      else ib
  | _ => ib
  end.

(** [certDirectory] is filepath.Abs of the panel file's directory and "certs". *)
Definition applyDefaultCertificatePaths (poetConfigPath : string) (certDirectory : result string)
    (is_file : string → bool) (inbounds : list InboundOption) : list InboundOption :=
  if bool_decide (poetConfigPath = "") then inbounds
  else match certDirectory with
       | Ok dir => apply_default is_file dir <$> inbounds
       | _ => inbounds
       end.

(** The first two lines of [create]. *)
Definition create_inbounds (poetConfigPath : string) (panel : result (list (option NodesConfig)))
    (certDirectory : result string) (is_file : string → bool) (inbounds : list InboundOption) : list InboundOption :=
  applyDefaultCertificatePaths poetConfigPath certDirectory is_file
    (filterInboundsByPanel poetConfigPath panel inbounds).

(** ** Properties *)

Lemma pick_certificate_spec is_file dir fallback names :
  let p := pick_certificate is_file dir fallback names in
  (is_file p = true ∧ ∃ l1 n l2, names = l1 ++ n :: l2 ∧ p = path_join dir n
     ∧ ∀ n', n' ∈ l1 → is_file (path_join dir n') = false)
  ∨ (p = fallback ∧ ∀ n', n' ∈ names → is_file (path_join dir n') = false).
Proof.
  induction names as [|n names IH]; cbn; [right; split; [done|set_solver]|].
  destruct (is_file (path_join dir n)) eqn:En.
  - left. split; [done|]. exists [], n, names. split_and!; [done..|set_solver].
  - destruct IH as [(Hf & l1 & n' & l2 & -> & Hp & Hl)|[Hp Hl]].
    + left. split; [done|]. exists (n :: l1), n', l2. split_and!; [done..|set_solver].
    + right. split; [done|set_solver].
Qed.

Lemma path_join_nonempty dir name : path_join dir name ≠ "".
Proof. unfold path_join. by destruct dir. Qed.

Lemma default_certificate_set is_file dir o : certificateUnset (default_certificate is_file dir o) = false.
Proof.
  unfold certificateUnset. cbn. rewrite (bool_decide_eq_true_2 (path_join dir defaultKeyName ≠ "")).
  - by rewrite orb_true_r.
  - apply path_join_nonempty.
Qed.

Lemma apply_default_tag is_file dir ib : ib_Tag (apply_default is_file dir ib) = ib_Tag ib.
Proof. unfold apply_default. by repeat case_match. Qed.

Lemma apply_default_idemp is_file dir ib :
  apply_default is_file dir (apply_default is_file dir ib) = apply_default is_file dir ib.
Proof.
  unfold apply_default at 2 3. destruct (ib_tls ib) as [[o|]|] eqn:E.
  - destruct (to_Enabled o && certificateUnset o) eqn:Eo.
    + unfold apply_default. cbn [ib_tls]. by rewrite default_certificate_set, andb_false_r.
    + unfold apply_default. by rewrite E, Eo.
  - unfold apply_default. by rewrite E.
  - unfold apply_default. by rewrite E.
Qed.

Lemma elem_of_wanted nodes tag :
  tag ∈ wanted_tags nodes ↔ tag ≠ "" ∧ ∃ nc, Some nc ∈ nodes ∧ nc_InTag nc = tag.
Proof.
  unfold wanted_tags. rewrite elem_of_list_to_set, list_elem_of_filter. f_equiv.
  rewrite list_elem_of_fmap. split.
  - intros (nc & -> & Hin). apply list_elem_of_omap in Hin as (x & Hx & E). cbn in E. subst x. eauto.
  - intros (nc & Hin & <-). exists nc. split; [done|]. apply list_elem_of_omap. by exists (Some nc).
Qed.

(** With a readable panel file, create keeps exactly the inbounds a node
    refers to (all of them when no node names one), so that every inbound a
    node needs is still created; the certificate defaults change neither tags
    nor order, leave every inbound that is not an enabled TLS inbound without
    any certificate setting as it was, give the others the first default file
    that exists (default.pem if none does), and are the same when applied to
    their own result, as on a reload. *)
Theorem create_inbounds_spec path nodes dir is_file inbounds :
  path ≠ "" →
  let kept := filterInboundsByPanel path (Ok nodes) inbounds in
  let result := create_inbounds path (Ok nodes) (Ok dir) is_file inbounds in
  (∀ ib, ib ∈ kept ↔ ib ∈ inbounds ∧
     ((∃ nc, Some nc ∈ nodes ∧ nc_InTag nc = ib_Tag ib ∧ ib_Tag ib ≠ "") ∨ ∀ nc, Some nc ∈ nodes → nc_InTag nc = ""))
  ∧ ib_Tag <$> result = ib_Tag <$> kept
  ∧ Forall2 (λ ib ib', match ib_tls ib with
      | Some (Some o) =>
          if to_Enabled o && certificateUnset o
          then ∃ o', ib_tls ib' = Some (Some o') ∧ to_KeyPath o' = path_join dir "default.key"
            ∧ to_CertificatePath o' =
                path_join dir (if negb (is_file (path_join dir "default.pem")) && is_file (path_join dir "default.crt")
                               then "default.crt" else "default.pem")
          else ib' = ib
      | _ => ib' = ib
      end) kept result
  ∧ applyDefaultCertificatePaths path (Ok dir) is_file result = result.
Proof.
  intros Hpath kept result.
  assert (result = apply_default is_file dir <$> kept) as Er.
  { unfold result, create_inbounds, applyDefaultCertificatePaths. by rewrite bool_decide_eq_false_2. }
  split; [|split; [|split]].
  - intros ib. unfold kept, filterInboundsByPanel. rewrite bool_decide_eq_false_2 by done.
    case_bool_decide as Hw.
    + split; [|by intros [? _]]. intros Hin. split; [done|]. right. intros nc Hnc.
      destruct (decide (nc_InTag nc = "")) as [|Hne]; [done|].
      assert (nc_InTag nc ∈ wanted_tags nodes) as Hw' by (apply elem_of_wanted; eauto). set_solver.
    + rewrite list_elem_of_filter, elem_of_wanted. split.
      * intros ([Hne (nc & Hnc & Ht)] & Hin). split; [done|]. left. eauto.
      * intros [Hin [(nc & Hnc & Ht & Hne)|Hall]]; [by eauto|].
        destruct Hw. apply leibniz_equiv. intros t. split; [|set_solver].
        intros [Ht (nc & Hnc & <-)]%elem_of_wanted. by destruct Ht; apply Hall.
  - rewrite Er, <- list_fmap_compose. apply list_fmap_ext. intros i ib _. apply apply_default_tag.
  - rewrite Er. apply Forall2_fmap_r, Forall_Forall2_diag, Forall_true. intros ib. unfold compose, apply_default; cbn beta.
    destruct (ib_tls ib) as [[o|]|]; [|done..]. destruct (to_Enabled o && certificateUnset o); [|done].
    eexists. split; [done|]. split; [done|]. cbn.
    by destruct (is_file (path_join dir "default.pem")), (is_file (path_join dir "default.crt")).
  - unfold applyDefaultCertificatePaths. rewrite bool_decide_eq_false_2 by done.
    rewrite Er, <- list_fmap_compose. apply list_fmap_ext. intros i ib _. apply apply_default_idemp.
Qed.

Definition tls0 : InboundTLSOptions :=
  {| to_Enabled := true; to_Insecure := false; to_CertificatePath := ""; to_KeyPath := ""; to_Certificate := [];
     to_Key := []; to_CertificateProvider := false; to_ACME := false; to_Reality := Some false |}.
Definition inbounds0 : list InboundOption :=
  [{| ib_Type := "anytls"; ib_Tag := "in"; ib_tls := Some (Some tls0) |};
   {| ib_Type := "hysteria2"; ib_Tag := "unused"; ib_tls := Some None |}].

Lemma create_inbounds_spec_witness :
  let result := create_inbounds "panel.json" (Ok nodes0) (Ok "/etc/certs") (λ f, bool_decide (f = "/etc/certs/default.crt")) inbounds0 in
  (ib_Tag <$> result) = ["in"]
  ∧ applyDefaultCertificatePaths "panel.json" (Ok "/etc/certs") (λ f, bool_decide (f = "/etc/certs/default.crt")) result = result.
Proof.
  assert ("panel.json" ≠ "") as Hp by discriminate.
  destruct (create_inbounds_spec "panel.json" nodes0 "/etc/certs"
    (λ f, bool_decide (f = "/etc/certs/default.crt")) inbounds0 Hp) as (_ & Htags & _ & Hid).
  split; [rewrite Htags; vm_compute; reflexivity|exact Hid].
Defined.
