(* ===== verification/RoutedConn.v ===== *)
(** * poet.go: accounting, auditing and pacing of routed connections

    The router passes every connection through RoutedConnection (TCP) or
    RoutedPacketConnection (UDP).  A connection is modelled by its stack of
    wrappers over the inbound's own connection; what that connection answers to
    a call is given, and a call runs through the wrappers from the outside in. *)

From S2P Require Import Prelude GoStrings Float64 Api SspanelParse SspanelClient Authenticator PanelUsers Controller UserSync ControllerInv Panel.

Open Scope Z_scope.

(** The fields of adapter.InboundContext the code reads; [m_Fqdn] is the name
    when Destination.IsFqdn() holds. *)
Record InboundContext := { m_Inbound : string; m_User : string; m_Source : string; m_Fqdn : option string }.

(** bufio.NewInt64CounterConn and NewInt64CounterPacketConn of sing: what they
    add to each of their counters for one call.  Stream calls add the bytes
    transferred, whether or not the call also reports an error; packet calls add
    the packet's length when they succeed. *)
Class Int64Counter := {
  counted_stream : Z → option error → Z;
  counted_packet : Z → option error → Z;
  counted_stream_bytes : ∀ n err, 0 ≤ n → counted_stream n err = n;
  counted_packet_bytes : ∀ n, 0 ≤ n → counted_packet n None = n;
}.
#[export] Program Instance int64_counter : Int64Counter | 100 :=
  {| counted_stream n _ := if bool_decide (0 < n) then n else 0;
     counted_packet n err := match err with None => n | Some _ => 0 end |}.
Next Obligation. intros n err Hn. cbn. case_bool_decide; lia. Qed.
Next Obligation. done. Qed.

Definition errAuditBlocked : error := ENew "singr: connection blocked by audit rule".

Section conn.
Context `{RangeOrder, Regexp, Int64Counter} {I : Type}.

(** An *atomic.Int64: a counter of user [l] of controller [k], or one of the
    per-connection counters of the traffic log. *)
Inductive counter := SentOf (k l : nat) | RecvOf (k l : nat) | PerRead | PerWrite.

Inductive conn :=
  | RawConn
  | CounterConn (c : conn) (reads writes : list counter)
  | LoggingConn (c : conn)
  | RateLimitedConn (c : conn) (k l : nat)
  | BlockedConn (c : conn) (reason : error).

(** [w_wait] is the bucket's WaitN for the calls of this connection; [w_waits]
    are the amounts asked of it so far. *)
Record world := {
  w_ss : singleton I; w_closed : bool; w_perRead : Z; w_perWrite : Z;
  w_wait : list Z → Z → option error; w_waits : list Z;
}.
Definition with_ss (w : world) (ss : singleton I) : world :=
  {| w_ss := ss; w_closed := w_closed w; w_perRead := w_perRead w; w_perWrite := w_perWrite w;
     w_wait := w_wait w; w_waits := w_waits w |}.
Definition with_waits (w : world) (l : list Z) : world :=
  {| w_ss := w_ss w; w_closed := w_closed w; w_perRead := w_perRead w; w_perWrite := w_perWrite w;
     w_wait := w_wait w; w_waits := l |}.
Definition close_raw (w : world) : world :=
  {| w_ss := w_ss w; w_closed := true; w_perRead := w_perRead w; w_perWrite := w_perWrite w;
     w_wait := w_wait w; w_waits := w_waits w |}.

(** ** Users behind pointers *)

Definition user_at (w : world) (k l : nat) : option User :=
  ss_nodes (w_ss w) !! k ≫= λ nd, a_heap (k_author (nd_ctl nd)) !! l.

Definition alter_user (w : world) (k l : nat) (f : User → User) : world :=
  with_ss w (set_nodes (w_ss w)
    (alter (λ nd, {| nd_inbound := nd_inbound nd;
                     nd_ctl := with_author (nd_ctl nd) (update_user (k_author (nd_ctl nd)) l f) |}) k
           (ss_nodes (w_ss w)))).

(** counter.Add(n) *)
Definition counter_add (n : Z) (w : world) (ctr : counter) : world :=
  match ctr with
  | SentOf k l => alter_user w k l (λ u, count_sent u n)
  | RecvOf k l => alter_user w k l (λ u, count_recv u n)
  | PerRead => {| w_ss := w_ss w; w_closed := w_closed w; w_perRead := i64 (w_perRead w + n);
                  w_perWrite := w_perWrite w; w_wait := w_wait w; w_waits := w_waits w |}
  | PerWrite => {| w_ss := w_ss w; w_closed := w_closed w; w_perRead := w_perRead w;
                   w_perWrite := i64 (w_perWrite w + n); w_wait := w_wait w; w_waits := w_waits w |}
  end.

(** [_ = c.user.WaitN(c.ctx, n)] *)
Definition wait_user (w : world) (k l : nat) (n : Z) : world :=
  match user_at w k l with
  | None => w
  | Some u => with_waits w (w_waits w ++ (WaitN (w_wait w) u n).1)
  end.

(** ** Calls on a connection *)

Fixpoint conn_Read (c : conn) (w : world) (n : Z) (err : option error) : world * (Z * option error) :=
  match c with
  | RawConn => (w, (n, err))
  | CounterConn c reads _ =>
      let '(w, (n, err)) := conn_Read c w n err in
      (foldl (counter_add (counted_stream n err)) w reads, (n, err))
  | LoggingConn c => conn_Read c w n err
  | RateLimitedConn c k l =>
      let '(w, (n, err)) := conn_Read c w n err in
      (if bool_decide (0 < n) then wait_user w k l n else w, (n, err))
  | BlockedConn _ reason => (w, (0, Some reason))
  end.

(** [len] is the length of the buffer given to Write. *)
Fixpoint conn_Write (c : conn) (w : world) (len n : Z) (err : option error) : world * (Z * option error) :=
  match c with
  | RawConn => (w, (n, err))
  | CounterConn c _ writes =>
      let '(w, (n, err)) := conn_Write c w len n err in
      (foldl (counter_add (counted_stream n err)) w writes, (n, err))
  | LoggingConn c => conn_Write c w len n err
  | RateLimitedConn c k l =>
      conn_Write c (if bool_decide (0 < len) then wait_user w k l len else w) len n err
  | BlockedConn _ reason => (w, (0, Some reason))
  end.

(** The packet connections: [len] is buffer.Len() after the read, or of the
    packet to write. *)
Fixpoint conn_ReadPacket (c : conn) (w : world) (len : Z) (err : option error) : world * option error :=
  match c with
  | RawConn => (w, err)
  | CounterConn c reads _ =>
      let '(w, err) := conn_ReadPacket c w len err in
      (foldl (counter_add (counted_packet len err)) w reads, err)
  | LoggingConn c => conn_ReadPacket c w len err
  | RateLimitedConn c k l =>
      let '(w, err) := conn_ReadPacket c w len err in
      (if bool_decide (0 < len) then wait_user w k l len else w, err)
  | BlockedConn _ reason => (w, Some reason)
  end.
Fixpoint conn_WritePacket (c : conn) (w : world) (len : Z) (err : option error) : world * option error :=
  match c with
  | RawConn => (w, err)
  | CounterConn c _ writes =>
      let '(w, err) := conn_WritePacket c w len err in
      (foldl (counter_add (counted_packet len err)) w writes, err)
  | LoggingConn c => conn_WritePacket c w len err
  | RateLimitedConn c k l =>
      conn_WritePacket c (if bool_decide (0 < len) then wait_user w k l len else w) len err
  | BlockedConn _ reason => (w, Some reason)
  end.

(** ** RoutedConnection and RoutedPacketConnection *)

Definition user_uid (c : Controller APIClient I) (l : nat) : Z :=
  match a_heap (k_author c) !! l with Some u => u_UID u | None => 0 end.

Definition RoutedConnection (trafficDebug : bool) (w : world) (now : Z) (m : InboundContext) (c : conn)
    : world * result conn :=
  match GetContrlWithInTag (w_ss w) (m_Inbound m) with
  | None => (w, Ok c)
  | Some k =>
      let '(ss, r) := on_node (w_ss w) k (λ ct, LoadOrCreateUserCounter ct (m_User m) (m_Source m)) in
      let w := with_ss w ss in
      match r with
      | Panic p => (w, Panic p)
      | Err _ => (w, Ok c)
      | Ok l =>
          let '(ss, hit) :=
            match m_Fqdn m with
            | Some host => on_node (w_ss w) k (λ ct,
                let '(ct', hit) := MatchAudit ct now (user_uid ct l) host in (ct', Ok hit))
            | None => (w_ss w, Ok None)
            end in
          let w := with_ss w ss in
          match hit with
          | Ok (Some _) => (close_raw w, Ok (BlockedConn c errAuditBlocked))
          | Panic p => (w, Panic p)
          | _ =>
              let counted :=
                if trafficDebug
                then LoggingConn (CounterConn c [SentOf k l; PerRead] [RecvOf k l; PerWrite])
                else CounterConn c [SentOf k l] [RecvOf k l] in
              (w, Ok (RateLimitedConn counted k l))
          end
      end
  end.

Definition RoutedPacketConnection (w : world) (m : InboundContext) (c : conn) : world * result conn :=
  match GetContrlWithInTag (w_ss w) (m_Inbound m) with
  | None => (w, Ok c)
  | Some k =>
      let '(ss, r) := on_node (w_ss w) k (λ ct, LoadOrCreateUserCounter ct (m_User m) (m_Source m)) in
      let w := with_ss w ss in
      match r with
      | Panic p => (w, Panic p)
      | Err _ => (w, Ok c)
      | Ok l => (w, Ok (RateLimitedConn (CounterConn c [SentOf k l] [RecvOf k l]) k l))
      end
  end.
End conn.

(** ** What a call does to counters and bucket *)

Section facts.
Context `{RangeOrder, Regexp, Int64Counter} {I : Type}.
Implicit Types w : @world I.

Lemma user_at_alter w k l f k' l' :
  user_at (alter_user w k l f) k' l' =
    if decide (k' = k ∧ l' = l) then f <$> user_at w k l else user_at w k' l'.
Proof.
  unfold user_at, alter_user. cbn. destruct (decide (k' = k)) as [->|Hk].
  - rewrite list_lookup_alter_eq. destruct (ss_nodes (w_ss w) !! k) as [nd|]; cbn; [|by destruct (decide _)].
    destruct (decide (l' = l)) as [->|Hl].
    + rewrite list_lookup_alter_eq. by rewrite decide_True.
    + rewrite list_lookup_alter_ne by done. by rewrite decide_False by naive_solver.
  - rewrite list_lookup_alter_ne by done. by rewrite decide_False by naive_solver.
Qed.

(** One call: a read or write of a stream, or a packet that went through. *)
Inductive io :=
  | IoRead (n : Z) (err : option error) | IoWrite (len n : Z) (err : option error)
  | IoReadPacket (len : Z) | IoWritePacket (len : Z).

Definition conn_io (c : conn) w (op : io) : world * (Z * option error) :=
  match op with
  | IoRead n err => conn_Read c w n err
  | IoWrite len n err => conn_Write c w len n err
  | IoReadPacket len => let '(w, err) := conn_ReadPacket c w len None in (w, (len, err))
  | IoWritePacket len => let '(w, err) := conn_WritePacket c w len None in (w, (len, err))
  end.
Definition conn_run (c : conn) w (ops : list io) : world := foldl (λ w op, (conn_io c w op).1) w ops.

(** What the connection itself answered, the bytes it moved in each
    direction, and the bytes its user pays for. *)
Definition io_answer (op : io) : Z * option error :=
  match op with
  | IoRead n err => (n, err) | IoWrite _ n err => (n, err)
  | IoReadPacket len => (len, None) | IoWritePacket len => (len, None)
  end.
Definition io_up (op : io) : Z := match op with IoRead n _ => n | IoReadPacket len => len | _ => 0 end.
Definition io_down (op : io) : Z := match op with IoWrite _ n _ => n | IoWritePacket len => len | _ => 0 end.
Definition io_charge (op : io) : Z :=
  match op with IoRead n _ => n | IoWrite len _ _ => len | IoReadPacket len => len | IoWritePacket len => len end.
Definition io_ok (op : io) : Prop :=
  match op with
  | IoRead n _ => 0 ≤ n | IoWrite len n _ => 0 ≤ n ≤ len | IoReadPacket len => 0 ≤ len | IoWritePacket len => 0 ≤ len
  end.

(** The stacks RoutedConnection builds. *)
Definition accounted (c : conn) (k l : nat) : Prop :=
  c = RateLimitedConn (CounterConn RawConn [SentOf k l] [RecvOf k l]) k l
  ∨ c = RateLimitedConn (LoggingConn (CounterConn RawConn [SentOf k l; PerRead] [RecvOf k l; PerWrite])) k l.

Definition count_io (op : io) (u : User) : User :=
  match op with
  | IoRead _ _ | IoReadPacket _ => count_sent u (io_up op)
  | IoWrite _ _ _ | IoWritePacket _ => count_recv u (io_down op)
  end.

(** From [w] to [w'] user [l] of controller [k] went from [u] to [u'], nobody
    else changed, and [chunks] were asked of the bucket. *)
Definition effect (k l : nat) w w' (u u' : User) (chunks : list Z) : Prop :=
  w_wait w' = w_wait w ∧ user_at w k l = Some u ∧ user_at w' k l = Some u'
  ∧ (∀ k' l', (k', l') ≠ (k, l) → user_at w' k' l' = user_at w k' l')
  ∧ w_waits w' = w_waits w ++ chunks.

Lemma effect_refl k l w u : user_at w k l = Some u → effect k l w w u u [].
Proof. intros Hu. split_and!; try done. by rewrite app_nil_r. Qed.

Lemma effect_trans k l w1 w2 w3 u1 u2 u3 c1 c2 :
  effect k l w1 w2 u1 u2 c1 → effect k l w2 w3 u2 u3 c2 → effect k l w1 w3 u1 u3 (c1 ++ c2).
Proof.
  intros (E1 & A1 & B1 & O1 & W1) (E2 & A2 & B2 & O2 & W2). split_and!; try done; [congruence| |].
  - intros k' l' Hne. by rewrite O2, O1.
  - by rewrite W2, W1, app_assoc.
Qed.

Lemma effect_alter k l w u f : user_at w k l = Some u → effect k l w (alter_user w k l f) u (f u) [].
Proof.
  intros Hu. split_and!; try done.
  - by rewrite user_at_alter, decide_True, Hu.
  - intros k' l' Hne. by rewrite user_at_alter, decide_False by naive_solver.
  - by rewrite app_nil_r.
Qed.

Lemma effect_up k l w u ctrs n :
  user_at w k l = Some u → ctrs = [SentOf k l] ∨ ctrs = [SentOf k l; PerRead] →
  effect k l w (foldl (counter_add n) w ctrs) u (count_sent u n) [].
Proof. intros Hu [-> | ->]; cbn; by apply (effect_alter k l w u (λ u, count_sent u n)). Qed.
Lemma effect_down k l w u ctrs n :
  user_at w k l = Some u → ctrs = [RecvOf k l] ∨ ctrs = [RecvOf k l; PerWrite] →
  effect k l w (foldl (counter_add n) w ctrs) u (count_recv u n) [].
Proof. intros Hu [-> | ->]; cbn; by apply (effect_alter k l w u (λ u, count_recv u n)). Qed.

Lemma effect_wait k l w u n :
  user_at w k l = Some u →
  effect k l w (if bool_decide (0 < n) then wait_user w k l n else w) u u (WaitN (w_wait w) u n).1.
Proof.
  intros Hu. unfold wait_user. rewrite Hu. case_bool_decide; [by split_and!|].
  unfold WaitN. rewrite bool_decide_eq_true_2 by lia. split_and!; try done. by rewrite app_nil_r.
Qed.

(** A read counts, then waits; a write waits, then counts. *)
Lemma paced_read k l w u ctrs n m :
  user_at w k l = Some u → ctrs = [SentOf k l] ∨ ctrs = [SentOf k l; PerRead] →
  let w1 := foldl (counter_add n) w ctrs in
  effect k l w (if bool_decide (0 < m) then wait_user w1 k l m else w1) u (count_sent u n) (WaitN (w_wait w) u m).1.
Proof.
  intros Hu Hc w1. pose proof (effect_up k l w u ctrs n Hu Hc) as He. fold w1 in He.
  pose proof He as (Ew & _ & Hu1 & _). rewrite <- Ew.
  exact (effect_trans _ _ _ _ _ _ _ _ [] _ He (effect_wait k l w1 (count_sent u n) m Hu1)).
Qed.
Lemma paced_write k l w u ctrs n m :
  user_at w k l = Some u → ctrs = [RecvOf k l] ∨ ctrs = [RecvOf k l; PerWrite] →
  let w1 := if bool_decide (0 < m) then wait_user w k l m else w in
  effect k l w (foldl (counter_add n) w1 ctrs) u (count_recv u n) (WaitN (w_wait w) u m).1.
Proof.
  intros Hu Hc w1. pose proof (effect_wait k l w u m Hu) as He. fold w1 in He.
  pose proof He as (_ & _ & Hu1 & _). rewrite <- (app_nil_r (WaitN _ _ _).1).
  exact (effect_trans _ _ _ _ _ _ _ _ _ _ He (effect_down k l w1 u ctrs n Hu1 Hc)).
Qed.

Lemma io_step c k l w op u :
  accounted c k l → io_ok op → user_at w k l = Some u →
  (conn_io c w op).2 = io_answer op
  ∧ effect k l w (conn_io c w op).1 u (count_io op u) (WaitN (w_wait w) u (io_charge op)).1.
Proof.
  intros Hc Hop Hu.
  destruct op as [n err|len n err|len|len]; cbn in Hop; destruct Hc as [-> | ->];
    cbn [conn_io conn_Read conn_Write conn_ReadPacket conn_WritePacket fst snd]; (split; [done|]);
    cbn [io_charge count_io io_up io_down];
    try rewrite counted_stream_bytes by lia; try rewrite counted_packet_bytes by lia;
    (apply paced_read || apply paced_write); auto.
Qed.

(** ** A whole connection *)

(** A wait that fails is the last one asked for. *)
Lemma wait_loop_refused wait burst fuel n d chunks e :
  wait_loop fuel wait burst n d = (chunks, Some e) → ∃ pre c, chunks = pre ++ [c] ∧ wait pre c = Some e.
Proof.
  revert n d. induction fuel as [|fuel IH]; intros n d; cbn; [done|]. case_bool_decide; [|done].
  set (chunk := if bool_decide (burst < n) then burst else n).
  destruct (wait d chunk) as [err|] eqn:Ew; [|apply IH]. intros [= <- <-]. eauto.
Qed.

(** What a call that moves [n] bytes asks of the user's bucket: nothing without
    a limiter; with one, chunks the limiter takes that add up to [n], or stop at
    a chunk the limiter refused.  The connection ignores the refusal and moves
    the bytes. *)
Definition paid (wait : list Z → Z → option error) (u : User) (n : Z) (chunks : list Z) : Prop :=
  match u_limiter u with
  | None => chunks = []
  | Some lim =>
      0 < lim_Burst lim →
      Forall (λ c, 0 < c ≤ lim_Burst lim) chunks
      ∧ (sum_by id chunks = n ∨ ∃ pre c e, chunks = pre ++ [c] ∧ wait pre c = Some e ∧ sum_by id chunks ≤ n)
  end.

Lemma paid_WaitN wait u n : 0 ≤ n → paid wait u n (WaitN wait u n).1.
Proof.
  intros Hn. unfold paid, WaitN, waitChunked. destruct (u_limiter u) as [lim|]; [|by case_bool_decide].
  intros Hb. case_bool_decide; [split; [constructor|left; cbn; lia]|]. rewrite bool_decide_eq_false_2 by lia.
  destruct (wait_loop (Z.to_nat n) wait (lim_Burst lim) n []) as [chunks [e|]] eqn:E;
    destruct (wait_loop_spec _ _ _ _ _ _ _ Hb Hn (le_n _) E) as (new & -> & Hf & Hle & Hsum); cbn [app fst] in *; (split; [done|]).
  - right. destruct (wait_loop_refused _ _ _ _ _ _ _ E) as (pre & c & Hc & Hw). by exists pre, c, e.
  - left. auto.
Qed.

Lemma conn_run_effect c k l ops w u :
  accounted c k l → Forall io_ok ops → user_at w k l = Some u → in_i64 (u_sent u) → in_i64 (u_recv u) →
  ∃ u' chunks, effect k l w (conn_run c w ops) u u' (concat chunks)
    ∧ u_sent u' = i64 (u_sent u + sum_by io_up ops) ∧ u_recv u' = i64 (u_recv u + sum_by io_down ops)
    ∧ Forall2 (paid (w_wait w) u) (io_charge <$> ops) chunks.
Proof.
  intros Hc Hops. revert w u. induction Hops as [|op ops Hop _ IH]; intros w u Hu Hs Hr; cbn [sum_by].
  - exists u, []. rewrite !Z.add_0_r, !i64_small by done. split; [by apply effect_refl|]. split_and!; try done; constructor.
  - destruct (io_step c k l w op u Hc Hop Hu) as [_ He].
    pose proof He as (Ew & _ & Hu1 & _ & _).
    assert (u_sent (count_io op u) = i64 (u_sent u + io_up op) ∧ u_recv (count_io op u) = i64 (u_recv u + io_down op)
            ∧ u_limiter (count_io op u) = u_limiter u ∧ 0 ≤ io_charge op) as (Es & Er & El & Hch).
    { destruct op; cbn in *; rewrite ?Z.add_0_r, ?(i64_small _ Hs), ?(i64_small _ Hr); split_and!; done || lia. }
    destruct (IH _ _ Hu1) as (u' & chunks & He2 & Es2 & Er2 & Hp2); [rewrite Es; apply i64_range|rewrite Er; apply i64_range|].
    exists u', ((WaitN (w_wait w) u (io_charge op)).1 :: chunks).
    split; [exact (effect_trans _ _ _ _ _ _ _ _ _ _ He He2)|].
    rewrite Es2, Er2, Es, Er, !i64_add. split; [f_equal; lia|]. split; [f_equal; lia|].
    constructor; [by apply paid_WaitN|]. rewrite Ew in Hp2. eapply Forall2_impl; [exact Hp2|].
    intros n cs. unfold paid. by rewrite El.
Qed.

(** The controller and user a connection belongs to, if SingR knows them. *)
Definition owner w (m : InboundContext) : option (nat * nat * Controller APIClient I) :=
  k ← GetContrlWithInTag (w_ss w) (m_Inbound m);
  nd ← ss_nodes (w_ss w) !! k;
  l ← LoadUser (k_author (nd_ctl nd)) (m_User m);
  Some (k, l, nd_ctl nd).

(** The audit rules reject the destination. *)
Definition forbidden (ct : Controller APIClient I) (m : InboundContext) : bool :=
  match m_Fqdn m, k_detectRules ct with
  | Some host, Some rules => bool_decide (host ≠ "") && bool_decide (is_Some (first_match host rules))
  | _, _ => false
  end.

Lemma RoutedConnection_shape dbg w now m w1 c :
  RoutedConnection dbg w now m RawConn = (w1, Ok c) →
  match owner w m with
  | None => c = RawConn
  | Some (k, l, ct) =>
      if forbidden ct m then c = BlockedConn RawConn errAuditBlocked ∧ w_closed w1 = true else accounted c k l
  end.
Proof.
  unfold RoutedConnection, owner. destruct (GetContrlWithInTag _ _) as [k|]; cbn; [|by intros [= <- <-]].
  unfold on_node at 1. destruct (ss_nodes (w_ss w) !! k) as [nd|] eqn:Ek; [|done]. cbn.
  destruct (ss_heap (w_ss w) !! nd_inbound nd) as [i|] eqn:Ei; [|done].
  unfold LoadOrCreateUserCounter. cbn. destruct (LoadUser (k_author (nd_ctl nd)) (m_User m)) as [l|] eqn:El; cbn.
  2: by intros [= <- <-].
  unfold forbidden. destruct (m_Fqdn m) as [host|]; cbn.
  - unfold on_node. cbn. rewrite list_lookup_insert_eq by (by eapply lookup_lt_Some). cbn.
    rewrite list_lookup_insert_eq by (by eapply lookup_lt_Some).
    unfold MatchAudit. cbn. destruct (k_detectRules (nd_ctl nd)) as [rules|]; cbn.
    + destruct (decide (host = "")) as [Hh|Hh].
      * rewrite bool_decide_eq_true_2, (bool_decide_eq_false_2 (host ≠ "")) by naive_solver. cbn.
        intros [= <- <-]. destruct dbg; [by right|by left].
      * rewrite bool_decide_eq_false_2, (bool_decide_eq_true_2 (host ≠ "")) by done. cbn.
        destruct (first_match host rules) as [id|]; cbn.
        -- intros [= <- <-]. done.
        -- intros [= <- <-]. destruct dbg; [by right|by left].
    + destruct (bool_decide (host = "")); intros [= <- <-]; (destruct dbg; [by right|by left]).
  - intros [= <- <-]. destruct dbg; [by right|by left].
Qed.

Lemma RoutedPacketConnection_shape w m w1 c :
  RoutedPacketConnection w m RawConn = (w1, Ok c) →
  match owner w m with None => c = RawConn | Some (k, l, _) => accounted c k l end.
Proof.
  unfold RoutedPacketConnection, owner. destruct (GetContrlWithInTag _ _) as [k|]; cbn; [|by intros [= <- <-]].
  unfold on_node. destruct (ss_nodes (w_ss w) !! k) as [nd|] eqn:Ek; [|done]. cbn.
  destruct (ss_heap (w_ss w) !! nd_inbound nd) as [i|] eqn:Ei; [|done].
  unfold LoadOrCreateUserCounter. cbn. destruct (LoadUser (k_author (nd_ctl nd)) (m_User m)) as [l|] eqn:El; cbn.
  - intros [= <- <-]. by left.
  - by intros [= <- <-].
Qed.

Lemma conn_run_raw w ops : conn_run RawConn w ops = w.
Proof. unfold conn_run. apply (foldl_inv (λ w', w' = w)); [done|]. by intros w' [] _ ->. Qed.

Definition routed (tcp dbg : bool) w (now : Z) (m : InboundContext) : world * result conn :=
  if tcp then RoutedConnection dbg w now m RawConn else RoutedPacketConnection w m RawConn.

End facts.

(** ** A limited user downloads through the second node of the shared inbound *)

#[local] Existing Instance Naive.naive_users.

Definition world0 : world :=
  {| w_ss := (PanelStart box0 NewPanel nodes0 0 envs0).1.1; w_closed := false; w_perRead := 0; w_perWrite := 0;
     w_wait := λ _ _, None; w_waits := [] |}.
Definition ctx0 : InboundContext :=
  {| m_Inbound := "in"; m_User := "u1"; m_Source := "9.9.9.9"; m_Fqdn := Some "example.com" |}.

